(* ===== verification/_CoqProject ===== *)
-Q . S2P
Prelude.v
PyDict.v
ParallelTopology.v
PyBytes.v
Sha256.v
RoutingMembership.v
RadixTree.v
RadixTreeFacts.v
RadixWalks.v
RadixForest.v
PrefixHash.v
PrefixIndex.v
PrefixIndexFacts.v
PrefixCapacity.v
PrefixTransfer.v
PrefixCommit.v
PrefixQueue.v
PrefixEviction.v
PrefixControl.v
PrefixSubtree.v
PrefixDemotion.v
PrefixReclaim.v
PrefixFreeable.v
PrefixContract.v
PrefixEpochs.v
PrefixGuarantees.v
SamplingParams.v
Sequence.v
SequenceFacts.v
PrefixLookup.v
PrefixHits.v
StandardCache.v
StandardOracle.v
SlotRanges.v
PrefixClient.v
PrefixRefs.v
StandardInvariant.v
StandardMoves.v
StandardIndex.v
StandardCaches.v
StandardSteps.v
StandardRecord.v
StandardRelease.v
StandardAttach.v
StandardReports.v
StandardMaterialize.v
StandardConsult.v
StandardPrefill.v
StandardDecode.v
StandardGuarantees.v
StandardAdmission.v
RecurrentRows.v
RecurrentFacts.v
RecurrentGuarantees.v
RecurrentBytes.v
PrefixCoordinator.v
CoordinatorInvariant.v
CoordinatorMoves.v
CoordinatorRecord.v
CoordinatorPlan.v
CoordinatorCommit.v
CoordinatorAttach.v
CoordinatorSteps.v
CoordinatorControl.v
CoordinatorGuarantees.v
PyStrings.v
MethodRegistry.v
Scheduler.v
SchedulerFacts.v
SchedulerDecode.v
SchedulerGuarantees.v
ChainCache.v
ChainCoordinator.v
ChainFacts.v
ChainGuarantees.v
PrefixPrune.v
RuntimeState.v
RuntimeFacts.v
RuntimeStartup.v
RuntimeGuarantees.v
