(* ===== verification/Prelude.v ===== *)
(** * Sparse-vLLM control plane

    A model of the control plane of Sparse-vLLM ([src/src/sparsevllm/]): what
    decides which request runs, which cached tokens are kept, and what a request
    may reuse.  Everything that computes on a device is outside.  This file is
    the root: it documents the library, and holds what the others share.

    ** The program

    A request is a [Sequence].  The [Scheduler] queues sequences, admits them
    against the budgets of a memory oracle, builds prefill and decode batches,
    and processes what the model produced.  The prefix cache keeps full blocks
    of past prompts: blocks are addressed by the digest of their content
    ([stable_prefix_block_id]), indexed by [RadixPrefixIndex] over a radix tree,
    live on the device, the host or both, and leave by eviction, demotion or
    deletion.  Methods that cannot share blocks keep whole conversations
    instead: the chain cache ([ChainCacheIndex], [ChainCacheCoordinator]).
    Models with recurrent layers keep one row of state per resident sequence
    ([RecurrentStateManager]); a row can be snapshotted into a prefix.  The
    standard cache manager ([StandardCacheManager]) owns the KV slots: it hands
    them to the rows of requests, gives full blocks of a row to the prefix index
    after a step, attaches cached blocks to new requests and takes everything
    back.  A model that has both kinds of layers shares prefixes through the
    [PrefixCacheCoordinator], which keeps blocks whose payload is keys and values
    together with a snapshot of the recurrent state.

    ** Files

    Shared: [Prelude] (exceptions, the state-and-exception monad [Act] with its
    three program logics [wp], [wpo] and [wpe], record update, lists), [PyDict]
    (insertion-ordered dictionaries), [PyBytes], [PyStrings], [Sha256] (Python's
    byte strings, strings and [hashlib.sha256]).

    [engine/prefix_cache.py]:
    - [RoutingMembership]: the persistent AVL set, [_PrefixCacheRoutingMembership].
    - [RadixTree]: [RadixTreeBackend], nodes in a heap.  [RadixTreeFacts] and
      [RadixWalks] prove its operations, [RadixForest] states the interface
      [BlockForest] that the index relies on and makes the tree an instance.
    - [PrefixHash]: block sizes, block ids, [PrefixCacheRoutingSnapshot].
    - [PrefixIndex]: [RadixPrefixIndex], every operation that changes it; blocks
      are numbered objects in a store because the code compares identities.
      [PrefixIndexFacts] has the invariant [index_wf], [PrefixCapacity] the
      meaning of the capacity views and the interface [FreeableQuery],
      [PrefixTransfer], [PrefixCommit], [PrefixQueue], [PrefixEviction],
      [PrefixControl], [PrefixSubtree], [PrefixDemotion], [PrefixReclaim] one
      group of operations each; [PrefixFreeable] is the walk of
      [freeable_block_ids] over the nodes of the tree, its instance.
      [PrefixContract] has the step relation of the public operations;
      [PrefixEpochs] what an unchanged remove epoch means;
      [PrefixGuarantees] the theorems.
    - [PrefixLookup]: the cached lookups of waiting requests and the cached
      capacity counts of a hit ([cache_manager/prefix_cache_mixin.py]), and the
      refresh of a hit ([prefix_cache_coordinator.py]); [PrefixHits]: what these
      caches keep true.
    - [PrefixClient]: what the operations promise to a manager that keeps block
      objects: references, liveness of objects, the blocks evicted;
      [PrefixRefs]: references counted against who holds them, and the blocks
      eviction can remove.

    [engine/cache_manager/standard.py] and [prefix_cache_mixin.py]:
    - [StandardCache]: [StandardCacheManager], its state and operations over the
      index; [StandardOracle]: what it tells the scheduler.
    - [SlotRanges]: row positions as ranges, their merge and complement.
    - [StandardInvariant] (who owns which slot, what is left), [StandardMoves]
      (slots between owners), [StandardIndex] (operations on the index),
      [StandardCaches] (the caches of hits stay right), [StandardSteps] (what
      steps keep), then a file per operation: [StandardRecord] (tokens into pending blocks),
      [StandardRelease] ([free_seq]), [StandardAttach] (and what a hit
      costs), [StandardReports] (each question of the scheduler),
      [StandardMaterialize] ([on_forward_end]), [StandardConsult] (a scheduling
      pass), [StandardPrefill], [StandardDecode]; [StandardGuarantees] and
      [StandardAdmission] the theorems.

    [engine/sequence.py], [sampling_params.py]: [SamplingParams], [Sequence],
    [SequenceFacts].  [method_registry.py]: [MethodRegistry].

    [engine/scheduler.py], [engine/prefill.py]: [Scheduler] (the deques, a
    round, post-processing), [SchedulerFacts] and [SchedulerDecode] (the two
    phases of a round), [SchedulerGuarantees] (theorems).  The memory oracle is
    the class [MemoryOracle].

    [engine/chain_cache.py]: [ChainCache] (the index), [ChainCoordinator],
    [ChainFacts] (invariant), [ChainGuarantees] (theorems).

    [engine/prefix_prune.py]: [PrefixPrune].
    [engine/recurrent_state_manager.py]: [RecurrentRows], [RecurrentFacts],
    [RecurrentGuarantees], [RecurrentBytes] (the size of snapshots).

    [engine/prefix_cache_coordinator.py]: [PrefixCoordinator], the coordinator
    over the index and the recurrent rows; the keys and values are the class
    [PrefixKV].  [CoordinatorInvariant] (references, reservations, limits),
    [CoordinatorMoves] (eviction and reservation), [CoordinatorRecord] and
    [CoordinatorPlan] (tokens into pending blocks), [CoordinatorCommit]
    (pending blocks into the index), [CoordinatorAttach], [CoordinatorSteps]
    (questions and room), [CoordinatorControl] (deletion, priority, release,
    reset); [CoordinatorGuarantees] the theorems.

    [engine/runtime_state.py]: [RuntimeState], the facade over the memory owners
    (class [MemoryOwners]) and the instance of [MemoryOracle] the scheduler is
    given; [RuntimeFacts] (who can become resident), [RuntimeStartup] (the
    startup check), [RuntimeGuarantees] (scheduler and runtime together).

    [distributed/topology.py], [distributed/sharding.py] and the construction
    in [distributed/parallel_context.py]: [ParallelTopology].

    ** Conventions

    A function that may raise returns [exc] (a value or an exception: its class
    and the constant head of its message); one that also writes state is an
    [Act], which keeps the state reached when it raises.  Python integers are
    [Z]; the token ids that are packed into words are checked against the
    width, as [struct.pack] and [array] do.  Floats are rationals, infinities
    and NaN, without rounding, and are only compared.  A mutable object with several
    holders lives in a store under its identity (tree nodes, prefix blocks,
    sequences); one with a single holder is a value.

    ** What the theorems show

    - Invariants of every reachable state, refused and raising operations
      included: the prefix index ([reachable_index_consistent], whose views
      are those of the freeable, evictable and device-freeable blocks), the chain
      index ([chain_index_consistent]), the recurrent rows ([rows_partitioned]),
      the resident sequences of scheduler and runtime together
      ([residents_within_limit]), the slots and references of the standard
      manager ([slots_partitioned], [references_counted]), the references and
      reservations of the coordinator ([held_and_reserved_exactly], where only a
      reset that raises while blocks wait is excluded).  The queues of the
      scheduler ([requests_queued_once]) are right after operations that return:
      a round that raises loses the request it had popped.
    - Isolation of requests: a live slot is neither free nor writable by another
      request ([live_slots_protected], [step_writes_own_slots]), an operation
      changes only the requests it names ([requests_unaffected]), a hit is read
      from its own chain ([attach_reads_hit_chain]).
    - Refinement: the AVL set is a set, the radix tree a forest of blocks; a
      routing snapshot answers as the index does.
    - What each operation does on every branch: insertion, eviction, demotion,
      deletion, capacity queries ([capacity_queries_exact],
      [freeable_query_exact]), lookups, rounds, replay, pruning, admission; a
      transfer completes exactly when the residency state machine and the
      block's neighbours permit it ([transfer_state_machine]).
    - Agreement: cached and incremental computations equal their definitions
      (capacity queries, lookups of waiting requests, the unique-token buffer,
      the startup check), ranks agree
      on a plan.
    - Round trips: a sequence to a worker and back, a finished chain to its
      continuation (and to nothing else, unless the two token prefixes collide
      under SHA-256), a recurrent snapshot to its restoration.
    - Composition of the scheduler's questions with the manager's steps: reports
      are exact at any point of a pass ([pass_reports_exact],
      [pass_prompt_costs]) and what they allow is executed
      ([admitted_batch_prefills], [decode_batch_proceeds]).
    - The coordinator: a failed attach leaves no trace
      ([attach_all_or_nothing]), what is recorded does not depend on the chunks
      ([recording_ignores_chunking]), a ready step records and commits the
      tokens of its batch, refuses no block that fits and leaves nothing waiting
      ([ready_step_completes]), the reported slots are those that can be
      evicted ([evict_for_slots_exact]), [reset_exact].
    - Parallel runs: the groups of every dimension partition the ranks
      ([groups_partition_world]), and the contexts that the processes build on
      their own agree ([contexts_agree]).
    - Bounds and progress: batch limits, the AVL height, decode rounds, the
      coordinator's limits on blocks and snapshot bytes
      ([blocks_and_bytes_within_limits], [snapshot_has_declared_size]).
    - Three theorems record defects: [device_reclaimable_view_goes_stale],
      [failed_reset_loses_reservations] and
      [prefill_normalization_not_idempotent].

    ** Fuel

    Loops that are not structural take fuel and yield [LoopFuel] (or their
    argument) without it; every theorem about them shows the fuel given suffices.
    Tree walks take the number of nodes or blocks: a walk visits a node at most
    twice.  Eviction and demotion take one more than the number of blocks, each
    round removing one block or stopping.  The tombstones of the chain cache are
    trimmed with their number.

    ** Not modelled

    Devices: kernels, operators, layers, models, graph capture, streams; the
    managers of the sparse methods and their page tables.  Towards the scheduler
    and the chain cache, cache managers and PyTorch appear as the
    classes [MemoryOwners], [TorchTypes] and the record [ChainCacheManager].
    Of the standard manager the tensors of keys and values, the checks of the
    storage on a slot mapping, static decode buffers, pruned payloads, the payload
    interface of the mixed coordinator and offload to the host are missing; its
    invariant is the one of a manager without offload and pruning.  Logging,
    the [SPARSEVLLM_DEBUG_SLOTS] diagnostics, statistics dictionaries made for
    reports and the variable parts of messages are left out, and so are
    random identifiers ([new_chain_id]) and the JSON fingerprints of
    configurations, which are arguments.  The context that freezes capacity
    during a round ([scheduler_capacity_snapshot]) is modelled in the standard
    manager and not in the scheduler, whose oracle is any state machine.  Scores that are NaN are
    excluded from pruning, since Python's sort leaves their order open.
    Of the prefix cache coordinator the offload tier is missing (its transfers,
    polling, write-through and host eviction), and so are the queries that only
    report ([inspect], [match], [stats], [debug_state_summary]).  The engine
    processes, the entry points and the configuration files are not modelled. *)

From stdpp Require Import base gmap strings list fin_maps sorting.
From Stdlib Require Import ZArith Lia.

Open Scope Z_scope.

(** ** Python exceptions and fallible code

    A function that can raise returns an [outcome]; the payload of an
    exception is its class and the constant head of its message. *)

Inductive PyExn :=
| ValueError (msg : string)
| RuntimeError (msg : string)
| KeyError (msg : string)
| TypeError (msg : string)
| IndexError (msg : string)
| AttributeError (msg : string)
| NotImplementedError (msg : string)
| StructError (msg : string)
| AssertionError (msg : string)
| ZeroDivisionError
| LoopFuel.

#[export] Instance PyExn_eq_dec : EqDecision PyExn.
Proof. solve_decision. Defined.

Inductive outcome (E A : Type) :=
| Ok (a : A)
| Raise (e : E).
Arguments Ok {E A} a.
Arguments Raise {E A} e.

#[export] Instance outcome_ret E : MRet (outcome E) := fun A a => Ok a.
#[export] Instance outcome_bind E : MBind (outcome E) := fun A B f m =>
  match m with Ok a => f a | Raise e => Raise e end.
#[export] Instance outcome_fmap E : FMap (outcome E) := fun A B f m =>
  match m with Ok a => Ok (f a) | Raise e => Raise e end.

Definition exc := outcome PyExn.

Definition is_ok {E A} (m : outcome E A) : bool :=
  match m with Ok _ => true | Raise _ => false end.

(** ** State and exceptions

    An exception does not undo the writes made before it was raised, so the
    state is returned beside the outcome and not inside it. *)

Definition Act (E S A : Type) : Type := S -> outcome E A * S.

#[export] Instance Act_ret E S : MRet (Act E S) := fun A a s => (Ok a, s).
#[export] Instance Act_bind E S : MBind (Act E S) := fun A B f m s =>
  match m s with
  | (Ok a, s') => f a s'
  | (Raise e, s') => (Raise e, s')
  end.

Definition read {E S A} (f : S -> A) : Act E S A := fun s => (Ok (f s), s).
Definition modify {E S} (f : S -> S) : Act E S unit := fun s => (Ok tt, f s).
Definition throw {E S A} (e : E) : Act E S A := fun s => (Raise e, s).
Definition lift {E S A} (m : outcome E A) : Act E S A := fun s => (m, s).
(** [guard_not c e]: Python's [if c: raise e]. *)
Definition guard_not {E S} (c : bool) (e : E) : Act E S unit :=
  fun s => if c then (Raise e, s) else (Ok tt, s).
(** [when c m]: Python's [if c: m]. *)
Definition when {E S} (c : bool) (m : Act E S unit) : Act E S unit :=
  fun s => if c then m s else (Ok tt, s).

(** [try: m finally: h] *)
Definition finally {E S A} (m : Act E S A) (h : Act E S unit) : Act E S A := fun s =>
  let '(r, s1) := m s in
  match h s1 with (Ok _, s2) => (r, s2) | (Raise e, s2) => (Raise e, s2) end.
(** [try: m except BaseException: h; raise] *)
Definition on_error {E S A} (m : Act E S A) (h : Act E S unit) : Act E S A := fun s =>
  match m s with
  | (Ok a, s1) => (Ok a, s1)
  | (Raise e, s1) => match h s1 with (Ok _, s2) => (Raise e, s2) | (Raise e', s2) => (Raise e', s2) end
  end.

(** [try: m] with the exception kept as a value. *)
Definition attempt {E S A} (m : Act E S A) : Act E S (outcome E A) := fun s => let '(r, s') := m s in (Ok r, s').

Fixpoint for_each {E S A} (l : list A) (f : A -> Act E S unit) : Act E S unit :=
  match l with
  | [] => mret tt
  | x :: l' => f x ;; for_each l' f
  end.

(** Reducing a run of an action one primitive at a time. *)
Ltac act_unfold :=
  cbv [mbind Act_bind outcome_bind mret Act_ret outcome_ret read modify throw
       lift guard_not when] in *.

(** *** Weakest preconditions

    [wp m Q s]: running [m] from [s] ends in an outcome and a state that
    satisfy [Q].  Each rule consumes one primitive; [wp_step] picks it. *)
Definition wp {E S A} (m : Act E S A) (Q : outcome E A -> S -> Prop) (s : S) : Prop :=
  Q (m s).1 (m s).2.

Section wp.
Context {E S : Type}.

Lemma wp_mono {A} (m : Act E S A) (Q Q' : outcome E A -> S -> Prop) s :
  wp m Q s -> (forall r s', Q r s' -> Q' r s') -> wp m Q' s.
Proof. unfold wp. auto. Qed.
Lemma wp_bind {A B} (m : Act E S A) (f : A -> Act E S B) Q s :
  wp m (fun r s' => match r with Ok a => wp (f a) Q s' | Raise e => Q (Raise e) s' end) s ->
  wp (m ≫= f) Q s.
Proof. unfold wp, mbind, Act_bind. by destruct (m s) as [[a|e] s']. Qed.
Lemma wp_bind_inv {A B} (m : Act E S A) (f : A -> Act E S B) Q s :
  wp (m ≫= f) Q s ->
  wp m (fun r s' => match r with Ok a => wp (f a) Q s' | Raise e => Q (Raise e) s' end) s.
Proof. unfold wp, mbind, Act_bind. by destruct (m s) as [[a|e] s']. Qed.
Lemma wp_ret {A} (a : A) (Q : outcome E A -> S -> Prop) s : Q (Ok a) s -> wp (mret a) Q s.
Proof. done. Qed.
Lemma wp_read {A} (f : S -> A) (Q : outcome E A -> S -> Prop) s : Q (Ok (f s)) s -> wp (read f) Q s.
Proof. done. Qed.
Lemma wp_modify (f : S -> S) (Q : outcome E unit -> S -> Prop) s : Q (Ok tt) (f s) -> wp (modify f) Q s.
Proof. done. Qed.
Lemma wp_throw {A} e (Q : outcome E A -> S -> Prop) s : Q (Raise e) s -> wp (throw e) Q s.
Proof. done. Qed.
Lemma wp_lift {A} (m : outcome E A) (Q : outcome E A -> S -> Prop) s : Q m s -> wp (lift m) Q s.
Proof. done. Qed.
Lemma wp_guard c e (Q : outcome E unit -> S -> Prop) s :
  (c = true -> Q (Raise e) s) -> (c = false -> Q (Ok tt) s) -> wp (guard_not c e) Q s.
Proof. destruct c; unfold wp, guard_not; auto. Qed.
Lemma wp_when c (m : Act E S unit) Q s :
  (c = true -> wp m Q s) -> (c = false -> Q (Ok tt) s) -> wp (when c m) Q s.
Proof. destruct c; unfold wp, when; auto. Qed.
Lemma wp_if {A} (c : bool) (m1 m2 : Act E S A) Q s :
  (c = true -> wp m1 Q s) -> (c = false -> wp m2 Q s) -> wp (if c then m1 else m2) Q s.
Proof. destruct c; auto. Qed.
Lemma wp_run {A} (m : Act E S A) Q s : wp m Q s -> Q (m s).1 (m s).2.
Proof. done. Qed.
Lemma wp_finally {A} (m : Act E S A) (h : Act E S unit) (Q : outcome E A -> S -> Prop) s :
  wp m (fun x s1 => wp h (fun y s2 => Q match y with Ok _ => x | Raise e => Raise e end s2) s1) s -> wp (finally m h) Q s.
Proof. unfold wp, finally. destruct (m s) as [x s1]. cbn. by destruct (h s1) as [[]]. Qed.
Lemma wp_on_error {A} (m : Act E S A) (h : Act E S unit) (Q : outcome E A -> S -> Prop) s :
  wp m (fun r s' => match r with
    | Ok _ => Q r s'
    | Raise e => wp h (fun r' s'' => match r' with Ok _ => Q (Raise e) s'' | Raise e' => Q (Raise e') s'' end) s'
    end) s -> wp (on_error m h) Q s.
Proof. unfold wp, on_error. destruct (m s) as [[a|e] s1]; [done|]. cbn. by destruct (h s1) as [[[]|e'] s2]. Qed.
Lemma wp_attempt {A} (m : Act E S A) (Q : outcome E (outcome E A) -> S -> Prop) s : wp m (fun r s' => Q (Ok r) s') s -> wp (attempt m) Q s.
Proof. unfold wp, attempt. by destruct (m s). Qed.
End wp.

Ltac wp_step :=
  lazymatch goal with
  | |- wp (mbind _ _) _ _ => apply wp_bind
  | |- wp (mret _) _ _ => apply wp_ret
  | |- wp (read _) _ _ => apply wp_read
  | |- wp (modify _) _ _ => apply wp_modify
  | |- wp (throw _) _ _ => apply wp_throw
  | |- wp (lift _) _ _ => apply wp_lift
  | |- wp (guard_not _ _) _ _ => apply wp_guard; [intros ?|intros ?]
  | |- wp (when _ _) _ _ => apply wp_when; [intros ?|intros ?]
  | |- wp (if _ then _ else _) _ _ => apply wp_if; [intros ?|intros ?]
  end; cbv beta iota.

(** *** What holds when an action returns

    [wpo m P s]: if [m] returns [a] from [s], [P] holds of [a] and the state it
    leaves; raising is allowed. *)
Definition wpo {E S A} (m : Act E S A) (P : A -> S -> Prop) (s : S) : Prop :=
  wp m (fun r s' => match r with Ok a => P a s' | Raise _ => True end) s.

Section wpo.
Context {E S : Type}.

Lemma wpo_mono {A} (m : Act E S A) (P P' : A -> S -> Prop) s :
  wpo m P s -> (forall a s', P a s' -> P' a s') -> wpo m P' s.
Proof. unfold wpo. intros Hm HP. eapply wp_mono; [exact Hm|]. intros [a|e] s'; [apply HP|done]. Qed.
Lemma wpo_bind {A B} (m : Act E S A) (f : A -> Act E S B) P s :
  wpo m (fun a s' => wpo (f a) P s') s -> wpo (m ≫= f) P s.
Proof. unfold wpo. intros Hm. apply wp_bind. eapply wp_mono; [exact Hm|]. by intros [a|e] s'. Qed.
Lemma wpo_ret {A} (a : A) (P : A -> S -> Prop) s : P a s -> wpo (E := E) (mret a) P s.
Proof. done. Qed.
Lemma wpo_read {A} (f : S -> A) (P : A -> S -> Prop) s : P (f s) s -> wpo (E := E) (read f) P s.
Proof. done. Qed.
Lemma wpo_modify (f : S -> S) (P : unit -> S -> Prop) s : P tt (f s) -> wpo (E := E) (modify f) P s.
Proof. done. Qed.
Lemma wpo_throw {A} e (P : A -> S -> Prop) s : wpo (E := E) (throw e) P s.
Proof. done. Qed.
Lemma wpo_lift {A} (m : outcome E A) (P : A -> S -> Prop) s : (forall a, m = Ok a -> P a s) -> wpo (lift m) P s.
Proof. unfold wpo, wp, lift. cbn. destruct m; auto. Qed.
Lemma wpo_guard c e (P : unit -> S -> Prop) s : (c = false -> P tt s) -> wpo (E := E) (guard_not c e) P s.
Proof. intros H. apply wp_guard; [done|exact H]. Qed.
Lemma wpo_when c (m : Act E S unit) P s :
  (c = true -> wpo m P s) -> (c = false -> P tt s) -> wpo (when c m) P s.
Proof. intros Ht Hf. apply wp_when; [exact Ht|exact Hf]. Qed.
Lemma wpo_if {A} (c : bool) (m1 m2 : Act E S A) P s :
  (c = true -> wpo m1 P s) -> (c = false -> wpo m2 P s) -> wpo (if c then m1 else m2) P s.
Proof. destruct c; auto. Qed.
(** An invariant of the body holds after the loop. *)
Lemma wpo_for_each {A} (l : list A) (f : A -> Act E S unit) (I : list A -> S -> Prop) s :
  I l s -> (forall x l' s, I (x :: l') s -> wpo (f x) (fun _ s' => I l' s') s) ->
  wpo (for_each l f) (fun _ s' => I [] s') s.
Proof.
  intros Hi Hf. revert s Hi. induction l as [|x l IH]; intros s' Hi; [exact Hi|].
  apply wpo_bind. eapply wpo_mono; [by apply Hf|]. intros [] s''. apply IH.
Qed.
Lemma wpo_run {A} (m : Act E S A) P s a s' : wpo m P s -> m s = (Ok a, s') -> P a s'.
Proof. unfold wpo, wp. intros H E0. by rewrite E0 in H. Qed.
End wpo.

Ltac wpo_step :=
  lazymatch goal with
  | |- wpo (mbind _ _) _ _ => apply wpo_bind
  | |- wpo (mret _) _ _ => apply wpo_ret
  | |- wpo (read _) _ _ => apply wpo_read
  | |- wpo (modify _) _ _ => apply wpo_modify
  | |- wpo (throw _) _ _ => apply wpo_throw
  | |- wpo (lift _) _ _ => apply wpo_lift; intros ? ?
  | |- wpo (guard_not _ _) _ _ => apply wpo_guard; intros ?
  | |- wpo (when _ _) _ _ => apply wpo_when; [intros ?|intros ?]
  | |- wpo (if _ then _ else _) _ _ => apply wpo_if; [intros ?|intros ?]
  end; cbv beta iota.

(** [wpe X m P s]: [m] run from [s] either returns with [P] or raises an
    exception of [X]. *)
Definition wpe {E S A} (X : E -> Prop) (m : Act E S A) (P : A -> S -> Prop) (s : S) : Prop :=
  wp m (fun r s' => match r with Ok a => P a s' | Raise e => X e end) s.

Section wpe.
Context {E S : Type} (X : E -> Prop).

Lemma wpe_mono {A} (m : Act E S A) (P P' : A -> S -> Prop) s :
  wpe X m P s -> (forall a s', P a s' -> P' a s') -> wpe X m P' s.
Proof. unfold wpe. intros Hm HP. eapply wp_mono; [exact Hm|]. intros [a|e] s'; [apply HP|done]. Qed.
Lemma wpe_bind {A B} (m : Act E S A) (f : A -> Act E S B) P s :
  wpe X m (fun a s' => wpe X (f a) P s') s -> wpe X (m ≫= f) P s.
Proof. unfold wpe. intros Hm. apply wp_bind. eapply wp_mono; [exact Hm|]. by intros [a|e] s'. Qed.
Lemma wpe_ret {A} (a : A) (P : A -> S -> Prop) s : P a s -> wpe X (mret a) P s.
Proof. done. Qed.
Lemma wpe_read {A} (f : S -> A) (P : A -> S -> Prop) s : P (f s) s -> wpe X (read f) P s.
Proof. done. Qed.
Lemma wpe_modify (f : S -> S) (P : unit -> S -> Prop) s : P tt (f s) -> wpe X (modify f) P s.
Proof. done. Qed.
Lemma wpe_throw {A} e (P : A -> S -> Prop) s : X e -> wpe X (throw e) P s.
Proof. done. Qed.
Lemma wpe_guard c e (P : unit -> S -> Prop) s :
  (c = true -> X e) -> (c = false -> P tt s) -> wpe X (guard_not c e) P s.
Proof. intros H1 H2. apply wp_guard; auto. Qed.
Lemma wpe_when c (m : Act E S unit) P s :
  (c = true -> wpe X m P s) -> (c = false -> P tt s) -> wpe X (when c m) P s.
Proof. intros Ht Hf. apply wp_when; [exact Ht|exact Hf]. Qed.
Lemma wpe_if {A} (c : bool) (m1 m2 : Act E S A) P s :
  (c = true -> wpe X m1 P s) -> (c = false -> wpe X m2 P s) -> wpe X (if c then m1 else m2) P s.
Proof. destruct c; auto. Qed.
Lemma wpe_for_each {A} (l : list A) (f : A -> Act E S unit) (I : list A -> S -> Prop) s :
  I l s -> (forall x l' s, I (x :: l') s -> wpe X (f x) (fun _ s' => I l' s') s) ->
  wpe X (for_each l f) (fun _ s' => I [] s') s.
Proof.
  intros Hi Hf. revert s Hi. induction l as [|x l IH]; intros s' Hi; [exact Hi|].
  apply wpe_bind. eapply wpe_mono; [by apply Hf|]. intros [] s''. apply IH.
Qed.
Lemma wpe_lift {A} (m : outcome E A) (P : A -> S -> Prop) s :
  (forall a, m = Ok a -> P a s) -> (forall e, m = Raise e -> X e) -> wpe X (lift m) P s.
Proof. unfold wpe, wp, lift. cbn. destruct m; auto. Qed.
Lemma wpe_wpo {A} (m : Act E S A) P s : wpe X m P s -> wpo m P s.
Proof. unfold wpe, wpo. intros Hm. eapply wp_mono; [exact Hm|]. by intros [a|e] s'. Qed.
Lemma wpe_run {A} (m : Act E S A) P s : wpe X m P s ->
  match m s with (Ok a, s') => P a s' | (Raise e, _) => X e end.
Proof. unfold wpe, wp. by destruct (m s) as [[a|e] s']. Qed.
End wpe.

Ltac wpe_step :=
  lazymatch goal with
  | |- wpe _ (mbind _ _) _ _ => apply wpe_bind
  | |- wpe _ (mret _) _ _ => apply wpe_ret
  | |- wpe _ (read _) _ _ => apply wpe_read
  | |- wpe _ (modify _) _ _ => apply wpe_modify
  | |- wpe _ (throw _) _ _ => apply wpe_throw
  | |- wpe _ (lift _) _ _ => apply wpe_lift; intros ? ?
  | |- wpe _ (guard_not _ _) _ _ => apply wpe_guard; intros ?
  | |- wpe _ (when _ _) _ _ => apply wpe_when; [intros ?|intros ?]
  | |- wpe _ (if _ then _ else _) _ _ => apply wpe_if; [intros ?|intros ?]
  end; cbv beta iota.

(** *** Invariants of actions that may raise *)

Definition keep {E S A} (I : S -> Prop) (a : Act E S A) : Prop := forall s, I s -> wp a (fun _ s' => I s') s.

Section keep.
Context {E S : Type} (I : S -> Prop).

Lemma keep_bind {A B} (a : Act E S A) (f : A -> Act E S B) : keep I a -> (forall x, keep I (f x)) -> keep I (a ≫= f).
Proof. intros Ha Hf s Hs. apply wp_bind. eapply wp_mono; [by apply Ha|]. intros [x|e] s' Hs'; [by apply Hf|done]. Qed.
Lemma keep_ret {A} (x : A) : keep I (mret x : Act E S A).
Proof. by intros s Hs. Qed.
Lemma keep_read {A} (f : S -> A) : keep I (read f : Act E S A).
Proof. by intros s Hs. Qed.
Lemma keep_throw {A} e : keep I (throw e : Act E S A).
Proof. by intros s Hs. Qed.
Lemma keep_lift {A} (x : outcome E A) : keep I (lift x).
Proof. by intros s Hs. Qed.
Lemma keep_guard c e : keep I (guard_not c e : Act E S unit).
Proof. intros s Hs. by apply wp_guard. Qed.
Lemma keep_when c (a : Act E S unit) : keep I a -> keep I (when c a).
Proof. intros Ha. destruct c; [exact Ha|apply (keep_ret tt)]. Qed.
Lemma keep_for_each {A} (l : list A) (f : A -> Act E S unit) : (forall x, keep I (f x)) -> keep I (for_each l f).
Proof. intros Hf. induction l as [|x l IH]; [apply (keep_ret tt)|]. apply keep_bind; [apply Hf|by intros _]. Qed.
Lemma keep_modify (f : S -> S) : (forall s, I s -> I (f s)) -> keep I (modify f : Act E S unit).
Proof. intros Hf s. apply Hf. Qed.
End keep.

Create HintDb keep.
#[export] Hint Resolve keep_ret keep_read keep_throw keep_lift keep_guard : keep.
Ltac keep_step :=
  lazymatch goal with
  | |- forall _, _ => intros ?
  | |- keep _ (mbind _ _) => apply keep_bind
  | |- keep _ (for_each _ _) => apply keep_for_each
  | |- keep _ (when _ _) => apply keep_when
  | |- keep _ (match ?x with _ => _ end) => destruct x
  | |- keep _ _ => solve [eauto with keep]
  end.
Ltac keep_auto := repeat (keep_step; cbv beta iota zeta).

(** One bind of a fallible computation whose outcome is known. *)
Ltac bind_simpl :=
  cbn [mbind outcome_bind mret outcome_ret fmap outcome_fmap negb fst snd].

(** ** Record update

    [r <| f := v |>] is [r] with field [f] set to [v].  A record opts in by
    giving its [Eta] instance, from which every field's update is derived. *)

Class Eta (R : Type) := eta_record : R -> R.
Class Update {R A : Type} (f : R -> A) := update_with : (A -> A) -> R -> R.
Arguments update_with {R A} f {Update} g r /.

Ltac derive_update :=
  lazymatch goal with
  | |- @Update ?R ?A ?f =>
      let inst := constr:(_ : Eta R) in
      let b := eval hnf in inst in
      exact (fun (new_field : A -> A) (old_record : R) =>
        ltac:(let t := eval cbv beta in (b old_record) in
              let p := eval pattern (f old_record) in t in
              match p with ?F _ =>
                let q := eval cbv beta in (F (new_field (f old_record))) in exact q end))
  end.
#[export] Hint Extern 1 (Update _) => derive_update : typeclass_instances.

Notation "r <| f := v |>" := (update_with f (fun _ => v) r)
  (at level 1, left associativity, format "r  <| f  :=  v |>").
Notation "r <| f ::= g |>" := (update_with f g r)
  (at level 1, left associativity, format "r  <| f  ::=  g |>").

(** ** Tactics *)

(** Splits every [match]/[if] of the goal or of a hypothesis, keeping the equation. *)
Ltac split_match :=
  match goal with
  | |- context [match ?x with _ => _ end] => destruct x eqn:?
  | H : context [match ?x with _ => _ end] |- _ => destruct x eqn:?
  end.
Ltac split_matches := repeat (split_match; simplify_eq/=).

(** Turns the boolean tests of the code into propositions. *)
Ltac bool_to_prop :=
  repeat match goal with
  | H : _ && _ = true |- _ => apply andb_true_iff in H; destruct H
  | H : _ || _ = false |- _ => apply orb_false_iff in H; destruct H
  | H : negb _ = true |- _ => apply negb_true_iff in H
  | H : negb _ = false |- _ => apply negb_false_iff in H
  | H : (_ <? _) = true |- _ => apply Z.ltb_lt in H
  | H : (_ <? _) = false |- _ => apply Z.ltb_ge in H
  | H : (_ <=? _) = true |- _ => apply Z.leb_le in H
  | H : (_ <=? _) = false |- _ => apply Z.leb_gt in H
  | H : (_ =? _) = true |- _ => apply Z.eqb_eq in H
  | H : (_ =? _) = false |- _ => apply Z.eqb_neq in H
  | H : bool_decide _ = true |- _ => apply bool_decide_eq_true in H
  | H : bool_decide _ = false |- _ => apply bool_decide_eq_false in H
  end.

(** ** Integers *)

(** Python's [sum]. *)
Definition sumZ (l : list Z) : Z := foldr Z.add 0 l.

Lemma sumZ_app l1 l2 : sumZ (l1 ++ l2) = sumZ l1 + sumZ l2.
Proof. induction l1; simpl in *; lia. Qed.

Lemma sumZ_perm l1 l2 : l1 ≡ₚ l2 -> sumZ l1 = sumZ l2.
Proof. induction 1; simpl in *; lia. Qed.

Lemma sumZ_nonneg l : Forall (fun x => 0 <= x) l -> 0 <= sumZ l.
Proof. induction 1; simpl; lia. Qed.

#[export] Instance sumZ_proper : Proper ((≡ₚ) ==> eq) sumZ.
Proof. intros l1 l2 H. by apply sumZ_perm. Qed.

(** ** Lists *)

(** [l[i:j]] for [0 <= i]: Python slices clip at the ends. *)
Definition slice {A} (i j : Z) (l : list A) : list A :=
  take (Z.to_nat (j - i)) (drop (Z.to_nat i) l).

Lemma length_slice {A} i j (l : list A) :
  0 <= i <= j -> j <= Z.of_nat (length l) -> Z.of_nat (length (slice i j l)) = j - i.
Proof. intros. unfold slice. rewrite length_take, length_drop. lia. Qed.

Lemma slice_lookup {A} i j (l : list A) (k : nat) :
  Z.of_nat k < j - i -> slice i j l !! k = l !! (Z.to_nat i + k)%nat.
Proof. intros. unfold slice. rewrite lookup_take_lt by lia. apply lookup_drop. Qed.

Lemma last_snoc_inv {A} (l : list A) x : last l = Some x -> exists l', l = l' ++ [x].
Proof.
  intros H. destruct l as [|y l _] using rev_ind; [done|].
  rewrite last_snoc in H. simplify_eq. by exists l.
Qed.

Lemma app_cons_snoc {A} (l1 : list A) x l2 : l1 ++ x :: l2 = (l1 ++ [x]) ++ l2.
Proof. by rewrite <- app_assoc. Qed.

(** The last element of [l], or what was last before it. *)
Definition last_or {A} (prev : option A) (l : list A) : option A :=
  match last l with Some x => Some x | None => prev end.

Lemma last_or_app {A} (prev : option A) l1 l2 : last_or prev (l1 ++ l2) = last_or (last_or prev l1) l2.
Proof. unfold last_or. rewrite last_app. by destruct (last l2). Qed.

(** The length of the longest prefix whose elements all satisfy [f]. *)
Fixpoint count_while {A} (f : A -> bool) (l : list A) : nat :=
  match l with
  | [] => O
  | x :: l' => if f x then S (count_while f l') else O
  end.

Lemma count_while_le {A} (f : A -> bool) l : (count_while f l <= length l)%nat.
Proof. induction l as [|x l IH]; simpl; [done|]. destruct (f x); lia. Qed.

Lemma count_while_true {A} (f : A -> bool) l i x :
  (i < count_while f l)%nat -> l !! i = Some x -> f x = true.
Proof.
  revert i. induction l as [|y l IH]; intros i; simpl; [lia|].
  destruct (f y) eqn:Hy; [|lia]. destruct i; simpl; [congruence|]. intros. eapply IH; [|done]. lia.
Qed.

Lemma count_while_stop {A} (f : A -> bool) l x : l !! count_while f l = Some x -> f x = false.
Proof. induction l as [|y l IH]; simpl; [done|]. destruct (f y) eqn:Hy; [done|]. simpl. congruence. Qed.

Create HintDb py.
#[export] Hint Resolve sumZ_nonneg : py.
