(* ===== verification/PyDict.v ===== *)
(** * Insertion-ordered dictionaries

    Python's [dict] (and [OrderedDict]): a finite map whose iteration order is
    the order in which the keys were first inserted.  Storing under a present
    key keeps its place; deleting and storing again moves it to the end. *)

From stdpp Require Import base gmap list.
From Stdlib Require Import ZArith Lia.
From S2P Require Import Prelude.

Record PyDict (K V : Type) := mkDict { items : list (K * V) }.
Arguments mkDict {K V} items.
Arguments items {K V} _.

Section ops.
Context {K V : Type} `{EqDecision K}.

Fixpoint assoc (k : K) (l : list (K * V)) : option V :=
  match l with
  | [] => None
  | (k', v) :: l' => if decide (k' = k) then Some v else assoc k l'
  end.

Fixpoint assoc_set (k : K) (v : V) (l : list (K * V)) : list (K * V) :=
  match l with
  | [] => [(k, v)]
  | (k', v') :: l' =>
      if decide (k' = k) then (k, v) :: l' else (k', v') :: assoc_set k v l'
  end.

#[global] Instance dict_lookup : Lookup K V (PyDict K V) := fun k d => assoc k (items d).
#[global] Instance dict_insert : Insert K V (PyDict K V) := fun k v d => mkDict (assoc_set k v (items d)).
#[global] Instance dict_delete : Delete K (PyDict K V) := fun k d =>
  mkDict (List.filter (fun kv => negb (bool_decide (kv.1 = k))) (items d)).
#[global] Instance dict_empty : Empty (PyDict K V) := mkDict [].

Definition keys (d : PyDict K V) : list K := (items d).*1.
Definition values (d : PyDict K V) : list V := (items d).*2.
Definition len (d : PyDict K V) : nat := length (items d).
(** [k in d] *)
Definition has_key (k : K) (d : PyDict K V) : bool := bool_decide (is_Some (d !! k)).
(** [OrderedDict.popitem(last=False)] *)
Definition pop_first (d : PyDict K V) : PyDict K V := mkDict (tail (items d)).

(** The dictionaries the operations build hold each key once. *)
Definition dict_wf (d : PyDict K V) : Prop := NoDup (keys d).
End ops.

Section facts.
Context {K V : Type} `{EqDecision K}.
Implicit Types (d : PyDict K V) (k : K) (v : V).

Lemma dict_lookup_insert_eq d k v : <[k:=v]> d !! k = Some v.
Proof.
  unfold lookup, dict_lookup, insert, dict_insert; simpl.
  induction (items d) as [|[k' v'] l IH]; simpl; [by rewrite decide_True|].
  case_decide; simpl; [by rewrite decide_True|by rewrite decide_False].
Qed.

Lemma dict_lookup_insert_ne d k k' v : k <> k' -> <[k:=v]> d !! k' = d !! k'.
Proof.
  intros Hne. unfold lookup, dict_lookup, insert, dict_insert; simpl.
  induction (items d) as [|[k1 v1] l IH]; simpl; [by rewrite decide_False|].
  case_decide; simplify_eq/=; [by rewrite !decide_False|].
  case_decide; simplify_eq; auto.
Qed.

Lemma dict_lookup_insert d k k' v :
  <[k:=v]> d !! k' = if decide (k = k') then Some v else d !! k'.
Proof.
  case_decide; subst; [apply dict_lookup_insert_eq|by apply dict_lookup_insert_ne].
Qed.

Lemma dict_lookup_delete_eq d k : delete k d !! k = None.
Proof.
  unfold lookup, dict_lookup, delete, dict_delete; simpl.
  induction (items d) as [|[k' v'] l IH]; simpl; [done|].
  case_bool_decide; simpl; [done|]. by rewrite decide_False.
Qed.

Lemma dict_lookup_delete_ne d k k' : k <> k' -> delete k d !! k' = d !! k'.
Proof.
  intros Hne. unfold lookup, dict_lookup, delete, dict_delete; simpl.
  induction (items d) as [|[k1 v1] l IH]; simpl; [done|].
  case_bool_decide; simplify_eq/=; [by rewrite decide_False|].
  case_decide; simplify_eq; auto.
Qed.

Lemma dict_lookup_delete d k k' :
  delete k d !! k' = if decide (k = k') then None else d !! k'.
Proof.
  case_decide; subst; [apply dict_lookup_delete_eq|by apply dict_lookup_delete_ne].
Qed.

Lemma dict_lookup_empty k : (∅ : PyDict K V) !! k = None.
Proof. done. Qed.

Lemma dict_elem_of_keys d k : k ∈ keys d <-> is_Some (d !! k).
Proof.
  unfold keys, lookup, dict_lookup.
  induction (items d) as [|[k' v'] l IH]; simpl.
  - rewrite elem_of_nil. split; [done|by intros []].
  - rewrite elem_of_cons, IH. case_decide; naive_solver.
Qed.

Lemma dict_not_elem_of_keys d k : k ∉ keys d <-> d !! k = None.
Proof. rewrite dict_elem_of_keys, <- eq_None_not_Some. done. Qed.

Lemma dict_elem_of_items_1 d k v : d !! k = Some v -> (k, v) ∈ items d.
Proof.
  unfold lookup, dict_lookup.
  induction (items d) as [|[k' v'] l IH]; simpl; [done|].
  case_decide; intros; simplify_eq; [by left|right; auto].
Qed.

Lemma dict_elem_of_items d k v : dict_wf d -> (k, v) ∈ items d <-> d !! k = Some v.
Proof.
  intros Hwf. split; [|apply dict_elem_of_items_1].
  unfold dict_wf, keys, lookup, dict_lookup in *.
  induction (items d) as [|[k' v'] l IH]; simpl; [by rewrite elem_of_nil|].
  apply NoDup_cons in Hwf as [Hni Hwf].
  rewrite elem_of_cons. intros [?|Hin]; simplify_eq; [by rewrite decide_True|].
  rewrite decide_False; [by auto|]. intros ->. apply Hni.
  by apply (list_elem_of_fmap_2 fst _ _ Hin).
Qed.

Lemma dict_keys_insert_Some d k v : is_Some (d !! k) -> keys (<[k:=v]> d) = keys d.
Proof.
  unfold keys, lookup, dict_lookup, insert, dict_insert; simpl.
  induction (items d) as [|[k' v'] l IH]; simpl; [by intros []|].
  case_decide; simplify_eq/=; [done|]. intros Hs. f_equal. auto.
Qed.

Lemma dict_items_insert_None d k v : d !! k = None -> items (<[k:=v]> d) = items d ++ [(k, v)].
Proof.
  unfold lookup, dict_lookup, insert, dict_insert; simpl.
  induction (items d) as [|[k' v'] l IH]; simpl; [done|].
  case_decide; simplify_eq/=; [done|]. intros Hs. f_equal. auto.
Qed.

Lemma dict_keys_insert_None d k v : d !! k = None -> keys (<[k:=v]> d) = keys d ++ [k].
Proof. intros H. unfold keys. by rewrite dict_items_insert_None, fmap_app. Qed.

Lemma dict_wf_empty : dict_wf (∅ : PyDict K V).
Proof. apply NoDup_nil_2. Qed.

Lemma dict_wf_insert d k v : dict_wf d -> dict_wf (<[k:=v]> d).
Proof.
  unfold dict_wf. intros Hwf. destruct (d !! k) as [v'|] eqn:Hk.
  - rewrite dict_keys_insert_Some; eauto.
  - rewrite dict_keys_insert_None by done. apply NoDup_app. split; [done|].
    split; [|apply NoDup_singleton].
    intros x Hx ->%list_elem_of_singleton. by apply dict_not_elem_of_keys in Hk.
Qed.

Lemma dict_keys_delete d k :
  keys (delete k d) = List.filter (fun k' => negb (bool_decide (k' = k))) (keys d).
Proof.
  unfold keys, delete, dict_delete; simpl.
  induction (items d) as [|[k' v'] l IH]; simpl; [done|].
  case_bool_decide; simpl; [done|by f_equal].
Qed.

Lemma dict_wf_delete d k : dict_wf d -> dict_wf (delete k d).
Proof.
  unfold dict_wf. rewrite dict_keys_delete.
  induction (keys d) as [|x l IH]; simpl; [done|].
  intros [Hni Hnd]%NoDup_cons. case_bool_decide; simpl; [auto|].
  apply NoDup_cons. split; [|auto].
  rewrite list_elem_of_In, List.filter_In, <- list_elem_of_In. naive_solver.
Qed.

Lemma dict_len_keys d : len d = length (keys d).
Proof. unfold len, keys. by rewrite length_fmap. Qed.

Lemma dict_len_insert_None d k v : d !! k = None -> len (<[k:=v]> d) = S (len d).
Proof. intros H. rewrite !dict_len_keys, dict_keys_insert_None, length_app by done. simpl. lia. Qed.

Lemma dict_len_insert_Some d k v : is_Some (d !! k) -> len (<[k:=v]> d) = len d.
Proof. intros H. by rewrite !dict_len_keys, dict_keys_insert_Some. Qed.

Lemma dict_delete_None d k : d !! k = None -> delete k d = d.
Proof.
  destruct d as [l]. unfold lookup, dict_lookup, delete, dict_delete; simpl.
  intros H. f_equal. induction l as [|[k' v'] l IH]; simpl in *; [done|].
  case_decide; simplify_eq. rewrite bool_decide_eq_false_2 by done.
  simpl. f_equal. auto.
Qed.

Lemma dict_items_delete_Some d k v :
  dict_wf d -> d !! k = Some v -> items d ≡ₚ (k, v) :: items (delete k d).
Proof.
  destruct d as [l]. unfold dict_wf, keys, lookup, dict_lookup, delete, dict_delete; simpl.
  induction l as [|[k' v'] l IH]; simpl; [done|].
  intros [Hni Hnd]%NoDup_cons H. case_decide; simplify_eq.
  - rewrite bool_decide_eq_true_2 by done. simpl.
    assert (assoc k l = None) as Hn.
    { destruct (assoc k l) eqn:E; [|done]. exfalso. apply Hni.
      change (k ∈ keys (mkDict l)). apply dict_elem_of_keys. by eexists. }
    apply (dict_delete_None (mkDict l)) in Hn.
    unfold delete, dict_delete in Hn; simpl in Hn. by injection Hn as ->.
  - rewrite bool_decide_eq_false_2 by done. simpl.
    rewrite (IH Hnd H) at 1. by rewrite Permutation_swap.
Qed.

Lemma dict_len_delete_Some d k :
  dict_wf d -> is_Some (d !! k) -> len d = S (len (delete k d)).
Proof.
  intros Hwf [v Hv]. unfold len.
  by rewrite (Permutation_length (dict_items_delete_Some d k v Hwf Hv)).
Qed.

Lemma dict_has_key_true d k : has_key k d = true <-> is_Some (d !! k).
Proof. apply bool_decide_eq_true. Qed.

Lemma dict_has_key_false d k : has_key k d = false <-> d !! k = None.
Proof. unfold has_key. rewrite bool_decide_eq_false, <- eq_None_not_Some. done. Qed.

Lemma dict_items_nil d : items d = [] <-> forall k, d !! k = None.
Proof.
  unfold lookup, dict_lookup. destruct (items d) as [|[k v] l]; simpl; [done|].
  split; [done|]. intros H. specialize (H k). by rewrite decide_True in H.
Qed.
End facts.

#[export] Hint Resolve dict_wf_empty dict_wf_insert dict_wf_delete : py.

(** Replaces the lookups of an updated dictionary. *)
Ltac dict_simpl :=
  repeat (first
    [ rewrite dict_lookup_insert_eq in *
    | rewrite dict_lookup_delete_eq in *
    | rewrite dict_lookup_insert_ne in * by congruence
    | rewrite dict_lookup_delete_ne in * by congruence ]); simplify_eq/=.
