(* ===== verification/ParallelTopology.v ===== *)
(** * Parallel topology and process groups

    [distributed/topology.py], [distributed/sharding.py] and
    [init_parallel_context] of [distributed/parallel_context.py]: how the ranks
    of a distributed run are split into tensor, expert and data groups, which
    dimensions of a model the splits divide, and the context each process
    builds.  [torch.distributed] is the class [TorchDistributed]; the collectives
    that run inside a group are outside. *)

From stdpp Require Import base gmap list strings list_numbers.
From Stdlib Require Import ZArith Lia.
From S2P Require Import Prelude PyDict.

(** ** Topologies *)

Inductive ParallelMode := STANDARD | OUTER_TP_MOE.
#[export] Instance ParallelMode_eq_dec : EqDecision ParallelMode.
Proof. solve_decision. Defined.

(** [ParallelMode(value)] *)
Definition parallel_mode (value : string) : exc ParallelMode :=
  if bool_decide (value = "standard"%string) then Ok STANDARD
  else if bool_decide (value = "outer_tp_moe_tp_ep"%string) then Ok OUTER_TP_MOE
  else Raise (ValueError "is not a valid ParallelMode").

Record ParallelTopology := mkTopology {
  tensor_parallel_size : Z;
  expert_parallel_size : Z;
  data_parallel_size : Z;
  topology_mode : ParallelMode;
}.
Implicit Types (T : ParallelTopology).

Definition is_outer_tp_moe T : bool := bool_decide (topology_mode T = OUTER_TP_MOE).
Definition attention_tp_size T : Z := tensor_parallel_size T.
Definition moe_tp_size T : Z :=
  if is_outer_tp_moe T then tensor_parallel_size T / expert_parallel_size T else tensor_parallel_size T.
Definition world_size T : Z :=
  if is_outer_tp_moe T then tensor_parallel_size T
  else tensor_parallel_size T * expert_parallel_size T * data_parallel_size T.

(** The constructor and its [__post_init__]. *)
Definition new_topology (tp ep dp : Z) (value : string) : exc ParallelTopology :=
  m ← parallel_mode value;
  if (tp <=? 0) || (ep <=? 0) || (dp <=? 0) then Raise (ValueError "Parallel sizes must be positive")
  else if bool_decide (m = OUTER_TP_MOE) && negb (dp =? 1) then Raise (ValueError "Outer-TP MoE parallelism requires DP=1")
  else if bool_decide (m = OUTER_TP_MOE) && negb (tp mod ep =? 0) then
    Raise (ValueError "Outer-TP MoE requires TP divisible by EP")
  else Ok (mkTopology tp ep dp m).

(** ** Ranks *)

Definition not_standard : PyExn := ValueError "Outer-TP MoE does not use standard DP/EP/TP rank mapping.".
Definition rank_in (rank size : Z) : bool := (0 <=? rank) && (rank <? size).

Definition world_rank_from_parallel_ranks T (dp_rank ep_rank tp_rank : Z) : exc Z :=
  if is_outer_tp_moe T then Raise not_standard
  else if negb (rank_in dp_rank (data_parallel_size T)) then Raise (ValueError "dp_rank must be in")
  else if negb (rank_in ep_rank (expert_parallel_size T)) then Raise (ValueError "ep_rank must be in")
  else if negb (rank_in tp_rank (tensor_parallel_size T)) then Raise (ValueError "tp_rank must be in")
  else Ok ((dp_rank * expert_parallel_size T + ep_rank) * tensor_parallel_size T + tp_rank).

Definition parallel_ranks_from_world_rank T (world_rank : Z) : exc (Z * Z * Z) :=
  if is_outer_tp_moe T then Raise not_standard
  else if negb (rank_in world_rank (world_size T)) then Raise (ValueError "world_rank must be in")
  else
    let dp_ep_rank := world_rank / tensor_parallel_size T in
    Ok (dp_ep_rank / expert_parallel_size T, dp_ep_rank mod expert_parallel_size T, world_rank mod tensor_parallel_size T).

(** ** Groups *)

Definition Groups : Type := list (list Z).
(** The dictionary with one entry per dimension. *)
Record GroupRanks := mkGroupRanks {
  tensor_groups : Groups;
  expert_groups : Groups;
  data_groups : Groups;
  moe_tensor_groups : Groups;
}.

(** [tuple(tuple(f(a, b) for b in members) for a in keys)] *)
Definition group_table {A} (keys : list A) (members : list Z) (f : A -> Z -> exc Z) : exc Groups :=
  mapM (fun a => mapM (f a) members) keys.

Definition standard_group_ranks T : exc GroupRanks :=
  let tps := seqZ 0 (tensor_parallel_size T) in
  let eps := seqZ 0 (expert_parallel_size T) in
  let dps := seqZ 0 (data_parallel_size T) in
  tensor ← group_table (list_prod dps eps) tps (fun de t => world_rank_from_parallel_ranks T de.1 de.2 t);
  expert ← group_table (list_prod dps tps) eps (fun dt e => world_rank_from_parallel_ranks T dt.1 e dt.2);
  data ← group_table (list_prod eps tps) dps (fun et d => world_rank_from_parallel_ranks T d et.1 et.2);
  Ok (mkGroupRanks tensor expert data tensor).

Definition outer_tp_moe_group_ranks T : GroupRanks :=
  let eps := seqZ 0 (expert_parallel_size T) in
  let moe_tp := moe_tp_size T in
  mkGroupRanks
    [seqZ 0 (attention_tp_size T)]
    ((fun t => (fun e => e * moe_tp + t) <$> eps) <$> seqZ 0 moe_tp)
    ((fun r => [r]) <$> seqZ 0 (attention_tp_size T))
    ((fun e => seqZ (e * moe_tp) ((e + 1) * moe_tp - e * moe_tp)) <$> eps).

Definition parallel_group_ranks T : exc GroupRanks :=
  if is_outer_tp_moe T then Ok (outer_tp_moe_group_ranks T) else standard_group_ranks T.

(** ** What the splits must divide *)

(** The fields that fail are reported together. *)
Definition validate_divisible (fields : PyDict string Z) (divisor : Z) : exc unit :=
  let invalid := List.filter (fun kv => (kv.2 <=? 0) || negb (kv.2 mod divisor =? 0)) (items fields) in
  if bool_decide (invalid = []) then Ok tt
  else Raise (ValueError "dimensions must be positive and divisible by").

Definition validate_model_sharding T (attention_fields : PyDict string Z) (num_experts : option Z)
    (moe_fields : option (PyDict string Z)) : exc unit :=
  validate_divisible attention_fields (attention_tp_size T) ;;
  match num_experts with
  | None => Ok tt
  | Some n =>
      if (n <=? 0) || negb (n mod expert_parallel_size T =? 0) then
        Raise (ValueError "num_experts must be positive and divisible by")
      else
        match moe_fields with
        | None => Ok tt
        | Some fields => if Nat.eqb (len fields) 0 then Ok tt else validate_divisible fields (moe_tp_size T)
        end
  end.

Definition validate_top_k (top_k num_experts : Z) : exc unit :=
  if negb ((1 <=? top_k) && (top_k <=? num_experts)) then Raise (ValueError "top_k must be in [1, num_experts]")
  else Ok tt.

(** ** The context of a process *)

(** What is used of [torch.distributed]: [D] is its state in one process. *)
Class TorchDistributed (D PG : Type) := {
  dist_is_initialized : D -> bool;
  dist_world_size : D -> Z;
  dist_rank : D -> Z;
  dist_world : D -> PG;
  dist_new_group : list Z -> Act PyExn D PG;
}.

Section context.
Context {D PG : Type} `{TorchDistributed D PG}.

Record ParallelGroup := mkGroup {
  process_group : option PG;
  group_ranks : list Z;
  group_rank : Z;
  group_size : Z;
}.
Definition new_parallel_group (pg : option PG) (ranks : list Z) (rank size : Z) : exc ParallelGroup :=
  if negb (size =? Z.of_nat (length ranks)) then Raise (ValueError "ParallelGroup size does not match ranks")
  else if negb (rank_in rank size) then Raise (ValueError "ParallelGroup rank must be in")
  else Ok (mkGroup pg ranks rank size).

Record ParallelContext := mkContext {
  ctx_world : ParallelGroup;
  ctx_tensor : ParallelGroup;
  ctx_expert : ParallelGroup;
  ctx_data : ParallelGroup;
  ctx_moe_tensor : option ParallelGroup;
}.
Implicit Types (c : ParallelContext).
Definition tp_rank c : Z := group_rank (ctx_tensor c).
Definition tp_size c : Z := group_size (ctx_tensor c).
Definition ep_rank c : Z := group_rank (ctx_expert c).
Definition ep_size c : Z := group_size (ctx_expert c).
Definition dp_rank c : Z := group_rank (ctx_data c).
Definition dp_size c : Z := group_size (ctx_data c).
Definition moe_group c : ParallelGroup := default (ctx_tensor c) (ctx_moe_tensor c).
Definition moe_tp_rank c : Z := group_rank (moe_group c).
Definition ctx_moe_tp_size c : Z := group_size (moe_group c).

(** A process: the state of [torch.distributed] and the global [_PARALLEL_CONTEXT]. *)
Record Process := mkProcess {
  dist_state : D;
  parallel_context : option ParallelContext;
}.
#[export] Instance eta_process : Eta Process := fun r => mkProcess (dist_state r) (parallel_context r).
#[local] Abbreviation ProcAct := (Act PyExn Process).

Definition on_dist {A} (m : Act PyExn D A) : ProcAct A := fun s =>
  let '(r, d) := m (dist_state s) in (r, s <| dist_state := d |>).

(** [_local_group] *)
Fixpoint local_group (groups : Groups) (process_groups : PyDict (list Z) (option PG)) (world_rank : Z) : exc ParallelGroup :=
  match groups with
  | [] => Raise (RuntimeError "No parallel group contains world rank")
  | ranks :: groups' =>
      match list_find (fun r => r = world_rank) ranks with
      | Some (i, _) =>
          match process_groups !! ranks with
          | None => Raise (KeyError "")
          | Some pg => new_parallel_group pg ranks (Z.of_nat i) (Z.of_nat (length ranks))
          end
      | None => local_group groups' process_groups world_rank
      end
  end.

(** [for ranks in groups] *)
Fixpoint create_groups (groups : Groups) (process_groups : PyDict (list Z) (option PG)) : ProcAct (PyDict (list Z) (option PG)) :=
  match groups with
  | [] => mret process_groups
  | ranks :: groups' =>
      if has_key ranks process_groups then create_groups groups' process_groups
      else if Nat.eqb (length ranks) 1 then create_groups groups' (<[ranks := None]> process_groups)
      else pg ← on_dist (dist_new_group ranks); create_groups groups' (<[ranks := Some pg]> process_groups)
  end.
(** [for dimension in ...] *)
Fixpoint create_dimensions (dimensions : list Groups) (process_groups : PyDict (list Z) (option PG)) : ProcAct (PyDict (list Z) (option PG)) :=
  match dimensions with
  | [] => mret process_groups
  | groups :: dimensions' => pgs ← create_groups groups process_groups; create_dimensions dimensions' pgs
  end.

Definition init_parallel_context T : ProcAct ParallelContext :=
  s ← read id;
  guard_not (bool_decide (is_Some (parallel_context s))) (RuntimeError "ParallelContext is already initialized.") ;;
  guard_not (negb (dist_is_initialized (dist_state s))) (RuntimeError "torch.distributed must be initialized before ParallelContext.") ;;
  let n := dist_world_size (dist_state s) in
  let me := dist_rank (dist_state s) in
  guard_not (negb (n =? world_size T)) (ValueError "Distributed world size does not match parallel configuration") ;;
  g ← lift (parallel_group_ranks T);
  let world_ranks := seqZ 0 n in
  pgs ← create_dimensions [tensor_groups g; expert_groups g; data_groups g; moe_tensor_groups g]
          (<[world_ranks := Some (dist_world (dist_state s))]> ∅);
  d ← read dist_state;
  world ← lift (new_parallel_group (Some (dist_world d)) world_ranks me n);
  tensor ← lift (local_group (tensor_groups g) pgs me);
  expert ← lift (local_group (expert_groups g) pgs me);
  data ← lift (local_group (data_groups g) pgs me);
  moe ← lift (local_group (moe_tensor_groups g) pgs me);
  let c := mkContext world tensor expert data (Some moe) in
  modify (fun s => s <| parallel_context := Some c |>) ;;
  mret c.

Definition get_parallel_context : ProcAct ParallelContext :=
  s ← read id;
  match parallel_context s with None => throw (RuntimeError "ParallelContext is not initialized.") | Some c => mret c end.
Definition reset_parallel_context : ProcAct unit := modify (fun s => s <| parallel_context := None |>).
End context.

(** ** Ranks and coordinates *)

Lemma digits a b m : 0 <= b < m -> (a * m + b) / m = a /\ (a * m + b) mod m = b.
Proof.
  intros Hb. rewrite Z.add_comm. split; [rewrite Z.div_add, Z.div_small by lia; lia|]. rewrite Z.mod_add by lia. by apply Z.mod_small.
Qed.
Lemma digit_bound a b m n : 0 <= a < n -> 0 <= b < m -> 0 <= a * m + b < n * m.
Proof. nia. Qed.
Lemma digits_split w m : 0 < m -> w / m * m + w mod m = w.
Proof. intros Hm. pose proof (Z_div_mod_eq_full w m). lia. Qed.
Lemma high_digit w m n : 0 < m -> 0 <= w < n * m -> 0 <= w / m < n.
Proof. intros Hm Hw. split; [apply Z.div_pos; lia|]. apply Z.div_lt_upper_bound; lia. Qed.
Lemma rank_in_true r n : rank_in r n = true <-> 0 <= r < n.
Proof. unfold rank_in. lia. Qed.

Definition constructed T : Prop := exists tp ep dp value, new_topology tp ep dp value = Ok T.
Lemma constructed_spec T : constructed T ->
  0 < tensor_parallel_size T /\ 0 < expert_parallel_size T /\ 0 < data_parallel_size T /\
  (topology_mode T = OUTER_TP_MOE -> data_parallel_size T = 1 /\ tensor_parallel_size T = expert_parallel_size T * moe_tp_size T).
Proof.
  intros (tp & ep & dp & value & HT). unfold new_topology in HT. destruct (parallel_mode value) as [m|e]; [|done]. cbn in HT.
  destruct (_ || _) eqn:Hpos; [done|]. destruct (_ && negb (dp =? 1)) eqn:Hdp; [done|]. destruct (_ && negb (tp mod ep =? 0)) eqn:Hep; [done|].
  injection HT as <-. cbn. split_and!; [lia..|]. intros ->. rewrite bool_decide_eq_true_2 in Hdp, Hep by done. cbn [andb] in Hdp, Hep.
  unfold moe_tp_size, is_outer_tp_moe. cbn. split; [lia|].
  apply Z_div_exact_full_2; lia.
Qed.

Lemma is_standard T : topology_mode T = STANDARD -> is_outer_tp_moe T = false.
Proof. intros Hm. unfold is_outer_tp_moe. by rewrite Hm. Qed.
Lemma is_outer T : topology_mode T = OUTER_TP_MOE -> is_outer_tp_moe T = true.
Proof. intros Hm. unfold is_outer_tp_moe. by rewrite Hm. Qed.

(** The coordinates of a rank along each dimension, in either mode. *)
Definition tensor_coordinate T w := w mod tensor_parallel_size T.
Definition expert_coordinate T w :=
  if is_outer_tp_moe T then w / moe_tp_size T else w / tensor_parallel_size T mod expert_parallel_size T.
Definition data_coordinate T w := if is_outer_tp_moe T then 0 else w / tensor_parallel_size T / expert_parallel_size T.
Definition moe_tensor_coordinate T w := w mod moe_tp_size T.

Lemma standard_rank T d e t : topology_mode T = STANDARD ->
  0 <= d < data_parallel_size T -> 0 <= e < expert_parallel_size T -> 0 <= t < tensor_parallel_size T ->
  world_rank_from_parallel_ranks T d e t = Ok ((d * expert_parallel_size T + e) * tensor_parallel_size T + t).
Proof.
  intros Hm Hd He Ht. unfold world_rank_from_parallel_ranks. rewrite is_standard by done.
  by rewrite !(proj2 (rank_in_true _ _)).
Qed.
Lemma standard_bound T d e t : topology_mode T = STANDARD ->
  0 <= d < data_parallel_size T -> 0 <= e < expert_parallel_size T -> 0 <= t < tensor_parallel_size T ->
  0 <= (d * expert_parallel_size T + e) * tensor_parallel_size T + t < world_size T.
Proof.
  intros Hm Hd He Ht. unfold world_size. rewrite is_standard by done.
  replace (tensor_parallel_size T * expert_parallel_size T * data_parallel_size T)
    with (data_parallel_size T * expert_parallel_size T * tensor_parallel_size T) by lia.
  by repeat apply digit_bound.
Qed.
Lemma standard_coordinates T w : constructed T -> topology_mode T = STANDARD -> 0 <= w < world_size T ->
  0 <= data_coordinate T w < data_parallel_size T /\ 0 <= expert_coordinate T w < expert_parallel_size T /\
  0 <= tensor_coordinate T w < tensor_parallel_size T /\
  (data_coordinate T w * expert_parallel_size T + expert_coordinate T w) * tensor_parallel_size T + tensor_coordinate T w = w.
Proof.
  intros (Htp & Hep & Hdp & _)%constructed_spec Hm. unfold data_coordinate, expert_coordinate, tensor_coordinate, world_size.
  rewrite is_standard by done. intros Hw. assert (0 <= w / tensor_parallel_size T < data_parallel_size T * expert_parallel_size T) as Hh.
  { apply high_digit; [done|]. by replace (data_parallel_size T * expert_parallel_size T * tensor_parallel_size T)
      with (tensor_parallel_size T * expert_parallel_size T * data_parallel_size T) by ring. }
  pose proof (high_digit _ _ _ Hep Hh). pose proof (Z.mod_pos_bound (w / tensor_parallel_size T) _ Hep). pose proof (Z.mod_pos_bound w _ Htp).
  split_and!; try lia. rewrite (digits_split (w / tensor_parallel_size T)) by done. by apply digits_split.
Qed.
Lemma standard_decode T d e t : topology_mode T = STANDARD -> 0 <= e < expert_parallel_size T -> 0 <= t < tensor_parallel_size T ->
  let w := (d * expert_parallel_size T + e) * tensor_parallel_size T + t in
  data_coordinate T w = d /\ expert_coordinate T w = e /\ tensor_coordinate T w = t.
Proof.
  intros Hm He Ht w. unfold data_coordinate, expert_coordinate, tensor_coordinate. rewrite is_standard by done.
  destruct (digits (d * expert_parallel_size T + e) t _ Ht) as [E1 E2]. destruct (digits d e _ He) as [E3 E4]. subst w. by rewrite E1, E2, E3, E4.
Qed.

(** In the standard mode the two rank conversions are inverse bijections
    between the triples of parallel ranks within the sizes and the world ranks,
    and both raise outside of them. *)
Theorem rank_conversions_inverse T : constructed T -> topology_mode T = STANDARD ->
  (forall d e t, 0 <= d < data_parallel_size T -> 0 <= e < expert_parallel_size T -> 0 <= t < tensor_parallel_size T ->
    exists w, world_rank_from_parallel_ranks T d e t = Ok w /\ 0 <= w < world_size T /\ parallel_ranks_from_world_rank T w = Ok (d, e, t)) /\
  (forall w, 0 <= w < world_size T ->
    exists d e t, parallel_ranks_from_world_rank T w = Ok (d, e, t) /\ world_rank_from_parallel_ranks T d e t = Ok w) /\
  (forall d e t, is_ok (world_rank_from_parallel_ranks T d e t) = true ->
    0 <= d < data_parallel_size T /\ 0 <= e < expert_parallel_size T /\ 0 <= t < tensor_parallel_size T) /\
  (forall w, is_ok (parallel_ranks_from_world_rank T w) = true -> 0 <= w < world_size T).
Proof.
  intros HT Hm.
  assert (forall w, 0 <= w < world_size T -> parallel_ranks_from_world_rank T w = Ok (data_coordinate T w, expert_coordinate T w, tensor_coordinate T w)) as Hdec.
  { intros w Hw. unfold parallel_ranks_from_world_rank, data_coordinate, expert_coordinate, tensor_coordinate. rewrite is_standard by done.
    by rewrite (proj2 (rank_in_true _ _)). }
  split_and!.
  - intros d e t Hd He Ht. exists ((d * expert_parallel_size T + e) * tensor_parallel_size T + t). pose proof (standard_bound T d e t Hm Hd He Ht).
    split_and!; [by apply standard_rank|lia|lia|]. rewrite Hdec by done. by destruct (standard_decode T d e t Hm He Ht) as (-> & -> & ->).
  - intros w Hw. destruct (standard_coordinates T w HT Hm Hw) as (Hd & He & Ht & E). do 3 eexists. split; [by apply Hdec|].
    rewrite standard_rank by done. by rewrite E.
  - intros d e t. unfold world_rank_from_parallel_ranks. rewrite is_standard by done. rewrite <- !rank_in_true.
    by destruct (rank_in d _), (rank_in e _), (rank_in t _).
  - intros w. unfold parallel_ranks_from_world_rank. rewrite is_standard by done. rewrite <- rank_in_true.
    by destruct (rank_in w _).
Qed.

(** ** Groups partition the ranks *)

(** Groups along a dimension of size [n] of a world of size [W], in which a rank
    stands at its coordinate. *)
Record dimension (W : Z) (groups : Groups) (n : Z) (coordinate : Z -> Z) : Prop := {
  dim_partition : concat groups ≡ₚ seqZ 0 W;
  dim_size : forall ranks, ranks ∈ groups -> Z.of_nat (length ranks) = n;
  dim_place : forall ranks i w, ranks ∈ groups -> ranks !! i = Some w -> coordinate w = Z.of_nat i;
}.

Lemma elem_of_concat {A} (x : A) ls : x ∈ concat ls <-> exists l, x ∈ l /\ l ∈ ls.
Proof. rewrite list_elem_of_In, in_concat. setoid_rewrite <- list_elem_of_In. naive_solver. Qed.

Lemma table_dimension {A} W (keys : list A) n (f : A -> Z -> Z) (coordinate : Z -> Z) (key : Z -> A) :
  0 <= n -> NoDup keys ->
  (forall a b, a ∈ keys -> 0 <= b < n -> 0 <= f a b < W /\ coordinate (f a b) = b /\ key (f a b) = a) ->
  (forall w, 0 <= w < W -> key w ∈ keys /\ 0 <= coordinate w < n /\ f (key w) (coordinate w) = w) ->
  dimension W ((fun a => f a <$> seqZ 0 n) <$> keys) n coordinate.
Proof.
  intros Hn Hnd Hf Hw. split.
  - apply NoDup_Permutation; [|apply NoDup_seqZ|].
    + assert (forall l, NoDup l -> (forall a, a ∈ l -> a ∈ keys) -> NoDup (concat ((fun a => f a <$> seqZ 0 n) <$> l))) as Hc; [|by apply Hc].
      intros l. induction l as [|a l IH]; intros Hl Hin; cbn; [constructor|]. apply NoDup_cons in Hl as [Ha Hl].
      apply NoDup_app. split_and!; [|intros w (b & -> & Hb%elem_of_seqZ)%list_elem_of_fmap (r & Hw1 & (a' & -> & Ha')%list_elem_of_fmap)%elem_of_concat|apply IH; [done|intros ? ?; apply Hin; by right]].
      * apply NoDup_fmap_2_strong; [|apply NoDup_seqZ]. intros b b' Hb%elem_of_seqZ Hb'%elem_of_seqZ E.
        destruct (Hf a b) as (_ & <- & _); [apply Hin; by left|lia|]. destruct (Hf a b') as (_ & <- & _); [apply Hin; by left|lia|]. by rewrite E.
      * apply list_elem_of_fmap in Hw1 as (b' & E & Hb'%elem_of_seqZ). apply Ha.
        destruct (Hf a b) as (_ & _ & <-); [apply Hin; by left|lia|]. rewrite E. destruct (Hf a' b') as (_ & _ & ->); [apply Hin; by right|lia|done].
    + intros w. rewrite elem_of_seqZ. split.
      * intros (r & Hr & (a & -> & Ha)%list_elem_of_fmap)%elem_of_concat. apply list_elem_of_fmap in Hr as (b & -> & Hb%elem_of_seqZ).
        destruct (Hf a b) as (? & _); [done|lia|lia].
      * intros Hb. destruct (Hw w) as (Hk & Hc & E); [lia|]. apply elem_of_concat. exists (f (key w) <$> seqZ 0 n). split.
        -- apply list_elem_of_fmap. exists (coordinate w). split; [done|]. apply elem_of_seqZ. lia.
        -- apply list_elem_of_fmap. by exists (key w).
  - intros r (a & -> & _)%list_elem_of_fmap. rewrite length_fmap, length_seqZ. lia.
  - intros r i w (a & -> & Ha)%list_elem_of_fmap Hi. rewrite list_lookup_fmap in Hi. apply fmap_Some in Hi as (b & (E & Hb)%lookup_seqZ & ->).
    destruct (Hf a b) as (_ & -> & _); [done|lia|lia].
Qed.

Lemma mapM_ok {A B} (f : A -> exc B) (g : A -> B) l : (forall x, x ∈ l -> f x = Ok (g x)) -> mapM f l = Ok (g <$> l).
Proof.
  induction l as [|x l IH]; intros Hf; [done|]. cbn. rewrite Hf by (by left). cbn. rewrite IH; [done|]. intros y Hy. apply Hf. by right.
Qed.
Lemma group_table_ok {A} (keys : list A) members (f : A -> Z -> exc Z) (g : A -> Z -> Z) :
  (forall a b, a ∈ keys -> b ∈ members -> f a b = Ok (g a b)) ->
  group_table keys members f = Ok ((fun a => g a <$> members) <$> keys).
Proof. intros Hf. apply mapM_ok. intros a Ha. apply mapM_ok. intros b. by apply Hf. Qed.

Record dimensions T (g : GroupRanks) : Prop := {
  dims_tensor : dimension (world_size T) (tensor_groups g) (tensor_parallel_size T) (tensor_coordinate T);
  dims_expert : dimension (world_size T) (expert_groups g) (expert_parallel_size T) (expert_coordinate T);
  dims_data : dimension (world_size T) (data_groups g) (data_parallel_size T) (data_coordinate T);
  dims_moe : dimension (world_size T) (moe_tensor_groups g) (moe_tp_size T) (moe_tensor_coordinate T);
}.

Lemma NoDup_prod_seqZ n m : NoDup (list_prod (seqZ 0 n) (seqZ 0 m)).
Proof.
  generalize (NoDup_seqZ 0 n). generalize (seqZ 0 n). intros l Hl. induction Hl as [|a l Ha Hl IH]; cbn; [constructor|].
  apply NoDup_app. split_and!; [|intros ab (b & -> & _)%list_elem_of_fmap|done].
  - apply NoDup_fmap_2_strong; [|apply NoDup_seqZ]. by intros b b' _ _ [= ->].
  - rewrite list_elem_of_In, in_prod_iff, <- list_elem_of_In. by intros [? _].
Qed.
Lemma elem_of_prod_seqZ n m ab : ab ∈ list_prod (seqZ 0 n) (seqZ 0 m) <-> 0 <= ab.1 < n /\ 0 <= ab.2 < m.
Proof. destruct ab as [a b]. rewrite list_elem_of_In, in_prod_iff, <- !list_elem_of_In, !elem_of_seqZ. cbn. lia. Qed.

Lemma standard_dimensions T : constructed T -> topology_mode T = STANDARD ->
  exists g, standard_group_ranks T = Ok g /\ dimensions T g.
Proof.
  intros HT Hm. pose proof (constructed_spec T HT) as (Htp & Hep & Hdp & _). set (rank := fun d e t => (d * expert_parallel_size T + e) * tensor_parallel_size T + t).
  assert (forall d e t, 0 <= d < data_parallel_size T -> 0 <= e < expert_parallel_size T -> 0 <= t < tensor_parallel_size T ->
    0 <= rank d e t < world_size T /\ data_coordinate T (rank d e t) = d /\ expert_coordinate T (rank d e t) = e /\ tensor_coordinate T (rank d e t) = t) as Hrank.
  { intros d e t Hd He Ht. split; [by apply standard_bound|by apply standard_decode]. }
  assert (moe_tp_size T = tensor_parallel_size T) as Emoe by (unfold moe_tp_size; by rewrite is_standard).
  exists (mkGroupRanks ((fun de => rank de.1 de.2 <$> seqZ 0 (tensor_parallel_size T)) <$> list_prod (seqZ 0 (data_parallel_size T)) (seqZ 0 (expert_parallel_size T)))
    ((fun dt => (fun e => rank dt.1 e dt.2) <$> seqZ 0 (expert_parallel_size T)) <$> list_prod (seqZ 0 (data_parallel_size T)) (seqZ 0 (tensor_parallel_size T)))
    ((fun et => (fun d => rank d et.1 et.2) <$> seqZ 0 (data_parallel_size T)) <$> list_prod (seqZ 0 (expert_parallel_size T)) (seqZ 0 (tensor_parallel_size T)))
    ((fun de => rank de.1 de.2 <$> seqZ 0 (tensor_parallel_size T)) <$> list_prod (seqZ 0 (data_parallel_size T)) (seqZ 0 (expert_parallel_size T)))).
  split.
  - unfold standard_group_ranks.
    rewrite (group_table_ok _ _ (fun et d => world_rank_from_parallel_ranks T d et.1 et.2) (fun et d => rank d et.1 et.2)),
      (group_table_ok _ _ (fun dt e => world_rank_from_parallel_ranks T dt.1 e dt.2) (fun dt e => rank dt.1 e dt.2)),
      (group_table_ok _ _ (fun de t => world_rank_from_parallel_ranks T de.1 de.2 t) (fun de t => rank de.1 de.2 t)); [done|..];
      intros ab c [Ha Hb]%elem_of_prod_seqZ Hc%elem_of_seqZ; apply standard_rank; done || lia.
  - assert (dimension (world_size T) ((fun de => rank de.1 de.2 <$> seqZ 0 (tensor_parallel_size T)) <$> list_prod (seqZ 0 (data_parallel_size T)) (seqZ 0 (expert_parallel_size T)))
      (tensor_parallel_size T) (tensor_coordinate T)) as Htensor.
    { apply (table_dimension _ _ _ (fun de => rank de.1 de.2) _ (fun w => (data_coordinate T w, expert_coordinate T w))); [lia|apply NoDup_prod_seqZ| |].
      - intros [d e] t [Hd He]%elem_of_prod_seqZ Ht. destruct (Hrank d e t) as (? & E1 & E2 & E3); [done..|]. cbn. by rewrite E1, E2, E3.
      - intros w Hw. destruct (standard_coordinates T w) as (? & ? & ? & E); [done..|]. by rewrite elem_of_prod_seqZ. }
    split; cbn.
    + exact Htensor.
    + apply (table_dimension _ _ _ (fun dt e => rank dt.1 e dt.2) _ (fun w => (data_coordinate T w, tensor_coordinate T w))); [lia|apply NoDup_prod_seqZ| |].
      * intros [d t] e [Hd Ht]%elem_of_prod_seqZ He. destruct (Hrank d e t) as (? & E1 & E2 & E3); [done..|]. cbn. by rewrite E1, E2, E3.
      * intros w Hw. destruct (standard_coordinates T w) as (? & ? & ? & E); [done..|]. by rewrite elem_of_prod_seqZ.
    + apply (table_dimension _ _ _ (fun et d => rank d et.1 et.2) _ (fun w => (expert_coordinate T w, tensor_coordinate T w))); [lia|apply NoDup_prod_seqZ| |].
      * intros [e t] d [He Ht]%elem_of_prod_seqZ Hd. destruct (Hrank d e t) as (? & E1 & E2 & E3); [done..|]. cbn. by rewrite E1, E2, E3.
      * intros w Hw. destruct (standard_coordinates T w) as (? & ? & ? & E); [done..|]. by rewrite elem_of_prod_seqZ.
    + unfold moe_tensor_coordinate. rewrite Emoe. exact Htensor.
Qed.

Lemma outer_dimensions T : constructed T -> topology_mode T = OUTER_TP_MOE -> dimensions T (outer_tp_moe_group_ranks T).
Proof.
  intros HT Hm. pose proof (constructed_spec T HT) as (Htp & Hep & _ & Hout). destruct (Hout Hm) as [Hdp Htpe].
  assert (world_size T = tensor_parallel_size T) as EW by (unfold world_size; by rewrite is_outer).
  assert (0 < moe_tp_size T) as Hmoe by nia.
  assert (forall e t, 0 <= e < expert_parallel_size T -> 0 <= t < moe_tp_size T ->
    0 <= e * moe_tp_size T + t < world_size T /\ expert_coordinate T (e * moe_tp_size T + t) = e /\ moe_tensor_coordinate T (e * moe_tp_size T + t) = t) as Hrank.
  { intros e t He Ht. rewrite EW, Htpe. split; [by apply digit_bound|]. unfold expert_coordinate, moe_tensor_coordinate. rewrite is_outer by done. by apply digits. }
  assert (forall w, 0 <= w < world_size T -> 0 <= expert_coordinate T w < expert_parallel_size T /\ 0 <= moe_tensor_coordinate T w < moe_tp_size T /\
    expert_coordinate T w * moe_tp_size T + moe_tensor_coordinate T w = w) as Hcoord.
  { intros w Hw. unfold expert_coordinate, moe_tensor_coordinate. rewrite is_outer by done. rewrite EW, Htpe in Hw.
    split; [by apply high_digit|]. split; [by apply Z.mod_pos_bound|by apply digits_split]. }
  unfold outer_tp_moe_group_ranks, attention_tp_size. split; cbn [tensor_groups expert_groups data_groups moe_tensor_groups].
  - replace [seqZ 0 (tensor_parallel_size T)] with ((fun _ => (fun b => b) <$> seqZ 0 (tensor_parallel_size T)) <$> [tt]) by (cbn; by rewrite list_fmap_id).
    apply (table_dimension _ _ _ (fun _ b => b) _ (fun _ => tt)); [lia|apply NoDup_singleton| |].
    + intros [] b _ Hb. unfold tensor_coordinate. rewrite Z.mod_small by lia. by rewrite EW.
    + intros w Hw. unfold tensor_coordinate. rewrite Z.mod_small by lia. split_and!; [by left|lia..].
  - apply (table_dimension _ _ _ (fun t e => e * moe_tp_size T + t) _ (moe_tensor_coordinate T)); [lia|apply NoDup_seqZ| |].
    + intros t e Ht%elem_of_seqZ He. destruct (Hrank e t) as (? & ? & ?); [lia..|done].
    + intros w Hw. destruct (Hcoord w Hw) as (? & ? & ?). by rewrite elem_of_seqZ.
  - rewrite Hdp. apply (table_dimension _ _ 1 (fun r _ => r) _ (fun w => w)); [lia|apply NoDup_seqZ| |]; unfold data_coordinate; rewrite is_outer by done.
    + intros r b Hr%elem_of_seqZ Hb. split_and!; lia.
    + intros w Hw. rewrite elem_of_seqZ. split_and!; lia.
  - replace ((fun e => seqZ (e * moe_tp_size T) ((e + 1) * moe_tp_size T - e * moe_tp_size T)) <$> seqZ 0 (expert_parallel_size T))
      with ((fun e => (fun t => e * moe_tp_size T + t) <$> seqZ 0 (moe_tp_size T)) <$> seqZ 0 (expert_parallel_size T)).
    2: { apply list_fmap_ext. intros _ e _. etrans; [exact (fmap_add_seqZ (e * moe_tp_size T) 0 (moe_tp_size T))|]. f_equal; lia. }
    apply (table_dimension _ _ _ (fun e t => e * moe_tp_size T + t) _ (expert_coordinate T)); [lia|apply NoDup_seqZ| |].
    + intros e t He%elem_of_seqZ Ht. destruct (Hrank e t) as (? & ? & ?); [lia..|done].
    + intros w Hw. destruct (Hcoord w Hw) as (? & ? & ?). by rewrite elem_of_seqZ.
Qed.
Lemma groups_dimensions T : constructed T -> exists g, parallel_group_ranks T = Ok g /\ dimensions T g.
Proof.
  intros HT. unfold parallel_group_ranks. destruct (topology_mode T) eqn:Hm.
  - rewrite is_standard by done. by apply standard_dimensions.
  - rewrite is_outer by done. eexists. split; [done|]. by apply outer_dimensions.
Qed.

(** C29: In every topology that can be constructed, of either mode, the group
    ranks are computed, and along each dimension the groups partition the world:
    every rank is in exactly one group, and every group has the dimension's
    size. *)
Theorem groups_partition_world T : constructed T -> exists g, parallel_group_ranks T = Ok g /\
  Forall (fun gs => concat gs.1 ≡ₚ seqZ 0 (world_size T) /\ forall ranks, ranks ∈ gs.1 -> Z.of_nat (length ranks) = gs.2)
    [(tensor_groups g, tensor_parallel_size T); (expert_groups g, expert_parallel_size T); (data_groups g, data_parallel_size T);
     (moe_tensor_groups g, moe_tp_size T)].
Proof.
  intros HT. destruct (groups_dimensions T HT) as (g & Hg & [[] [] [] []]). exists g. split; [done|]. by rewrite !Forall_cons.
Qed.

(** ** Contexts *)

Section placing.
Context {D PG : Type} `{TorchDistributed D PG}.
#[local] Abbreviation PGs := (PyDict (list Z) (option PG)).
#[local] Abbreviation Proc := (@Process D PG).
Implicit Types (p : Proc) (pgs : PGs).

(** [torch.distributed]: a process that is in a new group gets a communicator of
    the ranks asked for (the others get a placeholder), and the world group has
    all ranks; [members] gives the ranks of a communicator and [calls] the groups
    a process has created, in order. *)
Context (members : PG -> list Z) (calls : D -> list (list Z)).
Record dist_laws : Prop := {
  new_group_made ranks d : exists g d', dist_new_group ranks d = (Ok g, d') /\ (dist_rank d ∈ ranks -> members g = ranks) /\
    dist_world_size d' = dist_world_size d /\ dist_rank d' = dist_rank d /\ calls d' = calls d ++ [ranks];
  world_has_all d : members (dist_world d) = seqZ 0 (dist_world_size d);
}.
Context (Hlaws : dist_laws).

Definition right_group (w : Z) (ranks : list Z) (v : option PG) : Prop :=
  match v with Some pg => w ∈ ranks -> members pg = ranks | None => length ranks = 1%nat end.
Definition right_groups w pgs : Prop := forall ranks v, pgs !! ranks = Some v -> right_group w ranks v.

(** What creating groups leaves behind: the calls [L] and the keys [K] do not
    depend on the process. *)
Definition created pgs p L K pgs' p' : Prop :=
  right_groups (dist_rank (dist_state p)) pgs' /\ keys pgs' = K /\ parallel_context p' = parallel_context p /\
  dist_world_size (dist_state p') = dist_world_size (dist_state p) /\ calls (dist_state p') = calls (dist_state p) ++ L.

Lemma right_insert w pgs ranks v : right_groups w pgs -> right_group w ranks v -> right_groups w (<[ranks := v]> pgs).
Proof.
  intros Hr Hv r u. rewrite dict_lookup_insert. case_decide; [|by apply Hr]. intros [= <-]. by subst.
Qed.
Lemma create_groups_ok groups ks : exists L K, ks `prefix_of` K /\ (forall r, r ∈ groups -> r ∈ K) /\
  forall pgs p, right_groups (dist_rank (dist_state p)) pgs -> keys pgs = ks -> exists pgs' p', create_groups groups pgs p = (Ok pgs', p') /\ created pgs p L K pgs' p'.
Proof.
  revert ks. induction groups as [|r groups IH]; intros ks.
  - exists [], ks. split_and!; [done|by intros ? ?%elem_of_nil|]. intros pgs p Hr Hk. exists pgs, p. split; [done|]. unfold created. by rewrite app_nil_r.
  - destruct (decide (r ∈ ks)) as [Hin|Hout].
    + destruct (IH ks) as (L & K & Hpre & Hall & Hrun). exists L, K. split_and!; [done| |].
      * intros r' [->|?]%elem_of_cons; [|by apply Hall]. by eapply elem_of_prefix.
      * intros pgs p Hr Hk. cbn. rewrite (proj2 (dict_has_key_true _ _)); [by apply Hrun|]. apply dict_elem_of_keys. by rewrite Hk.
    + destruct (IH (ks ++ [r])) as (L & K & Hpre & Hall & Hrun).
      assert (r ∈ K) as HrK by (eapply elem_of_prefix; [|exact Hpre]; set_solver).
      assert (ks `prefix_of` K) as HksK by (etrans; [by apply prefix_app_r|exact Hpre]).
      exists ((if Nat.eqb (length r) 1 then [] else [r]) ++ L), K. split_and!; [done|set_solver|].
      intros pgs p Hr Hk. cbn. rewrite (proj2 (dict_has_key_false _ _)) by (apply dict_not_elem_of_keys; by rewrite Hk).
      assert (forall v, keys (<[r := v]> pgs) = ks ++ [r]) as Hkeys.
      { intros v. rewrite dict_keys_insert_None by (apply dict_not_elem_of_keys; by rewrite Hk). by rewrite Hk. }
      destruct (Nat.eqb (length r) 1) eqn:H1.
      * destruct (Hrun (<[r := None]> pgs) p) as (pgs' & p' & E & Hc); [apply right_insert; [done|by apply Nat.eqb_eq]|done|]. by exists pgs', p'.
      * unfold on_dist. act_unfold. destruct (new_group_made Hlaws r (dist_state p)) as (g & d' & -> & Hm & Hw & Hrk & Hcalls). cbn.
        destruct (Hrun (<[r := Some g]> pgs) (mkProcess d' (parallel_context p))) as (pgs' & p' & E & Hr' & HK & Hpc & Hw' & Hc); [cbn; rewrite Hrk; by apply right_insert|done|].
        exists pgs', p'. split; [exact E|]. unfold created. cbn in *. rewrite Hrk in Hr'. rewrite Hw', Hc, Hcalls. by rewrite <- app_assoc.
Qed.
Lemma create_groups_app g1 g2 pgs p : create_groups (g1 ++ g2) pgs p = (pgs' ← create_groups g1 pgs; create_groups g2 pgs') p.
Proof.
  revert pgs p. induction g1 as [|r g1 IH]; intros pgs p; [done|]. cbn. destruct (has_key r pgs); [apply IH|]. destruct (Nat.eqb (length r) 1); [apply IH|].
  act_unfold. destruct (on_dist _ p) as [[pg|e] p']; [apply IH|done].
Qed.
Lemma create_dimensions_concat dims pgs p : create_dimensions dims pgs p = create_groups (concat dims) pgs p.
Proof.
  revert pgs p. induction dims as [|g dims IH]; intros pgs p; [done|]. cbn [create_dimensions concat]. rewrite create_groups_app.
  unfold mbind, Act_bind. destruct (create_groups g pgs p) as [[pgs'|e] p']; [apply IH|done].
Qed.

(** A process stands in its group at its coordinate, and the group's
    communicator has the group's members. *)
Definition placed (groups : Groups) (n w coordinate : Z) (g : ParallelGroup) : Prop :=
  group_ranks g ∈ groups /\ group_ranks g !! Z.to_nat (group_rank g) = Some w /\ group_rank g = coordinate /\ group_size g = n /\
  match process_group g with Some pg => members pg = group_ranks g | None => n = 1 end.

Lemma local_group_placed W groups n coordinate pgs w : dimension W groups n coordinate -> 0 <= w < W ->
  right_groups w pgs -> (forall r, r ∈ groups -> r ∈ keys pgs) ->
  exists g, local_group groups pgs w = Ok g /\ placed groups n w (coordinate w) g.
Proof.
  intros [Hperm Hsize Hplace] Hw Hr Hk.
  assert (exists ranks, w ∈ ranks /\ ranks ∈ groups) as Hin by (apply elem_of_concat; rewrite Hperm; by apply elem_of_seqZ).
  assert (forall gs, (forall r, r ∈ gs -> r ∈ groups) -> (exists ranks, w ∈ ranks /\ ranks ∈ gs) ->
    exists g, local_group gs pgs w = Ok g /\ placed groups n w (coordinate w) g) as Hgo; [|by apply Hgo].
  intros gs. induction gs as [|r gs IH]; intros Hsub [ranks [Hwr Hrg]]; [by apply elem_of_nil in Hrg|]. cbn [local_group].
  destruct (list_find _ r) as [[i x]|] eqn:Hf.
  - apply list_find_Some in Hf as (Hi & -> & _). assert (r ∈ groups) as Hrin by (apply Hsub; by left).
    pose proof (proj1 (dict_elem_of_keys pgs r) (Hk r Hrin)) as [v Hv]. rewrite Hv.
    pose proof (lookup_lt_Some _ _ _ Hi) as Hlt. unfold new_parallel_group. rewrite Z.eqb_refl. cbn [negb].
    rewrite (proj2 (rank_in_true _ _)) by lia. cbn [negb]. eexists. split; [done|]. unfold placed. cbn. rewrite Nat2Z.id.
    split_and!; [done|done|symmetry; by eapply Hplace|by apply Hsize|]. specialize (Hr r v Hv). destruct v; [by apply Hr, list_elem_of_lookup; exists i|]. cbn in Hr. rewrite <- (Hsize r Hrin). lia.
  - apply IH; [intros r' ?; apply Hsub; by right|]. exists ranks. split; [done|]. apply elem_of_cons in Hrg as [->|?]; [|done].
    exfalso. apply list_find_None in Hf. rewrite Forall_forall in Hf. by apply (Hf w Hwr).
Qed.

(** C28: [init_parallel_context], run by each process of a world of the right
    size, returns a context and keeps it: along every dimension the process is in
    a group of the dimension's size, at the position of its coordinate, whose
    communicator has exactly the members of the group.  All processes create the
    same groups in the same order, as the collective calls require. *)
Theorem contexts_agree T : constructed T -> exists g made, parallel_group_ranks T = Ok g /\
  forall p, parallel_context p = None -> dist_is_initialized (dist_state p) = true -> dist_world_size (dist_state p) = world_size T ->
    0 <= dist_rank (dist_state p) < world_size T ->
    exists c p', init_parallel_context T p = (Ok c, p') /\ parallel_context p' = Some c /\
      calls (dist_state p') = calls (dist_state p) ++ made /\
      let w := dist_rank (dist_state p) in
      group_rank (ctx_world c) = w /\ group_ranks (ctx_world c) = seqZ 0 (world_size T) /\
      placed (tensor_groups g) (tensor_parallel_size T) w (tensor_coordinate T w) (ctx_tensor c) /\
      placed (expert_groups g) (expert_parallel_size T) w (expert_coordinate T w) (ctx_expert c) /\
      placed (data_groups g) (data_parallel_size T) w (data_coordinate T w) (ctx_data c) /\
      placed (moe_tensor_groups g) (moe_tp_size T) w (moe_tensor_coordinate T w) (moe_group c).
Proof.
  intros HT. destruct (groups_dimensions T HT) as (g & Hg & Hdims). set (all := [tensor_groups g; expert_groups g; data_groups g; moe_tensor_groups g]).
  destruct (create_groups_ok (concat all) [seqZ 0 (world_size T)]) as (made & K & _ & Hall & Hrun). exists g, made. split; [done|].
  intros p Hnone Hinit Hsize Hme. set (w := dist_rank (dist_state p)) in *.
  destruct (Hrun (<[seqZ 0 (world_size T) := Some (dist_world (dist_state p))]> ∅) p) as (pgs & p' & E & Hr & HK & Hpc & Hsz & Hcalls); [|done|].
  { apply right_insert; [by intros r v ?|]. cbn. by rewrite (world_has_all Hlaws), Hsize. }
  assert (forall gs, gs ∈ all -> forall r, r ∈ gs -> r ∈ keys pgs) as Hkeys.
  { intros gs Hgs r Hrg. rewrite HK. apply Hall, elem_of_concat. by exists gs. }
  destruct (local_group_placed _ _ _ _ pgs w (dims_tensor T g Hdims)) as (gt & Et & Pt); [done..|apply Hkeys; set_solver|].
  destruct (local_group_placed _ _ _ _ pgs w (dims_expert T g Hdims)) as (ge & Ee & Pe); [done..|apply Hkeys; set_solver|].
  destruct (local_group_placed _ _ _ _ pgs w (dims_data T g Hdims)) as (gd & Ed & Pd); [done..|apply Hkeys; set_solver|].
  destruct (local_group_placed _ _ _ _ pgs w (dims_moe T g Hdims)) as (gm & Em & Pm); [done..|apply Hkeys; set_solver|].
  eexists _, _. split.
  { unfold init_parallel_context. act_unfold. unfold id. rewrite Hnone, Hinit, Hsize, Z.eqb_refl, Hg.
    cbn -[create_dimensions local_group new_parallel_group placed]. fold all.
    rewrite create_dimensions_concat. fold w. rewrite E. unfold new_parallel_group. rewrite length_seqZ, Z2Nat.id, Z.eqb_refl by lia. cbn [negb].
    rewrite (proj2 (rank_in_true w (world_size T)) Hme). cbn [negb]. rewrite Et, Ee, Ed, Em. reflexivity. }
  cbn. by rewrite Hcalls.
Qed.
End placing.

(** ** Divisibility *)

(** What [validate_model_sharding] accepts is divided without remainder. *)
Lemma validate_divisible_exact fields n : is_ok (validate_divisible fields n) = true <->
  forall name v, (name, v) ∈ items fields -> 0 < v /\ v mod n = 0.
Proof.
  unfold validate_divisible. set (bad := fun kv : string * Z => (kv.2 <=? 0) || negb (kv.2 mod n =? 0)).
  assert (List.filter bad (items fields) = [] <-> forall name v, (name, v) ∈ items fields -> 0 < v /\ v mod n = 0) as Hb.
  { split.
    - intros Hf name v Hin. destruct (bad (name, v)) eqn:Hbad; [|unfold bad in Hbad; cbn in Hbad; lia].
      assert (In (name, v) (List.filter bad (items fields))) as Hin' by (apply filter_In; split; [by apply list_elem_of_In|done]).
      by rewrite Hf in Hin'.
    - intros Hall. destruct (List.filter bad (items fields)) as [|[name v] l] eqn:Hf; [done|].
      assert (In (name, v) (List.filter bad (items fields))) as [Hin Hbad]%filter_In by (rewrite Hf; by left).
      apply list_elem_of_In in Hin. destruct (Hall _ _ Hin). unfold bad in Hbad. cbn in Hbad. lia. }
  rewrite <- Hb. case_bool_decide; done.
Qed.
Lemma validate_top_k_exact k n : is_ok (validate_top_k k n) = true <-> 1 <= k <= n.
Proof. unfold validate_top_k. destruct (negb _) eqn:E; split; intros; try done; lia. Qed.

(** ** Small worlds *)

Definition cube : ParallelTopology := mkTopology 2 2 2 STANDARD.
Definition outer_four : ParallelTopology := mkTopology 4 2 1 OUTER_TP_MOE.
Lemma cube_constructed : constructed cube.
Proof. by exists 2, 2, 2, "standard"%string. Qed.
Lemma outer_four_constructed : constructed outer_four.
Proof. by exists 4, 2, 1, "outer_tp_moe_tp_ep"%string. Qed.

(** Rank 5 is the second data replica, the first expert rank, the second tensor
    rank. *)
Lemma rank_conversions_inverse_witness :
  exists w, world_rank_from_parallel_ranks cube 1 0 1 = Ok w /\ 0 <= w < 8 /\ parallel_ranks_from_world_rank cube w = Ok (1, 0, 1).
Proof. apply (rank_conversions_inverse cube cube_constructed); done. Defined.

Lemma groups_partition_world_witness : exists g, parallel_group_ranks outer_four = Ok g /\ expert_groups g = [[0; 2]; [1; 3]] /\
  concat (expert_groups g) ≡ₚ seqZ 0 4.
Proof.
  destruct (groups_partition_world outer_four outer_four_constructed) as (g & Hg & Hall). exists g. split; [done|].
  assert (expert_groups g = [[0; 2]; [1; 3]]) as E by (vm_compute in Hg; by injection Hg as <-).
  split; [done|]. rewrite !Forall_cons in Hall. apply Hall.
Defined.

(** A process that records the groups it creates. *)
Record RecordingDist := mkRecording { rec_size : Z; rec_rank : Z; rec_calls : list (list Z) }.
#[local] Instance recording_dist : TorchDistributed RecordingDist (list Z) := {|
  dist_is_initialized _ := true;
  dist_world_size := rec_size;
  dist_rank := rec_rank;
  dist_world d := seqZ 0 (rec_size d);
  dist_new_group ranks d := (Ok ranks, mkRecording (rec_size d) (rec_rank d) (rec_calls d ++ [ranks]));
|}.
Lemma recording_laws : dist_laws id rec_calls.
Proof. split; [|done]. intros ranks d. by eexists _, _. Qed.
(** Rank 3 of four is the second of the expert group of ranks 1 and 3. *)
Lemma contexts_agree_witness : exists c p',
  init_parallel_context outer_four (mkProcess (mkRecording 4 3 []) None) = (Ok c, p') /\ group_ranks (ctx_expert c) = [1; 3] /\ ep_rank c = 1.
Proof.
  destruct (contexts_agree id rec_calls recording_laws outer_four outer_four_constructed) as (g & made & Hg & Hrun).
  destruct (Hrun (mkProcess (mkRecording 4 3 []) None)) as (c & p' & E & _ & _ & _ & _ & _ & (Hin & Hat & Hrank & _) & _); [done..|].
  exists c, p'. split; [done|]. vm_compute in Hg. injection Hg as <-. cbn in Hin.
  rewrite Hrank in Hat. split; [|exact Hrank]. apply elem_of_cons in Hin as [Hin|Hin%list_elem_of_singleton]; rewrite Hin in *; [|done].
  by vm_compute in Hat.
Defined.
