(* ===== verification/PyBytes.v ===== *)
(** * Byte strings

    Python's [bytes] with its lexicographic order, the [struct] format ["<q"]
    (little-endian signed 64-bit integers). *)

From stdpp Require Import base gmap list strings.
From Stdlib Require Import ZArith Lia.
From Stdlib.Init Require Import Byte.
From Stdlib.Strings Require Byte.
From S2P Require Import Prelude.

Abbreviation byte := Init.Byte.byte.
Abbreviation bytes := (list Init.Byte.byte).

#[export] Instance byte_eq_dec : EqDecision byte := Strings.Byte.byte_eq_dec.

Lemma byte_of_to_N b : Strings.Byte.of_N (Strings.Byte.to_N b) = Some b.
Proof. apply Strings.Byte.of_to_N. Qed.

#[export] Instance byte_countable : Countable byte :=
  inj_countable Strings.Byte.to_N Strings.Byte.of_N byte_of_to_N.

Definition byte_val (b : byte) : Z := Z.of_N (Strings.Byte.to_N b).
(** The byte of [z mod 256]. *)
Definition byte_of (z : Z) : byte :=
  default x00 (Strings.Byte.of_N (Z.to_N (z mod 256))).

(** [a < b] on [bytes]. *)
Fixpoint bytes_lt (a b : bytes) : bool :=
  match a, b with
  | _, [] => false
  | [], _ :: _ => true
  | x :: a', y :: b' =>
      if byte_val x <? byte_val y then true
      else if byte_val y <? byte_val x then false
      else bytes_lt a' b'
  end.

(** [struct.pack("<q", v)]: raises outside the signed 64-bit range. *)
Fixpoint le_bytes (n : nat) (v : Z) : bytes :=
  match n with
  | O => []
  | S n' => byte_of v :: le_bytes n' (Z.shiftr v 8)
  end.
Fixpoint le_value (l : bytes) : Z :=
  match l with
  | [] => 0
  | b :: l' => byte_val b + 256 * le_value l'
  end.
Definition in_int64 (v : Z) : bool := (- 2 ^ 63 <=? v) && (v <? 2 ^ 63).
Definition struct_pack_q (v : Z) : exc bytes :=
  if in_int64 v then Ok (le_bytes 8 v)
  else Raise (StructError "argument out of range").

(** ** The order *)

Lemma byte_val_range b : 0 <= byte_val b < 256.
Proof. unfold byte_val. pose proof (Strings.Byte.to_N_bounded b). lia. Qed.

Lemma byte_val_inj a b : byte_val a = byte_val b -> a = b.
Proof.
  unfold byte_val. intros H%N2Z.inj.
  pose proof (byte_of_to_N a) as Ha. rewrite H, byte_of_to_N in Ha. congruence.
Qed.

Lemma byte_val_of z : byte_val (byte_of z) = z mod 256.
Proof.
  unfold byte_of, byte_val.
  pose proof (Z.mod_pos_bound z 256 ltac:(lia)) as Hb.
  destruct (Strings.Byte.of_N (Z.to_N (z mod 256))) as [b|] eqn:E.
  - apply Strings.Byte.to_of_N in E. simpl. rewrite E. lia.
  - apply Strings.Byte.of_N_None_iff in E. lia.
Qed.

Lemma bytes_lt_irrefl a : bytes_lt a a = false.
Proof. induction a as [|x a IH]; simpl; [done|]. by rewrite Z.ltb_irrefl. Qed.

Ltac bytes_cmp :=
  repeat match goal with
  | |- context [?x <? ?y] => destruct (Z.ltb_spec x y)
  | H : context [?x <? ?y] |- _ => destruct (Z.ltb_spec x y)
  end.

Lemma bytes_lt_trans a b c : bytes_lt a b = true -> bytes_lt b c = true -> bytes_lt a c = true.
Proof.
  revert b c. induction a as [|x a IH]; intros [|y b] [|z c]; simpl; try done.
  bytes_cmp; try done; try lia. intros. eauto.
Qed.

Lemma bytes_lt_total a b : bytes_lt a b = false -> bytes_lt b a = false -> a = b.
Proof.
  revert b. induction a as [|x a IH]; intros [|y b]; simpl; try done.
  bytes_cmp; try done.
  intros H1 H2. f_equal; [|by apply IH].
  apply byte_val_inj. lia.
Qed.

Lemma bytes_lt_asym a b : bytes_lt a b = true -> bytes_lt b a = false.
Proof.
  intros H. destruct (bytes_lt b a) eqn:E; [|done].
  pose proof (bytes_lt_trans _ _ _ H E) as Hc. by rewrite bytes_lt_irrefl in Hc.
Qed.

(** [Blt a b]: the order as a relation, for [StronglySorted] and friends. *)
Definition Blt (a b : bytes) : Prop := bytes_lt a b = true.
#[export] Instance Blt_dec a b : Decision (Blt a b) := decide (bytes_lt a b = true).
#[export] Instance Blt_strict : StrictOrder Blt.
Proof.
  split.
  - intros a H. unfold Blt in H. by rewrite bytes_lt_irrefl in H.
  - intros a b c. apply bytes_lt_trans.
Qed.

#[export] Instance Blt_antisymm : AntiSymm eq Blt.
Proof. intros a b H1 H2. apply bytes_lt_asym in H1. unfold Blt in H2. congruence. Qed.
#[export] Instance Blt_transitive : Transitive Blt.
Proof. intros a b c. apply bytes_lt_trans. Qed.

Lemma bytes_trichotomy a b : {Blt a b} + {a = b} + {Blt b a}.
Proof.
  unfold Blt. destruct (bytes_lt a b) eqn:E1; [by left; left|].
  destruct (bytes_lt b a) eqn:E2; [by right|]. left; right. by apply bytes_lt_total.
Qed.

(** ** Packing *)

Lemma length_le_bytes n v : length (le_bytes n v) = n.
Proof. revert v. induction n; simpl; auto. Qed.

Lemma le_value_bytes n v : le_value (le_bytes n v) = v mod 2 ^ (8 * Z.of_nat n).
Proof.
  revert v. induction n as [|n IH]; intros v; simpl le_bytes; cbn [le_value].
  - by rewrite Z.mod_1_r.
  - rewrite IH, byte_val_of, Z.shiftr_div_pow2 by lia.
    replace (8 * Z.of_nat (S n)) with (8 + 8 * Z.of_nat n) by lia.
    rewrite Z.pow_add_r by lia. change (2 ^ 8) with 256.
    rewrite Z.rem_mul_r by lia. lia.
Qed.

Lemma le_bytes_inj v w :
  in_int64 v = true -> in_int64 w = true -> le_bytes 8 v = le_bytes 8 w -> v = w.
Proof.
  unfold in_int64. intros Hv Hw H. bool_to_prop.
  apply (f_equal le_value) in H. rewrite !le_value_bytes in H.
  change (8 * Z.of_nat 8) with 64 in H.
  assert (2 ^ 64 = 2 * 2 ^ 63) as Hp by done.
  rewrite Hp in H.
  apply (f_equal (fun x => (x + 2 ^ 63) mod (2 * 2 ^ 63))) in H.
  rewrite !Zplus_mod_idemp_l in H. rewrite !Z.mod_small in H by lia. lia.
Qed.
