(* ===== verification/Sha256.v ===== *)
(** * SHA-256

    What the code uses of [hashlib.sha256]: the digest of a byte string.  The
    function is written out (FIPS 180-4, 32-bit words as [Z] reduced modulo
    [2^32]) so that block ids and token digests evaluate on concrete inputs.
    The [Digest] class is what the cache components rely on; the length of a
    digest is its only law. *)

From stdpp Require Import base list strings.
From Stdlib Require Import ZArith Lia.
From Stdlib.Init Require Import Byte.
From S2P Require Import Prelude PyBytes.

Definition w32 (x : Z) : Z := Z.land x 4294967295.
Definition rotr (n x : Z) : Z :=
  Z.lor (Z.shiftr x n) (w32 (Z.shiftl x (32 - n))).

Definition round_constants : list Z :=
  [1116352408; 1899447441; 3049323471; 3921009573; 961987163; 1508970993;
   2453635748; 2870763221; 3624381080; 310598401; 607225278; 1426881987;
   1925078388; 2162078206; 2614888103; 3248222580; 3835390401; 4022224774;
   264347078; 604807628; 770255983; 1249150122; 1555081692; 1996064986;
   2554220882; 2821834349; 2952996808; 3210313671; 3336571891; 3584528711;
   113926993; 338241895; 666307205; 773529912; 1294757372; 1396182291;
   1695183700; 1986661051; 2177026350; 2456956037; 2730485921; 2820302411;
   3259730800; 3345764771; 3516065817; 3600352804; 4094571909; 275423344;
   430227734; 506948616; 659060556; 883997877; 958139571; 1322822218;
   1537002063; 1747873779; 1955562222; 2024104815; 2227730452; 2361852424;
   2428436474; 2756734187; 3204031479; 3329325298].

Definition initial_state : list Z :=
  [1779033703; 3144134277; 1013904242; 2773480762; 1359893119; 2600822924;
   528734635; 1541459225].

Definition big_sigma0 x := Z.lxor (rotr 2 x) (Z.lxor (rotr 13 x) (rotr 22 x)).
Definition big_sigma1 x := Z.lxor (rotr 6 x) (Z.lxor (rotr 11 x) (rotr 25 x)).
Definition small_sigma0 x := Z.lxor (rotr 7 x) (Z.lxor (rotr 18 x) (Z.shiftr x 3)).
Definition small_sigma1 x := Z.lxor (rotr 17 x) (Z.lxor (rotr 19 x) (Z.shiftr x 10)).
Definition choose x y z := Z.lxor (Z.land x y) (Z.land (Z.lxor x 4294967295) z).
Definition majority x y z :=
  Z.lxor (Z.land x y) (Z.lxor (Z.land x z) (Z.land y z)).

(** The message schedule, newest word first. *)
Fixpoint extend_schedule (n : nat) (w : list Z) : list Z :=
  match n with
  | O => w
  | S n' =>
      let at_ i := nth i w 0 in
      extend_schedule n'
        (w32 (small_sigma1 (at_ 1%nat) + at_ 6%nat + small_sigma0 (at_ 14%nat) + at_ 15%nat) :: w)
  end.

Definition sha_round (st : list Z) (kw : Z * Z) : list Z :=
  match st with
  | [a; b; c; d; e; f; g; h] =>
      let t1 := h + big_sigma1 e + choose e f g + kw.1 + kw.2 in
      let t2 := big_sigma0 a + majority a b c in
      [w32 (t1 + t2); a; b; c; w32 (d + t1); e; f; g]
  | _ => st
  end.

Definition compress (st block : list Z) : list Z :=
  let w := rev (extend_schedule 48 (rev block)) in
  zip_with (fun x y => w32 (x + y)) st
    (fold_left sha_round (zip round_constants w) st).

(** Big-endian 32-bit words. *)
Definition word_bytes (x : Z) : bytes :=
  [byte_of (Z.shiftr x 24); byte_of (Z.shiftr x 16); byte_of (Z.shiftr x 8); byte_of x].
Fixpoint bytes_words (l : bytes) : list Z :=
  match l with
  | a :: b :: c :: d :: l' =>
      (byte_val a * 16777216 + byte_val b * 65536 + byte_val c * 256 + byte_val d)
      :: bytes_words l'
  | _ => []
  end.

Definition pad (m : bytes) : bytes :=
  let n := length m in
  let zeros := Z.to_nat ((55 - Z.of_nat n) mod 64) in
  let bits := 8 * Z.of_nat n in
  m ++ [x80] ++ replicate zeros x00
    ++ word_bytes (Z.shiftr bits 32) ++ word_bytes (w32 bits).

Fixpoint blocks_of (fuel : nat) (w : list Z) : list (list Z) :=
  match fuel, w with
  | S fuel', _ :: _ => take 16 w :: blocks_of fuel' (drop 16 w)
  | _, _ => []
  end.

Definition sha256 (m : bytes) : bytes :=
  let w := bytes_words (pad m) in
  let st := fold_left compress (blocks_of (length w) w) initial_state in
  mjoin (map word_bytes st).

(** What the caches use of a hash function. *)
Class Digest := {
  digest : bytes -> bytes;
  digest_size : nat;
  length_digest m : length (digest m) = digest_size;
}.

Lemma length_sha_round st kw : length (sha_round st kw) = length st.
Proof. unfold sha_round. repeat (case_match; try done). Qed.

Lemma length_rounds l st : length (fold_left sha_round l st) = length st.
Proof. revert st. induction l; intros; simpl; [done|]. by rewrite IHl, length_sha_round. Qed.

Lemma length_compress st b : length (compress st b) = length st.
Proof. unfold compress. rewrite length_zip_with, length_rounds. lia. Qed.

Lemma length_word_bytes l : length (mjoin (map word_bytes l)) = (4 * length l)%nat.
Proof. induction l as [|x l IH]; simpl; [done|]. rewrite IH. lia. Qed.

Lemma length_sha256 m : length (sha256 m) = 32%nat.
Proof.
  unfold sha256. rewrite length_word_bytes.
  assert (forall bs st, length (fold_left compress bs st) = length st) as Hl.
  { induction bs as [|b bs IH]; intros st; simpl; [done|]. by rewrite IH, length_compress. }
  by rewrite Hl.
Qed.

#[export] Instance sha256_digest : Digest :=
  {| digest := sha256; digest_size := 32; length_digest := length_sha256 |}.

(** The FIPS 180-4 example: the digest of ["abc"]. *)
Example sha256_abc :
  bytes_words (sha256 [x61; x62; x63]) =
  [3128432319; 2399260650; 1094795486; 1571693091;
   2953011619; 2518121116; 3021012833; 4060091821].
Proof. vm_compute. reflexivity. Qed.
