(* ===== verification/RoutingMembership.v ===== *)
(** * The routing membership set

    [engine/prefix_cache.py], [_PrefixCacheRoutingMembership]: the immutable
    AVL set of block ids that a routing snapshot shares with the live index.
    [Node] is [_PrefixCacheRoutingMembershipNode] and [Leaf] is [None]. *)

From stdpp Require Import base gmap list strings sorting.
From Stdlib Require Import ZArith Lia.
From Stdlib.Init Require Import Byte.
From S2P Require Import Prelude PyBytes.

Inductive MembershipNode :=
| Leaf
| Node (block_id : bytes) (left_ right_ : MembershipNode) (height : Z).

(** ** Operations *)

Definition routing_membership_height (node : MembershipNode) : Z :=
  match node with Leaf => 0 | Node _ _ _ h => h end.

Definition make_routing_membership_node (block_id : bytes)
    (left_ right_ : MembershipNode) : MembershipNode :=
  Node block_id left_ right_
    (1 + Z.max (routing_membership_height left_) (routing_membership_height right_)).

Definition rotate_routing_membership_left (node : MembershipNode) : exc MembershipNode :=
  match node with
  | Node block_id left_ (Node pivot_id pivot_left pivot_right _) _ =>
      let moved := make_routing_membership_node block_id left_ pivot_left in
      Ok (make_routing_membership_node pivot_id moved pivot_right)
  | Node _ _ Leaf _ =>
      Raise (RuntimeError "Cannot rotate prefix-cache routing membership left.")
  | Leaf => Raise (AttributeError "right")
  end.

Definition rotate_routing_membership_right (node : MembershipNode) : exc MembershipNode :=
  match node with
  | Node block_id (Node pivot_id pivot_left pivot_right _) right_ _ =>
      let moved := make_routing_membership_node block_id pivot_right right_ in
      Ok (make_routing_membership_node pivot_id pivot_left moved)
  | Node _ Leaf _ _ =>
      Raise (RuntimeError "Cannot rotate prefix-cache routing membership right.")
  | Leaf => Raise (AttributeError "left")
  end.

Definition left_of (node : MembershipNode) : MembershipNode :=
  match node with Leaf => Leaf | Node _ l _ _ => l end.
Definition right_of (node : MembershipNode) : MembershipNode :=
  match node with Leaf => Leaf | Node _ _ r _ => r end.

Definition balance_routing_membership (node : MembershipNode) : exc MembershipNode :=
  match node with
  | Leaf => Raise (AttributeError "left")
  | Node block_id left_ right_ _ =>
      let balance := routing_membership_height left_ - routing_membership_height right_ in
      if 1 <? balance then
        match left_ with
        | Leaf => Raise (RuntimeError "Invalid left-heavy prefix-cache routing membership.")
        | _ =>
            if routing_membership_height (left_of left_) <?
               routing_membership_height (right_of left_)
            then left_' ← rotate_routing_membership_left left_;
                 rotate_routing_membership_right
                   (make_routing_membership_node block_id left_' right_)
            else rotate_routing_membership_right node
        end
      else if balance <? -1 then
        match right_ with
        | Leaf => Raise (RuntimeError "Invalid right-heavy prefix-cache routing membership.")
        | _ =>
            if routing_membership_height (right_of right_) <?
               routing_membership_height (left_of right_)
            then right_' ← rotate_routing_membership_right right_;
                 rotate_routing_membership_left
                   (make_routing_membership_node block_id left_ right_')
            else rotate_routing_membership_left node
        end
      else Ok node
  end.

Fixpoint insert_routing_membership (node : MembershipNode) (block_id : bytes) :
    exc (MembershipNode * bool) :=
  match node with
  | Leaf => Ok (Node block_id Leaf Leaf 1, true)
  | Node node_id left_ right_ _ =>
      if bool_decide (block_id = node_id) then Ok (node, false)
      else if bytes_lt block_id node_id then
        '(left_', inserted) ← insert_routing_membership left_ block_id;
        if negb inserted then Ok (node, false)
        else updated ← balance_routing_membership
                         (make_routing_membership_node node_id left_' right_);
             Ok (updated, true)
      else
        '(right_', inserted) ← insert_routing_membership right_ block_id;
        if negb inserted then Ok (node, false)
        else updated ← balance_routing_membership
                         (make_routing_membership_node node_id left_ right_');
             Ok (updated, true)
  end.

(** The [block_id] of the leftmost node. *)
Fixpoint minimum_routing_membership_node (node : MembershipNode) : exc bytes :=
  match node with
  | Leaf => Raise (AttributeError "left")
  | Node block_id Leaf _ _ => Ok block_id
  | Node _ left_ _ _ => minimum_routing_membership_node left_
  end.

Fixpoint remove_routing_membership (node : MembershipNode) (block_id : bytes) :
    exc (MembershipNode * bool) :=
  match node with
  | Leaf => Ok (Leaf, false)
  | Node node_id left_ right_ _ =>
      if bytes_lt block_id node_id then
        '(left_', removed) ← remove_routing_membership left_ block_id;
        if negb removed then Ok (node, false)
        else updated ← balance_routing_membership
                         (make_routing_membership_node node_id left_' right_);
             Ok (updated, true)
      else if bytes_lt node_id block_id then
        '(right_', removed) ← remove_routing_membership right_ block_id;
        if negb removed then Ok (node, false)
        else updated ← balance_routing_membership
                         (make_routing_membership_node node_id left_ right_');
             Ok (updated, true)
      else
        match left_, right_ with
        | Leaf, _ => Ok (right_, true)
        | _, Leaf => Ok (left_, true)
        | _, _ =>
            successor ← minimum_routing_membership_node right_;
            '(right_', removed) ← remove_routing_membership right_ successor;
            if negb removed then
              Raise (RuntimeError "Failed to remove prefix-cache routing membership successor.")
            else updated ← balance_routing_membership
                             (make_routing_membership_node successor left_ right_');
                 Ok (updated, true)
        end
  end.

Record RoutingMembership := mkMembership {
  root : MembershipNode;
  live_blocks : Z;
}.
Definition empty_membership : RoutingMembership := mkMembership Leaf 0.

Definition membership_height (m : RoutingMembership) : Z := routing_membership_height (root m).

Fixpoint node_contains (node : MembershipNode) (block_id : bytes) : bool :=
  match node with
  | Leaf => false
  | Node node_id left_ right_ _ =>
      if bool_decide (block_id = node_id) then true
      else if bytes_lt block_id node_id then node_contains left_ block_id
      else node_contains right_ block_id
  end.
Definition membership_contains (m : RoutingMembership) (block_id : bytes) : bool :=
  node_contains (root m) block_id.

Definition membership_insert (m : RoutingMembership) (block_id : bytes) : exc RoutingMembership :=
  '(root', inserted) ← insert_routing_membership (root m) block_id;
  if negb inserted then
    Raise (RuntimeError "Prefix-cache routing membership already contains inserted block.")
  else Ok (mkMembership root' (live_blocks m + 1)).

Definition membership_remove (m : RoutingMembership) (block_id : bytes) : exc RoutingMembership :=
  '(root', removed) ← remove_routing_membership (root m) block_id;
  if negb removed then
    Raise (RuntimeError "Prefix-cache routing membership is missing removed block.")
  else Ok (mkMembership root' (live_blocks m - 1)).

(** ** Well-formedness

    [node_keys] is the in-order traversal; [avl] says that every stored height
    is exact and every node is balanced. *)

Fixpoint node_keys (node : MembershipNode) : list bytes :=
  match node with
  | Leaf => []
  | Node block_id left_ right_ _ => node_keys left_ ++ block_id :: node_keys right_
  end.

Fixpoint avl (node : MembershipNode) : Prop :=
  match node with
  | Leaf => True
  | Node _ left_ right_ h =>
      avl left_ /\ avl right_ /\
      -1 <= routing_membership_height left_ - routing_membership_height right_ <= 1 /\
      h = 1 + Z.max (routing_membership_height left_) (routing_membership_height right_)
  end.

Definition search_tree (node : MembershipNode) : Prop := StronglySorted Blt (node_keys node).

(** [membership_wf m ids]: [m] is a balanced search tree holding exactly [ids]. *)
Record membership_wf (m : RoutingMembership) (ids : gset bytes) : Prop := {
  mwf_avl : avl (root m);
  mwf_search : search_tree (root m);
  mwf_ids : forall x, x ∈ node_keys (root m) <-> x ∈ ids;
  mwf_live : live_blocks m = Z.of_nat (length (node_keys (root m)));
}.

#[local] Arguments balance_routing_membership : simpl never.

(** ** Sorted key lists *)

Lemma sorted_app_cons l1 x l2 :
  StronglySorted Blt (l1 ++ x :: l2) <->
  StronglySorted Blt l1 /\ StronglySorted Blt l2 /\
  (forall y, y ∈ l1 -> Blt y x) /\ (forall y, y ∈ l2 -> Blt x y).
Proof.
  induction l1 as [|a l1 IH]; simpl.
  - split.
    + intros H. apply StronglySorted_inv in H as [H1 H2].
      rewrite Forall_forall in H2. repeat split; try done; [by constructor|].
      intros y Hy. by apply elem_of_nil in Hy.
    + intros (_ & H2 & _ & H4). constructor; [done|]. by apply Forall_forall.
  - split.
    + intros H. apply StronglySorted_inv in H as [H1 H2].
      apply IH in H1 as (Hs1 & Hs2 & Hl & Hr). rewrite Forall_forall in H2.
      repeat split; try done.
      * constructor; [done|]. apply Forall_forall. set_solver.
      * intros y [->|Hy]%elem_of_cons; [|by auto]. apply H2. set_solver.
    + intros (H1 & H2 & H3 & H4). apply StronglySorted_inv in H1 as [H1 H1'].
      rewrite Forall_forall in H1'. constructor.
      * apply IH. repeat split; try done. set_solver.
      * apply Forall_forall. intros y Hy.
        assert (Blt a x) by (apply H3; set_solver).
        apply elem_of_app in Hy as [Hy|Hy]; [by apply H1'|].
        apply elem_of_cons in Hy as [->|Hy]; [done|]. etrans; [done|]. by apply H4.
Qed.

Lemma node_contains_keys n x : search_tree n -> node_contains n x = true <-> x ∈ node_keys n.
Proof.
  unfold search_tree. induction n as [|k l IHl r IHr h]; simpl; [by rewrite elem_of_nil|].
  intros (Hl & Hr & Hlt & Hgt)%sorted_app_cons.
  rewrite elem_of_app, elem_of_cons. case_bool_decide as Hx; [naive_solver|].
  destruct (bytes_lt x k) eqn:E.
  - rewrite IHl by done. split; [by auto|]. intros [?|[?|Hy]]; try done.
    apply Hgt in Hy. unfold Blt in Hy. apply bytes_lt_asym in Hy. congruence.
  - rewrite IHr by done. split; [by auto|]. intros [Hy|[?|?]]; try done.
    apply Hlt in Hy. unfold Blt in Hy. congruence.
Qed.

(** ** Balancing *)

Lemma height_nonneg n : avl n -> 0 <= routing_membership_height n.
Proof.
  induction n as [|k l IHl r IHr h]; simpl; [lia|]. intros (Hl & Hr & _ & ->).
  specialize (IHl Hl). specialize (IHr Hr). lia.
Qed.

Ltac height_facts :=
  repeat match goal with
  | H : avl ?n |- _ =>
      lazymatch goal with
      | _ : 0 <= routing_membership_height n |- _ => fail
      | _ => pose proof (height_nonneg n H)
      end
  end.

Ltac finish_rotation :=
  eexists; split; [done|]; simpl; repeat split; try done; try lia;
  repeat (rewrite <- app_assoc; simpl); try done.

(** The two rotations the code performs for one side being two too high leave
    the key order alone and restore balance. *)
Lemma balance_spec k l r :
  avl l -> avl r ->
  -2 <= routing_membership_height l - routing_membership_height r <= 2 ->
  let top := Z.max (routing_membership_height l) (routing_membership_height r) in
  exists n, balance_routing_membership (make_routing_membership_node k l r) = Ok n /\
    avl n /\ node_keys n = node_keys l ++ k :: node_keys r /\
    top <= routing_membership_height n <= 1 + top /\
    (-1 <= routing_membership_height l - routing_membership_height r <= 1 ->
     routing_membership_height n = 1 + top).
Proof.
  intros Hl Hr Hd. unfold balance_routing_membership. simpl. height_facts.
  destruct (Z.ltb_spec 1 (routing_membership_height l - routing_membership_height r)).
  - destruct l as [|lk ll lr lh]; simpl in *; [lia|]. destruct Hl as (Hll & Hlr & Hb & Hh).
    height_facts.
    destruct (Z.ltb_spec (routing_membership_height ll) (routing_membership_height lr)).
    + destruct lr as [|mk ml mr mh]; simpl in *; [lia|]. destruct Hlr as (? & ? & ? & ?).
      height_facts. finish_rotation.
    + finish_rotation.
  - destruct (Z.ltb_spec (routing_membership_height l - routing_membership_height r) (-1)).
    + destruct r as [|rk rl rr rh]; simpl in *; [lia|]. destruct Hr as (Hrl & Hrr & Hb & Hh).
      height_facts.
      destruct (Z.ltb_spec (routing_membership_height rr) (routing_membership_height rl)).
      * destruct rl as [|mk ml mr mh]; simpl in *; [lia|]. destruct Hrl as (? & ? & ? & ?).
        height_facts. finish_rotation.
      * finish_rotation.
    + finish_rotation.
Qed.

(** ** Insertion *)

Lemma insert_present n x :
  search_tree n -> x ∈ node_keys n -> insert_routing_membership n x = Ok (n, false).
Proof.
  unfold search_tree. induction n as [|k l IHl r IHr h]; simpl; [by rewrite elem_of_nil|].
  intros (Hl & Hr & Hlt & Hgt)%sorted_app_cons.
  rewrite elem_of_app, elem_of_cons. intros Hx. case_bool_decide as Hk; [done|].
  destruct (bytes_lt x k) eqn:E.
  - rewrite IHl; [done..|]. destruct Hx as [?|[?|Hy]]; try done.
    apply Hgt in Hy. apply bytes_lt_asym in Hy. congruence.
  - rewrite IHr; [done..|]. destruct Hx as [Hy|[?|?]]; try done.
    apply Hlt in Hy. unfold Blt in Hy. congruence.
Qed.

Lemma insert_absent n x :
  avl n -> search_tree n -> x ∉ node_keys n ->
  exists n', insert_routing_membership n x = Ok (n', true) /\
    avl n' /\ search_tree n' /\ node_keys n' ≡ₚ x :: node_keys n /\
    routing_membership_height n <= routing_membership_height n' <= routing_membership_height n + 1.
Proof.
  unfold search_tree. induction n as [|k l IHl r IHr h]; simpl.
  - intros _ _ _. eexists. split; [done|]. simpl. repeat split; try done; try lia.
    by repeat constructor.
  - intros (Hal & Har & Hb & ->) (Hl & Hr & Hlt & Hgt)%sorted_app_cons Hx.
    rewrite elem_of_app, elem_of_cons in Hx. rewrite bool_decide_eq_false_2 by naive_solver.
    destruct (bytes_lt x k) eqn:E.
    + destruct IHl as (l' & Hi & Hal' & Hsl' & Hp & Hh); [naive_solver..|].
      destruct (balance_spec k l' r) as (n' & Hbal & Ha' & Hk' & Hh' & Hh2); [done..|lia|].
      rewrite Hi. bind_simpl. rewrite Hbal. bind_simpl. eexists. split; [done|].
      repeat split; try done; try lia.
      * rewrite Hk'. apply sorted_app_cons. repeat split; try done.
        intros y. rewrite Hp. intros [->|?]%elem_of_cons; auto.
      * by rewrite Hk', Hp.
    + assert (Blt k x) as Hkx.
      { destruct (bytes_trichotomy x k) as [[?| ->]|?]; unfold Blt in *; [congruence| |done].
        exfalso. apply Hx. by right; left. }
      destruct IHr as (r' & Hi & Har' & Hsr' & Hp & Hh); [naive_solver..|].
      destruct (balance_spec k l r') as (n' & Hbal & Ha' & Hk' & Hh' & Hh2); [done..|lia|].
      rewrite Hi. bind_simpl. rewrite Hbal. bind_simpl. eexists. split; [done|].
      repeat split; try done; try lia.
      * rewrite Hk'. apply sorted_app_cons. repeat split; try done.
        intros y. rewrite Hp. intros [->|?]%elem_of_cons; auto.
      * rewrite Hk', Hp. solve_Permutation.
Qed.

(** ** Removal *)

Lemma remove_absent n x :
  search_tree n -> x ∉ node_keys n -> remove_routing_membership n x = Ok (n, false).
Proof.
  unfold search_tree. induction n as [|k l IHl r IHr h]; simpl; [done|].
  intros (Hl & Hr & Hlt & Hgt)%sorted_app_cons Hx.
  rewrite elem_of_app, elem_of_cons in Hx.
  destruct (bytes_lt x k) eqn:E1; [by rewrite IHl by naive_solver|].
  destruct (bytes_lt k x) eqn:E2; [by rewrite IHr by naive_solver|].
  exfalso. apply Hx. right; left. by apply bytes_lt_total.
Qed.

Lemma minimum_spec n : n <> Leaf ->
  exists m rest, minimum_routing_membership_node n = Ok m /\ node_keys n = m :: rest.
Proof.
  induction n as [|k l IHl r IHr h]; [done|]. intros _. destruct l as [|lk ll lr lh].
  - simpl. eauto.
  - destruct IHl as (m & rest & Hm & Hk); [done|].
    exists m, (rest ++ k :: node_keys r). split; [done|].
    change (node_keys (Node lk ll lr lh) ++ k :: node_keys r = m :: rest ++ k :: node_keys r).
    by rewrite Hk.
Qed.

Lemma search_tree_cons_perm (x : bytes) l l' :
  StronglySorted Blt (x :: l) -> x :: l ≡ₚ x :: l' -> StronglySorted Blt l' -> l' = l.
Proof.
  intros [Hl _]%StronglySorted_inv Hp Hl'.
  apply (StronglySorted_unique Blt); [done..|]. symmetry. by apply (Permutation_cons_inv (a := x)).
Qed.

Lemma remove_present n x :
  avl n -> search_tree n -> x ∈ node_keys n ->
  exists n', remove_routing_membership n x = Ok (n', true) /\
    avl n' /\ search_tree n' /\ node_keys n ≡ₚ x :: node_keys n' /\
    routing_membership_height n - 1 <= routing_membership_height n' <= routing_membership_height n.
Proof.
  unfold search_tree. revert x. induction n as [|k l IHl r IHr h]; simpl; [by intros ? _ _ []%elem_of_nil|].
  intros x (Hal & Har & Hb & ->) (Hl & Hr & Hlt & Hgt)%sorted_app_cons Hx.
  rewrite elem_of_app, elem_of_cons in Hx. height_facts.
  destruct (bytes_lt x k) eqn:E1; [|destruct (bytes_lt k x) eqn:E2].
  - destruct (IHl x) as (l' & Hi & Hal' & Hsl' & Hp & Hh); [done..| |].
    { destruct Hx as [?|[->|Hy]]; [done| |].
      - by rewrite bytes_lt_irrefl in E1.
      - apply Hgt in Hy. apply bytes_lt_asym in Hy. congruence. }
    destruct (balance_spec k l' r) as (n' & Hbal & Ha' & Hk' & Hh' & Hh2); [done..|lia|].
    rewrite Hi. bind_simpl. rewrite Hbal. bind_simpl. eexists. split; [done|].
    repeat split; try done; try lia.
    + rewrite Hk'. apply sorted_app_cons. repeat split; try done.
      intros y Hy. apply Hlt. rewrite Hp. by right.
    + by rewrite Hk', Hp.
  - destruct (IHr x) as (r' & Hi & Har' & Hsr' & Hp & Hh); [done..| |].
    { destruct Hx as [Hy|[->|?]]; [| |done].
      - apply Hlt in Hy. unfold Blt in Hy. congruence.
      - by rewrite bytes_lt_irrefl in E2. }
    destruct (balance_spec k l r') as (n' & Hbal & Ha' & Hk' & Hh' & Hh2); [done..|lia|].
    rewrite Hi. bind_simpl. rewrite Hbal. bind_simpl. eexists. split; [done|].
    repeat split; try done; try lia.
    + rewrite Hk'. apply sorted_app_cons. repeat split; try done.
      intros y Hy. apply Hgt. rewrite Hp. by right.
    + rewrite Hk', Hp. solve_Permutation.
  - assert (x = k) as -> by (by apply bytes_lt_total).
    destruct l as [|lk ll lr lh].
    { eexists. split; [done|]. simpl in *. repeat split; try done; lia. }
    destruct r as [|rk rl rr rh].
    { eexists. split; [done|]. split_and!; [done..| |simpl in *; lia|simpl in *; lia].
      apply (Permutation_app_comm _ [k]). }
    set (l := Node lk ll lr lh) in *. set (r := Node rk rl rr rh) in *.
    destruct (minimum_spec r) as (m & rest & Hm & Hrk); [done|].
    destruct (IHr m) as (r' & Hi & Har' & Hsr' & Hp & Hh); [done..|rewrite Hrk; by left|].
    rewrite Hrk in Hr, Hp.
    assert (node_keys r' = rest) as Hr' by (by eapply search_tree_cons_perm).
    destruct (balance_spec m l r') as (n' & Hbal & Ha' & Hk' & Hh' & Hh2); [done..|lia|].
    rewrite Hm. bind_simpl. rewrite Hi. bind_simpl. rewrite Hbal. bind_simpl.
    eexists. split; [done|]. repeat split; try done; try lia.
    + rewrite Hk', Hr'. apply sorted_app_cons.
      apply StronglySorted_inv in Hr as [Hr1 Hr2]. rewrite Forall_forall in Hr2.
      repeat split; try done.
      intros y Hy. etrans; [by apply Hlt|]. apply Hgt. rewrite Hrk. by left.
    + rewrite Hk', Hr', Hrk. solve_Permutation.
Qed.

(** ** Height *)

Lemma avl_size n : avl n ->
  2 ^ (routing_membership_height n / 2) <= Z.of_nat (length (node_keys n)) + 1.
Proof.
  assert (forall a b, 0 <= a -> a - 1 <= b -> 2 ^ ((1 + a) / 2) <= 2 ^ (a / 2) + 2 ^ (b / 2)) as Hpow.
  { intros a b Ha Hb. destruct (decide (a = 0)) as [->|Hne].
    { change (2 ^ ((1 + 0) / 2)) with 1. change (2 ^ (0 / 2)) with 1.
      pose proof (Z.pow_nonneg 2 (b / 2)). lia. }
    replace (1 + a) with ((a - 1) + 1 * 2) by lia.
    rewrite Z.div_add, Z.pow_add_r by (try apply Z.div_pos; lia).
    assert (2 ^ ((a - 1) / 2) <= 2 ^ (b / 2)) by (apply Z.pow_le_mono_r; [lia|]; apply Z.div_le_mono; lia).
    assert (2 ^ ((a - 1) / 2) <= 2 ^ (a / 2)) by (apply Z.pow_le_mono_r; [lia|]; apply Z.div_le_mono; lia).
    lia. }
  induction n as [|k l IHl r IHr h]; simpl; [done|]. intros (Hl & Hr & Hb & ->).
  specialize (IHl Hl). specialize (IHr Hr). height_facts. rewrite length_app. simpl.
  destruct (Z.max_spec (routing_membership_height l) (routing_membership_height r)) as [[? ->]|[? ->]].
  - pose proof (Hpow (routing_membership_height r) (routing_membership_height l)). lia.
  - pose proof (Hpow (routing_membership_height l) (routing_membership_height r)). lia.
Qed.

(** ** The set *)

Lemma search_tree_NoDup n : search_tree n -> NoDup (node_keys n).
Proof.
  unfold search_tree. induction 1 as [|x l Hl IH Hx]; constructor; [|done].
  intros Hin. rewrite Forall_forall in Hx. apply Hx in Hin. by apply (irreflexivity Blt) in Hin.
Qed.

Lemma empty_membership_wf : membership_wf empty_membership ∅.
Proof. split; simpl; try done; [constructor|set_solver]. Qed.

Lemma membership_contains_wf m ids x :
  membership_wf m ids -> membership_contains m x = bool_decide (x ∈ ids).
Proof.
  intros [_ Hs Hi _]. unfold membership_contains. apply eq_bool_prop_intro.
  rewrite !Is_true_true, bool_decide_eq_true, node_contains_keys, Hi by done. done.
Qed.

Lemma membership_insert_wf m ids x :
  membership_wf m ids -> x ∉ ids ->
  exists m', membership_insert m x = Ok m' /\ membership_wf m' ({[x]} ∪ ids).
Proof.
  intros [Ha Hs Hi Hl] Hx. rewrite <- Hi in Hx.
  destruct (insert_absent _ _ Ha Hs Hx) as (n' & He & Ha' & Hs' & Hp & _).
  unfold membership_insert. rewrite He. bind_simpl. eexists. split; [done|].
  split; simpl; try done.
  - intros y. rewrite Hp, elem_of_cons, Hi. set_solver.
  - rewrite Hp, Hl. simpl. lia.
Qed.

Lemma membership_remove_wf m ids x :
  membership_wf m ids -> x ∈ ids ->
  exists m', membership_remove m x = Ok m' /\ membership_wf m' (ids ∖ {[x]}).
Proof.
  intros [Ha Hs Hi Hl] Hx. rewrite <- Hi in Hx.
  destruct (remove_present _ _ Ha Hs Hx) as (n' & He & Ha' & Hs' & Hp & _).
  unfold membership_remove. rewrite He. bind_simpl. eexists. split; [done|].
  apply search_tree_NoDup in Hs. rewrite Hp in Hs. apply NoDup_cons in Hs as [Hni _].
  split; simpl; try done.
  - intros y. pose proof (Hi y) as Hy. rewrite Hp, elem_of_cons in Hy.
    rewrite elem_of_difference, elem_of_singleton. rewrite <- Hy. split; [|naive_solver].
    intros Hin. split; [by right|]. by intros ->.
  - rewrite Hl, Hp. simpl. lia.
Qed.

Lemma membership_insert_present m ids x :
  membership_wf m ids -> x ∈ ids ->
  membership_insert m x =
    Raise (RuntimeError "Prefix-cache routing membership already contains inserted block.").
Proof.
  intros [_ Hs Hi _] Hx. unfold membership_insert.
  rewrite insert_present by (done || by rewrite Hi). done.
Qed.

Lemma membership_remove_missing m ids x :
  membership_wf m ids -> x ∉ ids ->
  membership_remove m x =
    Raise (RuntimeError "Prefix-cache routing membership is missing removed block.").
Proof.
  intros [_ Hs Hi _] Hx. unfold membership_remove.
  rewrite remove_absent by (done || by rewrite Hi). done.
Qed.

Lemma membership_live_size m ids : membership_wf m ids -> live_blocks m = Z.of_nat (size ids).
Proof.
  intros [_ Hs Hi Hl]. rewrite Hl. f_equal.
  apply search_tree_NoDup in Hs.
  rewrite <- (size_list_to_set (C := gset bytes)) by done.
  f_equal. set_solver.
Qed.

#[export] Hint Resolve empty_membership_wf : py.

(** ** The contract *)

Definition sample_membership : RoutingMembership :=
  mkMembership (Node [x02] (Node [x01] Leaf Leaf 1) (Node [x05] Leaf Leaf 1) 2) 3.

Lemma sample_membership_wf : membership_wf sample_membership {[ [x01]; [x02]; [x05] ]}.
Proof.
  split; simpl; try done.
  - unfold search_tree. simpl. repeat constructor.
  - intros x. set_solver.
Qed.

(** A routing membership is a set of block ids: [contains] decides
    membership; [insert] of a new id and [remove] of a held id return a
    balanced search tree for the updated set, and [insert] of a held id and
    [remove] of a missing one raise; [live_blocks] is the size of the set. *)
Theorem membership_refines_set m ids x :
  membership_wf m ids ->
  membership_contains m x = bool_decide (x ∈ ids) /\
  live_blocks m = Z.of_nat (size ids) /\
  match membership_insert m x with
  | Ok m' => x ∉ ids /\ membership_wf m' ({[x]} ∪ ids)
  | Raise e => x ∈ ids /\
      e = RuntimeError "Prefix-cache routing membership already contains inserted block."
  end /\
  match membership_remove m x with
  | Ok m' => x ∈ ids /\ membership_wf m' (ids ∖ {[x]})
  | Raise e => x ∉ ids /\
      e = RuntimeError "Prefix-cache routing membership is missing removed block."
  end.
Proof.
  intros Hwf. split_and!; [by apply membership_contains_wf|by apply membership_live_size| |].
  - destruct (decide (x ∈ ids)) as [Hx|Hx].
    + by rewrite (membership_insert_present m ids x).
    + by destruct (membership_insert_wf m ids x Hwf Hx) as (m' & -> & ?).
  - destruct (decide (x ∈ ids)) as [Hx|Hx].
    + by destruct (membership_remove_wf m ids x Hwf Hx) as (m' & -> & ?).
    + by rewrite (membership_remove_missing m ids x).
Qed.

Lemma membership_refines_set_witness :
  membership_wf sample_membership {[ [x01]; [x02]; [x05] ]} /\
  membership_contains sample_membership [x05] = true.
Proof.
  split; [exact sample_membership_wf|].
  rewrite (proj1 (membership_refines_set sample_membership _ [x05] sample_membership_wf)).
  vm_compute. reflexivity.
Defined.

(** The membership tree is balanced: its height [h] satisfies
    [2 ^ (h / 2) <= n + 1] for [n] held ids, so lookups, insertions and
    removals walk a path logarithmic in the number of live blocks. *)
Theorem membership_height_log m ids :
  membership_wf m ids ->
  2 ^ (membership_height m / 2) <= Z.of_nat (size ids) + 1.
Proof.
  intros Hwf. rewrite <- (membership_live_size m ids Hwf).
  destruct Hwf as [Ha _ _ ->]. by apply avl_size.
Qed.

Lemma membership_height_log_witness :
  2 ^ (membership_height sample_membership / 2) <= 4.
Proof. exact (membership_height_log sample_membership _ sample_membership_wf). Defined.
