(* ===== verification/RadixTree.v ===== *)
(** * The radix tree backend

    [engine/prefix_cache.py], [RadixTreeBackend]: a path-compressed tree whose
    edges carry runs of block ids.  Tree nodes are mutable objects that point
    at their parent and at their children, so the model keeps them in a heap
    of numbered nodes; node [0] is [self.root].  A node whose last reference
    the code deletes is dropped from the heap. *)

From stdpp Require Import base gmap list strings.
From Stdlib Require Import ZArith Lia.
From S2P Require Import Prelude PyDict PyBytes.

Record RadixTreeNode := mkNode {
  segment : list bytes;
  parent : option nat;
  children : PyDict bytes nat;
}.
#[export] Instance eta_node : Eta RadixTreeNode := fun r =>
  mkNode (segment r) (parent r) (children r).

Record RadixTreeBackend := mkBackend {
  heap : gmap nat RadixTreeNode;
  next_node : nat;
  locations : gmap bytes (nat * nat);
  leaf_ids : gset bytes;
}.
#[export] Instance eta_backend : Eta RadixTreeBackend := fun r =>
  mkBackend (heap r) (next_node r) (locations r) (leaf_ids r).

Record RadixLookupResult := mkLookup {
  hit_block_count : Z;
  last_block_id : option bytes;
}.

Abbreviation TreeAct := (Act PyExn RadixTreeBackend).

(** [RadixTreeBackend.__init__] *)
Definition empty_backend : RadixTreeBackend :=
  mkBackend {[ 0%nat := mkNode [] None ∅ ]} 1 ∅ ∅.

(** Following a reference. *)
Definition node_at (t : RadixTreeBackend) (n : nat) : exc RadixTreeNode :=
  match heap t !! n with
  | Some nd => Ok nd
  | None => Raise (AttributeError "dangling node")
  end.
Definition get_node (n : nat) : TreeAct RadixTreeNode := fun t => (node_at t n, t).
Definition set_node (n : nat) (nd : RadixTreeNode) (t : RadixTreeBackend) : RadixTreeBackend :=
  t <| heap ::= <[n := nd]> |>.
(** [RadixTreeNode(...)] *)
Definition new_node (nd : RadixTreeNode) : TreeAct nat := fun t =>
  (Ok (next_node t), t <| heap ::= <[next_node t := nd]> |> <| next_node ::= S |>).

(** [_index_segment]: [locations[block_id] = (node, index)] for each index. *)
Fixpoint index_from (n i : nat) (seg : list bytes) (locs : gmap bytes (nat * nat)) :
    gmap bytes (nat * nat) :=
  match seg with
  | [] => locs
  | b :: seg' => index_from n (S i) seg' (<[b := (n, i)]> locs)
  end.
Definition index_segment (n : nat) : TreeAct unit :=
  nd ← get_node n;
  modify (fun t => t <| locations ::= index_from n 0 (segment nd) |>).

(** [_unindex_segment] *)
Definition unindex_segment (seg : list bytes) (t : RadixTreeBackend) : RadixTreeBackend :=
  t <| locations ::= fun m => foldl (fun m b => delete b m) m seg |>.

(** [_discard_leaf] *)
Definition discard_leaf (n : nat) : TreeAct unit :=
  nd ← get_node n;
  match last (segment nd) with
  | Some b => modify (fun t => t <| leaf_ids ::= fun s => s ∖ {[b]} |>)
  | None => mret tt
  end.

(** [_add_leaf] *)
Definition add_leaf (n : nat) : TreeAct unit :=
  nd ← get_node n;
  match last (segment nd), items (children nd) with
  | Some b, [] => modify (fun t => t <| leaf_ids ::= fun s => {[b]} ∪ s |>)
  | _, _ => mret tt
  end.

(** [for child in ...: child.parent = p] *)
Definition reparent (p : nat) (l : list nat) (h : gmap nat RadixTreeNode) : gmap nat RadixTreeNode :=
  foldr (fun c h => alter (fun nd => nd <| parent := Some p |>) c h) h l.

(** [_split_after] *)
Definition split_after (node index : nat) : TreeAct nat :=
  nd ← get_node node;
  let prefix := take (S index) (segment nd) in
  match drop (S index) (segment nd) with
  | [] => mret node
  | (s0 :: _) as suffix =>
      modify (unindex_segment (segment nd)) ;;
      suffix_node ← new_node (mkNode suffix (Some node) (children nd));
      modify (fun t => t <| heap ::= reparent suffix_node (values (children nd)) |>) ;;
      modify (set_node node (mkNode prefix (parent nd) (<[s0 := suffix_node]> ∅))) ;;
      index_segment node ;;
      index_segment suffix_node ;;
      mret node
  end.

(** [parent.children[k] = child] *)
Definition add_child (p : nat) (k : bytes) (c : nat) (t : RadixTreeBackend) : RadixTreeBackend :=
  t <| heap ::= alter (fun nd => nd <| children ::= <[k := c]> |>) p |>.

(** The end of [insert_child]: a fresh one-block node below [p]. *)
Definition attach_block (p : nat) (block_id : bytes) : TreeAct unit :=
  child ← new_node (mkNode [block_id] (Some p) ∅);
  modify (add_child p block_id child) ;;
  index_segment child ;;
  add_leaf child.

Definition insert_child (parent_block_id : option bytes) (block_id : bytes) : TreeAct unit :=
  present ← read (fun t => bool_decide (is_Some (locations t !! block_id)));
  if (present : bool) then mret tt
  else
    match parent_block_id with
    | None =>
        root ← get_node 0;
        guard_not (has_key block_id (children root))
          (RuntimeError "Radix tree root child exists without a block location.") ;;
        attach_block 0 block_id
    | Some p =>
        location ← read (fun t => locations t !! p);
        match (location : option (nat * nat)) with
        | None => throw (KeyError "Prefix cache parent block id is not present in radix tree.")
        | Some (node, index) =>
            parent_node ← split_after node index;
            nd ← get_node parent_node;
            when (bool_decide (items (children nd) = [])) (discard_leaf parent_node) ;;
            guard_not (has_key block_id (children nd))
              (RuntimeError "Radix tree child exists without a block location.") ;;
            attach_block parent_node block_id
        end
    end.

(** One edge of [lookup]: [true] when the whole segment was matched. *)
Fixpoint match_segment (seg rem : list bytes) (hits : nat) (last_id : option bytes) :
    bool * (list bytes * nat * option bytes) :=
  match seg with
  | [] => (true, (rem, hits, last_id))
  | s :: seg' =>
      match rem with
      | [] => (false, (rem, hits, last_id))
      | r :: rem' =>
          if bool_decide (r = s) then match_segment seg' rem' (S hits) (Some s)
          else (false, (rem, hits, last_id))
      end
  end.

(** The [while] loop of [lookup]; every round but the last consumes an id. *)
Fixpoint lookup_loop (fuel : nat) (t : RadixTreeBackend) (node : nat) (rem : list bytes)
    (hits : nat) (last_id : option bytes) : exc (nat * option bytes) :=
  match fuel with
  | O => Raise LoopFuel
  | S fuel' =>
      match rem with
      | [] => Ok (hits, last_id)
      | r :: _ =>
          nd ← node_at t node;
          match children nd !! r with
          | None => Ok (hits, last_id)
          | Some child =>
              cd ← node_at t child;
              match match_segment (segment cd) rem hits last_id with
              | (true, (rem', hits', last')) => lookup_loop fuel' t child rem' hits' last'
              | (false, (_, hits', last')) => Ok (hits', last')
              end
          end
      end
  end.

Definition lookup_blocks (t : RadixTreeBackend) (block_ids : list bytes) (max_blocks : Z) :
    exc RadixLookupResult :=
  let limit := Z.min max_blocks (Z.of_nat (length block_ids)) in
  let rem := take (Z.to_nat limit) block_ids in
  '(hits, last_id) ← lookup_loop (S (length rem)) t 0 rem 0 None;
  Ok (mkLookup (Z.of_nat hits) last_id).

Definition remove_block (block_id : bytes) : TreeAct unit :=
  location ← read (fun t => locations t !! block_id);
  match (location : option (nat * nat)) with
  | None => throw (KeyError "Prefix cache block id is not present in radix tree.")
  | Some (node, index) =>
      nd ← get_node node;
      guard_not (negb (bool_decide (S index = length (segment nd)))
                 || negb (bool_decide (items (children nd) = [])))
        (RuntimeError "Cannot remove a prefix cache tree block with live children.") ;;
      match parent nd with
      | None => throw (RuntimeError "Cannot remove radix tree root.")
      | Some p =>
          modify (fun t => t <| locations ::= delete block_id |>
                             <| leaf_ids ::= fun s => s ∖ {[block_id]} |>) ;;
          if bool_decide (length (segment nd) = 1%nat) then
            modify (fun t => t <| heap ::= fun h =>
              delete node (alter (fun pd => pd <| children ::= delete block_id |>) p h) |>) ;;
            add_leaf p
          else
            modify (fun t => t <| heap ::= <[node := nd <| segment ::= removelast (A:=bytes) |>]> |>) ;;
            add_leaf node
      end
  end.

(** [segment[0]] *)
Definition first_id (seg : list bytes) : exc bytes :=
  match seg with
  | [] => Raise (IndexError "tuple index out of range")
  | b :: _ => Ok b
  end.

(** The number of leading ids two lists share. *)
Fixpoint common_prefix (a b : list bytes) : nat :=
  match a, b with
  | x :: a', y :: b' => if bool_decide (x = y) then S (common_prefix a' b') else O
  | _, _ => O
  end.

(** The [while] loop of [insert]; every round but the last consumes an id. *)
Fixpoint insert_loop (fuel node : nat) (rem : list bytes) : TreeAct unit :=
  match fuel with
  | O => throw LoopFuel
  | S fuel' =>
      match rem with
      | [] => mret tt
      | r :: _ =>
          nd ← get_node node;
          match children nd !! r with
          | None =>
              when (bool_decide (items (children nd) = [])) (discard_leaf node) ;;
              child ← new_node (mkNode rem (Some node) ∅);
              modify (add_child node r child) ;;
              index_segment child ;;
              add_leaf child
          | Some child =>
              cd ← get_node child;
              let common := common_prefix rem (segment cd) in
              if bool_decide (common = length (segment cd)) then
                insert_loop fuel' child (drop common rem)
              else
                guard_not (bool_decide (common = 0%nat))
                  (RuntimeError "Radix tree child map is inconsistent with edge segment.") ;;
                modify (unindex_segment (segment cd)) ;;
                let prefix := take common (segment cd) in
                let suffix := drop common (segment cd) in
                split ← new_node (mkNode prefix (Some node) ∅);
                k ← lift (first_id prefix);
                modify (add_child node k split) ;;
                modify (set_node child (cd <| segment := suffix |> <| parent := Some split |>)) ;;
                k' ← lift (first_id suffix);
                modify (add_child split k' child) ;;
                match drop common rem with
                | [] => mret tt
                | (n0 :: _) as new_segment =>
                    new_child ← new_node (mkNode new_segment (Some split) ∅);
                    modify (add_child split n0 new_child) ;;
                    index_segment new_child ;;
                    add_leaf new_child
                end ;;
                index_segment split ;;
                index_segment child
          end
      end
  end.

Definition insert_path (block_ids : list bytes) : TreeAct unit :=
  insert_loop (S (length block_ids)) 0 block_ids.

(** The parents' segments above a node, nearest first. *)
Fixpoint ancestor_segments (fuel : nat) (t : RadixTreeBackend) (nd : RadixTreeNode) :
    exc (list (list bytes)) :=
  match fuel with
  | O => Raise LoopFuel
  | S fuel' =>
      match parent nd with
      | None => Ok []
      | Some p =>
          pd ← node_at t p;
          rest ← ancestor_segments fuel' t pd;
          Ok (if bool_decide (segment pd = []) then rest else segment pd :: rest)
      end
  end.

Definition path_to_block (t : RadixTreeBackend) (block_id : bytes) : exc (list bytes) :=
  match locations t !! block_id with
  | None => Raise (KeyError "Prefix cache block id is not present in radix tree.")
  | Some (node, index) =>
      nd ← node_at t node;
      segments ← ancestor_segments (S (size (heap t))) t nd;
      Ok (mjoin (reverse (take (S index) (segment nd) :: segments)))
  end.

(** The depth-first walk of [subtree_block_ids]; the head of [stack] is the
    end of the Python list. *)
Fixpoint subtree_loop (fuel : nat) (t : RadixTreeBackend) (stack : list nat) : exc (list bytes) :=
  match stack with
  | [] => Ok []
  | node :: stack' =>
      match fuel with
      | O => Raise LoopFuel
      | S fuel' =>
          nd ← node_at t node;
          rest ← subtree_loop fuel' t (reverse (values (children nd)) ++ stack');
          Ok (segment nd ++ rest)
      end
  end.

Definition subtree_block_ids (t : RadixTreeBackend) (root_block_id : bytes) : exc (list bytes) :=
  match locations t !! root_block_id with
  | None => Raise (KeyError "Prefix cache subtree root is not present.")
  | Some (root, index) =>
      nd ← node_at t root;
      rest ← subtree_loop (size (heap t)) t (reverse (values (children nd)));
      Ok (drop index (segment nd) ++ rest)
  end.

Definition child_count (t : RadixTreeBackend) (block_id : bytes) : exc Z :=
  match locations t !! block_id with
  | None => Raise (KeyError "Prefix cache block id is not present in radix tree.")
  | Some (node, index) =>
      nd ← node_at t node;
      if (index <? length (segment nd) - 1)%nat then Ok 1
      else Ok (Z.of_nat (len (children nd)))
  end.

(** The first block of each child edge. *)
Fixpoint child_heads (t : RadixTreeBackend) (l : list nat) : exc (list bytes) :=
  match l with
  | [] => Ok []
  | c :: l' =>
      cd ← node_at t c;
      b ← first_id (segment cd);
      rest ← child_heads t l';
      Ok (b :: rest)
  end.

Definition child_block_ids (t : RadixTreeBackend) (block_id : bytes) : exc (list bytes) :=
  match locations t !! block_id with
  | None => Raise (KeyError "Prefix cache block id is not present in radix tree.")
  | Some (node, index) =>
      nd ← node_at t node;
      match segment nd !! S index with
      | Some b => Ok [b]
      | None => child_heads t (values (children nd))
      end
  end.

(** The set [leaf_block_ids()] lists. *)
Definition leaf_block_ids (t : RadixTreeBackend) : gset bytes := leaf_ids t.

(** ** What the tree represents

    [block_parent t b] is [None] when [b] is not in the tree and [Some p] with
    [p] its parent block ([None] for a first block) when it is: the forest of
    blocks that the compressed tree stands for. *)

Definition block_parent (t : RadixTreeBackend) (b : bytes) : option (option bytes) :=
  match locations t !! b with
  | None => None
  | Some (n, i) =>
      nd ← heap t !! n;
      match i with
      | S j => Some (segment nd !! j)
      | O =>
          match parent nd with
          | None => Some None
          | Some p => pd ← heap t !! p; Some (last (segment pd))
          end
      end
  end.

Record tree_wf (t : RadixTreeBackend) : Prop := {
  wf_root : exists ch, heap t !! 0%nat = Some (mkNode [] None ch);
  wf_fresh n nd : heap t !! n = Some nd -> (n < next_node t)%nat;
  wf_seg n nd : heap t !! n = Some nd -> n <> 0%nat ->
    segment nd <> [] /\ is_Some (parent nd);
  wf_up c cd p : heap t !! c = Some cd -> parent cd = Some p ->
    exists pd b, heap t !! p = Some pd /\ head (segment cd) = Some b /\
                 children pd !! b = Some c;
  wf_down p pd b c : heap t !! p = Some pd -> children pd !! b = Some c ->
    exists cd, heap t !! c = Some cd /\ parent cd = Some p /\ head (segment cd) = Some b;
  wf_dict n nd : heap t !! n = Some nd -> dict_wf (children nd);
  wf_loc b n i : locations t !! b = Some (n, i) <->
    exists nd, heap t !! n = Some nd /\ segment nd !! i = Some b;
  wf_leaf b : b ∈ leaf_ids t <->
    exists n nd, heap t !! n = Some nd /\ last (segment nd) = Some b /\ items (children nd) = [];
  wf_rank : exists rank : nat -> nat,
    forall c cd p, heap t !! c = Some cd -> parent cd = Some p -> (rank p < rank c)%nat;
}.
