(* ===== verification/RadixTreeFacts.v ===== *)
(** * The radix tree backend: correctness

    Every operation of [RadixTree.v] keeps the tree well formed and acts on
    the forest of blocks ([block_parent]) the way its contract says. *)

From stdpp Require Import base gmap list strings.
From Stdlib Require Import ZArith Lia.
From S2P Require Import Prelude PyDict PyBytes RadixTree.

(** ** Consequences of well-formedness *)

Section wf.
Context (t : RadixTreeBackend) (Hwf : tree_wf t).

Lemma wf_nodup n nd : heap t !! n = Some nd -> NoDup (segment nd).
Proof.
  intros Hn. apply NoDup_alt. intros i j b Hi Hj.
  assert (locations t !! b = Some (n, i)) as H1 by (apply (wf_loc t Hwf); eauto).
  assert (locations t !! b = Some (n, j)) as H2 by (apply (wf_loc t Hwf); eauto).
  congruence.
Qed.

Lemma wf_disjoint n nd m md b i j :
  heap t !! n = Some nd -> heap t !! m = Some md ->
  segment nd !! i = Some b -> segment md !! j = Some b -> n = m /\ i = j.
Proof.
  intros Hn Hm Hi Hj.
  assert (locations t !! b = Some (n, i)) as H1 by (apply (wf_loc t Hwf); eauto).
  assert (locations t !! b = Some (m, j)) as H2 by (apply (wf_loc t Hwf); eauto).
  by simplify_eq.
Qed.

Lemma wf_segment_absent b n nd :
  locations t !! b = None -> heap t !! n = Some nd -> b ∉ segment nd.
Proof.
  intros Hb Hn [i Hi]%list_elem_of_lookup.
  assert (locations t !! b = Some (n, i)) by (apply (wf_loc t Hwf); eauto). congruence.
Qed.

Lemma wf_no_child b n nd :
  locations t !! b = None -> heap t !! n = Some nd -> children nd !! b = None.
Proof.
  intros Hb Hn. destruct (children nd !! b) as [c|] eqn:Hc; [|done].
  destruct (wf_down t Hwf _ _ _ _ Hn Hc) as (cd & Hcd & _ & Hh).
  exfalso. apply (wf_segment_absent b c cd Hb Hcd).
  destruct (segment cd); simplify_eq/=. by left.
Qed.

Lemma wf_parent_node c cd p :
  heap t !! c = Some cd -> parent cd = Some p -> is_Some (heap t !! p).
Proof. intros Hc Hp. destruct (wf_up t Hwf _ _ _ Hc Hp) as (pd & _ & ? & _). eauto. Qed.

Lemma wf_root_parent n nd : heap t !! n = Some nd -> parent nd = None <-> n = 0%nat.
Proof.
  intros Hn. destruct (wf_root t Hwf) as [ch Hr]. split.
  - intros Hp. destruct (decide (n = 0%nat)) as [|Hne]; [done|].
    destruct (wf_seg t Hwf _ _ Hn Hne) as [_ [p Hp']]. congruence.
  - intros ->. by simplify_eq.
Qed.

Lemma wf_not_self_parent n nd : heap t !! n = Some nd -> parent nd <> Some n.
Proof.
  intros Hn Hp. destruct (wf_rank t Hwf) as [rank Hr].
  specialize (Hr _ _ _ Hn Hp). lia.
Qed.

Lemma block_parent_None b : block_parent t b = None <-> locations t !! b = None.
Proof.
  unfold block_parent. destruct (locations t !! b) as [[n i]|] eqn:Hl; [|done].
  apply (wf_loc t Hwf) in Hl as (nd & Hn & Hi). rewrite Hn. simpl.
  split; [|done]. destruct i as [|j]; [|done].
  destruct (parent nd) as [p|] eqn:Hp; [|done].
  destruct (wf_parent_node _ _ _ Hn Hp) as [pd Hpd]. by rewrite Hpd.
Qed.

Lemma wf_no_items n nd b :
  heap t !! n = Some nd -> items (children nd) = [] -> children nd !! b = None.
Proof. intros _ Hi. by apply dict_items_nil. Qed.
End wf.

(** ** The maps the helpers build *)

Lemma index_from_ne n i seg m b : b ∉ seg -> index_from n i seg m !! b = m !! b.
Proof.
  revert i m. induction seg as [|x seg IH]; intros i m Hb; simpl; [done|].
  rewrite elem_of_cons in Hb. rewrite IH by tauto. rewrite lookup_insert_ne by naive_solver. done.
Qed.

Lemma index_from_eq n i seg m b j :
  NoDup seg -> seg !! j = Some b -> index_from n i seg m !! b = Some (n, (i + j)%nat).
Proof.
  revert i m j. induction seg as [|x seg IH]; intros i m j Hnd Hj; [done|].
  apply NoDup_cons in Hnd as [Hx Hnd]. destruct j as [|j]; simplify_eq/=.
  - rewrite index_from_ne by done. rewrite lookup_insert_eq. do 2 f_equal. lia.
  - rewrite (IH _ _ j) by done. do 2 f_equal. lia.
Qed.

Lemma index_from_Some n i seg m b v :
  NoDup seg -> index_from n i seg m !! b = Some v <->
  (exists j, seg !! j = Some b /\ v = (n, (i + j)%nat)) \/ (b ∉ seg /\ m !! b = Some v).
Proof.
  intros Hnd. destruct (decide (b ∈ seg)) as [Hb|Hb].
  - apply list_elem_of_lookup in Hb as [j Hj]. rewrite (index_from_eq _ _ _ _ _ j) by done.
    split; [intros; simplify_eq; left; eauto|].
    intros [(j' & Hj' & ->)|[Hn _]].
    + do 3 f_equal. by eapply NoDup_lookup.
    + exfalso. apply Hn. by eapply list_elem_of_lookup_2.
  - rewrite index_from_ne by done. split; [by auto|]. intros [(j & Hj & _)|[_ ?]]; [|done].
    exfalso. apply Hb. by eapply list_elem_of_lookup_2.
Qed.

Lemma unindex_lookup (seg : list bytes) (m : gmap bytes (nat * nat)) b :
  foldl (fun m b => delete b m) m seg !! b = if decide (b ∈ seg) then None else m !! b.
Proof.
  revert m. induction seg as [|x seg IH]; intros m; simpl; [done|].
  rewrite IH. destruct (decide (b = x)) as [->|].
  - rewrite (decide_True (P := x ∈ x :: seg)) by (by left). case_decide; [done|]. apply lookup_delete_eq.
  - rewrite lookup_delete_ne by done. repeat case_decide; set_solver.
Qed.

Lemma reparent_lookup p l h n :
  reparent p l h !! n =
    (if decide (n ∈ l) then (fun nd => nd <| parent := Some p |>) <$> h !! n else h !! n).
Proof.
  induction l as [|c l IH]; simpl; [done|].
  rewrite lookup_alter. destruct (decide (c = n)) as [->|].
  - rewrite (decide_True (P := n ∈ n :: l)) by (by left). rewrite IH.
    case_decide; [|done]. by destruct (h !! n).
  - rewrite IH. repeat case_decide; set_solver.
Qed.

Lemma dict_values_elem (d : PyDict bytes nat) c :
  dict_wf d -> c ∈ values d <-> exists b, d !! b = Some c.
Proof.
  intros Hwf. unfold values. rewrite list_elem_of_fmap. split.
  - intros ([b c'] & -> & Hin). exists b. by apply dict_elem_of_items.
  - intros [b Hb]. exists (b, c). split; [done|]. by apply dict_elem_of_items.
Qed.

Lemma last_take_lookup {A} (l : list A) i : (i < length l)%nat -> last (take (S i) l) = l !! i.
Proof.
  intros Hi. rewrite last_lookup, length_take, lookup_take_lt by lia. f_equal. lia.
Qed.

(** ** Attaching a new one-block node

    What [insert_child] leaves behind once the parent's leaf mark is gone. *)

Definition attached (t : RadixTreeBackend) (p : nat) (pd : RadixTreeNode) (b : bytes) :
    RadixTreeBackend :=
  let c := next_node t in
  mkBackend
    (<[c := mkNode [b] (Some p) ∅]> (<[p := pd <| children ::= <[b := c]> |>]> (heap t)))
    (S c) (<[b := (c, 0%nat)]> (locations t))
    ({[b]} ∪ (leaf_ids t ∖ match last (segment pd) with Some x => {[x]} | None => ∅ end)).

Lemma attach_block_run t p pd b :
  (p < next_node t)%nat -> heap t !! p = Some pd ->
  attach_block p b t =
    (Ok tt, mkBackend
      (<[next_node t := mkNode [b] (Some p) ∅]>
         (<[p := pd <| children ::= <[b := next_node t]> |>]> (heap t)))
      (S (next_node t)) (<[b := (next_node t, 0%nat)]> (locations t)) ({[b]} ∪ leaf_ids t)).
Proof.
  intros Hf Hp.
  unfold attach_block, new_node, index_segment, add_leaf, get_node, node_at, add_child, modify.
  cbv [mbind Act_bind]. cbn -[insert lookup alter union].
  match goal with |- context [alter ?f p ?m] =>
    assert (alter f p m = <[next_node t := mkNode [b] (Some p) ∅]>
              (<[p := pd <| children ::= <[b := next_node t]> |>]> (heap t))) as -> end.
  { apply map_eq. intros n. rewrite lookup_alter, !lookup_insert.
    repeat case_decide; simplify_eq; try lia; try done; by rewrite ?Hp. }
  rewrite !lookup_insert_eq. cbn -[insert lookup alter union].
  rewrite !lookup_insert_eq. cbn -[insert lookup alter union]. done.
Qed.

Section attached.
Context (t : RadixTreeBackend) (p : nat) (pd : RadixTreeNode) (b : bytes).
Context (Hwf : tree_wf t) (Hp : heap t !! p = Some pd) (Hb : locations t !! b = None).
#[local] Notation t' := (attached t p pd b).

Lemma attached_fresh : heap t !! next_node t = None.
Proof.
  destruct (heap t !! next_node t) eqn:E; [|done]. apply (wf_fresh t Hwf) in E. lia.
Qed.

Lemma attached_lookup n nd :
  heap t' !! n = Some nd <->
    (n = next_node t /\ nd = mkNode [b] (Some p) ∅) \/
    (n = p /\ nd = pd <| children ::= <[b := next_node t]> |>) \/
    (n <> p /\ n <> next_node t /\ heap t !! n = Some nd).
Proof.
  pose proof (wf_fresh t Hwf _ _ Hp) as Hf. simpl.
  rewrite !lookup_insert. repeat case_decide; subst; naive_solver lia.
Qed.

(** A node of the old tree is still there, the parent with one more child. *)
Lemma attached_old n nd :
  heap t !! n = Some nd ->
  heap t' !! n = Some (if decide (n = p) then nd <| children ::= <[b := next_node t]> |> else nd).
Proof.
  intros Hn. apply attached_lookup. pose proof attached_fresh.
  case_decide; subst; simplify_eq; [by auto|]. right; right. repeat split; [done| |done]. congruence.
Qed.

Lemma attached_wf_up c cd q : heap t' !! c = Some cd -> parent cd = Some q ->
  exists qd x, heap t' !! q = Some qd /\ head (segment cd) = Some x /\ children qd !! x = Some c.
Proof.
  intros [(-> & ->)|[(-> & ->)|(Hc1 & Hc2 & H)]]%attached_lookup; simpl; intros Hq.
  - injection Hq as <-. eexists _, b. split; [apply attached_lookup; by auto|]. split; [done|]. apply dict_lookup_insert_eq.
  - destruct (wf_up t Hwf _ _ _ Hp Hq) as (qd & x & Hqd & Hhd & Hch).
    assert (q <> p) by (intros ->; by apply (wf_not_self_parent t Hwf p pd)).
    exists qd, x. split; [|done]. apply attached_old in Hqd. by rewrite decide_False in Hqd.
  - destruct (wf_up t Hwf _ _ _ H Hq) as (qd & x & Hqd & Hhd & Hch).
    eexists _, x. split; [by apply attached_old|]. split; [done|].
    case_decide; [|done]. simpl. rewrite dict_lookup_insert_ne; [done|]. intros ->.
    by rewrite (wf_no_child t Hwf _ _ _ Hb Hqd) in Hch.
Qed.

Lemma attached_wf_down q qd x c : heap t' !! q = Some qd -> children qd !! x = Some c ->
  exists cd, heap t' !! c = Some cd /\ parent cd = Some q /\ head (segment cd) = Some x.
Proof.
  assert (forall q qd x c, heap t !! q = Some qd -> children qd !! x = Some c ->
    exists cd, heap t' !! c = Some cd /\ parent cd = Some q /\ head (segment cd) = Some x) as Hold.
  { intros q' qd' x' c' Hq Hc. destruct (wf_down t Hwf _ _ _ _ Hq Hc) as (cd & Hcd & Hpc & Hhd).
    eexists. split; [by apply attached_old|]. by case_decide. }
  intros [(-> & ->)|[(-> & ->)|(_ & _ & H)]]%attached_lookup; simpl; intros Hc; [done| |by eauto].
  rewrite dict_lookup_insert in Hc. case_decide as Hx; [|by eauto].
  injection Hc as <-. eexists. split; [apply attached_lookup; by auto|]. simpl. by rewrite Hx.
Qed.

Lemma attached_wf_loc x n i : locations t' !! x = Some (n, i) <->
  exists nd, heap t' !! n = Some nd /\ segment nd !! i = Some x.
Proof.
  cbn [locations attached]. destruct (decide (b = x)) as [<-|Hne].
  - rewrite lookup_insert_eq. split.
    + intros [= <- <-]. eexists. split; [apply attached_lookup; by auto|]. done.
    + intros (nd & [(-> & ->)|[(-> & ->)|(_ & _ & H)]]%attached_lookup & Hi).
      * destruct i; [done|]. by destruct i.
      * exfalso. eapply (wf_segment_absent t Hwf b p pd); [done..|]. by eapply list_elem_of_lookup_2.
      * exfalso. eapply (wf_segment_absent t Hwf b n nd); [done..|]. by eapply list_elem_of_lookup_2.
  - rewrite lookup_insert_ne by done. rewrite (wf_loc t Hwf). split.
    + intros (nd & Hn & Hi). eexists. split; [by apply attached_old|]. by case_decide.
    + intros (nd & [(-> & ->)|[(-> & ->)|(_ & _ & H)]]%attached_lookup & Hi); [|by eauto..].
      destruct i; [|by destruct i]. simplify_eq/=.
Qed.

Lemma attached_wf_leaf x : x ∈ leaf_ids t' <->
  exists n nd, heap t' !! n = Some nd /\ last (segment nd) = Some x /\ items (children nd) = [].
Proof.
  cbn [leaf_ids attached].
  rewrite elem_of_union, elem_of_singleton, elem_of_difference, (wf_leaf t Hwf). split.
  - intros [->|[(n & nd & Hn & Hl & Hi) Hx]].
    + eexists _, _. split; [apply attached_lookup; by left|]. done.
    + assert (n <> p). { intros ->. rewrite Hn in Hp. injection Hp as <-. rewrite Hl in Hx. set_solver. }
      exists n, nd. split; [|done]. apply attached_old in Hn. by rewrite decide_False in Hn.
  - intros (n & nd & [(-> & ->)|[(-> & ->)|(Hn1 & Hn2 & H)]]%attached_lookup & Hl & Hi).
    + simplify_eq/=. by left.
    + exfalso. simpl in Hi. destruct (items (children pd)) as [|[]]; simpl in Hi; [done|].
      by case_decide.
    + right. split; [eauto 6|]. destruct (last (segment pd)) as [y|] eqn:Hy; [|set_solver].
      rewrite elem_of_singleton. intros ->. rewrite last_lookup in Hl, Hy.
      by destruct (wf_disjoint t Hwf _ _ _ _ _ _ _ H Hp Hl Hy).
Qed.

Lemma attached_wf_rank : exists rank : nat -> nat,
  forall c cd q, heap t' !! c = Some cd -> parent cd = Some q -> (rank q < rank c)%nat.
Proof.
  pose proof (wf_fresh t Hwf _ _ Hp). pose proof attached_fresh.
  destruct (wf_rank t Hwf) as [rank Hr].
  exists (fun n => if decide (n = next_node t) then S (rank p) else rank n).
  intros c cd q [(-> & ->)|[(-> & ->)|(Hn1 & Hn2 & H')]]%attached_lookup; simpl; intros Hq.
  - injection Hq as <-. repeat case_decide; simplify_eq; lia.
  - destruct (wf_parent_node t Hwf _ _ _ Hp Hq) as [qd Hqd].
    repeat case_decide; simplify_eq. by eapply Hr.
  - destruct (wf_parent_node t Hwf _ _ _ H' Hq) as [qd Hqd].
    repeat case_decide; simplify_eq. by eapply Hr.
Qed.

Lemma attached_wf : tree_wf t'.
Proof.
  split; [..|exact attached_wf_rank].
  - destruct (wf_root t Hwf) as [ch Hr]. apply attached_old in Hr. case_decide; eauto.
  - intros n nd [(-> & _)|[(-> & _)|(_ & _ & H)]]%attached_lookup; simpl; [lia|..].
    + apply (wf_fresh t Hwf) in Hp. lia.
    + apply (wf_fresh t Hwf) in H. lia.
  - intros n nd [(-> & ->)|[(-> & ->)|(_ & _ & H)]]%attached_lookup; simpl; intros Hne; [done| |].
    + by apply (wf_seg t Hwf p).
    + by apply (wf_seg t Hwf n).
  - exact attached_wf_up.
  - exact attached_wf_down.
  - intros n nd [(-> & ->)|[(-> & ->)|(_ & _ & H)]]%attached_lookup; simpl.
    + apply dict_wf_empty.
    + apply dict_wf_insert. by eapply (wf_dict t Hwf).
    + by eapply (wf_dict t Hwf).
  - exact attached_wf_loc.
  - exact attached_wf_leaf.
Qed.

(** The forest gains exactly the block [b], below the last block of [p]. *)
Lemma attached_block_parent x :
  block_parent t' x = if decide (x = b) then Some (last (segment pd)) else block_parent t x.
Proof.
  unfold block_parent at 1. cbn [locations attached]. case_decide as Hx.
  - subst x. rewrite lookup_insert_eq.
    rewrite (proj2 (attached_lookup _ (mkNode [b] (Some p) ∅))) by auto.
    cbn [mbind option_bind parent segment].
    rewrite (proj2 (attached_lookup p (pd <| children ::= <[b := next_node t]> |>))) by auto. done.
  - rewrite lookup_insert_ne by done. unfold block_parent.
    destruct (locations t !! x) as [[n i]|] eqn:Hl; [|done].
    apply (wf_loc t Hwf) in Hl as (nd & Hn & Hi). rewrite Hn, (attached_old _ _ Hn).
    cbn [mbind option_bind]. destruct i as [|i]; [|by case_decide].
    assert (parent (if decide (n = p) then nd <| children ::= <[b:=next_node t]> |> else nd) = parent nd)
      as -> by (by case_decide).
    destruct (parent nd) as [q|] eqn:Hq; [|done].
    destruct (wf_parent_node t Hwf _ _ _ Hn Hq) as [qd Hqd].
    rewrite Hqd, (attached_old _ _ Hqd). cbn [mbind option_bind]. by case_decide.
Qed.
End attached.

(** ** Splitting an edge *)

Definition split_tree (t : RadixTreeBackend) (n : nat) (nd : RadixTreeNode) (i : nat) (s0 : bytes) :
    RadixTreeBackend :=
  let s := next_node t in
  let prefix := take (S i) (segment nd) in
  let suffix := drop (S i) (segment nd) in
  mkBackend
    (<[n := mkNode prefix (parent nd) (<[s0 := s]> ∅)]>
       (reparent s (values (children nd)) (<[s := mkNode suffix (Some n) (children nd)]> (heap t))))
    (S s)
    (index_from s 0 suffix (index_from n 0 prefix
       (foldl (fun m b => delete b m) (locations t) (segment nd))))
    (leaf_ids t).

Section split.
Context (t : RadixTreeBackend) (n : nat) (nd : RadixTreeNode) (i : nat) (s0 : bytes) (rest : list bytes).
Context (Hwf : tree_wf t) (Hn : heap t !! n = Some nd) (Hs : drop (S i) (segment nd) = s0 :: rest).
#[local] Notation s := (next_node t).
#[local] Notation t' := (split_tree t n nd i s0).

Lemma split_child_parent m md :
  heap t !! m = Some md -> m ∈ values (children nd) <-> parent md = Some n.
Proof.
  intros Hm. rewrite dict_values_elem by (by eapply (wf_dict t Hwf)). split.
  - intros [x Hx]. destruct (wf_down t Hwf _ _ _ _ Hn Hx) as (cd & Hcd & ? & _). congruence.
  - intros Hp. destruct (wf_up t Hwf _ _ _ Hm Hp) as (pd & x & Hpd & _ & Hx).
    exists x. congruence.
Qed.

Lemma split_ne : n <> s.
Proof. pose proof (wf_fresh t Hwf _ _ Hn). lia. Qed.

Lemma split_lookup m md :
  heap t' !! m = Some md <->
    (m = n /\ md = mkNode (take (S i) (segment nd)) (parent nd) (<[s0 := s]> ∅)) \/
    (m = s /\ md = mkNode (s0 :: rest) (Some n) (children nd)) \/
    (m <> n /\ m <> s /\ exists md0, heap t !! m = Some md0 /\
       md = if decide (parent md0 = Some n) then md0 <| parent := Some s |> else md0).
Proof.
  pose proof split_ne as Hns. cbn [heap split_tree].
  rewrite lookup_insert. destruct (decide (n = m)) as [<-|Hm]; [naive_solver|].
  rewrite reparent_lookup, lookup_insert. destruct (decide (s = m)) as [<-|Hm'].
  - rewrite decide_False; [rewrite Hs; naive_solver|].
    rewrite dict_values_elem by (by eapply (wf_dict t Hwf)). intros [x Hx].
    destruct (wf_down t Hwf _ _ _ _ Hn Hx) as (cd & Hcd & _). apply (wf_fresh t Hwf) in Hcd. lia.
  - destruct (heap t !! m) as [md0|] eqn:Hmd.
    + destruct (decide (m ∈ values (children nd))) as [Hv|Hv];
        rewrite (split_child_parent _ _ Hmd) in Hv.
      * simpl. split; [intros [= <-]|intros [[? _]|[[? _]|(_ & _ & md1 & [= <-] & ->)]]]; try congruence.
        -- right; right. split_and!; [done..|]. exists md0. by rewrite decide_True.
        -- by rewrite decide_True.
      * split; [intros [= <-]|intros [[? _]|[[? _]|(_ & _ & md1 & [= <-] & ->)]]]; try congruence.
        -- right; right. split_and!; [done..|]. exists md0. by rewrite decide_False.
        -- by rewrite decide_False.
    + split; [by case_decide|]. intros [[? _]|[[? _]|(_ & _ & md1 & ? & _)]]; congruence.
Qed.

(** The heap at an old node other than the split one. *)
Lemma split_old m md :
  heap t !! m = Some md -> m <> n ->
  heap t' !! m = Some (if decide (parent md = Some n) then md <| parent := Some s |> else md).
Proof.
  intros Hm Hne. apply split_lookup. right; right. split_and!; [done| |eauto].
  apply (wf_fresh t Hwf) in Hm. lia.
Qed.
Lemma split_at_n : heap t' !! n = Some (mkNode (take (S i) (segment nd)) (parent nd) (<[s0 := s]> ∅)).
Proof. apply split_lookup. by left. Qed.
Lemma split_at_s : heap t' !! s = Some (mkNode (s0 :: rest) (Some n) (children nd)).
Proof. apply split_lookup. right; left. done. Qed.

Lemma split_segment : segment nd = take (S i) (segment nd) ++ s0 :: rest.
Proof. by rewrite <- Hs, take_drop. Qed.
Lemma split_take_length : length (take (S i) (segment nd)) = S i.
Proof.
  rewrite length_take. apply (f_equal length) in Hs. rewrite length_drop in Hs. simpl in Hs. lia.
Qed.
Lemma split_head : head (take (S i) (segment nd)) = head (segment nd).
Proof. by destruct (segment nd). Qed.
Lemma split_last : last (segment nd) = last (s0 :: rest).
Proof. rewrite split_segment at 1. by rewrite last_app_cons. Qed.
Lemma split_index x j : segment nd !! j = Some x <->
  take (S i) (segment nd) !! j = Some x \/
  exists k, j = (S i + k)%nat /\ (s0 :: rest) !! k = Some x.
Proof.
  rewrite split_segment at 1. rewrite lookup_app_Some, split_take_length. split.
  - intros [?|[Hj Hx]]; [by left|]. right. exists (j - S i)%nat. split; [lia|done].
  - intros [?|(k & -> & Hx)]; [by left|]. right. split; [lia|].
    replace (S i + k - S i)%nat with k by lia. done.
Qed.

Lemma split_wf_up c cd q : heap t' !! c = Some cd -> parent cd = Some q ->
  exists qd x, heap t' !! q = Some qd /\ head (segment cd) = Some x /\ children qd !! x = Some c.
Proof.
  intros [(-> & ->)|[(-> & ->)|(Hc1 & Hc2 & cd0 & Hc & ->)]]%split_lookup; simpl; intros Hq.
  - destruct (wf_up t Hwf _ _ _ Hn Hq) as (qd & x & Hqd & Hhd & Hch).
    assert (q <> n) by (intros ->; by apply (wf_not_self_parent t Hwf n nd)).
    eexists _, x. split; [by apply split_old|]. split; [by rewrite split_head|]. by case_decide.
  - injection Hq as <-. eexists _, s0. split; [apply split_at_n|]. split; [done|].
    apply dict_lookup_insert_eq.
  - destruct (decide (parent cd0 = Some n)) as [Hp|Hp]; simpl in *.
    + injection Hq as <-. destruct (wf_up t Hwf _ _ _ Hc Hp) as (qd & x & Hqd & Hhd & Hch).
      eexists _, x. split; [apply split_at_s|]. split; [done|]. simpl. congruence.
    + destruct (wf_up t Hwf _ _ _ Hc Hq) as (qd & x & Hqd & Hhd & Hch).
      eexists _, x. split; [apply split_old; [done|congruence]|]. split; [done|]. by case_decide.
Qed.

Lemma split_wf_down q qd x c : heap t' !! q = Some qd -> children qd !! x = Some c ->
  exists cd, heap t' !! c = Some cd /\ parent cd = Some q /\ head (segment cd) = Some x.
Proof.
  intros [(-> & ->)|[(-> & ->)|(Hc1 & Hc2 & qd0 & Hc & ->)]]%split_lookup Hx.
  - simpl in Hx. rewrite dict_lookup_insert in Hx. case_decide as He; [|done].
    injection Hx as <-. eexists. split; [apply split_at_s|]. simpl. by rewrite He.
  - simpl in Hx. destruct (wf_down t Hwf _ _ _ _ Hn Hx) as (cd & Hcd & Hpc & Hhd).
    assert (c <> n) by (intros ->; apply (wf_not_self_parent t Hwf n nd); congruence).
    eexists. split; [by apply split_old|]. by rewrite decide_True.
  - assert (children qd0 !! x = Some c) as Hx' by (by case_decide).
    destruct (wf_down t Hwf _ _ _ _ Hc Hx') as (cd & Hcd & Hpc & Hhd).
    destruct (decide (c = n)) as [->|Hne].
    + eexists. split; [apply split_at_n|]. simpl. rewrite split_head. split; congruence.
    + eexists. split; [by apply split_old|]. rewrite decide_False by congruence. done.
Qed.

Lemma split_locations x m j : locations t' !! x = Some (m, j) <->
  (m = s /\ (s0 :: rest) !! j = Some x) \/ (m = n /\ take (S i) (segment nd) !! j = Some x) \/
  (x ∉ segment nd /\ locations t !! x = Some (m, j)).
Proof.
  pose proof (wf_nodup t Hwf _ _ Hn) as Hnd. rewrite split_segment in Hnd.
  apply NoDup_app in Hnd as (Hn1 & Hdis & Hn2). cbn [locations split_tree].
  rewrite Hs, index_from_Some, index_from_Some, unindex_lookup by done.
  assert (x ∈ segment nd <-> x ∈ take (S i) (segment nd) \/ x ∈ s0 :: rest) as Hseg.
  { rewrite split_segment at 1. by rewrite elem_of_app. }
  split.
  - intros [(k & Hk & [= -> ->])|[Hx1 [(k & Hk & [= -> ->])|[Hx2 H]]]]; [by auto..|].
    right; right. case_decide; [done|]. by split.
  - intros [[-> Hx]|[[-> Hx]|[Hx H]]].
    + left. eauto.
    + right. split; [|left; by eauto]. apply Hdis. by eapply list_elem_of_lookup_2.
    + right. split; [tauto|]. right. split; [tauto|]. by rewrite decide_False.
Qed.

Lemma split_wf_loc x m j : locations t' !! x = Some (m, j) <->
  exists md, heap t' !! m = Some md /\ segment md !! j = Some x.
Proof.
  rewrite split_locations. split.
  - intros [[-> Hx]|[[-> Hx]|[Hx H]]].
    + eexists. split; [apply split_at_s|done].
    + eexists. split; [apply split_at_n|done].
    + apply (wf_loc t Hwf) in H as (md & Hm & Hj). eexists. split; [apply split_old; [done|]|].
      * intros ->. apply Hx. replace nd with md by congruence. by eapply list_elem_of_lookup_2.
      * by case_decide.
  - intros (md & [(-> & ->)|[(-> & ->)|(Hm1 & Hm2 & md0 & Hm & ->)]]%split_lookup & Hj); [by auto..|].
    assert (segment md0 !! j = Some x) as Hj' by (by case_decide).
    right; right. split; [|apply (wf_loc t Hwf); by eauto].
    intros [k Hk]%list_elem_of_lookup. by destruct (wf_disjoint t Hwf _ _ _ _ _ _ _ Hm Hn Hj' Hk).
Qed.

Lemma split_wf_leaf x : x ∈ leaf_ids t' <->
  exists m md, heap t' !! m = Some md /\ last (segment md) = Some x /\ items (children md) = [].
Proof.
  cbn [leaf_ids split_tree]. rewrite (wf_leaf t Hwf). split.
  - intros (m & md & Hm & Hl & Hi). destruct (decide (m = n)) as [->|Hne].
    + eexists s, _. split; [apply split_at_s|]. simpl. rewrite <- split_last. by simplify_eq.
    + eexists m, _. split; [by apply split_old|]. by case_decide.
  - intros (m & md & [(-> & ->)|[(-> & ->)|(Hm1 & Hm2 & md0 & Hm & ->)]]%split_lookup & Hl & Hi).
    + done.
    + exists n, nd. by rewrite split_last.
    + exists m, md0. by case_decide.
Qed.

Lemma split_wf_rank : exists rank : nat -> nat,
  forall c cd q, heap t' !! c = Some cd -> parent cd = Some q -> (rank q < rank c)%nat.
Proof.
  pose proof split_ne. destruct (wf_rank t Hwf) as [rank Hr].
  exists (fun m => if decide (m = s) then S (2 * rank n) else 2 * rank m)%nat.
  assert (forall c cd q, heap t !! c = Some cd -> parent cd = Some q ->
    c <> s /\ q <> s /\ (rank q < rank c)%nat) as Hold.
  { intros c cd q Hc Hq. split_and!; [..|by eapply Hr].
    - apply (wf_fresh t Hwf) in Hc. lia.
    - destruct (wf_parent_node t Hwf _ _ _ Hc Hq) as [qd Hqd]. apply (wf_fresh t Hwf) in Hqd. lia. }
  intros c cd q [(-> & ->)|[(-> & ->)|(Hc1 & Hc2 & cd0 & Hc & ->)]]%split_lookup; simpl; intros Hq.
  - destruct (Hold _ _ _ Hn Hq) as (? & ? & ?). repeat case_decide; simplify_eq; lia.
  - injection Hq as <-. repeat case_decide; simplify_eq; lia.
  - destruct (decide (parent cd0 = Some n)) as [Hp|Hp].
    + injection Hq as <-. destruct (Hold _ _ _ Hc Hp) as (? & ? & ?).
      repeat case_decide; simplify_eq; lia.
    + destruct (Hold _ _ _ Hc Hq) as (? & ? & ?). repeat case_decide; simplify_eq; lia.
Qed.

Lemma split_wf : tree_wf t'.
Proof.
  split; [..|exact split_wf_rank].
  - destruct (wf_root t Hwf) as [ch Hr]. destruct (decide (n = 0%nat)) as [E|Hne].
    + exfalso. rewrite E, Hr in Hn. by injection Hn as <-.
    + rewrite (split_old _ _ Hr) by done. simpl. eauto.
  - intros m md [(-> & _)|[(-> & _)|(_ & _ & md0 & H & _)]]%split_lookup; simpl; [|lia|].
    + apply (wf_fresh t Hwf) in Hn. lia.
    + apply (wf_fresh t Hwf) in H. lia.
  - intros m md [(-> & ->)|[(-> & ->)|(_ & _ & md0 & H & ->)]]%split_lookup; simpl; intros Hne.
    + destruct (wf_seg t Hwf _ _ Hn Hne) as [_ ?]. split; [|done].
      intros E. pose proof split_take_length as Hl. by rewrite E in Hl.
    + by eauto.
    + destruct (wf_seg t Hwf _ _ H Hne). case_decide; simpl; eauto.
  - exact split_wf_up.
  - exact split_wf_down.
  - intros m md [(-> & ->)|[(-> & ->)|(_ & _ & md0 & H & ->)]]%split_lookup; simpl.
    + apply dict_wf_insert, dict_wf_empty.
    + by apply (wf_dict t Hwf n).
    + case_decide; by apply (wf_dict t Hwf _ _ H).
  - exact split_wf_loc.
  - exact split_wf_leaf.
Qed.

(** Splitting an edge does not change the forest. *)
Lemma split_block_parent x : block_parent t' x = block_parent t x.
Proof.
  unfold block_parent at 2. destruct (locations t !! x) as [[m j]|] eqn:Hl.
  2:{ apply (block_parent_None t' split_wf). destruct (locations t' !! x) as [[m j]|] eqn:Hl'; [|done].
      apply split_wf_loc in Hl' as (md & Hm & Hj). apply split_lookup in Hm.
      destruct Hm as [(-> & ->)|[(-> & ->)|(_ & _ & md0 & H & ->)]].
      - exfalso. eapply (wf_segment_absent t Hwf x n); [done..|]. rewrite split_segment.
        apply elem_of_app. left. by eapply list_elem_of_lookup_2.
      - exfalso. eapply (wf_segment_absent t Hwf x n); [done..|]. rewrite split_segment.
        apply elem_of_app. right. by eapply list_elem_of_lookup_2.
      - exfalso. eapply (wf_segment_absent t Hwf x m); [done..|]. eapply list_elem_of_lookup_2.
        by case_decide. }
  pose proof Hl as (md & Hm & Hj)%(wf_loc t Hwf). rewrite Hm. cbn [mbind option_bind].
  unfold block_parent. destruct (decide (m = n)) as [->|Hne].
  - assert (md = nd) as -> by congruence. apply split_index in Hj as [Hj|(k & -> & Hk)].
    + rewrite (proj2 (split_locations x n j)) by auto. rewrite split_at_n.
      cbn [mbind option_bind parent segment]. destruct j as [|j].
      * destruct (parent nd) as [q|] eqn:Hq; [|done].
        destruct (wf_parent_node t Hwf _ _ _ Hn Hq) as [qd Hqd].
        assert (q <> n) by (intros ->; by apply (wf_not_self_parent t Hwf n nd)).
        rewrite Hqd, (split_old _ _ Hqd) by done. simpl. by case_decide.
      * apply lookup_lt_Some in Hj. rewrite split_take_length in Hj.
        by rewrite lookup_take_lt by lia.
    + rewrite (proj2 (split_locations x s k)) by auto. rewrite split_at_s.
      cbn [mbind option_bind parent segment]. destruct k as [|k].
      * rewrite split_at_n. cbn [mbind option_bind segment]. rewrite Nat.add_0_r.
        f_equal. apply last_take_lookup. pose proof split_take_length as H.
        rewrite length_take in H. lia.
      * cbn [Nat.add]. f_equal. rewrite <- Hs, lookup_drop. f_equal. lia.
  - assert (x ∉ segment nd) as Hx.
    { intros [k Hk]%list_elem_of_lookup. by destruct (wf_disjoint t Hwf _ _ _ _ _ _ _ Hm Hn Hj Hk). }
    rewrite (proj2 (split_locations x m j)) by auto. rewrite (split_old _ _ Hm Hne).
    cbn [mbind option_bind]. destruct j as [|j]; [|by case_decide].
    destruct (decide (parent md = Some n)) as [Hp|Hp].
    + cbn [parent update_with]. rewrite split_at_s, Hp, Hn. cbn [mbind option_bind segment]. by rewrite split_last.
    + destruct (parent md) as [q|] eqn:Hq; [|done].
      destruct (wf_parent_node t Hwf _ _ _ Hm Hq) as [qd Hqd].
      rewrite Hqd, (split_old _ _ Hqd) by congruence. simpl. by case_decide.
Qed.
End split.

(** ** [insert_child] *)

Lemma get_node_run t n nd : heap t !! n = Some nd -> get_node n t = (Ok nd, t).
Proof. intros H. unfold get_node, node_at. by rewrite H. Qed.

Lemma discard_leaf_run t n nd :
  heap t !! n = Some nd ->
  discard_leaf n t = (Ok tt, t <| leaf_ids ::= fun s =>
    s ∖ match last (segment nd) with Some x => {[x]} | None => ∅ end |>).
Proof.
  intros H. unfold discard_leaf. cbv [mbind Act_bind]. rewrite (get_node_run _ _ _ H).
  destruct (last (segment nd)); [done|]. destruct t. simpl. f_equal. f_equal. set_solver.
Qed.

Lemma split_after_run_nil t n nd i :
  heap t !! n = Some nd -> drop (S i) (segment nd) = [] -> split_after n i t = (Ok n, t).
Proof.
  intros H Hd. unfold split_after. cbv [mbind Act_bind]. rewrite (get_node_run _ _ _ H).
  by rewrite Hd.
Qed.

Lemma split_after_run t n nd i s0 rest :
  tree_wf t -> heap t !! n = Some nd -> drop (S i) (segment nd) = s0 :: rest ->
  split_after n i t = (Ok n, split_tree t n nd i s0).
Proof.
  intros Hwf H Hd. pose proof (wf_fresh t Hwf _ _ H) as Hf.
  unfold split_after. cbv [mbind Act_bind]. rewrite (get_node_run _ _ _ H). rewrite Hd.
  cbn -[take drop reparent index_segment set_node].
  unfold index_segment, modify. cbv [mbind Act_bind].
  cbn -[take drop reparent get_node].
  erewrite get_node_run.
  2:{ cbn -[take drop reparent]. by rewrite lookup_insert_eq. }
  cbn -[take drop reparent get_node].
  erewrite get_node_run.
  2:{ cbn -[take drop reparent]. rewrite lookup_insert_ne by lia.
      rewrite reparent_lookup, lookup_insert_eq. rewrite decide_False; [done|].
      rewrite dict_values_elem by (by eapply (wf_dict t Hwf)). intros [x Hx].
      destruct (wf_down t Hwf _ _ _ _ H Hx) as (cd & Hcd & _). apply (wf_fresh t Hwf) in Hcd. lia. }
  cbn -[take drop reparent]. unfold split_tree. by rewrite Hd.
Qed.

(** Whatever [split_after] does, the node ends with the addressed block and
    the forest is the same. *)
Lemma split_after_spec t n nd i b :
  tree_wf t -> heap t !! n = Some nd -> segment nd !! i = Some b ->
  exists t' nd', split_after n i t = (Ok n, t') /\ tree_wf t' /\ heap t' !! n = Some nd' /\
    last (segment nd') = Some b /\ (forall x, block_parent t' x = block_parent t x).
Proof.
  intros Hwf Hn Hi. pose proof (lookup_lt_Some _ _ _ Hi) as Hlt.
  destruct (drop (S i) (segment nd)) as [|s0 rest] eqn:Hd.
  - exists t, nd. rewrite (split_after_run_nil _ _ _ _ Hn Hd). split_and!; try done.
    apply (f_equal length) in Hd. rewrite length_drop in Hd. simpl in Hd.
    rewrite last_lookup, <- Hi. f_equal. lia.
  - eexists _, _. rewrite (split_after_run _ _ _ _ _ _ Hwf Hn Hd).
    split_and!; [done|exact (split_wf t n nd i s0 rest Hwf Hn Hd)
      |exact (split_at_n t n nd i s0 rest Hwf Hn Hd)| |].
    + cbn [segment]. by rewrite last_take_lookup.
    + intros x. exact (split_block_parent t n nd i s0 rest Hwf Hn Hd x).
Qed.

Definition same_forest (t t' : RadixTreeBackend) : Prop := forall x, block_parent t x = block_parent t' x.

(** Discarding the parent's leaf mark and attaching is [attached]. *)
Lemma attach_after_discard t p pd b :
  tree_wf t -> heap t !! p = Some pd ->
  ('nd ← get_node p;
   when (bool_decide (items (children nd) = [])) (discard_leaf p) ;;
   attach_block p b) t = (Ok tt, attached t p pd b).
Proof.
  intros Hwf Hp. pose proof (wf_fresh t Hwf _ _ Hp) as Hf. cbv [mbind Act_bind when]. rewrite (get_node_run _ _ _ Hp). case_bool_decide as Hi.
  - rewrite (discard_leaf_run _ _ _ Hp).
    by rewrite (attach_block_run _ p pd) by done.
  - rewrite (attach_block_run _ p pd) by done. unfold attached. do 3 f_equal.
    apply set_eq. intros x. rewrite elem_of_difference. split; [|tauto]. intros Hx. split; [done|].
    destruct (last (segment pd)) as [y|] eqn:Hy; [|set_solver].
    rewrite elem_of_singleton. intros ->.
    apply (wf_leaf t Hwf) in Hx as (m & md & Hm & Hl & Hmi).
    rewrite last_lookup in Hl, Hy.
    destruct (wf_disjoint t Hwf _ _ _ _ _ _ _ Hm Hp Hl Hy) as [-> _]. congruence.
Qed.

Lemma block_parent_location t b p :
  tree_wf t -> block_parent t b = Some p -> exists n i nd,
    locations t !! b = Some (n, i) /\ heap t !! n = Some nd /\ segment nd !! i = Some b.
Proof.
  intros Hwf Hb. destruct (locations t !! b) as [[n i]|] eqn:Hl.
  - exists n, i. apply (wf_loc t Hwf) in Hl as Hl'. destruct Hl' as (nd & ? & ?). eauto.
  - apply (block_parent_None t Hwf) in Hl. congruence.
Qed.

(** What [insert_child] promises about the forest. *)
Lemma insert_child_new t p b :
  tree_wf t -> block_parent t b = None ->
  match p with Some q => is_Some (block_parent t q) | None => True end ->
  exists t', insert_child p b t = (Ok tt, t') /\ tree_wf t' /\
    forall x, block_parent t' x = if decide (x = b) then Some p else block_parent t x.
Proof.
  intros Hwf Hb Hp. pose proof Hb as Hlb%(block_parent_None t Hwf).
  unfold insert_child. cbv [mbind Act_bind read guard_not throw]. rewrite Hlb.
  rewrite bool_decide_eq_false_2 by (by intros []).
  destruct p as [q|].
  - destruct Hp as [pq Hq]. destruct (block_parent_location _ _ _ Hwf Hq) as (n & i & nd & Hl & Hn & Hi).
    rewrite Hl. destruct (split_after_spec t n nd i q Hwf Hn Hi) as (t1 & nd1 & Hrun & Hwf1 & Hn1 & Hlast & Hsame).
    rewrite Hrun.
    assert (locations t1 !! b = None) as Hb1 by (apply (block_parent_None t1 Hwf1); by rewrite Hsame).
    pose proof (attach_after_discard t1 n nd1 b Hwf1 Hn1) as Hatt.
    cbv [mbind Act_bind] in Hatt. rewrite (get_node_run _ _ _ Hn1) in Hatt |- *.
    destruct (when _ _ t1) as [[[]|e] t2]; [|done].
    rewrite (proj2 (dict_has_key_false _ _)) by (by eapply wf_no_child).
    rewrite Hatt. eexists. split; [done|]. split; [by apply attached_wf|].
    intros x. rewrite attached_block_parent by done. by rewrite Hlast, Hsame.
  - destruct (wf_root t Hwf) as [ch Hr].
    rewrite (get_node_run _ _ _ Hr).
    rewrite (proj2 (dict_has_key_false _ _)) by (by eapply wf_no_child).
    pose proof (attach_after_discard t 0 _ b Hwf Hr) as Hatt.
    cbv [mbind Act_bind when] in Hatt. rewrite (get_node_run _ _ _ Hr) in Hatt.
    rewrite (discard_leaf_run _ _ _ Hr) in Hatt. simpl in Hatt.
    assert (t <| leaf_ids ::= fun s => s ∖ ∅ |> = t) as Ht.
    { destruct t. simpl. f_equal. set_solver. }
    simpl in Ht. rewrite Ht in Hatt.
    assert (attach_block 0 b t = (Ok tt, attached t 0 (mkNode [] None ch) b)) as -> by (by case_bool_decide).
    eexists. split; [done|]. split; [by apply attached_wf|].
    intros x. by rewrite attached_block_parent.
Qed.

Lemma insert_child_present t p b :
  tree_wf t -> is_Some (block_parent t b) -> insert_child p b t = (Ok tt, t).
Proof.
  intros Hwf [q Hq]. destruct (block_parent_location _ _ _ Hwf Hq) as (n & i & nd & Hl & _).
  unfold insert_child. cbv [mbind Act_bind read]. rewrite Hl. by rewrite bool_decide_eq_true_2.
Qed.

Lemma insert_child_orphan t q b :
  tree_wf t -> block_parent t b = None -> block_parent t q = None ->
  insert_child (Some q) b t =
    (Raise (KeyError "Prefix cache parent block id is not present in radix tree."), t).
Proof.
  intros Hwf Hb%block_parent_None Hq%block_parent_None; try done.
  unfold insert_child. cbv [mbind Act_bind read throw]. rewrite Hb.
  rewrite bool_decide_eq_false_2 by (by intros []). by rewrite Hq.
Qed.

(** ** The children of a block *)

Lemma last_unique_index (l : list bytes) i b :
  NoDup l -> l !! i = Some b -> last l = Some b <-> S i = length l.
Proof.
  intros Hnd Hi. pose proof (lookup_lt_Some _ _ _ Hi). rewrite last_lookup. split.
  - intros Hl. pose proof (NoDup_lookup _ _ _ _ Hnd Hi Hl). lia.
  - intros <-. simpl. by rewrite Hi.
Qed.

(** [x] is a child of [b] when it follows [b] in a segment or heads an edge
    below the node whose segment ends with [b]. *)
Lemma block_child_cases t b x n i nd :
  tree_wf t -> heap t !! n = Some nd -> segment nd !! i = Some b ->
  block_parent t x = Some (Some b) <->
  segment nd !! S i = Some x \/
  (S i = length (segment nd) /\ is_Some (children nd !! x)).
Proof.
  intros Hwf Hn Hi. pose proof (wf_nodup t Hwf _ _ Hn) as Hnd. unfold block_parent. split.
  - destruct (locations t !! x) as [[m j]|] eqn:Hl; [|done].
    apply (wf_loc t Hwf) in Hl as (md & Hm & Hj). rewrite Hm. cbn [mbind option_bind].
    destruct j as [|j].
    + destruct (parent md) as [q|] eqn:Hq; [|done].
      destruct (wf_up t Hwf _ _ _ Hm Hq) as (qd & y & Hqd & Hy & Hc). rewrite Hqd.
      cbn [mbind option_bind]. intros [= Hlast]. right.
      pose proof Hlast as Hl'. rewrite last_lookup in Hl'.
      destruct (wf_disjoint t Hwf _ _ _ _ _ _ _ Hqd Hn Hl' Hi) as [-> <-].
      simplify_eq. split; [apply lookup_lt_Some in Hi; lia|].
      destruct (segment md); simplify_eq/=. eauto.
    + intros [= Hj']. destruct (wf_disjoint t Hwf _ _ _ _ _ _ _ Hm Hn Hj' Hi) as [-> ->].
      left. by simplify_eq.
  - intros [Hx|[Hlen [c Hc]]].
    + rewrite (proj2 (wf_loc t Hwf x n (S i))) by eauto. rewrite Hn. simpl. by rewrite Hi.
    + destruct (wf_down t Hwf _ _ _ _ Hn Hc) as (cd & Hcd & Hp & Hh).
      rewrite (proj2 (wf_loc t Hwf x c 0)).
      * rewrite Hcd. simpl. rewrite Hp, Hn. simpl. f_equal. by eapply last_unique_index.
      * exists cd. split; [done|]. by destruct (segment cd).
Qed.

(** Likewise for the blocks without a parent. *)
Lemma block_root_cases t x ch :
  tree_wf t -> heap t !! 0%nat = Some (mkNode [] None ch) ->
  block_parent t x = Some None <-> is_Some (ch !! x).
Proof.
  intros Hwf Hr. unfold block_parent. split.
  - destruct (locations t !! x) as [[m j]|] eqn:Hl; [|done].
    apply (wf_loc t Hwf) in Hl as (md & Hm & Hj). rewrite Hm. cbn [mbind option_bind].
    destruct j as [|j].
    + destruct (parent md) as [q|] eqn:Hq.
      * destruct (wf_up t Hwf _ _ _ Hm Hq) as (qd & y & Hqd & Hy & Hc). rewrite Hqd.
        cbn [mbind option_bind]. intros [= Hlast%last_None].
        destruct (decide (q = 0%nat)) as [->|Hne].
        -- simplify_eq. destruct (segment md); simplify_eq/=. eauto.
        -- by destruct (wf_seg t Hwf _ _ Hqd Hne).
      * intros _. apply (wf_root_parent t Hwf m md Hm) in Hq as ->. simplify_eq.
    + intros [= Hj'%lookup_ge_None]. apply lookup_lt_Some in Hj. lia.
  - intros [c Hc]. destruct (wf_down t Hwf _ _ _ _ Hr Hc) as (cd & Hcd & Hp & Hh).
    rewrite (proj2 (wf_loc t Hwf x c 0)).
    + rewrite Hcd. simpl. by rewrite Hp, Hr.
    + exists cd. split; [done|]. by destruct (segment cd).
Qed.

Lemma child_heads_spec t n nd :
  tree_wf t -> heap t !! n = Some nd ->
  child_heads t (values (children nd)) = Ok (keys (children nd)).
Proof.
  intros Hwf Hn. unfold values, keys.
  assert (forall b c, (b, c) ∈ items (children nd) -> children nd !! b = Some c) as Hin.
  { intros b c. apply dict_elem_of_items. by apply (wf_dict t Hwf n). }
  induction (items (children nd)) as [|[b c] l IH]; [done|]. simpl.
  destruct (wf_down t Hwf n nd b c Hn) as (cd & Hcd & _ & Hh); [apply Hin; by left|].
  unfold node_at. rewrite Hcd. simpl. destruct (segment cd) as [|b' ?]; simplify_eq/=.
  rewrite IH; [done|]. intros. apply Hin. by right.
Qed.

Lemma child_block_ids_spec t b :
  tree_wf t -> is_Some (block_parent t b) ->
  exists l, child_block_ids t b = Ok l /\ NoDup l /\
    child_count t b = Ok (Z.of_nat (length l)) /\
    forall x, x ∈ l <-> block_parent t x = Some (Some b).
Proof.
  intros Hwf [p Hp]. destruct (block_parent_location _ _ _ Hwf Hp) as (n & i & nd & Hl & Hn & Hi).
  pose proof (lookup_lt_Some _ _ _ Hi) as Hlt.
  unfold child_block_ids, child_count, node_at. rewrite Hl, Hn. bind_simpl.
  setoid_rewrite (block_child_cases t b _ n i nd Hwf Hn Hi).
  destruct (segment nd !! S i) as [y|] eqn:Hy.
  - exists [y]. pose proof (lookup_lt_Some _ _ _ Hy).
    rewrite (proj2 (Nat.ltb_lt _ _)) by lia. split_and!; [done|apply NoDup_singleton|done|].
    intros x. rewrite list_elem_of_singleton. naive_solver lia.
  - apply lookup_ge_None in Hy. rewrite (proj2 (Nat.ltb_ge _ _)) by lia.
    exists (keys (children nd)). rewrite (child_heads_spec t n nd Hwf Hn).
    split_and!; [done|by apply (wf_dict t Hwf n)|by rewrite dict_len_keys|].
    intros x. rewrite dict_elem_of_keys. split; [|by intros [|[]]].
    right. split; [lia|done].
Qed.

(** ** [remove_block] *)

(** The tree after a childless block is taken off the end of its segment. *)
Definition trimmed (t : RadixTreeBackend) (n : nat) (nd : RadixTreeNode) (b : bytes) : RadixTreeBackend :=
  mkBackend (<[n := nd <| segment ::= removelast (A:=bytes) |>]> (heap t)) (next_node t)
    (delete b (locations t))
    (match last (removelast (segment nd)) with Some x => {[x]} | None => ∅ end ∪ leaf_ids t ∖ {[b]}).

(** The tree after a childless one-block node is unlinked from [p]. *)
Definition unlinked (t : RadixTreeBackend) (n p : nat) (pd : RadixTreeNode) (b : bytes) : RadixTreeBackend :=
  let pd' := pd <| children ::= delete b |> in
  mkBackend (delete n (<[p := pd']> (heap t))) (next_node t) (delete b (locations t))
    (match last (segment pd), items (children pd') with Some x, [] => {[x]} | _, _ => ∅ end
       ∪ leaf_ids t ∖ {[b]}).

Section trim.
Context (t : RadixTreeBackend) (n : nat) (nd : RadixTreeNode) (b : bytes) (pre : list bytes).
Context (Hwf : tree_wf t) (Hn : heap t !! n = Some nd) (Hseg : segment nd = pre ++ [b])
        (Hpre : pre <> []) (Hleaf : items (children nd) = []).
#[local] Notation t' := (trimmed t n nd b).

Lemma trim_b_not_pre : b ∉ pre.
Proof.
  pose proof (wf_nodup t Hwf _ _ Hn) as Hnd. rewrite Hseg in Hnd.
  apply NoDup_app in Hnd as (_ & Hd & _). intros Hb. apply (Hd b Hb). by left.
Qed.

Lemma trim_lookup m md :
  heap t' !! m = Some md <->
    (m = n /\ md = mkNode pre (parent nd) (children nd)) \/ (m <> n /\ heap t !! m = Some md).
Proof.
  cbn [heap trimmed]. rewrite lookup_insert. case_decide as Hm.
  - cbn. rewrite Hseg, removelast_last. naive_solver.
  - naive_solver.
Qed.
Lemma trim_at_n : heap t' !! n = Some (mkNode pre (parent nd) (children nd)).
Proof. apply trim_lookup. by left. Qed.
Lemma trim_old m md : heap t !! m = Some md -> m <> n -> heap t' !! m = Some md.
Proof. intros. apply trim_lookup. by right. Qed.
Lemma trim_head : head (segment nd) = head pre.
Proof. rewrite Hseg. by destruct pre. Qed.

(** Every old node survives with the same links and first block. *)
Lemma trim_links m md : heap t !! m = Some md ->
  exists md', heap t' !! m = Some md' /\ parent md' = parent md /\
    children md' = children md /\ head (segment md') = head (segment md).
Proof.
  intros Hm. destruct (decide (m = n)) as [->|Hne].
  - eexists. split; [apply trim_at_n|]. assert (md = nd) as -> by congruence. by rewrite trim_head.
  - exists md. by rewrite (trim_old _ _ Hm Hne).
Qed.
Lemma trim_links_inv m md' : heap t' !! m = Some md' ->
  exists md, heap t !! m = Some md /\ parent md' = parent md /\
    children md' = children md /\ head (segment md') = head (segment md).
Proof.
  intros [[-> ->]|[_ Hm]]%trim_lookup; [|by eauto]. exists nd. by rewrite trim_head.
Qed.

Lemma trim_location_b : locations t !! b = Some (n, length pre).
Proof. apply (wf_loc t Hwf). exists nd. split; [done|]. rewrite Hseg. by apply list_lookup_middle. Qed.

Lemma trim_wf_loc x m j : locations t' !! x = Some (m, j) <->
  exists md, heap t' !! m = Some md /\ segment md !! j = Some x.
Proof.
  cbn [locations trimmed]. rewrite lookup_delete. pose proof trim_b_not_pre as Hb.
  case_decide as Hx.
  - split; [done|]. intros (md & [[-> ->]|[Hne Hm]]%trim_lookup & Hj); subst x.
    + exfalso. apply Hb. by eapply list_elem_of_lookup_2.
    + assert (segment nd !! length pre = Some b) as Hl by (rewrite Hseg; by apply list_lookup_middle).
      by destruct (wf_disjoint t Hwf _ _ _ _ _ _ _ Hm Hn Hj Hl).
  - rewrite (wf_loc t Hwf). split.
    + intros (md & Hm & Hj). destruct (decide (m = n)) as [->|Hne].
      * eexists. split; [apply trim_at_n|]. assert (md = nd) as -> by congruence. simpl.
        rewrite Hseg in Hj. apply lookup_app_Some in Hj as [?|[_ Hj]]; [done|].
        apply list_lookup_singleton_Some in Hj as [_ ?]. congruence.
      * exists md. by rewrite (trim_old _ _ Hm Hne).
    + intros (md & [[-> ->]|[Hne Hm]]%trim_lookup & Hj); [|by eauto].
      exists nd. split; [done|]. rewrite Hseg. by apply lookup_app_l_Some.
Qed.

Lemma trim_wf_leaf x : x ∈ leaf_ids t' <->
  exists m md, heap t' !! m = Some md /\ last (segment md) = Some x /\ items (children md) = [].
Proof.
  cbn [leaf_ids trimmed]. rewrite Hseg, removelast_last.
  rewrite elem_of_union, elem_of_difference, elem_of_singleton, (wf_leaf t Hwf).
  assert (forall m md, heap t !! m = Some md -> last (segment md) = Some b -> m = n) as Hlb.
  { intros m md Hm Hl. rewrite last_lookup in Hl.
    assert (segment nd !! length pre = Some b) as Hl' by (rewrite Hseg; by apply list_lookup_middle).
    by destruct (wf_disjoint t Hwf _ _ _ _ _ _ _ Hm Hn Hl Hl'). }
  split.
  - intros [Hx|[(m & md & Hm & Hl & Hi) Hx]].
    + destruct (last pre) as [y|] eqn:Hy; [|set_solver]. apply elem_of_singleton in Hx as ->.
      eexists n, _. split; [apply trim_at_n|]. done.
    + assert (m <> n).
      { intros ->. assert (md = nd) as -> by congruence. rewrite Hseg, last_snoc in Hl. congruence. }
      exists m, md. by rewrite (trim_old _ _ Hm).
  - intros (m & md & [[-> ->]|[Hne Hm]]%trim_lookup & Hl & Hi); simpl in *.
    + left. rewrite Hl. set_solver.
    + right. split; [by eauto|]. intros ->. by apply Hne, (Hlb m md).
Qed.

Lemma trim_wf : tree_wf t'.
Proof.
  split.
  - destruct (wf_root t Hwf) as [ch Hr]. exists ch. apply trim_old; [done|]. intros <-.
    assert (nd = mkNode [] None ch) as -> by congruence. by destruct pre.
  - intros m md (md0 & Hm & _)%trim_links_inv. by eapply (wf_fresh t Hwf).
  - intros m md Hm Hne. pose proof Hm as (md0 & Hm0 & -> & _ & Hh)%trim_links_inv.
    destruct (wf_seg t Hwf _ _ Hm0 Hne) as [Hs ?]. split; [|done].
    intros E. rewrite E in Hh. by destruct (segment md0).
  - intros c cd q (cd0 & Hc & -> & _ & ->)%trim_links_inv Hq.
    destruct (wf_up t Hwf _ _ _ Hc Hq) as (qd & x & Hqd & Hhd & Hch).
    destruct (trim_links _ _ Hqd) as (qd' & Hqd' & _ & E & _). exists qd', x. by rewrite E.
  - intros q qd x c (qd0 & Hq & _ & -> & _)%trim_links_inv Hc.
    destruct (wf_down t Hwf _ _ _ _ Hq Hc) as (cd & Hcd & Hp & Hh).
    destruct (trim_links _ _ Hcd) as (cd' & Hcd' & E1 & _ & E2). exists cd'. by rewrite E1, E2.
  - intros m md (md0 & Hm & _ & -> & _)%trim_links_inv. by eapply (wf_dict t Hwf).
  - exact trim_wf_loc.
  - exact trim_wf_leaf.
  - destruct (wf_rank t Hwf) as [rank Hr]. exists rank.
    intros c cd q (cd0 & Hc & -> & _)%trim_links_inv. by eapply Hr.
Qed.

Lemma trim_block_parent x :
  block_parent t' x = if decide (x = b) then None else block_parent t x.
Proof.
  unfold block_parent. cbn [locations trimmed]. rewrite lookup_delete.
  destruct (decide (b = x)) as [<-|Hx]; [by rewrite decide_True|]. rewrite decide_False by done.
  destruct (locations t !! x) as [[m j]|] eqn:Hl; [|done].
  apply (wf_loc t Hwf) in Hl as (md & Hm & Hj). rewrite Hm.
  destruct (trim_links _ _ Hm) as (md' & Hm' & Hp & _ & _). rewrite Hm'. cbn [mbind option_bind].
  destruct j as [|j].
  - rewrite Hp. destruct (parent md) as [q|] eqn:Hq; [|done].
    destruct (wf_up t Hwf _ _ _ Hm Hq) as (qd & y & Hqd & _ & Hc). rewrite Hqd.
    assert (q <> n). { intros ->. replace qd with nd in Hc by congruence.
      rewrite (proj1 (dict_items_nil _) Hleaf) in Hc. done. }
    by rewrite (trim_old _ _ Hqd).
  - destruct (decide (m = n)) as [->|Hne]; [|rewrite (trim_old _ _ Hm Hne) in Hm'; congruence].
    rewrite trim_at_n in Hm'. injection Hm' as <-. assert (md = nd) as -> by congruence. simpl.
    rewrite Hseg in Hj |- *. f_equal. symmetry. apply lookup_app_l.
    apply lookup_lt_Some in Hj. rewrite length_app in Hj. simpl in Hj. lia.
Qed.
End trim.

Section unlink.
Context (t : RadixTreeBackend) (n p : nat) (nd pd : RadixTreeNode) (b : bytes).
Context (Hwf : tree_wf t) (Hn : heap t !! n = Some nd) (Hseg : segment nd = [b])
        (Hpar : parent nd = Some p) (Hleaf : items (children nd) = [])
        (Hp : heap t !! p = Some pd).
#[local] Notation t' := (unlinked t n p pd b).
#[local] Notation pd' := (pd <| children ::= delete b |>).

Lemma unlink_ne : p <> n.
Proof. intros E. apply (wf_not_self_parent t Hwf n nd); congruence. Qed.

Lemma unlink_edge : children pd !! b = Some n.
Proof.
  destruct (wf_up t Hwf _ _ _ Hn Hpar) as (qd & x & Hq & Hx & Hc). rewrite Hseg in Hx.
  simpl in Hx. injection Hx as <-. by replace pd with qd by congruence.
Qed.

Lemma unlink_lookup m md :
  heap t' !! m = Some md <->
    m <> n /\ ((m = p /\ md = pd') \/ (m <> p /\ heap t !! m = Some md)).
Proof.
  cbn [heap unlinked]. pose proof unlink_ne. rewrite lookup_delete, lookup_insert.
  repeat case_decide; naive_solver.
Qed.
Lemma unlink_at_p : heap t' !! p = Some pd'.
Proof. apply unlink_lookup. split; [apply unlink_ne|by left]. Qed.
Lemma unlink_old m md : heap t !! m = Some md -> m <> n -> m <> p -> heap t' !! m = Some md.
Proof. intros. apply unlink_lookup. by auto. Qed.

(** No node hangs below the removed one. *)
Lemma unlink_not_parent m md : heap t !! m = Some md -> parent md <> Some n.
Proof.
  intros Hm Hq. destruct (wf_up t Hwf _ _ _ Hm Hq) as (qd & y & Hqd & _ & Hc).
  replace qd with nd in Hc by congruence. by rewrite (proj1 (dict_items_nil _) Hleaf) in Hc.
Qed.

(** Survivors keep their segment and parent; only [p] lost the edge [b]. *)
Lemma unlink_links m md : heap t !! m = Some md -> m <> n ->
  exists md', heap t' !! m = Some md' /\ segment md' = segment md /\ parent md' = parent md /\
    forall x, children md' !! x = (if decide (m = p /\ x = b) then None else children md !! x).
Proof.
  intros Hm Hne. destruct (decide (m = p)) as [->|Hnp].
  - eexists. split; [apply unlink_at_p|]. assert (md = pd) as -> by congruence.
    split_and!; [done..|]. intros x. simpl. rewrite dict_lookup_delete.
    repeat case_decide; naive_solver.
  - exists md. rewrite (unlink_old _ _ Hm Hne Hnp). split_and!; [done..|].
    intros x. rewrite decide_False by naive_solver. done.
Qed.
Lemma unlink_links_inv m md' : heap t' !! m = Some md' ->
  m <> n /\ exists md, heap t !! m = Some md /\ segment md' = segment md /\ parent md' = parent md /\
    forall x, children md' !! x = (if decide (m = p /\ x = b) then None else children md !! x).
Proof.
  intros Hm. pose proof Hm as [Hne _]%unlink_lookup. split; [done|].
  assert (is_Some (heap t !! m)) as [md Hmd].
  { apply unlink_lookup in Hm as [_ [[-> _]|[_ ?]]]; eauto. }
  destruct (unlink_links _ _ Hmd Hne) as (md1 & H1 & H2). replace md1 with md' in * by congruence. eauto.
Qed.

Lemma unlink_wf_up c cd q : heap t' !! c = Some cd -> parent cd = Some q ->
  exists qd x, heap t' !! q = Some qd /\ head (segment cd) = Some x /\ children qd !! x = Some c.
Proof.
  intros (Hne & cd0 & Hc & -> & -> & _)%unlink_links_inv Hq.
  destruct (wf_up t Hwf _ _ _ Hc Hq) as (qd & x & Hqd & Hhd & Hch).
  assert (q <> n) as Hqn by (intros ->; by apply (unlink_not_parent _ _ Hc)).
  destruct (unlink_links _ _ Hqd Hqn) as (qd' & Hqd' & _ & _ & Hx).
  exists qd', x. split_and!; [done..|]. rewrite Hx, decide_False; [done|].
  intros [-> ->]. pose proof unlink_edge. congruence.
Qed.

Lemma unlink_wf_down q qd x c : heap t' !! q = Some qd -> children qd !! x = Some c ->
  exists cd, heap t' !! c = Some cd /\ parent cd = Some q /\ head (segment cd) = Some x.
Proof.
  intros (Hne & qd0 & Hq & _ & _ & Hx)%unlink_links_inv Hc. rewrite Hx in Hc.
  case_decide as Hd; [done|].
  destruct (wf_down t Hwf _ _ _ _ Hq Hc) as (cd & Hcd & Hpc & Hh).
  assert (c <> n) as Hcn.
  { intros ->. replace cd with nd in * by congruence. rewrite Hseg in Hh. simpl in Hh.
    apply Hd. split; congruence. }
  destruct (unlink_links _ _ Hcd Hcn) as (cd' & Hcd' & Es & Ep & _).
  exists cd'. by rewrite Es, Ep.
Qed.

Lemma unlink_location_b : locations t !! b = Some (n, 0%nat).
Proof. apply (wf_loc t Hwf). exists nd. by rewrite Hseg. Qed.

Lemma unlink_wf_loc x m j : locations t' !! x = Some (m, j) <->
  exists md, heap t' !! m = Some md /\ segment md !! j = Some x.
Proof.
  cbn [locations unlinked]. rewrite lookup_delete. case_decide as Hx.
  - split; [done|]. intros (md & (Hne & md0 & Hm & Es & _)%unlink_links_inv & Hj). subst x.
    rewrite Es in Hj. assert (segment nd !! 0%nat = Some b) as H0 by (by rewrite Hseg).
    by destruct (wf_disjoint t Hwf _ _ _ _ _ _ _ Hm Hn Hj H0).
  - rewrite (wf_loc t Hwf). split.
    + intros (md & Hm & Hj). assert (m <> n) as Hne.
      { intros ->. replace md with nd in Hj by congruence. rewrite Hseg in Hj.
        apply list_lookup_singleton_Some in Hj as [_ ?]. congruence. }
      destruct (unlink_links _ _ Hm Hne) as (md' & Hm' & Es & _). exists md'. by rewrite Es.
    + intros (md & (Hne & md0 & Hm & Es & _)%unlink_links_inv & Hj). rewrite Es in Hj. eauto.
Qed.

Lemma unlink_wf_leaf x : x ∈ leaf_ids t' <->
  exists m md, heap t' !! m = Some md /\ last (segment md) = Some x /\ items (children md) = [].
Proof.
  cbn [leaf_ids unlinked]. rewrite elem_of_union, elem_of_difference, elem_of_singleton, (wf_leaf t Hwf).
  split.
  - intros [Hx|[(m & md & Hm & Hl & Hi) Hx]].
    + destruct (last (segment pd)) as [y|] eqn:Hy; [|set_solver].
      destruct (items (children pd')) eqn:Hi; [|set_solver]. apply elem_of_singleton in Hx as ->.
      exists p, pd'. split; [apply unlink_at_p|]. by rewrite <- Hy.
    + assert (m <> n).
      { intros ->. replace md with nd in Hl by congruence. rewrite Hseg in Hl. simpl in Hl. congruence. }
      assert (m <> p).
      { intros ->. replace md with pd in Hi by congruence. pose proof unlink_edge as He.
        by rewrite (proj1 (dict_items_nil _) Hi) in He. }
      exists m, md. by rewrite (unlink_old _ _ Hm).
  - intros (m & md & [Hne [[-> ->]|[Hnp Hm]]]%unlink_lookup & Hl & Hi).
    + left. change (last (segment pd) = Some x) in Hl. rewrite Hl, Hi. set_solver.
    + right. split; [by eauto|]. intros ->. apply Hne.
      assert (segment nd !! 0%nat = Some b) as H0 by (by rewrite Hseg). rewrite last_lookup in Hl.
      by destruct (wf_disjoint t Hwf _ _ _ _ _ _ _ Hm Hn Hl H0).
Qed.

Lemma unlink_wf : tree_wf t'.
Proof.
  split.
  - destruct (wf_root t Hwf) as [ch Hr].
    assert (0%nat <> n) as Hne by (intros E; rewrite E, Hn in Hr; by injection Hr as ->).
    destruct (unlink_links _ _ Hr Hne) as ([sg pr ch'] & Hr' & Es & Ep & _). simpl in *. subst. eauto.
  - intros m md (_ & md0 & Hm & _)%unlink_links_inv. by eapply (wf_fresh t Hwf).
  - intros m md (_ & md0 & Hm & -> & -> & _)%unlink_links_inv. by apply (wf_seg t Hwf).
  - exact unlink_wf_up.
  - exact unlink_wf_down.
  - intros m md [_ [[-> ->]|[_ Hm]]]%unlink_lookup.
    + apply dict_wf_delete. by apply (wf_dict t Hwf p).
    + by apply (wf_dict t Hwf m).
  - exact unlink_wf_loc.
  - exact unlink_wf_leaf.
  - destruct (wf_rank t Hwf) as [rank Hr]. exists rank.
    intros c cd q (_ & cd0 & Hc & _ & -> & _)%unlink_links_inv. by eapply Hr.
Qed.

Lemma unlink_block_parent x :
  block_parent t' x = if decide (x = b) then None else block_parent t x.
Proof.
  unfold block_parent. cbn [locations unlinked]. rewrite lookup_delete.
  destruct (decide (b = x)) as [<-|Hx]; [by rewrite decide_True|]. rewrite decide_False by done.
  destruct (locations t !! x) as [[m j]|] eqn:Hl; [|done].
  apply (wf_loc t Hwf) in Hl as (md & Hm & Hj). rewrite Hm.
  assert (m <> n) as Hne.
  { intros ->. replace md with nd in Hj by congruence. rewrite Hseg in Hj.
    apply list_lookup_singleton_Some in Hj as [_ ?]. congruence. }
  destruct (unlink_links _ _ Hm Hne) as (md' & Hm' & Es & Ep & _). rewrite Hm'.
  cbn [mbind option_bind]. destruct j as [|j]; [|by rewrite Es]. rewrite Ep.
  destruct (parent md) as [q|] eqn:Hq; [|done].
  destruct (wf_parent_node t Hwf _ _ _ Hm Hq) as [qd Hqd].
  assert (q <> n) as Hqn by (intros ->; by apply (unlink_not_parent _ _ Hm)).
  destruct (unlink_links _ _ Hqd Hqn) as (qd' & Hqd' & Eqs & _).
  rewrite Hqd, Hqd'. cbn [mbind option_bind]. by rewrite Eqs.
Qed.
End unlink.

(** ** The specification of [remove_block] *)

Lemma remove_block_run t b p :
  tree_wf t -> block_parent t b = Some p -> (forall x, block_parent t x <> Some (Some b)) ->
  exists n nd q qd i, locations t !! b = Some (n, i) /\ heap t !! n = Some nd /\
    segment nd !! i = Some b /\ S i = length (segment nd) /\ items (children nd) = [] /\
    parent nd = Some q /\ heap t !! q = Some qd.
Proof.
  intros Hwf Hb Hno. destruct (block_parent_location _ _ _ Hwf Hb) as (n & i & nd & Hl & Hn & Hi).
  pose proof (fun x => block_child_cases t b x n i nd Hwf Hn Hi) as Hc.
  pose proof (lookup_lt_Some _ _ _ Hi) as Hlt.
  assert (S i = length (segment nd)) as Hlen.
  { destruct (segment nd !! S i) as [x|] eqn:Hx; [|apply lookup_ge_None in Hx; lia].
    exfalso. apply (Hno x). apply Hc. by left. }
  assert (items (children nd) = []) as Hit.
  { apply dict_items_nil. intros x. destruct (children nd !! x) eqn:Hx; [|done].
    exfalso. apply (Hno x). apply Hc. right. eauto. }
  assert (n <> 0%nat) as Hn0.
  { intros ->. destruct (wf_root t Hwf) as [ch Hr]. simplify_eq. }
  destruct (wf_seg t Hwf _ _ Hn Hn0) as [_ [q Hq]].
  destruct (wf_parent_node t Hwf _ _ _ Hn Hq) as [qd Hqd].
  exists n, nd, q, qd, i. done.
Qed.

Lemma add_leaf_run t n nd :
  heap t !! n = Some nd ->
  add_leaf n t = (Ok tt, t <| leaf_ids ::= fun s =>
    match last (segment nd), items (children nd) with Some x, [] => {[x]} | _, _ => ∅ end ∪ s |>).
Proof.
  intros H. unfold add_leaf. cbv [mbind Act_bind]. rewrite (get_node_run _ _ _ H).
  destruct (last (segment nd)); [destruct (items (children nd)); [done|]|];
    destruct t; simpl; do 2 f_equal; set_solver.
Qed.

(** A childless block is removed and nothing else changes. *)
Lemma remove_block_leaf t b p :
  tree_wf t -> block_parent t b = Some p -> (forall x, block_parent t x <> Some (Some b)) ->
  exists t', remove_block b t = (Ok tt, t') /\ tree_wf t' /\
    forall x, block_parent t' x = if decide (x = b) then None else block_parent t x.
Proof.
  intros Hwf Hb Hno.
  destruct (remove_block_run t b p Hwf Hb Hno)
    as (n & nd & q & qd & i & Hl & Hn & Hi & Hlen & Hit & Hq & Hqd).
  unfold remove_block. cbv [mbind Act_bind read guard_not throw modify]. rewrite Hl.
  rewrite (get_node_run _ _ _ Hn). rewrite !bool_decide_eq_true_2 by done. cbn [negb orb].
  rewrite Hq.
  assert (segment nd = removelast (segment nd) ++ [b]) as Hseg.
  { assert (last (segment nd) = Some b) as Hlast by (rewrite last_lookup, <- Hlen; done).
    apply last_snoc_inv in Hlast as [l' ->]. by rewrite List.removelast_last. }
  case_bool_decide as H1.
  - assert (segment nd = [b]) as Hs1.
    { rewrite Hseg in H1 |- *. rewrite length_app in H1. simpl in H1.
      by destruct (removelast (segment nd)); [|simpl in H1; lia]. }
    pose proof (unlink_ne t n q nd Hwf Hn Hq) as Hne.
    assert (delete n (alter (fun pd => pd <| children ::= delete b |>) q (heap t)) =
            delete n (<[q := qd <| children ::= delete b |>]> (heap t))) as Halt.
    { f_equal. apply map_eq. intros m. rewrite lookup_alter, lookup_insert.
      case_decide; [subst; by rewrite Hqd|done]. }
    rewrite (add_leaf_run _ q (qd <| children ::= delete b |>)).
    2:{ cbn -[insert delete alter lookup]. by rewrite lookup_delete_ne, lookup_alter_eq, Hqd by done. }
    exists (unlinked t n q qd b). split_and!.
    + f_equal. unfold unlinked. cbn -[insert delete union difference] in *. by rewrite Halt.
    + by apply (unlink_wf t n q nd qd b).
    + intros x. by apply (unlink_block_parent t n q nd qd b).
  - assert (removelast (segment nd) <> []) as Hpre.
    { intros E. rewrite Hseg, E in H1. done. }
    erewrite add_leaf_run by (cbn [heap update_with]; by rewrite lookup_insert_eq).
    exists (trimmed t n nd b). split_and!.
    + f_equal. unfold trimmed. cbn -[insert delete union difference removelast]. rewrite Hit.
      by destruct (last (removelast (segment nd))).
    + by apply (trim_wf t n nd b (removelast (segment nd))).
    + intros x. by apply (trim_block_parent t n nd b (removelast (segment nd))).
Qed.

Lemma remove_block_absent t b :
  tree_wf t -> block_parent t b = None ->
  remove_block b t = (Raise (KeyError "Prefix cache block id is not present in radix tree."), t).
Proof.
  intros Hwf Hb%block_parent_None; [|done].
  unfold remove_block. cbv [mbind Act_bind read throw]. by rewrite Hb.
Qed.

(** A block with children is refused and the tree is untouched. *)
Lemma remove_block_inner t b x :
  tree_wf t -> block_parent t x = Some (Some b) -> is_Some (block_parent t b) ->
  remove_block b t =
    (Raise (RuntimeError "Cannot remove a prefix cache tree block with live children."), t).
Proof.
  intros Hwf Hx [p Hb]. destruct (block_parent_location _ _ _ Hwf Hb) as (n & i & nd & Hl & Hn & Hi).
  apply (block_child_cases t b x n i nd Hwf Hn Hi) in Hx.
  unfold remove_block. cbv [mbind Act_bind read guard_not throw]. rewrite Hl.
  rewrite (get_node_run _ _ _ Hn).
  assert (negb (bool_decide (S i = length (segment nd))) || negb (bool_decide (items (children nd) = [])) = true)
    as ->; [|done].
  destruct Hx as [Hx|[_ [c Hc]]].
  - apply lookup_lt_Some in Hx. by rewrite bool_decide_eq_false_2 by lia.
  - rewrite (bool_decide_eq_false_2 (items _ = [])); [by rewrite orb_true_r|].
    intros E. by rewrite (proj1 (dict_items_nil _) E) in Hc.
Qed.
