(* ===== verification/RadixWalks.v ===== *)
(** * Walking the radix tree

    The read-only operations of [RadixTree.v]: the path to a block, prefix
    lookup, and the enumeration of a subtree.  Each one terminates on every
    well-formed tree and computes what the forest of blocks says. *)

From stdpp Require Import base gmap list strings.
From Stdlib Require Import ZArith Lia.
From S2P Require Import Prelude PyDict PyBytes RadixTree RadixTreeFacts.

(** ** Paths *)

(** [l] runs from a first block down the forest [f], one parent at a time. *)
Definition path_in (f : bytes -> option (option bytes)) (l : list bytes) : Prop :=
  forall i b, l !! i = Some b -> f b = Some (match i with O => None | S j => l !! j end).

Lemma path_in_snoc_inv f l b : path_in f (l ++ [b]) -> path_in f l /\ f b = Some (last l).
Proof.
  intros H. split.
  - intros i x Hi. rewrite (H i x) by (by apply lookup_app_l_Some). f_equal.
    destruct i as [|j]; [done|]. apply lookup_lt_Some in Hi. by rewrite lookup_app_l by lia.
  - rewrite (H (length l) b) by (by apply list_lookup_middle). f_equal.
    destruct l as [|y l _] using rev_ind; [done|]. rewrite length_app, Nat.add_1_r.
    rewrite last_snoc, lookup_app_l by (rewrite length_app; simpl; lia).
    by apply list_lookup_middle.
Qed.

(** Parents are unique, so a path is determined by its last block. *)
Lemma path_in_unique f l1 l2 : path_in f l1 -> path_in f l2 -> last l1 = last l2 -> l1 = l2.
Proof.
  revert l2. induction l1 as [|b l1 IH] using rev_ind; intros l2 H1 H2 Hl.
  - symmetry in Hl. by apply last_None in Hl.
  - rewrite last_snoc in Hl. symmetry in Hl. apply last_snoc_inv in Hl as [l2' ->].
    apply path_in_snoc_inv in H1 as [P1 E1], H2 as [P2 E2]. f_equal. apply IH; [done..|congruence].
Qed.

(** A child's path is its parent's path and the child. *)
Lemma path_in_child f l1 l2 x y :
  path_in f l1 -> last l1 = Some x -> path_in f l2 -> last l2 = Some y -> f y = Some (Some x) ->
  l2 = l1 ++ [y].
Proof.
  intros P1 L1 P2 L2 Hy. apply last_snoc_inv in L2 as [l2' ->].
  apply path_in_snoc_inv in P2 as [P2 E2]. f_equal. apply (path_in_unique f); [done..|congruence].
Qed.

Definition is_path (t : RadixTreeBackend) : list bytes -> Prop := path_in (block_parent t).

Lemma is_path_nil t : is_path t [].
Proof. intros i b H. by rewrite lookup_nil in H. Qed.

(** The block before position [k] of a concatenation. *)
Lemma is_path_app t l1 l2 :
  is_path t l1 ->
  (forall i b, l2 !! i = Some b ->
     block_parent t b = Some (match i with O => last l1 | S j => l2 !! j end)) ->
  is_path t (l1 ++ l2).
Proof.
  intros H1 H2 i b [Hi|[Hle Hi]]%lookup_app_Some.
  - rewrite (H1 _ _ Hi). do 2 f_equal. destruct i as [|j]; [done|].
    rewrite lookup_app_l; [done|]. apply lookup_lt_Some in Hi. lia.
  - rewrite (H2 _ _ Hi). f_equal. destruct i as [|j].
    + destruct l1; simpl in Hle; [done|lia].
    + destruct (decide (length l1 = S j)) as [E|E].
      * rewrite <- E, Nat.sub_diag. rewrite lookup_app_l by lia. rewrite last_lookup, E. done.
      * replace (S j - length l1)%nat with (S (j - length l1)) by lia.
        by rewrite lookup_app_r by lia.
Qed.

Lemma segment_parents t n nd :
  tree_wf t -> heap t !! n = Some nd ->
  forall i b, segment nd !! i = Some b ->
    block_parent t b = Some (match i with
      | O => match parent nd with
             | None => None
             | Some p => match heap t !! p with Some pd => last (segment pd) | None => None end
             end
      | S j => segment nd !! j end).
Proof.
  intros Hwf Hn i b Hi. unfold block_parent.
  rewrite (proj2 (wf_loc t Hwf b n i)) by eauto. rewrite Hn. cbn [mbind option_bind].
  destruct i; [|done]. destruct (parent nd) as [p|] eqn:Hp; [|done].
  by destruct (wf_parent_node t Hwf _ _ _ Hn Hp) as [pd ->].
Qed.

Lemma ancestor_segments_spec t rank fuel n nd :
  tree_wf t ->
  (forall c cd p, heap t !! c = Some cd -> parent cd = Some p -> (rank p < rank c)%nat) ->
  heap t !! n = Some nd ->
  (size (filter (fun m => (rank m < rank n)%nat) (dom (heap t))) < fuel)%nat ->
  exists segs, ancestor_segments fuel t nd = Ok segs /\ is_path t (mjoin (reverse segs)) /\
    last (mjoin (reverse segs)) =
      match parent nd with
      | None => None
      | Some p => match heap t !! p with Some pd => last (segment pd) | None => None end
      end.
Proof.
  intros Hwf Hr. revert n nd. induction fuel as [|fuel IH]; intros n nd Hn Hf; [lia|].
  simpl. destruct (parent nd) as [p|] eqn:Hp; [|by exists []; split_and!; [| apply is_path_nil|]].
  destruct (wf_parent_node t Hwf _ _ _ Hn Hp) as [pd Hpd].
  unfold node_at. rewrite Hpd. bind_simpl.
  destruct (IH p pd Hpd) as (segs & -> & Hpath & Hlast).
  { pose proof (Hr _ _ _ Hn Hp) as Hlt.
    enough (size (filter (fun m => (rank m < rank p)%nat) (dom (heap t))) <
            size (filter (fun m => (rank m < rank n)%nat) (dom (heap t))))%nat by lia.
    apply subset_size. split.
    - intros m. rewrite !elem_of_filter. intros [? ?]. split; [lia|done].
    - intros H. specialize (H p). rewrite !elem_of_filter in H.
      destruct H as [H _]; [|lia]. split; [lia|]. by apply elem_of_dom_2 in Hpd. }
  bind_simpl. eexists. split; [done|].
  destruct (decide (p = 0%nat)) as [->|Hp0].
  - destruct (wf_root t Hwf) as [ch Hroot]. assert (pd = mkNode [] None ch) as -> by congruence. done.
  - destruct (wf_seg t Hwf _ _ Hpd Hp0) as [Hs _]. rewrite bool_decide_eq_false_2 by done.
    rewrite reverse_cons, join_app. simpl. rewrite app_nil_r. split.
    + apply is_path_app; [done|]. intros i b Hi. rewrite Hlast.
      apply (segment_parents t p pd Hwf Hpd i b Hi).
    + rewrite last_app. by destruct (last (segment pd)) eqn:E; [|apply last_None in E].
Qed.

(** [path_to_block] is total on present blocks and returns the parent chain. *)
Lemma path_to_block_present t b p :
  tree_wf t -> block_parent t b = Some p ->
  exists l, path_to_block t b = Ok l /\ last l = Some b /\ is_path t l.
Proof.
  intros Hwf Hb. destruct (block_parent_location _ _ _ Hwf Hb) as (n & i & nd & Hl & Hn & Hi).
  destruct (wf_rank t Hwf) as [rank Hr].
  destruct (ancestor_segments_spec t rank (S (size (heap t))) n nd Hwf Hr Hn) as (segs & Hs & Hpath & Hlast).
  { rewrite <- size_dom. apply Nat.lt_succ_r, subseteq_size. intros m. rewrite elem_of_filter. tauto. }
  unfold path_to_block, node_at. rewrite Hl, Hn. bind_simpl. rewrite Hs. bind_simpl.
  eexists. split; [done|]. rewrite reverse_cons, join_app. simpl. rewrite app_nil_r.
  pose proof (lookup_lt_Some _ _ _ Hi). split.
  - by rewrite last_app, last_take_lookup, Hi by lia.
  - apply is_path_app; [done|]. intros j x Hj. rewrite Hlast.
    apply lookup_take_Some in Hj as [Hj Hlt].
    rewrite (segment_parents t n nd Hwf Hn j x Hj). f_equal.
    destruct j; [done|]. by rewrite lookup_take_lt by lia.
Qed.

Lemma path_to_block_absent t b :
  tree_wf t -> block_parent t b = None ->
  path_to_block t b = Raise (KeyError "Prefix cache block id is not present in radix tree.").
Proof. intros Hwf Hb%block_parent_None; [|done]. unfold path_to_block. by rewrite Hb. Qed.

(** ** Prefix lookup *)

(** The reference: how many leading ids continue the path below [prev]. *)
Fixpoint prefix_hits (t : RadixTreeBackend) (prev : option bytes) (ids : list bytes) : nat :=
  match ids with
  | [] => O
  | x :: ids' =>
      if bool_decide (block_parent t x = Some prev) then S (prefix_hits t (Some x) ids') else O
  end.

Lemma prefix_hits_le t prev ids : (prefix_hits t prev ids <= length ids)%nat.
Proof.
  revert prev. induction ids as [|x ids IH]; intros prev; simpl; [done|].
  case_bool_decide; [|lia]. specialize (IH (Some x)). lia.
Qed.

(** The ids that head the edges below a node. *)
Lemma edge_parent t n nd x :
  tree_wf t -> heap t !! n = Some nd ->
  block_parent t x = Some (last (segment nd)) <-> is_Some (children nd !! x).
Proof.
  intros Hwf Hn. destruct (decide (n = 0%nat)) as [->|Hn0].
  - destruct (wf_root t Hwf) as [ch Hr]. assert (nd = mkNode [] None ch) as -> by congruence.
    by apply block_root_cases.
  - destruct (wf_seg t Hwf _ _ Hn Hn0) as [Hs _].
    destruct (last (segment nd)) as [b|] eqn:Hl; [|by apply last_None in Hl].
    rewrite last_lookup in Hl. pose proof (lookup_lt_Some _ _ _ Hl).
    rewrite (block_child_cases t b x n _ nd Hwf Hn Hl).
    rewrite (lookup_ge_None_2 _ (S _)) by lia. split; [by intros [|[]]|]. right. split; [lia|done].
Qed.

(** Matching the rest [seg'] of a segment after a matched part ending with [b]. *)
Lemma match_segment_spec t n nd pre b seg' rem hits lid :
  tree_wf t -> heap t !! n = Some nd -> segment nd = (pre ++ [b]) ++ seg' ->
  match match_segment seg' rem hits lid with
  | (true, (rem', hits', lid')) =>
      rem = seg' ++ rem' /\ hits' = (hits + length seg')%nat /\ lid' = last_or lid seg' /\
      prefix_hits t (Some b) rem =
        (length seg' + prefix_hits t (last (segment nd)) rem')%nat
  | (false, (_, hits', lid')) =>
      hits' = (hits + prefix_hits t (Some b) rem)%nat /\
      lid' = last_or lid (take (prefix_hits t (Some b) rem) rem)
  end.
Proof.
  intros Hwf Hn. revert pre b rem hits lid.
  induction seg' as [|s seg' IH]; intros pre b rem hits lid Hseg; simpl.
  - rewrite Hseg, app_nil_r, last_snoc. split_and!; [done|lia|done|done].
  - destruct rem as [|r rem]; simpl; [split; [lia|done]|].
    assert (segment nd !! length pre = Some b) as Hb.
    { rewrite Hseg, <- app_assoc. by apply list_lookup_middle. }
    assert (segment nd !! S (length pre) = Some s) as Hs.
    { rewrite Hseg. apply list_lookup_middle. rewrite length_app. simpl. lia. }
    assert (block_parent t r = Some (Some b) <-> r = s) as Hr.
    { rewrite (block_child_cases t b r n _ nd Hwf Hn Hb), Hs.
      apply lookup_lt_Some in Hs. naive_solver lia. }
    rewrite (bool_decide_ext _ _ Hr). case_bool_decide as Hrs; [subst r|split; [lia|done]].
    specialize (IH (pre ++ [b]) s rem (S hits) (Some s)).
    rewrite Hseg in IH. rewrite <- (app_assoc _ [s] seg') in IH. specialize (IH eq_refl). rewrite <- Hseg in IH.
    destruct (match_segment seg' rem (S hits) (Some s)) as [[] [[rem' hits'] lid']].
    + destruct IH as (-> & -> & -> & ->). split_and!; [done|lia| |done].
      exact (eq_sym (last_or_app lid [s] seg')).
    + destruct IH as (-> & ->). split; [lia|].
      exact (eq_sym (last_or_app lid [s] _)).
Qed.

Lemma node_at_Ok t n nd : heap t !! n = Some nd -> node_at t n = Ok nd.
Proof. unfold node_at. by intros ->. Qed.

Lemma lookup_loop_spec t fuel n nd rem hits lid :
  tree_wf t -> heap t !! n = Some nd -> (length rem < fuel)%nat ->
  let h := prefix_hits t (last (segment nd)) rem in
  lookup_loop fuel t n rem hits lid = Ok ((hits + h)%nat, last_or lid (take h rem)).
Proof.
  intros Hwf. revert n nd rem hits lid.
  induction fuel as [|fuel IH]; intros n nd rem hits lid Hn Hf; [lia|].
  destruct rem as [|r rem]; simpl; [by rewrite Nat.add_0_r|].
  rewrite (node_at_Ok _ _ _ Hn). bind_simpl.
  pose proof (edge_parent t n nd r Hwf Hn) as He.
  destruct (children nd !! r) as [c|] eqn:Hc.
  2:{ rewrite bool_decide_eq_false_2 by (rewrite He; by intros []). by rewrite Nat.add_0_r. }
  rewrite bool_decide_eq_true_2 by (apply He; eauto).
  destruct (wf_down t Hwf _ _ _ _ Hn Hc) as (cd & Hcd & _ & Hh).
  rewrite (node_at_Ok _ _ _ Hcd). bind_simpl.
  destruct (segment cd) as [|r' seg'] eqn:Hseg; [done|]. injection Hh as ->. simpl.
  rewrite bool_decide_eq_true_2 by done.
  pose proof (match_segment_spec t c cd [] r seg' rem (S hits) (Some r) Hwf Hcd Hseg) as Hm.
  destruct (match_segment seg' rem (S hits) (Some r)) as [[] [[rem' hits'] lid']].
  - destruct Hm as (-> & -> & -> & Hph). rewrite (IH c cd) by (done || (simpl in Hf; rewrite length_app in Hf; lia)).
    rewrite Hph. f_equal. f_equal; [lia|]. simpl. rewrite take_app_add.
    rewrite <- last_or_app. exact (eq_sym (last_or_app lid [r] _)).
  - destruct Hm as (-> & ->). f_equal. f_equal; [lia|]. exact (eq_sym (last_or_app lid [r] _)).
Qed.

Lemma lookup_blocks_run t ids max_blocks :
  tree_wf t ->
  let rem := take (Z.to_nat (Z.min max_blocks (Z.of_nat (length ids)))) ids in
  let h := prefix_hits t None rem in
  lookup_blocks t ids max_blocks = Ok (mkLookup (Z.of_nat h) (last (take h rem))).
Proof.
  intros Hwf rem h. unfold lookup_blocks. destruct (wf_root t Hwf) as [ch Hr].
  fold rem. rewrite (lookup_loop_spec t _ 0 _ rem 0 None Hwf Hr (Nat.lt_succ_diag_r _)). bind_simpl.
  unfold last_or. simpl. by destruct (last _).
Qed.

(** The ids hit are a path of the forest, and the longest one. *)
Lemma prefix_hits_path t prev ids i b :
  (i < prefix_hits t prev ids)%nat -> ids !! i = Some b ->
  block_parent t b = Some (match i with O => prev | S j => ids !! j end).
Proof.
  revert prev i. induction ids as [|x ids IH]; intros prev i; simpl; [lia|].
  case_bool_decide as Hx; [|lia]. destruct i as [|i]; simpl; [by intros _ [= <-]|].
  intros Hi Hb. rewrite (IH (Some x) i) by (done || lia). by destruct i.
Qed.

Lemma prefix_hits_maximal t prev ids b :
  ids !! prefix_hits t prev ids = Some b ->
  block_parent t b <> Some (last_or prev (take (prefix_hits t prev ids) ids)).
Proof.
  revert prev. induction ids as [|x ids IH]; intros prev; simpl; [done|].
  case_bool_decide as Hx; simpl; [|by intros [= <-]].
  intros Hb. specialize (IH (Some x) Hb). by rewrite <- (last_or_app prev [x]) in IH.
Qed.

(** ** Subtrees *)

(** [x] lies below or at [b]. *)
Definition descends (t : RadixTreeBackend) (b x : bytes) : Prop :=
  rtc (fun x y => block_parent t x = Some (Some y)) x b.

Definition seg_of (t : RadixTreeBackend) (n : nat) : list bytes :=
  match heap t !! n with Some nd => segment nd | None => [] end.

Section subtree.
Context (t : RadixTreeBackend) (root : nat) (rank : nat -> nat).
Context (Hwf : tree_wf t).
Context (Hrank : forall c cd p, heap t !! c = Some cd -> parent cd = Some p -> (rank p < rank c)%nat).

(** The depth-first walk: [V] is visited, [stack] is not; together they hold
    [root], their parents are visited, and the visited nodes' children are held. *)
Record walk_inv (V stack : list nat) : Prop := {
  walk_nodup : NoDup (V ++ stack);
  walk_heap m : m ∈ V ++ stack -> is_Some (heap t !! m) /\ (rank root <= rank m)%nat;
  walk_root : root ∈ V ++ stack;
  walk_parent m md : m ∈ V ++ stack -> m <> root -> heap t !! m = Some md ->
    exists p, p ∈ V /\ parent md = Some p;
  walk_children p pd b c : p ∈ V -> heap t !! p = Some pd -> children pd !! b = Some c ->
    c ∈ V ++ stack;
}.

Lemma children_values m md c :
  heap t !! m = Some md -> c ∈ values (children md) ->
  exists cd, heap t !! c = Some cd /\ parent cd = Some m.
Proof.
  intros Hm Hc. apply dict_values_elem in Hc as [b Hb]; [|by apply (wf_dict t Hwf m)].
  destruct (wf_down t Hwf _ _ _ _ Hm Hb) as (cd & ? & ? & _). eauto.
Qed.

Lemma children_values_NoDup m md : heap t !! m = Some md -> NoDup (values (children md)).
Proof.
  intros Hm. pose proof (wf_dict t Hwf _ _ Hm) as Hd.
  assert (forall b c, (b, c) ∈ items (children md) -> exists cd, heap t !! c = Some cd /\ head (segment cd) = Some b) as Hh.
  { intros b c Hbc. apply dict_elem_of_items in Hbc; [|done].
    destruct (wf_down t Hwf _ _ _ _ Hm Hbc) as (cd & ? & _ & ?). eauto. }
  unfold dict_wf, keys in Hd. unfold values.
  induction (items (children md)) as [|[b c] l IH]; simpl; [constructor|].
  simpl in Hd. apply NoDup_cons in Hd as [Hb Hd]. apply NoDup_cons. split.
  - intros ([b' c'] & Hc' & Hin)%list_elem_of_fmap. simpl in Hc'. subst c'.
    destruct (Hh b c) as (cd & Hcd & H1); [by left|]. destruct (Hh b' c) as (cd' & Hcd' & H2); [by right|].
    assert (b' = b) as -> by congruence. apply Hb.
    exact (list_elem_of_fmap_2 fst _ _ Hin).
  - apply IH; [done|]. intros. apply Hh. by right.
Qed.

Lemma walk_inv_push V m md stack :
  walk_inv V (m :: stack) -> heap t !! m = Some md ->
  walk_inv (V ++ [m]) (reverse (values (children md)) ++ stack).
Proof.
  intros [Hnd Hh Hroot Hpar Hch] Hm.
  assert (m ∉ V) as HmV.
  { apply NoDup_app in Hnd as (_ & Hd & _). intros H. apply (Hd m H). by left. }
  assert (forall c, c ∈ values (children md) -> c ∉ V ++ m :: stack) as Hfresh.
  { intros c Hc Hin. destruct (children_values m md c Hm Hc) as (cd & Hcd & Hp).
    pose proof (Hrank _ _ _ Hcd Hp) as Hlt. destruct (Hh m) as [_ Hge]; [set_solver|].
    assert (c <> root) as Hcr by (intros ->; lia).
    destruct (Hpar c cd Hin Hcr Hcd) as (p & HpV & Hp'). congruence. }
  assert (forall x, x ∈ (V ++ [m]) ++ reverse (values (children md)) ++ stack <->
            x ∈ V ++ m :: stack \/ x ∈ values (children md)) as Hel.
  { intros x. rewrite !elem_of_app, elem_of_reverse, list_elem_of_singleton, elem_of_cons. tauto. }
  split.
  - replace ((V ++ [m]) ++ reverse (values (children md)) ++ stack)
      with (V ++ [m] ++ reverse (values (children md)) ++ stack) by (by rewrite <- app_assoc).
    assert (V ++ [m] ++ reverse (values (children md)) ++ stack ≡ₚ
            values (children md) ++ (V ++ m :: stack)) as ->.
    { rewrite reverse_Permutation. simpl. rewrite !Permutation_middle. rewrite app_assoc, (Permutation_app_comm V), <- app_assoc. done. }
    apply NoDup_app. split_and!; [by eapply children_values_NoDup|exact Hfresh|done].
  - intros x [Hx|Hx]%Hel; [by apply Hh|].
    destruct (children_values m md x Hm Hx) as (cd & Hcd & Hp). split; [eauto|].
    pose proof (Hrank _ _ _ Hcd Hp). destruct (Hh m) as [_ Hge]; [set_solver|]. lia.
  - apply Hel. by left.
  - intros x xd [Hx|Hx]%Hel Hxr Hxd.
    + destruct (Hpar x xd Hx Hxr Hxd) as (p & ? & ?). exists p. set_solver.
    + destruct (children_values m md x Hm Hx) as (cd & Hcd & Hp). exists m. split; [set_solver|congruence].
  - intros p pd b c [Hp| ->%list_elem_of_singleton]%elem_of_app Hpd Hc; apply Hel.
    + left. by eapply Hch.
    + right. apply dict_values_elem; [by apply (wf_dict t Hwf m)|]. exists b. congruence.
Qed.

Lemma subtree_loop_spec fuel V stack :
  walk_inv V stack -> (size (heap t) <= fuel + length V)%nat ->
  exists W, subtree_loop fuel t stack = Ok (mjoin (seg_of t <$> W)) /\ walk_inv (V ++ W) [].
Proof.
  revert V stack. induction fuel as [|fuel IH]; intros V stack Hi Hf.
  - destruct stack as [|m stack]; [exists []; by rewrite app_nil_r|]. exfalso.
    assert (length (V ++ m :: stack) <= size (heap t))%nat as Hle.
    { rewrite <- size_dom, <- (size_list_to_set (C:=gset nat)) by apply (walk_nodup _ _ Hi).
      apply subseteq_size. intros x. rewrite elem_of_list_to_set. intros Hx.
      apply elem_of_dom. by apply (walk_heap _ _ Hi). }
    rewrite length_app in Hle. simpl in *. lia.
  - destruct stack as [|m stack]; [exists []; by rewrite app_nil_r|].
    destruct (walk_heap _ _ Hi m) as [[md Hm] _]; [set_solver|].
    destruct (IH _ _ (walk_inv_push _ _ _ _ Hi Hm)) as (W & HW & Hinv); [rewrite length_app; simpl; lia|].
    exists (m :: W). simpl. rewrite (node_at_Ok _ _ _ Hm). bind_simpl. rewrite HW. bind_simpl. split.
    + unfold seg_of at 2. by rewrite Hm.
    + by rewrite <- (app_assoc V [m] W) in Hinv.
Qed.

Lemma walk_inv_start nd : heap t !! root = Some nd -> walk_inv [] [root].
Proof.
  intros Hr. split; simpl.
  - apply NoDup_singleton.
  - intros m ->%list_elem_of_singleton. eauto.
  - by left.
  - by intros m md ->%list_elem_of_singleton.
  - by intros p pd b c Hp%elem_of_nil.
Qed.

Lemma segs_NoDup W :
  NoDup W -> (forall m, m ∈ W -> is_Some (heap t !! m)) -> NoDup (mjoin (seg_of t <$> W)).
Proof.
  induction W as [|m W IH]; simpl; [constructor|].
  intros [Hm Hnd]%NoDup_cons Hh. destruct (Hh m) as [md Hmd]; [by left|].
  assert (seg_of t m = segment md) as -> by (unfold seg_of; by rewrite Hmd).
  apply NoDup_app. split_and!; [by eapply wf_nodup| |apply IH; [done|]; intros; apply Hh; by right].
  intros x [i Hi]%list_elem_of_lookup (seg & Hx & (c & -> & Hc)%list_elem_of_fmap)%list_elem_of_join.
  destruct (Hh c) as [cd Hcd]; [by right|]. unfold seg_of in Hx. rewrite Hcd in Hx.
  apply list_elem_of_lookup in Hx as [j Hj].
  by destruct (wf_disjoint t Hwf _ _ _ _ _ _ _ Hmd Hcd Hi Hj) as [-> _].
Qed.

(** The blocks a completed walk collects from [root] on. *)
Definition walked (W : list nat) (i : nat) (x : bytes) : Prop :=
  exists m md j, m ∈ root :: W /\ heap t !! m = Some md /\ segment md !! j = Some x /\
    (m = root -> (i <= j)%nat).

Lemma walk_elems W i nd x :
  walk_inv (root :: W) [] -> heap t !! root = Some nd ->
  x ∈ drop i (segment nd) ++ mjoin (seg_of t <$> W) <-> walked W i x.
Proof.
  intros [Hnd Hh _ _ _] Hr. rewrite app_nil_r in Hnd, Hh. apply NoDup_cons in Hnd as [HrW _].
  rewrite elem_of_app, list_elem_of_join. split.
  - intros [[j Hj]%list_elem_of_lookup|(seg & Hx & (m & -> & Hm)%list_elem_of_fmap)].
    + rewrite lookup_drop in Hj. exists root, nd, (i + j)%nat. split_and!; [by left|done|done|lia].
    + destruct (Hh m) as [[md Hmd] _]; [by right|]. unfold seg_of in Hx. rewrite Hmd in Hx.
      apply list_elem_of_lookup in Hx as [j Hj]. exists m, md, j.
      split_and!; [by right|done|done|]. by intros ->.
  - intros (m & md & j & [->|Hm]%elem_of_cons & Hmd & Hj & Hge).
    + left. apply list_elem_of_lookup. exists (j - i)%nat. rewrite lookup_drop.
      replace md with nd in * by congruence. specialize (Hge eq_refl).
      by replace (i + (j - i))%nat with j by lia.
    + right. exists (segment md). split; [by eapply list_elem_of_lookup_2|].
      apply list_elem_of_fmap. exists m. split; [|done]. unfold seg_of. by rewrite Hmd.
Qed.

Lemma walked_descends W i nd b x :
  walk_inv (root :: W) [] -> heap t !! root = Some nd -> segment nd !! i = Some b ->
  walked W i x -> descends t b x.
Proof.
  intros [_ Hh _ Hpar _] Hr Hb (m & md & j & Hm & Hmd & Hj & Hge). rewrite app_nil_r in Hh, Hpar.
  remember (rank m) as k eqn:Hk. revert m md j x Hk Hm Hmd Hj Hge.
  induction (lt_wf k) as [k _ IHk]. intros m md j x Hk Hm Hmd.
  revert x. induction j as [|j IHj]; intros x Hj Hge;
    pose proof (segment_parents t m md Hwf Hmd _ _ Hj) as Hpx; cbn in Hpx;
    destruct (decide (m = root)) as [Hmr|Hne].
  - specialize (Hge Hmr). subst m. replace md with nd in * by congruence.
    replace i with 0%nat in Hb by lia. replace x with b by congruence. constructor.
  - destruct (Hpar m md Hm Hne Hmd) as (p & Hp & Hpm). destruct (Hh p Hp) as [[pd Hpd] Hge'].
    rewrite Hpm, Hpd in Hpx.
    assert (is_Some (last (segment pd))) as [y Hy].
    { destruct (last (segment pd)) eqn:E; [eauto|]. apply last_None in E. exfalso.
      destruct (decide (p = root)) as [->|Hpr].
      - replace pd with nd in E by congruence. by rewrite E in Hb.
      - destruct (Hpar p pd Hp Hpr Hpd) as (q & _ & Hq).
        destruct (wf_seg t Hwf p pd Hpd) as [? _]; [|done].
        intros Hp0. apply (wf_root_parent t Hwf p pd Hpd) in Hp0. congruence. }
    rewrite Hy in Hpx. eapply rtc_l; [exact Hpx|]. pose proof (Hrank _ _ _ Hmd Hpm) as Hlt.
    rewrite last_lookup in Hy.
    eapply (IHk (rank p) ltac:(lia) p pd _ y eq_refl Hp Hpd Hy). intros ->.
    replace pd with nd in * by congruence. apply lookup_lt_Some in Hb. lia.
  - subst m. replace md with nd in * by congruence. destruct (decide (i = S j)) as [->|Hij].
    + replace x with b by congruence. constructor.
    + specialize (Hge eq_refl). destruct (lookup_lt_is_Some_2 (segment nd) j) as [y Hy].
      { apply lookup_lt_Some in Hj. lia. }
      rewrite Hy in Hpx. eapply rtc_l; [exact Hpx|]. apply IHj; [done|lia].
  - destruct (lookup_lt_is_Some_2 (segment md) j) as [y Hy].
    { apply lookup_lt_Some in Hj. lia. }
    rewrite Hy in Hpx. eapply rtc_l; [exact Hpx|]. by apply IHj.
Qed.

Lemma descends_walked W i nd b x :
  walk_inv (root :: W) [] -> heap t !! root = Some nd -> segment nd !! i = Some b ->
  descends t b x -> walked W i x.
Proof.
  intros [_ Hh _ _ Hch] Hr Hb Hd. rewrite app_nil_r in Hh, Hch.
  revert x Hd. refine (rtc_ind_l _ b _ _).
  - exists root, nd, i. split_and!; [by left|done|done|done].
  - intros x y Hxy _ (m & md & j & Hm & Hmd & Hj & Hge).
    apply (block_child_cases t y x m j md Hwf Hmd Hj) in Hxy as [Hx|[Hlen [c Hc]]].
    + exists m, md, (S j). split_and!; [done..|]. intros E. specialize (Hge E). lia.
    + destruct (wf_down t Hwf _ _ _ _ Hmd Hc) as (cd & Hcd & Hp & Hhd).
      exists c, cd, 0%nat. split_and!; [by eapply Hch|done|by destruct (segment cd)|].
      intros ->. pose proof (Hrank _ _ _ Hcd Hp). destruct (Hh m Hm). lia.
Qed.
End subtree.

(** [subtree_block_ids] lists each descendant exactly once. *)
Lemma subtree_block_ids_present t b p :
  tree_wf t -> block_parent t b = Some p ->
  exists l, subtree_block_ids t b = Ok l /\ NoDup l /\ forall x, x ∈ l <-> descends t b x.
Proof.
  intros Hwf Hb. destruct (block_parent_location _ _ _ Hwf Hb) as (n & i & nd & Hl & Hn & Hi).
  destruct (wf_rank t Hwf) as [rank Hr].
  unfold subtree_block_ids. rewrite Hl, (node_at_Ok _ _ _ Hn). bind_simpl.
  pose proof (walk_inv_push t n rank Hwf Hr [] n nd [] (walk_inv_start t n rank nd Hn) Hn) as Hinv.
  rewrite app_nil_r in Hinv. simpl in Hinv.
  destruct (subtree_loop_spec t n rank Hwf Hr (size (heap t)) _ _ Hinv) as (W & -> & HW); [simpl; lia|].
  simpl in HW. bind_simpl. eexists. split; [done|]. split.
  - pose proof (segs_NoDup t Hwf (n :: W)) as Hnd. simpl in Hnd.
    unfold seg_of at 1 in Hnd. rewrite Hn in Hnd. rewrite <- (take_drop i (segment nd)), <- app_assoc in Hnd.
    apply (NoDup_app (take i (segment nd))). apply Hnd.
    + pose proof (walk_nodup _ _ _ _ _ HW) as H. by rewrite app_nil_r in H.
    + intros m Hm. apply (walk_heap _ _ _ _ _ HW). by rewrite app_nil_r.
  - intros x. rewrite (walk_elems t n rank W i nd x HW Hn). split.
    + by apply (walked_descends t n rank Hwf Hr W i nd).
    + by apply (descends_walked t n rank Hwf Hr W i nd).
Qed.

(** ** Leaves and the empty tree *)

Lemma leaf_block_ids_spec t b :
  tree_wf t ->
  b ∈ leaf_block_ids t <->
    is_Some (block_parent t b) /\ forall x, block_parent t x <> Some (Some b).
Proof.
  intros Hwf. unfold leaf_block_ids. rewrite (wf_leaf t Hwf). split.
  - intros (n & nd & Hn & Hl & Hi). rewrite last_lookup in Hl. split.
    + rewrite (segment_parents t n nd Hwf Hn _ _ Hl). eauto.
    + intros x Hx. apply (block_child_cases t b x n _ nd Hwf Hn Hl) in Hx as [Hx|[_ [c Hc]]].
      * apply lookup_lt_Some in Hl, Hx. lia.
      * by rewrite (proj1 (dict_items_nil _) Hi) in Hc.
  - intros [[p Hb] Hno]. destruct (remove_block_run t b p Hwf Hb Hno)
      as (n & nd & q & qd & i & _ & Hn & Hi & Hlen & Hit & _).
    exists n, nd. split_and!; [done| |done]. by rewrite last_lookup, <- Hlen.
Qed.

Lemma empty_backend_wf : tree_wf empty_backend.
Proof.
  assert (forall n nd, heap empty_backend !! n = Some nd <-> n = 0%nat /\ nd = mkNode [] None ∅) as Hh.
  { intros n nd. simpl. rewrite lookup_singleton_Some. naive_solver. }
  split.
  - exists ∅. by apply Hh.
  - intros n nd [-> _]%Hh. simpl. lia.
  - by intros n nd [-> _]%Hh.
  - intros c cd p [_ ->]%Hh. done.
  - intros p pd b c [_ ->]%Hh. done.
  - intros n nd [_ ->]%Hh. apply dict_wf_empty.
  - intros b n i. split; [done|]. by intros (nd & [_ ->]%Hh & ?).
  - intros b. split; [done|]. by intros (n & nd & [_ ->]%Hh & ? & _).
  - exists (fun n => n). by intros c cd p [_ ->]%Hh.
Qed.

Lemma empty_backend_parent b : block_parent empty_backend b = None.
Proof. done. Qed.
