(* ===== verification/RadixForest.v ===== *)
(** * The forest interface and its radix-tree implementation

    [BlockForest] is what the prefix index asks of its backend, stated over
    the abstract forest of blocks; the radix tree of [RadixTree.v] is an
    instance.  The theorems at the end state the same contract operation by
    operation, errors included. *)

From stdpp Require Import base gmap list strings.
From Stdlib Require Import ZArith Lia.
From Stdlib.Init Require Import Byte.
From S2P Require Import Prelude PyDict PyBytes RadixTree RadixTreeFacts RadixWalks.

Definition missing_block : PyExn :=
  KeyError "Prefix cache block id is not present in radix tree.".
Definition missing_parent : PyExn :=
  KeyError "Prefix cache parent block id is not present in radix tree.".
Definition live_children : PyExn :=
  RuntimeError "Cannot remove a prefix cache tree block with live children.".

(** A forest: the parent of each block it holds. *)
Definition forest := bytes -> option (option bytes).

(** The parent a new block needs is there. *)
Definition parent_present (f : forest) (p : option bytes) : Prop :=
  match p with Some q => is_Some (f q) | None => True end.
#[export] Instance parent_present_dec f p : Decision (parent_present f p).
Proof. destruct p; simpl; apply _. Defined.

(** [x] is [b] or lies below it. *)
Definition below (f : forest) (b x : bytes) : Prop :=
  rtc (fun x y => f x = Some (Some y)) x b.

(** ** The interface *)

Class BlockForest (T : Type) := {
  forest_empty : T;
  forest_insert : option bytes -> bytes -> Act PyExn T unit;
  forest_remove : bytes -> Act PyExn T unit;
  forest_lookup : T -> list bytes -> Z -> exc RadixLookupResult;
  forest_path : T -> bytes -> exc (list bytes);
  forest_subtree : T -> bytes -> exc (list bytes);
  forest_child_count : T -> bytes -> exc Z;
  forest_child_ids : T -> bytes -> exc (list bytes);
  forest_leaf_ids : T -> gset bytes;

  forest_of : T -> forest;
  forest_wf : T -> Prop;

  forest_empty_wf : forest_wf forest_empty;
  forest_empty_of b : forest_of forest_empty b = None;
  forest_ranked t : forest_wf t -> exists rank : bytes -> nat,
    forall x y, forest_of t x = Some (Some y) -> (rank y < rank x)%nat /\ is_Some (forest_of t y);
  forest_insert_new t p b :
    forest_wf t -> forest_of t b = None -> parent_present (forest_of t) p ->
    exists t', forest_insert p b t = (Ok tt, t') /\ forest_wf t' /\
      forall x, forest_of t' x = if decide (x = b) then Some p else forest_of t x;
  forest_remove_leaf t b :
    forest_wf t -> is_Some (forest_of t b) -> (forall x, forest_of t x <> Some (Some b)) ->
    exists t', forest_remove b t = (Ok tt, t') /\ forest_wf t' /\
      forall x, forest_of t' x = if decide (x = b) then None else forest_of t x;
  forest_children t b :
    forest_wf t -> is_Some (forest_of t b) ->
    exists l, forest_child_ids t b = Ok l /\ NoDup l /\
      forest_child_count t b = Ok (Z.of_nat (length l)) /\
      forall x, x ∈ l <-> forest_of t x = Some (Some b);
  forest_children_absent t b :
    forest_wf t -> forest_of t b = None ->
    forest_child_ids t b = Raise missing_block /\ forest_child_count t b = Raise missing_block;
  forest_leaves t b :
    forest_wf t -> b ∈ forest_leaf_ids t <->
      is_Some (forest_of t b) /\ forall x, forest_of t x <> Some (Some b);
  forest_subtree_spec t b :
    forest_wf t -> is_Some (forest_of t b) ->
    exists l, forest_subtree t b = Ok l /\ NoDup l /\
      forall x, x ∈ l <-> below (forest_of t) b x;
  forest_path_spec t b :
    forest_wf t -> is_Some (forest_of t b) ->
    exists l, forest_path t b = Ok l /\ last l = Some b /\
      forall i x, l !! i = Some x ->
        forest_of t x = Some (match i with O => None | S j => l !! j end);
  forest_lookup_spec t ids n :
    forest_wf t -> exists h,
      let lim := Z.to_nat (Z.min n (Z.of_nat (length ids))) in
      forest_lookup t ids n = Ok (mkLookup (Z.of_nat h) (last (take h ids))) /\
      (h <= lim)%nat /\
      (forall i x, (i < h)%nat -> ids !! i = Some x ->
        forest_of t x = Some (match i with O => None | S j => ids !! j end)) /\
      (forall x, (h < lim)%nat -> ids !! h = Some x ->
        forest_of t x <> Some (last (take h ids)));
}.

(** ** The radix tree implements it *)

Lemma insert_child_wf t p b : tree_wf t -> tree_wf (insert_child p b t).2.
Proof.
  intros Hwf. destruct (block_parent t b) as [q|] eqn:Hb.
  - rewrite insert_child_present by eauto. done.
  - destruct (decide (parent_present (block_parent t) p)) as [Hp|Hp].
    + by destruct (insert_child_new t p b Hwf Hb Hp) as (t' & -> & ? & _).
    + destruct p as [q|]; [|by destruct Hp]. simpl in Hp.
      rewrite insert_child_orphan; [done..|]. by apply eq_None_not_Some.
Qed.

Lemma lookup_blocks_longest t ids n :
  tree_wf t -> exists h,
    let lim := Z.to_nat (Z.min n (Z.of_nat (length ids))) in
    lookup_blocks t ids n = Ok (mkLookup (Z.of_nat h) (last (take h ids))) /\
    (h <= lim)%nat /\
    (forall i x, (i < h)%nat -> ids !! i = Some x ->
      block_parent t x = Some (match i with O => None | S j => ids !! j end)) /\
    (forall x, (h < lim)%nat -> ids !! h = Some x ->
      block_parent t x <> Some (last (take h ids))).
Proof.
  intros Hwf. rewrite (lookup_blocks_run t ids n Hwf).
  set (lim := Z.to_nat (Z.min n (Z.of_nat (length ids)))). cbv zeta. fold lim.
  set (h := prefix_hits t None (take lim ids)). exists h.
  assert (h <= lim)%nat as Hle.
  { pose proof (prefix_hits_le t None (take lim ids)) as H. rewrite length_take in H. subst h. lia. }
  assert (take h (take lim ids) = take h ids) as Ht by (rewrite take_take; f_equal; lia).
  rewrite Ht. split_and!; [done|done| |].
  - intros i x Hi Hx.
    rewrite (prefix_hits_path t None (take lim ids) i x Hi) by (rewrite lookup_take_lt by lia; done).
    f_equal. destruct i; [done|]. by rewrite lookup_take_lt by lia.
  - intros x Hlt Hx. pose proof (prefix_hits_maximal t None (take lim ids) x) as H.
    fold h in H. rewrite lookup_take_lt in H by lia. specialize (H Hx).
    rewrite Ht in H. unfold last_or in H. by destruct (last (take h ids)).
Qed.

Lemma block_ranked t : tree_wf t -> exists rank : bytes -> nat,
  forall x y, block_parent t x = Some (Some y) -> (rank y < rank x)%nat /\ is_Some (block_parent t y).
Proof.
  intros Hwf.
  exists (fun b => match path_to_block t b with Ok l => length l | Raise _ => O end).
  intros x y Hx. destruct (path_to_block_present t x _ Hwf Hx) as (l & -> & Hl & Hp).
  pose proof Hl as Hl'. apply last_snoc_inv in Hl' as [l' ->].
  destruct (path_in_snoc_inv _ _ _ Hp) as [Hp' Hx']. rewrite Hx in Hx'. injection Hx' as Hy.
  symmetry in Hy. pose proof Hy as Hy'. apply last_snoc_inv in Hy' as [l0 ->].
  destruct (path_in_snoc_inv _ _ _ Hp') as [_ Hyp].
  destruct (path_to_block_present t y _ Hwf Hyp) as (l2 & -> & Hl2 & Hp2).
  assert (l2 = l0 ++ [y]) as -> by (apply (path_in_unique (block_parent t)); [done..|congruence]).
  split; [|eauto]. rewrite !length_app. simpl. lia.
Qed.

#[export] Instance radix_forest : BlockForest RadixTreeBackend.
Proof.
  refine {| forest_empty := empty_backend; forest_insert := insert_child;
    forest_remove := remove_block; forest_lookup := lookup_blocks;
    forest_path := path_to_block; forest_subtree := subtree_block_ids;
    forest_child_count := child_count; forest_child_ids := child_block_ids;
    forest_leaf_ids := leaf_block_ids; forest_of := block_parent; forest_wf := tree_wf |}.
  - exact empty_backend_wf.
  - exact empty_backend_parent.
  - exact block_ranked.
  - exact insert_child_new.
  - intros t b Hwf [p Hp]. by apply (remove_block_leaf t b p).
  - exact child_block_ids_spec.
  - intros t b Hwf Hb%block_parent_None; [|done]. unfold child_block_ids, child_count. by rewrite Hb.
  - exact leaf_block_ids_spec.
  - intros t b Hwf [p Hp]. by apply (subtree_block_ids_present t b p).
  - intros t b Hwf [p Hp]. by apply (path_to_block_present t b p).
  - exact lookup_blocks_longest.
Defined.

(** ** The contract, operation by operation *)

(** A three-block tree: [01] with children [02] and [03]. *)
Definition sample_tree : RadixTreeBackend :=
  (insert_child (Some [x01]) [x03]
     (insert_child (Some [x01]) [x02] (insert_child None [x01] empty_backend).2).2).2.

Lemma sample_tree_wf : tree_wf sample_tree.
Proof. do 3 apply insert_child_wf. exact empty_backend_wf. Qed.

(** C19: [insert_child] on a well-formed tree: a known block changes nothing,
    an unknown parent raises [KeyError] and changes nothing, and otherwise the
    forest gains exactly the block [b] under [p]; the tree stays well formed
    (edges split between blocks, locations and leaves maintained). *)
Theorem insert_child_refines t p b :
  tree_wf t ->
  let '(out, t') := insert_child p b t in
  tree_wf t' /\
  if decide (is_Some (block_parent t b)) then out = Ok tt /\ t' = t
  else if decide (parent_present (block_parent t) p) then
    out = Ok tt /\
    forall x, block_parent t' x = if decide (x = b) then Some p else block_parent t x
  else out = Raise missing_parent /\ t' = t.
Proof.
  intros Hwf. destruct (decide (is_Some (block_parent t b))) as [Hb|Hb].
  - by rewrite insert_child_present.
  - apply eq_None_not_Some in Hb.
    destruct (decide (parent_present (block_parent t) p)) as [Hp|Hp].
    + by destruct (insert_child_new t p b Hwf Hb Hp) as (t' & -> & ? & ?).
    + destruct p as [q|]; [|by destruct Hp]. apply eq_None_not_Some in Hp.
      by rewrite (insert_child_orphan t q b Hwf Hb Hp).
Qed.

Lemma insert_child_refines_witness :
  tree_wf (insert_child (Some [x02]) [x04] sample_tree).2.
Proof.
  pose proof (insert_child_refines sample_tree (Some [x02]) [x04] sample_tree_wf) as H.
  destruct (insert_child (Some [x02]) [x04] sample_tree) as [out t']. apply H.
Defined.

(** [remove_block] removes exactly a childless block; a block with
    children is refused with [RuntimeError] and an unknown one with
    [KeyError], both without touching the tree. *)
Theorem remove_block_refines t b :
  tree_wf t ->
  let '(out, t') := remove_block b t in
  tree_wf t' /\
  if decide (is_Some (block_parent t b)) then
    if decide (b ∈ leaf_block_ids t) then
      out = Ok tt /\
      forall x, block_parent t' x = if decide (x = b) then None else block_parent t x
    else out = Raise live_children /\ t' = t
  else out = Raise missing_block /\ t' = t.
Proof.
  intros Hwf. destruct (decide (is_Some (block_parent t b))) as [Hb|Hb].
  - destruct (decide (b ∈ leaf_block_ids t)) as [Hl|Hl].
    + apply (leaf_block_ids_spec t b Hwf) in Hl as [[p Hp] Hno].
      by destruct (remove_block_leaf t b p Hwf Hp Hno) as (t' & -> & ? & ?).
    + destruct (child_block_ids_spec t b Hwf Hb) as (l & _ & _ & _ & Hel).
      destruct l as [|x l].
      * exfalso. apply Hl, (leaf_block_ids_spec t b Hwf). split; [done|].
        intros x Hx%Hel. by apply elem_of_nil in Hx.
      * assert (block_parent t x = Some (Some b)) as Hx by (apply Hel; by left).
        by rewrite (remove_block_inner t b x Hwf Hx Hb).
  - apply eq_None_not_Some in Hb. by rewrite (remove_block_absent t b Hwf Hb).
Qed.

Lemma remove_block_refines_witness : tree_wf (remove_block [x03] sample_tree).2.
Proof.
  pose proof (remove_block_refines sample_tree [x03] sample_tree_wf) as H.
  destruct (remove_block [x03] sample_tree) as [out t']. apply H.
Defined.

(** [lookup] finds the longest cached prefix: it terminates without an
    error, the ids it counts form a path from the root, the last one is
    reported, and the next id (within the limit) does not extend the path. *)
Theorem lookup_longest_prefix t ids n :
  tree_wf t -> exists h,
    let lim := Z.to_nat (Z.min n (Z.of_nat (length ids))) in
    lookup_blocks t ids n = Ok (mkLookup (Z.of_nat h) (last (take h ids))) /\
    (h <= lim)%nat /\ is_path t (take h ids) /\
    (forall x, (h < lim)%nat -> ids !! h = Some x ->
      block_parent t x <> Some (last (take h ids))).
Proof.
  intros Hwf. destruct (lookup_blocks_longest t ids n Hwf) as (h & Hr & Hle & Hp & Hm).
  exists h. split_and!; [done|done| |done].
  intros i x [Hx Hi]%lookup_take_Some. rewrite (Hp i x Hi Hx). f_equal.
  destruct i; [done|]. by rewrite lookup_take_lt by lia.
Qed.

Lemma lookup_longest_prefix_witness :
  exists h, lookup_blocks sample_tree [[x01]; [x03]; [x02]] 3 =
    Ok (mkLookup (Z.of_nat h) (last (take h [[x01]; [x03]; [x02]]))).
Proof.
  destruct (lookup_longest_prefix sample_tree [[x01]; [x03]; [x02]] 3 sample_tree_wf)
    as (h & Hr & _). exists h. exact Hr.
Defined.

(** [path_to_block] of a cached block terminates with the chain of its
    ancestors in root-to-block order, the only path that ends with the block;
    an unknown block raises [KeyError]. *)
Theorem path_to_block_chain t b :
  tree_wf t ->
  match path_to_block t b with
  | Ok l => last l = Some b /\ is_path t l /\
      forall l', is_path t l' -> last l' = Some b -> l' = l
  | Raise e => block_parent t b = None /\ e = missing_block
  end.
Proof.
  intros Hwf. destruct (block_parent t b) as [p|] eqn:Hb.
  - destruct (path_to_block_present t b p Hwf Hb) as (l & -> & Hl & Hp).
    split_and!; [done..|]. intros l' Hp' Hl'. apply (path_in_unique (block_parent t)); [done..|congruence].
  - by rewrite path_to_block_absent.
Qed.

Lemma path_to_block_chain_witness : tree_wf sample_tree /\
  path_to_block sample_tree [x03] = Ok [[x01]; [x03]] /\ is_path sample_tree [[x01]; [x03]].
Proof.
  split; [exact sample_tree_wf|]. split; [vm_compute; reflexivity|].
  pose proof (path_to_block_chain sample_tree [x03] sample_tree_wf) as H.
  replace (path_to_block sample_tree [x03]) with (Ok (E := PyExn) [[x01]; [x03]]) in H
    by (vm_compute; reflexivity).
  apply H.
Defined.

(** [subtree_block_ids] terminates and lists the block and all its
    descendants, each exactly once; [child_block_ids] lists the children and
    [child_count] counts them; [leaf_block_ids] holds the blocks that have
    none. *)
Theorem subtree_and_children t b :
  tree_wf t -> is_Some (block_parent t b) ->
  (exists l, subtree_block_ids t b = Ok l /\ NoDup l /\
     forall x, x ∈ l <-> below (block_parent t) b x) /\
  (exists l, child_block_ids t b = Ok l /\ NoDup l /\
     child_count t b = Ok (Z.of_nat (length l)) /\
     (forall x, x ∈ l <-> block_parent t x = Some (Some b)) /\
     (b ∈ leaf_block_ids t <-> l = [])).
Proof.
  intros Hwf [p Hb]. split; [by apply (subtree_block_ids_present t b p)|].
  destruct (child_block_ids_spec t b Hwf) as (l & Hl & Hnd & Hc & Hel); [eauto|].
  exists l. split_and!; [done..|]. rewrite (leaf_block_ids_spec t b Hwf). split.
  - intros [_ Hno]. destruct l as [|x l]; [done|]. exfalso. apply (Hno x), Hel. by left.
  - intros ->. split; [eauto|]. intros x Hx%Hel. by apply elem_of_nil in Hx.
Qed.

Lemma subtree_and_children_witness : exists l,
  subtree_block_ids sample_tree [x01] = Ok l /\ NoDup l.
Proof.
  destruct (subtree_and_children sample_tree [x01] sample_tree_wf) as [(l & Hl & Hnd & _) _].
  - vm_compute. eauto.
  - exists l. split; [exact Hl|exact Hnd].
Defined.
