(* ===== verification/PrefixHash.v ===== *)
(** * Block sizes, block ids and routing snapshots

    [engine/prefix_cache.py]: how many prompt tokens a cache hit may cover,
    the block size a configuration resolves to, the content address of a full
    block, and [PrefixCacheRoutingSnapshot.match]. *)

From stdpp Require Import base gmap list strings.
From Stdlib Require Import ZArith Lia.
From Stdlib.Init Require Import Byte.
From S2P Require Import Prelude PyDict PyBytes Sha256 RoutingMembership.

(** ** Usable tokens and block size *)

Definition usable_prefix_cache_tokens (prompt_len block_size : Z) : exc Z :=
  if block_size <=? 0 then Raise (ValueError "prefix cache block_size must be > 0")
  else if prompt_len <=? 1 then Ok 0
  else Ok ((prompt_len - 1) / block_size * block_size).

(** What [config.prefix_cache_block_size] may hold: [bool] is an [int] in
    Python, so the code tells the two apart. *)
Inductive ConfiguredSize :=
| SizeNone
| SizeInt (v : Z)
| SizeBool (b : bool)
| SizeOther.

(** The configuration fields the function reads. *)
Record PrefixSizeConfig := mkSizeConfig {
  prefix_cache_block_size : ConfiguredSize;
  sparse_method : string;
  quest_chunk_size : Z;
  linear_attention_layer_indices : list Z;
}.

(** [a % b] *)
Definition py_mod (a b : Z) : exc Z :=
  if b =? 0 then Raise ZeroDivisionError else Ok (a mod b).

Definition resolve_prefix_cache_block_size (config : PrefixSizeConfig) : exc Z :=
  configured ← match prefix_cache_block_size config with
               | SizeNone => Ok None
               | SizeInt v => Ok (Some v)
               | SizeBool _ | SizeOther =>
                   Raise (ValueError "prefix_cache_block_size must be a positive integer")
               end;
  if String.eqb (sparse_method config) "quest" then
    let chunk := quest_chunk_size config in
    if bool_decide (linear_attention_layer_indices config <> []) then
      let block_size := default chunk configured in
      let bad := Raise (ValueError "mixed Quest prefix_cache_block_size must be a positive multiple of quest_chunk_size") in
      if block_size <=? 0 then bad
      else
        rem ← py_mod block_size chunk;
        if negb (rem =? 0) then bad else Ok block_size
    else
      match configured with
      | Some v =>
          if negb (v =? chunk) then
            Raise (ValueError "prefix_cache_block_size must equal quest_chunk_size for quest prefix caching")
          else Ok chunk
      | None => Ok chunk
      end
  else
    let block_size := default 16 configured in
    if block_size <=? 0 then Raise (ValueError "prefix_cache_block_size must be > 0")
    else Ok block_size.

(** ** Content addresses *)

Fixpoint pack_token_ids (token_ids : list Z) : exc bytes :=
  match token_ids with
  | [] => Ok []
  | t :: token_ids' =>
      b ← struct_pack_q t;
      rest ← pack_token_ids token_ids';
      Ok (b ++ rest)
  end.

(** The bytes fed to the hasher. *)
Definition block_preimage (fingerprint : bytes) (token_ids : list Z)
    (parent_block_id : option bytes) : exc bytes :=
  packed ← pack_token_ids token_ids;
  Ok (fingerprint ++ (match parent_block_id with None => [x00] | Some p => x01 :: p end) ++ packed).

Section hash.
Context `{Digest}.

Definition stable_prefix_block_id (fingerprint : bytes) (token_ids : list Z)
    (parent_block_id : option bytes) : exc bytes :=
  m ← block_preimage fingerprint token_ids parent_block_id;
  Ok (digest m).

(** [RadixPrefixIndex.stable_block_id] *)
Definition stable_block_id_of (block_size : Z) (fingerprint : bytes) (token_ids : list Z)
    (parent_block_id : option bytes) : exc bytes :=
  if negb (Z.of_nat (length token_ids) =? block_size)
  then Raise (ValueError "prefix cache blocks must be full")
  else stable_prefix_block_id fingerprint token_ids parent_block_id.

(** The [for start in range(...)] loop of [block_ids_for_tokens]. *)
Fixpoint block_ids_loop (n : nat) (block_size : Z) (fingerprint : bytes) (token_ids : list Z)
    (start : Z) (parent_block_id : option bytes) : exc (list bytes) :=
  match n with
  | O => Ok []
  | S n' =>
      block_id ← stable_block_id_of block_size fingerprint
        (slice start (start + block_size) token_ids) parent_block_id;
      rest ← block_ids_loop n' block_size fingerprint token_ids (start + block_size) (Some block_id);
      Ok (block_id :: rest)
  end.

(** [RadixPrefixIndex.block_ids_for_tokens], without its counter. *)
Definition block_ids_of_tokens (block_size : Z) (fingerprint : bytes) (token_ids : list Z)
    (max_tokens : option Z) : exc (list bytes) :=
  let token_limit := match max_tokens with
    | None => Z.of_nat (length token_ids)
    | Some m => Z.min m (Z.of_nat (length token_ids)) end in
  block_ids_loop (Z.to_nat (token_limit / block_size)) block_size fingerprint token_ids 0 None.

(** ** Routing snapshots *)

Record PrefixCacheRoutingSnapshot := mkSnapshot {
  supported : bool;
  enabled : bool;
  snapshot_method : string;
  snapshot_block_size : option Z;
  snapshot_fingerprint : bytes;
  snapshot_block_ids : gset bytes;
  routing_membership : option RoutingMembership;
  reason : option string;
}.

(** The report of [match]; [match_ratio] is the quotient before rounding. *)
Record MatchReport := mkReport {
  report_supported : bool;
  report_enabled : bool;
  report_method : string;
  report_block_size : option Z;
  prompt_tokens : option Z;
  usable_tokens : option Z;
  matched_tokens : Z;
  matched_blocks : Z;
  match_ratio : Z * Z;
  report_last_block_id : option bytes;
  report_live_blocks : option Z;
  report_reason : option string;
}.

Definition snapshot_contains (s : PrefixCacheRoutingSnapshot) (block_id : bytes) : bool :=
  match routing_membership s with
  | None => bool_decide (block_id ∈ snapshot_block_ids s)
  | Some m => membership_contains m block_id
  end.

(** The matching loop, which stops at the first missing block. *)
Fixpoint match_loop (n : nat) (s : PrefixCacheRoutingSnapshot) (block_size : Z)
    (token_ids : list Z) (start : Z) (hits : Z) (parent_block_id : option bytes) :
    exc (Z * option bytes) :=
  match n with
  | O => Ok (hits, parent_block_id)
  | S n' =>
      block_id ← stable_prefix_block_id (snapshot_fingerprint s)
        (slice start (start + block_size) token_ids) parent_block_id;
      if negb (snapshot_contains s block_id) then Ok (hits, parent_block_id)
      else match_loop n' s block_size token_ids (start + block_size) (hits + 1) (Some block_id)
  end.

Definition snapshot_match (s : PrefixCacheRoutingSnapshot) (token_ids : list Z) : exc MatchReport :=
  if negb (supported s) || negb (enabled s) then
    Ok (mkReport (supported s) (enabled s) (snapshot_method s) None None None 0 0 (0, 1) None None
          (reason s))
  else
    match snapshot_block_size s with
    | None => Raise (RuntimeError "Enabled prefix-cache routing snapshot has no valid block size.")
    | Some block_size =>
        if block_size <=? 0 then
          Raise (RuntimeError "Enabled prefix-cache routing snapshot has no valid block size.")
        else
          let n := Z.of_nat (length token_ids) in
          usable ← usable_prefix_cache_tokens n block_size;
          '(hits, last_id) ← match_loop (Z.to_nat (usable / block_size)) s block_size token_ids 0 0 None;
          let hit_len := hits * block_size in
          Ok (mkReport true true (snapshot_method s) (Some block_size) (Some n) (Some usable)
                hit_len hits (if usable <=? 0 then (0, 1) else (hit_len, usable)) last_id
                (Some (match routing_membership s with
                       | None => Z.of_nat (size (snapshot_block_ids s))
                       | Some m => live_blocks m end))
                None)
    end.
End hash.

(** ** Lemmas *)

Lemma usable_tokens_spec p bs :
  0 < bs -> exists u, usable_prefix_cache_tokens p bs = Ok u /\
    (bs | u) /\ 0 <= u /\ u <= Z.max 0 (p - 1) /\ Z.max 0 (p - 1) < u + bs.
Proof.
  intros Hbs. unfold usable_prefix_cache_tokens.
  destruct (Z.leb_spec bs 0); [lia|]. destruct (Z.leb_spec p 1).
  - exists 0. split_and!; [done|apply Z.divide_0_r|lia..].
  - eexists. split_and!; [done|by exists ((p - 1) / bs)|..].
    + apply Z.mul_nonneg_nonneg; [apply Z.div_pos|]; lia.
    + pose proof (Z.mul_div_le (p - 1) bs Hbs). lia.
    + pose proof (Z.mul_succ_div_gt (p - 1) bs Hbs). lia.
Qed.

Definition int64s (l : list Z) : bool := forallb in_int64 l.

Lemma pack_token_ids_ok l : int64s l = true ->
  exists b, pack_token_ids l = Ok b /\ length b = (8 * length l)%nat.
Proof.
  induction l as [|t l IH]; simpl; [eauto|]. intros [Ht Hl]%andb_true_iff.
  destruct (IH Hl) as (b & -> & Hb). unfold struct_pack_q. rewrite Ht. bind_simpl.
  eexists. split; [done|]. rewrite length_app, length_le_bytes, Hb. lia.
Qed.

Lemma pack_token_ids_inv l b : pack_token_ids l = Ok b -> int64s l = true.
Proof.
  revert b. induction l as [|t l IH]; simpl; intros b; [done|].
  unfold struct_pack_q. destruct (in_int64 t) eqn:Ht; [|done]. bind_simpl.
  destruct (pack_token_ids l) as [b'|]; [|done]. intros _. by rewrite (IH b').
Qed.

Lemma pack_cons_inv t l b : pack_token_ids (t :: l) = Ok b ->
  exists b', in_int64 t = true /\ pack_token_ids l = Ok b' /\ b = le_bytes 8 t ++ b'.
Proof.
  cbn [pack_token_ids]. unfold struct_pack_q. destruct (in_int64 t); [|done]. bind_simpl.
  destruct (pack_token_ids l) as [b'|]; [|done]. intros [= <-]. eauto.
Qed.

Lemma pack_token_ids_inj l1 l2 b :
  pack_token_ids l1 = Ok b -> pack_token_ids l2 = Ok b -> l1 = l2.
Proof.
  revert l2 b. induction l1 as [|t1 l1 IH]; intros [|t2 l2] b H1 H2; [done|..].
  - injection H1 as <-. by apply pack_cons_inv in H2 as (b' & _ & _ & ?).
  - injection H2 as <-. by apply pack_cons_inv in H1 as (b' & _ & _ & ?).
  - apply pack_cons_inv in H1 as (b1 & T1 & H1 & ->), H2 as (b2 & T2 & H2 & E).
    apply app_inj_1 in E as [Eh ->]; [|by rewrite !length_le_bytes].
    apply (le_bytes_inj _ _ T1 T2) in Eh as ->. f_equal. by eapply IH.
Qed.

(** Same-length fingerprints and digest-sized parents: the hashed bytes
    determine the fingerprint, the tokens and the parent. *)
Definition parent_sized (n : nat) (p : option bytes) : Prop :=
  match p with None => True | Some b => length b = n end.

Lemma block_preimage_inj n fp1 fp2 l1 l2 p1 p2 m :
  length fp1 = length fp2 -> parent_sized n p1 -> parent_sized n p2 ->
  block_preimage fp1 l1 p1 = Ok m -> block_preimage fp2 l2 p2 = Ok m ->
  fp1 = fp2 /\ l1 = l2 /\ p1 = p2.
Proof.
  unfold block_preimage. intros Hfp Hp1 Hp2 H1 H2.
  destruct (pack_token_ids l1) as [b1|] eqn:E1; [|done].
  destruct (pack_token_ids l2) as [b2|] eqn:E2; [|done].
  cbn [mbind outcome_bind] in H1, H2. injection H1 as <-. injection H2 as H2.
  apply app_inj_1 in H2 as [-> H2]; [|done]. split; [done|].
  destruct p1 as [q1|], p2 as [q2|]; simpl in Hp1, Hp2; try discriminate H2; injection H2 as H2.
  - apply app_inj_1 in H2 as [-> ->]; [|congruence]. split; [|done]. by eapply pack_token_ids_inj.
  - subst. split; [|done]. by eapply pack_token_ids_inj.
Qed.

Section ids.
Context `{Digest} (bs : Z) (fp : bytes) (Hbs : 0 < bs).

(** Block [i] of [toks]. *)
Definition block_tokens (toks : list Z) (i : nat) : list Z :=
  slice (Z.of_nat i * bs) (Z.of_nat i * bs + bs) toks.

Definition prev_id (ids : list bytes) (i : nat) : option bytes :=
  match i with O => None | S j => ids !! j end.

Lemma int64s_slice i j l : int64s l = true -> int64s (slice i j l) = true.
Proof.
  unfold int64s, slice. rewrite !forallb_forall. intros Hl x Hx. apply Hl.
  apply list_elem_of_In in Hx. apply list_elem_of_In.
  apply list_elem_of_lookup in Hx as [k [Hk _]%lookup_take_Some].
  rewrite lookup_drop in Hk. by eapply list_elem_of_lookup_2.
Qed.

Lemma stable_block_id_ok toks p :
  int64s toks = true -> Z.of_nat (length toks) = bs ->
  exists m, block_preimage fp toks p = Ok m /\
    stable_block_id_of bs fp toks p = Ok (digest m).
Proof.
  intros Ht Hl. unfold stable_block_id_of, stable_prefix_block_id, block_preimage.
  rewrite (proj2 (Z.eqb_eq _ _) Hl). destruct (pack_token_ids_ok _ Ht) as (b & -> & _).
  bind_simpl. eauto.
Qed.

Lemma block_ids_loop_ok n toks k p :
  int64s toks = true -> (Z.of_nat k + Z.of_nat n) * bs <= Z.of_nat (length toks) ->
  exists ids, block_ids_loop n bs fp toks (Z.of_nat k * bs) p = Ok ids /\ length ids = n.
Proof.
  intros Ht. revert k p. induction n as [|n IH]; intros k p Hlen; simpl; [by exists []|].
  destruct (stable_block_id_ok (slice (Z.of_nat k * bs) (Z.of_nat k * bs + bs) toks) p) as (m & _ & ->).
  { by apply int64s_slice. }
  { rewrite length_slice; nia. }
  bind_simpl. replace (Z.of_nat k * bs + bs) with (Z.of_nat (S k) * bs) by lia.
  destruct (IH (S k) (Some (digest m))) as (ids & -> & Hids); [lia|].
  bind_simpl. eexists. split; [done|]. simpl. lia.
Qed.

(** Each id is the address of its block below the previous id. *)
Lemma block_ids_loop_nth n toks k p ids i x :
  block_ids_loop n bs fp toks (Z.of_nat k * bs) p = Ok ids -> ids !! i = Some x ->
  stable_block_id_of bs fp (block_tokens toks (k + i))
    (match i with O => p | S j => ids !! j end) = Ok x.
Proof.
  revert k p ids i. induction n as [|n IH]; intros k p ids i; simpl; [by intros [= <-]|].
  destruct (stable_block_id_of _ _ _ p) as [b|] eqn:Hb; [|done]. bind_simpl.
  replace (Z.of_nat k * bs + bs) with (Z.of_nat (S k) * bs) by lia.
  destruct (block_ids_loop n _ _ _ _ _) as [rest|] eqn:Hr; [|done]. bind_simpl. intros [= <-].
  destruct i as [|i]; simpl.
  - intros [= <-]. rewrite Nat.add_0_r. exact Hb.
  - intros Hx. rewrite Nat.add_succ_r. rewrite <- (IH (S k) (Some b) rest i Hr Hx).
    by destruct i.
Qed.

Definition block_limit (toks : list Z) (mt : option Z) : nat :=
  Z.to_nat (match mt with None => Z.of_nat (length toks)
                        | Some m => Z.min m (Z.of_nat (length toks)) end / bs).

Lemma block_limit_le toks mt : Z.of_nat (block_limit toks mt) * bs <= Z.of_nat (length toks).
Proof.
  unfold block_limit. set (m := match mt with None => _ | Some _ => _ end).
  assert (m <= Z.of_nat (length toks)) by (subst m; destruct mt; lia).
  pose proof (Z.mul_div_le m bs Hbs). destruct (Z.le_gt_cases 0 (m / bs)); [nia|].
  rewrite Z2Nat.nonpos by lia. lia.
Qed.

Lemma block_ids_of_tokens_ok toks mt :
  int64s toks = true ->
  exists ids, block_ids_of_tokens bs fp toks mt = Ok ids /\ length ids = block_limit toks mt /\
    forall i x, ids !! i = Some x ->
      stable_block_id_of bs fp (block_tokens toks i) (prev_id ids i) = Ok x.
Proof.
  intros Ht. destruct (block_ids_loop_ok (block_limit toks mt) toks 0 None Ht) as (ids & Hids & Hlen).
  { pose proof (block_limit_le toks mt). lia. }
  exists ids. split_and!; [exact Hids|done|]. intros i x Hx.
  by rewrite <- (block_ids_loop_nth _ _ 0 _ _ _ _ Hids Hx).
Qed.

(** ** Collisions *)

(** Two given inputs of the hash are a collision: they differ and have one
    digest.  Digests have a fixed length, so some such pair always exists; a
    theorem below that ends in a collision names the two inputs. *)
Definition collide (a b : bytes) : Prop := a <> b /\ digest a = digest b.

(** The hash inputs of two blocks with their parents' ids collide. *)
Definition blocks_collide (toks1 : list Z) (p1 : option bytes) (toks2 : list Z) (p2 : option bytes) : Prop :=
  exists m1 m2, block_preimage fp toks1 p1 = Ok m1 /\ block_preimage fp toks2 p2 = Ok m2 /\ collide m1 m2.

Lemma stable_block_id_of_inv toks p x :
  stable_block_id_of bs fp toks p = Ok x ->
  Z.of_nat (length toks) = bs /\ exists m, block_preimage fp toks p = Ok m /\ x = digest m.
Proof.
  unfold stable_block_id_of, stable_prefix_block_id. destruct (Z.eqb_spec (Z.of_nat (length toks)) bs); [|done].
  simpl. destruct (block_preimage fp toks p); [|done]. bind_simpl. intros [= <-]. eauto.
Qed.

Lemma stable_block_id_agree toks1 toks2 p1 p2 x :
  parent_sized digest_size p1 -> parent_sized digest_size p2 ->
  stable_block_id_of bs fp toks1 p1 = Ok x -> stable_block_id_of bs fp toks2 p2 = Ok x ->
  (toks1 = toks2 /\ p1 = p2) \/ blocks_collide toks1 p1 toks2 p2.
Proof.
  intros Hp1 Hp2 (_ & m1 & H1 & ->)%stable_block_id_of_inv (_ & m2 & H2 & E)%stable_block_id_of_inv.
  destruct (decide (m1 = m2)) as [<-|Hne]; [|right; exists m1, m2; by split_and!]. left.
  by destruct (block_preimage_inj digest_size fp fp toks1 toks2 p1 p2 m1) as (_ & ? & ?).
Qed.

(** A list of ids that address the blocks of [toks] in order. *)
Definition addresses (toks : list Z) (ids : list bytes) : Prop :=
  forall i x, ids !! i = Some x ->
    stable_block_id_of bs fp (block_tokens toks i) (prev_id ids i) = Ok x.

Lemma addresses_sized toks ids i : addresses toks ids -> parent_sized digest_size (prev_id ids i).
Proof.
  intros Ha. destruct i as [|j]; simpl; [done|]. destruct (ids !! j) as [y|] eqn:Hy; [|done].
  apply Ha in Hy. apply stable_block_id_of_inv in Hy as (_ & m & _ & ->). apply length_digest.
Qed.

Lemma take_block toks (i : nat) :
  take (Z.to_nat (Z.of_nat (S i) * bs)) toks =
  take (Z.to_nat (Z.of_nat i * bs)) toks ++ block_tokens toks i.
Proof.
  unfold block_tokens, slice. rewrite take_take_drop. f_equal. nia.
Qed.

(** Two lists of ids collide below positions [i] and [j]: so do the hash
    inputs of the blocks the same distance below both. *)
Definition chains_collide (toks1 toks2 : list Z) (ids1 ids2 : list bytes) (i j : nat) : Prop :=
  exists k, (k <= i)%nat /\ (k <= j)%nat /\
    blocks_collide (block_tokens toks1 (i - k)) (prev_id ids1 (i - k)) (block_tokens toks2 (j - k)) (prev_id ids2 (j - k)).

Lemma chains_collide_here toks1 toks2 ids1 ids2 i j :
  blocks_collide (block_tokens toks1 i) (prev_id ids1 i) (block_tokens toks2 j) (prev_id ids2 j) ->
  chains_collide toks1 toks2 ids1 ids2 i j.
Proof. intros Hc. exists 0%nat. rewrite !Nat.sub_0_r. split_and!; [lia..|done]. Qed.

Lemma chains_collide_below toks1 toks2 ids1 ids2 i j :
  chains_collide toks1 toks2 ids1 ids2 i j -> chains_collide toks1 toks2 ids1 ids2 (S i) (S j).
Proof. intros (k & Hi & Hj & Hc). exists (S k). split_and!; [lia..|done]. Qed.

(** One id names one position and one token prefix, unless the hash inputs of
    two of the blocks up to it collide. *)
Lemma addresses_agree toks1 toks2 ids1 ids2 i j x :
  addresses toks1 ids1 -> addresses toks2 ids2 ->
  ids1 !! i = Some x -> ids2 !! j = Some x ->
  (i = j /\ take (Z.to_nat (Z.of_nat (S i) * bs)) toks1 =
           take (Z.to_nat (Z.of_nat (S j) * bs)) toks2) \/ chains_collide toks1 toks2 ids1 ids2 i j.
Proof.
  intros A1 A2. revert j x. induction i as [|i IH]; intros j x H1 H2.
  - destruct (stable_block_id_agree _ _ _ _ x (addresses_sized _ _ 0 A1) (addresses_sized _ _ j A2)
      (A1 _ _ H1) (A2 _ _ H2)) as [[Et Ep]|]; [|right; by apply chains_collide_here].
    destruct j as [|j].
    + left. split; [done|]. rewrite !take_block, Et. done.
    + simpl in Ep. apply lookup_lt_Some in H2.
      destruct (lookup_lt_is_Some_2 ids2 j) as [y Hy]; [lia|]. congruence.
  - destruct (stable_block_id_agree _ _ _ _ x (addresses_sized _ _ (S i) A1) (addresses_sized _ _ j A2)
      (A1 _ _ H1) (A2 _ _ H2)) as [[Et Ep]|]; [|right; by apply chains_collide_here].
    simpl in Ep. destruct (lookup_lt_is_Some_2 ids1 i) as [y Hy].
    { apply lookup_lt_Some in H1. lia. }
    destruct j as [|j]; simpl in Ep; [congruence|]. rewrite Hy in Ep.
    destruct (IH j y Hy (eq_sym Ep)) as [[-> Epre]|]; [|right; by apply chains_collide_below]. left. split; [done|].
    by rewrite !(take_block _ (S j)), Et, Epre.
Qed.

(** ** Matching a snapshot *)

Lemma match_loop_spec s n toks k p hits ids :
  snapshot_fingerprint s = fp ->
  block_ids_loop n bs fp toks (Z.of_nat k * bs) p = Ok ids ->
  let h := count_while (snapshot_contains s) ids in
  match_loop n s bs toks (Z.of_nat k * bs) hits p =
    Ok (hits + Z.of_nat h, last_or p (take h ids)).
Proof.
  intros Hfp. revert k p hits ids.
  induction n as [|n IH]; intros k p hits ids; simpl.
  { intros [= <-]. simpl. by rewrite Z.add_0_r. }
  destruct (stable_block_id_of bs fp _ p) as [b|] eqn:Hb; [|done]. bind_simpl.
  replace (Z.of_nat k * bs + bs) with (Z.of_nat (S k) * bs) in * by lia.
  destruct (block_ids_loop n _ _ _ _ _) as [rest|] eqn:Hr; [|done]. bind_simpl. intros [= <-].
  unfold stable_block_id_of in Hb. destruct (negb _); [done|]. rewrite Hfp, Hb. bind_simpl. simpl.
  destruct (snapshot_contains s b); simpl; [|by rewrite Z.add_0_r].
  rewrite (IH (S k) (Some b) (hits + 1) rest Hr). f_equal. f_equal; [lia|].
  exact (eq_sym (last_or_app p [b] _)).
Qed.
End ids.

(** ** The contract *)

(** A resolved block size is positive; it is the configured integer when
    there is one and otherwise the method's default; for Quest it is a
    multiple of the chunk size, equal to it on models without linear
    attention.  Every rejected configuration raises [ValueError]. *)
Theorem resolve_block_size_valid c :
  0 < quest_chunk_size c ->
  match resolve_prefix_cache_block_size c with
  | Ok b =>
      0 < b /\
      (forall v, prefix_cache_block_size c = SizeInt v -> b = v) /\
      (prefix_cache_block_size c = SizeNone ->
         b = if String.eqb (sparse_method c) "quest" then quest_chunk_size c else 16) /\
      (String.eqb (sparse_method c) "quest" = true ->
         (quest_chunk_size c | b) /\
         (linear_attention_layer_indices c = [] -> b = quest_chunk_size c))
  | Raise e => exists msg, e = ValueError msg
  end.
Proof.
  intros Hq. unfold resolve_prefix_cache_block_size, py_mod.
  destruct (prefix_cache_block_size c) as [|v|?|]; bind_simpl; [..|eauto|eauto];
    destruct (String.eqb (sparse_method c) "quest").
  - case_bool_decide; simpl; [|by auto using Z.divide_refl].
    destruct (Z.leb_spec (quest_chunk_size c) 0); [lia|].
    destruct (Z.eqb_spec (quest_chunk_size c) 0); [lia|]. bind_simpl.
    rewrite Z.mod_same by lia. simpl. by auto using Z.divide_refl.
  - simpl. done.
  - case_bool_decide; simpl.
    + destruct (Z.leb_spec v 0); [eauto|]. destruct (Z.eqb_spec (quest_chunk_size c) 0); [lia|]. bind_simpl.
      destruct (Z.eqb_spec (v mod quest_chunk_size c) 0) as [Hm|]; simpl; [|eauto].
      split_and!; [lia|congruence|done|]. intros _. split; [|done].
      apply Z.mod_divide; [lia|done].
    + destruct (Z.eqb_spec v (quest_chunk_size c)) as [->|]; simpl; [|eauto].
      split_and!; [lia|congruence|done|]. by auto using Z.divide_refl.
  - simpl. destruct (Z.leb_spec v 0); [eauto|]. split_and!; [lia|congruence|done|done].
Qed.

Lemma resolve_block_size_valid_witness :
  resolve_prefix_cache_block_size (mkSizeConfig (SizeInt 32) "quest" 16 [1]) = Ok 32 /\ (16 | 32).
Proof.
  pose proof (resolve_block_size_valid (mkSizeConfig (SizeInt 32) "quest" 16 [1]) eq_refl) as H.
  split; [vm_compute; reflexivity|]. apply H. reflexivity.
Defined.

(** Block ids address their content: when two token lists (hashed under
    one fingerprint and block size) share an id, it stands at the same
    position of both and the tokens up to the end of that block are the same,
    unless two of the blocks up to there, the same distance below that
    position, differ as inputs of the hash and have one digest. *)
Theorem block_ids_address_content `{Digest} bs fp toks1 toks2 max1 max2 ids1 ids2 i j x :
  0 < bs ->
  block_ids_of_tokens bs fp toks1 max1 = Ok ids1 ->
  block_ids_of_tokens bs fp toks2 max2 = Ok ids2 ->
  ids1 !! i = Some x -> ids2 !! j = Some x ->
  (i = j /\ take (Z.to_nat (Z.of_nat (S i) * bs)) toks1 =
           take (Z.to_nat (Z.of_nat (S j) * bs)) toks2) \/ chains_collide bs fp toks1 toks2 ids1 ids2 i j.
Proof.
  intros Hbs H1 H2. apply (addresses_agree bs fp Hbs); intros k y Hy.
  - by rewrite <- (block_ids_loop_nth bs fp _ _ 0 _ _ _ _ H1 Hy).
  - by rewrite <- (block_ids_loop_nth bs fp _ _ 0 _ _ _ _ H2 Hy).
Qed.

(** A transparent hash for concrete runs of the model: it keeps the input
    and pads it to a fixed length. *)
Definition toy_digest (m : bytes) : bytes := take 40 (m ++ replicate 40 x00).
Lemma length_toy_digest m : length (toy_digest m) = 40%nat.
Proof. unfold toy_digest. rewrite length_take, length_app, length_replicate. lia. Qed.
Definition toy : Digest := {| digest := toy_digest; digest_size := 40; length_digest := length_toy_digest |}.

Lemma block_ids_address_content_witness :
  match block_ids_of_tokens (H := toy) 1 [] [7; 8] None, block_ids_of_tokens (H := toy) 1 [] [7; 9] None with
  | Ok (x :: l), Ok (y :: l') => x = y /\ ([7] = [7] \/ chains_collide (H := toy) 1 [] [7; 8] [7; 9] (x :: l) (y :: l') 0 0)
  | _, _ => False
  end.
Proof.
  pose proof (block_ids_address_content (H := toy) 1 [] [7; 8] [7; 9] None None) as H.
  destruct (block_ids_of_tokens (H := toy) 1 [] [7; 8] None) as [[|x l]|] eqn:E1;
    vm_compute in E1; try discriminate E1.
  destruct (block_ids_of_tokens (H := toy) 1 [] [7; 9] None) as [[|y l']|] eqn:E2;
    vm_compute in E2; try discriminate E2.
  assert (x = y) as <- by congruence. split; [reflexivity|].
  destruct (H (x :: l) (x :: l') 0%nat 0%nat x ltac:(lia) eq_refl eq_refl eq_refl eq_refl) as [[_ Ht]|Hc].
  - left. reflexivity.
  - right. exact Hc.
Defined.

(** An enabled snapshot matches the longest cached prefix: on 64-bit
    token ids [match] returns without an error, counts the leading block ids
    that the snapshot contains, reports the last of them, and leaves at least
    one prompt token for the logits. *)
Theorem snapshot_match_longest `{Digest} s toks bs :
  supported s = true -> enabled s = true -> snapshot_block_size s = Some bs -> 0 < bs ->
  int64s toks = true ->
  exists usable ids r,
    usable_prefix_cache_tokens (Z.of_nat (length toks)) bs = Ok usable /\
    block_ids_of_tokens bs (snapshot_fingerprint s) toks (Some usable) = Ok ids /\
    snapshot_match s toks = Ok r /\
    let h := count_while (snapshot_contains s) ids in
    matched_blocks r = Z.of_nat h /\ matched_tokens r = Z.of_nat h * bs /\
    report_last_block_id r = last (take h ids) /\
    matched_tokens r <= Z.max 0 (Z.of_nat (length toks) - 1).
Proof.
  intros Hs He Hb Hbs Ht.
  destruct (usable_tokens_spec (Z.of_nat (length toks)) bs Hbs) as (u & Hu & [q Hq] & Hu0 & Hmax & _).
  destruct (block_ids_of_tokens_ok bs (snapshot_fingerprint s) Hbs toks (Some u) Ht) as (ids & Hids & Hlen & _).
  unfold snapshot_match. rewrite Hs, He, Hb. simpl. rewrite (proj2 (Z.leb_gt _ _) Hbs), Hu. bind_simpl.
  pose proof Hids as Hloop. unfold block_ids_of_tokens in Hloop.
  rewrite Z.min_l in Hloop by lia.
  pose proof (match_loop_spec bs _ s _ toks 0 None 0 ids eq_refl Hloop) as Hm. cbv zeta in Hm.
  change (Z.of_nat 0 * bs) with 0 in Hm. rewrite Hm. bind_simpl.
  exists u, ids. eexists. split_and!; [done|done|reflexivity|..]; simpl; try done.
  - unfold last_or. by destruct (last _).
  - pose proof (count_while_le (snapshot_contains s) ids) as Hle. unfold block_limit in Hlen.
    rewrite Z.min_l in Hlen by lia. rewrite Hq, Z.div_mul in Hlen by lia.
    assert (0 <= q) by nia. nia.
Qed.

Definition sample_snapshot : PrefixCacheRoutingSnapshot :=
  mkSnapshot true true "h2o" (Some 2) [] ∅ (Some sample_membership) None.

Lemma snapshot_match_longest_witness : exists r,
  snapshot_match (H := toy) sample_snapshot [7; 8; 9] = Ok r /\ matched_tokens r <= 2.
Proof.
  destruct (snapshot_match_longest (H := toy) sample_snapshot [7; 8; 9] 2 eq_refl eq_refl eq_refl eq_refl eq_refl)
    as (u & ids & r & _ & _ & Hr & _ & _ & _ & Hm).
  exists r. split; [exact Hr|exact Hm].
Defined.
