(* ===== verification/PrefixIndex.v ===== *)
(** * The prefix index

    [engine/prefix_cache.py], [RadixPrefixIndex]: the blocks of the prefix
    cache, their residency on device and host, reference counts, eviction and
    demotion, and the epochs that date its cached capacity views.

    A [PrefixCacheBlock] is a mutable object that callers keep references to
    (the index even compares identities), so blocks live in a store and are
    named by object numbers; [blocks] maps a block id to an object.  The
    backend is any [BlockForest]. *)

From stdpp Require Import base gmap list strings.
From Stdlib Require Import ZArith Lia.
From S2P Require Import Prelude PyDict PyBytes Sha256 RoutingMembership RadixTree RadixForest PrefixHash.

(** A reference to an object this component never looks into. *)
Abbreviation ObjRef := nat.

(** ** Residency *)

Inductive PrefixTransferKind := D2H | H2D.
#[export] Instance transfer_eq_dec : EqDecision PrefixTransferKind.
Proof. solve_decision. Defined.

Record PrefixBlockResidency := mkResidency {
  device_present : bool;
  host_present : bool;
  transfer : option PrefixTransferKind;
}.
#[export] Instance eta_residency : Eta PrefixBlockResidency := fun r =>
  mkResidency (device_present r) (host_present r) (transfer r).

Definition residency_validate (r : PrefixBlockResidency) : exc unit :=
  if negb (device_present r) && negb (host_present r) then
    Raise (RuntimeError "Prefix cache block has no resident payload.")
  else
    match transfer r with
    | Some D2H =>
        if negb (device_present r) || host_present r then
          Raise (RuntimeError "D2H prefix transfer requires a device payload and no published host payload.")
        else Ok tt
    | Some H2D =>
        if negb (device_present r) || negb (host_present r) then
          Raise (RuntimeError "H2D prefix transfer requires allocated device and host payloads.")
        else Ok tt
    | None => Ok tt
    end.

Record PrefixCacheBlock := mkBlock {
  stable_block_id : bytes;
  parent_block_id : option bytes;
  blk_size : Z;
  logical_block_idx : Z;
  payload : ObjRef;
  blk_token_ids : list Z;
  ref_count : Z;
  last_access : Z;
  eviction_priority : Z;
  residency : PrefixBlockResidency;
  prune_record : option ObjRef;
}.
#[export] Instance eta_block : Eta PrefixCacheBlock := fun r =>
  mkBlock (stable_block_id r) (parent_block_id r) (blk_size r) (logical_block_idx r) (payload r)
    (blk_token_ids r) (ref_count r) (last_access r) (eviction_priority r) (residency r) (prune_record r).

(** ** The index's state *)

Record IndexConfig := mkIndexConfig {
  block_size : Z;
  fingerprint : bytes;
  max_blocks : option Z;
}.

Record Epochs := mkEpochs {
  clock : Z;
  mutation_epoch : Z;
  capacity_epoch : Z;
  lookup_epoch : Z;
  insert_epoch : Z;
  remove_epoch : Z;
}.
#[export] Instance eta_epochs : Eta Epochs := fun r =>
  mkEpochs (clock r) (mutation_epoch r) (capacity_epoch r) (lookup_epoch r) (insert_epoch r) (remove_epoch r).

(** A cached block-id set and the capacity epoch it was computed at. *)
Record CapacityView := mkView { view_epoch : Z; view_ids : gset bytes }.

Record CapacityViews := mkViews {
  freeable_view : CapacityView;
  evictable_view : CapacityView;
  device_freeable_view : CapacityView;
  device_reclaimable_view : CapacityView;
}.
#[export] Instance eta_views : Eta CapacityViews := fun r =>
  mkViews (freeable_view r) (evictable_view r) (device_freeable_view r) (device_reclaimable_view r).

Record LookupCounters := mkLookupCounters {
  lookup_requests : Z;
  block_id_generation_requests : Z;
  hit_requests : Z;
  hit_tokens : Z;
  hit_blocks : Z;
}.
#[export] Instance eta_lookups : Eta LookupCounters := fun r =>
  mkLookupCounters (lookup_requests r) (block_id_generation_requests r) (hit_requests r) (hit_tokens r) (hit_blocks r).

Record CommitCounters := mkCommitCounters {
  committed_blocks : Z;
  evicted_blocks : Z;
  device_demoted_blocks : Z;
  host_evicted_blocks : Z;
  deleted_blocks : Z;
  duplicate_commits : Z;
}.
#[export] Instance eta_commits : Eta CommitCounters := fun r =>
  mkCommitCounters (committed_blocks r) (evicted_blocks r) (device_demoted_blocks r)
    (host_evicted_blocks r) (deleted_blocks r) (duplicate_commits r).

Record ControlCounters := mkControlCounters {
  control_inspect_requests : Z;
  control_delete_requests : Z;
  control_priority_updates : Z;
}.
#[export] Instance eta_controls : Eta ControlCounters := fun r =>
  mkControlCounters (control_inspect_requests r) (control_delete_requests r) (control_priority_updates r).

Record ScanCounters := mkScanCounters {
  freeable_scans : Z;
  freeable_cache_hits : Z;
  evictable_scans : Z;
  evictable_cache_hits : Z;
  device_reclaimable_scans : Z;
  device_reclaimable_cache_hits : Z;
}.
#[export] Instance eta_scans : Eta ScanCounters := fun r =>
  mkScanCounters (freeable_scans r) (freeable_cache_hits r) (evictable_scans r) (evictable_cache_hits r)
    (device_reclaimable_scans r) (device_reclaimable_cache_hits r).

Record RadixPrefixIndex (T : Type) := mkIndex {
  config : IndexConfig;
  store : gmap nat PrefixCacheBlock;
  blocks : PyDict bytes nat;
  backend : T;
  epochs : Epochs;
  views : CapacityViews;
  lookups : LookupCounters;
  commits : CommitCounters;
  controls : ControlCounters;
  scans : ScanCounters;
  routing_snapshot_cache : option PrefixCacheRoutingSnapshot;
  membership : RoutingMembership;
}.
Arguments mkIndex {T}.
Arguments config {T}. Arguments store {T}. Arguments blocks {T}. Arguments backend {T}.
Arguments epochs {T}. Arguments views {T}. Arguments lookups {T}. Arguments commits {T}.
Arguments controls {T}. Arguments scans {T}. Arguments routing_snapshot_cache {T}. Arguments membership {T}.
#[export] Instance eta_index T : Eta (RadixPrefixIndex T) := fun r =>
  mkIndex (config r) (store r) (blocks r) (backend r) (epochs r) (views r) (lookups r) (commits r)
    (controls r) (scans r) (routing_snapshot_cache r) (membership r).

(** ** Eviction candidates

    [heapq] entries [(-priority, last_access, block_id)]; the heap is kept as
    a bag and popped at its lexicographic minimum, which is all the code
    relies on (the ids make the entries distinct). *)

Definition candidate : Type := Z * Z * bytes.
Definition candidate_lt (a b : candidate) : bool :=
  let '(pa, la, ia) := a in
  let '(pb, lb, ib) := b in
  (pa <? pb) || ((pa =? pb) && ((la <? lb) || ((la =? lb) && bytes_lt ia ib))).

Fixpoint heap_min (c : candidate) (l : list candidate) : candidate :=
  match l with
  | [] => c
  | d :: l' => heap_min (if candidate_lt d c then d else c) l'
  end.
Fixpoint remove_first (c : candidate) (l : list candidate) : list candidate :=
  match l with
  | [] => []
  | d :: l' => if decide (d = c) then l' else d :: remove_first c l'
  end.
(** [heapq.heappop] *)
Definition heappop (l : list candidate) : option (candidate * list candidate) :=
  match l with
  | [] => None
  | c :: l' => let m := heap_min c l' in Some (m, remove_first m l)
  end.

(** A stable sort by decreasing key: [sorted(l, key=key, reverse=True)]. *)
Fixpoint insert_desc {A} (key : A -> nat) (x : A) (l : list A) : list A :=
  match l with
  | [] => [x]
  | y :: l' => if (key x <? key y)%nat then y :: insert_desc key x l' else x :: l
  end.
Definition sort_desc {A} (key : A -> nat) (l : list A) : list A := foldr (insert_desc key) [] l.

(** ** Operations *)

Section index.
Context {T : Type} `{BlockForest T} `{Digest}.
#[local] Abbreviation Index := (RadixPrefixIndex T).
#[local] Abbreviation IndexAct := (Act PyExn (RadixPrefixIndex T)).

(** [RadixPrefixIndex.__init__] *)
Definition new_index (bs : Z) (fp : bytes) (max : option Z) : exc Index :=
  if bs <=? 0 then Raise (ValueError "block_size must be > 0")
  else if match max with Some m => m <=? 0 | None => false end
  then Raise (ValueError "max_blocks must be > 0 when set")
  else Ok (mkIndex (mkIndexConfig bs fp max) ∅ ∅ forest_empty (mkEpochs 0 0 0 0 0 0)
             (mkViews (mkView (-1) ∅) (mkView (-1) ∅) (mkView (-1) ∅) (mkView (-1) ∅))
             (mkLookupCounters 0 0 0 0 0) (mkCommitCounters 0 0 0 0 0 0) (mkControlCounters 0 0 0)
             (mkScanCounters 0 0 0 0 0 0) None empty_membership).

Definition deref (o : nat) : IndexAct PrefixCacheBlock := fun s =>
  match store s !! o with
  | Some b => (Ok b, s)
  | None => (Raise (AttributeError "block"), s)
  end.
(** Writing fields of a block object. *)
Definition update_block (o : nat) (f : PrefixCacheBlock -> PrefixCacheBlock) : IndexAct unit :=
  modify (fun s => s <| store ::= alter f o |>).
(** Running a backend operation. *)
Definition on_backend {A} (m : Act PyExn T A) : IndexAct A := fun s =>
  let '(r, t) := m (backend s) in (r, s <| backend := t |>).
(** A read that may raise. *)
Definition ask {A} (f : Index -> exc A) : IndexAct A := fun s => (f s, s).

(** [len(self.blocks)] *)
Definition live (s : Index) : Z := Z.of_nat (len (blocks s)).
Definition has_block (s : Index) (id : bytes) : bool := has_key id (blocks s).
(** [self.blocks.get(id)]: the object and its fields. *)
Definition get_block (s : Index) (id : bytes) : option (nat * PrefixCacheBlock) :=
  match blocks s !! id with
  | Some o => match store s !! o with Some b => Some (o, b) | None => None end
  | None => None
  end.

Definition tick : IndexAct Z :=
  modify (fun s => s <| epochs ::= fun e => e <| clock ::= Z.succ |> |>) ;;
  read (fun s => clock (epochs s)).

Definition mark_mutated : IndexAct unit :=
  modify (fun s => s <| epochs ::= fun e => e <| mutation_epoch ::= Z.succ |> |>).
Definition mark_capacity_mutated : IndexAct unit :=
  modify (fun s => s <| epochs ::= fun e => e <| capacity_epoch ::= Z.succ |> |>) ;;
  mark_mutated.
Definition mark_inserted (capacity_changed : bool) : IndexAct unit :=
  modify (fun s => s <| epochs ::= fun e => e <| insert_epoch ::= Z.succ |> <| lookup_epoch ::= Z.succ |> |>) ;;
  if capacity_changed then mark_capacity_mutated else mark_mutated.
Definition mark_removed : IndexAct unit :=
  modify (fun s => s <| epochs ::= fun e => e <| remove_epoch ::= Z.succ |> <| lookup_epoch ::= Z.succ |> |>) ;;
  mark_capacity_mutated.

(** [self.blocks.get(block.stable_block_id) is not block] *)
Definition not_indexed (s : Index) (o : nat) (b : PrefixCacheBlock) : bool :=
  negb (bool_decide (blocks s !! stable_block_id b = Some o)).

Definition validate_indexed_block (o : nat) : IndexAct unit :=
  b ← deref o;
  bad ← read (fun s => not_indexed s o b);
  guard_not bad (RuntimeError "Cannot update a prefix block that is not indexed.").

Definition mark_payload_compacted (os : list nat) : IndexAct unit :=
  match os with
  | [] => mret tt
  | _ => for_each os validate_indexed_block ;; mark_capacity_mutated
  end.

Definition set_block_ref_count (o : nat) (count : Z) (negative_error : string) : IndexAct unit :=
  validate_indexed_block o ;;
  guard_not (count <? 0) (RuntimeError negative_error) ;;
  b ← deref o;
  if ref_count b =? count then mret tt
  else
    update_block o (fun b => b <| ref_count := count |>) ;;
    if negb (Bool.eqb (ref_count b =? 0) (count =? 0)) then mark_capacity_mutated
    else mark_mutated.

Definition negative_ref : string := "Prefix cache block ref_count became negative.".
Definition acquire_block_ref (o : nat) : IndexAct unit :=
  b ← deref o; set_block_ref_count o (ref_count b + 1) negative_ref.
Definition release_block_ref (o : nat) (negative_error : string) : IndexAct unit :=
  b ← deref o; set_block_ref_count o (ref_count b - 1) negative_error.

(** [routing_snapshot] *)
Definition routing_snapshot (method : string) : IndexAct PrefixCacheRoutingSnapshot :=
  s ← read (fun s => s);
  let fresh :=
    guard_not (negb (live_blocks (membership s) =? live s))
      (RuntimeError "Prefix-cache routing membership is inconsistent with the live index") ;;
    let snapshot := mkSnapshot true true method (Some (block_size (config s)))
      (fingerprint (config s)) ∅ (Some (membership s)) None in
    modify (fun s => s <| routing_snapshot_cache := Some snapshot |>) ;;
    mret snapshot in
  match routing_snapshot_cache s with
  | None => fresh
  | Some snapshot =>
      if negb (String.eqb (snapshot_method snapshot) method) then fresh else mret snapshot
  end.

Definition record_routing_insert (id : bytes) : IndexAct unit :=
  m ← ask (fun s => membership_insert (membership s) id);
  modify (fun s => s <| membership := m |> <| routing_snapshot_cache := None |>).
Definition record_routing_remove (id : bytes) : IndexAct unit :=
  m ← ask (fun s => membership_remove (membership s) id);
  modify (fun s => s <| membership := m |> <| routing_snapshot_cache := None |>).

(** ** Lookups *)

Definition block_ids_for_tokens (token_ids : list Z) (max_tokens : option Z) : IndexAct (list bytes) :=
  modify (fun s => s <| lookups ::= fun c => c <| block_id_generation_requests ::= Z.succ |> |>) ;;
  ask (fun s => block_ids_of_tokens (block_size (config s)) (fingerprint (config s)) token_ids max_tokens).

Definition match_longest_block_ids (s : Index) (ids : list bytes) : exc (Z * option bytes * Z) :=
  r ← forest_lookup (backend s) ids (Z.of_nat (length ids));
  if hit_block_count r <=? 0 then Ok (0, None, 0)
  else Ok (hit_block_count r * block_size (config s), last_block_id r, hit_block_count r).

Definition match_longest_prefix (token_ids : list Z) (max_usable_tokens : Z) :
    IndexAct (Z * option bytes * Z) :=
  ids ← block_ids_for_tokens token_ids (Some max_usable_tokens);
  ask (fun s => match_longest_block_ids s ids).

Definition lookup_longest_block_ids (ids : list bytes) : IndexAct (Z * option bytes * Z) :=
  modify (fun s => s <| lookups ::= fun c => c <| lookup_requests ::= Z.succ |> |>) ;;
  r ← ask (fun s => match_longest_block_ids s ids);
  let '(hit_len, last_id, hits) := r in
  if hits <=? 0 then mret (0, None, 0)
  else
    modify (fun s => s <| lookups ::= fun c =>
      c <| hit_requests ::= Z.succ |> <| hit_tokens ::= Z.add hit_len |> <| hit_blocks ::= Z.add hits |> |>) ;;
    mret (hit_len, last_id, hits).

Definition lookup_longest_prefix (token_ids : list Z) (max_usable_tokens : Z) :
    IndexAct (Z * option bytes * Z) :=
  ids ← block_ids_for_tokens token_ids (Some max_usable_tokens);
  lookup_longest_block_ids ids.

(** The objects of a list of ids, all of which must be indexed. *)
Fixpoint chain_objects (s : Index) (ids : list bytes) : exc (list nat) :=
  match ids with
  | [] => Ok []
  | id :: ids' =>
      match blocks s !! id with
      | None => Raise (RuntimeError "Prefix cache chain is incomplete")
      | Some o => rest ← chain_objects s ids'; Ok (o :: rest)
      end
  end.

Definition get_chain (s : Index) (last_id : bytes) (block_count : Z) : exc (list nat) :=
  if block_count <=? 0 then Raise (ValueError "block_count must be > 0")
  else
    path ← forest_path (backend s) last_id;
    let n := Z.of_nat (length path) in
    if n <? block_count then Raise (RuntimeError "Prefix cache chain is shorter than expected")
    else chain_objects s (drop (Z.to_nat (n - block_count)) path).

(** ** Children and local state *)

Definition child_count_of (s : Index) (id : bytes) : exc Z := forest_child_count (backend s) id.

Definition device_child_count (s : Index) (id : bytes) : exc Z :=
  ids ← forest_child_ids (backend s) id;
  Ok (Z.of_nat (length (List.filter (fun c =>
        match get_block s c with Some (_, b) => device_present (residency b) | None => false end) ids))).

(** [ref_count != 0 or eviction_priority < 0 or transfer is not None] *)
Definition locally_blocked (b : PrefixCacheBlock) : bool :=
  negb (ref_count b =? 0) || (eviction_priority b <? 0) || bool_decide (transfer (residency b) <> None).

Definition can_evict (s : Index) (b : PrefixCacheBlock) : exc bool :=
  if locally_blocked b then Ok false
  else n ← child_count_of s (stable_block_id b); Ok (n =? 0).

Definition can_demote_device (s : Index) (b : PrefixCacheBlock) : exc bool :=
  let r := residency b in
  if negb (ref_count b =? 0) || (eviction_priority b <? 0) || negb (device_present r)
     || negb (host_present r) || bool_decide (transfer r <> None)
  then Ok false
  else n ← device_child_count s (stable_block_id b); Ok (n =? 0).

Definition can_evict_host (s : Index) (b : PrefixCacheBlock) : exc bool :=
  let r := residency b in
  if negb (ref_count b =? 0) || (eviction_priority b <? 0) || device_present r
     || negb (host_present r) || bool_decide (transfer r <> None)
  then Ok false
  else n ← child_count_of s (stable_block_id b); Ok (n =? 0).

(** ** Transfers *)

Definition set_residency (o : nat) (f : PrefixBlockResidency -> PrefixBlockResidency) : IndexAct unit :=
  update_block o (fun b => b <| residency ::= f |>).
Definition validate_residency (o : nat) : IndexAct unit :=
  b ← deref o; lift (residency_validate (residency b)).

(** The parent of a block satisfies [ok]; a block without one passes. *)
Definition parent_check (b : PrefixCacheBlock) (ok : PrefixBlockResidency -> bool) (e : PyExn) : IndexAct unit :=
  match parent_block_id b with
  | None => mret tt
  | Some p =>
      s ← read (fun s => s);
      guard_not (match get_block s p with None => true | Some (_, pb) => negb (ok (residency pb)) end) e
  end.

Definition is_transfer (r : PrefixBlockResidency) (k : PrefixTransferKind) : bool :=
  bool_decide (transfer r = Some k).

Definition begin_d2h (o : nat) : IndexAct unit :=
  b ← deref o;
  bad ← read (fun s => not_indexed s o b);
  guard_not bad (RuntimeError "Cannot back up a prefix block that is not indexed.") ;;
  validate_residency o ;;
  guard_not (negb (ref_count b =? 0)) (RuntimeError "Cannot back up a referenced prefix cache block.") ;;
  guard_not (host_present (residency b))
    (RuntimeError "Cannot back up a prefix cache block that already has a host payload.") ;;
  guard_not (bool_decide (transfer (residency b) <> None))
    (RuntimeError "Cannot start D2H while another prefix transfer is active.") ;;
  parent_check b (fun r => host_present r || is_transfer r D2H)
    (RuntimeError "Prefix D2H backup must preserve a host-resident path from the radix root.") ;;
  set_residency o (fun r => r <| transfer := Some D2H |>) ;;
  validate_residency o ;;
  mark_capacity_mutated.

Definition finish_d2h (o : nat) : IndexAct unit :=
  b ← deref o;
  guard_not (negb (is_transfer (residency b) D2H))
    (RuntimeError "Cannot finish D2H without an active D2H prefix transfer.") ;;
  parent_check b host_present
    (RuntimeError "Cannot publish a host prefix payload before its parent is host-resident.") ;;
  set_residency o (fun r => r <| host_present := true |> <| transfer := None |>) ;;
  validate_residency o ;;
  mark_capacity_mutated.

Definition abort_d2h (o : nat) : IndexAct unit :=
  b ← deref o;
  guard_not (negb (is_transfer (residency b) D2H))
    (RuntimeError "Cannot abort D2H without an active D2H prefix transfer.") ;;
  set_residency o (fun r => r <| transfer := None |>) ;;
  validate_residency o ;;
  mark_capacity_mutated.

Definition begin_h2d (o : nat) : IndexAct unit :=
  b ← deref o;
  bad ← read (fun s => not_indexed s o b);
  guard_not bad (RuntimeError "Cannot promote a prefix block that is not indexed.") ;;
  validate_residency o ;;
  guard_not (device_present (residency b))
    (RuntimeError "Cannot promote a prefix cache block that already has a device payload.") ;;
  guard_not (negb (host_present (residency b)))
    (RuntimeError "Cannot promote a prefix cache block without a host payload.") ;;
  guard_not (bool_decide (transfer (residency b) <> None))
    (RuntimeError "Cannot start H2D while another prefix transfer is active.") ;;
  parent_check b device_present
    (RuntimeError "Prefix H2D promotion must preserve a device-resident path from the radix root.") ;;
  set_residency o (fun r => r <| device_present := true |> <| transfer := Some H2D |>) ;;
  validate_residency o ;;
  mark_capacity_mutated.

Definition finish_h2d (o : nat) : IndexAct unit :=
  b ← deref o;
  guard_not (negb (is_transfer (residency b) H2D))
    (RuntimeError "Cannot finish H2D without an active H2D prefix transfer.") ;;
  set_residency o (fun r => r <| transfer := None |>) ;;
  validate_residency o ;;
  mark_capacity_mutated.

Definition abort_h2d (o : nat) : IndexAct unit :=
  b ← deref o;
  guard_not (negb (is_transfer (residency b) H2D))
    (RuntimeError "Cannot abort H2D without an active H2D prefix transfer.") ;;
  n ← ask (fun s => device_child_count s (stable_block_id b));
  guard_not (negb (n =? 0))
    (RuntimeError "Cannot abort H2D while a device-resident child depends on the block.") ;;
  set_residency o (fun r => r <| device_present := false |> <| transfer := None |>) ;;
  validate_residency o ;;
  mark_capacity_mutated.

(** ** Capacity views *)

Definition indexed_unblocked (s : Index) (id : bytes) : bool :=
  match get_block s id with Some (_, b) => negb (locally_blocked b) | None => false end.

Definition evictable_block_ids : IndexAct (gset bytes) :=
  s ← read (fun s => s);
  if view_epoch (evictable_view (views s)) =? capacity_epoch (epochs s) then
    modify (fun s => s <| scans ::= fun c => c <| evictable_cache_hits ::= Z.succ |> |>) ;;
    mret (view_ids (evictable_view (views s)))
  else
    let ids := filter (fun id => indexed_unblocked s id = true) (forest_leaf_ids (backend s)) in
    modify (fun s => s <| scans ::= fun c => c <| evictable_scans ::= Z.succ |> |>
                       <| views ::= fun v => v <| evictable_view := mkView (capacity_epoch (epochs s)) ids |> |>) ;;
    mret ids.
Definition evictable_blocks : IndexAct Z :=
  ids ← evictable_block_ids; mret (Z.of_nat (size ids)).

(** The device counts of the device-resident blocks, in dictionary order. *)
Fixpoint device_children (s : Index) (l : list (bytes * nat)) : exc (list (bytes * Z)) :=
  match l with
  | [] => Ok []
  | (id, o) :: l' =>
      match store s !! o with
      | Some b =>
          if device_present (residency b) then
            n ← device_child_count s id;
            rest ← device_children s l';
            Ok ((id, n) :: rest)
          else device_children s l'
      | None => device_children s l'
      end
  end.

(** [locally_freeable] of [_device_reclaimable_block_ids]. *)
Definition device_local (include_inflight_d2h : bool) (b : PrefixCacheBlock) : bool :=
  let r := residency b in
  let host_ready := host_present r && bool_decide (transfer r = None) in
  let host_pending := include_inflight_d2h && is_transfer r D2H in
  (ref_count b =? 0) && (0 <=? eviction_priority b) && device_present r && (host_ready || host_pending).

(** The peeling loop; the head of [stack] is the end of the Python list. *)
Fixpoint reclaim_loop (fuel : nat) (s : Index) (inflight : bool) (stack : list bytes)
    (counts : gmap bytes Z) (freeable : gset bytes) : exc (gset bytes) :=
  match stack with
  | [] => Ok freeable
  | id :: stack' =>
      match fuel with
      | O => Raise LoopFuel
      | S fuel' =>
          match get_block s id with
          | None => reclaim_loop fuel' s inflight stack' counts freeable
          | Some (_, b) =>
              if bool_decide (id ∈ freeable) || negb (device_local inflight b)
              then reclaim_loop fuel' s inflight stack' counts freeable
              else
                let freeable' := {[id]} ∪ freeable in
                match parent_block_id b with
                | None => reclaim_loop fuel' s inflight stack' counts freeable'
                | Some p =>
                    match counts !! p with
                    | None => reclaim_loop fuel' s inflight stack' counts freeable'
                    | Some c =>
                        reclaim_loop fuel' s inflight
                          (if c - 1 =? 0 then p :: stack' else stack')
                          (<[p := c - 1]> counts) freeable'
                    end
                end
          end
      end
  end.

Definition scan_device_reclaimable (s : Index) (inflight : bool) : exc (gset bytes) :=
  counts ← device_children s (items (blocks s));
  let stack := reverse (List.filter (fun kv => kv.2 =? 0) counts).*1 in
  reclaim_loop (S (length counts)) s inflight stack (list_to_map counts) ∅.

Definition device_reclaimable_ids (inflight : bool) : IndexAct (gset bytes) :=
  s ← read (fun s => s);
  let view := if inflight then device_reclaimable_view (views s) else device_freeable_view (views s) in
  if view_epoch view =? capacity_epoch (epochs s) then
    modify (fun s => s <| scans ::= fun c => c <| device_reclaimable_cache_hits ::= Z.succ |> |>) ;;
    mret (view_ids view)
  else
    modify (fun s => s <| scans ::= fun c => c <| device_reclaimable_scans ::= Z.succ |> |>) ;;
    ids ← ask (fun s => scan_device_reclaimable s inflight);
    let view' := mkView (capacity_epoch (epochs s)) ids in
    modify (fun s => s <| views ::= fun v =>
      if inflight then v <| device_reclaimable_view := view' |> else v <| device_freeable_view := view' |> |>) ;;
    mret ids.
Definition device_freeable_block_ids : IndexAct (gset bytes) := device_reclaimable_ids false.
Definition device_reclaimable_block_ids : IndexAct (gset bytes) := device_reclaimable_ids true.
Definition device_freeable_blocks : IndexAct Z :=
  ids ← device_freeable_block_ids; mret (Z.of_nat (size ids)).
Definition device_reclaimable_blocks : IndexAct Z :=
  ids ← device_reclaimable_block_ids; mret (Z.of_nat (size ids)).

(** ** Insertion and removal *)

Definition insert_block (o : nat) : IndexAct nat :=
  b ← deref o;
  lift (residency_validate (residency b)) ;;
  let id := stable_block_id b in
  existing ← read (fun s => blocks s !! id);
  match (existing : option nat) with
  | Some e =>
      modify (fun s => s <| commits ::= fun c => c <| duplicate_commits ::= Z.succ |> |>) ;;
      access ← tick;
      update_block e (fun b => b <| last_access := access |>) ;;
      mret e
  | None =>
      full ← read (fun s => match max_blocks (config s) with Some m => m <=? live s | None => false end);
      when full (evictable_blocks ;; throw (RuntimeError "Prefix cache capacity exceeded before insert")) ;;
      parent ← read (fun s => match parent_block_id b with Some p => get_block s p | None => None end);
      match parent_block_id b, parent with
      | Some _, None => throw (KeyError "Cannot insert prefix cache block because parent is missing.")
      | Some _, Some (_, pb) =>
          guard_not (device_present (residency b) && negb (device_present (residency pb)))
            (RuntimeError "Cannot insert a device-resident prefix block below a host-only parent.") ;;
          guard_not (host_present (residency b) && negb (host_present (residency pb)))
            (RuntimeError "Cannot insert a host-resident prefix block below a device-only parent.")
      | None, _ => mret tt
      end ;;
      access ← tick;
      update_block o (fun b => b <| last_access := access |>) ;;
      modify (fun s => s <| blocks ::= <[id := o]> |>) ;;
      on_backend (forest_insert (parent_block_id b) id) ;;
      modify (fun s => s <| commits ::= fun c => c <| committed_blocks ::= Z.succ |> |>) ;;
      record_routing_insert id ;;
      parent ← read (fun s => match parent_block_id b with Some p => get_block s p | None => None end);
      let capacity_changed :=
        negb (locally_blocked b && match parent with None => true | Some (_, pb) => locally_blocked pb end) in
      mark_inserted capacity_changed ;;
      mret o
  end.

Definition remove_block_from_index (id : bytes) : IndexAct nat :=
  found ← read (fun s => get_block s id);
  match (found : option (nat * PrefixCacheBlock)) with
  | None => throw (KeyError "Prefix cache block is not present.")
  | Some (o, b) =>
      guard_not (negb (ref_count b =? 0)) (RuntimeError "Cannot remove a referenced prefix cache block.") ;;
      guard_not (eviction_priority b <? 0)
        (RuntimeError "Cannot remove a negative-priority prefix cache block.") ;;
      guard_not (bool_decide (transfer (residency b) <> None))
        (RuntimeError "Cannot remove a prefix cache block with an in-flight transfer.") ;;
      n ← ask (fun s => child_count_of s id);
      guard_not (negb (n =? 0)) (RuntimeError "Cannot remove a prefix cache block with live children.") ;;
      on_backend (forest_remove id) ;;
      modify (fun s => s <| blocks ::= delete id |>) ;;
      record_routing_remove id ;;
      mark_removed ;;
      mret o
  end.

Definition rollback_inserted_leaf (o : nat) : IndexAct unit :=
  b ← deref o;
  bad ← read (fun s => not_indexed s o b);
  guard_not bad (RuntimeError "Cannot roll back a prefix block that is not the current indexed block.") ;;
  guard_not (negb (ref_count b =? 0)) (RuntimeError "Cannot roll back a referenced prefix block.") ;;
  n ← ask (fun s => child_count_of s (stable_block_id b));
  guard_not (negb (n =? 0)) (RuntimeError "Cannot roll back a prefix block with live children.") ;;
  c ← read (fun s => committed_blocks (commits s));
  guard_not (c <=? 0) (RuntimeError "Cannot roll back prefix commit statistics below zero.") ;;
  remove_block_from_index (stable_block_id b) ;;
  modify (fun s => s <| commits ::= fun c => c <| committed_blocks ::= Z.pred |> |>).

Definition touch_chain (os : list nat) : IndexAct unit :=
  access ← tick;
  for_each os (fun o => update_block o (fun b => b <| last_access := access |>)).

(** ** Eviction and demotion loops *)

Definition candidate_queue : Type := list candidate * gset bytes.

(** [queue_if_evictable] and its two siblings. *)
Definition queue_candidate (can : Index -> PrefixCacheBlock -> exc bool) (s : Index)
    (block_id : option bytes) (q : candidate_queue) : exc candidate_queue :=
  match block_id with
  | None => Ok q
  | Some id =>
      if bool_decide (id ∈ q.2) then Ok q
      else
        match get_block s id with
        | None => Ok q
        | Some (_, b) =>
            ok ← can s b;
            if negb ok then Ok q
            else Ok ((- eviction_priority b, last_access b, id) :: q.1, {[id]} ∪ q.2)
        end
  end.
Fixpoint queue_all (can : Index -> PrefixCacheBlock -> exc bool) (s : Index)
    (ids : list bytes) (q : candidate_queue) : exc candidate_queue :=
  match ids with
  | [] => Ok q
  | id :: ids' => q' ← queue_candidate can s (Some id) q; queue_all can s ids' q'
  end.

(** The inner [while candidate_heap] loop: the first popped candidate that
    still qualifies. *)
Fixpoint pop_candidate (can : Index -> PrefixCacheBlock -> exc bool) (s : Index)
    (fuel : nat) (q : candidate_queue) : exc (option (nat * PrefixCacheBlock) * candidate_queue) :=
  match heappop q.1, fuel with
  | None, _ => Ok (None, q)
  | Some _, O => Raise LoopFuel
  | Some (c, rest), S fuel' =>
      let q' := (rest, q.2 ∖ {[c.2]}) in
      match get_block s c.2 with
      | None => pop_candidate can s fuel' q'
      | Some (o, b) =>
          ok ← can s b;
          if (ok : bool) then Ok (Some (o, b), q') else pop_candidate can s fuel' q'
      end
  end.

Section loops.
Variable block_weight : PrefixCacheBlock -> Z.

Fixpoint evict_loop (fuel : nat) (needed : Z) (q : candidate_queue) (evicted : list nat)
    (weight : Z) : IndexAct (list nat) :=
  if needed <=? weight then mret evicted
  else
    match fuel with
    | O => throw LoopFuel
    | S fuel' =>
        r ← ask (fun s => pop_candidate can_evict s (length q.1) q);
        match r with
        | (None, _) => mret evicted
        | (Some (_, b), q') =>
            let w := block_weight b in
            guard_not (w <? 0) (ValueError "Prefix cache eviction weight must be non-negative") ;;
            o ← remove_block_from_index (stable_block_id b);
            modify (fun s => s <| commits ::= fun c => c <| evicted_blocks ::= Z.succ |> |>) ;;
            q'' ← ask (fun s => queue_candidate can_evict s (parent_block_id b) q');
            evict_loop fuel' needed q'' (evicted ++ [o]) (weight + w)
        end
    end.

Definition evict_until_weight (needed : Z) : IndexAct (list nat) :=
  if needed <=? 0 then mret []
  else
    q ← ask (fun s => queue_all can_evict s (elements (forest_leaf_ids (backend s))) ([], ∅));
    fuel ← read (fun s => S (len (blocks s)));
    evict_loop fuel needed q [] 0.

Fixpoint demote_loop (fuel : nat) (needed : Z) (q : candidate_queue) (demoted : list nat)
    (weight : Z) : IndexAct (list nat) :=
  if needed <=? weight then mret demoted
  else
    match fuel with
    | O => throw LoopFuel
    | S fuel' =>
        r ← ask (fun s => pop_candidate can_demote_device s (length q.1) q);
        match r with
        | (None, _) => mret demoted
        | (Some (o, b), q') =>
            let w := block_weight b in
            guard_not (w <? 0) (ValueError "Prefix cache demotion weight must be non-negative") ;;
            set_residency o (fun r => r <| device_present := false |>) ;;
            validate_residency o ;;
            modify (fun s => s <| commits ::= fun c => c <| device_demoted_blocks ::= Z.succ |> |>) ;;
            mark_capacity_mutated ;;
            q'' ← ask (fun s => queue_candidate can_demote_device s (parent_block_id b) q');
            demote_loop fuel' needed q'' (demoted ++ [o]) (weight + w)
        end
    end.

(** The ids the demotion scan offers to the queue. *)
Fixpoint device_leaves (s : Index) (l : list (bytes * nat)) : exc (list bytes) :=
  match l with
  | [] => Ok []
  | (id, o) :: l' =>
      match store s !! o with
      | Some b =>
          if device_present (residency b) then
            n ← device_child_count s id;
            rest ← device_leaves s l';
            Ok (if n =? 0 then id :: rest else rest)
          else device_leaves s l'
      | None => device_leaves s l'
      end
  end.

Definition demote_device_until_weight (needed : Z) : IndexAct (list nat) :=
  if needed <=? 0 then mret []
  else
    q ← ask (fun s => ids ← device_leaves s (items (blocks s)); queue_all can_demote_device s ids ([], ∅));
    fuel ← read (fun s => S (len (blocks s)));
    demote_loop fuel needed q [] 0.
End loops.

Definition evict_until_freeable (needed : Z) : IndexAct (list nat) :=
  evict_until_weight (fun _ => 1) needed.
Definition demote_device_until_freeable (needed : Z) : IndexAct (list nat) :=
  demote_device_until_weight (fun _ => 1) needed.

Fixpoint evict_host_loop (fuel : nat) (needed : Z) (q : candidate_queue) (evicted : list nat) :
    IndexAct (list nat) :=
  if needed <=? Z.of_nat (length evicted) then mret evicted
  else
    match fuel with
    | O => throw LoopFuel
    | S fuel' =>
        r ← ask (fun s => pop_candidate can_evict_host s (length q.1) q);
        match r with
        | (None, _) => mret evicted
        | (Some (_, b), q') =>
            o ← remove_block_from_index (stable_block_id b);
            modify (fun s => s <| commits ::= fun c => c <| host_evicted_blocks ::= Z.succ |> |>) ;;
            q'' ← ask (fun s => queue_candidate can_evict_host s (parent_block_id b) q');
            evict_host_loop fuel' needed q'' (evicted ++ [o])
        end
    end.
Definition evict_host_until_freeable (needed : Z) : IndexAct (list nat) :=
  q ← ask (fun s => queue_all can_evict_host s (elements (forest_leaf_ids (backend s))) ([], ∅));
  fuel ← read (fun s => S (len (blocks s)));
  evict_host_loop fuel needed q [].

Definition ensure_insert_capacity (needed : Z) : IndexAct (list nat) :=
  max ← read (fun s => max_blocks (config s));
  match (max : option Z) with
  | None => mret []
  | Some m =>
      guard_not (needed <=? 0) (ValueError "needed_blocks must be > 0") ;;
      over ← read (fun s => live s + needed - m);
      if over <=? 0 then mret []
      else
        evicted ← evict_until_freeable over;
        when (negb (Z.of_nat (length evicted) =? over))
          (evictable_blocks ;;
           throw (RuntimeError "Prefix cache capacity exceeded and not enough blocks are evictable")) ;;
        mret evicted
  end.

(** ** Subtree control *)

Record DeleteResult := mkDelete {
  deleted : list nat;
  blocked : list (option bytes * string);
}.

Definition exact_subtree_ids_for_tokens (token_ids : list Z) : IndexAct (option (list bytes)) :=
  ids ← block_ids_for_tokens token_ids None;
  match ids with
  | [] => mret None
  | _ =>
      r ← ask (fun s => forest_lookup (backend s) ids (Z.of_nat (length ids)));
      match last_block_id r with
      | Some last_id =>
          if hit_block_count r =? Z.of_nat (length ids)
          then l ← ask (fun s => forest_subtree (backend s) last_id); mret (Some l)
          else mret None
      | None => mret None
      end
  end.

(** Why a block of the subtree cannot be deleted, if anything. *)
Definition delete_block_reason (s : Index) (planned : gset bytes) (id : bytes) (b : PrefixCacheBlock) :
    exc (option string) :=
  if 0 <? ref_count b then Ok (Some "referenced"%string)
  else if eviction_priority b <? 0 then Ok (Some "negative_priority"%string)
  else if bool_decide (transfer (residency b) <> None) then Ok (Some "transfer_inflight"%string)
  else
    children ← forest_child_ids (backend s) id;
    if existsb (fun c => negb (bool_decide (c ∈ planned))) children
    then Ok (Some "has_children"%string) else Ok None.

Fixpoint plan_delete (s : Index) (ids : list bytes) (planned : gset bytes) : exc DeleteResult :=
  match ids with
  | [] => Ok (mkDelete [] [])
  | id :: ids' =>
      match get_block s id with
      | None => plan_delete s ids' planned
      | Some (o, b) =>
          why ← delete_block_reason s planned id b;
          match why with
          | Some w =>
              r ← plan_delete s ids' planned;
              Ok (mkDelete (deleted r) ((Some id, w) :: blocked r))
          | None =>
              r ← plan_delete s ids' ({[id]} ∪ planned);
              Ok (mkDelete (o :: deleted r) (blocked r))
          end
      end
  end.

(** [len(self.backend.path_to_block(id))] for each id. *)
Fixpoint path_lengths (s : Index) (ids : list bytes) : exc (list (bytes * nat)) :=
  match ids with
  | [] => Ok []
  | id :: ids' =>
      path ← forest_path (backend s) id;
      rest ← path_lengths s ids';
      Ok ((id, length path) :: rest)
  end.

Definition preview_delete_subtree (token_ids : list Z) : IndexAct DeleteResult :=
  subtree ← exact_subtree_ids_for_tokens token_ids;
  match subtree with
  | None => mret (mkDelete [] [(None, "not_found"%string)])
  | Some ids =>
      ask (fun s =>
        keyed ← path_lengths s ids;
        plan_delete s (sort_desc snd keyed).*1 ∅)
  end.

Fixpoint apply_delete (os : list nat) : IndexAct (list nat) :=
  match os with
  | [] => mret []
  | o :: os' =>
      b ← deref o;
      stale ← read (fun s => not_indexed s o b);
      guard_not stale (RuntimeError "Prefix subtree deletion plan became stale before it was applied.") ;;
      d ← remove_block_from_index (stable_block_id b);
      modify (fun s => s <| commits ::= fun c => c <| deleted_blocks ::= Z.succ |> |>) ;;
      rest ← apply_delete os';
      mret (d :: rest)
  end.

Definition safe_delete_subtree (token_ids : list Z) : IndexAct DeleteResult :=
  modify (fun s => s <| controls ::= fun c => c <| control_delete_requests ::= Z.succ |> |>) ;;
  plan ← preview_delete_subtree token_ids;
  ds ← apply_delete (deleted plan);
  mret (mkDelete ds (blocked plan)).

(** What [set_subtree_eviction_priority] returns, without the echoed priority. *)
Record PriorityReport := mkPriorityReport {
  priority_matched : bool;
  priority_reason : option string;
  root_block_id : option bytes;
  updated_block_count : Z;
}.

(** The update loop; returns the count and the two change flags. *)
Fixpoint update_priorities (ids : list bytes) (priority : Z) (n : Z) (changed capacity_changed : bool) :
    IndexAct (Z * bool * bool) :=
  match ids with
  | [] => mret (n, changed, capacity_changed)
  | id :: ids' =>
      found ← read (fun s => get_block s id);
      match (found : option (nat * PrefixCacheBlock)) with
      | None => update_priorities ids' priority n changed capacity_changed
      | Some (o, b) =>
          if eviction_priority b =? priority then
            update_priorities ids' priority (n + 1) changed capacity_changed
          else
            update_block o (fun b => b <| eviction_priority := priority |>) ;;
            update_priorities ids' priority (n + 1) true
              (capacity_changed || negb (Bool.eqb (eviction_priority b <? 0) (priority <? 0)))
      end
  end.

Definition set_subtree_eviction_priority (token_ids : list Z) (priority : Z) : IndexAct PriorityReport :=
  modify (fun s => s <| controls ::= fun c => c <| control_priority_updates ::= Z.succ |> |>) ;;
  ids ← block_ids_for_tokens token_ids None;
  match ids with
  | [] => mret (mkPriorityReport false (Some "prefix_shorter_than_block_size"%string) None 0)
  | _ =>
      r ← ask (fun s => forest_lookup (backend s) ids (Z.of_nat (length ids)));
      match last_block_id r with
      | Some last_id =>
          if hit_block_count r =? Z.of_nat (length ids) then
            subtree ← ask (fun s => forest_subtree (backend s) last_id);
            u ← update_priorities subtree priority 0 false false;
            let '(n, changed, capacity_changed) := u in
            (if (capacity_changed : bool) then mark_capacity_mutated
             else when changed mark_mutated) ;;
            mret (mkPriorityReport true None (Some last_id) n)
          else mret (mkPriorityReport false (Some "not_found"%string) None 0)
      | None => mret (mkPriorityReport false (Some "not_found"%string) None 0)
      end
  end.

(** [select_write_through_candidates]: pending is updated in place. *)
Fixpoint add_pending (s : Index) (os : list nat) (pending : PyDict bytes nat) : PyDict bytes nat :=
  match os with
  | [] => pending
  | o :: os' =>
      add_pending s os'
        (match store s !! o with
         | Some b => if ref_count b =? 0 then <[stable_block_id b := o]> pending else pending
         | None => pending
         end)
  end.
Fixpoint sift_pending (s : Index) (entries : list (bytes * nat)) (pending : PyDict bytes nat) :
    PyDict bytes nat * list (nat * PrefixCacheBlock) :=
  match entries with
  | [] => (pending, [])
  | (id, o) :: entries' =>
      match store s !! o with
      | None => sift_pending s entries' pending
      | Some b =>
          let r := residency b in
          if negb (bool_decide (blocks s !! id = Some o)) || negb (ref_count b =? 0)
             || negb (device_present r) || host_present r || bool_decide (transfer r <> None)
          then sift_pending s entries' (delete id pending)
          else
            let '(pending', cs) := sift_pending s entries' pending in
            (pending', (o, b) :: cs)
      end
  end.
(** [sorted] by [(logical_block_idx, last_access)]. *)
Fixpoint insert_write_through (x : nat * PrefixCacheBlock) (l : list (nat * PrefixCacheBlock)) :=
  match l with
  | [] => [x]
  | y :: l' =>
      if (logical_block_idx y.2 <? logical_block_idx x.2)
         || ((logical_block_idx y.2 =? logical_block_idx x.2) && (last_access y.2 <? last_access x.2))
      then y :: insert_write_through x l' else x :: l
  end.
Fixpoint select_ready (s : Index) (l : list (nat * PrefixCacheBlock)) (selected : gset bytes) : list nat :=
  match l with
  | [] => []
  | (o, b) :: l' =>
      let ready :=
        match parent_block_id b with
        | None => true
        | Some p =>
            match get_block s p with
            | None => false
            | Some (_, pb) =>
                host_present (residency pb) || is_transfer (residency pb) D2H
                || bool_decide (stable_block_id pb ∈ selected)
            end
        end in
      if ready then o :: select_ready s l' ({[stable_block_id b]} ∪ selected)
      else select_ready s l' selected
  end.
Definition select_write_through_candidates (s : Index) (pending : PyDict bytes nat)
    (newly_unreferenced : option (list nat)) : PyDict bytes nat * list nat :=
  let news := match newly_unreferenced with Some os => os | None => values (blocks s) end in
  let pending1 := add_pending s news pending in
  let '(pending2, candidates) := sift_pending s (items pending1) pending1 in
  (pending2, select_ready s (foldr insert_write_through [] candidates) ∅).
End index.
