(* ===== verification/PrefixIndexFacts.v ===== *)
(** * The prefix index: invariant and frame lemmas

    [index_wf] ties the dictionary, the backend forest, the routing
    membership and the residency of the blocks together; this file shows that
    each elementary write of the operations preserves it. *)

From stdpp Require Import base gmap list strings.
From Stdlib Require Import ZArith Lia.
From S2P Require Import Prelude PyDict PyBytes Sha256 RoutingMembership RadixTree RadixForest PrefixHash PrefixIndex.

Section facts.
Context {T : Type} `{BlockForest T} `{Digest}.
#[local] Abbreviation Index := (RadixPrefixIndex T).
Implicit Types (s : Index) (id : bytes) (o : nat) (b : PrefixCacheBlock).

(** The ids in the index. *)
Definition ids_of s : gset bytes := list_to_set (keys (blocks s)).

(** A resident block's parent is resident wherever the block is. *)
Definition parent_covers (r rp : PrefixBlockResidency) : Prop :=
  (device_present r = true -> device_present rp = true) /\
  (host_present r = true -> host_present rp = true).

Definition residency_ok s id : Prop :=
  forall o b, get_block s id = Some (o, b) ->
    residency_validate (residency b) = Ok tt /\ 0 <= ref_count b /\
    match parent_block_id b with
    | None => True
    | Some p => exists o' pb, get_block s p = Some (o', pb) /\ parent_covers (residency b) (residency pb)
    end.

Record index_wf s : Prop := {
  iwf_block_size : 0 < block_size (config s);
  iwf_dict : dict_wf (blocks s);
  iwf_store id o : blocks s !! id = Some o ->
    exists b, store s !! o = Some b /\ stable_block_id b = id;
  iwf_backend : forest_wf (backend s);
  iwf_forest id : forest_of (backend s) id =
    match get_block s id with Some (_, b) => Some (parent_block_id b) | None => None end;
  iwf_residency id : residency_ok s id;
  iwf_members : membership_wf (membership s) (ids_of s);
  iwf_max m : max_blocks (config s) = Some m -> live s <= m;
  iwf_snapshot sn : routing_snapshot_cache s = Some sn ->
    supported sn = true /\ enabled sn = true /\
    snapshot_block_size sn = Some (block_size (config s)) /\
    snapshot_fingerprint sn = fingerprint (config s) /\
    routing_membership sn = Some (membership s);
}.

(** The fields the invariant reads. *)
Definition core s :=
  (config s, store s, blocks s, backend s, membership s, routing_snapshot_cache s).

Lemma core_get_block s s' id : core s = core s' -> get_block s id = get_block s' id.
Proof. unfold core, get_block. intros [= _ Hs Hb _ _ _]. by rewrite Hs, Hb. Qed.

Lemma index_wf_core s s' : core s = core s' -> index_wf s -> index_wf s'.
Proof.
  intros Hc [Hbs Hd Hst Hbk Hf Hr Hm Hmax Hsn].
  pose proof (fun id => core_get_block s s' id Hc) as Hg.
  unfold core in Hc. injection Hc as E1 E2 E3 E4 E5 E6.
  split; unfold ids_of, residency_ok, live in *; rewrite <- ?E1, <- ?E2, <- ?E3, <- ?E4, <- ?E5, <- ?E6;
    try done.
  - intros id. rewrite <- Hg. apply Hf.
  - intros id o b Hb. rewrite <- Hg in Hb. specialize (Hr id o b Hb).
    destruct (parent_block_id b); [|done]. by setoid_rewrite <- Hg.
Qed.

Lemma get_block_Some s id o b :
  index_wf s -> get_block s id = Some (o, b) <->
  blocks s !! id = Some o /\ store s !! o = Some b /\ stable_block_id b = id.
Proof.
  intros Hwf. unfold get_block. split.
  - destruct (blocks s !! id) as [o'|] eqn:Ho; [|done].
    destruct (iwf_store s Hwf id o' Ho) as (b' & Hb' & Hid). rewrite Hb'. intros [= -> ->]. done.
  - intros (-> & -> & _). done.
Qed.

Lemma get_block_None s id : index_wf s -> get_block s id = None <-> blocks s !! id = None.
Proof.
  intros Hwf. unfold get_block. split; [|by intros ->].
  destruct (blocks s !! id) as [o|] eqn:Ho; [|done].
  destruct (iwf_store s Hwf id o Ho) as (b & -> & _). done.
Qed.

Lemma get_block_id s id o b : index_wf s -> get_block s id = Some (o, b) -> stable_block_id b = id.
Proof. intros Hwf Hg. by apply (get_block_Some s id o b Hwf) in Hg as (_ & _ & ?). Qed.

(** One object is indexed under its own id only. *)
Lemma get_block_object s id1 id2 o b1 b2 :
  index_wf s -> get_block s id1 = Some (o, b1) -> get_block s id2 = Some (o, b2) -> id1 = id2.
Proof.
  intros Hwf (_ & S1 & <-)%get_block_Some (_ & S2 & <-)%get_block_Some; [congruence|done..].
Qed.

Lemma ids_of_elem s id : id ∈ ids_of s <-> is_Some (blocks s !! id).
Proof. unfold ids_of. by rewrite elem_of_list_to_set, dict_elem_of_keys. Qed.

Lemma forest_present s id : index_wf s -> is_Some (forest_of (backend s) id) <-> is_Some (get_block s id).
Proof.
  intros Hwf. rewrite (iwf_forest s Hwf). destruct (get_block s id) as [[o b]|]; [|done]. split; eauto.
Qed.

Lemma forest_parent s id o b :
  index_wf s -> get_block s id = Some (o, b) -> forest_of (backend s) id = Some (parent_block_id b).
Proof. intros Hwf Hg. by rewrite (iwf_forest s Hwf), Hg. Qed.

(** [id] is a child of [p]. *)
Definition child_of s p id : Prop := forest_of (backend s) id = Some (Some p).

#[global] Instance child_of_dec s p id : Decision (child_of s p id).
Proof. unfold child_of. apply _. Defined.

Lemma child_of_block s p id : index_wf s ->
  child_of s p id <-> exists o b, get_block s id = Some (o, b) /\ parent_block_id b = Some p.
Proof.
  intros Hwf. unfold child_of. rewrite (iwf_forest s Hwf).
  destruct (get_block s id) as [[o b]|]; [|split; [done|by intros (? & ? & ? & _)]].
  split; [intros [= Hp]; eauto|]. intros (o' & b' & [= <- <-] & ->). done.
Qed.

(** ** Updating a block object in place *)

(** [f] keeps what identifies a block. *)
Definition keeps_identity (f : PrefixCacheBlock -> PrefixCacheBlock) : Prop :=
  forall b, stable_block_id (f b) = stable_block_id b /\ parent_block_id (f b) = parent_block_id b.

Definition updated s o f : Index := s <| store ::= alter f o |>.

Lemma updated_get_block s o f id :
  get_block (updated s o f) id =
    match get_block s id with
    | Some (o', b) => Some (o', if decide (o' = o) then f b else b)
    | None => None
    end.
Proof.
  unfold get_block, updated. cbn. destruct (blocks s !! id) as [o'|]; [|done].
  destruct (decide (o' = o)) as [->|Hne].
  - rewrite lookup_alter_eq. destruct (store s !! o); [|done]. cbn. by rewrite decide_True.
  - rewrite lookup_alter_ne by done. destruct (store s !! o'); [|done]. by rewrite decide_False.
Qed.

(** An in-place update preserves the invariant when the block's new residency
    still fits its parent's and its children's. *)
Lemma updated_wf s o f :
  index_wf s -> keeps_identity f ->
  (forall id b, get_block s id = Some (o, b) ->
     residency_validate (residency (f b)) = Ok tt /\ 0 <= ref_count (f b) /\
     (forall p o' pb, parent_block_id b = Some p -> get_block s p = Some (o', pb) -> o' <> o ->
        parent_covers (residency (f b)) (residency pb)) /\
     (forall c o' cb, get_block s c = Some (o', cb) -> parent_block_id cb = Some id -> o' <> o ->
        parent_covers (residency cb) (residency (f b)))) ->
  index_wf (updated s o f).
Proof.
  intros Hwf Hf Hnew. pose proof (updated_get_block s o f) as Hg.
  split; try (apply Hwf).
  - intros id o' Ho. destruct (iwf_store s Hwf id o' Ho) as (b & Hb & Hid).
    unfold updated; cbn. destruct (decide (o = o')) as [->|Hne].
    + rewrite lookup_alter_eq, Hb. exists (f b). split; [done|]. by rewrite (proj1 (Hf b)).
    + rewrite lookup_alter_ne by done. eauto.
  - intros id. cbn [backend updated update_with]. rewrite (iwf_forest s Hwf), Hg.
    destruct (get_block s id) as [[o' b]|]; [|done].
    case_decide; [|done]. by rewrite (proj2 (Hf b)).
  - intros id o1 b1. rewrite Hg. destruct (get_block s id) as [[o' b]|] eqn:Hb; [|done].
    intros [= <- <-]. destruct (iwf_residency s Hwf id o' b Hb) as (Hv & Hr & Hp).
    assert (forall p, parent_block_id b = Some p -> p <> id) as Hpne.
    { intros p Hpb ->. destruct (forest_ranked _ (iwf_backend s Hwf)) as [rank Hrank].
      destruct (Hrank id id); [|lia]. by rewrite (forest_parent s id o' b), Hpb. }
    assert (parent_block_id (if decide (o' = o) then f b else b) = parent_block_id b) as Hpar.
    { case_decide; [apply Hf|done]. }
    rewrite Hpar. split; [|split].
    + case_decide; [|done]. subst. by apply (Hnew id b).
    + case_decide; [|done]. subst. by apply (Hnew id b).
    + destruct (parent_block_id b) as [p|] eqn:Hpb; [|done].
      destruct Hp as (op & pb & Hgp & Hc). exists op, (if decide (op = o) then f pb else pb).
      split; [by rewrite Hg, Hgp|].
      case_decide as E1; case_decide as E2; subst.
      * exfalso. apply (Hpne p eq_refl). by apply (get_block_object s p id o pb b).
      * destruct (Hnew id b Hb) as (_ & _ & Hup & _). by eapply Hup.
      * destruct (Hnew p pb Hgp) as (_ & _ & _ & Hdown). by eapply Hdown.
      * done.
Qed.

(** Updates that leave residency alone. *)
Lemma updated_fields_wf s o f :
  index_wf s -> keeps_identity f ->
  (forall b, residency (f b) = residency b) ->
  (forall id b, get_block s id = Some (o, b) -> 0 <= ref_count (f b)) ->
  index_wf (updated s o f).
Proof.
  intros Hwf Hf Hres Href. apply updated_wf; [done..|]. intros id b Hb. rewrite Hres.
  destruct (iwf_residency s Hwf id o b Hb) as (Hv & _ & Hp). split_and!; [done|by eapply Href|..].
  - intros p o' pb Hpb Hgp _. rewrite Hpb in Hp. destruct Hp as (o2 & pb2 & Hg2 & Hc). congruence.
  - intros c o' cb Hc Hpc _. destruct (iwf_residency s Hwf c o' cb Hc) as (_ & _ & Hpp).
    rewrite Hpc in Hpp. destruct Hpp as (o2 & pb2 & Hg2 & Hcov). congruence.
Qed.

(** ** Adding and removing a block *)

(** The index after [id], held by object [o], joined it. *)
Definition inserted s id o (t : T) (m : RoutingMembership) : Index :=
  s <| blocks ::= <[id := o]> |> <| backend := t |>
    <| membership := m |> <| routing_snapshot_cache := None |>.

Lemma inserted_get_block s id o t m id' b :
  store s !! o = Some b ->
  get_block (inserted s id o t m) id' = if decide (id' = id) then Some (o, b) else get_block s id'.
Proof.
  intros Ho. unfold get_block, inserted. cbn. rewrite dict_lookup_insert.
  case_decide as E1; [subst; by rewrite decide_True, Ho|]. by rewrite decide_False.
Qed.

Lemma inserted_wf s o b t m :
  index_wf s -> store s !! o = Some b -> blocks s !! stable_block_id b = None ->
  residency_validate (residency b) = Ok tt -> 0 <= ref_count b ->
  match parent_block_id b with
  | None => True
  | Some p => exists o' pb, get_block s p = Some (o', pb) /\ parent_covers (residency b) (residency pb)
  end ->
  (forall mx, max_blocks (config s) = Some mx -> live s < mx) ->
  forest_wf t ->
  (forall x, forest_of t x =
     if decide (x = stable_block_id b) then Some (parent_block_id b) else forest_of (backend s) x) ->
  membership_wf m ({[stable_block_id b]} ∪ ids_of s) ->
  index_wf (inserted s (stable_block_id b) o t m).
Proof.
  intros Hwf Ho Hid Hv Hr Hp Hmax Ht Hft Hm.
  set (id := stable_block_id b) in *. set (s' := inserted s id o t m).
  assert (forall id', get_block s' id' = if decide (id' = id) then Some (o, b) else get_block s id') as Hg.
  { intros id'. by apply inserted_get_block. }
  assert (get_block s id = None) as Hgid by (by apply (get_block_None s id Hwf)).
  split; try (apply Hwf); try done.
  - apply dict_wf_insert, Hwf.
  - intros id' o'. unfold s', inserted; cbn. rewrite dict_lookup_insert.
    case_decide; [intros [= <-]; subst; eauto|]. apply (iwf_store s Hwf).
  - intros id'. rewrite Hg. cbn. rewrite Hft. case_decide; [done|]. apply (iwf_forest s Hwf).
  - intros id' o' b'. rewrite Hg.
    assert (forall p op pb r, get_block s p = Some (op, pb) -> parent_covers r (residency pb) ->
      exists o'' pb', get_block s' p = Some (o'', pb') /\ parent_covers r (residency pb')) as Hk.
    { intros p op pb r Hgp Hc. exists op, pb. rewrite Hg. rewrite decide_False by congruence. done. }
    case_decide as E.
    + intros [= <- <-]. split_and!; [done..|]. destruct (parent_block_id b); [|done].
      destruct Hp as (op & pb & Hgp & Hc). by eapply Hk.
    + intros Hb'. destruct (iwf_residency s Hwf id' o' b' Hb') as (? & ? & Hpp). split_and!; [done..|].
      destruct (parent_block_id b'); [|done]. destruct Hpp as (op & pb & Hgp & Hc). by eapply Hk.
  - replace (ids_of s') with ({[id]} ∪ ids_of s); [done|]. apply set_eq. intros x.
    rewrite elem_of_union, elem_of_singleton, !ids_of_elem. unfold s', inserted; cbn.
    rewrite dict_lookup_insert. case_decide; subst; naive_solver.
  - intros mx Hmx. specialize (Hmax mx Hmx). unfold live, s', inserted in *. cbn.
    rewrite dict_len_insert_None by done. lia.
Qed.

(** The index after [id] left it. *)
Definition removed s id (t : T) (m : RoutingMembership) : Index :=
  s <| backend := t |> <| blocks ::= delete id |>
    <| membership := m |> <| routing_snapshot_cache := None |>.

Lemma removed_get_block s id t m id' :
  get_block (removed s id t m) id' = if decide (id' = id) then None else get_block s id'.
Proof.
  unfold get_block, removed. cbn. rewrite dict_lookup_delete.
  case_decide as E1; [subst; by rewrite decide_True|]. by rewrite decide_False.
Qed.

Lemma removed_wf s id t m :
  index_wf s -> is_Some (get_block s id) -> (forall x, ~ child_of s id x) ->
  forest_wf t ->
  (forall x, forest_of t x = if decide (x = id) then None else forest_of (backend s) x) ->
  membership_wf m (ids_of s ∖ {[id]}) ->
  index_wf (removed s id t m).
Proof.
  intros Hwf Hid Hleaf Ht Hft Hm. set (s' := removed s id t m).
  pose proof (removed_get_block s id t m) as Hg. fold s' in Hg.
  split; try (apply Hwf); try done.
  - apply dict_wf_delete, Hwf.
  - intros id' o'. unfold s', removed; cbn. rewrite dict_lookup_delete.
    case_decide; [done|]. apply (iwf_store s Hwf).
  - intros id'. rewrite Hg. cbn. rewrite Hft. case_decide; [done|]. apply (iwf_forest s Hwf).
  - intros id' o' b'. rewrite Hg. case_decide as E; [done|]. intros Hb'.
    destruct (iwf_residency s Hwf id' o' b' Hb') as (? & ? & Hpp). split_and!; [done..|].
    destruct (parent_block_id b') as [p|] eqn:Hpb; [|done]. destruct Hpp as (op & pb & Hgp & Hc).
    exists op, pb. rewrite Hg. rewrite decide_False; [done|]. intros ->.
    apply (Hleaf id'). apply (child_of_block s id id' Hwf). eauto.
  - replace (ids_of s') with (ids_of s ∖ {[id]}); [done|]. apply set_eq. intros x.
    rewrite elem_of_difference, elem_of_singleton, !ids_of_elem. unfold s', removed; cbn.
    rewrite dict_lookup_delete. case_decide; subst; [|naive_solver].
    split; [by intros [_ ?]|by intros []].
  - intros mx Hmx. pose proof (iwf_max s Hwf mx Hmx) as Hle. unfold live, s', removed in *. cbn.
    destruct Hid as [[o b] Hb]. apply (get_block_Some s id o b Hwf) in Hb as (Hb & _).
    rewrite (dict_len_delete_Some (blocks s) id) in Hle by (apply Hwf || eauto). lia.
Qed.
End facts.
