(* ===== verification/PrefixCapacity.v ===== *)
(** * The prefix index: capacity views

    What [evictable_block_ids], [freeable_block_ids] and
    [device_freeable_block_ids] mean, stated over the forest, and when a view
    computed at one capacity epoch is still right. *)

From stdpp Require Import base gmap list strings.
From Stdlib Require Import ZArith Lia.
From S2P Require Import Prelude PyDict PyBytes Sha256 RoutingMembership RadixTree RadixForest PrefixHash.
From S2P Require Import PrefixIndex PrefixIndexFacts.

Section capacity.
Context {T : Type} `{BlockForest T} `{Digest}.
#[local] Abbreviation Index := (RadixPrefixIndex T).
Implicit Types (s : Index) (id : bytes) (o : nat) (b : PrefixCacheBlock).

(** ** The meaning of the views *)

Definition block_sat s (P : PrefixCacheBlock -> Prop) id : Prop :=
  exists o b, get_block s id = Some (o, b) /\ P b.

(** A leaf that nothing holds. *)
Definition evictable_spec s id : Prop :=
  block_sat s (fun b => locally_blocked b = false) id /\ forall x, ~ child_of s id x.

(** [A] holds of the block and [B] of it and all its descendants. *)
Definition closure_spec (A B : PrefixCacheBlock -> Prop) s id : Prop :=
  block_sat s A id /\
  forall x, below (forest_of (backend s)) id x -> forall o b, get_block s x = Some (o, b) -> B b.

(** Nothing holds the block or any of its descendants: repeated leaf eviction
    can remove it. *)
Definition freeable_spec : Index -> bytes -> Prop :=
  closure_spec (fun _ => True) (fun b => locally_blocked b = false).

(** The block is on the device, and it and every device-resident descendant
    can give up their device copy. *)
Definition device_spec (inflight : bool) : Index -> bytes -> Prop :=
  closure_spec (fun b => device_present (residency b) = true)
    (fun b => device_present (residency b) = true -> device_local inflight b = true).

(** ** What the views depend on *)

Definition cap_fields b : option bytes * (bool * bool) * PrefixBlockResidency :=
  (parent_block_id b, (ref_count b =? 0, eviction_priority b <? 0), residency b).
Definition cap_block s id := match get_block s id with Some (_, b) => Some (cap_fields b) | None => None end.

Lemma cap_locally_blocked b b' : cap_fields b = cap_fields b' -> locally_blocked b = locally_blocked b'.
Proof. unfold cap_fields, locally_blocked. intros [= _ E1 E2 E3]. by rewrite E1, E2, E3. Qed.
Lemma cap_device_local i b b' : cap_fields b = cap_fields b' -> device_local i b = device_local i b'.
Proof.
  unfold cap_fields, device_local. rewrite !Z.leb_antisym. intros [= _ E1 E2 E3]. by rewrite E1, E2, E3.
Qed.
Lemma cap_device_present b b' :
  cap_fields b = cap_fields b' -> device_present (residency b) = device_present (residency b').
Proof. unfold cap_fields. by intros [= _ _ _ ->]. Qed.

Lemma cap_block_Some s id o b : get_block s id = Some (o, b) -> cap_block s id = Some (cap_fields b).
Proof. unfold cap_block. by intros ->. Qed.

Definition same_cap s s' : Prop := forall id, cap_block s id = cap_block s' id.

Lemma same_cap_sym s s' : same_cap s s' -> same_cap s' s.
Proof. intros Hc id. by rewrite Hc. Qed.

Lemma same_cap_block s s' id o b : same_cap s s' -> get_block s id = Some (o, b) ->
  exists o' b', get_block s' id = Some (o', b') /\ cap_fields b' = cap_fields b.
Proof.
  intros Hc Hg. specialize (Hc id). unfold cap_block in Hc. rewrite Hg in Hc.
  destruct (get_block s' id) as [[o' b']|]; [|done]. apply (inj Some) in Hc.
  exists o', b'. split; [done|]. by symmetry.
Qed.

Lemma same_cap_forest s s' id : index_wf s -> index_wf s' -> same_cap s s' ->
  forest_of (backend s) id = forest_of (backend s') id.
Proof.
  intros Hwf Hwf' Hc. rewrite (iwf_forest s Hwf), (iwf_forest s' Hwf').
  specialize (Hc id). unfold cap_block, cap_fields in Hc.
  destruct (get_block s id) as [[o b]|], (get_block s' id) as [[o' b']|]; [|done..].
  by injection Hc as -> _ _ _.
Qed.

Lemma below_ext (f g : forest) (r x : bytes) : (forall y, f y = g y) -> below f r x -> below g r x.
Proof.
  intros Hfg. unfold below. induction 1 as [|x y z Hxy _ IH]; [constructor|].
  eapply rtc_l; [|done]. cbv beta in *. by rewrite <- Hfg.
Qed.

Lemma block_sat_cap s s' (P : PrefixCacheBlock -> Prop) id :
  (forall b b', cap_fields b = cap_fields b' -> P b -> P b') ->
  same_cap s s' -> block_sat s P id -> block_sat s' P id.
Proof.
  intros HP Hc (o & b & Hg & Hb). destruct (same_cap_block s s' id o b Hc Hg) as (o' & b' & Hg' & E).
  exists o', b'. split; [done|]. by apply (HP b).
Qed.

Lemma evictable_cap s s' id : index_wf s -> index_wf s' -> same_cap s s' ->
  evictable_spec s id -> evictable_spec s' id.
Proof.
  intros Hwf Hwf' Hc [Hb Hno]. split.
  - eapply block_sat_cap; [|done..]. cbv beta. intros ?? E <-. symmetry. by apply cap_locally_blocked.
  - intros x Hx. apply (Hno x). unfold child_of in *. by rewrite (same_cap_forest s s').
Qed.

(** A property of blocks that only looks at what the views depend on. *)
Definition cap_only (P : PrefixCacheBlock -> Prop) : Prop :=
  forall b b', cap_fields b = cap_fields b' -> P b -> P b'.

Lemma closure_cap A B s s' id : cap_only A -> cap_only B ->
  index_wf s -> index_wf s' -> same_cap s s' -> closure_spec A B s id -> closure_spec A B s' id.
Proof.
  intros HA HB Hwf Hwf' Hc [Hb Hx]. split; [by eapply block_sat_cap|].
  intros x Hbx o b Hg.
  destruct (same_cap_block s' s x o b (same_cap_sym s s' Hc) Hg) as (o' & b' & Hg' & E).
  apply (HB b' b E), (Hx x) with o'; [|done].
  eapply below_ext; [|exact Hbx]. intros y. symmetry. by apply same_cap_forest.
Qed.

Lemma freeable_cap s s' id : index_wf s -> index_wf s' -> same_cap s s' ->
  freeable_spec s id -> freeable_spec s' id.
Proof.
  apply closure_cap; [done|]. intros b b' E <-. symmetry. by apply cap_locally_blocked.
Qed.

Lemma device_cap i s s' id : index_wf s -> index_wf s' -> same_cap s s' ->
  device_spec i s id -> device_spec i s' id.
Proof.
  apply closure_cap; intros b b' E Hb.
  - by rewrite <- (cap_device_present _ _ E).
  - rewrite <- (cap_device_present _ _ E), <- (cap_device_local i _ _ E). done.
Qed.

(** ** Coherence of the cached views *)

Definition view_ok (epoch : Z) (v : CapacityView) (P : bytes -> Prop) : Prop :=
  view_epoch v <= epoch /\ (view_epoch v = epoch -> forall id, id ∈ view_ids v <-> P id).

(** The views of the freeable, the evictable and the device-freeable blocks.  The
    device-reclaimable view is left out: an insertion can leave it dated and
    wrong. *)
Record views_ok s : Prop := {
  vo_freeable : view_ok (capacity_epoch (epochs s)) (freeable_view (views s)) (freeable_spec s);
  vo_evictable : view_ok (capacity_epoch (epochs s)) (evictable_view (views s)) (evictable_spec s);
  vo_device : view_ok (capacity_epoch (epochs s)) (device_freeable_view (views s)) (device_spec false s);
}.

(** A step keeps the views right when it dates a new epoch or changes nothing
    that they depend on. *)
Definition cap_step s s' : Prop :=
  views s' = views s /\
  (capacity_epoch (epochs s) < capacity_epoch (epochs s') \/
   (capacity_epoch (epochs s') = capacity_epoch (epochs s) /\ same_cap s s')).

Lemma cap_step_views s s' :
  index_wf s -> index_wf s' -> cap_step s s' -> views_ok s -> views_ok s'.
Proof.
  intros Hwf Hwf' [Hv Hc] [[F1 F2] [E1 E2] [D1 D2]].
  assert (forall v (P P' : bytes -> Prop),
    view_epoch v <= capacity_epoch (epochs s) ->
    (view_epoch v = capacity_epoch (epochs s) -> forall id, id ∈ view_ids v <-> P id) ->
    (same_cap s s' -> forall id, P id <-> P' id) ->
    view_ok (capacity_epoch (epochs s')) v P') as Hgen.
  { intros v P P' Hle Hp Hpp. destruct Hc as [Hlt|[Heq Hsame]].
    - split; [lia|]. intros. lia.
    - split; [lia|]. intros He id. rewrite Hp by lia. by apply Hpp. }
  split; rewrite Hv; (eapply Hgen; [done..|]); intros Hs id; pose proof (same_cap_sym _ _ Hs);
    split; (apply freeable_cap || apply evictable_cap || apply device_cap); done.
Qed.

Lemma cap_step_refl s : cap_step s s.
Proof. split; [done|]. right. done. Qed.

Lemma cap_step_trans s1 s2 s3 : cap_step s1 s2 -> cap_step s2 s3 -> cap_step s1 s3.
Proof.
  intros [V1 C1] [V2 C2]. split; [congruence|].
  destruct C1 as [?|[E1 S1]], C2 as [?|[E2 S2]]; [left; lia..|].
  right. split; [congruence|]. intros id. by rewrite S1, S2.
Qed.

(** The whole invariant. *)
Definition index_inv s : Prop := index_wf s /\ views_ok s.

Lemma index_inv_step s s' : index_inv s -> index_wf s' -> cap_step s s' -> index_inv s'.
Proof. intros [Hwf Hv] Hwf' Hc. split; [done|]. by apply (cap_step_views s). Qed.
End capacity.

(** ** The freeable query

    [freeable_block_ids] walks the nodes of the tree itself, so a forest brings
    its own.  A query answers with the freeable blocks and changes no more than
    its view and the scan counters. *)
Class FreeableQuery (T : Type) `{BlockForest T} := {
  freeable_query : Act PyExn (RadixPrefixIndex T) (gset bytes);
  freeable_query_ok : forall s, index_inv s ->
    wp freeable_query (fun r s' => index_inv s' /\ core s' = core s /\ epochs s' = epochs s /\
      exists ids, r = Ok ids /\ forall id, id ∈ ids <-> freeable_spec s id) s;
}.
