(* ===== verification/PrefixTransfer.v ===== *)
(** * The prefix index: reference counts, transfers and priorities

    The operations that write block objects in place.  Each keeps the whole
    invariant; a transfer moves an indexed block along the residency state
    machine, exactly when its residency and [transfer_allowed] permit it, or
    changes nothing. *)

From stdpp Require Import base gmap list strings.
From Stdlib Require Import ZArith Lia.
From S2P Require Import Prelude PyDict PyBytes Sha256 RoutingMembership RadixTree RadixForest PrefixHash.
From S2P Require Import PrefixIndex PrefixIndexFacts PrefixCapacity.

(** ** The residency state machine *)

Inductive TransferOp := BeginD2H | FinishD2H | AbortD2H | BeginH2D | FinishH2D | AbortH2D.

Inductive residency_step : TransferOp -> PrefixBlockResidency -> PrefixBlockResidency -> Prop :=
| step_begin_d2h : residency_step BeginD2H (mkResidency true false None) (mkResidency true false (Some D2H))
| step_finish_d2h : residency_step FinishD2H (mkResidency true false (Some D2H)) (mkResidency true true None)
| step_abort_d2h : residency_step AbortD2H (mkResidency true false (Some D2H)) (mkResidency true false None)
| step_begin_h2d : residency_step BeginH2D (mkResidency false true None) (mkResidency true true (Some H2D))
| step_finish_h2d : residency_step FinishH2D (mkResidency true true (Some H2D)) (mkResidency true true None)
| step_abort_h2d : residency_step AbortH2D (mkResidency true true (Some H2D)) (mkResidency false true None).

Section ops.
Context {T : Type} `{BlockForest T} `{Digest}.
#[local] Abbreviation Index := (RadixPrefixIndex T).
#[local] Abbreviation IndexAct := (Act PyExn (RadixPrefixIndex T)).
Implicit Types (s : Index) (id : bytes) (o : nat) (b : PrefixCacheBlock).

Definition run_transfer (op : TransferOp) : nat -> IndexAct unit :=
  match op with
  | BeginD2H => begin_d2h | FinishD2H => finish_d2h | AbortD2H => abort_d2h
  | BeginH2D => begin_h2d | FinishH2D => finish_h2d | AbortH2D => abort_h2d
  end.

(** *** When a transfer is permitted

    Beside the block's own residency, a transfer depends on its neighbours: a
    host payload may only appear under a parent that has one (or, to begin, is
    getting one), a device payload only under a device-resident parent, and
    only goes when no child depends on it. *)
Definition parent_satisfies s b (ok : PrefixBlockResidency -> Prop) : Prop :=
  forall p, parent_block_id b = Some p -> exists o' pb, get_block s p = Some (o', pb) /\ ok (residency pb).
Definition no_device_child s id : Prop :=
  forall c oc cb, get_block s c = Some (oc, cb) -> parent_block_id cb = Some id -> device_present (residency cb) = false.

Definition transfer_allowed (op : TransferOp) s b : Prop :=
  match op with
  | BeginD2H => ref_count b = 0 /\ parent_satisfies s b (fun r => host_present r = true \/ transfer r = Some D2H)
  | FinishD2H => parent_satisfies s b (fun r => host_present r = true)
  | BeginH2D => parent_satisfies s b (fun r => device_present r = true)
  | AbortH2D => no_device_child s (stable_block_id b)
  | AbortD2H | FinishH2D => True
  end.

Lemma parent_satisfies_elim s b ok p o' pb :
  parent_satisfies s b ok -> parent_block_id b = Some p -> get_block s p = Some (o', pb) -> ok (residency pb).
Proof. intros Hs Hp Hg. destruct (Hs p Hp) as (? & ? & ? & ?). congruence. Qed.

(** ** Rules for the index's primitives *)

Definition capacity_bumped s : Index :=
  s <| epochs ::= fun e => e <| capacity_epoch ::= Z.succ |> <| mutation_epoch ::= Z.succ |> |>.
Definition mutation_bumped s : Index := s <| epochs ::= fun e => e <| mutation_epoch ::= Z.succ |> |>.

Lemma wp_deref o (Q : exc PrefixCacheBlock -> Index -> Prop) s :
  (forall b, store s !! o = Some b -> Q (Ok b) s) ->
  (store s !! o = None -> Q (Raise (AttributeError "block")) s) ->
  wp (deref o) Q s.
Proof. unfold wp, deref. intros H1 H2. destruct (store s !! o); cbn; auto. Qed.
Lemma wp_ask {A} (f : Index -> exc A) (Q : exc A -> Index -> Prop) s : Q (f s) s -> wp (ask f) Q s.
Proof. done. Qed.
Lemma wp_update_block o f (Q : exc unit -> Index -> Prop) s : Q (Ok tt) (updated s o f) -> wp (update_block o f) Q s.
Proof. done. Qed.
Lemma wp_mark_capacity (Q : exc unit -> Index -> Prop) s :
  Q (Ok tt) (capacity_bumped s) -> wp mark_capacity_mutated Q s.
Proof. done. Qed.
Lemma wp_mark_mutated (Q : exc unit -> Index -> Prop) s :
  Q (Ok tt) (mutation_bumped s) -> wp mark_mutated Q s.
Proof. done. Qed.

(** Bumping epochs leaves the invariant's fields alone. *)
Lemma capacity_bumped_wf s : index_wf s -> index_wf (capacity_bumped s).
Proof. by apply index_wf_core. Qed.
Lemma mutation_bumped_wf s : index_wf s -> index_wf (mutation_bumped s).
Proof. by apply index_wf_core. Qed.

Lemma capacity_bumped_step s s' :
  views s' = views s -> capacity_epoch (epochs s') = capacity_epoch (epochs s) ->
  cap_step s (capacity_bumped s').
Proof. intros Hv He. split; [done|]. left. cbn. lia. Qed.

(** An object that no id names can change freely. *)
Lemma updated_unindexed s o b f id :
  index_wf s -> store s !! o = Some b -> blocks s !! stable_block_id b <> Some o ->
  get_block (updated s o f) id = get_block s id.
Proof.
  intros Hwf Ho Hn. rewrite updated_get_block. destruct (get_block s id) as [[o' b']|] eqn:Hg; [|done].
  case_decide as E; [|done]. subst o'. exfalso.
  apply (get_block_Some s id o b' Hwf) in Hg as (Hid & Hs & <-). apply Hn. congruence.
Qed.

Lemma unindexed_no_block s o b id b' :
  index_wf s -> store s !! o = Some b -> blocks s !! stable_block_id b <> Some o ->
  get_block s id <> Some (o, b').
Proof.
  intros Hwf Ho Hn Hg. apply (get_block_Some s id o b' Hwf) in Hg as (Hid & Hs & <-). apply Hn. congruence.
Qed.

Lemma not_indexed_false s o b :
  index_wf s -> store s !! o = Some b -> not_indexed s o b = false ->
  get_block s (stable_block_id b) = Some (o, b).
Proof.
  unfold not_indexed. intros Hwf Ho Hi. bool_to_prop. by apply (get_block_Some s _ o b Hwf).
Qed.

Lemma updated_ext s o b f g : store s !! o = Some b -> f b = g b -> updated s o f = updated s o g.
Proof.
  intros Ho Hfg. unfold updated. cbn. f_equal. apply alter_ext. intros x Hx. congruence.
Qed.

(** ** Transfers *)

Lemma validate_Ok r : residency_validate r = Ok tt ->
  (device_present r || host_present r = true) /\
  (transfer r = Some D2H -> device_present r = true /\ host_present r = false) /\
  (transfer r = Some H2D -> device_present r = true /\ host_present r = true).
Proof. destruct r as [[] [] [[]|]]; cbn; intros Hv; try discriminate Hv; naive_solver. Qed.

Lemma device_child_count_ok s id o b :
  index_wf s -> get_block s id = Some (o, b) ->
  exists n, device_child_count s id = Ok n /\ (n = 0 <-> no_device_child s id).
Proof.
  intros Hwf Hg. unfold device_child_count.
  destruct (forest_children (backend s) id (iwf_backend s Hwf)) as (l & -> & _ & _ & Hel).
  { apply (forest_present s id Hwf). eauto. }
  eexists; split; [reflexivity|]. set (f := fun c => match get_block s c with
    | Some (_, b) => device_present (residency b) | None => false end).
  assert (Z.of_nat (length (List.filter f l)) = 0 <-> forall c, In c l -> f c = false) as ->.
  { clear Hel. induction l as [|c l IH]; cbn; [split; [by intros _ ? []|done]|].
    destruct (f c) eqn:Hc; cbn.
    - split; [lia|]. intros Hall. rewrite (Hall c) in Hc; [done|by left].
    - rewrite IH. split; intros Hall; [by intros c' [<-|?]; auto|auto]. }
  unfold f. split.
  - intros Hall c oc cb Hc Hp. specialize (Hall c). rewrite Hc in Hall. apply Hall, list_elem_of_In, Hel.
    by rewrite (forest_parent s c oc cb), Hp.
  - intros Hno c Hin. destruct (get_block s c) as [[oc cb]|] eqn:Hc; [|done]. apply (Hno c oc cb Hc).
    apply list_elem_of_In, Hel in Hin. rewrite (forest_parent s c oc cb) in Hin by done. congruence.
Qed.

Lemma device_child_count_zero s id o b :
  index_wf s -> get_block s id = Some (o, b) -> device_child_count s id = Ok 0 -> no_device_child s id.
Proof.
  intros Hwf Hg Hz. destruct (device_child_count_ok s id o b Hwf Hg) as (n & Hn & Hiff).
  apply Hiff. congruence.
Qed.

(** The common end of the six operations. *)
Lemma transfer_tail s o b f :
  index_wf s -> store s !! o = Some b ->
  (get_block s (stable_block_id b) = Some (o, b) ->
     residency_validate (f (residency b)) = Ok tt /\
     (forall p o' pb, parent_block_id b = Some p -> get_block s p = Some (o', pb) ->
        parent_covers (f (residency b)) (residency pb)) /\
     (forall c o' cb, get_block s c = Some (o', cb) -> parent_block_id cb = Some (stable_block_id b) ->
        parent_covers (residency cb) (f (residency b)))) ->
  wp (set_residency o f ;; validate_residency o ;; mark_capacity_mutated)
    (fun r s' => index_wf s' /\ cap_step s s' /\
       (get_block s (stable_block_id b) = Some (o, b) ->
          r = Ok tt /\
          s' = capacity_bumped (updated s o (fun b => b <| residency := f (residency b) |>)))) s.
Proof.
  intros Hwf Ho Hnew. set (g := fun b => b <| residency ::= f |>).
  assert (store (updated s o g) !! o = Some (g b)) as Ho' by (unfold updated; cbn; by rewrite lookup_alter_eq, Ho).
  assert (index_wf (updated s o g)) as Hwf'.
  { apply updated_wf; [done|by intros ?|]. intros id b' Hb'.
    pose proof Hb' as (Hid & Hs & Hst)%(get_block_Some s id o b' Hwf).
    assert (b' = b) as -> by congruence. subst id. destruct (Hnew Hb') as (Hv & Hup & Hdown).
    split_and!; [done|by apply (iwf_residency s Hwf _ _ _ Hb')|by eauto..]. }
  apply wp_bind, wp_update_block. cbv beta iota. apply wp_bind. unfold validate_residency.
  apply wp_bind, wp_deref; [|cbv beta in *; intros E; fold g in E; congruence].
  intros b1 Hb1. fold g in Hb1 |- *. replace b1 with (g b) in * by congruence. apply wp_lift.
  change (residency (g b)) with (f (residency b)).
  destruct (decide (blocks s !! stable_block_id b = Some o)) as [Hi|Hni].
  - assert (get_block s (stable_block_id b) = Some (o, b)) as Hg by (by apply (get_block_Some s _ o b Hwf)).
    destruct (Hnew Hg) as (Hv & _). rewrite Hv. apply wp_mark_capacity.
    split_and!; [by apply capacity_bumped_wf|by apply capacity_bumped_step|done].
  - assert (same_cap s (updated s o g)) as Hsame.
    { intros id. unfold cap_block. by rewrite (updated_unindexed s o b g id). }
    assert (get_block s (stable_block_id b) <> Some (o, b)) as Hno by (by eapply unindexed_no_block).
    destruct (residency_validate (f (residency b))) as [[]|e].
    + apply wp_mark_capacity. split_and!; [by apply capacity_bumped_wf|by apply capacity_bumped_step|done].
    + split_and!; [done| |done]. split; [done|]. right. done.
Qed.

(** An indexed block takes the step of the state machine, and nothing else
    changes, when its residency has one and its neighbours allow it; otherwise
    the operation raises and changes nothing. *)
Definition transfer_effect (op : TransferOp) s o b (r : exc unit) s' : Prop :=
  match r with
  | Ok _ => transfer_allowed op s b /\ exists r', residency_step op (residency b) r' /\
      s' = capacity_bumped (updated s o (fun b => b <| residency := r' |>))
  | Raise _ => s' = s /\ ~ (transfer_allowed op s b /\ exists r', residency_step op (residency b) r')
  end.

Definition transfer_post (op : TransferOp) s o (r : exc unit) s' : Prop :=
  index_wf s' /\ cap_step s s' /\
  forall b, get_block s (stable_block_id b) = Some (o, b) -> transfer_effect op s o b r s'.

Lemma transfer_gone op s o e : index_wf s -> store s !! o = None -> transfer_post op s o (Raise e) s.
Proof.
  intros Hwf Ho. split_and!; [done|apply cap_step_refl|]. intros b' Hb'.
  apply (get_block_Some s _ o b' Hwf) in Hb' as (_ & ? & _). congruence.
Qed.

Lemma transfer_raise op s o b e :
  index_wf s -> store s !! o = Some b ->
  (get_block s (stable_block_id b) = Some (o, b) -> transfer_allowed op s b ->
     forall r', ~ residency_step op (residency b) r') ->
  transfer_post op s o (Raise e) s.
Proof.
  intros Hwf Ho Hno. split_and!; [done|apply cap_step_refl|]. intros b' Hb'.
  assert (b' = b) as -> by (apply (get_block_Some s _ o b' Hwf) in Hb' as (_ & ? & _); congruence).
  split; [done|]. intros (Ha & r' & Hr). by apply (Hno Hb' Ha r').
Qed.

Lemma transfer_done op s o b f :
  index_wf s -> store s !! o = Some b ->
  (get_block s (stable_block_id b) = Some (o, b) ->
     transfer_allowed op s b /\ residency_step op (residency b) (f (residency b)) /\
     (forall p o' pb, parent_block_id b = Some p -> get_block s p = Some (o', pb) ->
        parent_covers (f (residency b)) (residency pb)) /\
     (forall c o' cb, get_block s c = Some (o', cb) -> parent_block_id cb = Some (stable_block_id b) ->
        parent_covers (residency cb) (f (residency b)))) ->
  wp (set_residency o f ;; validate_residency o ;; mark_capacity_mutated) (transfer_post op s o) s.
Proof.
  intros Hwf Ho Hnew. eapply wp_mono; [apply (transfer_tail s o b f Hwf Ho)|].
  - intros Hg. destruct (Hnew Hg) as (_ & Hst & Hup & Hdown). split; [by destruct Hst|done].
  - cbv beta. intros r s' (Hwf' & Hc & Hi). split_and!; [done..|]. intros b' Hb'.
    assert (b' = b) as -> by (apply (get_block_Some s _ o b' Hwf) in Hb' as (_ & ? & _); congruence).
    destruct (Hi Hb') as [-> ->]. split; [by apply Hnew|]. exists (f (residency b)). split; [by apply Hnew|].
    f_equal. by apply (updated_ext s o b).
Qed.

Lemma indexed_facts s o b :
  index_wf s -> get_block s (stable_block_id b) = Some (o, b) ->
  residency_validate (residency b) = Ok tt /\
  (forall p o' pb, parent_block_id b = Some p -> get_block s p = Some (o', pb) ->
     parent_covers (residency b) (residency pb)) /\
  (forall c o' cb, get_block s c = Some (o', cb) -> parent_block_id cb = Some (stable_block_id b) ->
     parent_covers (residency cb) (residency b)).
Proof.
  intros Hwf Hg. destruct (iwf_residency s Hwf _ o b Hg) as (Hv & _ & Hp). split_and!; [done|..].
  - intros p o' pb Hpb Hgp. rewrite Hpb in Hp. destruct Hp as (o2 & pb2 & Hg2 & Hc). congruence.
  - intros c o' cb Hc Hpc. destruct (iwf_residency s Hwf c o' cb Hc) as (_ & _ & Hpp).
    rewrite Hpc in Hpp. destruct Hpp as (o2 & pb2 & Hg2 & Hcov). congruence.
Qed.

(** Passing [parent_check]: the parent, if any, is indexed and satisfies [ok]. *)
Lemma wp_parent_check b ok (P : PrefixBlockResidency -> Prop) e (Q : exc unit -> Index -> Prop) s :
  (forall r, ok r = true <-> P r) ->
  (~ parent_satisfies s b P -> Q (Raise e) s) -> (parent_satisfies s b P -> Q (Ok tt) s) ->
  wp (parent_check b ok e) Q s.
Proof.
  intros Hiff He Hok. unfold parent_check, parent_satisfies in *. destruct (parent_block_id b) as [p|].
  - apply wp_bind, wp_read. apply wp_guard; intros Hg.
    + apply He. intros Hp. destruct (Hp p eq_refl) as (o' & pb & Hgp & Hr). rewrite Hgp in Hg.
      apply Hiff in Hr. by rewrite Hr in Hg.
    + apply Hok. intros p' [= <-]. destruct (get_block s p) as [[o' pb]|]; [|done].
      exists o', pb. split; [done|]. by apply Hiff, negb_false_iff.
  - apply wp_ret, Hok. done.
Qed.

(** A guard that fails contradicts the step the block would take. *)
Ltac no_step s o b Hwf :=
  apply (transfer_raise _ s o b); [done..|]; intros ?Hg ?Ha ?r' ?Hr;
  pose proof (proj1 (get_block_Some s _ o b Hwf) Hg) as (?Hid & _ & _);
  unfold not_indexed, is_transfer in *; cbn [transfer_allowed] in *; inversion Hr;
  repeat match goal with E : _ = residency b |- _ => rewrite <- E in *; clear E end;
  cbn in *; bool_to_prop; naive_solver.

(** Runs the guards of a transfer: every refusal leaves the index as it is. *)
Ltac guards s o b Hwf :=
  repeat (lazymatch goal with
  | |- wp (ask _) _ _ => apply wp_ask
  | |- wp (guard_not _ _) _ _ => apply wp_guard; [intros ?; no_step s o b Hwf|intros ?]
  | |- wp (mbind (set_residency _ _) _) _ _ => fail
  | |- wp (mbind _ _) _ _ => apply wp_bind
  | |- wp (read _) _ _ => apply wp_read
  end; cbv beta iota).

Lemma validate_residency_ok s o b (Q : exc unit -> Index -> Prop) :
  store s !! o = Some b ->
  (residency_validate (residency b) = Ok tt -> Q (Ok tt) s) ->
  (forall e, residency_validate (residency b) = Raise e -> Q (Raise e) s) ->
  wp (validate_residency o) Q s.
Proof.
  intros Ho Hok He. unfold validate_residency. apply wp_bind, wp_deref; [|congruence].
  intros b' Hb'. replace b' with b by congruence. apply wp_lift.
  destruct (residency_validate (residency b)) as [[]|e]; auto.
Qed.

(** The guards leave one residency; the rest is by computation. *)
Ltac transfer_cases s o b Hwf Hg :=
  intros Hg; destruct (indexed_facts s o b Hwf Hg) as (?Hv & ?Hup & ?Hdown);
  unfold is_transfer in *; bool_to_prop;
  repeat match goal with Hd : ~ (_ <> None) |- _ => apply dec_stable in Hd end;
  split; [done|];
  destruct (residency b) as [[] [] ?]; cbn in *; subst; try discriminate; split; [constructor|].

(** A block whose triple is illegal is not in the index. *)
Ltac illegal s o b Hwf :=
  apply (transfer_raise _ s o b); [done..|]; intros Hg _ r' Hr;
  destruct (indexed_facts s o b Hwf Hg) as (Hv & _); congruence.

Lemma begin_d2h_spec s o : index_wf s -> wp (begin_d2h o) (transfer_post BeginD2H s o) s.
Proof.
  intros Hwf. unfold begin_d2h. apply wp_bind, wp_deref; [intros b Ho|by intros; apply transfer_gone].
  guards s o b Hwf. apply (validate_residency_ok s o b); [done| |intros e He; illegal s o b Hwf].
  intros _. guards s o b Hwf.
  apply (wp_parent_check _ _ (fun r => host_present r = true \/ transfer r = Some D2H)); [|intros ?; no_step s o b Hwf|intros Hpar].
  { intros r. unfold is_transfer. by rewrite orb_true_iff, bool_decide_eq_true. }
  apply (transfer_done _ s o b); [done..|]. bool_to_prop. transfer_cases s o b Hwf Hg. by split.
Qed.
Lemma finish_d2h_spec s o : index_wf s -> wp (finish_d2h o) (transfer_post FinishD2H s o) s.
Proof.
  intros Hwf. unfold finish_d2h. apply wp_bind, wp_deref; [intros b Ho|by intros; apply transfer_gone].
  guards s o b Hwf.
  apply (wp_parent_check _ _ (fun r => host_present r = true)); [done|intros ?; no_step s o b Hwf|intros Hpar].
  apply (transfer_done _ s o b); [done..|]. transfer_cases s o b Hwf Hg. split.
  - intros p o' pb Hpb Hp. split; [by apply (Hup p o' pb)|].
    by intros _; apply (parent_satisfies_elim _ _ _ _ _ _ Hpar Hpb Hp).
  - intros c o' cb Hc Hpc. destruct (Hdown c o' cb Hc Hpc). by split.
Qed.

Lemma abort_d2h_spec s o : index_wf s -> wp (abort_d2h o) (transfer_post AbortD2H s o) s.
Proof.
  intros Hwf. unfold abort_d2h. apply wp_bind, wp_deref; [intros b Ho|by intros; apply transfer_gone].
  guards s o b Hwf. apply (transfer_done _ s o b); [done..|].
  transfer_cases s o b Hwf Hg. by split.
Qed.

Lemma begin_h2d_spec s o : index_wf s -> wp (begin_h2d o) (transfer_post BeginH2D s o) s.
Proof.
  intros Hwf. unfold begin_h2d. apply wp_bind, wp_deref; [intros b Ho|by intros; apply transfer_gone].
  guards s o b Hwf. apply (validate_residency_ok s o b); [done| |intros e He; illegal s o b Hwf].
  intros _. guards s o b Hwf.
  apply (wp_parent_check _ _ (fun r => device_present r = true)); [done|intros ?; no_step s o b Hwf|intros Hpar].
  apply (transfer_done _ s o b); [done..|]. transfer_cases s o b Hwf Hg. split.
  - intros p o' pb Hpb Hp. split; [|by apply (Hup p o' pb)].
    by intros _; apply (parent_satisfies_elim _ _ _ _ _ _ Hpar Hpb Hp).
  - intros c o' cb Hc Hpc. destruct (Hdown c o' cb Hc Hpc). by split.
Qed.

Lemma finish_h2d_spec s o : index_wf s -> wp (finish_h2d o) (transfer_post FinishH2D s o) s.
Proof.
  intros Hwf. unfold finish_h2d. apply wp_bind, wp_deref; [intros b Ho|by intros; apply transfer_gone].
  guards s o b Hwf. apply (transfer_done _ s o b); [done..|].
  transfer_cases s o b Hwf Hg. by split.
Qed.

Lemma abort_h2d_spec s o : index_wf s -> wp (abort_h2d o) (transfer_post AbortH2D s o) s.
Proof.
  intros Hwf. unfold abort_h2d. apply wp_bind, wp_deref; [intros b Ho|by intros; apply transfer_gone].
  guards s o b Hwf. pose proof (device_child_count_ok s (stable_block_id b) o b Hwf) as Hcount.
  destruct (device_child_count s (stable_block_id b)) as [n|] eqn:Hn.
  2: { apply (transfer_raise _ s o b); [done..|]. intros Hg. by destruct (Hcount Hg) as (? & ? & _). }
  apply wp_bind, wp_guard; intros Hzero.
  { apply (transfer_raise _ s o b); [done..|]. intros Hg Ha. destruct (Hcount Hg) as (? & [= <-] & Hiff).
    apply Hiff in Ha. bool_to_prop. done. }
  apply (transfer_done _ s o b); [done..|]. bool_to_prop. subst n. intros Hg.
  pose proof (device_child_count_zero s _ o b Hwf Hg Hn) as Hz. revert Hg.
  transfer_cases s o b Hwf Hg. split.
  - intros p o' pb Hpb Hp. destruct (Hup p o' pb Hpb Hp). by split.
  - intros c o' cb Hc Hpc. destruct (Hdown c o' cb Hc Hpc). split; [|done].
    intros Hd. by rewrite (Hz c o' cb Hc Hpc) in Hd.
Qed.

Lemma run_transfer_spec op s o : index_wf s -> wp (run_transfer op o) (transfer_post op s o) s.
Proof.
  destruct op; [apply begin_d2h_spec|apply finish_d2h_spec|apply abort_d2h_spec
    |apply begin_h2d_spec|apply finish_h2d_spec|apply abort_h2d_spec].
Qed.

(** ** Reference counts, access times, priorities *)

Definition op_post {A} s (r : exc A) s' : Prop := index_wf s' /\ cap_step s s'.

Lemma op_post_refl {A} s (r : exc A) : index_wf s -> op_post s r s.
Proof. split; [done|apply cap_step_refl]. Qed.

Lemma op_post_trans {A B} s1 s2 s3 (r : exc A) (r' : exc B) :
  op_post s1 r s2 -> op_post s2 r' s3 -> op_post s1 r' s3.
Proof. intros [_ C1] [? C2]. split; [done|]. by eapply cap_step_trans. Qed.

Lemma op_post_inv {A} s (r : exc A) s' : index_inv s -> op_post s r s' -> index_inv s'.
Proof. intros Hi [Hwf Hc]. by apply (index_inv_step s). Qed.

(** An in-place write that the views do not depend on. *)
Lemma updated_same_cap s o f :
  (forall id b, get_block s id = Some (o, b) -> cap_fields (f b) = cap_fields b) ->
  same_cap s (updated s o f).
Proof.
  intros Hf id. unfold cap_block. rewrite updated_get_block.
  destruct (get_block s id) as [[o' b]|] eqn:Hb; [|done]. case_decide; [|done]. subst.
  by rewrite (Hf id b Hb).
Qed.

Lemma touch_post s o access :
  index_wf s -> op_post s (Ok tt : exc unit) (updated s o (fun b => b <| last_access := access |>)).
Proof.
  intros Hwf. split.
  - apply updated_fields_wf; [done|done|done|]. intros id b Hb. apply (iwf_residency s Hwf id o b Hb).
  - split; [done|]. right. split; [done|]. by apply updated_same_cap.
Qed.

Lemma wp_tick (Q : exc Z -> Index -> Prop) s :
  (forall c, Q (Ok c) (s <| epochs ::= fun e => e <| clock := c |> |>)) -> wp tick Q s.
Proof. intros HQ. apply (HQ (Z.succ (clock (epochs s)))). Qed.

Lemma tick_post {A} s c (r : exc A) : index_wf s -> op_post s r (s <| epochs ::= fun e => e <| clock := c |> |>).
Proof. intros Hwf. split; [by apply (index_wf_core s)|]. split; [done|]. right. done. Qed.

Lemma touch_chain_spec s os : index_wf s -> wp (touch_chain os) (op_post s) s.
Proof.
  intros Hwf. unfold touch_chain. apply wp_bind, wp_tick. intros c. cbv beta iota.
  set (s1 := s <| epochs ::= fun e => e <| clock := c |> |>).
  assert (op_post s (Ok tt : exc unit) s1) as Hpost by (by apply tick_post). clearbody s1.
  revert s1 Hpost. induction os as [|o os IH]; intros s1 Hpost; cbn [for_each].
  - apply wp_ret. exact Hpost.
  - apply wp_bind, wp_update_block. cbv beta iota. apply IH.
    eapply op_post_trans; [exact Hpost|]. apply touch_post, Hpost.
Qed.

Lemma wp_validate_indexed s o (Q : exc unit -> Index -> Prop) :
  index_wf s -> (forall e, Q (Raise e) s) ->
  (forall b, get_block s (stable_block_id b) = Some (o, b) -> store s !! o = Some b -> Q (Ok tt) s) ->
  wp (validate_indexed_block o) Q s.
Proof.
  intros Hwf He Hok. unfold validate_indexed_block. apply wp_bind, wp_deref; [|by intros; apply He].
  intros b Ho. repeat wp_step; [by apply He|]. apply (Hok b); [|done]. by apply not_indexed_false.
Qed.

Lemma mark_payload_compacted_spec s os : index_wf s -> wp (mark_payload_compacted os) (op_post s) s.
Proof.
  intros Hwf. unfold mark_payload_compacted.
  assert (forall l, wp (for_each l validate_indexed_block ;; mark_capacity_mutated) (op_post s) s) as Hl.
  { induction l as [|o l IH]; cbn [for_each].
    - apply wp_bind, wp_ret, wp_mark_capacity. split; [by apply capacity_bumped_wf|by apply capacity_bumped_step].
    - apply wp_bind, wp_bind, wp_validate_indexed; [done|by intros; apply op_post_refl|].
      intros b _ _. exact (wp_bind_inv _ _ _ _ IH). }
  destruct os; [apply wp_ret; by apply op_post_refl|apply Hl].
Qed.

(** [set_block_ref_count]: refuses unindexed blocks and negative counts, and
    otherwise writes the count; the capacity epoch moves when the count
    becomes or stops being zero. *)
Lemma set_block_ref_count_spec s o count msg :
  index_wf s ->
  wp (set_block_ref_count o count msg) (fun r s' => op_post s r s' /\
    match r with
    | Raise _ => s' = s
    | Ok _ => 0 <= count /\ exists b, get_block s (stable_block_id b) = Some (o, b) /\
        forall id, get_block s' id = if decide (id = stable_block_id b)
          then Some (o, b <| ref_count := count |>) else get_block s id
    end) s.
Proof.
  intros Hwf. unfold set_block_ref_count.
  apply wp_bind, wp_validate_indexed; [done|split; [by apply op_post_refl|done]|].
  intros b Hg Ho. wp_step. wp_step; [split; [by apply op_post_refl|done]|]. bool_to_prop.
  apply wp_bind, wp_deref; [|congruence]. intros b1 Hb1. replace b1 with b by congruence. clear b1 Hb1.
  set (f := fun b => b <| ref_count := count |>).
  assert (forall id, get_block (updated s o f) id = if decide (id = stable_block_id b)
    then Some (o, f b) else get_block s id) as Hupd.
  { intros id. rewrite updated_get_block. case_decide as E.
    - subst. rewrite Hg. by rewrite decide_True.
    - destruct (get_block s id) as [[o' b']|] eqn:Hb'; [|done]. case_decide; [|done]. subst.
      exfalso. apply E. by apply (get_block_object s id (stable_block_id b) o b' b). }
  assert (forall b', get_block s (stable_block_id b') = Some (o, b') -> b' = b) as Huniq.
  { intros b' (_ & ? & _)%(get_block_Some s _ o b' Hwf). congruence. }
  assert (index_wf (updated s o f)) as Hwf' by (by apply updated_fields_wf).
  wp_step; bool_to_prop.
  - apply wp_ret. split; [by apply op_post_refl|]. split; [done|]. exists b. split; [done|].
    intros id. case_decide; [|done]. subst id. rewrite Hg. do 2 f_equal. by destruct b; cbn in *; subst.
  - apply wp_bind, wp_update_block. cbv beta iota. fold f. wp_step.
    + apply wp_mark_capacity. split; [split; [by apply capacity_bumped_wf|by apply capacity_bumped_step]|].
      split; [done|]. exists b. split; [done|]. exact Hupd.
    + apply wp_mark_mutated. bool_to_prop. split; [split; [by apply mutation_bumped_wf|]|].
      * split; [done|]. right. split; [done|]. apply (updated_same_cap s o f).
        intros id b' Hb'. rewrite <- (get_block_id s id o b' Hwf Hb') in Hb'. apply Huniq in Hb' as ->.
        unfold cap_fields, f; cbn. do 2 f_equal. f_equal. symmetry. by apply Bool.eqb_prop.
      * split; [done|]. exists b. split; [done|]. exact Hupd.
Qed.

Lemma acquire_block_ref_spec s o : index_wf s -> wp (acquire_block_ref o) (op_post s) s.
Proof.
  intros Hwf. unfold acquire_block_ref. apply wp_bind, wp_deref; [|by intros; apply op_post_refl].
  intros b _. eapply wp_mono; [by apply set_block_ref_count_spec|]. by intros r s' [? _].
Qed.
Lemma release_block_ref_spec s o msg : index_wf s -> wp (release_block_ref o msg) (op_post s) s.
Proof.
  intros Hwf. unfold release_block_ref. apply wp_bind, wp_deref; [|by intros; apply op_post_refl].
  intros b _. eapply wp_mono; [by apply set_block_ref_count_spec|]. by intros r s' [? _].
Qed.

(** The priority update loop: [true] in the last flag whenever some block
    crossed between negative and non-negative. *)
Lemma update_priorities_spec ids priority s0 n c k s :
  index_wf s -> views s = views s0 -> capacity_epoch (epochs s) = capacity_epoch (epochs s0) ->
  (k = false -> same_cap s0 s) ->
  wp (update_priorities ids priority n c k) (fun r s' =>
    index_wf s' /\ views s' = views s0 /\ capacity_epoch (epochs s') = capacity_epoch (epochs s0) /\
    match r with Ok (_, _, k') => k' = false -> same_cap s0 s' | Raise _ => False end) s.
Proof.
  revert n c k s. induction ids as [|id ids IH]; intros n c k s Hwf Hv He Hk; cbn [update_priorities].
  { apply wp_ret. done. }
  apply wp_bind, wp_read. cbv beta iota.
  destruct (get_block s id) as [[o b]|] eqn:Hb; [|by apply IH].
  wp_step; [by apply IH|]. bool_to_prop. apply wp_bind, wp_update_block. cbv beta iota.
  set (f := fun b => b <| eviction_priority := priority |>).
  apply IH; [|done|done|].
  - apply updated_fields_wf; [done|done|done|]. intros id' b' Hb'. apply (iwf_residency s Hwf id' o b' Hb').
  - intros [Hk' Heq]%orb_false_iff. specialize (Hk Hk'). intros x. rewrite (Hk x).
    revert x. apply (updated_same_cap s o f). intros id' b' Hb'.
    assert (b' = b) as ->.
    { apply (get_block_Some s _ o _ Hwf) in Hb as (_ & ? & _), Hb' as (_ & ? & _). congruence. }
    unfold cap_fields, f; cbn. do 2 f_equal. f_equal. apply negb_false_iff in Heq. symmetry. by apply Bool.eqb_prop.
Qed.
End ops.
