(* ===== verification/PrefixCommit.v ===== *)
(** * The prefix index: insertion and removal

    [insert_block], [_remove_block_from_index], [rollback_inserted_leaf] and
    the evictable view.  Insertion may keep the capacity epoch when the new
    block and its parent are held; [closure_insert] is why that is sound. *)

From stdpp Require Import base gmap list strings.
From Stdlib Require Import ZArith Lia.
From S2P Require Import Prelude PyDict PyBytes Sha256 RoutingMembership RadixTree RadixForest PrefixHash.
From S2P Require Import PrefixIndex PrefixIndexFacts PrefixCapacity PrefixTransfer.

Section commit.
Context {T : Type} `{BlockForest T} `{Digest}.
#[local] Abbreviation Index := (RadixPrefixIndex T).
#[local] Abbreviation IndexAct := (Act PyExn (RadixPrefixIndex T)).
Implicit Types (s : Index) (id : bytes) (o : nat) (b : PrefixCacheBlock).

(** ** The evictable view *)

Lemma indexed_unblocked_sat s id :
  indexed_unblocked s id = true <-> block_sat s (fun b => locally_blocked b = false) id.
Proof.
  unfold indexed_unblocked, block_sat. destruct (get_block s id) as [[o b]|].
  - rewrite negb_true_iff. split; [eauto|]. by intros (? & ? & [= <- <-] & ?).
  - split; [done|]. by intros (? & ? & ? & _).
Qed.

Lemma evictable_scan s id : index_wf s ->
  id ∈ filter (fun id => indexed_unblocked s id = true) (forest_leaf_ids (backend s)) <-> evictable_spec s id.
Proof.
  intros Hwf. rewrite elem_of_filter, indexed_unblocked_sat, (forest_leaves _ _ (iwf_backend s Hwf)).
  unfold evictable_spec, child_of. split; [tauto|]. intros [Hb Hno]. split_and!; [done| |done].
  destruct Hb as (o & b & Hg & _). apply (forest_present s id Hwf). eauto.
Qed.

(** The set returned, cached or computed, is the evictable blocks. *)
Lemma evictable_block_ids_spec s :
  index_inv s ->
  wp evictable_block_ids (fun r s' => index_inv s' /\ core s' = core s /\
    capacity_epoch (epochs s') = capacity_epoch (epochs s) /\
    exists ids, r = Ok ids /\ forall id, id ∈ ids <-> evictable_spec s id) s.
Proof.
  intros [Hwf Hv]. unfold evictable_block_ids. apply wp_bind, wp_read. cbv beta iota.
  wp_step; bool_to_prop; apply wp_bind, wp_modify; cbv beta iota; apply wp_ret.
  - split_and!; [split; [by apply (index_wf_core s)|by destruct Hv]|done|done|].
    eexists. split; [done|]. apply (vo_evictable s Hv). done.
  - assert (forall id, id ∈ filter (fun id => indexed_unblocked s id = true) (forest_leaf_ids (backend s))
              <-> evictable_spec s id) as Hids by (intros id; by apply evictable_scan).
    split_and!; [split; [by apply (index_wf_core s)|]|done|done|eauto].
    destruct Hv as [F E D]. split; [exact F| |exact D].
    split; [cbn; lia|]. intros _ id. exact (Hids id).
Qed.

(** ** Insertion and the views *)

Section insert_views.
Context s s' (nb : PrefixCacheBlock) (no : nat).
Context (Hwf : index_wf s) (Hwf' : index_wf s').
#[local] Notation nid := (stable_block_id nb).
Context (Hnew : get_block s nid = None)
  (Hg : forall id, get_block s' id = if decide (id = nid) then Some (no, nb) else get_block s id).

Lemma insert_forest id :
  forest_of (backend s') id = if decide (id = nid) then Some (parent_block_id nb) else forest_of (backend s) id.
Proof. rewrite (iwf_forest s' Hwf'), Hg. case_decide; [done|]. by rewrite (iwf_forest s Hwf). Qed.

Lemma insert_no_child x : ~ child_of s nid x.
Proof.
  intros Hx. destruct (forest_ranked _ (iwf_backend s Hwf)) as [rank Hr].
  destruct (Hr x nid Hx) as [_ Hp]. apply (forest_present s nid Hwf) in Hp as [? ?]. congruence.
Qed.

(** Old ancestry is unchanged; the new block's ancestors are its parent's. *)
Lemma insert_below_old id x : id <> nid -> x <> nid ->
  below (forest_of (backend s')) id x <-> below (forest_of (backend s)) id x.
Proof.
  intros Hid. unfold below. split; intros Hb; revert x Hb H1 || revert x Hb.
  - refine (rtc_ind_l _ id _ _); [constructor|]. intros x y Hxy _ IH Hx.
    rewrite insert_forest, decide_False in Hxy by done. eapply rtc_l; [exact Hxy|].
    apply IH. intros ->. by apply (insert_no_child x).
  - refine (rtc_ind_l _ id _ _); [constructor|]. intros x y Hxy _ IH Hx.
    eapply rtc_l; [rewrite insert_forest, decide_False by done; exact Hxy|].
    apply IH. intros ->. by apply (insert_no_child x).
Qed.

Lemma insert_below_new id : id <> nid ->
  below (forest_of (backend s')) id nid <->
  exists p, parent_block_id nb = Some p /\ below (forest_of (backend s)) id p.
Proof.
  intros Hid. split.
  - intros Hb. apply rtc_inv in Hb as [?|(y & Hy & Hb)]; [congruence|].
    rewrite insert_forest, decide_True in Hy by done. injection Hy as Hy. exists y. split; [done|].
    apply insert_below_old; [done| |done]. intros ->.
    destruct (forest_ranked _ (iwf_backend s' Hwf')) as [rank Hr].
    destruct (Hr nid nid); [|lia]. by rewrite insert_forest, decide_True, Hy.
  - intros (p & Hp & Hb). eapply rtc_l; [by rewrite insert_forest, decide_True, Hp by done|].
    apply insert_below_old; [done| |done]. intros ->.
    apply rtc_inv in Hb as [?|(y & Hy & _)]; [congruence|].
    rewrite (iwf_forest s Hwf), Hnew in Hy. done.
Qed.

Lemma closure_insert (A B : PrefixCacheBlock -> Prop) :
  ~ (A nb /\ B nb) ->
  (forall p o pb, parent_block_id nb = Some p -> get_block s p = Some (o, pb) -> B pb -> B nb) ->
  forall id, closure_spec A B s id <-> closure_spec A B s' id.
Proof.
  intros Hself Hpar id. unfold closure_spec, block_sat. destruct (decide (id = nid)) as [->|Hid].
  - rewrite Hnew, Hg, decide_True by done. split; [by intros [(? & ? & ? & _) _]|].
    intros [(o & b & [= <- <-] & HA) HB]. exfalso. apply Hself. split; [done|].
    apply (HB nid (rtc_refl _ _) no). by rewrite Hg, decide_True.
  - rewrite Hg, decide_False by done.
    assert (forall o b, get_block s id = Some (o, b) -> True) as _ by done.
    split; intros [HA HB]; (split; [done|]); intros x Hx o b Hb.
    + rewrite Hg in Hb. case_decide as E.
      * subst x. injection Hb as <- <-. apply insert_below_new in Hx as (p & Hp & Hx); [|done].
        destruct (iwf_residency s' Hwf' nid no nb) as (_ & _ & Hpp); [by rewrite Hg, decide_True|].
        rewrite Hp in Hpp. destruct Hpp as (op & pb & Hgp & _). rewrite Hg in Hgp.
        case_decide as Ep.
        { exfalso. subst p. apply rtc_inv in Hx as [?|(y & Hy & _)]; [congruence|].
          rewrite (iwf_forest s Hwf), Hnew in Hy. done. }
        apply (Hpar p op pb Hp Hgp). by apply (HB p Hx op).
      * apply (HB x) with o; [|done]. by apply insert_below_old.
    + assert (x <> nid) as Hxn by congruence.
      apply (HB x) with o; [by apply insert_below_old|]. by rewrite Hg, decide_False.
Qed.

Lemma evictable_insert :
  locally_blocked nb = true ->
  (forall p o pb, parent_block_id nb = Some p -> get_block s p = Some (o, pb) -> locally_blocked pb = true) ->
  forall id, evictable_spec s id <-> evictable_spec s' id.
Proof.
  intros Hnb Hpb id. unfold evictable_spec, block_sat, child_of.
  destruct (decide (id = nid)) as [->|Hid].
  - rewrite Hnew, Hg, decide_True by done. split; [by intros [(? & ? & ? & _) _]|].
    intros [(? & ? & [= <- <-] & ?) _]. congruence.
  - rewrite Hg, decide_False by done. split; intros [(o & b & Hb & Hu) Hno]; (split; [by eauto|]); intros x.
    + rewrite insert_forest. case_decide; [|apply Hno]. intros [= Hp].
      rewrite (Hpb id o b Hp Hb) in Hu. done.
    + intros Hx. apply (Hno x). rewrite insert_forest, decide_False; [done|]. intros ->.
      rewrite (iwf_forest s Hwf), Hnew in Hx. done.
Qed.

Lemma locally_blocked_device b : locally_blocked b = true -> device_local false b = false.
Proof.
  unfold locally_blocked, device_local. rewrite Z.leb_antisym.
  destruct (ref_count b =? 0), (eviction_priority b <? 0), (device_present (residency b)),
    (host_present (residency b)); cbn; try done.
  repeat case_bool_decide; done.
Qed.

Lemma views_insert :
  locally_blocked nb = true ->
  (forall p o pb, parent_block_id nb = Some p -> get_block s p = Some (o, pb) -> locally_blocked pb = true) ->
  views s' = views s -> capacity_epoch (epochs s') = capacity_epoch (epochs s) ->
  views_ok s -> views_ok s'.
Proof.
  intros Hnb Hpb Hv He [[F1 F2] [E1 E2] [D1 D2]]. split; rewrite Hv, He; (split; [done|]); intros Hep id.
  - rewrite (F2 Hep). apply closure_insert; [intros [_ ?]; congruence|].
    intros p o pb Hp Hgp Hu. rewrite (Hpb p o pb Hp Hgp) in Hu. done.
  - rewrite (E2 Hep). by apply evictable_insert.
  - rewrite (D2 Hep). apply closure_insert.
    + intros [Hd Hl]. rewrite (locally_blocked_device nb Hnb) in Hl. by specialize (Hl Hd).
    + intros p o pb Hp Hgp Hu Hd. exfalso.
      destruct (iwf_residency s' Hwf' nid no nb) as (_ & _ & Hpp); [by rewrite Hg, decide_True|].
      rewrite Hp in Hpp. destruct Hpp as (op & pb' & Hgp' & Hc & _). rewrite Hg in Hgp'.
      case_decide as Ep; [congruence|]. assert (pb' = pb) as -> by congruence.
      rewrite (locally_blocked_device pb (Hpb p o pb Hp Hgp)) in Hu. by specialize (Hu (Hc Hd)).
Qed.
End insert_views.

(** ** [insert_block] *)

Lemma wp_on_backend {A} (m : Act PyExn T A) (Q : exc A -> Index -> Prop) s r t :
  m (backend s) = (r, t) -> Q r (s <| backend := t |>) -> wp (on_backend m) Q s.
Proof. unfold wp, on_backend. by intros ->. Qed.

(** The end of [insert_block], from the write of [last_access] on. *)
Definition insert_commit o b id access : IndexAct nat :=
  update_block o (fun b => b <| last_access := access |>) ;;
  modify (fun s => s <| blocks ::= <[id := o]> |>) ;;
  on_backend (forest_insert (parent_block_id b) id) ;;
  modify (fun s => s <| commits ::= fun c => c <| committed_blocks ::= Z.succ |> |>) ;;
  record_routing_insert id ;;
  parent ← read (fun s => match parent_block_id b with Some p => get_block s p | None => None end);
  let capacity_changed :=
    negb (locally_blocked b && match parent with None => true | Some (_, pb) => locally_blocked pb end) in
  mark_inserted capacity_changed ;;
  mret o.

(** What a successful insertion of object [o] leaves. *)
Definition insert_result s o b s' : Prop :=
  forall id, get_block s' id =
    if decide (id = stable_block_id b) then Some (o, b <| last_access := clock (epochs s') |>)
    else get_block s id.

(** The object not yet indexed can take its access time. *)
Lemma touched_unindexed s o b access (s1 := updated s o (fun b => b <| last_access := access |>)) :
  index_inv s -> store s !! o = Some b -> blocks s !! stable_block_id b = None ->
  index_inv s1 /\ (forall id, get_block s1 id = get_block s id) /\
  store s1 !! o = Some (b <| last_access := access |>).
Proof.
  intros [Hwf Hv] Ho Hid.
  assert (forall id', get_block s1 id' = get_block s id') as Hg1.
  { intros id'. apply (updated_unindexed s o b); [done..|]. by rewrite Hid. }
  split_and!; [|done|unfold s1, updated; cbn; by rewrite lookup_alter_eq, Ho].
  by eapply (op_post_inv s (Ok tt : exc unit)), touch_post.
Qed.

(** Backend and membership accept a new block whose parent is indexed. *)
Lemma insert_accepted s o b :
  index_wf s -> store s !! o = Some b -> blocks s !! stable_block_id b = None ->
  residency_validate (residency b) = Ok tt -> 0 <= ref_count b ->
  match parent_block_id b with
  | None => True
  | Some p => exists o' pb, get_block s p = Some (o', pb) /\ parent_covers (residency b) (residency pb)
  end ->
  (forall mx, max_blocks (config s) = Some mx -> live s < mx) ->
  exists t m, forest_insert (parent_block_id b) (stable_block_id b) (backend s) = (Ok tt, t) /\
    membership_insert (membership s) (stable_block_id b) = Ok m /\
    index_wf (inserted s (stable_block_id b) o t m).
Proof.
  intros Hwf Ho Hid Hval Href Hpar Hmax.
  assert (forest_of (backend s) (stable_block_id b) = None) as Hfo.
  { rewrite (iwf_forest s Hwf). unfold get_block. by rewrite Hid. }
  assert (parent_present (forest_of (backend s)) (parent_block_id b)) as Hpp.
  { destruct (parent_block_id b) as [p|]; [|done]. destruct Hpar as (o' & pb & Hp & _).
    apply (forest_present s p Hwf). eauto. }
  destruct (forest_insert_new _ _ _ (iwf_backend s Hwf) Hfo Hpp) as (t & Ht & Hwft & Hft).
  destruct (membership_insert_wf (membership s) (ids_of s) (stable_block_id b)) as (m & Hm & Hwfm).
  { apply Hwf. } { rewrite ids_of_elem, Hid. by intros []. }
  exists t, m. split_and!; [done..|]. by apply (inserted_wf s o b t m).
Qed.

(** [_mark_inserted] with the flag that [insert_block] computes. *)
Lemma mark_inserted_spec s s3 nb no cc :
  index_inv s -> index_wf s3 -> get_block s (stable_block_id nb) = None ->
  (forall id, get_block s3 id = if decide (id = stable_block_id nb) then Some (no, nb) else get_block s id) ->
  views s3 = views s -> capacity_epoch (epochs s3) = capacity_epoch (epochs s) ->
  (cc = false -> locally_blocked nb = true /\
     forall p o pb, parent_block_id nb = Some p -> get_block s p = Some (o, pb) -> locally_blocked pb = true) ->
  wp (mark_inserted cc) (fun r s' => r = Ok tt /\ index_inv s' /\ core s' = core s3 /\
    clock (epochs s') = clock (epochs s3)) s3.
Proof.
  intros [Hwf Hv] Hwf3 Hnew Hg Hvs Hes Hcc. unfold mark_inserted. apply wp_bind, wp_modify. cbv beta iota.
  destruct cc; [apply wp_mark_capacity|apply wp_mark_mutated]; (split_and!; [done| |done|done]);
    (split; [by apply (index_wf_core s3)|]).
  - apply (cap_step_views s); [done|by apply (index_wf_core s3)| |done].
    split; [exact Hvs|]. left. cbn. lia.
  - destruct (Hcc eq_refl) as [Hb Hp].
    match goal with |- views_ok ?x => apply (views_insert s x nb no) end; try done.
    by apply (index_wf_core s3).
Qed.

Lemma insert_commit_spec s o b access :
  index_inv s -> store s !! o = Some b -> blocks s !! stable_block_id b = None ->
  clock (epochs s) = access ->
  residency_validate (residency b) = Ok tt -> 0 <= ref_count b ->
  match parent_block_id b with
  | None => True
  | Some p => exists o' pb, get_block s p = Some (o', pb) /\ parent_covers (residency b) (residency pb)
  end ->
  (forall mx, max_blocks (config s) = Some mx -> live s < mx) ->
  wp (insert_commit o b (stable_block_id b) access)
    (fun r s' => index_inv s' /\ r = Ok o /\ insert_result s o b s' /\ live s' = live s + 1) s.
Proof.
  intros Hinv Ho Hid Hacc Hval Href Hpar Hmax.
  destruct (touched_unindexed s o b access Hinv Ho Hid) as (Hinv1 & Hg1 & Ho1).
  assert (get_block s (stable_block_id b) = None) as Hnew by (by apply (get_block_None s _ (proj1 Hinv))).
  unfold insert_commit. apply wp_bind, wp_update_block. cbv beta iota.
  set (nb := b <| last_access := access |>) in *. set (s1 := updated s o _) in *.
  assert (live s1 = live s /\ blocks s1 = blocks s /\ config s1 = config s /\
          clock (epochs s1) = access) as (Hl1 & Hb1 & Hc1 & Ht1) by done. clearbody s1.
  destruct (insert_accepted s1 o nb (proj1 Hinv1) Ho1) as (t & m & Ht & Hm & Hwf2); [by rewrite Hb1|done|done| |by rewrite Hc1, Hl1|].
  { change (parent_block_id nb) with (parent_block_id b). change (residency nb) with (residency b).
    destruct (parent_block_id b) as [p|]; [|done]. destruct Hpar as (op & pb & Hgp & Hc).
    exists op, pb. by rewrite Hg1. }
  assert (live (inserted s1 (stable_block_id b) o t m) = live s + 1) as Hlive.
  { rewrite <- Hl1. unfold live, inserted. cbn. rewrite dict_len_insert_None by (by rewrite Hb1). lia. }
  apply wp_bind, wp_modify. cbv beta iota. apply wp_bind. eapply wp_on_backend; [exact Ht|]. cbv beta iota.
  apply wp_bind, wp_modify. cbv beta iota. apply wp_bind. unfold record_routing_insert.
  apply wp_bind, wp_ask. cbv beta iota. cbn [membership update_with]. change (stable_block_id b) with (stable_block_id nb).
  rewrite Hm. apply wp_modify. cbv beta iota. apply wp_bind, wp_read. cbv beta iota.
  match goal with |- wp _ _ ?x => set (s3 := x) end.
  assert (forall id, get_block s3 id = if decide (id = stable_block_id nb) then Some (o, nb) else get_block s1 id) as Hg3.
  { intros id. rewrite <- (inserted_get_block s1 (stable_block_id nb) o t m id nb Ho1). by apply core_get_block. }
  apply wp_bind. eapply wp_mono.
  { apply (mark_inserted_spec s1 s3 nb o); [done|by apply (index_wf_core (inserted s1 (stable_block_id nb) o t m))
      |by rewrite Hg1|done|done|done|].
    intros [Hbl Hpb]%negb_false_iff%andb_true_iff. split; [exact Hbl|].
    intros p op pb Hp Hgp. change (parent_block_id nb) with (parent_block_id b) in Hp.
    rewrite Hp, Hg3 in Hpb. rewrite decide_False in Hpb by (intros ->; rewrite Hg1 in Hgp;
      change (stable_block_id nb) with (stable_block_id b) in Hgp; congruence).
    by rewrite Hgp in Hpb. }
  cbv beta. intros r s' (-> & Hinv' & Hcore & Hclock). apply wp_ret. split_and!; [done|done| |].
  - intros id. rewrite (core_get_block s' s3 id Hcore), Hg3, Hg1. rewrite Hclock. cbn. by rewrite Ht1.
  - unfold live in *. unfold core in Hcore. injection Hcore as _ _ -> _ _ _. exact Hlive.
Qed.

(** What a commit of object [o] does, on every branch. *)
Definition insert_post s o (r : exc nat) s' : Prop :=
  index_inv s' /\
  match r with
  | Raise _ => forall id, get_block s' id = get_block s id
  | Ok o' => exists b, store s !! o = Some b /\ residency_validate (residency b) = Ok tt /\
      match get_block s (stable_block_id b) with
      | Some (e, eb) => o' = e /\ live s' = live s /\
          forall id, get_block s' id = if decide (id = stable_block_id b)
            then Some (e, eb <| last_access := clock (epochs s') |>) else get_block s id
      | None => o' = o /\ live s' = live s + 1 /\ insert_result s o b s'
      end
  end.

Lemma insert_raise s o e : index_inv s -> insert_post s o (Raise e) s.
Proof. by split. Qed.

Lemma clock_inv s c : index_inv s -> index_inv (s <| epochs ::= fun e => e <| clock := c |> |>).
Proof. intros Hinv. apply (op_post_inv s (Ok tt : exc unit)); [done|]. apply tick_post, Hinv. Qed.

(** A duplicate commit only refreshes the access time. *)
Lemma insert_duplicate s o b e eb :
  index_inv s -> store s !! o = Some b -> residency_validate (residency b) = Ok tt ->
  get_block s (stable_block_id b) = Some (e, eb) ->
  wp (modify (fun s => s <| commits ::= fun c => c <| duplicate_commits ::= Z.succ |> |>) ;;
      access ← tick;
      update_block e (fun b => b <| last_access := access |>) ;;
      mret e) (insert_post s o) s.
Proof.
  intros Hinv Ho Hv Hg. apply wp_bind, wp_modify. cbv beta iota.
  set (s0 := s <| commits ::= _ |>).
  assert (index_inv s0) as Hinv0.
  { apply (op_post_inv s (Ok tt : exc unit)); [done|]. split; [by apply (index_wf_core s); [|apply Hinv]|].
    split; [done|]. by right. }
  apply wp_bind, wp_tick. intros c. cbv beta iota. pose proof (clock_inv s0 c Hinv0) as Hinv1.
  set (s1 := s0 <| epochs ::= _ |>) in *. apply wp_bind, wp_update_block. cbv beta iota. apply wp_ret.
  split; [by eapply (op_post_inv s1 (Ok tt : exc unit)), touch_post, Hinv1|].
  exists b. rewrite Hg. split_and!; [done..|]. intros id. rewrite updated_get_block.
  change (get_block s1 id) with (get_block s id). case_decide as E.
  - subst. rewrite Hg. by rewrite decide_True.
  - destruct (get_block s id) as [[o' b']|] eqn:Hb'; [|done]. case_decide; [|done]. subst. exfalso.
    apply E. by apply (get_block_object s id (stable_block_id b) e b' eb (proj1 Hinv)).
Qed.

Lemma insert_block_spec s o :
  index_inv s -> (forall b, store s !! o = Some b -> 0 <= ref_count b) ->
  wp (insert_block o) (insert_post s o) s.
Proof.
  intros Hinv Href. pose proof (proj1 Hinv) as Hwf. unfold insert_block.
  apply wp_bind, wp_deref; [intros b Ho|by intros; apply insert_raise].
  apply wp_bind, wp_lift. destruct (residency_validate (residency b)) as [[]|e] eqn:Hv; [|by apply insert_raise].
  apply wp_bind, wp_read. cbv beta iota.
  destruct (blocks s !! stable_block_id b) as [e|] eqn:Hid.
  { destruct (iwf_store s Hwf _ _ Hid) as (eb & Heb & Hst).
    apply (insert_duplicate s o b e eb); try done. by apply (get_block_Some s _ e eb Hwf). }
  apply wp_bind, wp_read. cbv beta iota. apply wp_bind, wp_when; intros Hfull.
  { apply wp_bind. unfold evictable_blocks. apply wp_bind.
    eapply wp_mono; [by apply evictable_block_ids_spec|]. cbv beta.
    intros r s1 (Hinv1 & Hcore & _ & ids & -> & _). apply wp_ret, wp_throw.
    split; [done|]. intros id. by apply core_get_block. }
  apply wp_bind, wp_read. cbv beta iota.
  set (parent := match parent_block_id b with Some p => get_block s p | None => None end).
  assert (forall mx, max_blocks (config s) = Some mx -> live s < mx) as Hmax.
  { intros mx Hmx. rewrite Hmx in Hfull. by bool_to_prop. }
  assert (match parent_block_id b with
    | None => True
    | Some p => exists o' pb, get_block s p = Some (o', pb) /\ parent_covers (residency b) (residency pb)
    end -> wp (access ← tick; insert_commit o b (stable_block_id b) access) (insert_post s o) s) as Hgo.
  { intros Hpar. apply wp_bind, wp_tick. intros c. cbv beta iota.
    eapply wp_mono.
    - apply insert_commit_spec; [by apply clock_inv|done|done|done|done|by apply Href|exact Hpar|exact Hmax].
    - cbv beta. intros r s' (Hinv' & -> & Hres & Hlive). split; [done|]. exists b. split_and!; [done..|].
      unfold get_block. rewrite Hid. done. }
  apply wp_bind. subst parent. unfold insert_commit in Hgo. revert Hgo.
  destruct (parent_block_id b) as [p|] eqn:Hp; intros Hgo.
  - destruct (get_block s p) as [[op pb]|] eqn:Hgp; [|apply wp_throw; by apply insert_raise].
    apply wp_bind, wp_guard; [by intros; apply insert_raise|intros Hd].
    apply wp_guard; [by intros; apply insert_raise|intros Hh]. apply Hgo. exists op, pb. split; [done|].
    split; intros E; [rewrite E in Hd|rewrite E in Hh]; by apply negb_false_iff.
  - apply wp_ret. by apply Hgo.
Qed.

(** ** Removal *)

Lemma child_count_zero s id o b :
  index_wf s -> get_block s id = Some (o, b) ->
  exists n, child_count_of s id = Ok n /\ 0 <= n /\ (n = 0 <-> forall x, ~ child_of s id x).
Proof.
  intros Hwf Hg. destruct (forest_children (backend s) id (iwf_backend s Hwf)) as (l & _ & _ & Hc & Hel).
  { apply (forest_present s id Hwf). eauto. }
  exists (Z.of_nat (length l)). split_and!; [exact Hc|lia|]. split.
  - intros Hz x Hx. apply Hel in Hx. destruct l; [by apply elem_of_nil in Hx|]. cbn in Hz. lia.
  - intros Hno. destruct l as [|x l]; [done|]. exfalso. apply (Hno x), Hel. by left.
Qed.

Definition remove_post s id (r : exc nat) s' : Prop :=
  match r with
  | Ok o => index_inv s' /\ evictable_spec s id /\
      (exists b, get_block s id = Some (o, b)) /\
      (forall x, get_block s' x = if decide (x = id) then None else get_block s x) /\
      live s' = live s - 1 /\ config s' = config s /\ store s' = store s /\ commits s' = commits s
  | Raise _ => s' = s /\ ~ evictable_spec s id
  end.

Lemma blocked_not_evictable s id o b :
  get_block s id = Some (o, b) -> locally_blocked b = true -> ~ evictable_spec s id.
Proof. intros Hg Hb [(o' & b' & Hg' & Hu) _]. congruence. Qed.

Lemma locally_blocked_false b :
  negb (ref_count b =? 0) = false -> (eviction_priority b <? 0) = false ->
  bool_decide (transfer (residency b) <> None) = false -> locally_blocked b = false.
Proof. unfold locally_blocked. by intros -> -> ->. Qed.

Lemma remove_block_from_index_spec s id :
  index_inv s -> wp (remove_block_from_index id) (remove_post s id) s.
Proof.
  intros Hinv. pose proof (proj1 Hinv) as Hwf. unfold remove_block_from_index.
  apply wp_bind, wp_read. cbv beta iota.
  destruct (get_block s id) as [[o b]|] eqn:Hg.
  2:{ apply wp_throw. split; [done|]. intros [(? & ? & ? & _) _]. congruence. }
  do 3 (apply wp_bind, wp_guard; [intros Hbl; split; [done|]; eapply blocked_not_evictable; [done|];
    unfold locally_blocked; rewrite Hbl; by rewrite ?orb_true_r|intros ?]).
  assert (locally_blocked b = false) as Hub by (by apply locally_blocked_false).
  destruct (child_count_zero s id o b Hwf Hg) as (n & Hn & Hn0 & Hz).
  apply wp_bind, wp_ask. rewrite Hn. apply wp_bind, wp_guard; intros Hnz; bool_to_prop.
  { split; [done|]. intros [_ Hno]. by apply Hz in Hno. }
  pose proof (proj1 Hz Hnz) as Hno.
  destruct (forest_remove_leaf (backend s) id (iwf_backend s Hwf)) as (t & Ht & Hwft & Hft);
    [apply (forest_present s id Hwf); eauto|done|].
  assert (id ∈ ids_of s) as Hidm.
  { apply ids_of_elem. apply (get_block_Some s id o b Hwf) in Hg as (-> & _). eauto. }
  destruct (membership_remove_wf (membership s) (ids_of s) id (iwf_members s Hwf) Hidm) as (m & Hm & Hwfm).
  apply wp_bind. eapply wp_on_backend; [exact Ht|]. cbv beta iota. apply wp_bind, wp_modify. cbv beta iota.
  apply wp_bind. unfold record_routing_remove. apply wp_bind, wp_ask. cbv beta iota. cbn [membership update_with].
  rewrite Hm. apply wp_modify. cbv beta iota. apply wp_bind. unfold mark_removed.
  apply wp_bind, wp_modify. cbv beta iota. apply wp_mark_capacity. apply wp_ret.
  assert (index_wf (removed s id t m)) as Hwf' by (apply removed_wf; eauto).
  assert (live (removed s id t m) = live s - 1) as Hlive.
  { unfold live, removed. cbn. apply (get_block_Some s id o b Hwf) in Hg as (Hb & _).
    rewrite (dict_len_delete_Some (blocks s) id) by (apply Hwf || eauto). lia. }
  match goal with |- remove_post _ _ _ ?x => set (s' := x) end.
  assert (index_wf s') as Hwf'' by (by apply (index_wf_core (removed s id t m))).
  split_and!; [|..|exact Hlive|done|done|done].
  - apply (index_inv_step s); [done..|]. split; [done|]. left. unfold s'. cbn. lia.
  - split; [|done]. by exists o, b.
  - eauto.
  - intros x. rewrite <- (removed_get_block s id t m). by apply core_get_block.
Qed.

(** Rolling back a leaf that was just committed removes it and its commit. *)
Lemma rollback_inserted_leaf_spec s o :
  index_inv s ->
  wp (rollback_inserted_leaf o) (fun r s' => index_inv s' /\
    match r with
    | Ok _ => exists b, get_block s (stable_block_id b) = Some (o, b) /\
        committed_blocks (commits s') = committed_blocks (commits s) - 1 /\
        forall x, get_block s' x = if decide (x = stable_block_id b) then None else get_block s x
    | Raise _ => s' = s
    end) s.
Proof.
  intros Hinv. pose proof (proj1 Hinv) as Hwf. unfold rollback_inserted_leaf.
  apply wp_bind, wp_deref; [intros b Ho|by intros].
  apply wp_bind, wp_read. cbv beta iota. apply wp_bind, wp_guard; [by intros|intros Hi].
  pose proof (not_indexed_false s o b Hwf Ho Hi) as Hg.
  apply wp_bind, wp_guard; [by intros|intros Href].
  destruct (child_count_zero s _ o b Hwf Hg) as (n & Hn & _ & _).
  apply wp_bind, wp_ask. rewrite Hn. apply wp_bind, wp_guard; [by intros|intros Hn0].
  apply wp_bind, wp_read. cbv beta iota. apply wp_bind, wp_guard; [by intros|intros Hc]. bool_to_prop.
  apply wp_bind. eapply wp_mono; [by apply remove_block_from_index_spec|]. cbv beta.
  intros [o'|e] s'; [|by intros [-> _]]. intros (Hinv' & _ & _ & Hg' & _ & _ & _ & Hcm).
  apply wp_modify. split_and!.
  - apply (op_post_inv s' (Ok tt : exc unit)); [done|]. split; [by apply (index_wf_core s'); [|apply Hinv']|].
    split; [done|]. by right.
  - exists b. split_and!; [done|cbn; rewrite Hcm; lia|exact Hg'].
Qed.
End commit.
