(* ===== verification/PrefixQueue.v ===== *)
(** * The prefix index: candidate queues

    The heap the three eviction loops share: order of the candidates, and the
    queue operations against any qualification test [can] that decides a
    predicate [E] of the index. *)

From stdpp Require Import base gmap list strings.
From Stdlib Require Import ZArith Lia.
From S2P Require Import Prelude PyDict PyBytes Sha256 RoutingMembership RadixTree RadixForest PrefixHash.
From S2P Require Import PrefixIndex PrefixIndexFacts.

(** ** The order and the heap *)

Lemma candidate_lt_irrefl c : candidate_lt c c = false.
Proof.
  destruct c as [[p l] i]. unfold candidate_lt. rewrite !Z.ltb_irrefl, !Z.eqb_refl, bytes_lt_irrefl. done.
Qed.

Lemma candidate_lt_spec p1 l1 i1 p2 l2 i2 :
  candidate_lt (p1, l1, i1) (p2, l2, i2) = true <->
  p1 < p2 \/ (p1 = p2 /\ (l1 < l2 \/ (l1 = l2 /\ Blt i1 i2))).
Proof.
  unfold candidate_lt, Blt.
  rewrite !orb_true_iff, !andb_true_iff, !orb_true_iff, !andb_true_iff, !Z.ltb_lt, !Z.eqb_eq. tauto.
Qed.

Lemma candidate_lt_trans a b c :
  candidate_lt a b = true -> candidate_lt b c = true -> candidate_lt a c = true.
Proof.
  destruct a as [[p1 l1] i1], b as [[p2 l2] i2], c as [[p3 l3] i3]. rewrite !candidate_lt_spec.
  intros [?|[-> [?|[-> Hab]]]] [?|[-> [?|[-> Hbc]]]]; try (left; lia); right; (split; [done|]);
    try (left; lia). right. split; [done|]. by transitivity i2.
Qed.

Lemma candidate_lt_total a b : candidate_lt a b = false -> candidate_lt b a = false -> a = b.
Proof.
  destruct a as [[p1 l1] i1], b as [[p2 l2] i2].
  rewrite <- !not_true_iff_false, !candidate_lt_spec. intros Hab Hba.
  assert (p1 = p2) as -> by lia. assert (l1 = l2) as -> by lia.
  destruct (bytes_trichotomy i1 i2) as [[?| ->]|?]; [exfalso; apply Hab|done|exfalso; apply Hba]; auto.
Qed.

Lemma heap_min_spec c l :
  heap_min c l ∈ c :: l /\ forall d, d ∈ c :: l -> candidate_lt d (heap_min c l) = false.
Proof.
  revert c. induction l as [|x l IH]; intros c; cbn [heap_min].
  - split; [by left|]. intros d ->%list_elem_of_singleton. apply candidate_lt_irrefl.
  - destruct (IH (if candidate_lt x c then x else c)) as [Hin Hmin]. split.
    + apply elem_of_cons in Hin as [->|Hin]; [|by do 2 right].
      destruct (candidate_lt x c); [by right; left|by left].
    + assert (candidate_lt c (heap_min (if candidate_lt x c then x else c) l) = false /\
              candidate_lt x (heap_min (if candidate_lt x c then x else c) l) = false) as [Hc Hx].
      { pose proof (Hmin _ (list_elem_of_here _ _)) as Hh. destruct (candidate_lt x c) eqn:E.
        - split; [|done]. apply not_true_iff_false. intros Ec.
          by rewrite (candidate_lt_trans _ _ _ E Ec) in Hh.
        - split; [done|]. apply not_true_iff_false. intros Ex.
          destruct (candidate_lt c x) eqn:E'.
          + by rewrite (candidate_lt_trans _ _ _ E' Ex) in Hh.
          + pose proof (candidate_lt_total _ _ E' E) as ->. congruence. }
      intros d [->|[->|Hd]%elem_of_cons]%elem_of_cons; [done..|]. apply Hmin. by right.
Qed.

Lemma remove_first_perm c l : c ∈ l -> l ≡ₚ c :: remove_first c l.
Proof.
  induction l as [|d l IH]; [by intros ?%elem_of_nil|]. cbn. case_decide as E; [by subst|].
  intros [?|Hc]%elem_of_cons; [congruence|]. rewrite (IH Hc) at 1. constructor.
Qed.

(** [heappop] takes a least entry and leaves the others. *)
Lemma heappop_spec l :
  match heappop l with
  | None => l = []
  | Some (c, rest) => l ≡ₚ c :: rest /\ forall d, d ∈ l -> candidate_lt d c = false
  end.
Proof.
  destruct l as [|c l]; [done|]. unfold heappop. destruct (heap_min_spec c l) as [Hin Hmin].
  split; [by apply remove_first_perm|done].
Qed.

(** ** The queues *)

Section queue.
Context {T : Type} `{BlockForest T}.
#[local] Abbreviation Index := (RadixPrefixIndex T).
Implicit Types (s : Index) (id : bytes).

Definition candidate_of id (b : PrefixCacheBlock) : candidate :=
  (- eviction_priority b, last_access b, id).

(** [q] holds one entry for each block of [X]. *)
Record queue_ok s (X : bytes -> Prop) (q : candidate_queue) : Prop := {
  qok_ids id : id ∈ q.2 <-> X id;
  qok_entries c : c ∈ q.1 <-> X c.2 /\ exists o b, get_block s c.2 = Some (o, b) /\ c = candidate_of c.2 b;
  qok_nodup : NoDup q.1;
}.

Lemma queue_ok_ext s s' X X' q :
  (forall id, X id <-> X' id) -> (forall id, X id -> get_block s id = get_block s' id) ->
  queue_ok s X q -> queue_ok s' X' q.
Proof.
  intros HX Hg [Hi He Hn]. split; [|..|done].
  - intros id. by rewrite Hi.
  - intros c. rewrite He, HX. split; (intros [Hx Hb]; split; [done|]);
      [rewrite <- Hg by (by apply HX)|rewrite Hg by (by apply HX)]; done.
Qed.

Lemma queue_ok_empty s : queue_ok s (fun _ => False) ([], ∅).
Proof.
  split; cbn; [set_solver| |constructor]. intros c. rewrite elem_of_nil. tauto.
Qed.

Variable can : Index -> PrefixCacheBlock -> exc bool.
Variable E : Index -> bytes -> Prop.
Hypothesis can_decides : forall s id o b, index_wf s -> get_block s id = Some (o, b) ->
  exists c, can s b = Ok c /\ (c = true <-> E s id).
Hypothesis E_indexed : forall s id, E s id -> is_Some (get_block s id).

Lemma queue_candidate_spec s X q id :
  index_wf s -> queue_ok s X q ->
  exists q', queue_candidate can s (Some id) q = Ok q' /\
    queue_ok s (fun x => X x \/ (x = id /\ E s id)) q'.
Proof.
  intros Hwf Hq. unfold queue_candidate.
  assert (forall (P : Prop), (P -> X id) -> queue_ok s (fun x => X x \/ (x = id /\ P)) q) as Hsame.
  { intros P HP. eapply queue_ok_ext; [|by intros|exact Hq]. naive_solver. }
  case_bool_decide as Hin.
  { apply (qok_ids _ _ _ Hq) in Hin. exists q. split; [done|]. by apply Hsame. }
  destruct (get_block s id) as [[o b]|] eqn:Hg.
  2:{ exists q. split; [done|]. apply Hsame. intros HE. destruct (E_indexed s id HE). congruence. }
  destruct (can_decides s id o b Hwf Hg) as (c & -> & Hc). bind_simpl.
  destruct c; cbn [negb].
  2:{ exists q. split; [done|]. apply Hsame. intros HE. apply Hc in HE. done. }
  eexists. split; [done|]. rewrite (qok_ids _ _ _ Hq) in Hin.
  assert (E s id) as HE by (by apply Hc). destruct Hq as [Hi He Hn]. split; cbn.
  - intros x. rewrite elem_of_union, elem_of_singleton, Hi. naive_solver.
  - intros c. rewrite elem_of_cons, He. split.
    + intros [->|[? ?]]; [|by auto]. cbn. split; [by auto|]. eauto.
    + intros [[Hx|[Hx _]] Hb]; [by right|left]. destruct Hb as (o' & b' & Hb & ->).
      cbn in *. subst. rewrite Hg in Hb. by injection Hb as <- <-.
  - apply NoDup_cons. split; [|done]. rewrite He. cbn. tauto.
Qed.

Lemma queue_option_spec s X q p :
  index_wf s -> queue_ok s X q ->
  exists q', queue_candidate can s p q = Ok q' /\
    queue_ok s (fun x => X x \/ (Some x = p /\ E s x)) q'.
Proof.
  intros Hwf Hq. destruct p as [id|].
  - destruct (queue_candidate_spec s X q id Hwf Hq) as (q' & -> & Hq'). exists q'. split; [done|].
    eapply queue_ok_ext; [|by intros|exact Hq']. intros x. cbn. naive_solver.
  - exists q. split; [done|]. eapply queue_ok_ext; [|by intros|exact Hq]. naive_solver.
Qed.

Lemma queue_all_spec s ids X q :
  index_wf s -> queue_ok s X q ->
  exists q', queue_all can s ids q = Ok q' /\
    queue_ok s (fun x => X x \/ (x ∈ ids /\ E s x)) q'.
Proof.
  intros Hwf. revert X q. induction ids as [|id ids IH]; intros X q Hq; cbn [queue_all].
  - exists q. split; [done|]. eapply queue_ok_ext; [|by intros|exact Hq]. set_solver.
  - destruct (queue_candidate_spec s X q id Hwf Hq) as (q1 & -> & Hq1). bind_simpl.
    destruct (IH _ q1 Hq1) as (q' & -> & Hq'). exists q'. split; [done|].
    eapply queue_ok_ext; [|by intros|exact Hq']. intros x. cbn. set_solver.
Qed.

(** A queue of all qualifying blocks pops a least one at once. *)
Lemma pop_candidate_spec s q :
  index_wf s -> queue_ok s (E s) q ->
  (pop_candidate can s (length q.1) q = Ok (None, q) /\ forall id, ~ E s id) \/
  (exists id o b q', pop_candidate can s (length q.1) q = Ok (Some (o, b), q') /\
     get_block s id = Some (o, b) /\ E s id /\
     (forall id' o' b', E s id' -> get_block s id' = Some (o', b') ->
        candidate_lt (candidate_of id' b') (candidate_of id b) = false) /\
     queue_ok s (fun x => E s x /\ x <> id) q').
Proof.
  intros Hwf Hq. pose proof (heappop_spec q.1) as Hpop. destruct q as [h seen]. cbn [fst snd] in *.
  destruct (heappop h) as [[c rest]|] eqn:Eh.
  - right. destruct Hpop as [Hperm Hmin].
    assert (c ∈ h) as Hc by (rewrite Hperm; by left).
    pose proof (proj1 (qok_entries _ _ _ Hq c) Hc) as [HE (o & b & Hg & Hcb)].
    destruct (can_decides s c.2 o b Hwf Hg) as (k & Hk & Hke).
    assert (k = true) as -> by (by apply Hke).
    exists c.2, o, b, (rest, seen ∖ {[c.2]}). split_and!; [|done|done|..].
    + destruct (length h) as [|n] eqn:El; [by destruct h|].
      cbn [pop_candidate fst snd]. rewrite Eh, Hg, Hk. done.
    + intros id' o' b' HE' Hg'. rewrite <- Hcb. apply Hmin.
      apply (qok_entries _ _ _ Hq (candidate_of id' b')). cbn. eauto.
    + pose proof (qok_nodup _ _ _ Hq) as Hnd. cbn in Hnd. rewrite Hperm in Hnd.
      apply NoDup_cons in Hnd as [Hcr Hnd]. split; cbn [fst snd]; [..|done].
      * intros x. rewrite elem_of_difference, elem_of_singleton, (qok_ids _ _ _ Hq x). done.
      * intros d. pose proof (qok_entries _ _ _ Hq d) as Hd. cbn in Hd.
        rewrite Hperm, elem_of_cons in Hd. split.
        -- intros Hin. apply (fun h => proj1 Hd (or_intror h)) in Hin as Hin'.
           destruct Hin' as [HEd Hbd]. split_and!; [done| |done]. intros Heq. apply Hcr.
           destruct Hbd as (od & bd & Hgd & Hdd). rewrite Heq, Hg in Hgd. injection Hgd as <- <-.
           rewrite Hdd, Heq, <- Hcb in Hin. done.
        -- intros [[HEd Hne] Hbd]. destruct (proj2 Hd (conj HEd Hbd)) as [->|?]; [done|done].
  - left. subst h. split; [done|]. intros id HE. destruct (E_indexed s id HE) as [[o b] Hg].
    assert (candidate_of id b ∈ ([] : list candidate)) as Hin.
    { apply (qok_entries _ _ _ Hq). cbn. eauto. }
    by apply elem_of_nil in Hin.
Qed.
End queue.
