(* ===== verification/PrefixEviction.v ===== *)
(** * The prefix index: eviction

    [evict_until_weight] and [evict_host_until_freeable] remove leaves in
    priority order until enough is freed or nothing qualifies; what repeated
    leaf eviction can reach is exactly the freeable set. *)

From stdpp Require Import base gmap list strings.
From Stdlib Require Import ZArith Lia.
From S2P Require Import Prelude PyDict PyBytes Sha256 RoutingMembership RadixTree RadixForest PrefixHash.
From S2P Require Import PrefixIndex PrefixIndexFacts PrefixCapacity PrefixTransfer PrefixCommit PrefixQueue.

Section eviction.
Context {T : Type} `{BlockForest T} `{Digest}.
#[local] Abbreviation Index := (RadixPrefixIndex T).
#[local] Abbreviation IndexAct := (Act PyExn (RadixPrefixIndex T)).
Implicit Types (s : Index) (id : bytes) (o : nat) (b : PrefixCacheBlock).

(** A leaf that satisfies [P]; [evictable_spec] is the case of an unheld one. *)
Definition leaf_spec (P : PrefixCacheBlock -> Prop) s id : Prop :=
  block_sat s P id /\ forall x, ~ child_of s id x.

Definition unheld b : Prop := locally_blocked b = false.
(** What host eviction asks of a block. *)
Definition host_only b : Prop :=
  unheld b /\ device_present (residency b) = false /\ host_present (residency b) = true.

Lemma leaf_indexed P s id : leaf_spec P s id -> is_Some (get_block s id).
Proof. intros [(o & b & -> & _) _]. eauto. Qed.

Lemma leaf_sat P s id o b : get_block s id = Some (o, b) -> leaf_spec P s id -> P b.
Proof. intros Hg [(o' & b' & Hg' & HP) _]. congruence. Qed.

Lemma can_evict_decides s id o b : index_wf s -> get_block s id = Some (o, b) ->
  exists c, can_evict s b = Ok c /\ (c = true <-> leaf_spec unheld s id).
Proof.
  intros Hwf Hg. unfold can_evict. destruct (locally_blocked b) eqn:Hl.
  - exists false. split; [done|]. split; [done|]. intros Hs. apply (leaf_sat _ _ _ o b Hg) in Hs.
    unfold unheld in Hs. congruence.
  - rewrite (get_block_id s id o b Hwf Hg).
    destruct (child_count_zero s id o b Hwf Hg) as (n & -> & _ & Hn). bind_simpl.
    eexists. split; [done|]. rewrite Z.eqb_eq, Hn. split; [|by intros [_ ?]].
    intros Hno. split; [|done]. by exists o, b.
Qed.

Lemma can_evict_host_decides s id o b : index_wf s -> get_block s id = Some (o, b) ->
  exists c, can_evict_host s b = Ok c /\ (c = true <-> leaf_spec host_only s id).
Proof.
  intros Hwf Hg. unfold can_evict_host.
  assert (negb (ref_count b =? 0) || (eviction_priority b <? 0) || device_present (residency b)
     || negb (host_present (residency b)) || bool_decide (transfer (residency b) <> None) = false <-> host_only b) as Hh.
  { unfold host_only, unheld, locally_blocked. rewrite !orb_false_iff, !negb_false_iff. tauto. }
  destruct (_ || _) eqn:Hl.
  - exists false. split; [done|]. split; [done|]. intros Hs%(leaf_sat _ _ _ o b Hg). by apply Hh in Hs.
  - rewrite (get_block_id s id o b Hwf Hg).
    destruct (child_count_zero s id o b Hwf Hg) as (n & -> & _ & Hn). bind_simpl.
    eexists. split; [done|]. rewrite Z.eqb_eq, Hn. split; [|by intros [_ ?]].
    intros Hno. split; [|done]. exists o, b. split; [done|]. by apply Hh.
Qed.

(** ** One eviction *)

(** [s1] is [s] without [id]. *)
Definition without s id s1 : Prop :=
  forall x, get_block s1 x = if decide (x = id) then None else get_block s x.

Section without.
Context s s1 id o b (Hwf : index_wf s) (Hwf1 : index_wf s1) (Hg : get_block s id = Some (o, b))
  (Hout : without s id s1).

Lemma without_child y x : x <> id -> child_of s1 y x <-> child_of s y x.
Proof.
  intros Hx. unfold child_of. rewrite (iwf_forest s Hwf), (iwf_forest s1 Hwf1), Hout, decide_False by done. done.
Qed.

Lemma without_leaf P x : x <> id -> Some x <> parent_block_id b -> leaf_spec P s1 x <-> leaf_spec P s x.
Proof.
  intros Hx Hp. unfold leaf_spec, block_sat. rewrite Hout, decide_False by done.
  split; (intros [Hb Hno]; split; [done|]); intros y Hy; apply (Hno y).
  - apply without_child; [|done]. intros ->. apply Hp. unfold child_of in Hy.
    rewrite (forest_parent s id o b Hwf Hg) in Hy. congruence.
  - apply without_child; [|done]. intros ->. unfold child_of in Hy.
    by rewrite (iwf_forest s1 Hwf1), Hout, decide_True in Hy.
Qed.

Lemma without_leaf_mono P x : x <> id -> leaf_spec P s x -> leaf_spec P s1 x.
Proof.
  intros Hx [Hb Hno]. unfold leaf_spec, block_sat. rewrite Hout, decide_False by done.
  split; [done|]. intros y Hy. apply (Hno y). apply without_child; [|done]. intros ->.
  unfold child_of in Hy. by rewrite (iwf_forest s1 Hwf1), Hout, decide_True in Hy.
Qed.

Lemma without_not_leaf P : ~ leaf_spec P s1 id.
Proof. intros [(? & ? & Hb & _) _]. by rewrite Hout, decide_True in Hb. Qed.
End without.

(** Removing a popped leaf and queueing its parent keeps the queue complete. *)
Lemma evict_step {A} P can s q id o b (upd : CommitCounters -> CommitCounters)
    (K : nat -> candidate_queue -> IndexAct A) Q :
  (forall s id o b, index_wf s -> get_block s id = Some (o, b) ->
     exists c, can s b = Ok c /\ (c = true <-> leaf_spec P s id)) ->
  (forall b, P b -> unheld b) ->
  index_inv s -> get_block s id = Some (o, b) -> leaf_spec P s id ->
  queue_ok s (fun x => leaf_spec P s x /\ x <> id) q ->
  (forall s1 q1, index_inv s1 -> without s id s1 -> live s1 = live s - 1 -> config s1 = config s ->
     queue_ok s1 (leaf_spec P s1) q1 -> wp (K o q1) Q s1) ->
  wp (o ← remove_block_from_index (stable_block_id b);
      modify (fun s => s <| commits ::= upd |>) ;;
      q' ← ask (fun s => queue_candidate can s (parent_block_id b) q);
      K o q') Q s.
Proof.
  intros Hcan HP Hinv Hg Hleaf Hq HK. pose proof (proj1 Hinv) as Hwf.
  rewrite (get_block_id s id o b Hwf Hg). apply wp_bind.
  eapply wp_mono; [by apply remove_block_from_index_spec|]. cbv beta. intros [o'|e] s'.
  2:{ intros [_ Hno]. exfalso. apply Hno. split; [|by apply Hleaf]. exists o, b. split; [done|].
      apply HP. by apply (leaf_sat P s id o b Hg). }
  intros (Hinv' & _ & (b' & Hb') & Hout & Hlive & Hconf & _). assert (o' = o) as -> by congruence.
  apply wp_bind, wp_modify. cbv beta iota. set (s1 := s' <| commits ::= upd |>).
  assert (index_inv s1) as Hinv1.
  { apply (op_post_inv s' (Ok tt : exc unit)); [done|]. split; [by apply (index_wf_core s'); [|apply Hinv']|].
    split; [done|]. by right. }
  assert (without s id s1) as Hout1 by exact Hout. assert (live s1 = live s - 1) as Hl1 by exact Hlive.
  assert (config s1 = config s) as Hc1 by exact Hconf.
  clearbody s1. pose proof (proj1 Hinv1) as Hwf1. apply wp_bind, wp_ask.
  destruct (queue_option_spec can (leaf_spec P) Hcan (leaf_indexed P) s1
    (fun x => leaf_spec P s x /\ x <> id) q (parent_block_id b) Hwf1) as (q1 & -> & Hq1).
  { eapply queue_ok_ext; [..|exact Hq]; [done|]. intros x [_ Hx]. by rewrite (Hout1 x), decide_False. }
  apply HK; [done..|]. eapply queue_ok_ext; [|by intros|exact Hq1]. cbv beta. intros x. split.
  - intros [[Hx Hne]|[_ Hx]]; [|done]. by apply (without_leaf_mono s s1 id).
  - intros Hx. destruct (decide (Some x = parent_block_id b)) as [Hp|Hp]; [by right|]. left.
    assert (x <> id) as Hne by (intros ->; by apply (without_not_leaf s s1 id Hout1 P)).
    split; [|done]. by apply (without_leaf s s1 id o b).
Qed.

(** ** The trace of an eviction *)

(** [x] comes first among the leaves that qualify. *)
Definition least_leaf P s id b : Prop :=
  forall id' o' b', leaf_spec P s id' -> get_block s id' = Some (o', b') ->
    candidate_lt (candidate_of id' b') (candidate_of id b) = false.

Inductive evict_trace (P : PrefixCacheBlock -> Prop) : Index -> list (nat * PrefixCacheBlock) -> Index -> Prop :=
| evict_nil s : index_inv s -> evict_trace P s [] s
| evict_cons s id o b s1 l s' :
    index_inv s -> get_block s id = Some (o, b) -> leaf_spec P s id -> least_leaf P s id b ->
    without s id s1 -> live s1 = live s - 1 -> config s1 = config s ->
    evict_trace P s1 l s' -> evict_trace P s ((o, b) :: l) s'.

Lemma evict_trace_inv P s l s' : evict_trace P s l s' -> index_inv s /\ index_inv s'.
Proof. induction 1 as [|??????????????? IH]; [done|]. by split; [|apply IH]. Qed.

Lemma evict_trace_live P s l s' : evict_trace P s l s' ->
  live s' = live s - Z.of_nat (length l) /\ config s' = config s.
Proof. induction 1 as [|??????????????? [IH1 IH2]]; cbn; [split; [lia|done]|]. split; [lia|congruence]. Qed.

Definition weight_of (w : PrefixCacheBlock -> Z) (l : list (nat * PrefixCacheBlock)) : Z :=
  sumZ (w <$> l.*2).

Lemma weight_nil w : weight_of w [] = 0.
Proof. done. Qed.
Lemma weight_cons w o b l : weight_of w ((o, b) :: l) = w b + weight_of w l.
Proof. done. Qed.
Lemma weight_of_one l : weight_of (fun _ => 1) l = Z.of_nat (length l).
Proof. induction l as [|[o b] l IH]; [done|]. rewrite weight_cons, IH. cbn [length]. lia. Qed.

(** How the loops end: enough was freed, and not before the last victim, or
    nothing qualifies. *)
Definition evict_post P w needed got s (before : list nat) (r : exc (list nat)) s' : Prop :=
  exists l, r = Ok (before ++ l.*1) /\ evict_trace P s l s' /\
    (needed <= got + weight_of w l \/ forall id, ~ leaf_spec P s' id) /\
    (forall l1 x, l = l1 ++ [x] -> got + weight_of w l1 < needed).

Lemma evict_post_cons P w needed got s id o b s1 before r s' :
  index_inv s -> get_block s id = Some (o, b) -> leaf_spec P s id -> least_leaf P s id b ->
  without s id s1 -> live s1 = live s - 1 -> config s1 = config s -> got < needed ->
  evict_post P w needed (got + w b) s1 (before ++ [o]) r s' -> evict_post P w needed got s before r s'.
Proof.
  intros Hinv Hg Hl Hleast Hout Hlive Hconf Hlt (l & -> & Htr & Hstop & Hecon). exists ((o, b) :: l). split_and!.
  - by rewrite <- app_assoc.
  - by eapply evict_cons.
  - destruct Hstop as [Hs|Hs]; [left|by right]. rewrite weight_cons. lia.
  - intros [|y l1] x E; [rewrite weight_nil; lia|]. simpl in E. injection E as <- ->.
    specialize (Hecon l1 x eq_refl). rewrite weight_cons. lia.
Qed.

Lemma evict_loop_spec w fuel needed q before got s :
  (forall b, 0 <= w b) -> index_inv s -> queue_ok s (leaf_spec unheld s) q -> live s < Z.of_nat fuel ->
  wp (evict_loop w fuel needed q before got) (evict_post unheld w needed got s before) s.
Proof.
  intros Hw. revert q before got s. induction fuel as [|fuel IH]; intros q before got s Hinv Hq Hf.
  { unfold live in Hf. lia. }
  cbn [evict_loop].
  assert ((needed <= got \/ (forall id, ~ leaf_spec unheld s id)) ->
    evict_post unheld w needed got s before (Ok before) s) as Hend.
  { intros Hs. exists []. rewrite app_nil_r. split_and!; [done|by constructor| |by intros [] ?].
    by rewrite weight_nil, Z.add_0_r. }
  destruct (Z.leb_spec needed got); [apply wp_ret; auto|].
  apply wp_bind, wp_ask.
  destruct (pop_candidate_spec can_evict (leaf_spec unheld) can_evict_decides (leaf_indexed unheld) s q
    (proj1 Hinv) Hq) as [[-> Hnone]|(id & o & b & q' & -> & Hg & Hl & Hleast & Hq')]; [apply wp_ret; auto|].
  apply wp_bind, wp_guard; intros Hwb; [specialize (Hw b); bool_to_prop; lia|].
  eapply (evict_step unheld can_evict s q' id o b); [exact can_evict_decides|done|done..|].
  intros s1 q1 Hinv1 Hout Hlive Hconf Hq1. eapply wp_mono; [apply IH; [done..|lia]|].
  cbv beta. intros r s'. by apply (evict_post_cons unheld w needed got s id o b s1).
Qed.

Lemma queue_leaves P can s :
  (forall s id o b, index_wf s -> get_block s id = Some (o, b) ->
     exists c, can s b = Ok c /\ (c = true <-> leaf_spec P s id)) ->
  index_wf s -> exists q,
    queue_all can s (elements (forest_leaf_ids (backend s))) ([], ∅) = Ok q /\ queue_ok s (leaf_spec P s) q.
Proof.
  intros Hcan Hwf.
  destruct (queue_all_spec can (leaf_spec P) Hcan (leaf_indexed P) s
    (elements (forest_leaf_ids (backend s))) _ ([], ∅) Hwf (queue_ok_empty s)) as (q & Hq & Hok).
  exists q. split; [exact Hq|]. eapply queue_ok_ext; [|by intros|exact Hok]. cbv beta. intros id.
  rewrite elem_of_elements, (forest_leaves _ _ (iwf_backend s Hwf)). split; [by intros [?|[_ ?]]|].
  intros Hl. right. split; [|done]. split; [|apply Hl].
  apply (forest_present s id Hwf). by apply (leaf_indexed P).
Qed.

Lemma evict_until_weight_spec w needed s :
  (forall b, 0 <= w b) -> index_inv s ->
  wp (evict_until_weight w needed) (evict_post unheld w needed 0 s []) s.
Proof.
  intros Hw Hinv. unfold evict_until_weight. destruct (Z.leb_spec needed 0).
  - apply wp_ret. exists []. split_and!; [done|by constructor|by left|by intros [] ?].
  - apply wp_bind, wp_ask. destruct (queue_leaves unheld can_evict s can_evict_decides (proj1 Hinv)) as (q & -> & Hq).
    apply wp_bind, wp_read. cbv beta iota. apply evict_loop_spec; [done..|]. unfold live. lia.
Qed.

Lemma evict_host_loop_spec fuel needed q before s :
  index_inv s -> queue_ok s (leaf_spec host_only s) q -> live s < Z.of_nat fuel ->
  wp (evict_host_loop fuel needed q before)
    (evict_post host_only (fun _ => 1) needed (Z.of_nat (length before)) s before) s.
Proof.
  revert q before s. induction fuel as [|fuel IH]; intros q before s Hinv Hq Hf.
  { unfold live in Hf. lia. }
  cbn [evict_host_loop]. set (got := Z.of_nat (length before)).
  assert ((needed <= got \/ (forall id, ~ leaf_spec host_only s id)) ->
    evict_post host_only (fun _ => 1) needed got s before (Ok before) s) as Hend.
  { intros Hs. exists []. rewrite app_nil_r. split_and!; [done|by constructor| |by intros [] ?].
    by rewrite weight_nil, Z.add_0_r. }
  destruct (Z.leb_spec needed got); [apply wp_ret; auto|].
  apply wp_bind, wp_ask.
  destruct (pop_candidate_spec can_evict_host (leaf_spec host_only) can_evict_host_decides (leaf_indexed host_only) s q
    (proj1 Hinv) Hq) as [[-> Hnone]|(id & o & b & q' & -> & Hg & Hl & Hleast & Hq')]; [apply wp_ret; auto|].
  eapply (evict_step host_only can_evict_host s q' id o b); [exact can_evict_host_decides|by intros ? []|done..|].
  intros s1 q1 Hinv1 Hout Hlive Hconf Hq1. eapply wp_mono; [apply IH; [done..|lia]|].
  cbv beta. intros r s' Hr. apply (evict_post_cons host_only _ needed got s id o b s1); [done..|].
  rewrite length_app in Hr. cbn in Hr. by rewrite Nat2Z.inj_add in Hr.
Qed.

Lemma evict_host_until_freeable_spec needed s :
  index_inv s ->
  wp (evict_host_until_freeable needed) (evict_post host_only (fun _ => 1) needed 0 s []) s.
Proof.
  intros Hinv. unfold evict_host_until_freeable.
  apply wp_bind, wp_ask. destruct (queue_leaves host_only can_evict_host s can_evict_host_decides (proj1 Hinv)) as (q & -> & Hq).
  apply wp_bind, wp_read. cbv beta iota. apply evict_host_loop_spec; [done..|]. unfold live. lia.
Qed.

(** ** Eviction reaches exactly the freeable blocks *)

Definition trace_ids (l : list (nat * PrefixCacheBlock)) : list bytes := stable_block_id <$> l.*2.

Lemma without_below s s1 id x y :
  index_wf s -> index_wf s1 -> without s id s1 -> (forall z, ~ child_of s id z) ->
  y <> id -> below (forest_of (backend s)) x y <-> below (forest_of (backend s1)) x y.
Proof.
  intros Hwf Hwf1 Hout Hleaf Hy. unfold below. split; intros Hb; revert y Hb Hy.
  - refine (rtc_ind_l _ x _ _); [constructor|]. intros y z Hyz _ IH Hy.
    eapply rtc_l; [apply (without_child s s1 id Hwf Hwf1 Hout z y Hy); exact Hyz|].
    apply IH. intros ->. by apply (Hleaf y).
  - refine (rtc_ind_l _ x _ _); [constructor|]. intros y z Hyz _ IH Hy.
    apply (without_child s s1 id Hwf Hwf1 Hout z y Hy) in Hyz. eapply rtc_l; [exact Hyz|].
    apply IH. intros ->. by apply (Hleaf y).
Qed.

Lemma without_freeable s s1 id x :
  index_wf s -> index_wf s1 -> without s id s1 -> leaf_spec unheld s id ->
  freeable_spec s x <-> x = id \/ freeable_spec s1 x.
Proof.
  intros Hwf Hwf1 Hout [(o & b & Hg & Hu) Hleaf]. unfold freeable_spec, closure_spec, block_sat.
  destruct (decide (x = id)) as [->|Hx].
  - split; [by left|]. intros _. split; [eauto|]. intros y Hy o' b' Hy'.
    apply rtc_inv_r in Hy as [->|(z & _ & Hz)]; [congruence|]. by destruct (Hleaf z).
  - rewrite (Hout x), decide_False by done. split.
    + intros [Hb Hc]. right. split; [done|]. intros y Hy o' b' Hy'. rewrite (Hout y) in Hy'.
      case_decide as Hyi; [done|]. apply (Hc y) with o'; [|done]. by apply (without_below s s1 id x y).
    + intros [?|[Hb Hc]]; [done|]. split; [done|]. intros y Hy o' b' Hy'.
      destruct (decide (y = id)) as [->|Hyi]; [assert (b' = b) as -> by congruence; exact Hu|].
      apply (Hc y) with o'; [by apply (without_below s s1 id x y)|]. by rewrite (Hout y), decide_False.
Qed.

Lemma trace_gone P s l s' id : evict_trace P s l s' -> get_block s id = None -> get_block s' id = None.
Proof.
  intros Htr. induction Htr as [|s x o b s1 l s' _ _ _ _ Hout _ _ _ IH]; [done|].
  intros Hn. apply IH. rewrite (Hout id). by case_decide.
Qed.

Lemma trace_freeable s l s' : evict_trace unheld s l s' ->
  NoDup (trace_ids l) /\
  (forall x, freeable_spec s x <-> x ∈ trace_ids l \/ freeable_spec s' x) /\
  (forall x, x ∈ trace_ids l -> is_Some (get_block s x) /\ get_block s' x = None).
Proof.
  induction 1 as [s Hinv|s id o b s1 l s' Hinv Hg Hl Hleast Hout _ _ Htr (Hnd & Hf & Hids)].
  - split_and!; [constructor| |by intros x Hx%elem_of_nil]. intros x. split; [by right|].
    by intros [Hx%elem_of_nil|?].
  - destruct (evict_trace_inv _ _ _ _ Htr) as [Hinv1 Hinv'].
    unfold trace_ids in *. cbn. rewrite (get_block_id s id o b (proj1 Hinv) Hg). split_and!.
    + apply NoDup_cons. split; [|done]. intros Hin. destruct (Hids id Hin) as [[? Hb] _].
      by rewrite (Hout id), decide_True in Hb.
    + intros x. rewrite (without_freeable s s1 id x (proj1 Hinv) (proj1 Hinv1) Hout Hl), Hf, elem_of_cons. tauto.
    + intros x [->|Hx]%elem_of_cons.
      * split; [eauto|]. apply (trace_gone _ _ _ _ _ Htr). by rewrite (Hout id), decide_True.
      * destruct (Hids x Hx) as [[y Hy] Hn]. split; [|done]. rewrite (Hout x) in Hy.
        case_decide; [done|eauto].
Qed.

(** The deepest freeable block is an unheld leaf. *)
Lemma argmax {A} (f : A -> nat) (l : list A) : l <> [] -> exists x, x ∈ l /\ forall y, y ∈ l -> (f y <= f x)%nat.
Proof.
  induction l as [|a l IH]; [done|]. intros _. destruct l as [|c l'].
  - exists a. split; [by left|]. by intros y ->%list_elem_of_singleton.
  - destruct IH as (x & Hx & Hmax); [done|]. destruct (le_lt_dec (f a) (f x)) as [Hle|Hlt].
    + exists x. split; [by right|]. by intros y [->|Hy]%elem_of_cons; auto.
    + exists a. split; [by left|]. intros y [->|Hy]%elem_of_cons; [done|]. specialize (Hmax y Hy). lia.
Qed.

Lemma freeable_child s x y : index_wf s -> freeable_spec s x -> child_of s x y -> freeable_spec s y.
Proof.
  intros Hwf [_ Hc] Hy. split.
  - apply (child_of_block s x y Hwf) in Hy as (o & b & Hb & _). by exists o, b.
  - intros z Hz. apply Hc. unfold below in *. etrans; [exact Hz|]. by apply rtc_once.
Qed.

Lemma freeable_leaf s (F : gset bytes) : index_wf s -> (forall x, x ∈ F <-> freeable_spec s x) ->
  F <> ∅ -> exists y, leaf_spec unheld s y.
Proof.
  intros Hwf HF Hne. destruct (forest_ranked _ (iwf_backend s Hwf)) as [rank Hrank].
  destruct (argmax rank (elements F)) as (y & Hy & Hmax); [by intros ?%elements_empty_inv%leibniz_equiv|].
  rewrite elem_of_elements in Hy. exists y. pose proof (proj1 (HF y) Hy) as Hfy. split.
  - destruct Hfy as [(o & b & Hb & _) Hc]. exists o, b. split; [done|]. by apply (Hc y (rtc_refl _ _) o).
  - intros z Hz. assert (z ∈ F) as HzF by (apply HF; by eapply freeable_child).
    specialize (Hmax z). rewrite elem_of_elements in Hmax. specialize (Hmax HzF).
    destruct (Hrank z y Hz). lia.
Qed.

(** The number of blocks eviction returns. *)
Lemma evict_count s (l : list (nat * PrefixCacheBlock)) s' (needed : Z) (F : gset bytes) :
  evict_trace unheld s l s' -> (forall x, x ∈ F <-> freeable_spec s x) -> 0 <= needed ->
  (needed <= Z.of_nat (length l) \/ forall id, ~ leaf_spec unheld s' id) ->
  (forall l1 x, l = l1 ++ [x] -> Z.of_nat (length l1) < needed) ->
  Z.of_nat (length l) = Z.min needed (Z.of_nat (size F)).
Proof.
  intros Htr HF Hn Hstop Hecon. destruct (trace_freeable s l s' Htr) as (Hnd & Hf & Hids).
  assert (length l = length (trace_ids l)) as Hlen by (unfold trace_ids; by rewrite !length_fmap).
  assert (list_to_set (trace_ids l) ⊆ F) as Hsub.
  { intros x. rewrite elem_of_list_to_set, HF, Hf. by left. }
  pose proof (subseteq_size _ _ Hsub) as Hsz. rewrite size_list_to_set in Hsz by done.
  assert (Z.of_nat (length l) <= needed) as Hle.
  { destruct l as [|y l _] using rev_ind; [simpl; lia|]. specialize (Hecon l y eq_refl).
    rewrite length_app. simpl. lia. }
  destruct Hstop as [Hstop|Hnone]; [lia|].
  assert (size F = length l) as Heq; [|lia]. rewrite Hlen, <- (size_list_to_set (C := gset bytes)) by done.
  f_equal. apply (anti_symm (⊆)); [|done]. intros x Hx. rewrite elem_of_list_to_set.
  destruct (proj1 (Hf x) (proj1 (HF x) Hx)) as [?|Hx']; [done|]. exfalso.
  destruct (evict_trace_inv _ _ _ _ Htr) as [_ [Hwf' _]].
  destruct (freeable_leaf s' (F ∖ list_to_set (trace_ids l)) Hwf') as [y Hy]; [| |by apply (Hnone y)].
  - intros z. rewrite elem_of_difference, elem_of_list_to_set, HF, Hf. split; [tauto|].
    intros Hz. split; [by right|]. intros Hin. destruct (Hids z Hin) as [_ Hnn].
    destruct Hz as [(? & ? & Hzb & _) _]. congruence.
  - intros He. assert (x ∈ (∅ : gset bytes)) as Hxe; [|set_solver]. rewrite <- He.
    rewrite elem_of_difference, elem_of_list_to_set. split; [done|]. intros Hin.
    destruct (Hids x Hin) as [_ Hnn]. destruct Hx' as [(? & ? & Hzb & _) _]. congruence.
Qed.
End eviction.
