(* ===== verification/PrefixControl.v ===== *)
(** * The prefix index: lookups, capacity and subtree control

    The remaining operations of the index: token lookups, chains, routing
    snapshots, [ensure_insert_capacity], subtree deletion and priorities. *)

From stdpp Require Import base gmap list strings.
From Stdlib Require Import ZArith Lia.
From S2P Require Import Prelude PyDict PyBytes Sha256 RoutingMembership RadixTree RadixForest PrefixHash.
From S2P Require Import PrefixIndex PrefixIndexFacts PrefixCapacity PrefixTransfer PrefixCommit PrefixQueue PrefixEviction.

Section control.
Context {T : Type} `{BlockForest T} `{Digest}.
#[local] Abbreviation Index := (RadixPrefixIndex T).
#[local] Abbreviation IndexAct := (Act PyExn (RadixPrefixIndex T)).
Implicit Types (s : Index) (id : bytes) (o : nat) (b : PrefixCacheBlock).

(** ** Steps outside the invariant's view *)

(** Only counters (or the routing snapshot) differ. *)
Definition frame s s' : Prop :=
  config s' = config s /\ store s' = store s /\ blocks s' = blocks s /\ backend s' = backend s /\
  membership s' = membership s /\ views s' = views s /\ epochs s' = epochs s /\
  routing_snapshot_cache s' = routing_snapshot_cache s.

Lemma frame_core s s' : frame s s' -> core s' = core s.
Proof. intros (E1 & E2 & E3 & E4 & E5 & _ & _ & E8). unfold core. congruence. Qed.

Lemma frame_inv s s' : frame s s' -> index_inv s -> index_inv s'.
Proof.
  intros Hf Hinv. pose proof (frame_core s s' Hf) as Hc. destruct Hf as (_ & _ & _ & _ & _ & Hv & He & _).
  apply (index_inv_step s); [done|by apply (index_wf_core s); [|apply Hinv]|]. split; [done|]. right.
  split; [by rewrite He|]. intros id. unfold cap_block. by rewrite (core_get_block s' s).
Qed.

Lemma frame_refl s : frame s s.
Proof. done. Qed.
Lemma frame_trans s1 s2 s3 : frame s1 s2 -> frame s2 s3 -> frame s1 s3.
Proof.
  intros (A1 & A2 & A3 & A4 & A5 & A6 & A7 & A8) (B1 & B2 & B3 & B4 & B5 & B6 & B7 & B8).
  unfold frame. split_and!; congruence.
Qed.

(** ** Lookups *)

Lemma block_ids_for_tokens_spec toks mt s :
  wp (block_ids_for_tokens toks mt) (fun r s' => frame s s' /\
    r = block_ids_of_tokens (block_size (config s)) (fingerprint (config s)) toks mt) s.
Proof. unfold block_ids_for_tokens. apply wp_bind, wp_modify, wp_ask. done. Qed.

(** The hit is the longest cached path of ids, in tokens and in blocks. *)
Definition longest_hit s (ids : list bytes) (h : nat) : Prop :=
  (h <= length ids)%nat /\
  (forall i x, (i < h)%nat -> ids !! i = Some x ->
    forest_of (backend s) x = Some (match i with O => None | S j => ids !! j end)) /\
  (forall x, ids !! h = Some x -> forest_of (backend s) x <> Some (last (take h ids))).

Lemma match_longest_block_ids_spec s ids : index_wf s ->
  exists h, longest_hit s ids h /\
    match_longest_block_ids s ids =
      Ok (Z.of_nat h * block_size (config s), last (take h ids), Z.of_nat h).
Proof.
  intros Hwf. destruct (forest_lookup_spec (backend s) ids (Z.of_nat (length ids)) (iwf_backend s Hwf))
    as (h & Hr & Hle & Hp & Hm).
  rewrite Z.min_id, Nat2Z.id in Hle, Hm. exists h. split.
  - split_and!; [done|done|]. intros x Hx. apply Hm; [by apply lookup_lt_Some in Hx|done].
  - unfold match_longest_block_ids. rewrite Hr. bind_simpl. cbn [hit_block_count last_block_id].
    destruct h as [|h]; cbn; [done|]. destruct (Z.leb_spec (Z.pos (Pos.of_succ_nat h)) 0); [lia|done].
Qed.

Lemma lookup_longest_block_ids_spec s ids : index_wf s ->
  wp (lookup_longest_block_ids ids) (fun r s' => frame s s' /\
    exists h, longest_hit s ids h /\
      r = Ok (Z.of_nat h * block_size (config s), last (take h ids), Z.of_nat h) /\
      lookup_requests (lookups s') = lookup_requests (lookups s) + 1 /\
      hit_tokens (lookups s') = hit_tokens (lookups s) + Z.of_nat h * block_size (config s) /\
      hit_blocks (lookups s') = hit_blocks (lookups s) + Z.of_nat h) s.
Proof.
  intros Hwf. unfold lookup_longest_block_ids. apply wp_bind, wp_modify. cbv beta iota.
  set (s1 := s <| lookups ::= _ |>). assert (index_wf s1) as Hwf1 by (by apply (index_wf_core s)).
  destruct (match_longest_block_ids_spec s1 ids Hwf1) as (h & Hh & Hm).
  apply wp_bind, wp_ask. rewrite Hm. cbv beta iota. change (block_size (config s1)) with (block_size (config s)) in *.
  wp_step; bool_to_prop.
  - apply wp_ret. split; [done|]. exists h. split; [exact Hh|]. replace h with 0%nat in * by lia.
    cbn. split_and!; [done|lia..].
  - apply wp_bind, wp_modify, wp_ret. split; [done|]. exists h. split; [exact Hh|]. cbn. split_and!; [done|lia..].
Qed.

Lemma lookup_longest_prefix_frame toks n s : index_wf s ->
  wp (lookup_longest_prefix toks n) (fun _ s' => frame s s') s.
Proof.
  intros Hwf. unfold lookup_longest_prefix. apply wp_bind. eapply wp_mono; [apply block_ids_for_tokens_spec|].
  cbv beta. intros [ids|e] s1 [Hf _]; [|done].
  assert (index_wf s1) as Hwf1 by (by apply (index_wf_core s); [symmetry; apply frame_core|]).
  eapply wp_mono; [by apply lookup_longest_block_ids_spec|]. cbv beta. intros r s2 [Hf2 _].
  by apply (frame_trans s s1).
Qed.

Lemma match_longest_prefix_frame toks n s : wp (match_longest_prefix toks n) (fun _ s' => frame s s') s.
Proof.
  unfold match_longest_prefix. apply wp_bind. eapply wp_mono; [apply block_ids_for_tokens_spec|].
  cbv beta. intros [ids|e] s1 [Hf _]; [|done]. by apply wp_ask.
Qed.

(** ** Chains *)

Lemma chain_objects_spec s ids : index_wf s -> (forall id, id ∈ ids -> is_Some (get_block s id)) ->
  exists os, chain_objects s ids = Ok os /\
    Forall2 (fun o id => exists b, get_block s id = Some (o, b)) os ids.
Proof.
  intros Hwf. induction ids as [|id ids IH]; intros Hin; cbn.
  - exists []. split; [done|constructor].
  - destruct (Hin id) as [[o b] Hg]; [by left|].
    pose proof Hg as (Hb & _)%(get_block_Some s id o b Hwf). rewrite Hb.
    destruct IH as (os & -> & Hos); [intros; apply Hin; by right|]. bind_simpl.
    eexists. split; [done|]. constructor; eauto.
Qed.

(** [get_chain] of an indexed block: the last [n] blocks of its path, ending
    with it; a longer request raises. *)
Lemma get_chain_spec s id n : index_wf s -> is_Some (get_block s id) -> 0 < n ->
  exists path, last path = Some id /\
    (forall i x, path !! i = Some x ->
      forest_of (backend s) x = Some (match i with O => None | S j => path !! j end)) /\
    if Z.of_nat (length path) <? n
    then get_chain s id n = Raise (RuntimeError "Prefix cache chain is shorter than expected")
    else exists os, get_chain s id n = Ok os /\ Z.of_nat (length os) = n /\
      Forall2 (fun o x => exists b, get_block s x = Some (o, b)) os
        (drop (length path - Z.to_nat n) path).
Proof.
  intros Hwf Hid Hn. apply (forest_present s id Hwf) in Hid.
  destruct (forest_path_spec _ _ (iwf_backend s Hwf) Hid) as (path & Hp & Hlast & Hpath).
  exists path. split_and!; [done|done|]. unfold get_chain.
  destruct (Z.leb_spec n 0); [lia|]. rewrite Hp. bind_simpl.
  destruct (Z.ltb_spec (Z.of_nat (length path)) n); [done|].
  replace (Z.to_nat (Z.of_nat (length path) - n)) with (length path - Z.to_nat n)%nat by lia.
  destruct (chain_objects_spec s (drop (length path - Z.to_nat n) path) Hwf) as (os & Hos & Hf2).
  { intros x [i Hi]%list_elem_of_lookup. rewrite lookup_drop in Hi. apply Hpath in Hi.
    apply (forest_present s x Hwf). eauto. }
  exists os. split_and!; [done| |done]. rewrite (Forall2_length _ _ _ Hf2), length_drop. lia.
Qed.

(** ** Routing snapshots *)

Lemma routing_snapshot_spec method s : index_wf s ->
  wp (routing_snapshot method) (fun r s' =>
    index_wf s' /\ cap_step s s' /\ (forall id, get_block s' id = get_block s id) /\
    exists sn, r = Ok sn /\ snapshot_method sn = method /\ supported sn = true /\ enabled sn = true /\
      snapshot_block_size sn = Some (block_size (config s)) /\
      snapshot_fingerprint sn = fingerprint (config s) /\
      routing_membership sn = Some (membership s)) s.
Proof.
  intros Hwf. unfold routing_snapshot. apply wp_bind, wp_read. cbv beta iota.
  assert (live_blocks (membership s) = live s) as Hlive.
  { rewrite (membership_live_size _ _ (iwf_members s Hwf)). unfold live, ids_of. f_equal.
    rewrite size_list_to_set by apply Hwf. by rewrite dict_len_keys. }
  match goal with |- wp (match _ with None => ?m | Some _ => _ end) ?Q _ => assert (wp m Q s) as Hfresh end.
  { apply wp_bind, wp_guard; intros Hg; [bool_to_prop; done|]. apply wp_bind, wp_modify, wp_ret.
    split_and!; [|by split; [|right]|done|by eexists].
    destruct Hwf as [E1 E2 E3 E4 E5 E6 E7 E8 E9]. split; try done. intros sn [= <-]. done. }
  destruct (routing_snapshot_cache s) as [sn|] eqn:Hsn; [|exact Hfresh].
  destruct (String.eqb_spec (snapshot_method sn) method) as [Hm|]; cbn [negb]; [|exact Hfresh].
  apply wp_ret. split_and!; [done|apply cap_step_refl|done|]. exists sn.
  destruct (iwf_snapshot s Hwf sn Hsn) as (? & ? & ? & ? & ?). done.
Qed.

(** The membership decides what the index holds. *)
Lemma membership_has_block s id : index_wf s -> membership_contains (membership s) id = has_block s id.
Proof.
  intros Hwf. rewrite (membership_contains_wf _ _ _ (iwf_members s Hwf)). unfold has_block, has_key.
  apply bool_decide_ext. apply ids_of_elem.
Qed.

(** ** Making room *)

Lemma ensure_insert_capacity_spec needed s : index_inv s ->
  wp (ensure_insert_capacity needed) (fun r s' => index_inv s' /\
    match max_blocks (config s) with
    | None => r = Ok [] /\ s' = s
    | Some m =>
        if needed <=? 0 then r = Raise (ValueError "needed_blocks must be > 0") /\ s' = s
        else
          let over := Z.max 0 (live s + needed - m) in
          forall F : gset bytes, (forall x, x ∈ F <-> freeable_spec s x) ->
          if over <=? Z.of_nat (size F)
          then exists l s1, r = Ok l.*1 /\ evict_trace unheld s l s1 /\ Z.of_nat (length l) = over /\
                 s' = s1 /\ live s' + needed <= m
          else exists e, r = Raise e
    end) s.
Proof.
  intros Hinv. unfold ensure_insert_capacity. apply wp_bind, wp_read. cbv beta iota.
  destruct (max_blocks (config s)) as [m|] eqn:Hm; [|by apply wp_ret].
  apply wp_bind, wp_guard; intros Hn; rewrite Hn; [done|].
  apply wp_bind, wp_read. cbv beta iota. set (over := live s + needed - m). wp_step; bool_to_prop.
  - apply wp_ret. split; [done|]. intros F HF. rewrite Z.max_l by lia.
    rewrite (proj2 (Z.leb_le _ _)) by lia. exists [], s. split_and!; [done|by constructor|cbn; lia|done|lia].
  - apply wp_bind. unfold evict_until_freeable.
    eapply wp_mono; [apply evict_until_weight_spec; [intros; lia|done]|].
    cbv beta. intros r s1 (l & -> & Htr & Hstop & Hecon).
    setoid_rewrite weight_of_one in Hecon. rewrite weight_of_one in Hstop. rewrite !Z.add_0_l in Hstop.
    destruct (evict_trace_inv _ _ _ _ Htr) as [_ Hinv1].
    destruct (evict_trace_live _ _ _ _ Htr) as [Hlive _].
    assert (forall F : gset bytes, (forall x, x ∈ F <-> freeable_spec s x) ->
      Z.of_nat (length l) = Z.min over (Z.of_nat (size F))) as Hcount.
    { intros F HF. apply (evict_count s l s1 over F); try done; lia. }
    cbn [app]. rewrite length_fmap. apply wp_bind, wp_when; intros Heq; bool_to_prop.
    + unfold evictable_blocks. apply wp_bind, wp_bind. eapply wp_mono; [by apply evictable_block_ids_spec|].
      cbv beta. intros r s2 (Hinv2 & _ & _ & ids & -> & _). apply wp_ret, wp_throw. split; [done|].
      intros F HF. specialize (Hcount F HF). rewrite Z.max_r by lia.
      rewrite (proj2 (Z.leb_gt _ _)) by lia. eauto.
    + apply wp_ret. split; [done|]. intros F HF. specialize (Hcount F HF). rewrite Z.max_r by lia.
      rewrite (proj2 (Z.leb_le _ _)) by lia. exists l, s1. split_and!; [done..|lia].
Qed.
End control.
