(* ===== verification/PrefixSubtree.v ===== *)
(** * The prefix index: subtree deletion and priorities

    [safe_delete_subtree] plans deepest-first and then removes exactly the
    freeable blocks of the subtree; [set_subtree_eviction_priority] writes one
    priority to the whole subtree. *)

From stdpp Require Import base gmap list strings.
From Stdlib Require Import ZArith Lia.
From S2P Require Import Prelude PyDict PyBytes Sha256 RoutingMembership RadixTree RadixWalks RadixForest PrefixHash.
From S2P Require Import PrefixIndex PrefixIndexFacts PrefixCapacity PrefixTransfer PrefixCommit PrefixQueue PrefixEviction PrefixControl.

(** ** The sort *)

Section sort.
Context {A : Type} (key : A -> nat).

Lemma insert_desc_perm x l : insert_desc key x l ≡ₚ x :: l.
Proof.
  induction l as [|y l IH]; cbn [insert_desc]; [done|]. destruct (key x <? key y)%nat; [|done]. rewrite IH. apply perm_swap.
Qed.
Lemma sort_desc_perm l : sort_desc key l ≡ₚ l.
Proof. induction l as [|x l IH]; cbn; [done|]. unfold sort_desc in IH. by rewrite insert_desc_perm, IH. Qed.

Definition desc_sorted (l : list A) : Prop :=
  forall l1 x l2, l = l1 ++ x :: l2 -> forall y, y ∈ l2 -> (key y <= key x)%nat.

Lemma desc_sorted_cons x l : desc_sorted l -> (forall y, y ∈ l -> (key y <= key x)%nat) -> desc_sorted (x :: l).
Proof. intros Hl Hx [|z l1] a l2 E; injection E as -> ->; [done|]. by apply (Hl l1). Qed.
Lemma desc_sorted_tail x l : desc_sorted (x :: l) -> desc_sorted l /\ forall y, y ∈ l -> (key y <= key x)%nat.
Proof.
  intros Hl. split; [|by apply (Hl [] x l)]. intros l1 a l2 E. apply (Hl (x :: l1)). by rewrite E.
Qed.

Lemma insert_desc_sorted x l : desc_sorted l -> desc_sorted (insert_desc key x l).
Proof.
  induction l as [|y l IH]; intros Hl; cbn [insert_desc].
  - apply desc_sorted_cons; [done|]. by intros ? ?%elem_of_nil.
  - apply desc_sorted_tail in Hl as [Hl Hy]. destruct (Nat.ltb_spec (key x) (key y)).
    + apply desc_sorted_cons; [by apply IH|]. intros z. rewrite insert_desc_perm.
      intros [->|Hz]%elem_of_cons; [lia|auto].
    + apply desc_sorted_cons; [by apply desc_sorted_cons|]. intros z [->|Hz]%elem_of_cons; [lia|].
      specialize (Hy z Hz). lia.
Qed.
Lemma sort_desc_sorted l : desc_sorted (sort_desc key l).
Proof.
  induction l as [|x l IH]; cbn; [|by apply insert_desc_sorted]. by intros [] ? ? ?.
Qed.
End sort.

Section subtree.
Context {T : Type} `{BlockForest T} `{Digest}.
#[local] Abbreviation Index := (RadixPrefixIndex T).
#[local] Abbreviation IndexAct := (Act PyExn (RadixPrefixIndex T)).
Implicit Types (s : Index) (id : bytes) (o : nat) (b : PrefixCacheBlock).

(** ** Planning *)

(** A block is freeable when it is unheld and its children are freeable. *)
Lemma freeable_unfold s id o b : index_wf s -> get_block s id = Some (o, b) ->
  freeable_spec s id <-> locally_blocked b = false /\ forall y, child_of s id y -> freeable_spec s y.
Proof.
  intros Hwf Hg. split.
  - intros Hf. split; [by apply (proj2 Hf id (rtc_refl _ _) o)|]. intros y. by apply freeable_child.
  - intros [Hu Hc]. split; [by exists o, b|]. intros x Hx o' b' Hb'.
    apply rtc_inv_r in Hx as [->|(y & Hx & Hy)]; [congruence|].
    by apply (proj2 (Hc y Hy) x Hx o').
Qed.

Definition named s (os : list nat) (ids : list bytes) : Prop :=
  Forall2 (fun o id => exists b, get_block s id = Some (o, b)) os ids.

Lemma existsb_unplanned (planned : gset bytes) children :
  existsb (fun c => negb (bool_decide (c ∈ planned))) children = false <-> forall c, c ∈ children -> c ∈ planned.
Proof.
  rewrite <- not_true_iff_false, existsb_exists. split.
  - intros Hn c Hc. destruct (decide (c ∈ planned)) as [|Hnp]; [done|]. exfalso. apply Hn.
    exists c. split; [by apply list_elem_of_In|]. by rewrite bool_decide_eq_false_2.
  - intros Hall (c & Hc & Hb). apply list_elem_of_In, Hall in Hc. by rewrite bool_decide_eq_true_2 in Hb.
Qed.

(** [reason is None] when the block is unheld and its children are planned. *)
Lemma delete_block_reason_spec s planned id o b : index_wf s -> get_block s id = Some (o, b) ->
  exists why, delete_block_reason s planned id b = Ok why /\
    (why = None <-> locally_blocked b = false /\ forall y, child_of s id y -> y ∈ planned).
Proof.
  intros Hwf Hg. unfold delete_block_reason, locally_blocked.
  pose proof (proj1 (proj2 (iwf_residency s Hwf id o b Hg))) as Href.
  destruct (Z.ltb_spec 0 (ref_count b)).
  { eexists. split; [done|]. destruct (Z.eqb_spec (ref_count b) 0); [lia|]. naive_solver. }
  destruct (Z.eqb_spec (ref_count b) 0); [|lia]. cbn [negb orb].
  destruct (eviction_priority b <? 0); [eexists; split; [done|]; naive_solver|].
  case_bool_decide; [eexists; split; [done|]; naive_solver|].
  destruct (forest_children (backend s) id (iwf_backend s Hwf)) as (l & -> & _ & _ & Hel).
  { apply (forest_present s id Hwf). eauto. }
  bind_simpl. destruct (existsb _ l) eqn:Hex; eexists; (split; [done|]).
  - split; [done|]. intros [_ Hall]. apply not_false_iff_true in Hex. exfalso. apply Hex.
    apply existsb_unplanned. intros c Hc. by apply Hall, Hel.
  - split; [|done]. intros _. split; [done|]. intros y Hy. by apply (proj1 (existsb_unplanned _ _) Hex), Hel.
Qed.

(** Children come before their parents. *)
Definition children_first s (before ids : list bytes) : Prop :=
  forall l1 x l2, ids = l1 ++ x :: l2 -> forall y, child_of s x y -> y ∈ before ++ l1.

Definition plan_result s ids d dids : Prop :=
  named s (deleted d) dids /\ dids `sublist_of` ids /\
  (forall x, x ∈ ids -> x ∈ dids <-> freeable_spec s x) /\
  (forall x, x ∈ ids -> ~ freeable_spec s x -> exists w, (Some x, w) ∈ blocked d).

Lemma plan_delete_spec s ids before planned :
  index_wf s -> (forall x, x ∈ ids -> is_Some (get_block s x)) -> NoDup (before ++ ids) ->
  children_first s before ids ->
  (forall x, x ∈ planned <-> x ∈ before /\ freeable_spec s x) ->
  exists d dids, plan_delete s ids planned = Ok d /\ plan_result s ids d dids.
Proof.
  intros Hwf. revert before planned. induction ids as [|id ids IH]; intros before planned Hin Hnd Hord Hpl; cbn.
  { exists (mkDelete [] []), []. split; [done|]. split_and!; [constructor|constructor| |]; by intros x Hx%elem_of_nil. }
  destruct (Hin id) as [[o b] Hg]; [by left|]. rewrite Hg.
  destruct (delete_block_reason_spec s planned id o b Hwf Hg) as (why & -> & Hwhy). bind_simpl.
  assert (why = None <-> freeable_spec s id) as Hfree.
  { rewrite Hwhy, (freeable_unfold s id o b Hwf Hg).
    assert (forall y, child_of s id y -> y ∈ before) as Hb.
    { intros y Hy. specialize (Hord [] id ids eq_refl y Hy). by rewrite app_nil_r in Hord. }
    split; intros [Hu Hc]; (split; [done|]); intros y Hy; apply Hpl; [by apply Hc|by auto]. }
  pose proof Hnd as Hnd'. rewrite <- Permutation_middle in Hnd'. apply NoDup_cons in Hnd' as [Hidn _].
  rewrite elem_of_app in Hidn.
  assert (forall planned', (forall x, x ∈ planned' <-> x ∈ before ++ [id] /\ freeable_spec s x) ->
    exists d dids, plan_delete s ids planned' = Ok d /\ plan_result s ids d dids) as Hrec.
  { intros planned' Hp'. apply (IH (before ++ [id])); [intros; apply Hin; by right| | |done].
    - by rewrite <- app_assoc.
    - intros l1 x l2 -> y Hy. rewrite <- app_assoc. by apply (Hord (id :: l1) x l2). }
  destruct why as [w|].
  - assert (~ freeable_spec s id) as Hnf by (by intros Hf%Hfree).
    destruct (Hrec planned) as (d & dids & -> & Hn & Hsub & Hiff & Hbl).
    { intros x. rewrite Hpl, elem_of_app, list_elem_of_singleton. naive_solver. }
    bind_simpl. exists (mkDelete (deleted d) ((Some id, w) :: blocked d)), dids. split; [done|]. split_and!.
    + exact Hn.
    + by constructor.
    + intros x [->|Hx]%elem_of_cons; [|by apply Hiff]. split; [|done]. intros Hd. exfalso. apply Hidn. right.
      by eapply elem_of_sublist.
    + intros x [->|Hx]%elem_of_cons Hx'; [exists w; by left|]. destruct (Hbl x Hx Hx') as [w' ?].
      exists w'. by right.
  - assert (freeable_spec s id) as Hf by (by apply Hfree).
    destruct (Hrec ({[id]} ∪ planned)) as (d & dids & -> & Hn & Hsub & Hiff & Hbl).
    { intros x. rewrite elem_of_union, elem_of_singleton, Hpl, elem_of_app, list_elem_of_singleton. naive_solver. }
    bind_simpl. exists (mkDelete (o :: deleted d) (blocked d)), (id :: dids). split; [done|]. split_and!.
    + constructor; [by exists b|exact Hn].
    + by constructor.
    + intros x [->|Hx]%elem_of_cons; [split; [done|by left]|]. rewrite elem_of_cons, <- (Hiff x Hx). naive_solver.
    + intros x [->|Hx]%elem_of_cons Hx'; [done|]. by apply Hbl.
Qed.

(** ** Applying the plan *)

Lemma named_without s s1 id os ids : without s id s1 -> id ∉ ids -> named s os ids -> named s1 os ids.
Proof.
  intros Hout Hni Hn. induction Hn as [|o x os ids [b Hb] Hn IH]; [constructor|].
  apply not_elem_of_cons in Hni as [Hx Hni]. constructor; [|by apply IH].
  exists b. by rewrite (Hout x), decide_False by congruence.
Qed.

Lemma apply_delete_spec s os dids :
  index_inv s -> named s os dids -> NoDup dids -> children_first s [] dids ->
  (forall x, x ∈ dids -> block_sat s unheld x) ->
  wp (apply_delete os) (fun r s' => r = Ok os /\ index_inv s' /\
    forall x, get_block s' x = if decide (x ∈ dids) then None else get_block s x) s.
Proof.
  intros Hinv Hn. revert s Hinv Hn. revert os.
  induction dids as [|id dids IH]; intros os s Hinv Hn Hnd Hord Hsat;
    apply Forall2_cons_inv_r in Hn || apply Forall2_nil_inv_r in Hn.
  { subst os. apply wp_ret. split_and!; [done|done|]. intros x. by rewrite decide_False by (by intros ?%elem_of_nil). }
  destruct Hn as (o & os' & [b Hg] & Hn & ->). pose proof (proj1 Hinv) as Hwf. cbn [apply_delete].
  pose proof Hg as (Hid & Ho & Hst)%(get_block_Some s id o b Hwf).
  apply NoDup_cons in Hnd as [Hidn Hnd].
  apply wp_bind, wp_deref; [|congruence]. intros b' Hb'. assert (b' = b) as -> by congruence.
  apply wp_bind, wp_read. cbv beta iota. apply wp_bind, wp_guard; intros Hstale.
  { unfold not_indexed in Hstale. bool_to_prop. by rewrite Hst in Hstale. }
  rewrite Hst. apply wp_bind. eapply wp_mono; [by apply remove_block_from_index_spec|]. cbv beta.
  intros [o'|e] s1.
  2:{ intros [_ Hno]. exfalso. apply Hno. split; [apply Hsat; by left|]. intros y Hy.
      specialize (Hord [] id dids eq_refl y Hy). by apply elem_of_nil in Hord. }
  intros (Hinv1 & _ & (b1 & Hb1) & Hout & _). assert (o' = o) as -> by congruence.
  apply wp_bind, wp_modify. cbv beta iota. set (s2 := s1 <| commits ::= _ |>).
  assert (index_inv s2) as Hinv2 by (by apply (frame_inv s1)).
  assert (forall x, get_block s2 x = if decide (x = id) then None else get_block s x) as Hout2 by exact Hout.
  clearbody s2. apply wp_bind. eapply wp_mono; [apply (IH os' s2); try done|].
  - by apply (named_without s s2 id).
  - intros l1 x l2 -> y Hy.
    assert (child_of s x y /\ y <> id) as [Hy' Hyid].
    { assert (y <> id) as Hyid.
      { intros ->. unfold child_of in Hy. by rewrite (iwf_forest s2 (proj1 Hinv2)), Hout2, decide_True in Hy. }
      split; [|done]. by apply (without_child s s2 id Hwf (proj1 Hinv2) Hout2 x y Hyid). }
    specialize (Hord (id :: l1) x l2 eq_refl y Hy'). cbn in *. by apply elem_of_cons in Hord as [?|?].
  - intros x Hx. unfold block_sat. rewrite Hout2, decide_False by (by intros ->). apply Hsat. by right.
  - cbv beta. intros r s3 (-> & Hinv3 & Hg3). apply wp_ret. split_and!; [done|done|].
    intros x. rewrite Hg3, Hout2. destruct (decide (x = id)) as [->|Hne].
    + rewrite (decide_True (P := id ∈ id :: dids)) by (by left). by case_decide.
    + rewrite (decide_ext (x ∈ dids) (x ∈ id :: dids)) by (rewrite elem_of_cons; naive_solver). done.
Qed.

(** ** The subtree a token list names *)

(** [root] is the block of the last id of [toks], all of whose blocks are
    indexed. *)
Definition selects s (toks : list Z) (root : bytes) : Prop :=
  exists ids, block_ids_of_tokens (block_size (config s)) (fingerprint (config s)) toks None = Ok ids /\
    last ids = Some root /\ longest_hit s ids (length ids).

Lemma selects_present s toks root : selects s toks root -> is_Some (forest_of (backend s) root).
Proof.
  intros (ids & _ & Hl & _ & Hp & _). apply last_snoc_inv in Hl as [l' ->].
  rewrite (Hp (length l') root); [eauto|rewrite length_app; simpl; lia|by apply list_lookup_middle].
Qed.

(** The lookup both control operations start with. *)
Lemma lookup_root s ids : index_wf s -> ids <> [] ->
  exists r, forest_lookup (backend s) ids (Z.of_nat (length ids)) = Ok r /\
    match last_block_id r with
    | Some root => hit_block_count r = Z.of_nat (length ids) ->
        last ids = Some root /\ longest_hit s ids (length ids)
    | None => True
    end.
Proof.
  intros Hwf Hne. destruct (forest_lookup_spec (backend s) ids (Z.of_nat (length ids)) (iwf_backend s Hwf))
    as (h & -> & Hle & Hp & Hm). rewrite Z.min_id, Nat2Z.id in Hle, Hm.
  eexists. split; [done|]. cbn [last_block_id hit_block_count].
  destruct (last (take h ids)) as [root|] eqn:Hl; [|done]. intros Hh%Nat2Z.inj. subst h.
  rewrite take_ge in Hl by done. split; [done|]. split_and!; [done|done|].
  intros x Hx. apply lookup_lt_Some in Hx. lia.
Qed.

Lemma exact_subtree_spec toks s : index_wf s ->
  wp (exact_subtree_ids_for_tokens toks) (fun r s' => frame s s' /\
    match r with
    | Ok (Some l) => exists root, selects s toks root /\ NoDup l /\
        forall x, x ∈ l <-> below (forest_of (backend s)) root x
    | Ok None => True
    | Raise e => block_ids_of_tokens (block_size (config s)) (fingerprint (config s)) toks None = Raise e
    end) s.
Proof.
  intros Hwf. unfold exact_subtree_ids_for_tokens. apply wp_bind.
  eapply wp_mono; [apply block_ids_for_tokens_spec|]. cbv beta. intros r s1 [Hf ->].
  destruct (block_ids_of_tokens _ _ toks None) as [ids|e] eqn:Hids; [|done].
  pose proof (frame_core s s1 Hf) as Hc. assert (backend s1 = backend s) as Hb by apply Hf.
  destruct ids as [|i0 ids0] eqn:Hne; [by apply wp_ret|]. rewrite <- Hne in *.
  destruct (lookup_root s ids Hwf) as (r & Hr & Hroot); [by rewrite Hne|].
  apply wp_bind, wp_ask. rewrite Hb, Hr. destruct (last_block_id r) as [root|]; [|by apply wp_ret].
  destruct (Z.eqb_spec (hit_block_count r) (Z.of_nat (length ids))) as [Hh|]; [|by apply wp_ret].
  destruct (Hroot Hh) as [Hlast Hlong].
  assert (selects s toks root) as Hsel by (by exists ids).
  destruct (forest_subtree_spec (backend s) root (iwf_backend s Hwf) (selects_present s toks root Hsel))
    as (l & Hl & Hnd & Hel).
  apply wp_bind, wp_ask. rewrite Hb, Hl. apply wp_ret. split; [done|]. by exists root.
Qed.

Lemma path_lengths_spec s ids : index_wf s -> (forall x, x ∈ ids -> is_Some (forest_of (backend s) x)) ->
  exists depth : bytes -> nat,
    path_lengths s ids = Ok ((fun x => (x, depth x)) <$> ids) /\
    (forall x y, x ∈ ids -> y ∈ ids -> child_of s x y -> (depth x < depth y)%nat).
Proof.
  intros Hwf Hin.
  exists (fun x => match forest_path (backend s) x with Ok l => length l | Raise _ => O end). split.
  - induction ids as [|x ids IH]; [done|]. cbn [path_lengths].
    destruct (forest_path_spec _ x (iwf_backend s Hwf)) as (l & Hl & _); [apply Hin; by left|].
    rewrite Hl. bind_simpl. rewrite IH by (intros; apply Hin; by right). bind_simpl. cbn [fmap list_fmap].
    by rewrite Hl.
  - intros x y Hx Hy Hc.
    destruct (forest_path_spec _ y (iwf_backend s Hwf) (Hin y Hy)) as (ly & -> & Hly & Hpy).
    destruct (forest_path_spec _ x (iwf_backend s Hwf) (Hin x Hx)) as (lx & -> & Hlx & Hpx).
    rewrite (path_in_child _ lx ly x y Hpx Hlx Hpy Hly Hc), length_app. simpl. lia.
Qed.

(** ** Safe deletion *)

(** Deepest-first order puts children before parents. *)
Lemma sorted_children_first s root l depth :
  (forall x, x ∈ l <-> below (forest_of (backend s)) root x) -> NoDup l ->
  (forall x y, x ∈ l -> y ∈ l -> child_of s x y -> (depth x < depth y)%nat) ->
  let sorted := (sort_desc snd ((fun x => (x, depth x)) <$> l)).*1 in
  sorted ≡ₚ l /\ children_first s [] sorted.
Proof.
  intros Hl Hnd Hd. set (keyed := (fun x => (x, depth x)) <$> l). cbv zeta.
  assert ((sort_desc snd keyed).*1 ≡ₚ l) as Hperm.
  { rewrite (sort_desc_perm snd keyed). unfold keyed. rewrite <- list_fmap_compose. cbn. by rewrite list_fmap_id. }
  split; [done|]. intros l1 x l2 E y Hy.
  assert (x ∈ l) as Hx by (rewrite <- Hperm, E; set_solver).
  assert (y ∈ l) as Hyl.
  { apply Hl. apply Hl in Hx. unfold below in *. eapply rtc_l; [exact Hy|done]. }
  specialize (Hd x y Hx Hyl Hy).
  assert (y ∈ l1 ++ x :: l2) as Hin by (by rewrite <- E, Hperm).
  apply elem_of_app in Hin as [?|[->|Hin]%elem_of_cons]; [done|lia|]. exfalso.
  apply fmap_app_inv in E as (k1 & k2 & E1 & E2 & Es). symmetry in E2.
  apply fmap_cons_inv in E2 as (kx & k2' & Ex & E2 & ->).
  assert (forall k, k ∈ keyed -> k.2 = depth k.1) as Hk.
  { unfold keyed. by intros k (z & -> & _)%list_elem_of_fmap. }
  rewrite E2 in Hin. apply list_elem_of_fmap in Hin as (ky & -> & Hky).
  pose proof (sort_desc_sorted snd keyed k1 kx k2' Es ky Hky) as Hle.
  assert (kx ∈ keyed /\ ky ∈ keyed) as [Hkx Hky'].
  { rewrite <- (sort_desc_perm snd keyed), Es. set_solver. }
  rewrite (Hk kx Hkx), (Hk ky Hky'), <- Ex in Hle. lia.
Qed.

Lemma sublist_children_first s sorted dids :
  NoDup sorted -> children_first s [] sorted -> dids `sublist_of` sorted ->
  (forall x y, x ∈ dids -> child_of s x y -> y ∈ dids) -> children_first s [] dids.
Proof.
  intros Hnd Hcf Hsub Hclosed l1 x l2 -> y Hy. cbn.
  assert (y ∈ l1 ++ x :: l2) as Hin by (apply (Hclosed x); [set_solver|done]).
  apply sublist_app_l in Hsub as (k1 & k2 & -> & Hs1 & Hs2).
  apply sublist_cons_l in Hs2 as (m1 & m2 & -> & Hs2).
  assert (y ∈ k1 ++ m1) as Hearly.
  { apply (Hcf (k1 ++ m1) x m2); [by rewrite <- app_assoc|done]. }
  rewrite app_assoc in Hnd. apply NoDup_app in Hnd as (_ & Hdisj & Hnd).
  specialize (Hdisj y Hearly).
  apply elem_of_app in Hin as [?|[->|Hin]%elem_of_cons]; [done|..]; exfalso; apply Hdisj.
  - by left.
  - right. by apply (elem_of_sublist l2).
Qed.

(** The plan for a subtree names its freeable blocks, children first. *)
Lemma preview_delete_spec toks s : index_wf s ->
  wp (preview_delete_subtree toks) (fun r s' => frame s s' /\
    match r with
    | Ok d => d = mkDelete [] [(None, "not_found"%string)] \/
        exists root dids, selects s toks root /\ named s (deleted d) dids /\ NoDup dids /\
          children_first s [] dids /\
          (forall x, x ∈ dids <-> below (forest_of (backend s)) root x /\ freeable_spec s x) /\
          (forall x, below (forest_of (backend s)) root x -> ~ freeable_spec s x ->
             exists w, (Some x, w) ∈ blocked d)
    | Raise e => block_ids_of_tokens (block_size (config s)) (fingerprint (config s)) toks None = Raise e
    end) s.
Proof.
  intros Hwf. unfold preview_delete_subtree. apply wp_bind. eapply wp_mono; [by apply exact_subtree_spec|].
  cbv beta. intros [[l|]|e] s1; [|intros [Hf _]; apply wp_ret; by auto|done].
  intros [Hf (root & Hsel & Hnd & Hel)]. pose proof (frame_core s s1 Hf) as Hc.
  assert (index_wf s1) as Hwf1 by (by apply (index_wf_core s)).
  assert (forall x, freeable_spec s1 x <-> freeable_spec s x) as Hfree.
  { assert (same_cap s s1) as Hs by (intros x; unfold cap_block; by rewrite (core_get_block s1 s)).
    intros x. split; apply freeable_cap; auto using same_cap_sym. }
  assert (backend s1 = backend s) as Hb by apply Hf.
  assert (forall x, x ∈ l -> is_Some (forest_of (backend s1) x)) as Hin.
  { intros x Hx%Hel. rewrite Hb. apply rtc_inv in Hx as [->|(y & Hy & _)]; [|eauto].
    by apply (selects_present s toks). }
  destruct (path_lengths_spec s1 l Hwf1 Hin) as (depth & Hpl & Hdep).
  apply wp_ask. split; [done|]. rewrite Hpl. bind_simpl.
  rewrite <- Hb in Hel. destruct (sorted_children_first s1 root l depth Hel Hnd Hdep) as [Hperm Hcf].
  set (sorted := (sort_desc snd _).*1) in *.
  destruct (plan_delete_spec s1 sorted [] ∅ Hwf1) as (d & dids & -> & Hn & Hsub & Hiff & Hbl).
  { intros x. rewrite Hperm. intros Hx%Hin. by apply (forest_present s1 x Hwf1). }
  { by rewrite Hperm. }
  { exact Hcf. }
  { intros x. rewrite elem_of_nil. set_solver. }
  right. exists root, dids.
  assert (forall x, x ∈ dids <-> below (forest_of (backend s)) root x /\ freeable_spec s x) as Hd.
  { intros x. rewrite <- Hfree, <- Hb, <- Hel, <- Hperm. split.
    - intros Hx. assert (x ∈ sorted) by (by eapply elem_of_sublist). split; [done|]. by apply Hiff.
    - intros [Hx ?]. by apply Hiff. }
  split_and!; [done| | | |exact Hd|].
  - eapply Forall2_impl; [exact Hn|]. intros o x [b Hb']. exists b. by rewrite <- (core_get_block s1 s).
  - eapply sublist_NoDup; [|exact Hsub]. by rewrite Hperm.
  - apply (sublist_children_first s sorted); [by rewrite Hperm| |done|].
    + intros l1 x l2 E y Hy. apply (Hcf l1 x l2 E). unfold child_of in *. by rewrite Hb.
    + intros x y [Hx Hfx]%Hd Hy. apply Hd. split; [|by apply (freeable_child s x)].
      unfold below in *. by eapply rtc_l.
  - intros x Hx Hnf. apply Hbl; [by rewrite Hperm, Hel, Hb|]. by rewrite Hfree.
Qed.

Lemma safe_delete_spec toks s : index_inv s ->
  wp (safe_delete_subtree toks) (fun r s' => index_inv s' /\
    match r with
    | Ok d => (d = mkDelete [] [(None, "not_found"%string)] /\ forall x, get_block s' x = get_block s x) \/
        exists root dids, selects s toks root /\ named s (deleted d) dids /\ NoDup dids /\
          (forall x, x ∈ dids <-> below (forest_of (backend s)) root x /\ freeable_spec s x) /\
          (forall x, get_block s' x = if decide (x ∈ dids) then None else get_block s x) /\
          (forall x, below (forest_of (backend s)) root x -> ~ freeable_spec s x ->
             exists w, (Some x, w) ∈ blocked d)
    | Raise e => (forall x, get_block s' x = get_block s x) /\
        block_ids_of_tokens (block_size (config s)) (fingerprint (config s)) toks None = Raise e
    end) s.
Proof.
  intros Hinv. unfold safe_delete_subtree. apply wp_bind, wp_modify. cbv beta iota.
  set (s0 := s <| controls ::= _ |>). assert (frame s s0) as Hf0 by done.
  assert (index_inv s0) as Hinv0 by (by apply (frame_inv s)).
  apply wp_bind. eapply wp_mono; [apply preview_delete_spec, Hinv0|]. cbv beta.
  intros [d|e] s1 [Hf1 Hd]; [|split; [by apply (frame_inv s0)|]; split; [|exact Hd]; intros x;
    by rewrite (core_get_block s1 s0) by (by apply frame_core)].
  pose proof (frame_trans _ _ _ Hf0 Hf1) as Hf. pose proof (frame_core _ _ Hf) as Hc.
  assert (index_inv s1) as Hinv1 by (by apply (frame_inv s)).
  assert (forall x, get_block s1 x = get_block s x) as Hg1 by (intros x; by apply core_get_block).
  destruct Hd as [->|(root & dids & Hsel & Hn & Hnd & Hcf & Hdids & Hbl)]; cbn [deleted blocked].
  - apply wp_bind, wp_ret, wp_ret. split; [done|]. by left.
  - assert (backend s1 = backend s) as Hb by apply Hf.
    apply wp_bind. eapply wp_mono; [apply (apply_delete_spec s1 (deleted d) dids Hinv1)|].
    + eapply Forall2_impl; [exact Hn|]. intros o x [b Hx]. exists b. by rewrite Hg1.
    + done.
    + intros l1 x l2 E y Hy. apply (Hcf l1 x l2 E). unfold child_of in *. change (backend s0) with (backend s).
      by rewrite <- Hb.
    + intros x [_ [Hx Hcx]]%Hdids. destruct Hx as (o & b & Hx & _). exists o, b. split; [by rewrite Hg1|].
      by apply (Hcx x (rtc_refl _ _) o).
    + cbv beta. intros r s2 (-> & Hinv2 & Hg2). apply wp_ret. split; [done|]. right.
      exists root, dids. split_and!; [exact Hsel|exact Hn|done|exact Hdids| |exact Hbl].
      intros x. by rewrite Hg2, Hg1.
Qed.

(** ** Priorities *)

Lemma set_priority_inv toks priority s : index_inv s ->
  wp (set_subtree_eviction_priority toks priority) (fun r s' => index_inv s') s.
Proof.
  intros Hinv. unfold set_subtree_eviction_priority. apply wp_bind, wp_modify. cbv beta iota.
  set (s0 := s <| controls ::= _ |>).
  assert (index_inv s0) as Hinv0 by (by apply (frame_inv s)). clearbody s0.
  apply wp_bind. eapply wp_mono; [apply block_ids_for_tokens_spec|]. cbv beta. intros r s1 [Hf ->].
  assert (index_inv s1) as Hinv1 by (by apply (frame_inv s0)).
  destruct (block_ids_of_tokens _ _ toks None) as [ids|e]; [|done].
  destruct ids as [|i0 ids0] eqn:Hne; [by apply wp_ret|]. rewrite <- Hne.
  destruct (lookup_root s1 ids (proj1 Hinv1)) as (r & Hr & Hroot); [by rewrite Hne|].
  apply wp_bind, wp_ask. rewrite Hr. destruct (last_block_id r) as [root|]; [|by apply wp_ret].
  wp_step; [|by apply wp_ret]. apply wp_bind, wp_ask.
  destruct (forest_subtree (backend s1) root) as [l|e]; [|done].
  apply wp_bind. eapply wp_mono; [apply (update_priorities_spec l priority s1); try done; apply Hinv1|].
  cbv beta. intros [[[n c] k]|e] s2 (Hwf2 & Hv2 & He2 & Hk); [|done].
  apply wp_bind. destruct k.
  - apply wp_mark_capacity, wp_ret. apply (index_inv_step s1); [done|by apply capacity_bumped_wf|].
    split; [exact Hv2|]. left. cbn. lia.
  - assert (index_inv s2) as Hinv2.
    { apply (index_inv_step s1); [done..|]. split; [done|]. right. auto. }
    apply wp_when; intros _; [apply wp_mark_mutated|]; apply wp_ret; [|done].
    apply (index_inv_step s2); [done|by apply mutation_bumped_wf|]. split; [done|]. by right.
Qed.
End subtree.
