(* ===== verification/PrefixDemotion.v ===== *)
(** * The prefix index: device demotion

    [demote_device_until_weight] drops device copies that the host backs, in
    priority order, device leaves first, until enough is freed or no block
    qualifies; the device-resident blocks stay closed upwards. *)

From stdpp Require Import base gmap list strings.
From Stdlib Require Import ZArith Lia.
From S2P Require Import Prelude PyDict PyBytes Sha256 RoutingMembership RadixTree RadixForest PrefixHash.
From S2P Require Import PrefixIndex PrefixIndexFacts PrefixCapacity PrefixTransfer PrefixCommit PrefixQueue PrefixEviction.

Section demotion.
Context {T : Type} `{BlockForest T} `{Digest}.
#[local] Abbreviation Index := (RadixPrefixIndex T).
#[local] Abbreviation IndexAct := (Act PyExn (RadixPrefixIndex T)).
Implicit Types (s : Index) (id : bytes) (o : nat) (b : PrefixCacheBlock).

(** An unheld block with both copies. *)
Definition backed b : Prop :=
  unheld b /\ device_present (residency b) = true /\ host_present (residency b) = true.

(** No child of [id] is on the device. *)
Definition device_leaf s id : Prop :=
  forall c oc cb, get_block s c = Some (oc, cb) -> parent_block_id cb = Some id ->
    device_present (residency cb) = false.

Definition demotable_spec s id : Prop := block_sat s backed id /\ device_leaf s id.

Lemma demotable_indexed s id : demotable_spec s id -> is_Some (get_block s id).
Proof. intros [(o & b & -> & _) _]. eauto. Qed.

Lemma device_child_count_spec s id o b : index_wf s -> get_block s id = Some (o, b) ->
  exists n, device_child_count s id = Ok n /\ (n = 0 <-> device_leaf s id).
Proof.
  intros Hwf Hg. destruct (forest_children (backend s) id (iwf_backend s Hwf)) as (l & Hl & _ & _ & Hel).
  { apply (forest_present s id Hwf). eauto. }
  eexists. split; [unfold device_child_count; rewrite Hl; bind_simpl; reflexivity|]. split.
  - intros Hz. assert (device_child_count s id = Ok 0) as Hzero.
    { unfold device_child_count. rewrite Hl. bind_simpl. by rewrite Hz. }
    intros c oc cb. by apply (device_child_count_zero s id o b Hwf Hg Hzero).
  - intros Hleaf. destruct (List.filter _ l) as [|c l'] eqn:Hf; [done|]. exfalso.
    assert (In c (List.filter (fun c => match get_block s c with
      | Some (_, b) => device_present (residency b) | None => false end) l)) as Hin by (rewrite Hf; by left).
    apply List.filter_In in Hin as [Hin Hd]. apply list_elem_of_In, Hel in Hin.
    apply (child_of_block s id c Hwf) in Hin as (oc & cb & Hc & Hp). rewrite Hc in Hd.
    by rewrite (Hleaf c oc cb Hc Hp) in Hd.
Qed.

Lemma can_demote_decides s id o b : index_wf s -> get_block s id = Some (o, b) ->
  exists c, can_demote_device s b = Ok c /\ (c = true <-> demotable_spec s id).
Proof.
  intros Hwf Hg. unfold can_demote_device.
  assert (negb (ref_count b =? 0) || (eviction_priority b <? 0) || negb (device_present (residency b))
     || negb (host_present (residency b)) || bool_decide (transfer (residency b) <> None) = false <-> backed b) as Hh.
  { unfold backed, unheld, locally_blocked. rewrite !orb_false_iff, !negb_false_iff. tauto. }
  destruct (_ || _) eqn:Hl.
  - exists false. split; [done|]. split; [done|]. intros [(o' & b' & Hg' & Hb) _].
    assert (b' = b) as -> by congruence. by apply Hh in Hb.
  - rewrite (get_block_id s id o b Hwf Hg).
    destruct (device_child_count_spec s id o b Hwf Hg) as (n & -> & Hn). bind_simpl.
    eexists. split; [done|]. rewrite Z.eqb_eq, Hn. split; [|by intros [_ ?]].
    intros Hd. split; [|done]. exists o, b. split; [done|]. by apply Hh.
Qed.

(** ** One demotion *)

Definition dropped b : PrefixCacheBlock := b <| residency ::= fun r => r <| device_present := false |> |>.

(** [s1] is [s] with the device copy of [id] dropped. *)
Definition demoted s id s1 : Prop :=
  forall x, get_block s1 x = match get_block s x with
    | Some (o, b) => Some (o, if decide (x = id) then dropped b else b)
    | None => None
    end.

Lemma demoted_mono s s1 id x : demoted s id s1 -> x <> id -> demotable_spec s x -> demotable_spec s1 x.
Proof.
  intros Hd Hx [(o & b & Hb & HP) Hleaf]. split.
  - exists o, b. by rewrite (Hd x), Hb, decide_False.
  - intros c oc cb Hc Hp. rewrite (Hd c) in Hc. destruct (get_block s c) as [[o' b']|] eqn:Hc'; [|done].
    injection Hc as <- <-. case_decide; [done|]. by apply (Hleaf c o' b').
Qed.

Lemma demoted_new s s1 id o b x : index_wf s -> demoted s id s1 -> get_block s id = Some (o, b) ->
  demotable_spec s1 x -> (demotable_spec s x /\ x <> id) \/ Some x = parent_block_id b.
Proof.
  intros Hwf Hd Hg [(o' & b' & Hb & HP) Hleaf]. rewrite (Hd x) in Hb.
  destruct (get_block s x) as [[o1 b1]|] eqn:Hx; [|done]. injection Hb as <- <-.
  case_decide as Hxi; [by destruct HP as (_ & ? & _)|].
  destruct (decide (Some x = parent_block_id b)) as [|Hp]; [by right|]. left. split; [|done].
  split; [by exists o1, b1|]. intros c oc cb Hc Hpc.
  destruct (decide (c = id)) as [->|Hci]; [assert (cb = b) as -> by congruence; congruence|].
  apply (Hleaf c oc cb); [|done]. by rewrite (Hd c), Hc, decide_False.
Qed.

(** The writes of one round. *)
Lemma demote_write s id o b (upd : CommitCounters -> CommitCounters) Q :
  index_inv s -> get_block s id = Some (o, b) -> demotable_spec s id ->
  (forall s1, index_inv s1 -> demoted s id s1 -> blocks s1 = blocks s -> Q (Ok tt) s1) ->
  wp (set_residency o (fun r => r <| device_present := false |>) ;;
      validate_residency o ;;
      modify (fun s => s <| commits ::= upd |>) ;;
      mark_capacity_mutated) Q s.
Proof.
  intros Hinv Hg [(o' & b' & Hg' & Hu & Hdev & Hhost) Hleaf] HQ. pose proof (proj1 Hinv) as Hwf.
  assert (b' = b) as -> by congruence. clear o' Hg'.
  pose proof Hg as (Hid & Ho & Hst)%(get_block_Some s id o b Hwf).
  assert (transfer (residency b) = None) as Htr.
  { unfold unheld, locally_blocked in Hu. bool_to_prop. by apply dec_stable. }
  set (f := fun b => b <| residency ::= fun r => r <| device_present := false |> |>).
  assert (forall x, get_block (updated s o f) x = match get_block s x with
    | Some (o, b) => Some (o, if decide (x = id) then dropped b else b) | None => None end) as Hupd.
  { intros x. rewrite updated_get_block. destruct (get_block s x) as [[o1 b1]|] eqn:Hx; [|done]. do 2 f_equal.
    case_decide as E1; case_decide as E2; try done; subst.
    - exfalso. apply E2. by eapply (get_block_object s x _ o b1 b).
    - congruence. }
  assert (residency_validate (residency (f b)) = Ok tt) as Hval.
  { unfold f. cbn. rewrite Hhost, Htr. done. }
  assert (index_wf (updated s o f)) as Hwf'.
  { apply updated_wf; [done|done|]. intros x b1 Hx.
    assert (x = id) as -> by (by apply (get_block_object s x id o b1 b)).
    assert (b1 = b) as -> by congruence.
    destruct (iwf_residency s Hwf id o b Hg) as (_ & Href & Hp). split_and!; [done|done|..].
    - intros p op pb Hpb Hgp _. rewrite Hpb in Hp. destruct Hp as (o2 & pb2 & Hg2 & Hc).
      assert (pb2 = pb) as -> by congruence. by split; [|apply Hc].
    - intros c oc cb Hc Hpc _. split; [|done]. intros E. by rewrite (Hleaf c oc cb Hc Hpc) in E. }
  apply wp_bind, wp_update_block. cbv beta iota. fold f. apply wp_bind. unfold validate_residency.
  apply wp_bind, wp_deref.
  2:{ unfold updated. cbn. rewrite lookup_alter_eq, Ho. done. }
  intros b1 Hb1. unfold updated in Hb1. cbn in Hb1. rewrite lookup_alter_eq, Ho in Hb1.
  injection Hb1 as Hb1. subst b1. apply wp_lift. change (residency _) with (residency (f b)). rewrite Hval.
  apply wp_bind, wp_modify. cbv beta iota. apply wp_mark_capacity. apply HQ; [|exact Hupd|done].
  apply (index_inv_step s); [done|by apply (index_wf_core (updated s o f))|]. split; [done|]. left. cbn. lia.
Qed.

(** ** The loop *)

(** The blocks on the device. *)
Definition on_device s id : bool :=
  match get_block s id with Some (_, b) => device_present (residency b) | None => false end.
Definition device_ids s : gset bytes := filter (fun id => on_device s id = true) (ids_of s).

Lemma demoted_device_ids s s1 id : index_wf s -> demoted s id s1 -> blocks s1 = blocks s ->
  demotable_spec s id -> (size (device_ids s1) < size (device_ids s))%nat.
Proof.
  intros Hwf Hd Hb [(o & b & Hg & _ & Hdev & _) _]. apply subset_size.
  assert (ids_of s1 = ids_of s) as Hids by (unfold ids_of; by rewrite Hb).
  assert (forall x, on_device s1 x = true <-> on_device s x = true /\ x <> id) as Hon.
  { intros x. unfold on_device. rewrite (Hd x). destruct (get_block s x) as [[o1 b1]|]; [|naive_solver].
    case_decide; cbn; naive_solver. }
  unfold device_ids. rewrite Hids. split.
  - intros x. rewrite !elem_of_filter, Hon. tauto.
  - intros Hsub. specialize (Hsub id). rewrite !elem_of_filter, Hon in Hsub.
    destruct Hsub as [[_ ?] _]; [|done]. split.
    + unfold on_device. by rewrite Hg.
    + apply ids_of_elem. apply (get_block_Some s id o b Hwf) in Hg as (-> & _). eauto.
Qed.

Definition least_demotable s id b : Prop :=
  forall id' o' b', demotable_spec s id' -> get_block s id' = Some (o', b') ->
    candidate_lt (candidate_of id' b') (candidate_of id b) = false.

Inductive demote_trace : Index -> list (nat * PrefixCacheBlock) -> Index -> Prop :=
| demote_nil s : index_inv s -> demote_trace s [] s
| demote_cons s id o b s1 l s' :
    index_inv s -> get_block s id = Some (o, b) -> demotable_spec s id -> least_demotable s id b ->
    demoted s id s1 -> demote_trace s1 l s' -> demote_trace s ((o, b) :: l) s'.

Definition demote_post w needed got s (before : list nat) (r : exc (list nat)) s' : Prop :=
  exists l, r = Ok (before ++ l.*1) /\ demote_trace s l s' /\
    (needed <= got + weight_of w l \/ forall id, ~ demotable_spec s' id) /\
    (forall l1 x, l = l1 ++ [x] -> got + weight_of w l1 < needed).

Lemma demote_loop_spec w fuel needed q before got s :
  (forall b, 0 <= w b) -> index_inv s -> queue_ok s (demotable_spec s) q ->
  (size (device_ids s) < fuel)%nat ->
  wp (demote_loop w fuel needed q before got) (demote_post w needed got s before) s.
Proof.
  intros Hw. revert q before got s. induction fuel as [|fuel IH]; intros q before got s Hinv Hq Hf; [lia|].
  cbn [demote_loop].
  assert ((needed <= got \/ (forall id, ~ demotable_spec s id)) -> demote_post w needed got s before (Ok before) s) as Hend.
  { intros Hs. exists []. rewrite app_nil_r. split_and!; [done|by constructor| |by intros [] ?].
    by rewrite weight_nil, Z.add_0_r. }
  destruct (Z.leb_spec needed got); [apply wp_ret; auto|].
  apply wp_bind, wp_ask.
  destruct (pop_candidate_spec can_demote_device demotable_spec can_demote_decides demotable_indexed s q
    (proj1 Hinv) Hq) as [[-> Hnone]|(id & o & b & q' & -> & Hg & Hl & Hleast & Hq')]; [apply wp_ret; auto|].
  apply wp_bind, wp_guard; intros Hwb; [specialize (Hw b); bool_to_prop; lia|].
  assert (forall (m1 m2 m3 m4 : IndexAct unit) (k : IndexAct (list nat)) Q,
    wp (m1 ;; m2 ;; m3 ;; m4) (fun r s' => match r with Ok _ => wp k Q s' | Raise e => Q (Raise e) s' end) s ->
    wp (m1 ;; m2 ;; m3 ;; m4 ;; k) Q s) as Hassoc.
  { intros m1 m2 m3 m4 k Q. unfold wp, mbind, Act_bind.
    destruct (m1 s) as [[] s1]; [|done]. destruct (m2 s1) as [[] s2]; [|done].
    destruct (m3 s2) as [[] s3]; [|done]. by destruct (m4 s3) as [[] s4]. }
  apply Hassoc. apply (demote_write s id o b); [done..|]. intros s1 Hinv1 Hd Hblk. cbv beta iota.
  destruct (queue_option_spec can_demote_device demotable_spec can_demote_decides demotable_indexed s1
    (fun x => demotable_spec s x /\ x <> id) q' (parent_block_id b) (proj1 Hinv1)) as (q1 & Hq1r & Hq1).
  { eapply queue_ok_ext; [..|exact Hq']; [done|]. intros x [_ Hx]. rewrite (Hd x).
    destruct (get_block s x) as [[]|]; [|done]. by rewrite decide_False. }
  apply wp_bind, wp_ask. rewrite Hq1r. eapply wp_mono; [apply IH; [done| |]|].
  - eapply queue_ok_ext; [|by intros|exact Hq1]. cbv beta. intros x. split.
    + intros [[Hx Hne]|[_ Hx]]; [by apply (demoted_mono s s1 id)|done].
    + intros Hx. destruct (demoted_new s s1 id o b x (proj1 Hinv) Hd Hg Hx) as [?|?]; auto.
  - pose proof (demoted_device_ids s s1 id (proj1 Hinv) Hd Hblk Hl). lia.
  - cbv beta. intros r s' (l & -> & Htr & Hstop & Hecon). exists ((o, b) :: l). split_and!.
    + by rewrite <- app_assoc.
    + by eapply demote_cons.
    + destruct Hstop as [Hs|Hs]; [left|by right]. rewrite weight_cons. lia.
    + intros [|y l1] x E; [rewrite weight_nil; lia|]. simpl in E. injection E as <- ->.
      specialize (Hecon l1 x eq_refl). rewrite weight_cons. lia.
Qed.

Lemma device_leaves_spec s : index_wf s ->
  exists ids, device_leaves s (items (blocks s)) = Ok ids /\
    forall id, demotable_spec s id -> id ∈ ids.
Proof.
  intros Hwf.
  assert (forall l, (forall id o, (id, o) ∈ l -> blocks s !! id = Some o) ->
    exists ids, device_leaves s l = Ok ids /\ forall id o, (id, o) ∈ l -> demotable_spec s id -> id ∈ ids) as Hl.
  { induction l as [|[id o] l IH]; intros Hin; cbn [device_leaves].
    - exists []. split; [done|]. by intros ? ? ?%elem_of_nil.
    - destruct IH as (ids & -> & Hids); [intros; apply Hin; by right|].
      destruct (iwf_store s Hwf id o) as (b & Hb & Hst); [apply Hin; by left|]. rewrite Hb.
      assert (get_block s id = Some (o, b)) as Hg.
      { apply (get_block_Some s id o b Hwf). split_and!; [apply Hin; by left|done|done]. }
      destruct (device_present (residency b)) eqn:Hd.
      + destruct (device_child_count_spec s id o b Hwf Hg) as (n & -> & Hn). bind_simpl.
        eexists. split; [done|]. intros id' o' [[= <- <-]|Hin']%elem_of_cons Hdem.
        * rewrite (proj2 (Z.eqb_eq n 0)) by (by apply Hn; destruct Hdem). by left.
        * assert (id' ∈ ids) by (by eapply Hids). destruct (n =? 0); [by right|done].
      + eexists. split; [done|]. intros id' o' [[= <- <-]|Hin']%elem_of_cons Hdem; [|by eapply Hids].
        destruct Hdem as [(o1 & b1 & Hg1 & _ & Hd1 & _) _]. congruence. }
  destruct (Hl (items (blocks s))) as (ids & Hr & Hids).
  { intros id o. apply dict_elem_of_items, Hwf. }
  exists ids. split; [exact Hr|]. intros id Hd. destruct (demotable_indexed s id Hd) as [[o b] Hg].
  apply (Hids id o); [|done]. apply (get_block_Some s id o b Hwf) in Hg as (Hb & _).
  by apply dict_elem_of_items_1.
Qed.

Lemma demote_device_until_weight_spec w needed s :
  (forall b, 0 <= w b) -> index_inv s ->
  wp (demote_device_until_weight w needed) (demote_post w needed 0 s []) s.
Proof.
  intros Hw Hinv. unfold demote_device_until_weight. destruct (Z.leb_spec needed 0).
  - apply wp_ret. exists []. split_and!; [done|by constructor|by left|by intros [] ?].
  - destruct (device_leaves_spec s (proj1 Hinv)) as (ids & Hids & Hin).
    destruct (queue_all_spec can_demote_device demotable_spec can_demote_decides demotable_indexed s
      ids _ ([], ∅) (proj1 Hinv) (queue_ok_empty s)) as (q & Hq & Hok).
    apply wp_bind, wp_ask. rewrite Hids. bind_simpl. rewrite Hq.
    apply wp_bind, wp_read. cbv beta iota. apply demote_loop_spec; [done..| |].
    + eapply queue_ok_ext; [|by intros|exact Hok]. cbv beta. intros id. split; [by intros [?|[_ ?]]|]. auto.
    + assert (size (device_ids s) <= size (ids_of s))%nat as Hle.
      { apply subseteq_size. intros x. unfold device_ids. rewrite elem_of_filter. tauto. }
      unfold ids_of in Hle at 1. unfold ids_of in Hle. rewrite size_list_to_set in Hle by apply Hinv.
      rewrite dict_len_keys. lia.
Qed.

Lemma demote_trace_inv s l s' : demote_trace s l s' -> index_inv s /\ index_inv s'.
Proof. induction 1 as [|????????????? IH]; [done|]. by split; [|apply IH]. Qed.
End demotion.
