(* ===== verification/PrefixReclaim.v ===== *)
(** * The prefix index: device-reclaimable capacity

    [_device_reclaimable_block_ids] peels the device-resident forest from its
    leaves.  The peeling terminates and computes exactly [device_spec]: the
    blocks whose device copy repeated demotion can reclaim. *)

From stdpp Require Import base gmap list strings.
From Stdlib Require Import ZArith Lia.
From S2P Require Import Prelude PyDict PyBytes Sha256 RoutingMembership RadixTree RadixForest PrefixHash.
From S2P Require Import PrefixIndex PrefixIndexFacts PrefixCapacity PrefixTransfer PrefixCommit PrefixQueue PrefixEviction PrefixDemotion.

Section reclaim.
Context {T : Type} `{BlockForest T} `{Digest}.
#[local] Abbreviation Index := (RadixPrefixIndex T).
Implicit Types (s : Index) (id : bytes) (o : nat) (b : PrefixCacheBlock).

(** Induction from the leaves of the forest upwards. *)
Lemma children_ind s (P : bytes -> Prop) : index_wf s ->
  (forall x, (forall y, child_of s x y -> P y) -> P x) -> forall x, P x.
Proof.
  intros Hwf Hstep. destruct (forest_ranked _ (iwf_backend s Hwf)) as [rank Hrank].
  assert (exists n, forall x, x ∈ ids_of s -> (rank x <= n)%nat) as [n Hn].
  { induction (ids_of s) as [|x X Hx [n IH]] using set_ind_L; [exists O; set_solver|].
    exists (max (rank x) n). intros y [->%elem_of_singleton|Hy]%elem_of_union; [lia|]. specialize (IH y Hy). lia. }
  intros x. remember (n - rank x)%nat as k eqn:Hk. revert x Hk.
  induction (lt_wf k) as [k _ IH]. intros x ->. apply Hstep. intros y Hy.
  apply (IH (n - rank y)%nat); [|done]. destruct (Hrank y x Hy) as [Hlt _].
  assert (y ∈ ids_of s) as Hyi.
  { apply (child_of_block s x y Hwf) in Hy as (o & b & Hb & _).
    apply ids_of_elem. apply (get_block_Some s y o b Hwf) in Hb as (-> & _). eauto. }
  specialize (Hn y Hyi). lia.
Qed.

Section peel.
Context s (inflight : bool) (Hwf : index_wf s).

(** The children of [x], and how many of them on the device are not in [F]. *)
Definition kids x : list bytes := match forest_child_ids (backend s) x with Ok l => l | Raise _ => [] end.
Definition pending (F : gset bytes) (c : bytes) : bool := on_device s c && negb (bool_decide (c ∈ F)).
Definition pending_kids (F : gset bytes) x : nat := length (List.filter (pending F) (kids x)).
Definition local_id id : bool :=
  match get_block s id with Some (_, b) => device_local inflight b | None => false end.

Lemma kids_spec x : is_Some (get_block s x) ->
  forest_child_ids (backend s) x = Ok (kids x) /\ NoDup (kids x) /\ forall y, y ∈ kids x <-> child_of s x y.
Proof.
  intros Hx. apply (forest_present s x Hwf) in Hx.
  destruct (forest_children _ _ (iwf_backend s Hwf) Hx) as (l & Hl & Hnd & _ & Hel).
  unfold kids. rewrite Hl. done.
Qed.

Lemma on_device_indexed x : on_device s x = true -> is_Some (get_block s x).
Proof. unfold on_device. destruct (get_block s x); [eauto|done]. Qed.

Lemma filter_nil_iff {A} (f : A -> bool) l : length (List.filter f l) = O <-> forall x, x ∈ l -> f x = false.
Proof.
  induction l as [|a l IH]; cbn; [split; [by intros _ ? ?%elem_of_nil|done]|].
  destruct (f a) eqn:Hf; cbn.
  - split; [done|]. intros Hall. rewrite (Hall a) in Hf by (by left). done.
  - rewrite IH. split; [by intros Hl x [->|Hx]%elem_of_cons; auto|]. intros Hl x Hx. apply Hl. by right.
Qed.

Lemma pending_kids_zero F x : is_Some (get_block s x) ->
  pending_kids F x = O <-> forall y, child_of s x y -> on_device s y = true -> y ∈ F.
Proof.
  intros Hx. destruct (kids_spec x Hx) as (_ & _ & Hk). unfold pending_kids. rewrite filter_nil_iff.
  split.
  - intros Hall y Hy Hd. apply Hk, Hall in Hy. unfold pending in Hy. rewrite Hd in Hy.
    destruct (decide (y ∈ F)) as [|Hn]; [done|]. by rewrite bool_decide_eq_false_2 in Hy.
  - intros Hall y Hy%Hk. unfold pending. destruct (on_device s y) eqn:Hd; [|done].
    by rewrite bool_decide_eq_true_2 by (by apply Hall).
Qed.

Lemma filter_remove (f g : bytes -> bool) id l :
  NoDup l -> (forall x, g x = f x && negb (bool_decide (x = id))) ->
  length (List.filter f l) = (length (List.filter g l) + (if decide (id ∈ l /\ f id = true) then 1 else 0))%nat.
Proof.
  intros Hnd Hg. induction l as [|a l IH]; cbn.
  - rewrite decide_False; [done|]. by intros [?%elem_of_nil _].
  - apply NoDup_cons in Hnd as [Ha Hnd]. rewrite Hg. specialize (IH Hnd).
    destruct (decide (a = id)) as [->|Hne].
    + rewrite (bool_decide_eq_true_2 (id = id)) by done. rewrite andb_false_r.
      rewrite decide_False in IH by (by intros [? _]). rewrite Nat.add_0_r in IH.
      destruct (f id) eqn:Hf; cbn; rewrite IH.
      * rewrite decide_True; [lia|]. split; [by left|done].
      * rewrite decide_False; [lia|]. by intros [_ ?].
    + rewrite (bool_decide_eq_false_2 (a = id)) by done. rewrite andb_true_r.
      rewrite (decide_ext (id ∈ a :: l /\ f id = true) (id ∈ l /\ f id = true)) by (rewrite elem_of_cons; naive_solver).
      destruct (f a); cbn; rewrite IH; lia.
Qed.

(** Reclaiming [id] takes one off its parent's count and off no other. *)
Lemma pending_kids_add F id x : is_Some (get_block s x) -> on_device s id = true -> id ∉ F ->
  pending_kids F x = (pending_kids ({[id]} ∪ F) x + (if decide (child_of s x id) then 1 else 0))%nat.
Proof.
  intros Hx Hd Hn. destruct (kids_spec x Hx) as (_ & Hnd & Hk). unfold pending_kids.
  rewrite (filter_remove (pending F) (pending ({[id]} ∪ F)) id _ Hnd).
  - f_equal. rewrite (decide_ext (id ∈ kids x /\ pending F id = true) (child_of s x id)); [done|].
    rewrite Hk. unfold pending. rewrite Hd, bool_decide_eq_false_2 by done. naive_solver.
  - intros y. unfold pending. rewrite <- andb_assoc, <- negb_orb. do 2 f_equal.
    apply eq_bool_prop_intro. rewrite !Is_true_true, orb_true_iff, !bool_decide_eq_true. set_solver.
Qed.

(** ** The invariant of the peeling *)

Record peel_inv (V : list bytes) (stack : list bytes) (C : gmap bytes Z) (F : gset bytes) : Prop := {
  peel_counts x : C !! x = if on_device s x then Some (Z.of_nat (pending_kids F x)) else None;
  peel_nodup : NoDup (V ++ stack);
  peel_seen x : x ∈ V ++ stack <-> on_device s x = true /\ pending_kids F x = O;
  peel_freeable x : x ∈ F <-> x ∈ V /\ local_id x = true;
}.

Lemma local_on_device x : local_id x = true -> on_device s x = true.
Proof.
  unfold local_id, on_device, device_local. destruct (get_block s x) as [[o b]|]; [|done].
  destruct (device_present (residency b)); [done|]. by rewrite andb_false_r.
Qed.

(** Popping a block that cannot be reclaimed. *)
Lemma peel_skip V id stack C F : peel_inv V (id :: stack) C F -> local_id id = false ->
  peel_inv (V ++ [id]) stack C F.
Proof.
  intros [Hc Hnd Hs Hf] Hl. rewrite (app_cons_snoc V id stack) in *. split; [done|done|done|].
  intros x. rewrite Hf, elem_of_app, list_elem_of_singleton. split; [tauto|].
  intros [[?| ->] ?]; [done|congruence].
Qed.

(** Popping one that can: its parent may become a device leaf. *)
Lemma peel_take V id stack C F o b : peel_inv V (id :: stack) C F ->
  get_block s id = Some (o, b) -> local_id id = true ->
  let '(stack', C') :=
    match parent_block_id b with
    | None => (stack, C)
    | Some p => match C !! p with
                | None => (stack, C)
                | Some c => (if c - 1 =? 0 then p :: stack else stack, <[p := c - 1]> C)
                end
    end in
  peel_inv (V ++ [id]) stack' C' ({[id]} ∪ F).
Proof.
  intros [Hc Hnd Hs Hf] Hg Hl. pose proof (local_on_device id Hl) as Hd.
  assert (id ∉ F) as HnF.
  { rewrite Hf. intros [HV _]. apply NoDup_app in Hnd as (_ & Hdis & _). apply (Hdis id HV). by left. }
  assert (forall x, is_Some (get_block s x) -> pending_kids F x =
    (pending_kids ({[id]} ∪ F) x + (if decide (child_of s x id) then 1 else 0))%nat) as Hadd.
  { intros x Hx. by apply pending_kids_add. }
  assert (forall x, child_of s x id <-> parent_block_id b = Some x) as Hch.
  { intros x. unfold child_of. rewrite (forest_parent s id o b Hwf Hg). split; [congruence|by intros ->]. }
  assert (forall x, x ∈ {[id]} ∪ F <-> x ∈ V ++ [id] /\ local_id x = true) as HF'.
  { intros x. rewrite elem_of_union, elem_of_singleton, Hf, elem_of_app, list_elem_of_singleton.
    split; [intros [->|[? ?]]; auto|]. intros [[?| ->] ?]; auto. }
  assert (forall x, on_device s x = true -> parent_block_id b <> Some x ->
    pending_kids ({[id]} ∪ F) x = pending_kids F x) as Hsame.
  { intros x Hx Hp. rewrite (Hadd x (on_device_indexed x Hx)), decide_False; [lia|]. by rewrite Hch. }
  assert ((forall x, parent_block_id b = Some x -> on_device s x = false) ->
    peel_inv (V ++ [id]) stack C ({[id]} ∪ F)) as Hno.
  { intros Hp. rewrite (app_cons_snoc V id stack) in *. split; [|done| |done].
    - intros x. rewrite Hc. destruct (on_device s x) eqn:Hx; [|done]. rewrite Hsame; [done|done|].
      intros E. by rewrite (Hp x E) in Hx.
    - intros x. rewrite Hs. split; intros [Hx Hz]; (split; [done|]); revert Hz;
        (rewrite Hsame; [done|done|]; intros E; by rewrite (Hp x E) in Hx). }
  destruct (parent_block_id b) as [p|] eqn:Hp; [|by apply Hno].
  rewrite (Hc p). destruct (on_device s p) eqn:Hpd; [|apply Hno; by intros x [= <-]].
  pose proof (Hadd p (on_device_indexed p Hpd)) as Hk. rewrite decide_True in Hk by (by apply Hch).
  set (k := pending_kids ({[id]} ∪ F) p) in *.
  replace (Z.of_nat (pending_kids F p) - 1) with (Z.of_nat k) by lia.
  assert (forall x, <[p := Z.of_nat k]> C !! x =
    if on_device s x then Some (Z.of_nat (pending_kids ({[id]} ∪ F) x)) else None) as Hcounts.
  { intros x. rewrite lookup_insert. case_decide as E; [by subst; rewrite Hpd|]. rewrite Hc.
    destruct (on_device s x) eqn:Hx; [|done]. rewrite Hsame; [done|done|congruence]. }
  assert (forall x, x ∈ V ++ id :: stack \/ (x = p /\ k = O) <->
    on_device s x = true /\ pending_kids ({[id]} ∪ F) x = O) as Hseen.
  { intros x. rewrite Hs. destruct (decide (x = p)) as [->|Hxp].
    - fold k. rewrite Hk. split; [intros [[? ?]|[_ ?]]; [lia|done]|intros [_ ?]; by right].
    - split; [intros [[Hx Hz]|[? _]]; [|done]|intros [Hx Hz]; left]; (split; [done|]); revert Hz;
        (rewrite Hsame; [done|done|congruence]). }
  rewrite (app_cons_snoc V id stack) in Hnd, Hseen, Hs.
  destruct (Z.eqb_spec (Z.of_nat k) 0) as [Hz|Hz].
  - assert (k = O) as Hk0 by lia. split; [exact Hcounts| | |exact HF'].
    + rewrite <- Permutation_middle. apply NoDup_cons. split; [|done]. rewrite Hs. intros [_ ?]. lia.
    + intros x. rewrite <- Hseen, <- Permutation_middle, elem_of_cons.
      split; [intros [->|?]; auto|intros [?|[-> _]]; auto].
  - split; [exact Hcounts|done| |exact HF']. intros x. rewrite <- Hseen. split; [by left|intros [?|[_ ?]]; [done|lia]].
Qed.

Lemma reclaim_loop_spec fuel V stack C F :
  peel_inv V stack C F -> (size (device_ids s) < fuel + length V)%nat ->
  exists V' C' F', reclaim_loop fuel s inflight stack C F = Ok F' /\ peel_inv V' [] C' F'.
Proof.
  revert V stack C F. induction fuel as [|fuel IH]; intros V stack C F Hi Hf.
  - exfalso. assert (length V <= size (device_ids s))%nat; [|lia].
    pose proof (peel_nodup _ _ _ _ Hi) as Hnd. apply NoDup_app in Hnd as (Hnd & _ & _).
    rewrite <- (size_list_to_set (C := gset bytes)) by done. apply subseteq_size.
    intros x. rewrite elem_of_list_to_set. intros Hx.
    assert (on_device s x = true) as Hd by (apply (peel_seen _ _ _ _ Hi); rewrite elem_of_app; by left).
    unfold device_ids. rewrite elem_of_filter. split; [done|]. destruct (on_device_indexed x Hd) as [[o b] Hg].
    apply ids_of_elem. apply (get_block_Some s x o b Hwf) in Hg as (-> & _). eauto.
  - destruct stack as [|id stack]; [by exists V, C, F|]. cbn [reclaim_loop].
    assert (on_device s id = true) as Hd.
    { apply (peel_seen _ _ _ _ Hi). rewrite elem_of_app. right. by left. }
    destruct (on_device_indexed id Hd) as [[o b] Hg]. rewrite Hg.
    assert (local_id id = device_local inflight b) as Hl by (unfold local_id; by rewrite Hg).
    assert (id ∉ F) as HnF.
    { rewrite (peel_freeable _ _ _ _ Hi). intros [HV _].
      pose proof (peel_nodup _ _ _ _ Hi) as Hnd. apply NoDup_app in Hnd as (_ & Hdis & _).
      apply (Hdis id HV). by left. }
    rewrite (bool_decide_eq_false_2 (id ∈ F)) by done. cbn [orb].
    assert (size (device_ids s) < fuel + length (V ++ [id]))%nat as Hf' by (rewrite length_app; simpl; lia).
    destruct (device_local inflight b) eqn:Hloc; cbn [negb].
    + pose proof (peel_take V id stack C F o b Hi Hg Hl) as Hp.
      destruct (parent_block_id b) as [p|]; [destruct (C !! p) as [c|]|]; by eapply IH.
    + eapply IH; [by apply peel_skip|done].
Qed.

(** When nothing is left to pop, the set is [device_spec]. *)
Lemma peel_final V C F id : peel_inv V [] C F -> id ∈ F <-> device_spec inflight s id.
Proof.
  intros [Hc _ Hs Hf]. rewrite app_nil_r in Hs.
  assert (forall x, x ∈ F -> forall y, child_of s x y -> on_device s y = true -> y ∈ F) as Hclosed.
  { intros x [HV _]%Hf y Hy Hd. apply Hs in HV as [Hx Hz].
    by apply (proj1 (pending_kids_zero F x (on_device_indexed x Hx)) Hz). }
  assert (forall x o b, get_block s x = Some (o, b) -> x ∈ F -> device_local inflight b = true) as Hloc.
  { intros x o b Hg [_ Hl]%Hf. unfold local_id in Hl. by rewrite Hg in Hl. }
  split.
  - intros Hid. split.
    + apply Hf in Hid as [_ Hl]. pose proof (local_on_device id Hl) as Hd. unfold on_device in Hd.
      destruct (get_block s id) as [[o b]|] eqn:Hg; [by exists o, b|done].
    + intros x Hx. enough (on_device s x = true -> x ∈ F) as Hen.
      { intros o b Hg Hd. apply (Hloc x o b Hg), Hen. unfold on_device. by rewrite Hg. }
      unfold below in Hx. revert x Hx. refine (rtc_ind_l _ id _ _); [done|].
      intros x y Hxy _ IH Hd. apply (Hclosed y); [|exact Hxy|done]. apply IH.
      destruct (on_device_indexed x Hd) as [[o b] Hg]. unfold on_device in Hd. rewrite Hg in Hd.
      destruct (iwf_residency s Hwf x o b Hg) as (_ & _ & Hp).
      assert (parent_block_id b = Some y) as Hpb.
      { rewrite (forest_parent s x o b Hwf Hg) in Hxy. congruence. }
      rewrite Hpb in Hp. destruct Hp as (oy & yb & Hgy & Hcov & _). unfold on_device. rewrite Hgy. by apply Hcov.
  - revert id. refine (children_ind s _ Hwf _). intros x IH [(o & b & Hg & Hd) Hall].
    assert (on_device s x = true) as Hxd by (unfold on_device; by rewrite Hg).
    apply Hf. split.
    + apply Hs. split; [done|]. apply pending_kids_zero; [eauto|]. intros y Hy Hyd. apply IH; [done|].
      destruct (on_device_indexed y Hyd) as [[oy yb] Hgy]. unfold on_device in Hyd. rewrite Hgy in Hyd.
      split; [by exists oy, yb|]. intros z Hz. apply Hall. unfold below in *. etrans; [exact Hz|]. by apply rtc_once.
    + unfold local_id. rewrite Hg. by apply (Hall x (rtc_refl _ _) o).
Qed.

(** ** The scan *)

Lemma device_children_spec l :
  (forall id o, (id, o) ∈ l -> blocks s !! id = Some o) -> NoDup l.*1 ->
  exists counts, device_children s l = Ok counts /\ counts.*1 = List.filter (on_device s) l.*1 /\
    forall id n, (id, n) ∈ counts -> n = Z.of_nat (pending_kids ∅ id).
Proof.
  induction l as [|[id o] l IH]; intros Hin Hnd; cbn [device_children].
  - exists []. split_and!; [done|done|]. by intros ? ? ?%elem_of_nil.
  - cbn in Hnd. apply NoDup_cons in Hnd as [_ Hnd].
    destruct IH as (counts & -> & Hk & Hn); [intros; apply Hin; by right|done|].
    destruct (iwf_store s Hwf id o) as (b & Hb & Hst); [apply Hin; by left|]. rewrite Hb.
    assert (get_block s id = Some (o, b)) as Hg.
    { apply (get_block_Some s id o b Hwf). split_and!; [apply Hin; by left|done|done]. }
    cbn [fmap list_fmap List.filter fst]. unfold on_device at 1. rewrite Hg.
    destruct (device_present (residency b)) eqn:Hd.
    + destruct (kids_spec id) as (Hkids & _ & _); [eauto|].
      unfold device_child_count. rewrite Hkids. bind_simpl. eexists. split; [done|]. split; [cbn; by f_equal|].
      intros x n [[= -> ->]|Hx]%elem_of_cons; [|by apply Hn].
      do 2 f_equal. unfold pending_kids, pending. f_equal.
      apply List.filter_ext. intros c. unfold on_device. rewrite bool_decide_eq_false_2 by set_solver.
      by rewrite andb_true_r.
    + exists counts. split_and!; done.
Qed.

Lemma scan_device_reclaimable_spec :
  exists ids, scan_device_reclaimable s inflight = Ok ids /\ forall id, id ∈ ids <-> device_spec inflight s id.
Proof.
  destruct (device_children_spec (items (blocks s))) as (counts & Hc & Hk & Hn).
  { intros id o. apply dict_elem_of_items, Hwf. } { apply Hwf. }
  unfold scan_device_reclaimable. rewrite Hc. bind_simpl.
  set (stack := reverse (List.filter (fun kv => kv.2 =? 0) counts).*1).
  assert (NoDup counts.*1) as Hnd.
  { rewrite Hk. apply NoDup_ListNoDup, List.NoDup_filter, NoDup_ListNoDup, Hwf. }
  assert (forall x, x ∈ counts.*1 <-> on_device s x = true) as Hdom.
  { intros x. rewrite Hk, list_elem_of_In, List.filter_In, <- list_elem_of_In.
    change (items (blocks s)).*1 with (keys (blocks s)). rewrite dict_elem_of_keys. split; [by intros [_ ?]|].
    intros Hd. split; [|done]. destruct (on_device_indexed x Hd) as [[o b] Hg].
    apply (get_block_Some s x o b Hwf) in Hg as (-> & _). eauto. }
  assert (forall x n, (list_to_map counts : gmap bytes Z) !! x = Some n <-> (x, n) ∈ counts) as Hmap.
  { intros x n. symmetry. by apply elem_of_list_to_map. }
  assert (peel_inv [] stack (list_to_map counts) ∅) as Hi.
  { split.
    - intros x. destruct (on_device s x) eqn:Hd.
      + apply Hdom in Hd. apply list_elem_of_fmap in Hd as ([x' n] & -> & Hx). cbn.
        rewrite (proj2 (Hmap x' n) Hx). f_equal. by apply Hn.
      + destruct (list_to_map counts !! x) as [n|] eqn:Hx; [|done]. apply Hmap in Hx.
        assert (x ∈ counts.*1) as Hin by (by apply (list_elem_of_fmap_2 fst _ _ Hx)).
        apply Hdom in Hin. congruence.
    - cbn. unfold stack. rewrite reverse_Permutation. clear -Hnd.
      induction counts as [|[x n] counts IH]; cbn in *; [constructor|].
      apply NoDup_cons in Hnd as [Hx Hnd]. specialize (IH Hnd). destruct (n =? 0); cbn; [|done].
      apply NoDup_cons. split; [|done]. intros ([y m] & -> & Hy)%list_elem_of_fmap. apply Hx.
      apply list_elem_of_In, List.filter_In in Hy as [Hy _]. apply list_elem_of_In in Hy.
      by apply (list_elem_of_fmap_2 fst _ _ Hy).
    - intros x. cbn. unfold stack. rewrite elem_of_reverse. split.
      + intros ([y m] & -> & Hy)%list_elem_of_fmap. apply list_elem_of_In, List.filter_In in Hy as [Hy Hz].
        apply list_elem_of_In in Hy. cbn in *. split.
        * apply Hdom. by apply (list_elem_of_fmap_2 fst _ _ Hy).
        * specialize (Hn y m Hy). lia.
      + intros [Hd Hz]. apply Hdom, list_elem_of_fmap in Hd as ([y m] & -> & Hy). apply list_elem_of_fmap.
        exists (y, m). split; [done|]. apply list_elem_of_In, List.filter_In. split; [by apply list_elem_of_In|].
        cbn in *. rewrite (Hn y m Hy), Hz. done.
    - intros x. split; [set_solver|]. by intros [?%elem_of_nil _]. }
  destruct (reclaim_loop_spec (S (length counts)) [] stack _ ∅ Hi) as (V & C & F & Hr & Hfin).
  { cbn. apply Nat.lt_succ_r. rewrite Nat.add_0_r.
    rewrite <- (length_fmap fst counts), <- (size_list_to_set (C := gset bytes)) by done.
    apply subseteq_size. intros x. unfold device_ids. rewrite elem_of_filter, elem_of_list_to_set, Hdom. tauto. }
  exists F. split; [exact Hr|]. intros id. by apply (peel_final V C).
Qed.
End peel.

(** ** The operation *)

Lemma device_freeable_block_ids_spec s :
  index_inv s ->
  wp device_freeable_block_ids (fun r s' => index_inv s' /\ core s' = core s /\
    exists ids, r = Ok ids /\ forall id, id ∈ ids <-> device_spec false s id) s.
Proof.
  intros [Hwf Hv]. unfold device_freeable_block_ids, device_reclaimable_ids. apply wp_bind, wp_read. cbv beta iota.
  wp_step; bool_to_prop; apply wp_bind, wp_modify; cbv beta iota.
  - apply wp_ret. split_and!; [split; [by apply (index_wf_core s)|by destruct Hv]|done|].
    eexists. split; [done|]. apply (vo_device s Hv). done.
  - set (s1 := s <| scans ::= _ |>). assert (index_wf s1) as Hwf1 by (by apply (index_wf_core s)).
    destruct (scan_device_reclaimable_spec s1 false Hwf1) as (ids & Hids & Hel).
    apply wp_bind, wp_ask. rewrite Hids. apply wp_bind, wp_modify, wp_ret.
    split_and!; [split; [by apply (index_wf_core s)|]|done|by eexists].
    destruct Hv as [F E D]. split; [exact F|exact E|]. split; [cbn; lia|]. intros _ id. exact (Hel id).
Qed.

(** The reclaimable query with in-flight transfers computes its set when the
    cached view is out of date. *)
Lemma device_reclaimable_block_ids_spec s :
  index_inv s ->
  wp device_reclaimable_block_ids (fun r s' => index_inv s' /\ core s' = core s /\
    exists ids, r = Ok ids /\
      (view_epoch (device_reclaimable_view (views s)) <> capacity_epoch (epochs s) ->
       forall id, id ∈ ids <-> device_spec true s id)) s.
Proof.
  intros [Hwf Hv]. unfold device_reclaimable_block_ids, device_reclaimable_ids. apply wp_bind, wp_read. cbv beta iota.
  wp_step; bool_to_prop; apply wp_bind, wp_modify; cbv beta iota.
  - apply wp_ret. split_and!; [split; [by apply (index_wf_core s)|by destruct Hv]|done|]. by eexists.
  - set (s1 := s <| scans ::= _ |>). assert (index_wf s1) as Hwf1 by (by apply (index_wf_core s)).
    destruct (scan_device_reclaimable_spec s1 true Hwf1) as (ids & Hids & Hel).
    apply wp_bind, wp_ask. rewrite Hids. apply wp_bind, wp_modify, wp_ret.
    split_and!; [split; [by apply (index_wf_core s)|by destruct Hv]|done|]. eexists. split; [done|]. intros _ id. exact (Hel id).
Qed.
End reclaim.
