(* ===== verification/PrefixFreeable.v ===== *)
(** * The prefix index: freeable blocks

    [RadixPrefixIndex.freeable_block_ids]: one post-order walk over the nodes
    of the radix tree that finds every block repeated leaf eviction could
    remove.  Unlike the other queries it reads tree nodes directly, so it is
    stated for the radix tree and not for any [BlockForest]; the operations of
    an index over another forest see it as a [FreeableQuery]. *)

From stdpp Require Import base gmap list strings.
From Stdlib Require Import ZArith Lia.
From S2P Require Import Prelude PyDict PyBytes Sha256 RoutingMembership RadixTree RadixTreeFacts RadixWalks.
From S2P Require Import RadixForest PrefixHash PrefixIndex PrefixIndexFacts PrefixCapacity PrefixTransfer PrefixSubtree PrefixReclaim.

#[local] Abbreviation Index := (RadixPrefixIndex RadixTreeBackend).
#[local] Abbreviation IndexAct := (Act PyExn (RadixPrefixIndex RadixTreeBackend)).

(** ** The walk *)

(** [for child in node.children.values(): subtree_freeable.pop(child, False)] *)
Fixpoint pop_children (cs : list nat) (subtree : gmap nat bool) (ok : bool) : bool * gmap nat bool :=
  match cs with
  | [] => (ok, subtree)
  | c :: cs' => pop_children cs' (delete c subtree) (ok && default false (subtree !! c))
  end.

(** [for block_id in reversed(node.segment)] *)
Fixpoint free_suffix (s : Index) (rev_segment : list bytes) (suffix : bool) (freeable : gset bytes) :
    bool * gset bytes :=
  match rev_segment with
  | [] => (suffix, freeable)
  | id :: l =>
      if indexed_unblocked s id && suffix then free_suffix s l true ({[id]} ∪ freeable)
      else free_suffix s l false freeable
  end.

Fixpoint freeable_loop (fuel : nat) (s : Index) (stack : list (nat * bool)) (subtree : gmap nat bool)
    (freeable : gset bytes) : exc (gset bytes) :=
  match stack, fuel with
  | [], _ => Ok freeable
  | _ :: _, O => Raise LoopFuel
  | (n, visited) :: stack', S fuel' =>
      nd ← node_at (backend s) n;
      if negb visited then
        freeable_loop fuel' s
          (((fun c => (c, false)) <$> reverse (values (children nd))) ++ (n, true) :: stack') subtree freeable
      else
        let '(ok, subtree') := pop_children (values (children nd)) subtree true in
        let '(suffix, freeable') := free_suffix s (reverse (segment nd)) ok freeable in
        freeable_loop fuel' s stack' (<[n := suffix]> subtree') freeable'
  end.

Definition freeable_block_ids : IndexAct (gset bytes) :=
  s ← read (fun s => s);
  if view_epoch (freeable_view (views s)) =? capacity_epoch (epochs s) then
    modify (fun s => s <| scans ::= fun c => c <| freeable_cache_hits ::= Z.succ |> |>) ;;
    mret (view_ids (freeable_view (views s)))
  else
    modify (fun s => s <| scans ::= fun c => c <| freeable_scans ::= Z.succ |> |>) ;;
    ids ← ask (fun s => freeable_loop (2 * size (heap (backend s))) s [(0%nat, false)] ∅ ∅);
    modify (fun s => s <| views ::= fun v => v <| freeable_view := mkView (capacity_epoch (epochs s)) ids |> |>) ;;
    mret ids.
Definition freeable_blocks : IndexAct Z :=
  ids ← freeable_block_ids; mret (Z.of_nat (size ids)).

(** ** One node *)

Section walk.
Context (s : Index) (Hwf : index_wf s).
#[local] Abbreviation t := (backend s).
Let Ht : tree_wf t := iwf_backend s Hwf.

Lemma pop_children_spec cs subtree ok : NoDup cs ->
  ((pop_children cs subtree ok).1 = true <-> ok = true /\ forall c, c ∈ cs -> subtree !! c = Some true) /\
  forall m, m ∉ cs -> (pop_children cs subtree ok).2 !! m = subtree !! m.
Proof.
  revert subtree ok. induction cs as [|c cs IH]; intros subtree ok Hnd; cbn [pop_children].
  - cbn. split; [|done]. split; [|tauto]. intros ->. split; [done|]. by intros c ?%elem_of_nil.
  - apply NoDup_cons in Hnd as [Hc Hnd]. destruct (IH (delete c subtree) (ok && default false (subtree !! c)) Hnd) as [E Hm].
    split.
    + rewrite E, andb_true_iff. split.
      * intros [[-> Hcv] Hall]. split; [done|]. intros x [->|Hx]%elem_of_cons.
        -- by destruct (subtree !! c) as [[]|].
        -- specialize (Hall x Hx). rewrite lookup_delete_ne in Hall; [done|]. by intros ->.
      * intros [-> Hall]. split; [split; [done|]|].
        -- by rewrite (Hall c) by (by left).
        -- intros x Hx. rewrite lookup_delete_ne by (by intros ->). apply Hall. by right.
    + intros m [Hmc Hmcs]%not_elem_of_cons. rewrite Hm by done. by apply lookup_delete_ne.
Qed.

Lemma unblocked_block id : indexed_unblocked s id = true <->
  exists o b, get_block s id = Some (o, b) /\ locally_blocked b = false.
Proof.
  unfold indexed_unblocked. destruct (get_block s id) as [[o b]|].
  - rewrite negb_true_iff. split; [by eauto|]. by intros (? & ? & [= <- <-] & ?).
  - split; [done|]. by intros (? & ? & ? & _).
Qed.

Lemma freeable_step id : freeable_spec s id <->
  indexed_unblocked s id = true /\ forall y, child_of s id y -> freeable_spec s y.
Proof.
  rewrite unblocked_block. split.
  - intros Hf. destruct (proj1 Hf) as (o & b & Hg & _).
    destruct (proj1 (freeable_unfold s id o b Hwf Hg) Hf) as [? ?]. eauto.
  - intros [(o & b & Hg & Hu) Hy]. by apply (freeable_unfold s id o b Hwf Hg).
Qed.

(** Nothing in the suffix is known to pin the blocks before it: the children
    of the last block of [seg] are freeable. *)
Lemma free_suffix_spec nd n i F ok :
  heap t !! n = Some nd -> (i <= length (segment nd))%nat ->
  (forall j b, (j < i)%nat -> S j = i -> segment nd !! j = Some b -> 
     ok = true <-> forall y, child_of s b y -> freeable_spec s y) ->
  let r := free_suffix s (reverse (take i (segment nd))) ok F in
  (forall b, (0 < i)%nat -> head (segment nd) = Some b -> r.1 = true <-> freeable_spec s b) /\
  forall x, x ∈ r.2 <-> x ∈ F \/ (x ∈ take i (segment nd) /\ freeable_spec s x).
Proof.
  intros Hn. revert F ok. induction i as [|i IH]; intros F ok Hi Hok; cbn zeta.
  - split; [lia|]. intros x. cbn. rewrite elem_of_nil. tauto.
  - destruct (segment nd !! i) as [id|] eqn:Hid; [|apply lookup_ge_None in Hid; lia].
    rewrite (take_S_r _ _ id Hid), reverse_snoc. cbn [free_suffix].
    assert (indexed_unblocked s id && ok = true <-> freeable_spec s id) as Hfree.
    { rewrite freeable_step, andb_true_iff. specialize (Hok i id ltac:(lia) eq_refl Hid). tauto. }
    assert (forall j b, (j < i)%nat -> S j = i -> segment nd !! j = Some b ->
      (freeable_spec s id <-> forall y, child_of s b y -> freeable_spec s y)) as Hnext.
    { intros j b _ <- Hj. unfold child_of. change (forest_of (backend s)) with (block_parent t).
      setoid_rewrite (block_child_cases t b _ n j nd Ht Hn Hj). split.
      - intros Hf y [Hy|[Hl _]]; [by simplify_eq|lia].
      - intros Hy. apply Hy. by left. }
    destruct (indexed_unblocked s id && ok) eqn:Hb.
    + destruct (IH ({[id]} ∪ F) true ltac:(lia)) as [IH1 IH2].
      { intros j b Hj E Hjb. rewrite <- (Hnext j b Hj E Hjb), <- Hfree. done. }
      split.
      * intros b _ Hh. destruct i as [|i]; [|apply IH1; [lia|done]]. cbn.
        assert (b = id) as -> by (destruct (segment nd); simplify_eq/=; done). by rewrite <- Hfree.
      * intros x. rewrite IH2, elem_of_union, elem_of_singleton, elem_of_app, list_elem_of_singleton.
        split; [|tauto]. intros [[->|?]|[? ?]]; [|tauto..]. right. split; [by right|by apply Hfree].
    + destruct (IH F false ltac:(lia)) as [IH1 IH2].
      { intros j b Hj E Hjb. rewrite <- (Hnext j b Hj E Hjb), <- Hfree. done. }
      split.
      * intros b _ Hh. destruct i as [|i]; [|apply IH1; [lia|done]]. cbn.
        assert (b = id) as -> by (destruct (segment nd); simplify_eq/=; done). by rewrite <- Hfree.
      * intros x. rewrite IH2, elem_of_app, list_elem_of_singleton.
        split; [tauto|]. intros [?|[[?| ->] Hx]]; [tauto..|]. apply Hfree in Hx. done.
Qed.

(** ** Subtrees of nodes *)

Definition node_parent (c p : nat) : Prop := exists cd, heap t !! c = Some cd /\ parent cd = Some p.
Definition under (n m : nat) : Prop := rtc node_parent m n.

Lemma under_inv n m : under n m -> m = n \/ exists c, node_parent c n /\ under c m.
Proof. intros [->|(c & Hc & ?)]%rtc_inv_r; [by left|]. right. by exists c. Qed.

Lemma under_linear m n1 n2 : under n1 m -> under n2 m -> under n1 n2 \/ under n2 n1.
Proof.
  unfold under. intros H1. revert n2. induction H1 as [m|m p n1 Hmp H1 IH]; intros n2 H2; [by right|].
  apply rtc_inv in H2 as [->|(p' & Hmp' & H2)]; [left; by eapply rtc_l|].
  assert (p' = p) as -> by (destruct Hmp as (? & ? & ?), Hmp' as (? & ? & ?); congruence). by apply IH.
Qed.

Lemma under_rank (rank : nat -> nat) n m :
  (forall c cd p, heap t !! c = Some cd -> parent cd = Some p -> (rank p < rank c)%nat) ->
  under n m -> (rank n <= rank m)%nat.
Proof.
  intros Hr. unfold under. induction 1 as [|x y z (cd & Hcd & Hp) _ IH]; [done|]. specialize (Hr _ _ _ Hcd Hp). lia.
Qed.

Lemma node_child n nd c : heap t !! n = Some nd -> node_parent c n <-> c ∈ values (children nd).
Proof.
  intros Hn. rewrite (dict_values_elem (children nd) c (wf_dict t Ht n nd Hn)). split.
  - intros (cd & Hcd & Hp). destruct (wf_up t Ht _ _ _ Hcd Hp) as (nd' & b & Hn' & _ & Hb).
    exists b. congruence.
  - intros [b Hb]. destruct (wf_down t Ht _ _ _ _ Hn Hb) as (cd & Hcd & Hp & _). by exists cd.
Qed.

Lemma siblings_disjoint n c1 c2 m :
  node_parent c1 n -> node_parent c2 n -> c1 <> c2 -> under c1 m -> under c2 m -> False.
Proof.
  intros Hc1 Hc2 Hne Hu1 Hu2. destruct (wf_rank t Ht) as [rank Hrank].
  assert (forall a b, node_parent a n -> node_parent b n -> a <> b -> ~ under a b) as Hno.
  { intros a b (ad & Had & Hpa) (bd & Hbd & Hpb) Hab Hu. apply rtc_inv in Hu as [->|(p & (bd' & Hbd' & Hp) & Hu)]; [done|].
    simplify_eq. pose proof (under_rank rank a n Hrank Hu). specialize (Hrank _ _ _ Had Hpa). lia. }
  destruct (under_linear m c1 c2 Hu1 Hu2) as [H|H]; [by apply (Hno c1 c2)|by apply (Hno c2 c1)].
Qed.

(** ** The walk over a subtree *)

Definition flag_ok (n : nat) (f : bool) : Prop :=
  forall b, head (seg_of t n) = Some b -> f = true <-> freeable_spec s b.

(** Running the loop through the subtrees [W] on top of [stack]. *)
Definition walks (entries : list (nat * bool)) (W : list nat) (tops : list nat) : Prop :=
  forall fuel stack subtree F, exists subtree' F',
    freeable_loop (2 * length W + fuel) s (entries ++ stack) subtree F = freeable_loop fuel s stack subtree' F' /\
    (forall n, n ∈ tops -> exists f, subtree' !! n = Some f /\ flag_ok n f) /\
    (forall m, m ∉ W -> subtree' !! m = subtree !! m) /\
    (forall x, x ∈ F' <-> x ∈ F \/ exists m, m ∈ W /\ x ∈ seg_of t m /\ freeable_spec s x).

Definition node_spec (n : nat) : Prop :=
  exists W, NoDup W /\ (forall m, m ∈ W <-> under n m) /\ walks [(n, false)] W [n].

Lemma walk_siblings n cs :
  NoDup cs -> (forall c, c ∈ cs -> node_parent c n /\ node_spec c) ->
  exists W, NoDup W /\ (forall m, m ∈ W <-> exists c, c ∈ cs /\ under c m) /\
    walks ((fun c => (c, false)) <$> cs) W cs.
Proof.
  induction cs as [|c cs IH]; intros Hnd Hcs.
  - exists []. split_and!; [constructor|set_solver|]. intros fuel stack subtree F. exists subtree, F.
    split_and!; [done|by intros n' ?%elem_of_nil|done|set_solver].
  - apply NoDup_cons in Hnd as [Hc Hnd]. destruct IH as (W & HW & Hin & Hrun); [done|intros; apply Hcs; by right|].
    destruct (Hcs c) as [Hcn (Wc & HWc & Hinc & Hrunc)]; [by left|].
    assert (forall m, m ∈ Wc -> m ∉ W) as Hdisj.
    { intros m Hm%Hinc (c' & Hc' & Hm')%Hin.
      apply (siblings_disjoint n c c' m); [exact Hcn|by apply Hcs; right|by intros ->|exact Hm|exact Hm']. }
    exists (Wc ++ W). split_and!.
    + apply NoDup_app. done.
    + intros m. rewrite elem_of_app, Hin, Hinc. split.
      * intros [?|(c' & ? & ?)]; [exists c|exists c']; (split; [set_solver|done]).
      * intros (c' & [->|?]%elem_of_cons & ?); [by left|right; by exists c'].
    + intros fuel stack subtree F.
      destruct (Hrunc (2 * length W + fuel)%nat (((fun c => (c, false)) <$> cs) ++ stack) subtree F)
        as (sub1 & F1 & E1 & Hf1 & Ho1 & HF1).
      destruct (Hrun fuel stack sub1 F1) as (sub2 & F2 & E2 & Hf2 & Ho2 & HF2).
      exists sub2, F2. split_and!.
      * rewrite length_app. replace (2 * (length Wc + length W) + fuel)%nat
          with (2 * length Wc + (2 * length W + fuel))%nat by lia. exact (eq_trans E1 E2).
      * intros c' [->|Hc']%elem_of_cons; [|by apply Hf2]. destruct (Hf1 c) as (f & Hf & ?); [by left|].
        exists f. split; [|done]. rewrite Ho2; [done|]. apply Hdisj, Hinc. constructor.
      * intros m [? ?]%not_elem_of_app. rewrite Ho2, Ho1; done.
      * intros x. rewrite HF2, HF1. setoid_rewrite elem_of_app. split.
        -- intros [[?|(m & ? & ?)]|(m & ? & ?)]; [by left|right; exists m; tauto..].
        -- intros [?|(m & [?|?] & ?)]; [by do 2 left|left; right; by exists m|right; by exists m].
Qed.

(** The children of the last block are the heads of the child nodes. *)
Lemma last_block_children n nd (sub : gmap nat bool) j b :
  heap t !! n = Some nd -> S j = length (segment nd) -> segment nd !! j = Some b ->
  (forall c, c ∈ values (children nd) -> exists f, sub !! c = Some f /\ flag_ok c f) ->
  (forall c, c ∈ values (children nd) -> sub !! c = Some true) <-> forall y, child_of s b y -> freeable_spec s y.
Proof.
  intros Hn Hj Hb Hflags. unfold child_of. change (forest_of (backend s)) with (block_parent t).
  setoid_rewrite (block_child_cases t b _ n j nd Ht Hn Hb).
  assert (forall c x, children nd !! x = Some c -> c ∈ values (children nd) /\ head (seg_of t c) = Some x) as Hedge.
  { intros c x Hx. split; [apply (dict_values_elem _ _ (wf_dict t Ht n nd Hn)); by exists x|].
    destruct (wf_down t Ht _ _ _ _ Hn Hx) as (cd & Hcd & _ & Hh). unfold seg_of. by rewrite Hcd. }
  split.
  - intros Hall y [Hy|[_ [c Hc]]]; [apply lookup_lt_Some in Hy; lia|].
    destruct (Hedge c y Hc) as [Hv Hh]. destruct (Hflags c Hv) as (f & Hf & Hok).
    apply (Hok y Hh). rewrite (Hall c Hv) in Hf. congruence.
  - intros Hall c Hc. destruct (Hflags c Hc) as (f & Hf & Hok).
    destruct (proj1 (dict_values_elem _ _ (wf_dict t Ht n nd Hn)) Hc) as [x Hx].
    destruct (Hedge c x Hx) as [_ Hh]. rewrite Hf. f_equal. apply (Hok x Hh), Hall. right. eauto.
Qed.

Lemma walk_node n nd : heap t !! n = Some nd ->
  (forall c, c ∈ values (children nd) -> node_spec c) -> node_spec n.
Proof.
  intros Hn Hcs. pose proof (children_values_NoDup t Ht n nd Hn) as Hnd.
  destruct (walk_siblings n (reverse (values (children nd)))) as (W & HW & Hin & Hrun).
  { by rewrite reverse_Permutation. }
  { intros c. rewrite elem_of_reverse. intros Hc. split; [by apply (proj2 (node_child n nd c Hn))|by apply Hcs]. }
  assert (forall m, m ∈ W <-> exists c, node_parent c n /\ under c m) as Hin'.
  { intros m. rewrite Hin. setoid_rewrite elem_of_reverse. by setoid_rewrite <- (fun c => node_child n nd c Hn). }
  assert (n ∉ W) as HnW.
  { intros (c & (cd & Hcd & Hp) & Hu)%Hin'. destruct (wf_rank t Ht) as [rank Hrank].
    pose proof (under_rank rank c n Hrank Hu). specialize (Hrank _ _ _ Hcd Hp). lia. }
  exists (n :: W). split_and!; [by apply NoDup_cons|..].
  { intros m. rewrite elem_of_cons, Hin'. split; [|apply under_inv].
    intros [->|(c & Hc & Hu)]; [constructor|]. by eapply rtc_r. }
  intros fuel stack sub F.
  destruct (Hrun (S fuel) ((n, true) :: stack) sub F) as (sub1 & F1 & E1 & Hf1 & Ho1 & HF1).
  assert (forall c, c ∈ values (children nd) -> exists f, sub1 !! c = Some f /\ flag_ok c f) as Hflags.
  { intros c Hc. apply Hf1. by apply elem_of_reverse. }
  destruct (pop_children_spec (values (children nd)) sub1 true Hnd) as [Hpop Hkeep].
  destruct (pop_children (values (children nd)) sub1 true) as [ok sub2] eqn:Ep. cbn [fst snd] in Hpop, Hkeep.
  pose proof (free_suffix_spec nd n (length (segment nd)) F1 ok Hn ltac:(done)) as Hfs.
  rewrite take_ge in Hfs by done. destruct Hfs as [Hflag HF2].
  { intros j b _ Hj Hb. rewrite <- (last_block_children n nd sub1 j b Hn Hj Hb Hflags), Hpop. tauto. }
  destruct (free_suffix s (reverse (segment nd)) ok F1) as [f F2] eqn:Es. cbn [fst snd] in Hflag, HF2.
  exists (<[n := f]> sub2), F2. split_and!.
  - replace (2 * length (n :: W) + fuel)%nat with (S (2 * length W + S fuel)) by (cbn; lia).
    cbn [app freeable_loop]. rewrite (node_at_Ok _ _ _ Hn). bind_simpl. rewrite E1.
    cbn [freeable_loop]. rewrite (node_at_Ok _ _ _ Hn). bind_simpl. by rewrite Ep, Es.
  - intros n' ->%list_elem_of_singleton. exists f. rewrite lookup_insert_eq. split; [done|].
    intros b. unfold seg_of. rewrite Hn. intros Hb. apply Hflag; [destruct (segment nd); simpl in *; [done|lia]|done].
  - intros m [Hmn HmW]%not_elem_of_cons. rewrite lookup_insert_ne by done. rewrite Hkeep, Ho1; [done|done|].
    intros Hm. apply HmW, Hin'. exists m. split; [by apply (proj2 (node_child n nd m Hn))|constructor].
  - intros x. rewrite HF2, HF1. assert (seg_of t n = segment nd) as <- by (unfold seg_of; by rewrite Hn).
    setoid_rewrite elem_of_cons. split.
    + intros [[?|(m & ? & ?)]|?]; [by left|right; exists m; tauto|right; exists n; tauto].
    + intros [?|(m & [->|?] & ?)]; [by do 2 left|by right|left; right; by exists m].
Qed.

Lemma walk_all n : is_Some (heap t !! n) -> node_spec n.
Proof.
  destruct (wf_rank t Ht) as [rank Hrank].
  assert (exists N, forall m, is_Some (heap t !! m) -> (rank m <= N)%nat) as [N HN].
  { clear. induction (heap t) as [|m md h Hm [k IH]] using map_ind.
    - exists O. intros m. rewrite lookup_empty. by intros [? ?].
    - exists (Nat.max (rank m) k). intros m'. destruct (decide (m' = m)) as [->|]; [lia|].
      rewrite lookup_insert_ne by done. intros Hm'%IH. lia. }
  remember (N - rank n)%nat as k eqn:Hk. revert n Hk. induction (lt_wf k) as [k _ IH]. intros n -> [nd Hn].
  apply (walk_node n nd Hn). intros c (cd & Hcd & Hp)%(node_child n nd c Hn).
  apply (IH (N - rank c)%nat); [|done|by exists cd]. specialize (Hrank _ _ _ Hcd Hp). specialize (HN c ltac:(by exists cd)). lia.
Qed.

Lemma under_root n : is_Some (heap t !! n) -> under 0 n.
Proof.
  destruct (wf_rank t Ht) as [rank Hrank]. remember (rank n) as k eqn:Hk. revert n Hk.
  induction (lt_wf k) as [k _ IH]. intros n -> [nd Hn]. destruct (decide (n = 0%nat)) as [->|Hne]; [constructor|].
  destruct (wf_seg t Ht n nd Hn Hne) as [_ [p Hp]]. eapply rtc_l; [by exists nd|].
  apply (IH (rank p)); [by apply (Hrank n nd)|done|]. by eapply wf_parent_node.
Qed.

Lemma freeable_walk_spec : exists ids,
  freeable_loop (2 * size (heap t)) s [(0%nat, false)] ∅ ∅ = Ok ids /\
  forall x, x ∈ ids <-> freeable_spec s x.
Proof.
  destruct (wf_root t Ht) as [ch Hroot].
  destruct (walk_all 0%nat) as (W & HW & Hin & Hrun); [by eexists|].
  assert (forall m, m ∈ W -> is_Some (heap t !! m)) as Hheap.
  { intros m [->|(p & (md & Hm & _) & _)]%Hin%rtc_inv; [by eexists|by eexists]. }
  assert (length W <= size (heap t))%nat as Hsz.
  { rewrite <- size_dom, <- (size_list_to_set (C := gset nat)) by done. apply subseteq_size.
    intros m. rewrite elem_of_list_to_set, elem_of_dom. apply Hheap. }
  destruct (Hrun (2 * (size (heap t) - length W))%nat [] ∅ ∅) as (sub & F & E & _ & _ & HF).
  exists F. split.
  - replace (2 * size (heap t))%nat with (2 * length W + 2 * (size (heap t) - length W))%nat by lia.
    cbn [app] in E. rewrite E. by destruct (2 * (size (heap t) - length W))%nat.
  - intros x. rewrite HF, elem_of_empty. split; [by intros [?|(m & _ & _ & ?)]|].
    intros Hx. right. destruct (proj1 Hx) as (o & b & Hg & _).
    pose proof (forest_parent s x o b Hwf Hg) as Hp.
    destruct (block_parent_location t x _ Ht Hp) as (n & i & nd & _ & Hn & Hi).
    exists n. split_and!; [apply Hin, under_root; by eexists| |done]. unfold seg_of. rewrite Hn.
    by eapply list_elem_of_lookup_2.
Qed.
End walk.

(** ** The operation *)

Lemma freeable_block_ids_spec s : index_inv s ->
  wp freeable_block_ids (fun r s' => index_inv s' /\ core s' = core s /\ epochs s' = epochs s /\
    exists ids, r = Ok ids /\ forall id, id ∈ ids <-> freeable_spec s id) s.
Proof.
  intros [Hwf Hv]. unfold freeable_block_ids. apply wp_bind, wp_read. cbv beta iota.
  wp_step; bool_to_prop; apply wp_bind, wp_modify; cbv beta iota.
  - apply wp_ret. split_and!; [split; [by apply (index_wf_core s)|by destruct Hv]|done..|].
    eexists. split; [done|]. by apply (vo_freeable s Hv).
  - set (s1 := s <| scans ::= _ |>). assert (index_wf s1) as Hwf1 by (by apply (index_wf_core s)).
    destruct (freeable_walk_spec s1 Hwf1) as (ids & Hids & Hel).
    apply wp_bind, wp_ask. rewrite Hids. apply wp_bind, wp_modify, wp_ret.
    split_and!; [split; [by apply (index_wf_core s)|]|done..|by eexists].
    destruct Hv as [F E D]. split; [|exact E|exact D]. split; [cbn; lia|]. intros _ id. exact (Hel id).
Qed.

#[global] Instance radix_freeable_query : FreeableQuery RadixTreeBackend :=
  {| freeable_query := freeable_block_ids; freeable_query_ok := freeable_block_ids_spec |}.

(** *** The cached view *)

Definition counted_hit (s : Index) : Index := s <| scans ::= fun c => c <| freeable_cache_hits ::= Z.succ |> |>.

(** A view dated with the capacity epoch answers by itself. *)
Lemma freeable_from_view s :
  view_epoch (freeable_view (views s)) = capacity_epoch (epochs s) ->
  freeable_block_ids s = (Ok (view_ids (freeable_view (views s))), counted_hit s).
Proof. intros He. unfold freeable_block_ids. act_unfold. by rewrite He, Z.eqb_refl. Qed.

(** However the query was answered, its view is dated afterwards and holds the
    answer. *)
Lemma freeable_dated s ids s' : freeable_block_ids s = (Ok ids, s') ->
  view_epoch (freeable_view (views s')) = capacity_epoch (epochs s') /\ view_ids (freeable_view (views s')) = ids.
Proof.
  unfold freeable_block_ids. act_unfold. destruct (Z.eqb_spec (view_epoch (freeable_view (views s))) (capacity_epoch (epochs s))) as [He|_].
  - intros [= <- <-]. by split.
  - unfold ask. match goal with |- context [freeable_loop ?n ?s1 ?l ?m ?f] => destruct (freeable_loop n s1 l m f) end; [|done].
    intros [= <- <-]. by split.
Qed.
