(* ===== verification/PrefixContract.v ===== *)
(** * The prefix index: contract

    The public operations of the index as one step relation, the invariant of
    every reachable index, and what each operation promises.  The last section
    shows a cached view that a legal sequence of operations makes stale. *)

From stdpp Require Import base gmap list strings.
From Stdlib Require Import ZArith Lia.
From Stdlib.Init Require Import Byte.
From S2P Require Import Prelude PyDict PyBytes Sha256 RoutingMembership RadixTree RadixForest PrefixHash.
From S2P Require Import PrefixIndex PrefixIndexFacts PrefixCapacity PrefixTransfer PrefixCommit PrefixQueue PrefixEviction.
From S2P Require Import PrefixControl PrefixSubtree PrefixDemotion PrefixReclaim.

(** ** Operations as steps *)

(** [NewBlock] is a caller constructing a [PrefixCacheBlock]; the other
    constructors are the methods of [RadixPrefixIndex]. *)
Inductive IndexOp :=
| NewBlock (b : PrefixCacheBlock)
| Insert (o : nat)
| Transfer (op : TransferOp) (o : nat)
| SetRefCount (o : nat) (count : Z)
| Acquire (o : nat)
| Release (o : nat)
| Touch (os : list nat)
| Compacted (os : list nat)
| Rollback (o : nat)
| EvictWeight (w : PrefixCacheBlock -> Z) (needed : Z)
| EvictHost (needed : Z)
| DemoteWeight (w : PrefixCacheBlock -> Z) (needed : Z)
| Ensure (needed : Z)
| SafeDelete (toks : list Z)
| Preview (toks : list Z)
| SetPriority (toks : list Z) (priority : Z)
| Lookup (toks : list Z) (max_usable : Z)
| Match (toks : list Z) (max_usable : Z)
| Routing (method : string)
| Freeable
| Evictable
| DeviceFreeable
| DeviceReclaimable.

Section contract.
Context {T : Type} `{BlockForest T} `{Digest} {query : FreeableQuery T}.
#[local] Abbreviation Index := (RadixPrefixIndex T).
#[local] Abbreviation IndexAct := (Act PyExn (RadixPrefixIndex T)).
Implicit Types (s : Index) (id : bytes) (o : nat) (b : PrefixCacheBlock).

Definition alloc_block b : IndexAct unit :=
  modify (fun s => s <| store ::= <[fresh (dom (store s)) := b]> |>).

(** Dropping a result. *)
Definition discard {A} (m : IndexAct A) : IndexAct unit := m ;; mret tt.

Definition run_op (op : IndexOp) : IndexAct unit :=
  match op with
  | NewBlock b => alloc_block b
  | Insert o => discard (insert_block o)
  | Transfer op o => run_transfer op o
  | SetRefCount o n => set_block_ref_count o n negative_ref
  | Acquire o => acquire_block_ref o
  | Release o => release_block_ref o negative_ref
  | Touch os => touch_chain os
  | Compacted os => mark_payload_compacted os
  | Rollback o => rollback_inserted_leaf o
  | EvictWeight w n => discard (evict_until_weight w n)
  | EvictHost n => discard (evict_host_until_freeable n)
  | DemoteWeight w n => discard (demote_device_until_weight w n)
  | Ensure n => discard (ensure_insert_capacity n)
  | SafeDelete toks => discard (safe_delete_subtree toks)
  | Preview toks => discard (preview_delete_subtree toks)
  | SetPriority toks p => discard (set_subtree_eviction_priority toks p)
  | Lookup toks n => discard (lookup_longest_prefix toks n)
  | Match toks n => discard (match_longest_prefix toks n)
  | Routing m => discard (routing_snapshot m)
  | Freeable => discard freeable_query
  | Evictable => discard evictable_block_ids
  | DeviceFreeable => discard device_freeable_block_ids
  | DeviceReclaimable => discard device_reclaimable_block_ids
  end.

(** Callers insert blocks with a non-negative count and weigh blocks by
    non-negative amounts. *)
Definition op_ok s (op : IndexOp) : Prop :=
  match op with
  | Insert o => forall b, store s !! o = Some b -> 0 <= ref_count b
  | EvictWeight w _ | DemoteWeight w _ => forall b, 0 <= w b
  | _ => True
  end.

Inductive reachable (bs : Z) (fp : bytes) (max : option Z) : Index -> Prop :=
| reach_init s : new_index bs fp max = Ok s -> reachable bs fp max s
| reach_step s op : reachable bs fp max s -> op_ok s op -> reachable bs fp max (run_op op s).2.

(** ** The invariant *)

Lemma wp_discard {A} (m : IndexAct A) (P : Index -> Prop) s :
  wp m (fun _ s' => P s') s -> wp (discard m) (fun _ s' => P s') s.
Proof. unfold wp, discard, mbind, Act_bind. by destruct (m s) as [[a|e] s']. Qed.

Lemma new_index_inv bs fp max s : new_index bs fp max = Ok s -> index_inv s.
Proof.
  unfold new_index. destruct (Z.leb_spec bs 0); [done|].
  destruct (match max with Some m => m <=? 0 | None => false end) eqn:Hmax; [done|]. intros [= <-]. split.
  - split; try done.
    + apply dict_wf_empty.
    + apply forest_empty_wf.
    + intros id. apply forest_empty_of.
    + apply empty_membership_wf.
    + intros m. cbn. intros ->. bool_to_prop. unfold live. cbn. lia.
  - split; (split; [cbn; lia|cbn; lia]).
Qed.

Lemma alloc_block_wf s b : index_wf s -> index_wf (alloc_block b s).2.
Proof.
  intros Hwf. set (o := fresh (dom (store s))).
  assert (store s !! o = None) as Ho by (apply not_elem_of_dom, is_fresh).
  assert (forall id, get_block (alloc_block b s).2 id = get_block s id) as Hg.
  { intros id. unfold get_block, alloc_block, modify. cbn. fold o.
    destruct (blocks s !! id) as [o'|] eqn:Hb; [|done].
    destruct (iwf_store s Hwf id o' Hb) as (b' & Hb' & _). rewrite lookup_insert_ne by congruence. done. }
  split; try apply Hwf.
  - intros id o' Hb. destruct (iwf_store s Hwf id o' Hb) as (b' & Hb' & Hst). exists b'. split; [|done].
    cbn. fold o. by rewrite lookup_insert_ne by congruence.
  - intros id. rewrite Hg. apply (iwf_forest s Hwf).
  - intros id o' b'. rewrite Hg. intros Hb. destruct (iwf_residency s Hwf id o' b' Hb) as (? & ? & Hp).
    split_and!; [done..|]. destruct (parent_block_id b'); [|done]. by setoid_rewrite Hg.
Qed.

Lemma alloc_block_inv s b : index_inv s -> index_inv (alloc_block b s).2.
Proof.
  intros Hinv. pose proof (alloc_block_wf s b (proj1 Hinv)) as Hwf'.
  apply (index_inv_step s); [done..|]. split; [done|]. right. split; [done|].
  intros id. unfold cap_block.
  assert (get_block (alloc_block b s).2 id = get_block s id) as ->; [|done].
  unfold get_block, alloc_block, modify. cbn.
  destruct (blocks s !! id) as [o'|] eqn:Hb; [|done].
  destruct (iwf_store s (proj1 Hinv) id o' Hb) as (b' & Hb' & _). rewrite lookup_insert_ne; [done|].
  intros E. assert (store s !! fresh (dom (store s)) = None) by (apply not_elem_of_dom, is_fresh). congruence.
Qed.

Lemma evict_post_inv P w n g s bf r s' : evict_post P w n g s bf r s' -> index_inv s'.
Proof. intros (l & _ & Htr & _). by apply evict_trace_inv in Htr as [_ ?]. Qed.

Lemma run_op_inv s op : index_inv s -> op_ok s op -> index_inv (run_op op s).2.
Proof.
  intros Hinv Hok. pose proof (proj1 Hinv) as Hwf.
  change (wp (run_op op) (fun _ s' => index_inv s') s).
  assert (forall A (m : IndexAct A), wp m (op_post s) s -> wp m (fun _ s' => index_inv s') s) as Hpost.
  { intros A m Hm. eapply wp_mono; [exact Hm|]. intros r s'. by apply op_post_inv. }
  assert (forall A (m : IndexAct A), wp m (fun _ s' => frame s s') s -> wp m (fun _ s' => index_inv s') s) as Hframe.
  { intros A m Hm. eapply wp_mono; [exact Hm|]. intros r s' Hf. by apply (frame_inv s). }
  destruct op; cbn [run_op op_ok] in *; try apply wp_discard.
  - by apply alloc_block_inv.
  - eapply wp_mono; [by apply insert_block_spec|]. by intros r s' [? _].
  - eapply wp_mono; [by apply run_transfer_spec|]. intros r s' (? & ? & _). by apply (index_inv_step s).
  - apply Hpost. eapply wp_mono; [by apply set_block_ref_count_spec|]. by intros r s' [? _].
  - by apply Hpost, acquire_block_ref_spec.
  - by apply Hpost, release_block_ref_spec.
  - by apply Hpost, touch_chain_spec.
  - by apply Hpost, mark_payload_compacted_spec.
  - eapply wp_mono; [by apply rollback_inserted_leaf_spec|]. by intros r s' [? _].
  - eapply wp_mono; [by apply evict_until_weight_spec|]. intros r s'. by apply evict_post_inv.
  - eapply wp_mono; [by apply evict_host_until_freeable_spec|]. intros r s'. by apply evict_post_inv.
  - eapply wp_mono; [by apply demote_device_until_weight_spec|].
    intros r s' (l & _ & Htr & _). by apply demote_trace_inv in Htr as [_ ?].
  - eapply wp_mono; [by apply ensure_insert_capacity_spec|]. by intros r s' [? _].
  - eapply wp_mono; [by apply safe_delete_spec|]. by intros r s' [? _].
  - apply Hframe. eapply wp_mono; [by apply preview_delete_spec|]. by intros r s' [? _].
  - by apply set_priority_inv.
  - by apply Hframe, lookup_longest_prefix_frame.
  - by apply Hframe, match_longest_prefix_frame.
  - eapply wp_mono; [by apply routing_snapshot_spec|]. intros r s' (? & ? & _). by apply (index_inv_step s).
  - eapply wp_mono; [by apply freeable_query_ok|]. by intros r s' [? _].
  - eapply wp_mono; [by apply evictable_block_ids_spec|]. by intros r s' [? _].
  - eapply wp_mono; [by apply device_freeable_block_ids_spec|]. by intros r s' [? _].
  - eapply wp_mono; [by apply device_reclaimable_block_ids_spec|]. by intros r s' [? _].
Qed.

Lemma reachable_index_inv bs fp max s : reachable bs fp max s -> index_inv s.
Proof. induction 1 as [s Hs|s op _ IH Hok]; [by eapply new_index_inv|by apply run_op_inv]. Qed.
End contract.
