(* ===== verification/PrefixEpochs.v ===== *)
(** * The prefix index: the remove epoch

    A caller may trust an answer for as long as [remove_epoch] stands: an
    operation that does not raise the epoch leaves every block of the forest in
    its place and every object indexed.  [later] says so of two states, and every operation of the index
    leads to a later state. *)

From stdpp Require Import base gmap list strings.
From Stdlib Require Import ZArith Lia.
From S2P Require Import Prelude PyDict PyBytes Sha256 RoutingMembership RadixTree RadixForest PrefixHash.
From S2P Require Import PrefixIndex PrefixIndexFacts PrefixCapacity PrefixTransfer PrefixCommit PrefixQueue PrefixEviction.
From S2P Require Import PrefixControl PrefixSubtree PrefixDemotion PrefixReclaim PrefixContract.

Section epochs.
Context {T : Type} `{BlockForest T} `{Digest} {query : FreeableQuery T}.
#[local] Abbreviation Index := (RadixPrefixIndex T).
#[local] Abbreviation IndexAct := (Act PyExn (RadixPrefixIndex T)).
Implicit Types (s : Index) (id : bytes) (o : nat) (b : PrefixCacheBlock).

Definition epoch_of s : Z := remove_epoch (epochs s).
Definition later s s' : Prop :=
  config s' = config s /\ epoch_of s <= epoch_of s' /\
  (epoch_of s' = epoch_of s ->
    (forall id p, forest_of (backend s) id = Some p -> forest_of (backend s') id = Some p) /\
    forall id o, blocks s !! id = Some o -> blocks s' !! id = Some o).

(** What holds of the configuration, the forest with the objects in it and the
    epoch alone. *)
Definition placed s : T * PyDict bytes nat := (backend s, blocks s).
Definition observed (P : IndexConfig -> T * PyDict bytes nat -> Z -> Prop) s : Prop := P (config s) (placed s) (epoch_of s).
(** Until the epoch passes [E] the forest is [t]. *)
#[local] Abbreviation stays cf t E := (observed (fun cf' t' E' => cf' = cf /\ E <= E' /\ (E' = E -> t' = t))).

Lemma stays_later s s' : stays (config s) (placed s) (epoch_of s) s' -> later s s'.
Proof. intros (Hc & HE & Ht). split_and!; [done|done|]. intros He. injection (Ht He) as E1 E2. by rewrite E1, E2. Qed.
Lemma stays_refl s : stays (config s) (placed s) (epoch_of s) s.
Proof. done. Qed.

Lemma keep_ask {A} (I : Index -> Prop) (f : Index -> exc A) : keep I (ask f).
Proof. by intros s Hs. Qed.
Lemma keep_deref (I : Index -> Prop) o : keep I (deref o).
Proof. intros s Hs. unfold wp, deref. by destruct (store s !! o). Qed.
#[local] Hint Resolve keep_ask keep_deref : keep.
#[local] Hint Extern 5 (keep _ (modify _)) => apply keep_modify; intros ? Hs; exact Hs : keep.

(** ** Operations that touch neither the forest nor the epoch *)

Section quiet.
Variable P : IndexConfig -> T * PyDict bytes nat -> Z -> Prop.
#[local] Abbreviation quiet := (keep (observed P)).

Lemma quiet_update_block o f : quiet (update_block o f).
Proof. unfold update_block. eauto with keep. Qed.
Lemma quiet_mark_mutated : quiet mark_mutated.
Proof. unfold mark_mutated. eauto with keep. Qed.
#[local] Hint Resolve quiet_update_block quiet_mark_mutated : keep.
Lemma quiet_mark_capacity : quiet mark_capacity_mutated.
Proof. unfold mark_capacity_mutated. keep_auto. Qed.
Lemma quiet_tick : quiet tick.
Proof. unfold tick. keep_auto. Qed.
Lemma quiet_validate_residency o : quiet (validate_residency o).
Proof. unfold validate_residency. keep_auto. Qed.
Lemma quiet_validate_indexed o : quiet (validate_indexed_block o).
Proof. unfold validate_indexed_block. keep_auto. Qed.
Lemma quiet_parent_check b ok e : quiet (parent_check b ok e).
Proof. unfold parent_check. keep_auto. Qed.
Lemma quiet_set_residency o f : quiet (set_residency o f).
Proof. apply quiet_update_block. Qed.
#[local] Hint Resolve quiet_mark_capacity quiet_tick quiet_validate_residency quiet_validate_indexed
  quiet_parent_check quiet_set_residency : keep.

Lemma quiet_transfer op o : quiet (run_transfer op o).
Proof. destruct op; cbn [run_transfer]; unfold begin_d2h, finish_d2h, abort_d2h, begin_h2d, finish_h2d, abort_h2d; keep_auto. Qed.
Lemma quiet_set_ref_count o n e : quiet (set_block_ref_count o n e).
Proof. unfold set_block_ref_count. keep_auto. Qed.
#[local] Hint Resolve quiet_transfer quiet_set_ref_count : keep.
Lemma quiet_touch os : quiet (touch_chain os).
Proof. unfold touch_chain. keep_auto. Qed.
Lemma quiet_compacted os : quiet (mark_payload_compacted os).
Proof. unfold mark_payload_compacted. keep_auto. Qed.
Lemma quiet_demote_loop w fuel needed q l got : quiet (demote_loop w fuel needed q l got).
Proof. revert q l got. induction fuel as [|fuel IH]; intros q l got; cbn [demote_loop]; keep_auto. Qed.
#[local] Hint Resolve quiet_demote_loop : keep.
Lemma quiet_demote w needed : quiet (demote_device_until_weight w needed).
Proof. unfold demote_device_until_weight. keep_auto. Qed.
Lemma quiet_block_ids toks m : quiet (block_ids_for_tokens toks m).
Proof. unfold block_ids_for_tokens. keep_auto. Qed.
Lemma quiet_lookup_ids ids : quiet (lookup_longest_block_ids ids).
Proof. unfold lookup_longest_block_ids. keep_auto. Qed.
#[local] Hint Resolve quiet_block_ids quiet_lookup_ids : keep.
Lemma quiet_update_priorities ids p n ch cc : quiet (update_priorities ids p n ch cc).
Proof. revert n ch cc. induction ids as [|id ids IH]; intros n ch cc; cbn [update_priorities]; keep_auto. Qed.
#[local] Hint Resolve quiet_update_priorities : keep.
Lemma quiet_set_priority toks p : quiet (set_subtree_eviction_priority toks p).
Proof. unfold set_subtree_eviction_priority. keep_auto. Qed.
Lemma quiet_exact_subtree toks : quiet (exact_subtree_ids_for_tokens toks).
Proof. unfold exact_subtree_ids_for_tokens. keep_auto. Qed.
#[local] Hint Resolve quiet_exact_subtree : keep.
Lemma quiet_preview toks : quiet (preview_delete_subtree toks).
Proof. unfold preview_delete_subtree. keep_auto. Qed.
Lemma quiet_evictable : quiet evictable_block_ids.
Proof. unfold evictable_block_ids. keep_auto. Qed.
Lemma quiet_reclaimable f : quiet (device_reclaimable_ids f).
Proof. unfold device_reclaimable_ids. keep_auto. Qed.
Lemma quiet_routing m : quiet (routing_snapshot m).
Proof. unfold routing_snapshot. keep_auto. Qed.
Lemma quiet_alloc b : quiet (alloc_block b).
Proof. unfold alloc_block. eauto with keep. Qed.
#[local] Hint Resolve quiet_evictable : keep.
(** An insertion is quiet but for the forest. *)
Lemma quiet_insert o : (forall cf t t' E, P cf t E -> P cf t' E) -> quiet (insert_block o).
Proof.
  intros HP. assert (forall m : Act PyExn T unit, quiet (on_backend m)).
  { intros m s Hs. unfold wp, on_backend. destruct (m (backend s)) as [r t]. by apply (HP _ (placed s)). }
  assert (forall f, quiet (modify (fun s => s <| blocks ::= f |>) : IndexAct unit)).
  { intros f. apply keep_modify. intros s Hs. by apply (HP _ (placed s)). }
  unfold insert_block, evictable_blocks, record_routing_insert, mark_inserted. keep_auto.
Qed.
End quiet.
#[local] Hint Resolve quiet_touch quiet_compacted quiet_demote quiet_set_priority quiet_preview quiet_evictable
  quiet_reclaimable quiet_routing quiet_alloc quiet_set_ref_count quiet_transfer quiet_block_ids quiet_lookup_ids : keep.

(** ** Removals raise the epoch *)

Lemma remove_epoch_raised s id :
  wp (remove_block_from_index id) (fun r s' =>
    match r with Ok _ => epoch_of s' = epoch_of s + 1 | Raise _ => True end) s.
Proof.
  unfold remove_block_from_index. apply wp_bind, wp_read. destruct (get_block s id) as [[o b]|]; [|by apply wp_throw].
  do 3 (apply wp_bind, wp_guard; [done|intros _]).
  apply wp_bind, wp_ask. destruct (child_count_of s id); [|done]. apply wp_bind, wp_guard; [done|intros _].
  apply wp_bind. unfold on_backend at 1, wp at 1. destruct (forest_remove id (backend s)) as [[[]|e] t]; [|done].
  apply wp_bind, wp_modify, wp_bind. unfold record_routing_remove. apply wp_bind, wp_ask.
  match goal with |- context [membership_remove ?m id] => destruct (membership_remove m id) end; [|done].
  apply wp_modify. cbv beta iota. apply wp_bind. unfold mark_removed, mark_capacity_mutated, mark_mutated.
  reflexivity.
Qed.

(** What an eviction loop keeps. *)
Definition kept cf t E s : Prop := index_inv s /\ stays cf t E s.

Lemma keep_remove cf t E id : keep (kept cf t E) (remove_block_from_index id).
Proof.
  intros s [Hinv Hst]. pose proof (remove_epoch_raised s id) as He.
  pose proof (remove_block_from_index_spec s id Hinv) as Hp. unfold wp in *.
  destruct (remove_block_from_index id s) as [[o|e] s'].
  - destruct Hp as (Hinv' & _ & _ & _ & _ & Hc & _), Hst as (Hcf & HE & _). cbn [fst snd] in *.
    split; [done|]. split_and!; [congruence|cbn; lia|cbn; lia].
  - destruct Hp as [-> _]. done.
Qed.
Lemma keep_commits cf t E upd : keep (kept cf t E) (modify (fun s => s <| commits ::= upd |>) : IndexAct unit).
Proof.
  apply keep_modify. intros s [Hinv Hst]. split; [|exact Hst].
  apply (op_post_inv s (Ok tt : exc unit)); [done|]. split; [by apply (index_wf_core s); [|apply Hinv]|].
  split; [done|]. by right.
Qed.
#[local] Hint Resolve keep_remove keep_commits : keep.

Lemma keep_evict_loop cf t E w fuel needed q l got : keep (kept cf t E) (evict_loop w fuel needed q l got).
Proof. revert q l got. induction fuel as [|fuel IH]; intros q l got; cbn [evict_loop]; keep_auto. Qed.
Lemma keep_evict_host_loop cf t E fuel needed q l : keep (kept cf t E) (evict_host_loop fuel needed q l).
Proof. revert q l. induction fuel as [|fuel IH]; intros q l; cbn [evict_host_loop]; keep_auto. Qed.
Lemma keep_apply_delete cf t E os : keep (kept cf t E) (apply_delete os).
Proof. induction os as [|o os IH]; cbn [apply_delete]; keep_auto. Qed.
#[local] Hint Resolve keep_evict_loop keep_evict_host_loop keep_apply_delete : keep.
Lemma keep_evict_weight cf t E w needed : keep (kept cf t E) (evict_until_weight w needed).
Proof. unfold evict_until_weight. keep_auto. Qed.
Lemma keep_evict_host cf t E needed : keep (kept cf t E) (evict_host_until_freeable needed).
Proof. unfold evict_host_until_freeable. keep_auto. Qed.
Lemma keep_rollback cf t E o : keep (kept cf t E) (rollback_inserted_leaf o).
Proof. unfold rollback_inserted_leaf. keep_auto. Qed.
#[local] Hint Resolve keep_evict_weight keep_evict_host keep_rollback : keep.

(** A quiet action whose contract restores the invariant. *)
Lemma keep_kept {A} cf t E (m : IndexAct A) :
  keep index_inv m -> keep (stays cf t E) m -> keep (kept cf t E) m.
Proof.
  intros Hi Hq s [Hinv Hst]. specialize (Hi s Hinv). specialize (Hq s Hst). unfold wp in *.
  by destruct (m s) as [r s'].
Qed.
Lemma keep_ensure cf t E needed : keep (kept cf t E) (ensure_insert_capacity needed).
Proof.
  assert (keep (kept cf t E) evictable_block_ids).
  { apply keep_kept; [|auto with keep]. intros s Hinv. eapply wp_mono; [by apply evictable_block_ids_spec|].
    by intros r s' [? _]. }
  unfold ensure_insert_capacity, evict_until_freeable, evictable_blocks. keep_auto.
Qed.
Lemma keep_safe_delete cf t E toks : keep (kept cf t E) (safe_delete_subtree toks).
Proof.
  assert (keep (kept cf t E) (preview_delete_subtree toks)).
  { apply keep_kept; [|auto with keep]. intros s Hinv. eapply wp_mono; [by apply preview_delete_spec, Hinv|].
    intros r s' [Hf _]. by apply (frame_inv s). }
  assert (keep (kept cf t E) (modify (fun s => s <| controls ::= fun c => c <| control_delete_requests ::= Z.succ |> |>) : IndexAct unit)).
  { apply keep_kept; [|auto with keep]. intros s Hinv. by apply (frame_inv s). }
  unfold safe_delete_subtree. keep_auto.
Qed.
#[local] Hint Resolve keep_ensure keep_safe_delete : keep.

(** ** Every operation leads to a later state *)

Lemma later_refl s : later s s.
Proof. split_and!; [done|lia|done]. Qed.
Lemma later_trans s1 s2 s3 : later s1 s2 -> later s2 s3 -> later s1 s3.
Proof.
  intros (C1 & E1 & F1) (C2 & E2 & F2). split_and!; [congruence|lia|]. intros He.
  destruct (F1 ltac:(lia)), (F2 ltac:(lia)). auto.
Qed.

Lemma keep_discarded {A} (I : Index -> Prop) (m : IndexAct A) : keep I m -> keep I (discard m).
Proof. intros Hm. unfold discard. keep_auto. Qed.

Lemma insert_later s o : index_inv s -> op_ok s (Insert o) -> later s (run_op (Insert o) s).2.
Proof.
  intros Hinv Hok. cbn [op_ok] in Hok.
  assert (wp (run_op (Insert o)) (fun _ s' => config s' = config s /\ epoch_of s' = epoch_of s) s) as [Hc He].
  { apply (keep_discarded (observed (fun cf _ E => cf = config s /\ E = epoch_of s))); [|done].
    by apply quiet_insert. }
  assert (wp (run_op (Insert o)) (fun _ s' => index_inv s' /\
    (forall id p, forest_of (backend s) id = Some p -> forest_of (backend s') id = Some p) /\
    forall id o, blocks s !! id = Some o -> blocks s' !! id = Some o) s) as (_ & Hf & Hb).
  { apply wp_discard. eapply wp_mono; [by apply insert_block_spec|]. intros r s' [Hinv' Hr]. split; [done|].
    assert (forall id o, blocks s !! id = Some o -> is_Some (get_block s id) /\ exists b, get_block s id = Some (o, b)) as Hpres.
    { intros id o' Ho. destruct (iwf_store s (proj1 Hinv) id o' Ho) as (b & Hb & _). unfold get_block. rewrite Ho, Hb. eauto. }
    split.
    2:{ intros id o' Ho. destruct (Hpres id o' Ho) as [_ [b Hg]]. assert (exists b', get_block s' id = Some (o', b')) as [b' Hg'].
        { destruct r as [o1|e]; [|exists b; by rewrite Hr]. destruct Hr as (b1 & _ & _ & Hr).
          destruct (get_block s (stable_block_id b1)) as [[e eb]|] eqn:Hg1; destruct Hr as (_ & _ & Hr); rewrite Hr;
            case_decide as Hid; eauto; subst id; rewrite Hg1 in Hg; by simplify_eq; eauto. }
        by apply (get_block_Some s' id o' b' (proj1 Hinv')) in Hg' as [? _]. }
    intros id p. rewrite (iwf_forest s (proj1 Hinv)), (iwf_forest s' (proj1 Hinv')).
    destruct r as [o'|e]; [|by rewrite Hr]. destruct Hr as (b & _ & _ & Hr).
    destruct (get_block s (stable_block_id b)) as [[e eb]|] eqn:Hg; destruct Hr as (_ & _ & Hr); rewrite Hr;
      case_decide as Hid; try done; subst id; by rewrite Hg. }
  split_and!; [done|lia|done].
Qed.

Lemma core_later s s' : core s' = core s -> epochs s' = epochs s -> later s s'.
Proof. intros [= Hcf _ Hb Hbk _ _] He. unfold later, epoch_of. rewrite Hcf, He, Hb, Hbk. split_and!; [done|lia|done]. Qed.
Lemma freeable_later s : index_inv s -> later s (run_op Freeable s).2.
Proof.
  intros Hinv. change (wp (run_op Freeable) (fun _ s' => later s s') s). apply wp_discard.
  eapply wp_mono; [by apply freeable_query_ok|]. intros r s' (_ & ? & ? & _). by apply core_later.
Qed.

(** Every operation of the index leads to a later state. *)
Lemma run_op_later s op : index_inv s -> op_ok s op -> later s (run_op op s).2.
Proof.
  intros Hinv Hok.
  assert (keep (stays (config s) (placed s) (epoch_of s)) (run_op op) -> later s (run_op op s).2) as Hq.
  { intros Hk. by apply stays_later, Hk. }
  assert (keep (kept (config s) (placed s) (epoch_of s)) (run_op op) -> later s (run_op op s).2) as Hk.
  { intros Hk. apply stays_later, Hk. done. }
  destruct op; cbn [run_op] in *; try (apply Hq; solve [eauto using keep_discarded with keep]);
    try (apply Hk; solve [eauto using keep_discarded with keep]); [by apply insert_later|..]; try by apply freeable_later.
  all:
    apply Hq; try apply keep_discarded; unfold acquire_block_ref, release_block_ref, lookup_longest_prefix,
    match_longest_prefix; keep_auto.
Qed.
End epochs.
