(* ===== verification/PrefixGuarantees.v ===== *)
(** * The prefix index: what each operation promises

    The guarantees of [RadixPrefixIndex], for any index that a sequence of
    operations can reach, each at a concrete index run on the radix tree; and a
    cached view that the operations let go stale. *)

From stdpp Require Import base gmap list strings.
From Stdlib Require Import ZArith Lia.
From Stdlib.Init Require Import Byte.
From S2P Require Import Prelude PyDict PyBytes Sha256 RoutingMembership RadixTree RadixForest PrefixHash.
From S2P Require Import PrefixIndex PrefixIndexFacts PrefixCapacity PrefixTransfer PrefixCommit PrefixQueue PrefixEviction.
From S2P Require Import PrefixControl PrefixSubtree PrefixDemotion PrefixReclaim PrefixFreeable PrefixContract.

Section runs.
Context {T : Type} `{BlockForest T} `{Digest} {query : FreeableQuery T}.

(** ** Runs of several operations *)

Definition run_ops (ops : list IndexOp) (s : RadixPrefixIndex T) : RadixPrefixIndex T :=
  foldl (fun s op => (run_op op s).2) s ops.

Fixpoint ops_ok (s : RadixPrefixIndex T) (ops : list IndexOp) : Prop :=
  match ops with
  | [] => True
  | op :: ops' => op_ok s op /\ ops_ok (run_op op s).2 ops'
  end.

Lemma run_ops_reachable bs fp max ops s :
  reachable bs fp max s -> ops_ok s ops -> reachable bs fp max (run_ops ops s).
Proof.
  revert s. induction ops as [|op ops IH]; intros s Hs; [done|]. intros [Hok Hoks].
  apply IH; [by apply reach_step|done].
Qed.
End runs.

(** ** A concrete index

    Token lists of block size 1 under the [toy] digest: the block of [[7]],
    its child [[7; 8]] and the device-to-host copy of both. *)

#[local] Existing Instance toy.

Definition sample_id (toks : list Z) : bytes :=
  match block_ids_of_tokens 1 [] toks None with
  | Ok ids => default [] (last ids)
  | Raise _ => []
  end.
Definition sample_block (toks : list Z) (refs : Z) : PrefixCacheBlock :=
  mkBlock (sample_id toks) (match toks with [_] => None | _ => Some (sample_id (take (length toks - 1) toks)) end)
    1 (Z.of_nat (length toks) - 1) 0 (drop (length toks - 1) toks) refs 0 0 (mkResidency true false None) None.

Definition sample_start : RadixPrefixIndex RadixTreeBackend :=
  match new_index 1 [] (Some 2) with Ok s => s | Raise _ => mkIndex (mkIndexConfig 1 [] None) ∅ ∅ empty_backend
    (mkEpochs 0 0 0 0 0 0) (mkViews (mkView (-1) ∅) (mkView (-1) ∅) (mkView (-1) ∅) (mkView (-1) ∅))
    (mkLookupCounters 0 0 0 0 0) (mkCommitCounters 0 0 0 0 0 0) (mkControlCounters 0 0 0)
    (mkScanCounters 0 0 0 0 0 0) None empty_membership end.

Definition sample_ops : list IndexOp :=
  [NewBlock (sample_block [7] 0); NewBlock (sample_block [7; 8] 0); Insert 0; Insert 1].
Definition sample_index : RadixPrefixIndex RadixTreeBackend := run_ops sample_ops sample_start.
Definition backed_index : RadixPrefixIndex RadixTreeBackend :=
  run_ops [Transfer BeginD2H 0; Transfer FinishD2H 0; Transfer BeginD2H 1; Transfer FinishD2H 1]
    sample_index.

(** Only insertions leave an obligation. *)
Ltac check_ops := cbn [ops_ok]; split_and?; cbn [op_ok]; try exact I.

Lemma sample_index_reachable : reachable 1 [] (Some 2) sample_index.
Proof.
  apply run_ops_reachable; [apply reach_init; reflexivity|]. unfold sample_ops. check_ops.
  - intros b. vm_compute. intros [= <-]. discriminate.
  - intros b. vm_compute. intros [= <-]. discriminate.
Qed.

Lemma backed_index_reachable : reachable 1 [] (Some 2) backed_index.
Proof. apply run_ops_reachable; [apply sample_index_reachable|]. check_ops. Qed.

Section guarantees.
Context {T : Type} `{BlockForest T} `{Digest} {query : FreeableQuery T}.
#[local] Abbreviation Index := (RadixPrefixIndex T).
Implicit Types (s : Index) (id : bytes) (o : nat) (b : PrefixCacheBlock).
Variables (bs : Z) (fp : bytes) (max : option Z).

(** C4: Every reachable index is consistent: the dictionary, the block
    objects, the forest and the routing membership hold the same blocks, every
    block's parent is resident wherever the block is, residency triples are
    legal, reference counts are non-negative, the block limit holds, and the
    cached views of the freeable, the evictable and the device-freeable blocks
    are each dated before the capacity epoch or exact.  Nothing is said of the
    device-reclaimable view, which
    [device_reclaimable_view_goes_stale] shows can be wrong. *)
Theorem reachable_index_consistent s : reachable bs fp max s -> index_wf s /\ views_ok s.
Proof. apply reachable_index_inv. Qed.

(** C38: The six transfer operations on an indexed block are exactly the
    residency state machine.  One completes if and only if [residency_step] has
    a transition from the block's residency and [transfer_allowed] holds of its
    neighbours (a backup starts unreferenced and under a parent that has or is
    getting a host payload, is published under a host-resident parent; a
    promotion starts under a device-resident parent and is aborted without
    device-resident children).  It then takes that transition, changes nothing
    else and dates a new capacity epoch; a refused one changes nothing. *)
Theorem transfer_state_machine s op o b :
  reachable bs fp max s -> get_block s (stable_block_id b) = Some (o, b) ->
  let permitted := transfer_allowed op s b /\ exists r', residency_step op (residency b) r' in
  wp (run_transfer op o) (fun r s' =>
    (r = Ok tt <-> permitted) /\
    match r with
    | Ok _ => exists r', residency_step op (residency b) r' /\
        s' = capacity_bumped (updated s o (fun b => b <| residency := r' |>))
    | Raise _ => s' = s
    end) s.
Proof.
  intros Hr Hb. pose proof (reachable_index_inv _ _ _ _ Hr) as [Hwf _].
  eapply wp_mono; [by apply run_transfer_spec|]. intros r s' (_ & _ & Hpost).
  specialize (Hpost b Hb). destruct r as [[]|e]; cbn in Hpost.
  - destruct Hpost as (Ha & r' & Hstep & ->). split; [|by exists r']. split; [|done]. intros _. split; [done|by exists r'].
  - destruct Hpost as [-> Hno]. split; [|done]. split; [done|]. intros Hp. by destruct Hno.
Qed.

(** [insert_block]: a new block is added under its own id, with a fresh
    access time and everything else untouched; a duplicate id returns the
    block already indexed and only refreshes its access time; a refusal leaves
    every block as it was. *)
Theorem insert_block_contract s o :
  reachable bs fp max s -> (forall b, store s !! o = Some b -> 0 <= ref_count b) ->
  wp (insert_block o) (fun r s' => index_inv s' /\
    match r with
    | Raise _ => forall id, get_block s' id = get_block s id
    | Ok o' => exists b, store s !! o = Some b /\ residency_validate (residency b) = Ok tt /\
        match get_block s (stable_block_id b) with
        | Some (e, eb) => o' = e /\ live s' = live s /\
            forall id, get_block s' id = if decide (id = stable_block_id b)
              then Some (e, eb <| last_access := clock (epochs s') |>) else get_block s id
        | None => o' = o /\ live s' = live s + 1 /\
            forall id, get_block s' id = if decide (id = stable_block_id b)
              then Some (o, b <| last_access := clock (epochs s') |>) else get_block s id
        end
    end) s.
Proof. intros Hr Href. apply insert_block_spec; [by eapply reachable_index_inv|done]. Qed.

(** C15: [evict_until_weight] terminates without an error and returns the
    blocks of a trace that each time removes the least candidate (highest
    eviction priority first, then least recently used) among the unheld leaves;
    it stops when the weight is reached or no leaf is evictable, and never
    evicts a block beyond the weight. *)
Theorem evict_until_weight_contract s (w : PrefixCacheBlock -> Z) (needed : Z) :
  reachable bs fp max s -> (forall b, 0 <= w b) ->
  wp (evict_until_weight w needed) (fun r s' => exists l,
    r = Ok l.*1 /\ evict_trace unheld s l s' /\
    (needed <= weight_of w l \/ forall id, ~ evictable_spec s' id) /\
    (forall l1 x, l = l1 ++ [x] -> weight_of w l1 < needed)) s.
Proof.
  intros Hr Hw. eapply wp_mono; [apply evict_until_weight_spec; [done|by eapply reachable_index_inv]|].
  intros r s' (l & -> & ? & ? & ?). by exists l.
Qed.

(** [evict_until_freeable] frees as many blocks as were asked for or, if
    there are fewer, all the freeable ones: the blocks that, with all their
    descendants, nothing holds.  Repeated leaf eviction reaches each. *)
Theorem evict_until_freeable_count s (needed : Z) (F : gset bytes) :
  reachable bs fp max s -> (forall x, x ∈ F <-> freeable_spec s x) -> 0 <= needed ->
  wp (evict_until_freeable needed) (fun r s' => exists os,
    r = Ok os /\ Z.of_nat (length os) = Z.min needed (Z.of_nat (size F)) /\
    live s' = live s - Z.of_nat (length os)) s.
Proof.
  intros Hr HF Hn. eapply wp_mono;
    [apply evict_until_weight_spec; [intros; lia|by eapply reachable_index_inv]|].
  intros r s' (l & -> & Htr & Hstop & Hecon). exists l.*1. split; [done|].
  rewrite length_fmap. split; [|by apply (evict_trace_live unheld)].
  apply (evict_count s l s' needed F); [done..| |].
  - rewrite weight_of_one in Hstop. done.
  - intros l1 x Hl. specialize (Hecon l1 x Hl). by rewrite weight_of_one in Hecon.
Qed.

(** [demote_device_until_weight] terminates without an error; each step
    drops the device copy of the least candidate among the backed blocks with
    no device-resident child, and it stops when the weight is reached or no
    block qualifies, with no demotion beyond the weight. *)
Theorem demote_device_contract s (w : PrefixCacheBlock -> Z) (needed : Z) :
  reachable bs fp max s -> (forall b, 0 <= w b) ->
  wp (demote_device_until_weight w needed) (fun r s' => exists l,
    r = Ok l.*1 /\ demote_trace s l s' /\
    (needed <= weight_of w l \/ forall id, ~ demotable_spec s' id) /\
    (forall l1 x, l = l1 ++ [x] -> weight_of w l1 < needed)) s.
Proof.
  intros Hr Hw. eapply wp_mono; [apply demote_device_until_weight_spec; [done|by eapply reachable_index_inv]|].
  intros r s' (l & -> & ? & ? & ?). by exists l.
Qed.

(** C26: [safe_delete_subtree] deletes exactly the freeable blocks of the
    subtree the tokens select, reports every block it keeps with a reason, and
    leaves every other block alone; tokens that select no subtree delete
    nothing.  It raises only when the tokens cannot be hashed. *)
Theorem safe_delete_subtree_exact s toks :
  reachable bs fp max s ->
  wp (safe_delete_subtree toks) (fun r s' => index_inv s' /\
    match r with
    | Ok d => (d = mkDelete [] [(None, "not_found"%string)] /\ forall x, get_block s' x = get_block s x) \/
        exists root dids, selects s toks root /\ named s (deleted d) dids /\ NoDup dids /\
          (forall x, x ∈ dids <-> below (forest_of (backend s)) root x /\ freeable_spec s x) /\
          (forall x, get_block s' x = if decide (x ∈ dids) then None else get_block s x) /\
          (forall x, below (forest_of (backend s)) root x -> ~ freeable_spec s x ->
             exists w, (Some x, w) ∈ blocked d)
    | Raise e => (forall x, get_block s' x = get_block s x) /\
        block_ids_of_tokens (block_size (config s)) (fingerprint (config s)) toks None = Raise e
    end) s.
Proof. intros Hr. apply safe_delete_spec. by eapply reachable_index_inv. Qed.

(** C36: The capacity queries are exact, whether answered from a cached view
    or by a scan: [evictable_block_ids] is the set of unheld leaves and
    [device_freeable_block_ids] the set of device-resident blocks that can,
    with all their device-resident descendants, give up their device copy. *)
Theorem capacity_queries_exact s :
  reachable bs fp max s ->
  wp evictable_block_ids (fun r _ => exists ids, r = Ok ids /\
    forall id, id ∈ ids <-> evictable_spec s id) s /\
  wp device_freeable_block_ids (fun r _ => exists ids, r = Ok ids /\
    forall id, id ∈ ids <-> device_spec false s id) s.
Proof.
  intros Hr%reachable_index_inv. split.
  - eapply wp_mono; [by apply evictable_block_ids_spec|]. by intros r s' (_ & _ & _ & ?).
  - eapply wp_mono; [by apply device_freeable_block_ids_spec|]. by intros r s' (_ & _ & ?).
Qed.

(** [ensure_insert_capacity] of a bounded index: afterwards [needed] more
    blocks fit, having evicted exactly the excess, if the freeable blocks
    suffice, and it raises otherwise; without a bound it does nothing. *)
Theorem ensure_insert_capacity_contract s (needed : Z) (F : gset bytes) :
  reachable bs fp max s -> (forall x, x ∈ F <-> freeable_spec s x) -> 0 < needed ->
  wp (ensure_insert_capacity needed) (fun r s' => index_inv s' /\
    match max_blocks (config s) with
    | None => r = Ok [] /\ s' = s
    | Some m =>
        let over := Z.max 0 (live s + needed - m) in
        if over <=? Z.of_nat (size F)
        then exists os, r = Ok os /\ Z.of_nat (length os) = over /\ live s' + needed <= m
        else exists e, r = Raise e
    end) s.
Proof.
  intros Hr HF Hn. eapply wp_mono; [apply ensure_insert_capacity_spec; by eapply reachable_index_inv|].
  intros r s' [Hinv Hpost]. split; [done|]. destruct (max_blocks (config s)) as [m|]; [|done].
  rewrite (proj2 (Z.leb_gt _ _) Hn) in Hpost. cbv zeta in Hpost |- *. specialize (Hpost F HF).
  destruct (_ <=? Z.of_nat (size F)); [|done].
  destruct Hpost as (l & s1 & -> & _ & Hl & -> & ?). exists l.*1. by rewrite length_fmap.
Qed.

(** C39: A routing snapshot never raises and describes the index it was taken
    from: its method, block size and fingerprint are the index's, and it
    contains a block id exactly when the index holds that block. *)
Theorem routing_snapshot_faithful s method :
  reachable bs fp max s ->
  wp (routing_snapshot method) (fun r s' => exists sn,
    r = Ok sn /\ snapshot_method sn = method /\
    snapshot_block_size sn = Some (block_size (config s)) /\
    snapshot_fingerprint sn = fingerprint (config s) /\
    (forall id, snapshot_contains sn id = has_block s id) /\
    (forall id, get_block s' id = get_block s id)) s.
Proof.
  intros Hr%reachable_index_inv. eapply wp_mono; [apply routing_snapshot_spec, Hr|].
  intros r s' (_ & _ & Hg & sn & -> & ? & _ & _ & ? & ? & Hm). exists sn. split_and!; try done.
  intros id. unfold snapshot_contains. rewrite Hm. apply membership_has_block, Hr.
Qed.

(** [get_chain] of an indexed block returns the objects of the last
    [n] blocks of its root-to-block path, in path order and ending with the
    block, and raises [RuntimeError] when the path is shorter. *)
Theorem get_chain_suffix s id n :
  reachable bs fp max s -> is_Some (get_block s id) -> 0 < n ->
  exists path, last path = Some id /\
    (forall i x, path !! i = Some x ->
      forest_of (backend s) x = Some (match i with O => None | S j => path !! j end)) /\
    if Z.of_nat (length path) <? n
    then get_chain s id n = Raise (RuntimeError "Prefix cache chain is shorter than expected")
    else exists os, get_chain s id n = Ok os /\ Z.of_nat (length os) = n /\
      Forall2 (fun o x => exists b, get_block s x = Some (o, b)) os
        (drop (length path - Z.to_nat n) path).
Proof. intros Hr%reachable_index_inv. apply get_chain_spec, Hr. Qed.
End guarantees.

(** C37: [freeable_block_ids] terminates and returns exactly the blocks that,
    with all their descendants, nothing holds: by its walk over the tree nodes,
    or, when the view is dated with the capacity epoch, from the view without a
    walk.  It changes only its view and the scan counters, and keeps the index
    consistent.  Asked again, it gives the same answer from the view. *)
Theorem freeable_query_exact `{Digest} bs fp max (s : RadixPrefixIndex RadixTreeBackend) :
  reachable bs fp max s ->
  wp freeable_block_ids (fun r s' => index_inv s' /\ core s' = core s /\ epochs s' = epochs s /\
    (view_epoch (freeable_view (views s)) = capacity_epoch (epochs s) -> s' = counted_hit s) /\
    exists ids, r = Ok ids /\ (forall id, id ∈ ids <-> freeable_spec s id) /\
      freeable_block_ids s' = (Ok ids, counted_hit s')) s.
Proof.
  intros Hr%reachable_index_inv. pose proof (freeable_block_ids_spec s Hr) as Hs. unfold wp in *.
  pose proof (freeable_from_view s) as Hv. pose proof (freeable_dated s) as Hd.
  destruct (freeable_block_ids s) as [r s']. cbn in *. destruct Hs as (Hi & Hc & He & ids & -> & Hids).
  split_and!; [done..| |].
  - intros Hdate. specialize (Hv Hdate). congruence.
  - exists ids. split_and!; [done..|]. destruct (Hd ids s' eq_refl) as [Hdate Hview].
    by rewrite (freeable_from_view s' Hdate), Hview.
Qed.

(** ** The guarantees at concrete indexes *)

(** In an index where nothing is held, everything is freeable. *)
Lemma unheld_freeable {T : Type} `{BlockForest T} (s : RadixPrefixIndex T) :
  index_wf s -> map_Forall (fun _ b => locally_blocked b = false) (store s) ->
  forall x, x ∈ ids_of s <-> freeable_spec s x.
Proof.
  intros Hwf Hall x. rewrite ids_of_elem. split.
  - intros [o Ho]. destruct (iwf_store s Hwf x o Ho) as (b & Hb & _). split.
    + exists o, b. split; [|done]. unfold get_block. by rewrite Ho, Hb.
    + intros y _ o' b' (_ & Hy & _)%(get_block_Some s y o' b' Hwf). by apply (Hall o').
  - intros [(o & b & Hg & _) _]. apply (get_block_Some s x o b Hwf) in Hg as [Hx _]. eauto.
Qed.

Lemma sample_freeable x : x ∈ ids_of sample_index <-> freeable_spec sample_index x.
Proof.
  apply unheld_freeable; [apply (reachable_index_inv _ _ _ _ sample_index_reachable)|].
  apply (bool_decide_eq_true_1 _). vm_compute. reflexivity.
Qed.

Lemma reachable_index_consistent_witness : index_wf sample_index /\ live sample_index = 2.
Proof.
  split; [exact (proj1 (reachable_index_consistent _ _ _ _ sample_index_reachable))|].
  vm_compute. reflexivity.
Defined.

Lemma transfer_state_machine_witness :
  exists r', residency_step BeginD2H (mkResidency true false None) r' /\
    (run_transfer BeginD2H 0%nat sample_index).1 = Ok tt.
Proof.
  destruct (get_block sample_index (sample_id [7])) as [[o b]|] eqn:E; [|vm_compute in E; discriminate E].
  assert (o = 0%nat /\ stable_block_id b = sample_id [7] /\ residency b = mkResidency true false None) as (-> & Hid & Hres).
  { vm_compute in E. injection E as <- <-. vm_compute. repeat split. }
  rewrite <- Hid in E.
  pose proof (transfer_state_machine _ _ _ sample_index BeginD2H 0%nat b sample_index_reachable E) as Hst.
  unfold wp in Hst. rewrite Hres in Hst.
  assert ((run_transfer BeginD2H 0%nat sample_index).1 = Ok tt) as Hok by (vm_compute; reflexivity).
  rewrite Hok in Hst. destruct Hst as (_ & r' & Hst & _). exists r'. split; [exact Hst|exact Hok].
Defined.

(** The sample index after one query: its view is dated. *)
Definition queried_index : RadixPrefixIndex RadixTreeBackend := run_ops [Freeable] sample_index.
Lemma queried_index_reachable : reachable 1 [] (Some 2) queried_index.
Proof. apply run_ops_reachable; [apply sample_index_reachable|]. check_ops. Qed.

Lemma freeable_query_exact_witness : exists ids,
  freeable_block_ids queried_index = (Ok ids, counted_hit queried_index) /\ freeable_spec queried_index (sample_id [7]).
Proof.
  pose proof (freeable_query_exact _ _ _ queried_index queried_index_reachable) as Hq. unfold wp in Hq.
  assert (view_epoch (freeable_view (views queried_index)) = capacity_epoch (epochs queried_index)) as Hdate by (vm_compute; reflexivity).
  assert (match (freeable_block_ids queried_index).1 with
          | Ok l => bool_decide (sample_id [7] ∈ l) | Raise _ => false end = true) as E by (vm_compute; reflexivity).
  destruct (freeable_block_ids queried_index) as [r s']. cbn in Hq, E.
  destruct Hq as (_ & _ & _ & Hhit & ids & -> & Hids & _). rewrite (Hhit Hdate).
  exists ids. split; [reflexivity|]. apply Hids. by apply bool_decide_eq_true in E.
Defined.

Lemma insert_block_contract_witness :
  index_inv (insert_block 0%nat sample_index).2 /\
  (insert_block 0%nat sample_index).1 = Ok 0%nat.
Proof.
  split; [|vm_compute; reflexivity].
  refine (proj1 (insert_block_contract _ _ _ sample_index 0%nat sample_index_reachable _)).
  intros b. vm_compute. intros [= <-]. discriminate.
Defined.

Lemma evict_until_weight_contract_witness : exists l : list (nat * PrefixCacheBlock),
  (evict_until_weight (fun _ => 3) 5 sample_index).1 = Ok l.*1 /\ length l.*1 = 2%nat.
Proof.
  destruct (evict_until_weight_contract _ _ _ sample_index (fun _ => 3) 5 sample_index_reachable
    ltac:(intros; lia)) as (l & Hr & _).
  exists l. split; [exact Hr|].
  assert ((evict_until_weight (fun _ => 3) 5 sample_index).1 = Ok [1%nat; 0%nat]) as E by (vm_compute; reflexivity).
  rewrite E in Hr. injection Hr as Hr. by rewrite <- Hr.
Defined.

Lemma evict_until_freeable_count_witness : exists os,
  (evict_until_freeable 1 sample_index).1 = Ok os /\ Z.of_nat (length os) = 1.
Proof.
  destruct (evict_until_freeable_count _ _ _ sample_index 1 (ids_of sample_index)
    sample_index_reachable sample_freeable ltac:(lia)) as (os & Hr & Hl & _).
  exists os. split; [exact Hr|]. rewrite Hl. vm_compute. reflexivity.
Defined.

Lemma demote_device_contract_witness : exists l : list (nat * PrefixCacheBlock),
  (demote_device_until_weight (fun _ => 1) 1 backed_index).1 = Ok l.*1 /\ l.*1 = [1%nat].
Proof.
  destruct (demote_device_contract _ _ _ backed_index (fun _ => 1) 1 backed_index_reachable
    ltac:(intros; lia)) as (l & Hr & _).
  exists l. split; [exact Hr|].
  assert ((demote_device_until_weight (fun _ => 1) 1 backed_index).1 = Ok [1%nat]) as E by (vm_compute; reflexivity).
  rewrite E in Hr. injection Hr as Hr. by symmetry.
Defined.

Lemma safe_delete_subtree_exact_witness :
  index_inv (safe_delete_subtree [7] sample_index).2 /\
  (safe_delete_subtree [7] sample_index).1 = Ok (mkDelete [1%nat; 0%nat] []).
Proof.
  split; [|vm_compute; reflexivity].
  pose proof (safe_delete_subtree_exact _ _ _ sample_index [7] sample_index_reachable) as Hd.
  unfold wp in Hd. destruct Hd as [Hinv _]. exact Hinv.
Defined.

Lemma capacity_queries_exact_witness : exists ids,
  (evictable_block_ids sample_index).1 = Ok ids /\
  evictable_spec sample_index (sample_id [7; 8]).
Proof.
  destruct (capacity_queries_exact _ _ _ sample_index sample_index_reachable)
    as [(ids & Hr & Hids) _].
  exists ids. split; [exact Hr|]. apply Hids.
  assert (match (evictable_block_ids sample_index).1 with
          | Ok l => bool_decide (sample_id [7; 8] ∈ l) | Raise _ => false end = true) as E by (vm_compute; reflexivity).
  rewrite Hr in E. by apply bool_decide_eq_true in E.
Defined.

Lemma ensure_insert_capacity_contract_witness :
  index_inv (ensure_insert_capacity 1 sample_index).2.
Proof.
  pose proof (ensure_insert_capacity_contract _ _ _ sample_index 1 (ids_of sample_index)
    sample_index_reachable sample_freeable ltac:(lia)) as He.
  unfold wp in He. destruct He as [Hinv _]. exact Hinv.
Defined.

Lemma routing_snapshot_faithful_witness : exists sn,
  (routing_snapshot "quest" sample_index).1 = Ok sn /\ snapshot_contains sn (sample_id [7]) = true.
Proof.
  destruct (routing_snapshot_faithful _ _ _ sample_index "quest" sample_index_reachable)
    as (sn & Hr & _ & _ & _ & Hc & _).
  exists sn. split; [exact Hr|]. rewrite Hc. vm_compute. reflexivity.
Defined.

Lemma get_chain_suffix_witness : exists path, last path = Some (sample_id [7; 8]) /\
  get_chain sample_index (sample_id [7; 8]) 2 = Ok [0%nat; 1%nat].
Proof.
  destruct (get_chain_suffix _ _ _ sample_index (sample_id [7; 8]) 2 sample_index_reachable)
    as (path & Hl & _); [vm_compute; eauto|lia|].
  exists path. split; [exact Hl|]. vm_compute. reflexivity.
Defined.

(** ** A stale view

    [device_reclaimable_block_ids] counts a block whose device-to-host copy is
    in flight as reclaimable, but [insert_block] takes such a parent for
    blocked and dates no new capacity epoch for a held child below it. *)

Definition stale_index : RadixPrefixIndex RadixTreeBackend :=
  run_ops [NewBlock (sample_block [7] 0); NewBlock (sample_block [7; 8] 1); Insert 0;
           Transfer BeginD2H 0; DeviceReclaimable; Insert 1] sample_start.

Lemma stale_index_reachable : reachable 1 [] (Some 2) stale_index.
Proof.
  apply run_ops_reachable; [apply reach_init; reflexivity|]. check_ops.
  - intros b. vm_compute. intros [= <-]. discriminate.
  - intros b. vm_compute. intros [= <-]. discriminate.
Qed.

(** C40: The cached device-reclaimable view can go stale: some reachable index
    answers [device_reclaimable_block_ids] with a block that a referenced
    device-resident child pins. *)
Theorem device_reclaimable_view_goes_stale : exists s : RadixPrefixIndex RadixTreeBackend,
  reachable 1 [] (Some 2) s /\
  wp device_reclaimable_block_ids (fun r _ => exists ids id,
    r = Ok ids /\ id ∈ ids /\ ~ device_spec true s id) s.
Proof.
  exists stale_index. split; [apply stale_index_reachable|]. unfold wp.
  destruct (device_reclaimable_block_ids stale_index).1 as [ids|e] eqn:E.
  2:{ exfalso. assert (is_ok (device_reclaimable_block_ids stale_index).1 = true) as Hok by (vm_compute; reflexivity).
      by rewrite E in Hok. }
  exists ids, (sample_id [7]). split; [done|]. split.
  - assert (match (device_reclaimable_block_ids stale_index).1 with
            | Ok l => bool_decide (sample_id [7] ∈ l) | Raise _ => false end = true) as Hin by (vm_compute; reflexivity).
    rewrite E in Hin. by apply bool_decide_eq_true in Hin.
  - intros [_ Hall]. specialize (Hall (sample_id [7; 8])).
    destruct (get_block stale_index (sample_id [7; 8])) as [[o b]|] eqn:Hg; [|vm_compute in Hg; discriminate Hg].
    assert (below (forest_of (backend stale_index)) (sample_id [7]) (sample_id [7; 8])) as Hb.
    { apply rtc_once. vm_compute. reflexivity. }
    specialize (Hall Hb o b eq_refl).
    assert (device_present (residency b) = true /\ device_local true b = false) as [Hd Hl].
    { vm_compute in Hg. injection Hg as <- <-. vm_compute. by split. }
    rewrite (Hall Hd) in Hl. discriminate Hl.
Qed.
