(* ===== verification/SamplingParams.v ===== *)
(** * Sampling parameters and end-of-sequence ids

    [sampling_params.py]: the validation of a request's sampling parameters
    and the choice of the token ids that end its generation. *)

From stdpp Require Import base gmap list strings.
From Stdlib Require Import ZArith QArith Lia.
From S2P Require Import Prelude.

Open Scope Z_scope.

(** ** Python floats

    The control plane only compares floats, so a float is a rational, an
    infinity or a NaN with the IEEE comparisons. *)

Inductive PyFloat :=
| Finite (q : Q)
| Infinite (negative : bool)
| NaN.

Definition float_lt (x y : PyFloat) : bool :=
  match x, y with
  | Finite p, Finite q => negb (Qle_bool q p)
  | Finite _, Infinite neg => negb neg
  | Infinite neg, Finite _ => neg
  | Infinite nx, Infinite ny => nx && negb ny
  | NaN, _ | _, NaN => false
  end.
Definition float_eq (x y : PyFloat) : bool :=
  match x, y with
  | Finite p, Finite q => Qeq_bool p q
  | Infinite nx, Infinite ny => Bool.eqb nx ny
  | _, _ => false
  end.
Definition float_le (x y : PyFloat) : bool := float_lt x y || float_eq x y.
Definition float_of (z : Z) : PyFloat := Finite (inject_Z z).

(** ** End-of-sequence ids *)

(** [int | Iterable[int] | None] *)
Inductive EosArg :=
| EosNone
| EosInt (t : Z)
| EosList (l : list Z).

Definition as_eos_token_id_set (value : EosArg) : gset Z :=
  match value with
  | EosNone => ∅
  | EosInt t => {[t]}
  | EosList l => list_to_set l
  end.

Definition resolve_eos_token_ids (request configured : EosArg) (fallback : option Z) : gset Z :=
  let requested := as_eos_token_id_set request in
  if negb (bool_decide (requested = ∅)) then requested
  else
    let configured := as_eos_token_id_set configured in
    if negb (bool_decide (configured = ∅)) then configured
    else match fallback with
         | Some t => if 0 <=? t then {[t]} else ∅
         | None => ∅
         end.

(** ** [SamplingParams] *)

Record SamplingParams := mkSampling {
  temperature : PyFloat;
  top_p : PyFloat;
  top_k : Z;
  presence_penalty : PyFloat;
  repetition_penalty : PyFloat;
  max_tokens : Z;
  ignore_eos : bool;
  eos_token_ids : EosArg;
  logprobs : option Z;
}.
#[export] Instance eta_sampling : Eta SamplingParams := fun r =>
  mkSampling (temperature r) (top_p r) (top_k r) (presence_penalty r) (repetition_penalty r)
    (max_tokens r) (ignore_eos r) (eos_token_ids r) (logprobs r).

Definition DEFAULT_MAX_TOKENS : Z := 8192.
(** [SamplingParams()] *)
Definition default_sampling : SamplingParams :=
  mkSampling (float_of 1) (float_of 1) 0 (float_of 0) (float_of 1) DEFAULT_MAX_TOKENS false EosNone None.

(** [dict.fromkeys(l)]: the elements in the order of their first occurrence. *)
Fixpoint first_occurrences (seen : gset Z) (l : list Z) : list Z :=
  match l with
  | [] => []
  | t :: l' =>
      if bool_decide (t ∈ seen) then first_occurrences seen l'
      else t :: first_occurrences ({[t]} ∪ seen) l'
  end.

Definition eos_tuple (a : EosArg) : list Z :=
  match a with
  | EosNone => []
  | EosInt t => [t]
  | EosList l => first_occurrences ∅ l
  end.

Definition raise_if {A} (c : bool) (msg : string) (k : exc A) : exc A :=
  if c then Raise (ValueError msg) else k.

(** [SamplingParams.__post_init__] *)
Definition post_init (p : SamplingParams) : exc SamplingParams :=
  raise_if (float_lt (temperature p) (float_of 0)) "temperature must be non-negative" (
  raise_if (negb (float_lt (float_of 0) (top_p p) && float_le (top_p p) (float_of 1))) "top_p must be in (0, 1]" (
  raise_if (top_k p <? 0) "top_k must be non-negative" (
  raise_if (negb (float_le (float_of (-2)) (presence_penalty p) && float_le (presence_penalty p) (float_of 2)))
    "presence_penalty must be in [-2, 2]" (
  raise_if (negb (float_lt (float_of 0) (repetition_penalty p))) "repetition_penalty must be positive" (
  raise_if (max_tokens p <=? 0) "max_tokens must be positive" (
  let ids := eos_tuple (eos_token_ids p) in
  raise_if (existsb (fun t => t <? 0) ids) "eos_token_ids must contain non-negative token ids" (
  raise_if (match logprobs p with Some n => n <? 0 | None => false end) "logprobs must be non-negative"
    (Ok (p <| eos_token_ids := EosList ids |>))))))))).

(** ** Facts *)

Lemma first_occurrences_elem seen l t : t ∈ first_occurrences seen l <-> t ∈ l /\ t ∉ seen.
Proof.
  revert seen. induction l as [|x l IH]; intros seen; cbn [first_occurrences].
  - split; [by intros ?%elem_of_nil|by intros [?%elem_of_nil _]].
  - case_bool_decide as Hx; [|rewrite elem_of_cons]; rewrite IH; [set_solver|].
    rewrite not_elem_of_union, not_elem_of_singleton, elem_of_cons. destruct (decide (t = x)) as [->|]; naive_solver.
Qed.

Lemma first_occurrences_NoDup seen l : NoDup (first_occurrences seen l).
Proof.
  revert seen. induction l as [|x l IH]; intros seen; cbn [first_occurrences]; [constructor|].
  case_bool_decide; [done|]. apply NoDup_cons. split; [|done]. rewrite first_occurrences_elem. set_solver.
Qed.

Lemma first_occurrences_app seen l1 l2 :
  first_occurrences seen (l1 ++ l2) = first_occurrences seen l1 ++ first_occurrences (list_to_set l1 ∪ seen) l2.
Proof.
  revert seen. induction l1 as [|x l1 IH]; intros seen; cbn [app first_occurrences list_to_set].
  - f_equal. set_solver.
  - case_bool_decide as Hx; rewrite IH; [|cbn [app]]; f_equal; [|f_equal]; f_equal; set_solver.
Qed.

Lemma eos_tuple_elem a t : t ∈ eos_tuple a <-> t ∈ as_eos_token_id_set a.
Proof.
  destruct a; cbn; [set_solver|set_solver|]. rewrite first_occurrences_elem. set_solver.
Qed.

Lemma eos_tuple_NoDup a : NoDup (eos_tuple a).
Proof. destruct a; cbn; [constructor|apply NoDup_singleton|apply first_occurrences_NoDup]. Qed.

Lemma existsb_negative l : existsb (fun t => t <? 0) l = false <-> Forall (fun t => 0 <= t) l.
Proof.
  induction l as [|t l IH]; cbn; [split; [constructor|done]|].
  rewrite orb_false_iff, Forall_cons, IH, Z.ltb_ge. done.
Qed.

(** What a validated request satisfies; a NaN temperature passes. *)
Definition sampling_valid (p : SamplingParams) : Prop :=
  float_lt (temperature p) (float_of 0) = false /\
  float_lt (float_of 0) (top_p p) = true /\ float_le (top_p p) (float_of 1) = true /\
  0 <= top_k p /\
  float_le (float_of (-2)) (presence_penalty p) = true /\ float_le (presence_penalty p) (float_of 2) = true /\
  float_lt (float_of 0) (repetition_penalty p) = true /\ 0 < max_tokens p /\
  (forall t, t ∈ as_eos_token_id_set (eos_token_ids p) -> 0 <= t) /\
  (forall n, logprobs p = Some n -> 0 <= n).

(** [__post_init__] accepts exactly the valid parameters, and then only
    normalises the end-of-sequence ids: the same ids, each once.  Everything
    else is refused with [ValueError]. *)
Theorem post_init_validates p :
  match post_init p with
  | Ok p' => sampling_valid p /\ p' = p <| eos_token_ids := EosList (eos_tuple (eos_token_ids p)) |> /\
      NoDup (eos_tuple (eos_token_ids p)) /\
      as_eos_token_id_set (eos_token_ids p') = as_eos_token_id_set (eos_token_ids p)
  | Raise e => ~ sampling_valid p /\ exists msg, e = ValueError msg
  end.
Proof.
  unfold post_init, raise_if, sampling_valid.
  repeat match goal with |- context [if ?c then _ else _] => destruct c eqn:? end; bool_to_prop;
    repeat match goal with H : negb _ = true |- _ => apply negb_true_iff in H
      | H : _ && _ = false |- _ => apply andb_false_iff in H end;
    try (split; [|by eexists]; intros (? & ? & ? & ? & ? & ? & ? & ? & Heos & Hlog)); try (by intuition congruence); try lia.
  - match goal with H : existsb _ _ = true |- _ => apply existsb_exists in H as (t & Ht & Hneg) end.
    apply list_elem_of_In in Ht. apply eos_tuple_elem in Ht. specialize (Heos t Ht). bool_to_prop. lia.
  - destruct (logprobs p) as [n|]; [|done]. specialize (Hlog n eq_refl). bool_to_prop. lia.
  - match goal with H : existsb _ _ = false |- _ => apply existsb_negative in H; rename H into Hall end.
    split_and!; try done.
    + intros t Ht. apply eos_tuple_elem in Ht. by apply (proj1 (Forall_forall _ _) Hall).
    + intros n Hn. rewrite Hn in *. by bool_to_prop.
    + apply eos_tuple_NoDup.
    + apply set_eq. intros t. cbn. rewrite elem_of_list_to_set. apply eos_tuple_elem.
Qed.

Example default_sampling_valid :
  post_init default_sampling = Ok (default_sampling <| eos_token_ids := EosList [] |>).
Proof. vm_compute. reflexivity. Qed.
