(* ===== verification/Sequence.v ===== *)
(** * Sequences

    [engine/sequence.py]: the request object the scheduler and the runtime
    share, its recompute-replay life cycle, the form in which it is shipped to
    tensor-parallel workers, and the incrementally synchronised buffer of
    unique token ids that sampling penalties read.

    A tensor is the list of its elements; [None] is memory that was allocated
    and not written. *)

From stdpp Require Import base gmap list strings.
From Stdlib Require Import ZArith Lia.
From Stdlib.Init Require Import Byte.
From S2P Require Import Prelude PyBytes SamplingParams.

(** ** [_UniqueTokenIds] *)

Record UniqueTokenIds := mkUnique {
  uniq_values : list Z;
  uniq_seen : gset Z;
  device_tensor : option (list (option Z));
  device : option Z;
  vocab_size : option Z;
  synced_count : Z;
}.
#[export] Instance eta_unique : Eta UniqueTokenIds := fun r =>
  mkUnique (uniq_values r) (uniq_seen r) (device_tensor r) (device r) (vocab_size r) (synced_count r).

Definition uniq_add (token_id : Z) (u : UniqueTokenIds) : UniqueTokenIds :=
  if bool_decide (token_id ∈ uniq_seen u) then u
  else u <| uniq_seen ::= fun s => {[token_id]} ∪ s |> <| uniq_values ::= fun l => l ++ [token_id] |>.

(** [_UniqueTokenIds(token_ids)] *)
Definition new_unique (token_ids : list Z) : UniqueTokenIds :=
  foldl (fun u t => uniq_add t u) (mkUnique [] ∅ None None None 0) token_ids.

(** [t[i:i+len(l)].copy_(l)] (and [fill_] for one element). *)
Definition write_at {A} (i : nat) (l buf : list A) : list A :=
  take i buf ++ l ++ drop (i + length l) buf.

(** [to_tensor]; the result is a view of the device buffer. *)
Definition to_tensor (dev vocab max_new_tokens : Z) : Act PyExn UniqueTokenIds (option (list (option Z))) :=
  empty ← read (fun u => bool_decide (uniq_values u = []));
  if (empty : bool) then mret None
  else
    guard_not (vocab <=? 0) (ValueError "vocab_size must be positive") ;;
    u ← read (fun u => u);
    let token_count := Z.of_nat (length (uniq_values u)) in
    let stale :=
      match device_tensor u with
      | None => true
      | Some buf =>
          negb (bool_decide (device u = Some dev)) || negb (bool_decide (vocab_size u = Some vocab))
          || (Z.of_nat (length buf) <? token_count)
      end in
    when stale
      (let capacity := Z.max token_count (Z.min vocab (token_count + Z.max 0 max_new_tokens)) in
       modify (fun u => u <| device_tensor := Some (replicate (Z.to_nat capacity) None) |>
                          <| device := Some dev |> <| vocab_size := Some vocab |> <| synced_count := 0 |>)) ;;
    u ← read (fun u => u);
    when (synced_count u <? token_count)
      (let new_values := slice (synced_count u) token_count (uniq_values u) in
       modify (fun u =>
         u <| device_tensor ::= fmap (write_at (Z.to_nat (synced_count u)) (Some <$> new_values)) |>
           <| synced_count := token_count |>)) ;;
    u ← read (fun u => u);
    match device_tensor u with
    | Some buf => mret (Some (take (Z.to_nat token_count) buf))
    | None => throw (TypeError "device_tensor")
    end.

(** ** [Sequence] *)

Inductive SequenceStatus := WAITING | RUNNING | FINISHED.
#[export] Instance status_eq_dec : EqDecision SequenceStatus.
Proof. solve_decision. Defined.

(** The [prefix_cache_*] fields. *)
Record PrefixHit := mkPrefixHit {
  prefix_cache_enabled : bool;
  prefix_cache_hit_len : Z;
  prefix_cache_hit_block_count : Z;
  prefix_cache_hit_last_block_id : option bytes;
  prefix_cache_block_size : Z;
  prefix_cache_method : string;
}.
#[export] Instance eta_hit : Eta PrefixHit := fun r =>
  mkPrefixHit (prefix_cache_enabled r) (prefix_cache_hit_len r) (prefix_cache_hit_block_count r)
    (prefix_cache_hit_last_block_id r) (prefix_cache_block_size r) (prefix_cache_method r).
Definition no_prefix_hit : PrefixHit := mkPrefixHit false 0 0 None 0 "".

(** The chain and multimodal fields, which the control plane only carries. *)
Record SequenceTags := mkTags {
  chain_id : option string;
  chain_status : string;
  chain_reused_tokens : Z;
  multimodal_digest : option string;
  multimodal_position_delta : Z;
  multimodal_full_prefill : bool;
}.
#[export] Instance eta_tags : Eta SequenceTags := fun r =>
  mkTags (chain_id r) (chain_status r) (chain_reused_tokens r) (multimodal_digest r)
    (multimodal_position_delta r) (multimodal_full_prefill r).

Definition TopLogprobs := list (Z * PyFloat).

Record Sequence := mkSequence {
  seq_id : Z;
  status : SequenceStatus;
  token_ids : list Z;
  prompt_ids : option (list Z);
  last_token : option Z;
  num_tokens : Z;
  num_prompt_tokens : Z;
  num_prefilled_tokens : Z;
  current_chunk_size : option Z;
  prefix_hit : PrefixHit;
  tags : SequenceTags;
  recompute_replay_cursor : option Z;
  decode_progress_checkpoint : Z;
  sampling : SamplingParams;
  completion_token_logprobs : list (option PyFloat);
  completion_top_logprobs : list (option TopLogprobs);
  presence_tokens : option UniqueTokenIds;
  repetition_tokens : option UniqueTokenIds;
}.
#[export] Instance eta_sequence : Eta Sequence := fun r =>
  mkSequence (seq_id r) (status r) (token_ids r) (prompt_ids r) (last_token r) (num_tokens r)
    (num_prompt_tokens r) (num_prefilled_tokens r) (current_chunk_size r) (prefix_hit r) (tags r)
    (recompute_replay_cursor r) (decode_progress_checkpoint r) (sampling r) (completion_token_logprobs r)
    (completion_top_logprobs r) (presence_tokens r) (repetition_tokens r).

Abbreviation SeqAct := (Act PyExn Sequence).

(** [Sequence.__init__]; [id] is the next value of the class counter. *)
Definition new_sequence (id : Z) (ids : list Z) (params : SamplingParams) : Sequence :=
  let n := Z.of_nat (length ids) in
  mkSequence id WAITING ids (Some ids) (last ids) n n 0 None no_prefix_hit
    (mkTags None "disabled" 0 None 0 false) None 0 params [] []
    (if negb (float_eq (presence_penalty params) (float_of 0)) then Some (new_unique []) else None)
    (if negb (float_eq (repetition_penalty params) (float_of 1)) then Some (new_unique ids) else None).

(** ** Properties of a sequence *)

Definition has_sampling_penalty (s : Sequence) : bool :=
  negb (float_eq (presence_penalty (sampling s)) (float_of 0))
  || negb (float_eq (repetition_penalty (sampling s)) (float_of 1)).

Definition num_completion_tokens (s : Sequence) : Z := num_tokens s - num_prompt_tokens s.
Definition is_finished (s : Sequence) : bool := bool_decide (status s = FINISHED).

Definition prompt_token_ids (s : Sequence) : list Z :=
  match prompt_ids s with Some l => l | None => slice 0 (num_prompt_tokens s) (token_ids s) end.
Definition completion_token_ids (s : Sequence) : list Z := drop (Z.to_nat (num_prompt_tokens s)) (token_ids s).

Inductive KvChange := FirstPrefill | Prefill | Decode.
Definition kv_change_state (s : Sequence) : exc KvChange :=
  if num_prefilled_tokens s =? 0 then Ok FirstPrefill
  else if num_prefilled_tokens s <? num_prompt_tokens s then Ok Prefill
  else if num_prefilled_tokens s =? num_prompt_tokens s then Ok Decode
  else Raise (ValueError "").

Definition is_recompute_replay (s : Sequence) : bool := bool_decide (is_Some (recompute_replay_cursor s)).
Definition is_recompute_prefill (s : Sequence) : bool :=
  is_recompute_replay s && (num_prefilled_tokens s <? num_prompt_tokens s).
Definition is_recompute_decode (s : Sequence) : bool :=
  is_recompute_replay s && (num_prompt_tokens s <=? num_prefilled_tokens s).
Definition replay_decode_token_count (s : Sequence) : Z := Z.max 0 (num_completion_tokens s - 1).
(** [int(self.recompute_replay_cursor or 0)] *)
Definition cursor (s : Sequence) : Z := default 0 (recompute_replay_cursor s).

Definition replay_input_token_ids (s : Sequence) : list Z :=
  if negb (is_recompute_prefill s) then []
  else
    let start := num_prefilled_tokens s in
    let stop := start + default 0 (current_chunk_size s) in
    if Z.of_nat (length (token_ids s)) =? stop - start then token_ids s
    else slice start stop (token_ids s).

Definition decode_input_token (s : Sequence) : exc Z :=
  if negb (is_recompute_decode s) then
    match last_token s with
    | None => Raise (RuntimeError "Decode input token is missing")
    | Some t => Ok t
    end
  else if replay_decode_token_count s <=? cursor s then
    Raise (RuntimeError "Recompute replay cursor is past the accepted decode history")
  else
    match token_ids s !! Z.to_nat (num_prompt_tokens s + cursor s) with
    | Some t => Ok t
    | None =>
        match last_token s with
        | None => Raise (RuntimeError "Replay decode input token is missing")
        | Some t => Ok t
        end
    end.

Definition decode_input_position (s : Sequence) : Z :=
  (if is_recompute_decode s then num_prompt_tokens s + cursor s else num_tokens s - 1)
  + multimodal_position_delta (tags s).

Definition should_publish_sample (s : Sequence) : bool := negb (is_recompute_replay s).

Definition is_last_chunk_prefill (s : Sequence) : exc bool :=
  match current_chunk_size s with
  | None => Raise (TypeError "unsupported operand type(s) for +: 'int' and 'NoneType'")
  | Some c => Ok (num_prompt_tokens s <=? num_prefilled_tokens s + c)
  end.

(** ** Operations *)

Definition clear_prefix_cache_hit (s : Sequence) : Sequence := s <| prefix_hit := no_prefix_hit |>.

Definition start_recompute_replay : SeqAct unit :=
  s ← read (fun s => s);
  guard_not (num_completion_tokens s <=? 0)
    (RuntimeError "Recompute replay requires at least one accepted completion token") ;;
  modify (fun s => s <| recompute_replay_cursor := Some 0 |>
                     <| decode_progress_checkpoint := num_completion_tokens s |>
                     <| num_prefilled_tokens := 0 |> <| current_chunk_size := None |>
                     <| status := WAITING |>) ;;
  modify clear_prefix_cache_hit.

Definition finish_recompute_replay : SeqAct unit :=
  s ← read (fun s => s);
  guard_not (negb (is_recompute_replay s)) (RuntimeError "Sequence is not in recompute replay.") ;;
  modify (fun s => s <| recompute_replay_cursor := None |>
                     <| decode_progress_checkpoint := num_completion_tokens s |>).

Definition advance_recompute_replay : SeqAct unit :=
  s ← read (fun s => s);
  guard_not (negb (is_recompute_decode s)) (RuntimeError "Sequence is not replaying decode tokens.") ;;
  modify (fun s => s <| recompute_replay_cursor := Some (cursor s + 1) |>) ;;
  done ← read (fun s => replay_decode_token_count s <=? cursor s);
  when done finish_recompute_replay.

Definition track_sampling_penalty_token (token_id : Z) (s : Sequence) : Sequence :=
  s <| presence_tokens ::= fmap (uniq_add token_id) |> <| repetition_tokens ::= fmap (uniq_add token_id) |>.

Definition append_token (token_id : Z) (logprob : option PyFloat) (top : option TopLogprobs) (s : Sequence) : Sequence :=
  let s1 := if has_sampling_penalty s then track_sampling_penalty_token token_id s else s in
  let s2 := s1 <| token_ids ::= fun l => l ++ [token_id] |> in
  let s3 := if 0 <=? num_completion_tokens s2
            then s2 <| completion_token_logprobs ::= fun l => l ++ [logprob] |>
                    <| completion_top_logprobs ::= fun l => l ++ [top] |>
            else s2 in
  s3 <| last_token := Some token_id |> <| num_tokens ::= Z.succ |>.

(** ** Shipping to workers *)

(** The token payload: a prompt chunk or one decode input. *)
Inductive WireData :=
| Chunk (l : list Z)
| OneToken (t : option Z).

(** [__getstate__]'s tuple. *)
Record WireState := mkWire {
  wire_seq_id : Z;
  wire_status : SequenceStatus;
  wire_num_tokens : Z;
  wire_num_prompt_tokens : Z;
  wire_num_prefilled_tokens : Z;
  wire_current_chunk_size : option Z;
  wire_sampling : SamplingParams;
  wire_data : WireData;
  wire_prefix_hit : PrefixHit;
  wire_tags : SequenceTags;
  wire_cursor : option Z;
  wire_checkpoint : Z;
}.

Definition sends_chunk (s : Sequence) : bool := (num_completion_tokens s =? 0) || is_recompute_prefill s.

Definition getstate (s : Sequence) : exc WireState :=
  data ← (if sends_chunk s then
            let chunk := default (num_prompt_tokens s) (current_chunk_size s) in
            Ok (Chunk (slice (num_prefilled_tokens s) (num_prefilled_tokens s + chunk) (token_ids s)))
          else if is_recompute_decode s then t ← decode_input_token s; Ok (OneToken (Some t))
          else Ok (OneToken (last_token s)));
  Ok (mkWire (seq_id s) (status s) (num_tokens s) (num_prompt_tokens s) (num_prefilled_tokens s)
        (current_chunk_size s) (sampling s) data (prefix_hit s) (tags s)
        (recompute_replay_cursor s) (decode_progress_checkpoint s)).

(** [__setstate__]: the fields are restored first and then decide how the
    payload is read.  A payload of the other kind would be stored as it is;
    the first operation on it raises, which is modelled as raising here. *)
Definition setstate (w : WireState) : exc Sequence :=
  let s := mkSequence (wire_seq_id w) (wire_status w) [] None None (wire_num_tokens w)
             (wire_num_prompt_tokens w) (wire_num_prefilled_tokens w) (wire_current_chunk_size w)
             (wire_prefix_hit w) (wire_tags w) (wire_cursor w) (wire_checkpoint w) (wire_sampling w)
             [] [] None None in
  match sends_chunk s, wire_data w with
  | true, Chunk l =>
      let whole := (num_prefilled_tokens s =? 0) && (Z.of_nat (length l) =? num_prompt_tokens s) in
      Ok (s <| token_ids := l |> <| last_token := last l |>
            <| prompt_ids := if whole then Some l else None |>)
  | false, OneToken t => Ok (s <| last_token := t |>)
  | _, _ => Raise (TypeError "sequence payload")
  end.
