(* ===== verification/SequenceFacts.v ===== *)
(** * Sequences: what they guarantee

    The device buffer of unique token ids always shows the reference list,
    the recompute replay feeds back exactly the accepted history, and a worker
    that receives a sequence sees what rank 0 sees. *)

From stdpp Require Import base gmap list strings.
From Stdlib Require Import ZArith Lia.
From S2P Require Import Prelude PyBytes SamplingParams Sequence.

(** ** Unique token ids *)

Inductive UniqOp :=
| UAdd (token_id : Z)
| USync (dev vocab max_new_tokens : Z).

Definition run_uniq (u : UniqueTokenIds) (op : UniqOp) : UniqueTokenIds :=
  match op with
  | UAdd t => uniq_add t u
  | USync dev vocab n => (to_tensor dev vocab n u).2
  end.
(** The token ids that were added. *)
Definition added (ops : list UniqOp) : list Z :=
  omap (fun op => match op with UAdd t => Some t | USync _ _ _ => None end) ops.

Record uniq_wf (u : UniqueTokenIds) : Prop := {
  uw_seen t : t ∈ uniq_seen u <-> t ∈ uniq_values u;
  uw_sync : 0 <= synced_count u <= Z.of_nat (length (uniq_values u));
  uw_buffer buf : device_tensor u = Some buf ->
    synced_count u <= Z.of_nat (length buf) /\
    take (Z.to_nat (synced_count u)) buf = Some <$> take (Z.to_nat (synced_count u)) (uniq_values u);
}.

Lemma uniq_add_wf t u : uniq_wf u -> uniq_wf (uniq_add t u).
Proof.
  intros [Hs Hc Hb]. unfold uniq_add. case_bool_decide as Ht; [by split|]. split; cbn.
  - intros x. rewrite elem_of_union, elem_of_singleton, elem_of_app, list_elem_of_singleton, Hs. tauto.
  - rewrite length_app. cbn. lia.
  - intros buf Hbuf. destruct (Hb buf Hbuf) as [Hl E]. split; [done|]. rewrite take_app_le by lia. done.
Qed.

Lemma uniq_add_values t u l : uniq_wf u -> uniq_values u = first_occurrences ∅ l ->
  uniq_values (uniq_add t u) = first_occurrences ∅ (l ++ [t]).
Proof.
  intros [Hs _ _] Hv. rewrite first_occurrences_app. unfold uniq_add. cbn [first_occurrences].
  assert (t ∈ uniq_seen u <-> t ∈ (list_to_set l ∪ ∅ : gset Z)) as Ht.
  { rewrite Hs, Hv, first_occurrences_elem. set_solver. }
  case_bool_decide as H1; case_bool_decide as H2; [|tauto|tauto|].
  - by rewrite app_nil_r.
  - cbn. by rewrite Hv.
Qed.

Lemma length_write_at {A} i (l buf : list A) :
  (i + length l <= length buf)%nat -> length (write_at i l buf) = length buf.
Proof. intros H. unfold write_at. rewrite !length_app, length_take, length_drop. lia. Qed.

Lemma take_write_at {A} i (l buf : list A) :
  (i + length l <= length buf)%nat -> take (i + length l) (write_at i l buf) = take i buf ++ l.
Proof.
  intros H. unfold write_at. rewrite app_assoc, take_app_length'; [done|].
  rewrite length_app, length_take. lia.
Qed.

Lemma take_slice {A} (i j : Z) (l : list A) : 0 <= i <= j ->
  take (Z.to_nat i) l ++ slice i j l = take (Z.to_nat j) l.
Proof.
  intros H. unfold slice. replace (Z.to_nat j) with (Z.to_nat i + Z.to_nat (j - i))%nat by lia.
  by rewrite take_take_drop.
Qed.

(** Filling the rest of the buffer. *)
Lemma synced_wf u buf n : uniq_wf u -> device_tensor u = Some buf ->
  n = Z.of_nat (length (uniq_values u)) -> n <= Z.of_nat (length buf) ->
  let u' := if synced_count u <? n
            then u <| device_tensor ::= fmap (write_at (Z.to_nat (synced_count u)) (Some <$> slice (synced_count u) n (uniq_values u))) |>
                   <| synced_count := n |>
            else u in
  uniq_wf u' /\ uniq_values u' = uniq_values u /\
  exists buf', device_tensor u' = Some buf' /\ take (Z.to_nat n) buf' = Some <$> uniq_values u.
Proof.
  intros [Hs Hc Hb] Hbuf -> Hn. destruct (Hb buf Hbuf) as [Hsl E]. cbn zeta.
  destruct (Z.ltb_spec (synced_count u) (Z.of_nat (length (uniq_values u)))) as [Hlt|Hge].
  - set (n := Z.of_nat (length (uniq_values u))) in *.
    pose proof (length_slice (synced_count u) n (uniq_values u)) as Hls.
    set (new := slice (synced_count u) n (uniq_values u)) in *.
    assert (take (Z.to_nat n) (write_at (Z.to_nat (synced_count u)) (Some <$> new) buf) = Some <$> uniq_values u) as Ht.
    { replace (Z.to_nat n) with (Z.to_nat (synced_count u) + length (Some <$> new))%nat by (rewrite length_fmap; lia).
      rewrite take_write_at by (rewrite length_fmap; lia). rewrite E, <- fmap_app. f_equal.
      unfold new. rewrite take_slice by lia. apply take_ge. lia. }
    split_and!; [|done|].
    + split; cbn; [done|lia|]. rewrite Hbuf. cbn. intros buf' [= <-].
      rewrite length_write_at by (rewrite length_fmap; lia). split; [lia|]. rewrite Ht. f_equal. symmetry. apply take_ge. lia.
    + eexists. cbn. rewrite Hbuf. split; [done|exact Ht].
  - assert (synced_count u = Z.of_nat (length (uniq_values u))) as Heq by lia.
    split_and!; [by split|done|]. exists buf. split; [done|]. rewrite Heq in E. rewrite E. f_equal. apply take_ge. lia.
Qed.

(** A call with a positive vocabulary returns the values, in order. *)
Lemma to_tensor_spec dev vocab n u : uniq_wf u ->
  wp (to_tensor dev vocab n) (fun r u' =>
    uniq_wf u' /\ uniq_values u' = uniq_values u /\
    r = if bool_decide (uniq_values u = []) then Ok None
        else if vocab <=? 0 then Raise (ValueError "vocab_size must be positive")
        else Ok (Some (Some <$> uniq_values u))) u.
Proof.
  intros Hwf. unfold to_tensor. apply wp_bind, wp_read. cbv beta iota.
  case_bool_decide as Hv; [by apply wp_ret|].
  apply wp_bind, wp_guard; intros Hvocab; rewrite Hvocab; [done|].
  apply wp_bind, wp_read. cbv beta iota zeta. set (n0 := Z.of_nat (length (uniq_values u))).
  match goal with |- wp (mbind _ (when ?c ?m)) _ _ => set (stale := c); set (alloc := m) end.
  assert (wp (when stale alloc) (fun r u1 => r = Ok tt /\ uniq_wf u1 /\ uniq_values u1 = uniq_values u /\
    exists buf, device_tensor u1 = Some buf /\ n0 <= Z.of_nat (length buf)) u) as Halloc.
  { apply wp_when; intros Hst.
    - apply wp_modify. destruct Hwf as [Hs Hc Hb]. split_and!; [done| |done|].
      + split; cbn; [done|lia|]. intros buf [= <-]. split; [lia|done].
      + eexists. split; [done|]. rewrite length_replicate. lia.
    - split_and!; [done..|]. unfold stale in Hst. destruct (device_tensor u) as [buf|] eqn:Hbuf; [|done].
      exists buf. split; [done|]. bool_to_prop. lia. }
  apply wp_bind. eapply wp_mono; [exact Halloc|]. intros r u1 (-> & Hwf1 & Hv1 & buf & Hbuf & Hlen). cbv beta iota.
  apply wp_bind, wp_read. cbv beta iota.
  pose proof (synced_wf u1 buf n0 Hwf1 Hbuf) as Hsync. rewrite Hv1 in Hsync.
  specialize (Hsync eq_refl Hlen). cbv zeta in Hsync. rewrite Hv1. apply wp_bind, wp_when; intros Hlt; rewrite Hlt in Hsync;
    [apply wp_modify|]; apply wp_bind, wp_read; cbv beta iota;
    destruct Hsync as (Hwf2 & Hv2 & buf' & Hb2 & Ht2); rewrite Hb2; apply wp_ret; rewrite Ht2; split_and!; congruence.
Qed.

Lemma new_unique_wf toks :
  uniq_wf (new_unique toks) /\ uniq_values (new_unique toks) = first_occurrences ∅ toks.
Proof.
  unfold new_unique. induction toks as [|t toks [IHw IHv]] using rev_ind.
  - split; [|done]. split; cbn; [set_solver|lia|done].
  - rewrite foldl_app. cbn. split; [by apply uniq_add_wf|by apply uniq_add_values].
Qed.

Lemma run_uniq_spec ops toks :
  let u := foldl run_uniq (new_unique toks) ops in
  uniq_wf u /\ uniq_values u = first_occurrences ∅ (toks ++ added ops).
Proof.
  cbv zeta. induction ops as [|op ops [IHw IHv]] using rev_ind.
  - cbn. rewrite app_nil_r. apply new_unique_wf.
  - unfold added. rewrite foldl_app, omap_app. cbn [foldl omap list_omap]. destruct op as [t|dev vocab n]; cbn.
    + split; [by apply uniq_add_wf|]. rewrite app_assoc. apply uniq_add_values; [exact IHw|exact IHv].
    + destruct (to_tensor_spec dev vocab n _ IHw) as (Hw & Hv & _). split; [done|].
      rewrite Hv, app_nil_r. exact IHv.
Qed.

(** After any history of additions and device synchronisations the
    incremental buffer shows the reference list: [to_tensor] returns every
    added token id once, in the order of first addition, with no unwritten
    element; it returns [None] when there is none. *)
Theorem unique_tokens_tensor toks ops dev vocab n :
  0 < vocab ->
  let u := foldl run_uniq (new_unique toks) ops in
  let l := first_occurrences ∅ (toks ++ added ops) in
  (to_tensor dev vocab n u).1 = Ok (if bool_decide (l = []) then None else Some (Some <$> l)).
Proof.
  intros Hv. cbv zeta. destruct (run_uniq_spec ops toks) as [Hw Hl].
  destruct (to_tensor_spec dev vocab n _ Hw) as (_ & _ & Hr). rewrite Hr, Hl.
  rewrite (proj2 (Z.leb_gt vocab 0) Hv). by destruct (bool_decide (first_occurrences ∅ (toks ++ added ops) = [])).
Qed.

Lemma unique_tokens_tensor_witness :
  (to_tensor 0 100 4 (foldl run_uniq (new_unique [5; 6; 5]) [USync 0 100 4; UAdd 7; UAdd 6; USync 1 100 4; UAdd 8])).1
  = Ok (Some (Some <$> [5; 6; 7; 8])).
Proof.
  exact (unique_tokens_tensor [5; 6; 5] [USync 0 100 4; UAdd 7; UAdd 6; USync 1 100 4; UAdd 8] 0 100 4 ltac:(lia)).
Defined.

(** ** The sequence invariant *)

Record seq_ok (s : Sequence) : Prop := {
  so_tokens : num_tokens s = Z.of_nat (length (token_ids s));
  so_prompt : 0 <= num_prompt_tokens s <= num_tokens s;
  so_prefilled : 0 <= num_prefilled_tokens s;
  so_last : last_token s = last (token_ids s);
  so_ids : prompt_ids s = Some (take (Z.to_nat (num_prompt_tokens s)) (token_ids s));
  so_cursor c : recompute_replay_cursor s = Some c -> 0 <= c;
}.

Lemma new_sequence_ok id ids params : seq_ok (new_sequence id ids params).
Proof. split; cbn; try lia; try done. by rewrite Nat2Z.id, firstn_all. Qed.

(** What replaying reads and writes. *)
Lemma append_token_ok s t lp tops : seq_ok s ->
  seq_ok (append_token t lp tops s) /\
  token_ids (append_token t lp tops s) = token_ids s ++ [t] /\
  num_completion_tokens (append_token t lp tops s) = num_completion_tokens s + 1.
Proof.
  intros [H1 H2 H3 H4 H5 H6].
  assert (exists s1, append_token t lp tops s = s1 <| last_token := Some t |> <| num_tokens ::= Z.succ |> /\
    token_ids s1 = token_ids s ++ [t] /\ num_tokens s1 = num_tokens s /\
    num_prompt_tokens s1 = num_prompt_tokens s /\ num_prefilled_tokens s1 = num_prefilled_tokens s /\
    prompt_ids s1 = prompt_ids s /\ recompute_replay_cursor s1 = recompute_replay_cursor s)
    as (s1 & -> & E1 & E2 & E3 & E4 & E5 & E6).
  { unfold append_token. eexists. split; [reflexivity|].
    repeat case_match; cbn; done. }
  split_and!; [split; cbn|exact E1|unfold num_completion_tokens; cbn; lia].
  - rewrite E1, length_app, E2. cbn. lia.
  - lia.
  - lia.
  - by rewrite E1, last_snoc.
  - rewrite E5, H5, E1, E3, take_app_le by lia. done.
  - intros c. rewrite E6. apply H6.
Qed.

(** ** Recompute replay *)

(** The inputs that [n] replay decode steps feed to the model: the token and
    its position, each step followed by [advance_recompute_replay]. *)
Fixpoint replay_trace (n : nat) (s : Sequence) : exc (list (Z * Z)) * Sequence :=
  match n with
  | O => (Ok [], s)
  | S n' =>
      match decode_input_token s, advance_recompute_replay s with
      | Ok t, (Ok _, s1) =>
          let '(r, s') := replay_trace n' s1 in
          (rest ← r; Ok ((t, decode_input_position s) :: rest), s')
      | Raise e, _ => (Raise e, s)
      | _, (Raise e, s1) => (Raise e, s1)
      end
  end.

(** [s] has replayed [c] of its accepted tokens. *)
Definition replaying (s0 s : Sequence) (c : Z) : Prop :=
  s = s0 <| recompute_replay_cursor := Some c |> <| num_prefilled_tokens := num_prompt_tokens s0 |>
         <| decode_progress_checkpoint := decode_progress_checkpoint s |>
         <| current_chunk_size := current_chunk_size s |> <| status := status s |> <| prefix_hit := prefix_hit s |>.

Lemma replaying_fields s0 s c : replaying s0 s c ->
  token_ids s = token_ids s0 /\ num_tokens s = num_tokens s0 /\ num_prompt_tokens s = num_prompt_tokens s0 /\
  last_token s = last_token s0 /\ recompute_replay_cursor s = Some c /\ is_recompute_decode s = true /\ tags s = tags s0.
Proof.
  unfold replaying. intros ->. cbn. split_and!; try done. unfold is_recompute_decode, is_recompute_replay. cbn.
  rewrite Z.leb_refl. done.
Qed.

Lemma replay_input s0 s c t : seq_ok s0 -> replaying s0 s c -> 0 <= c -> c + 1 < num_completion_tokens s0 ->
  completion_token_ids s0 !! Z.to_nat c = Some t ->
  decode_input_token s = Ok t /\ decode_input_position s = num_prompt_tokens s0 + c + multimodal_position_delta (tags s0).
Proof.
  intros Hok Hr Hc Hlt Ht. destruct (replaying_fields s0 s c Hr) as (E1 & E2 & E3 & E4 & E5 & E6 & E7).
  pose proof (so_prompt s0 Hok). unfold decode_input_token, decode_input_position, cursor. rewrite E6, E5, E1, E3, E7.
  split; [|done]. cbn [negb default]. unfold replay_decode_token_count, num_completion_tokens in *. rewrite E2, E3.
  rewrite (proj2 (Z.leb_gt _ _)) by (cbn; lia). unfold completion_token_ids in Ht. rewrite lookup_drop in Ht.
  change (id c) with c. replace (Z.to_nat (num_prompt_tokens s0 + c))
    with (Z.to_nat (num_prompt_tokens s0) + Z.to_nat c)%nat by lia. by rewrite Ht.
Qed.

Lemma replay_advance s0 s c : replaying s0 s c -> 0 <= c -> c + 1 < num_completion_tokens s0 ->
  exists s1, advance_recompute_replay s = (Ok tt, s1) /\
    if c + 2 <? num_completion_tokens s0 then replaying s0 s1 (c + 1)
    else recompute_replay_cursor s1 = None /\ token_ids s1 = token_ids s0 /\ last_token s1 = last_token s0 /\
         num_tokens s1 = num_tokens s0 /\ tags s1 = tags s0 /\
         decode_progress_checkpoint s1 = num_completion_tokens s0.
Proof.
  intros Hr Hc Hlt. destruct (replaying_fields s0 s c Hr) as (E1 & E2 & E3 & E4 & E5 & E6 & E7).
  unfold advance_recompute_replay. act_unfold. rewrite E6. cbn [negb]. set (s2 := s <| recompute_replay_cursor := _ |>).
  assert (replay_decode_token_count s2 = num_completion_tokens s0 - 1 /\ cursor s2 = c + 1) as [-> ->].
  { assert (cursor s = c) as Hcur by (unfold cursor; by rewrite E5).
    split; [|unfold cursor, s2; cbn; rewrite Hcur; done].
    unfold replay_decode_token_count, num_completion_tokens, s2 in *. cbn. rewrite E2, E3. lia. }
  destruct (Z.ltb_spec (c + 2) (num_completion_tokens s0)) as [H2|H2].
  - rewrite (proj2 (Z.leb_gt _ _)) by lia. eexists. split; [done|].
    unfold replaying in *. unfold s2, cursor. rewrite E5. rewrite Hr. done.
  - rewrite (proj2 (Z.leb_le _ _)) by lia. unfold finish_recompute_replay. act_unfold.
    assert (is_recompute_replay s2 = true) as -> by done. cbn [negb].
    eexists. split; [done|]. unfold s2. cbn. split_and!; try done. unfold num_completion_tokens. cbn. by rewrite E2, E3.
Qed.

Lemma replay_trace_spec s0 n s c : seq_ok s0 -> replaying s0 s c -> 0 <= c ->
  c + Z.of_nat (S n) + 1 = num_completion_tokens s0 ->
  exists s', replay_trace (S n) s =
    (Ok (imap (fun i t => (t, num_prompt_tokens s0 + c + Z.of_nat i + multimodal_position_delta (tags s0)))
       (take (S n) (drop (Z.to_nat c) (completion_token_ids s0)))), s') /\
    recompute_replay_cursor s' = None /\ token_ids s' = token_ids s0 /\ last_token s' = last_token s0 /\
    num_tokens s' = num_tokens s0 /\ tags s' = tags s0 /\ decode_progress_checkpoint s' = num_completion_tokens s0.
Proof.
  intros Hok. revert s c. induction n as [|n IH]; intros s c Hr Hc Hn.
  all: assert (is_Some (completion_token_ids s0 !! Z.to_nat c)) as [t Ht]
    by (apply lookup_lt_is_Some; unfold completion_token_ids, num_completion_tokens in *; rewrite length_drop;
        pose proof (so_tokens s0 Hok); pose proof (so_prompt s0 Hok); lia).
  all: destruct (replay_input s0 s c t Hok Hr Hc ltac:(lia) Ht) as [Hi Hp];
    destruct (replay_advance s0 s c Hr Hc ltac:(lia)) as (s1 & Ha & Hs1);
    rewrite (drop_S _ _ _ Ht).
  - rewrite (proj2 (Z.ltb_ge _ _)) in Hs1 by lia. exists s1. cbn [replay_trace]. rewrite Hi, Ha. bind_simpl.
    split; [|done]. rewrite firstn_cons, take_0, imap_cons, Hp, Z.add_0_r. done.
  - rewrite (proj2 (Z.ltb_lt _ _)) in Hs1 by lia.
    destruct (IH s1 (c + 1) Hs1 ltac:(lia) ltac:(lia)) as (s' & Hs' & Hfin). exists s'. split; [|done].
    remember (S n) as m. cbn [replay_trace]. rewrite Hi, Ha, Hs'. bind_simpl.
    rewrite firstn_cons, imap_cons. rewrite Hp, Z.add_0_r. do 3 f_equal.
    replace (Z.to_nat (c + 1)) with (S (Z.to_nat c)) by lia. apply imap_ext. intros i x _. cbn. f_equal. lia.
Qed.

(** C20: Recompute replay rebuilds exactly the accepted history.  After
    [start_recompute_replay] and the re-run of the prompt, the replay decode
    steps feed every accepted completion token except the last, in order and
    at its original position; then replay mode is over, the history is
    untouched, and the next decode input is the last accepted token at its
    position. *)
Theorem recompute_replay_exact s :
  seq_ok s -> 1 < num_completion_tokens s ->
  let s1 := (start_recompute_replay s).2 in
  let s2 := s1 <| num_prefilled_tokens := num_prompt_tokens s1 |> in
  let delta := multimodal_position_delta (tags s) in
  (start_recompute_replay s).1 = Ok tt /\
  replay_decode_token_count s2 = num_completion_tokens s - 1 /\
  exists s', replay_trace (Z.to_nat (replay_decode_token_count s2)) s2 =
    (Ok (imap (fun i t => (t, num_prompt_tokens s + Z.of_nat i + delta))
       (take (Z.to_nat (num_completion_tokens s - 1)) (completion_token_ids s))), s') /\
    is_recompute_replay s' = false /\ token_ids s' = token_ids s /\
    (exists t, last (token_ids s) = Some t /\ decode_input_token s' = Ok t) /\
    decode_input_position s' = num_tokens s - 1 + delta /\
    decode_progress_checkpoint s' = num_completion_tokens s.
Proof.
  intros Hok Hk. cbv zeta.
  assert (start_recompute_replay s = (Ok tt, (start_recompute_replay s).2) /\
    replaying s ((start_recompute_replay s).2 <| num_prefilled_tokens := num_prompt_tokens ((start_recompute_replay s).2) |>) 0)
    as [Hs Hr].
  { unfold start_recompute_replay. act_unfold. rewrite (proj2 (Z.leb_gt _ _)) by lia. split; [done|]. done. }
  rewrite Hs. cbn [snd fst]. split; [done|]. set (s2 := _ <| num_prefilled_tokens := _ |>) in *.
  destruct (replaying_fields s s2 0 Hr) as (E1 & E2 & E3 & _).
  assert (replay_decode_token_count s2 = num_completion_tokens s - 1) as Hrc.
  { unfold replay_decode_token_count, num_completion_tokens in *. rewrite E2, E3. lia. }
  rewrite Hrc. split; [done|].
  destruct (Z.to_nat (num_completion_tokens s - 1)) as [|n] eqn:Hn; [lia|].
  destruct (replay_trace_spec s n s2 0 Hok Hr ltac:(lia) ltac:(lia)) as (s' & Ht & Hc & Htok & Hlast & Hnum & Htags & Hcp).
  exists s'. rewrite Ht. cbn [Z.to_nat]. rewrite drop_0. split_and!; try done.
  - do 2 f_equal. apply imap_ext. intros i x _. cbn. f_equal. lia.
  - unfold is_recompute_replay. by rewrite Hc.
  - unfold decode_input_token, is_recompute_decode, is_recompute_replay. rewrite Hc. cbn. rewrite Hlast, (so_last s Hok).
    destruct (last (token_ids s)) as [t|] eqn:El; [by exists t|].
    apply last_None in El. pose proof (so_tokens s Hok) as Hl. rewrite El in Hl. cbn in Hl.
    pose proof (so_prompt s Hok). unfold num_completion_tokens in Hk. lia.
  - unfold decode_input_position, is_recompute_decode, is_recompute_replay. rewrite Hc. cbn. by rewrite Hnum, Htags.
Qed.

(** A request of three prompt tokens that has generated four. *)
Definition sample_sequence : Sequence :=
  foldl (fun s t => append_token t None None s) (new_sequence 7 [11; 12; 13] default_sampling) [21; 22; 23; 24].

Lemma sample_sequence_ok : seq_ok sample_sequence.
Proof.
  unfold sample_sequence. cbn [foldl]. do 4 (apply append_token_ok). apply new_sequence_ok.
Qed.

Lemma recompute_replay_exact_witness :
  let s2 := (start_recompute_replay sample_sequence).2 <| num_prefilled_tokens := 3 |> in
  exists s', replay_trace 3 s2 = (Ok [(21, 3); (22, 4); (23, 5)], s') /\ is_recompute_replay s' = false.
Proof.
  destruct (recompute_replay_exact sample_sequence sample_sequence_ok ltac:(vm_compute; reflexivity))
    as (_ & _ & s' & Ht & Hr & _).
  exists s'. split; [exact Ht|exact Hr].
Defined.

(** ** Shipping to workers *)

Definition same_metadata (s s' : Sequence) : Prop :=
  seq_id s' = seq_id s /\ status s' = status s /\ num_tokens s' = num_tokens s /\
  num_prompt_tokens s' = num_prompt_tokens s /\ num_prefilled_tokens s' = num_prefilled_tokens s /\
  current_chunk_size s' = current_chunk_size s /\ sampling s' = sampling s /\ prefix_hit s' = prefix_hit s /\
  tags s' = tags s /\ recompute_replay_cursor s' = recompute_replay_cursor s /\
  decode_progress_checkpoint s' = decode_progress_checkpoint s.

Lemma same_metadata_views s s' : same_metadata s s' ->
  sends_chunk s' = sends_chunk s /\ is_recompute_decode s' = is_recompute_decode s /\
  is_recompute_prefill s' = is_recompute_prefill s /\ cursor s' = cursor s /\
  replay_decode_token_count s' = replay_decode_token_count s /\
  decode_input_position s' = decode_input_position s /\ kv_change_state s' = kv_change_state s.
Proof.
  intros (E1 & E2 & E3 & E4 & E5 & E6 & E7 & E8 & E9 & E10 & E11).
  unfold sends_chunk, decode_input_position, kv_change_state, is_recompute_decode, is_recompute_prefill,
    is_recompute_replay, cursor, replay_decode_token_count, num_completion_tokens.
  by rewrite E3, E4, E5, E9, E10.
Qed.

(** The chunk that a prefill step of [s] runs: what it has prefilled is
    bounded by the prompt, and the chunk by what is left. *)
Definition chunk_ok (s : Sequence) : Prop :=
  num_prefilled_tokens s <= num_prompt_tokens s /\
  forall c, current_chunk_size s = Some c -> 0 <= c <= num_prompt_tokens s - num_prefilled_tokens s.

Lemma slice_self {A} (l : list A) j : Z.of_nat (length l) <= j -> slice 0 j l = l.
Proof. intros. unfold slice. rewrite drop_0. apply take_ge. lia. Qed.

Lemma slice_empty {A} i (l : list A) : slice i (i + 0) l = [].
Proof. unfold slice. by replace (Z.to_nat (i + 0 - i)) with O by lia. Qed.

(** On rank 0 the chunk is always a slice of the full history. *)
Lemma replay_input_slice s : seq_ok s -> chunk_ok s -> is_recompute_prefill s = true ->
  replay_input_token_ids s =
    slice (num_prefilled_tokens s) (num_prefilled_tokens s + default 0 (current_chunk_size s)) (token_ids s).
Proof.
  intros Hok [Hpp Hc] Hr. unfold replay_input_token_ids. rewrite Hr. cbn [negb].
  destruct (Z.eqb_spec (Z.of_nat (length (token_ids s)))
    (num_prefilled_tokens s + default 0 (current_chunk_size s) - num_prefilled_tokens s)) as [E|]; [|done].
  pose proof (so_tokens s Hok). pose proof (so_prompt s Hok). pose proof (so_prefilled s Hok).
  destruct (current_chunk_size s) as [c|]; cbn in *.
  - specialize (Hc c eq_refl). unfold id in *. replace (num_prefilled_tokens s) with 0 by lia. by rewrite slice_self by lia.
  - destruct (token_ids s); [|cbn in E; lia]. unfold slice. by rewrite drop_nil, take_nil.
Qed.

Lemma worker_replay_input s s' chunk : seq_ok s -> chunk_ok s -> same_metadata s s' ->
  is_recompute_prefill s = true -> chunk = default (num_prompt_tokens s) (current_chunk_size s) ->
  token_ids s' = slice (num_prefilled_tokens s) (num_prefilled_tokens s + chunk) (token_ids s) ->
  replay_input_token_ids s' = replay_input_token_ids s.
Proof.
  intros Hok Hck Hm Hr -> Htok. rewrite (replay_input_slice s) by done.
  destruct (same_metadata_views s s' Hm) as (_ & _ & Hr' & _).
  destruct Hm as (_ & _ & _ & _ & Ep & Ec & _). unfold replay_input_token_ids. rewrite Hr', Hr, Ep, Ec, Htok. cbn [negb].
  pose proof (so_tokens s Hok). pose proof (so_prompt s Hok). pose proof (so_prefilled s Hok). destruct Hck as [Hpp Hc].
  destruct (current_chunk_size s) as [c|]; cbn; unfold id.
  - specialize (Hc c eq_refl). rewrite length_slice by lia. by rewrite Z.eqb_refl.
  - rewrite !slice_empty. case_match eqn:E; [|done]. apply Z.eqb_eq in E.
    apply length_zero_iff_nil. lia.
Qed.

(** A worker that receives a sequence sees what rank 0 sees.  When rank 0
    ships a consistent sequence, the worker restores one with the same
    metadata; in a prefill step it holds exactly the active chunk (and the same
    replay input); in a decode step the same input token; and always the same
    decode position and phase. *)
Theorem worker_roundtrip s w :
  seq_ok s -> chunk_ok s -> getstate s = Ok w ->
  exists s', setstate w = Ok s' /\ same_metadata s s' /\
    decode_input_position s' = decode_input_position s /\ kv_change_state s' = kv_change_state s /\
    replay_input_token_ids s' = replay_input_token_ids s /\
    if sends_chunk s
    then token_ids s' = slice (num_prefilled_tokens s)
           (num_prefilled_tokens s + default (num_prompt_tokens s) (current_chunk_size s)) (token_ids s)
    else decode_input_token s' = decode_input_token s.
Proof.
  intros Hok Hck. unfold getstate, setstate. destruct (sends_chunk s) eqn:Hs.
  - bind_simpl. intros [= <-]. eexists. split.
    { change (sends_chunk _) with (sends_chunk s). rewrite Hs. reflexivity. }
    match goal with |- same_metadata s ?x /\ _ => set (s' := x) end.
    assert (same_metadata s s') as Hm by (repeat split).
    destruct (same_metadata_views s s' Hm) as (_ & _ & Hr & _ & _ & Hp & Hk). split_and!; try done.
    destruct (is_recompute_prefill s) eqn:Hrp.
    + by apply (worker_replay_input s s' (default (num_prompt_tokens s) (current_chunk_size s))).
    + unfold replay_input_token_ids. by rewrite Hr, Hrp.
  - assert (is_recompute_prefill s = false) as Hrp by (unfold sends_chunk in Hs; by bool_to_prop).
    intros Hw.
    assert (exists t, w = mkWire (seq_id s) (status s) (num_tokens s) (num_prompt_tokens s) (num_prefilled_tokens s)
        (current_chunk_size s) (sampling s) (OneToken t) (prefix_hit s) (tags s) (recompute_replay_cursor s)
        (decode_progress_checkpoint s) /\
      if is_recompute_decode s then exists x, t = Some x /\ decode_input_token s = Ok x else t = last_token s)
      as (t & -> & Ht).
    { destruct (is_recompute_decode s); [|injection Hw as <-; by eexists].
      destruct (decode_input_token s) as [x|e]; [|done]. injection Hw as <-. eauto. }
    eexists. split.
    { change (sends_chunk _) with (sends_chunk s). rewrite Hs. reflexivity. }
    match goal with |- same_metadata s ?x /\ _ => set (s' := x) end.
    assert (same_metadata s s') as Hm by (repeat split).
    destruct (same_metadata_views s s' Hm) as (_ & Hrd & Hr & Hcur & Hcnt & Hp & Hk).
    assert (token_ids s' = [] /\ last_token s' = t) as [Etok Elast] by done. split_and!; try done.
    + unfold replay_input_token_ids. by rewrite Hr, Hrp.
    + unfold decode_input_token at 1. rewrite Hrd. destruct (is_recompute_decode s) eqn:Hd; cbn [negb].
      * destruct Ht as (x & Ex & Hx). rewrite Hcnt, Hcur, Hx, Etok, Elast, Ex. cbn [negb].
        unfold decode_input_token in Hx. rewrite Hd in Hx. cbn [negb] in Hx.
        destruct (_ <=? cursor s); [done|]. by rewrite lookup_nil.
      * unfold decode_input_token. rewrite Hd. cbn [negb]. by rewrite Elast, Ht.
Qed.

Lemma worker_roundtrip_witness : exists w s', getstate sample_sequence = Ok w /\ setstate w = Ok s' /\
  decode_input_token s' = Ok 24 /\ token_ids s' = [].
Proof.
  destruct (getstate sample_sequence) as [w|e] eqn:E; [|vm_compute in E; discriminate E].
  destruct (worker_roundtrip sample_sequence w sample_sequence_ok) as (s' & Hs' & _ & _ & _ & _ & Hd).
  - split; [vm_compute; discriminate|]. intros c Hc. vm_compute in Hc. discriminate Hc.
  - exact E.
  - exists w, s'. split; [reflexivity|]. split; [exact Hs'|]. vm_compute in E. injection E as <-.
    vm_compute in Hs'. injection Hs' as <-. split; reflexivity.
Defined.
