(* ===== verification/PrefixLookup.v ===== *)
(** * Cached prefix lookups

    [engine/cache_manager/prefix_cache_mixin.py], [lookup_prefix_cache_hit], and
    its use in [engine/prefix_cache_coordinator.py]: a waiting request is looked
    up again in every round, so its block ids and its last hit are cached and
    trusted as long as no block was removed and the block after the hit is
    still missing.  The coordinator is one with an index and without offload.  The
    theorem is that the cache never changes an answer.  The capacity counts of a
    hit are cached beside the lookups.

    The cache is a weak dictionary keyed by the sequence object; here its key is
    the sequence's number and [Collect] is the garbage collector.  A prompt is
    one tuple object for the life of its sequence when it was kept and a new one
    on every read otherwise, which is what decides [is]. *)

From stdpp Require Import base gmap list strings.
From Stdlib Require Import ZArith Lia.
From S2P Require Import Prelude PyDict PyBytes Sha256 RoutingMembership RadixTree RadixForest PrefixHash.
From S2P Require Import PrefixIndex PrefixIndexFacts PrefixCapacity PrefixTransfer PrefixCommit PrefixQueue PrefixEviction.
From S2P Require Import PrefixControl PrefixSubtree PrefixDemotion PrefixReclaim PrefixContract PrefixFreeable PrefixEpochs PrefixGuarantees.
From S2P Require Import SamplingParams Sequence.

(** ** Data *)

Definition PrefixHitResult : Type := Z * option bytes * Z.
Record PrefixLookupCacheEntry := mkLookupEntry {
  entry_token_ids : list Z;
  entry_usable_tokens : Z;
  entry_block_ids : list bytes;
  entry_remove_epoch : Z;
  entry_result : PrefixHitResult;
}.
Record PrefixHitCapacityCacheEntry := mkCapacityEntry {
  cap_last_block_id : bytes;
  cap_hit_blocks : Z;
  cap_remove_epoch : Z;
  cap_capacity_epoch : Z;
  cap_offload_enabled : bool;
  cap_chain : list ObjRef;
  cap_reclaimable_blocks : Z;
  cap_promotion_blocks : Z;
}.
(** The index with the lookups and the capacity counts cached for it. *)
Record CachedIndex (T : Type) := mkCachedIndex {
  the_index : RadixPrefixIndex T;
  lookup_cache : gmap Z PrefixLookupCacheEntry;
  capacity_cache : gmap Z PrefixHitCapacityCacheEntry;
}.
Arguments mkCachedIndex {T}. Arguments the_index {T}. Arguments lookup_cache {T}. Arguments capacity_cache {T}.
#[export] Instance eta_cached_index T : Eta (CachedIndex T) := fun r =>
  mkCachedIndex (the_index r) (lookup_cache r) (capacity_cache r).

Section lookup.
Context {T : Type} `{BlockForest T} `{Digest} {query : FreeableQuery T}.
#[local] Abbreviation Index := (RadixPrefixIndex T).
#[local] Abbreviation IndexAct := (Act PyExn (RadixPrefixIndex T)).
#[local] Abbreviation LookupAct := (Act PyExn (CachedIndex T)).
Implicit Types (s : Index) (c : CachedIndex T) (q : Sequence) (e : PrefixLookupCacheEntry).

Definition on_index {A} (m : IndexAct A) : LookupAct A := fun c =>
  let '(r, s) := m (the_index c) in (r, c <| the_index := s |>).

(** [entry.token_ids is prompt_token_ids and entry.usable_tokens == usable_tokens] *)
Definition same_request e q (usable : Z) : bool :=
  bool_decide (is_Some (prompt_ids q)) && bool_decide (entry_token_ids e = prompt_token_ids q)
  && (entry_usable_tokens e =? usable).
(** [lookup_is_current] *)
Definition lookup_is_current s e : bool :=
  let hits := (entry_result e).2 in
  (entry_remove_epoch e =? remove_epoch (epochs s))
  && ((hits =? Z.of_nat (length (entry_block_ids e)))
      || match entry_block_ids e !! Z.to_nat hits with Some id => negb (has_block s id) | None => false end).

Definition lookup_prefix_cache_hit q (usable : Z) : LookupAct PrefixHitResult :=
  c ← read (fun c => c);
  let entry := lookup_cache c !! seq_id q in
  let same := match entry with Some e => same_request e q usable | None => false end in
  match entry, same && match entry with Some e => lookup_is_current (the_index c) e | None => false end with
  | Some e, true => mret (entry_result e)
  | _, _ =>
      ids ← match entry, same with
            | Some e, true => mret (entry_block_ids e)
            | _, _ => on_index (block_ids_for_tokens (prompt_token_ids q) (Some usable))
            end;
      result ← on_index (lookup_longest_block_ids ids);
      epoch ← read (fun c => remove_epoch (epochs (the_index c)));
      modify (fun c => c <| lookup_cache ::= <[seq_id q := mkLookupEntry (prompt_token_ids q) usable ids epoch result]> |>) ;;
      mret result
  end.

(** [PrefixCacheCoordinator.refresh_prefix_cache_hit]: the hit it leaves on the
    sequence; without offload there is nothing to poll. *)
Definition coordinator_refresh_hit (method : string) q : LookupAct PrefixHit :=
  bs ← read (fun c => block_size (config (the_index c)));
  if negb (num_prefilled_tokens q =? 0) || negb (num_completion_tokens q =? 0) then mret no_prefix_hit
  else
    usable ← lift (usable_prefix_cache_tokens (num_prompt_tokens q) bs);
    if usable <=? 0 then mret no_prefix_hit
    else
      r ← lookup_prefix_cache_hit q usable;
      let '(hit_len, last_id, hits) := r in
      if hit_len <=? 0 then mret no_prefix_hit
      else
        guard_not (bool_decide (last_id = None) || (hits <=? 0))
          (RuntimeError "Mixed prefix cache lookup returned an invalid hit.") ;;
        guard_not ((num_prompt_tokens q <=? hit_len) || negb (hit_len mod bs =? 0))
          (RuntimeError "Mixed prefix cache lookup returned an unusable hit length") ;;
        mret (mkPrefixHit true hit_len hits last_id bs method).

(** ** Reachable caches *)

Inductive LookupOp :=
| OnIndex (op : IndexOp)
| LookupHit (q : Sequence) (usable : Z)
| Collect (id : Z).
Definition run_lookup_op (op : LookupOp) c : CachedIndex T :=
  match op with
  | OnIndex op => (on_index (run_op op) c).2
  | LookupHit q usable => (lookup_prefix_cache_hit q usable c).2
  | Collect id => c <| lookup_cache ::= delete id |> <| capacity_cache ::= delete id |>
  end.
Definition lookup_op_ok c (op : LookupOp) : Prop :=
  match op with OnIndex op => op_ok (the_index c) op | _ => True end.
Inductive cache_reachable (bs : Z) (fp : bytes) (max : option Z) : CachedIndex T -> Prop :=
| cache_init s : new_index bs fp max = Ok s -> cache_reachable bs fp max (mkCachedIndex s ∅ ∅)
| cache_step c op : cache_reachable bs fp max c -> lookup_op_ok c op ->
    cache_reachable bs fp max (run_lookup_op op c).

(** ** What a cached entry says *)

Definition entry_ok s e : Prop :=
  block_ids_of_tokens (block_size (config s)) (fingerprint (config s)) (entry_token_ids e)
    (Some (entry_usable_tokens e)) = Ok (entry_block_ids e) /\
  exists h, (h <= length (entry_block_ids e))%nat /\
    entry_result e = (Z.of_nat h * block_size (config s), last (take h (entry_block_ids e)), Z.of_nat h) /\
    entry_remove_epoch e <= epoch_of s /\
    (entry_remove_epoch e = epoch_of s -> forall i x, (i < h)%nat -> entry_block_ids e !! i = Some x ->
      forest_of (backend s) x = Some (match i with O => None | S j => entry_block_ids e !! j end)).
Definition cache_ok c : Prop := index_inv (the_index c) /\ map_Forall (fun _ e => entry_ok (the_index c) e) (lookup_cache c).

Lemma entry_ok_later s s' e : later s s' -> entry_ok s e -> entry_ok s' e.
Proof.
  intros (Hc & HE & Hf) (Hids & h & Hh & Hr & He & Hp). unfold entry_ok. rewrite Hc. split; [done|].
  exists h. split_and!; [done|done|lia|]. intros Heq i x Hi Hx. apply Hf; [lia|]. apply Hp; [lia|done..].
Qed.
Lemma frame_later s s' : frame s s' -> later s s'.
Proof.
  intros (Hc & _ & Hbl & Hb & _ & _ & He & _). unfold later, epoch_of. rewrite Hc, Hb, Hbl, He. split_and!; [done|lia|done].
Qed.

(** The longest hit is unique: the first missing block ends it. *)
Lemma take_last (l : list bytes) h : (h <= length l)%nat -> last (take h l) = match h with O => None | S j => l !! j end.
Proof.
  intros Hh. destruct h as [|j]; [done|]. rewrite last_lookup, length_take_le by done. cbn. by rewrite lookup_take_lt by lia.
Qed.
Lemma current_hit s e h : index_wf s -> entry_ok s e -> lookup_is_current s e = true ->
  longest_hit s (entry_block_ids e) h ->
  entry_result e = (Z.of_nat h * block_size (config s), last (take h (entry_block_ids e)), Z.of_nat h).
Proof.
  intros Hwf (_ & h' & Hh' & Hr & _ & Hp) Hcur (Hh & Hhit & Hmiss). unfold lookup_is_current in Hcur.
  rewrite Hr in Hcur. cbn [snd] in Hcur. apply andb_prop in Hcur as [He Hcur]. apply Z.eqb_eq in He.
  specialize (Hp He). enough (h' = h) as -> by done. destruct (Nat.lt_trichotomy h' h) as [Hlt|[|Hlt]]; [|done|].
  - apply orb_prop in Hcur as [Hn%Z.eqb_eq|Hn]; [lia|]. rewrite Nat2Z.id in Hn.
    destruct (entry_block_ids e !! h') as [x|] eqn:Hx; [|done]. pose proof (Hhit h' x Hlt Hx) as Hf.
    assert (is_Some (get_block s x)) as [[o b] Hg] by (apply (forest_present s x Hwf); by rewrite Hf).
    apply (get_block_Some s x o b Hwf) in Hg as [Hb _]. unfold has_block, has_key in Hn. by rewrite Hb in Hn.
  - destruct (lookup_lt_is_Some_2 (entry_block_ids e) h) as [x Hx]; [lia|]. destruct (Hmiss x Hx).
    rewrite take_last by done. by apply Hp.
Qed.

(** A lookup by ids: the longest hit, on a framed index. *)
Lemma longest_hit_frame s s' ids h : frame s s' -> longest_hit s ids h <-> longest_hit s' ids h.
Proof. intros (_ & _ & _ & Hb & _). unfold longest_hit. by rewrite Hb. Qed.
Lemma longest_hit_unique s ids h h' : longest_hit s ids h -> longest_hit s ids h' -> h = h'.
Proof.
  enough (forall a b, longest_hit s ids a -> longest_hit s ids b -> ~ (a < b)%nat) as Hlt.
  { intros H1 H2. pose proof (Hlt _ _ H1 H2). pose proof (Hlt _ _ H2 H1). lia. }
  intros a b (Ha & _ & Hmiss) (Hb & Hhit & _) Hab.
  destruct (lookup_lt_is_Some_2 ids a) as [x Hx]; [lia|]. apply (Hmiss x Hx). rewrite take_last by done. by apply (Hhit a).
Qed.

Lemma uncached_result s toks u ids h :
  index_wf s -> block_ids_of_tokens (block_size (config s)) (fingerprint (config s)) toks (Some u) = Ok ids ->
  longest_hit s ids h ->
  (lookup_longest_prefix toks u s).1 = Ok (Z.of_nat h * block_size (config s), last (take h ids), Z.of_nat h).
Proof.
  intros Hwf Hids Hh.
  change (wp (lookup_longest_prefix toks u) (fun r _ => r = Ok (Z.of_nat h * block_size (config s), last (take h ids), Z.of_nat h)) s).
  unfold lookup_longest_prefix. apply wp_bind. eapply wp_mono; [apply block_ids_for_tokens_spec|].
  cbv beta. intros r s1 [Hf ->]. rewrite Hids.
  eapply wp_mono; [apply lookup_longest_block_ids_spec; by apply (index_wf_core s); [apply eq_sym, frame_core|]|].
  intros r s2 (_ & h' & Hh' & -> & _). destruct Hf as (Hc & Hf'). rewrite Hc.
  assert (h' = h) as -> by (apply (longest_hit_unique s1 ids); [done|]; by apply (longest_hit_frame s s1)). done.
Qed.

(** Looking the ids up and caching the hit. *)
Definition lookup_and_store q u ids : LookupAct PrefixHitResult :=
  result ← on_index (lookup_longest_block_ids ids);
  epoch ← read (fun c => remove_epoch (epochs (the_index c)));
  modify (fun c => c <| lookup_cache ::= <[seq_id q := mkLookupEntry (prompt_token_ids q) u ids epoch result]> |>) ;;
  mret result.

Definition lookup_post q u c (r : exc PrefixHitResult) c' : Prop :=
  r = (lookup_longest_prefix (prompt_token_ids q) u (the_index c)).1 /\
  frame (the_index c) (the_index c') /\ cache_ok c'.

Lemma wp_on_index {A} (m : IndexAct A) (Q : exc A -> CachedIndex T -> Prop) c :
  wp m (fun r s' => Q r (c <| the_index := s' |>)) (the_index c) -> wp (on_index m) Q c.
Proof. unfold wp, on_index. by destruct (m (the_index c)) as [r s']. Qed.

Lemma lookup_and_store_spec q u ids c c0 :
  cache_ok c -> frame (the_index c0) (the_index c) -> index_wf (the_index c0) ->
  block_ids_of_tokens (block_size (config (the_index c0))) (fingerprint (config (the_index c0)))
    (prompt_token_ids q) (Some u) = Ok ids ->
  wp (lookup_and_store q u ids) (lookup_post q u c0) c.
Proof.
  intros [Hinv Hent] Hf Hwf0 Hids. unfold lookup_and_store. apply wp_bind, wp_on_index.
  eapply wp_mono; [apply lookup_longest_block_ids_spec, Hinv|]. cbv beta.
  intros r s' (Hf' & h & Hh & -> & _). apply wp_bind, wp_read, wp_bind, wp_modify, wp_ret.
  pose proof (frame_trans _ _ _ Hf Hf') as Hff. split_and!.
  - rewrite (uncached_result (the_index c0) _ u ids h) by (done || by apply (longest_hit_frame _ (the_index c))).
    destruct Hf as [-> _]. done.
  - exact Hff.
  - split; cbn; [by apply (frame_inv (the_index c))|].
    apply map_Forall_insert_2; [|intros i e Hi; apply (entry_ok_later (the_index c)); [by apply frame_later|by apply (Hent i)]].
    pose proof Hff as (Hc & _). split; cbn; [by rewrite Hc|]. destruct Hf' as (Hc' & _ & _ & Hb & _).
    exists h. split_and!; [apply Hh|by rewrite Hc'|done|]. intros _ i x Hi Hx. rewrite Hb. by apply Hh.
Qed.

Lemma fresh_lookup_spec q u c : cache_ok c ->
  wp (ids ← on_index (block_ids_for_tokens (prompt_token_ids q) (Some u)); lookup_and_store q u ids)
    (lookup_post q u c) c.
Proof.
  intros Hok. apply wp_bind, wp_on_index. eapply wp_mono; [apply block_ids_for_tokens_spec|].
  cbv beta. intros r s1 [Hf ->].
  assert (cache_ok (c <| the_index := s1 |>)) as Hok1.
  { split; [by apply (frame_inv (the_index c)), Hok|]. intros i e Hi.
    apply (entry_ok_later (the_index c)); [by apply frame_later|by apply (proj2 Hok i)]. }
  destruct (block_ids_of_tokens _ _ _ _) as [ids|e] eqn:Hids.
  - apply lookup_and_store_spec; [done|exact Hf|apply Hok|done].
  - split_and!; [|exact Hf|done].
    symmetry. change (wp (lookup_longest_prefix (prompt_token_ids q) u) (fun r _ => r = Raise e) (the_index c)).
    unfold lookup_longest_prefix. apply wp_bind. eapply wp_mono; [apply block_ids_for_tokens_spec|].
    cbv beta. intros r s2 [_ ->]. by rewrite Hids.
Qed.

Lemma same_request_fields e q u :
  same_request e q u = true -> entry_token_ids e = prompt_token_ids q /\ entry_usable_tokens e = u.
Proof.
  unfold same_request. intros [[_ Ht]%andb_prop Hu%Z.eqb_eq]%andb_prop.
  by apply bool_decide_eq_true_1 in Ht.
Qed.

Lemma lookup_prefix_cache_hit_spec q u c :
  cache_ok c -> wp (lookup_prefix_cache_hit q u) (lookup_post q u c) c.
Proof.
  intros Hok. pose proof Hok as [Hinv Hent]. pose proof (proj1 Hinv) as Hwf.
  unfold lookup_prefix_cache_hit. apply wp_bind, wp_read. cbv beta iota zeta.
  destruct (lookup_cache c !! seq_id q) as [e|] eqn:He; cbn [andb].
  1: specialize (Hent _ _ He); destruct (same_request e q u) eqn:Hsame; cbn [andb].
  - apply same_request_fields in Hsame as [Ht Hu]. pose proof Hent as (Hids & _). rewrite Ht, Hu in Hids.
    destruct (lookup_is_current (the_index c) e) eqn:Hcur.
    + apply wp_ret. split_and!; [|done..]. destruct (match_longest_block_ids_spec (the_index c) (entry_block_ids e) Hwf) as (h & Hh & _).
      rewrite (uncached_result _ _ _ _ h Hwf Hids Hh). f_equal. by apply current_hit.
    + apply wp_bind, wp_ret. by apply lookup_and_store_spec.
  - by apply fresh_lookup_spec.
  - by apply fresh_lookup_spec.
Qed.

Lemma run_lookup_op_ok c op : cache_ok c -> lookup_op_ok c op -> cache_ok (run_lookup_op op c).
Proof.
  intros Hok Hop. pose proof Hok as [Hinv Hent]. destruct op as [op|q u|id]; cbn in *.
  - pose proof (run_op_inv (the_index c) op Hinv Hop) as Hinv'.
    pose proof (run_op_later (the_index c) op Hinv Hop) as Hl. unfold on_index.
    destruct (run_op op (the_index c)) as [r s']. split; [exact Hinv'|].
    intros i e Hi. apply (entry_ok_later (the_index c)); [exact Hl|by apply (Hent i)].
  - apply (lookup_prefix_cache_hit_spec q u c Hok).
  - split; [done|]. by apply map_Forall_delete.
Qed.
Lemma cache_reachable_ok bs fp max c : cache_reachable bs fp max c -> cache_ok c.
Proof.
  induction 1 as [s Hs|c op _ IH Hop]; [|by apply run_lookup_op_ok]. split; [by eapply new_index_inv|].
  apply map_Forall_empty.
Qed.

(** ** The refreshed hit *)

Lemma longest_hit_nil s : longest_hit s [] 0.
Proof. split_and!; [done|by intros i x ?%Nat.nlt_0_r|done]. Qed.

(** What a waiting prompt's lookup finds. *)
Lemma waiting_hit c q : cache_ok c ->
  Z.of_nat (length (prompt_token_ids q)) = num_prompt_tokens q -> int64s (prompt_token_ids q) = true ->
  exists usable ids h,
    let size := block_size (config (the_index c)) in
    usable_prefix_cache_tokens (num_prompt_tokens q) size = Ok usable /\ (usable <= 0 -> h = O) /\
    block_ids_of_tokens size (fingerprint (config (the_index c))) (prompt_token_ids q) (Some usable) = Ok ids /\
    longest_hit (the_index c) ids h /\
    (h = O \/ Z.of_nat h * size < num_prompt_tokens q) /\
    wp (lookup_prefix_cache_hit q usable) (fun r c' => r = Ok (Z.of_nat h * size, last (take h ids), Z.of_nat h) /\
      frame (the_index c) (the_index c') /\ cache_ok c') c.
Proof.
  intros Hok Hlen Htoks. pose proof (proj1 (proj1 Hok)) as Hwf.
  pose proof (iwf_block_size _ Hwf) as Hbs. set (size := block_size (config (the_index c))) in *.
  destruct (usable_tokens_spec (num_prompt_tokens q) size Hbs) as (u & Hu & _ & Hu0 & Hmax & _).
  destruct (block_ids_of_tokens_ok size (fingerprint (config (the_index c))) Hbs (prompt_token_ids q) (Some u) Htoks)
    as (ids & Hids & Hl & _).
  destruct (match_longest_block_ids_spec (the_index c) ids Hwf) as (h & Hh & _).
  assert (Z.of_nat h * size <= u) as Hhu.
  { destruct Hh as [Hle _]. rewrite Hl in Hle. unfold block_limit in Hle.
    pose proof (Z.mul_div_le (Z.min u (Z.of_nat (length (prompt_token_ids q)))) size Hbs).
    pose proof (Z.div_pos (Z.min u (Z.of_nat (length (prompt_token_ids q)))) size). nia. }
  exists u, ids, h. cbv zeta. split_and!; [done|nia|done|done|destruct h; [by left|right; lia]|].
  eapply wp_mono; [by apply lookup_prefix_cache_hit_spec|]. cbv beta. intros r c' (-> & Hf & Hok').
  by rewrite (uncached_result _ _ _ _ h Hwf Hids Hh).
Qed.

(** A refreshed request gets the hit that a lookup of the whole prompt in
    the present index would find, whatever the cache of lookups holds: the
    longest cached prefix of the ids of its usable tokens, or no hit where that
    is empty.  It leaves a prompt token to compute, so that neither of the
    refresh's own checks can fail. *)
Theorem refresh_finds_longest_hit bs fp max c method q :
  cache_reachable bs fp max c ->
  num_prefilled_tokens q = 0 -> num_completion_tokens q = 0 ->
  Z.of_nat (length (prompt_token_ids q)) = num_prompt_tokens q -> int64s (prompt_token_ids q) = true ->
  exists usable ids h,
    let size := block_size (config (the_index c)) in
    usable_prefix_cache_tokens (num_prompt_tokens q) size = Ok usable /\
    block_ids_of_tokens size (fingerprint (config (the_index c))) (prompt_token_ids q) (Some usable) = Ok ids /\
    longest_hit (the_index c) ids h /\
    (h = O \/ Z.of_nat h * size < num_prompt_tokens q) /\
    wp (coordinator_refresh_hit method q) (fun r c' =>
      r = Ok (match h with
              | O => no_prefix_hit
              | S _ => mkPrefixHit true (Z.of_nat h * size) (Z.of_nat h) (last (take h ids)) size method
              end) /\
      frame (the_index c) (the_index c')) c.
Proof.
  intros Hok%cache_reachable_ok Hpre Hcomp Hlen Htoks. pose proof (iwf_block_size _ (proj1 (proj1 Hok))) as Hbs.
  destruct (waiting_hit c q Hok Hlen Htoks) as (u & ids & h & Hu & Hu1 & Hids & Hh & Hfit & Hrun). cbv zeta in *.
  set (size := block_size (config (the_index c))) in *. exists u, ids, h. split_and!; [done..|].
  unfold coordinator_refresh_hit. apply wp_bind, wp_read. cbv beta. fold size.
  rewrite Hpre, Hcomp. cbn [Z.eqb negb orb]. apply wp_bind, wp_lift. rewrite Hu. cbv beta iota.
  destruct (Z.leb_spec u 0) as [Hu2|Hu2]; [apply wp_ret; by rewrite Hu1|].
  apply wp_bind. eapply wp_mono; [exact Hrun|]. cbv beta. intros r c' (-> & Hf & _).
  destruct h as [|n]; [by apply wp_ret|]. set (h := S n) in *.
  rewrite (proj2 (Z.leb_gt (Z.of_nat h * size) 0)) by nia.
  apply wp_bind, wp_guard.
  { intros [Hn%bool_decide_eq_true_1|Hn%Z.leb_le]%orb_prop; [|lia].
    apply last_None in Hn. apply (f_equal length) in Hn. rewrite length_take_le in Hn by apply Hh. done. }
  intros _. apply wp_bind, wp_guard.
  { rewrite Z_mod_mult. intros [Hn%Z.leb_le|?]%orb_prop; [|done]. lia. }
  intros _. by apply wp_ret.
Qed.
End lookup.

(** ** Cached capacity counts

    [prefix_hit_capacity_counts]: how many blocks of a request's hit are
    reclaimable now, and would stop being so when the request holds them.  The
    chain is kept while no block is removed and the counts while the capacity
    epoch stands. *)

Section capacity.
Context `{Digest}.
#[local] Abbreviation Cached := (CachedIndex RadixTreeBackend).
#[local] Abbreviation CachedAct := (Act PyExn (CachedIndex RadixTreeBackend)).
Implicit Types (c : Cached) (q : Sequence) (e : PrefixHitCapacityCacheEntry).

(** [same_chain] *)
Definition same_chain c q (last : bytes) e : bool :=
  bool_decide (cap_last_block_id e = last)
  && (cap_hit_blocks e =? prefix_cache_hit_block_count (prefix_hit q))
  && (cap_remove_epoch e =? remove_epoch (epochs (the_index c))).
Definition same_capacity c (offload : bool) e : bool :=
  (cap_capacity_epoch e =? capacity_epoch (epochs (the_index c)))
  && Bool.eqb (cap_offload_enabled e) offload.

(** [sum(1 for block in chain if ok(block))] *)
Fixpoint count_blocks (s : RadixPrefixIndex RadixTreeBackend) (ok : PrefixCacheBlock -> bool) (chain : list ObjRef) : exc Z :=
  match chain with
  | [] => Ok 0
  | o :: chain' =>
      match store s !! o with
      | None => Raise (AttributeError "block")
      | Some b => n ← count_blocks s ok chain'; Ok ((if ok b then 1 else 0) + n)
      end
  end.

Definition prefix_hit_capacity_counts q (offload : bool) : CachedAct (Z * Z) :=
  let hits := prefix_cache_hit_block_count (prefix_hit q) in
  if hits <=? 0 then mret (0, 0)
  else
    match prefix_cache_hit_last_block_id (prefix_hit q) with
    | None => throw (RuntimeError "prefix hit blocks but no last block id.")
    | Some last =>
        c ← read (fun c => c);
        let entry := match capacity_cache c !! seq_id q with
                     | Some e => if same_chain c q last e then Some e else None
                     | None => None
                     end in
        match entry, match entry with Some e => same_capacity c offload e | None => false end with
        | Some e, true => mret (cap_reclaimable_blocks e, cap_promotion_blocks e)
        | _, _ =>
            chain ← match entry with
                    | Some e => mret (cap_chain e)
                    | None => on_index (ask (fun s => get_chain s last hits))
                    end;
            ids ← on_index (if offload then device_reclaimable_block_ids else freeable_block_ids);
            reclaimable ← on_index (ask (fun s => count_blocks s (fun b => bool_decide (stable_block_id b ∈ ids)) chain));
            promotion ← (if offload
                         then on_index (ask (fun s => count_blocks s (fun b => negb (device_present (residency b))) chain))
                         else mret 0);
            modify (fun c => c <| capacity_cache ::=
              <[seq_id q := mkCapacityEntry last hits (remove_epoch (epochs (the_index c)))
                  (capacity_epoch (epochs (the_index c))) offload chain reclaimable promotion]> |>) ;;
            mret (reclaimable, promotion)
        end
    end.
End capacity.

(** ** A refreshed request

    The request is first looked up when only the first block of its prompt is
    cached; the second block then arrives, and the refresh finds both. *)

#[local] Existing Instance toy.

Definition sample_request : Sequence := new_sequence 5 [7; 8; 9] default_sampling.
Definition sample_lookups : list LookupOp :=
  [OnIndex (NewBlock (sample_block [7] 0)); OnIndex (NewBlock (sample_block [7; 8] 0)); OnIndex (Insert 0);
   LookupHit sample_request 2; OnIndex (Insert 1)].
Definition run_lookups (ops : list LookupOp) (c : CachedIndex RadixTreeBackend) : CachedIndex RadixTreeBackend :=
  foldl (fun c op => run_lookup_op op c) c ops.
Definition sample_cached : CachedIndex RadixTreeBackend := run_lookups sample_lookups (mkCachedIndex sample_start ∅ ∅).

Lemma sample_cached_reachable : cache_reachable 1 [] (Some 2) sample_cached.
Proof.
  unfold sample_cached, sample_lookups, run_lookups. cbn [foldl].
  repeat (apply cache_step; [|cbn [lookup_op_ok op_ok]; try exact I]).
  - by apply cache_init.
  - intros b. vm_compute. intros [= <-]. discriminate.
  - intros b. vm_compute. intros [= <-]. discriminate.
Qed.

Lemma refresh_finds_longest_hit_witness :
  entry_result <$> lookup_cache sample_cached !! 5 = Some (1, Some (sample_id [7]), 1) /\
  exists h, longest_hit (the_index sample_cached) [sample_id [7]; sample_id [7; 8]] h /\
    (coordinator_refresh_hit "quest" sample_request sample_cached).1 =
      Ok (mkPrefixHit true 2 2 (Some (sample_id [7; 8])) 1 "quest").
Proof.
  split; [vm_compute; reflexivity|].
  destruct (refresh_finds_longest_hit _ _ _ sample_cached "quest" sample_request sample_cached_reachable
    eq_refl eq_refl eq_refl eq_refl) as (u & ids & h & Hu & Hids & Hh & _).
  assert (u = 2) as -> by (vm_compute in Hu; by injection Hu).
  assert (ids = [sample_id [7]; sample_id [7; 8]]) as ->.
  { vm_compute in Hids. injection Hids as <-. vm_compute. reflexivity. }
  exists h. split; [exact Hh|]. vm_compute. reflexivity.
Defined.
