(* ===== verification/PrefixHits.v ===== *)
(** * Cached hits stay right

    What the cached capacity counts of a hit keep true: until the remove epoch
    passes the entry's, the chain in it is the chain of the hit.  With the
    lookups of [PrefixLookup] this is what the caches of a manager promise. *)

From stdpp Require Import base gmap list strings.
From Stdlib Require Import ZArith Lia.
From S2P Require Import Prelude PyDict PyBytes Sha256 RoutingMembership RadixTree RadixTreeFacts RadixWalks RadixForest PrefixHash.
From S2P Require Import PrefixIndex PrefixIndexFacts PrefixCapacity PrefixTransfer PrefixControl PrefixContract PrefixEpochs PrefixFreeable.
From S2P Require Import SamplingParams Sequence PrefixLookup.

(** ** Paths from the root *)

Definition root_path (f : forest) (ids : list bytes) : Prop :=
  forall i x, ids !! i = Some x -> f x = Some (match i with O => None | S j => ids !! j end).

Lemma root_path_app f ids x : root_path f (ids ++ [x]) -> root_path f ids /\ f x = Some (last ids).
Proof.
  intros Hp. split.
  - intros i y Hy. rewrite (Hp i y) by (by apply lookup_app_l_Some). destruct i as [|j]; [done|].
    rewrite lookup_app_l; [done|]. apply lookup_lt_Some in Hy. lia.
  - rewrite (Hp (length ids) x) by (by apply list_lookup_middle). f_equal. rewrite last_lookup.
    destruct ids as [|y ids]; [done|]. cbn [length pred]. by rewrite lookup_app_l by (cbn; lia).
Qed.
Lemma root_path_unique f p1 p2 : root_path f p1 -> root_path f p2 -> last p1 = last p2 -> p1 = p2.
Proof.
  revert p2. induction p1 as [|x p1 IH] using rev_ind; intros p2 H1 H2 Hl.
  - destruct p2 as [|y p2 _] using rev_ind; [done|]. by rewrite last_snoc in Hl.
  - destruct p2 as [|y p2 _] using rev_ind; [by rewrite last_snoc in Hl|]. rewrite !last_snoc in Hl. injection Hl as <-.
    destruct (root_path_app _ _ _ H1) as [P1 E1], (root_path_app _ _ _ H2) as [P2 E2]. f_equal. apply IH; [done..|congruence].
Qed.
Lemma root_path_up f ids x y : root_path f ids -> y ∈ ids -> below f x y -> x ∈ ids.
Proof.
  intros Hp Hy Hb. unfold below in Hb. induction Hb as [|y z x Hyz _ IH]; [done|]. apply IH.
  apply list_elem_of_lookup in Hy as [i Hi]. pose proof (Hp i y Hi) as Hf. rewrite Hyz in Hf. destruct i as [|j]; [done|].
  injection Hf as Hf. by eapply list_elem_of_lookup_2.
Qed.
Lemma root_path_ext f g ids : (forall x, f x = g x) -> root_path f ids -> root_path g ids.
Proof. intros Hfg Hp i x Hx. rewrite <- Hfg. by apply Hp. Qed.

Lemma root_path_NoDup f ids : root_path f ids -> NoDup ids.
Proof.
  intros Hp. apply NoDup_alt. enough (forall i j x, (i < j)%nat -> ids !! i = Some x -> ids !! j = Some x -> False) as Hlt.
  { intros i j x Hi Hj. destruct (Nat.lt_trichotomy i j) as [|[|]]; [exfalso; eauto|done|exfalso; eauto]. }
  induction i as [|i IH]; intros j x Hij Hi Hj; pose proof (Hp _ _ Hi) as E1; pose proof (Hp _ _ Hj) as E2; rewrite E1 in E2;
    injection E2 as E; destruct j as [|j]; try lia; cbn in E; (destruct (lookup_lt_is_Some_2 ids j) as [y Hy]; [apply lookup_lt_Some in Hj; lia|]).
  - congruence.
  - apply (IH j y); [lia|congruence|done].
Qed.

Section hits.
Context `{Digest}.
Implicit Types (ix : RadixPrefixIndex RadixTreeBackend) (c : CachedIndex RadixTreeBackend) (q : Sequence).
#[local] Abbreviation Index := (RadixPrefixIndex RadixTreeBackend).
#[local] Abbreviation IndexAct := (Act PyExn (RadixPrefixIndex RadixTreeBackend)).
#[local] Abbreviation CachedAct := (Act PyExn (CachedIndex RadixTreeBackend)).

(** ** Chains while no block is removed *)

Lemma get_chain_present ix last n os : index_wf ix -> get_chain ix last n = Ok os -> is_Some (get_block ix last) /\ 0 < n.
Proof.
  intros Hwf. unfold get_chain. destruct (Z.leb_spec n 0); [done|]. intros Hc. split; [|done]. apply (forest_present ix last Hwf).
  change (forest_of (backend ix) last) with (block_parent (backend ix) last). destruct (block_parent (backend ix) last) eqn:Hp; [eauto|].
  change (forest_path (backend ix) last) with (path_to_block (backend ix) last) in Hc.
  rewrite (path_to_block_absent _ _ (iwf_backend ix Hwf) Hp) in Hc. done.
Qed.
Lemma same_objects ix ix' l os os' : (forall id o, blocks ix !! id = Some o -> blocks ix' !! id = Some o) ->
  Forall2 (fun o x => exists b, get_block ix x = Some (o, b)) os l -> Forall2 (fun o x => exists b, get_block ix' x = Some (o, b)) os' l -> os' = os.
Proof.
  intros Hb H1. revert os'. induction H1 as [|o x os l (b & Hg) _ IH]; intros os' H2; [by apply Forall2_nil_inv_r in H2|].
  apply Forall2_cons_inv_r in H2 as (o' & os'' & (b' & Hg') & H2 & ->). rewrite (IH _ H2). f_equal. unfold get_block in *.
  destruct (blocks ix !! x) as [p|] eqn:Hx; [|done]. rewrite (Hb _ _ Hx) in Hg'. destruct (store ix !! p), (store ix' !! p); by simplify_eq.
Qed.
Lemma get_chain_later ix ix' last n os : index_wf ix -> index_wf ix' -> later ix ix' -> epoch_of ix' = epoch_of ix ->
  get_chain ix last n = Ok os -> get_chain ix' last n = Ok os.
Proof.
  intros Hwf Hwf' (_ & _ & Hlater) He Hget. destruct (Hlater He) as [Hf Hb]. destruct (get_chain_present _ _ _ _ Hwf Hget) as [Hpres Hn].
  destruct (get_chain_spec ix last n Hwf Hpres Hn) as (path & Hl & Hp & Hs). rewrite Hget in Hs.
  assert (is_Some (get_block ix' last)) as Hpres'.
  { apply (forest_present ix' last Hwf'). apply (forest_present ix last Hwf) in Hpres as [p Hp0]. rewrite (Hf _ _ Hp0). eauto. }
  destruct (get_chain_spec ix' last n Hwf' Hpres' Hn) as (path' & Hl' & Hp' & Hs').
  assert (path' = path) as ->.
  { apply (root_path_unique (forest_of (backend ix'))); [exact Hp'|intros i x Hx; by apply Hf, Hp|congruence]. }
  destruct (Z.of_nat (length path) <? n); [done|]. destruct Hs as (os1 & [= <-] & _ & H1), Hs' as (os2 & -> & _ & H2). f_equal.
  by apply (same_objects ix ix' (drop (length path - Z.to_nat n) path)).
Qed.

(** ** The caches *)

Definition cap_entry_ok ix e : Prop := cap_remove_epoch e <= epoch_of ix /\
  (cap_remove_epoch e = epoch_of ix -> get_chain ix (cap_last_block_id e) (cap_hit_blocks e) = Ok (cap_chain e)).
Definition caches_ok c : Prop := cache_ok c /\ map_Forall (fun _ e => cap_entry_ok (the_index c) e) (capacity_cache c).

Lemma cap_entry_later ix ix' e : index_wf ix -> index_wf ix' -> later ix ix' -> cap_entry_ok ix e -> cap_entry_ok ix' e.
Proof.
  intros Hwf Hwf' Hl [Hle Hc]. pose proof Hl as (_ & He & _). split; [lia|]. intros Heq.
  apply (get_chain_later ix ix'); [done..|lia|]. apply Hc. lia.
Qed.

(** An action on the index that leads to a later state. *)
Definition moves {A} (m : IndexAct A) : Prop := forall ix, index_inv ix -> wp m (fun _ ix' => index_inv ix' /\ later ix ix') ix.

Lemma caches_later c ix' : caches_ok c -> index_inv ix' -> later (the_index c) ix' -> caches_ok (c <| the_index := ix' |>).
Proof.
  intros [[Hinv Hl] Hc] Hinv' Hlater. split; [split; [done|]|].
  - intros i e Hi. apply (entry_ok_later (the_index c)); [done|by apply (Hl i)].
  - intros i e Hi. apply (cap_entry_later (the_index c)); [apply Hinv|apply Hinv'|done|by apply (Hc i)].
Qed.
Lemma keep_on_index {A} (m : IndexAct A) : moves m -> keep caches_ok (on_index m).
Proof.
  intros Hm c Hc. apply wp_on_index. eapply wp_mono; [apply Hm, Hc|]. intros r ix' [Hinv' Hl]. by apply caches_later.
Qed.

Lemma moves_op {A} op (m : IndexAct A) : (forall ix, (m ix).2 = (run_op op ix).2) -> (forall ix, op_ok ix op) -> moves m.
Proof.
  intros Hm Hop ix Hinv. unfold wp. rewrite Hm. split; [by apply run_op_inv|by apply run_op_later].
Qed.
Lemma discard_state {A} (m : IndexAct A) ix : (discard m ix).2 = (m ix).2.
Proof. unfold discard, mbind, Act_bind. by destruct (m ix) as [[a|e] ix']. Qed.
Lemma moves_ask {A} (f : Index -> exc A) : moves (ask f).
Proof. intros ix Hinv. split; [done|apply later_refl]. Qed.
Lemma moves_read {A} (f : Index -> A) : moves (read f).
Proof. intros ix Hinv. split; [done|apply later_refl]. Qed.
Lemma moves_deref o : moves (deref o).
Proof. intros ix Hinv. unfold wp, deref. destruct (store ix !! o); (split; [done|apply later_refl]). Qed.
Lemma moves_freeable : moves freeable_block_ids.
Proof.
  intros ix Hinv. eapply wp_mono; [by apply freeable_block_ids_spec|]. cbv beta. intros r ix' (? & ? & ? & _). split; [done|]. by apply core_later.
Qed.

(** ** The counts of a hit *)

(** The blocks stay as they are, and the counted hit's chain is in its entry. *)
Definition counted_post q c (r : exc (Z * Z)) c' : Prop :=
  caches_ok c' /\ core (the_index c') = core (the_index c) /\ epochs (the_index c') = epochs (the_index c) /\
  match r with
  | Ok _ => prefix_cache_hit_block_count (prefix_hit q) <= 0 \/ exists e, capacity_cache c' !! seq_id q = Some e /\
      exists last, prefix_cache_hit_last_block_id (prefix_hit q) = Some last /\
        get_chain (the_index c') last (prefix_cache_hit_block_count (prefix_hit q)) = Ok (cap_chain e)
  | Raise _ => forall last os, prefix_cache_hit_last_block_id (prefix_hit q) = Some last ->
      get_chain (the_index c) last (prefix_cache_hit_block_count (prefix_hit q)) <> Ok os
  end.
(** The objects of a chain are in the store. *)
Lemma chain_counted ix last n os ok : index_wf ix -> get_chain ix last n = Ok os -> exists m, count_blocks ix ok os = Ok m.
Proof.
  intros Hwf Hget. destruct (get_chain_present _ _ _ _ Hwf Hget) as [Hpres Hn].
  destruct (get_chain_spec ix last n Hwf Hpres Hn) as (path & _ & _ & Hs). rewrite Hget in Hs.
  destruct (Z.of_nat (length path) <? n); [done|]. destruct Hs as (os1 & [= <-] & _ & Hf). clear Hget.
  induction Hf as [|o x os l (b & Hg) _ (m & IH)]; cbn; [by eexists|]. apply (get_block_Some ix x o b Hwf) in Hg as (_ & Hst & _).
  rewrite Hst, IH. by eexists.
Qed.
Lemma set_index_same c : c <| the_index := the_index c |> = c.
Proof. by destruct c. Qed.
Lemma hit_counts_ok q c : caches_ok c -> wp (prefix_hit_capacity_counts q false) (counted_post q c) c.
Proof.
  intros Hok. unfold prefix_hit_capacity_counts. cbv zeta. apply wp_if; intros Hpos; bool_to_prop.
  { apply wp_ret. split_and!; [done..|by left]. }
  destruct (prefix_cache_hit_last_block_id (prefix_hit q)) as [last|] eqn:Hlast; [|apply wp_throw; split_and!; [done..|]; intros last os Hl; congruence].
  apply wp_bind, wp_read. cbv beta iota.
  set (entry := match capacity_cache c !! seq_id q with Some e => _ | None => None end).
  assert (forall e, entry = Some e -> get_chain (the_index c) last (prefix_cache_hit_block_count (prefix_hit q)) = Ok (cap_chain e)) as Hentry.
  { unfold entry. destruct (capacity_cache c !! seq_id q) as [e|] eqn:He; [|done]. unfold same_chain.
    destruct (bool_decide_reflect (cap_last_block_id e = last)) as [<-|]; [|done].
    destruct (Z.eqb_spec (cap_hit_blocks e) (prefix_cache_hit_block_count (prefix_hit q))) as [<-|]; [|done].
    destruct (Z.eqb_spec (cap_remove_epoch e) (remove_epoch (epochs (the_index c)))) as [Hep|]; [|done]. intros e' [= <-].
    by apply (proj2 Hok _ _ He). }
  assert (forall os, get_chain (the_index c) last (prefix_cache_hit_block_count (prefix_hit q)) = Ok os ->
    wp (ids ← on_index freeable_block_ids;
        reclaimable ← on_index (ask (fun s => count_blocks s (fun b => bool_decide (stable_block_id b ∈ ids)) os));
        promotion ← mret 0;
        modify (fun c => c <| capacity_cache ::=
          <[seq_id q := mkCapacityEntry last (prefix_cache_hit_block_count (prefix_hit q)) (remove_epoch (epochs (the_index c)))
              (capacity_epoch (epochs (the_index c))) false os reclaimable promotion]> |>) ;;
        mret (reclaimable, promotion) : CachedAct (Z * Z)) (counted_post q c) c) as Hrun.
  { intros os Hch. 
    apply wp_bind, wp_on_index. eapply wp_mono; [apply freeable_block_ids_spec, Hok|]. cbv beta. intros r ix' (Hinv' & Hcore & He & ids & -> & _).
    pose proof (core_later _ _ Hcore He) as Hl. assert (caches_ok (c <| the_index := ix' |>)) as Hok' by (by apply caches_later).
    assert (get_chain ix' last (prefix_cache_hit_block_count (prefix_hit q)) = Ok os) as Hch'.
    { apply (get_chain_later (the_index c)); [apply Hok|apply Hinv'|done|unfold epoch_of; by rewrite He|done]. }
    apply wp_bind, wp_on_index, wp_ask. cbn. destruct (chain_counted ix' last _ os (fun b => bool_decide (stable_block_id b ∈ ids)) (proj1 Hinv') Hch') as (n & ->).
    apply wp_bind, wp_ret, wp_bind, wp_modify, wp_ret.
    assert (caches_ok (c <| the_index := ix' |> <| capacity_cache ::= <[seq_id q := mkCapacityEntry last (prefix_cache_hit_block_count (prefix_hit q))
      (remove_epoch (epochs ix')) (capacity_epoch (epochs ix')) false os n 0]> |>)) as Hok2.
    { split; [apply Hok'|]. cbn. apply map_Forall_insert_2; [|apply Hok']. split; cbn; [unfold epoch_of; lia|done]. }
    split_and!; [exact Hok2|exact Hcore|exact He|right]. exists (mkCapacityEntry last (prefix_cache_hit_block_count (prefix_hit q))
      (remove_epoch (epochs ix')) (capacity_epoch (epochs ix')) false os n 0). split; [apply lookup_insert_eq|]. exists last. split; [done|exact Hch']. }
  destruct entry as [e|] eqn:Hen.
  - specialize (Hentry e eq_refl). apply wp_if; intros _.
    + apply wp_ret. split_and!; [done..|right]. unfold entry in Hen. destruct (capacity_cache c !! seq_id q) as [e'|] eqn:He'; [|done].
      case_match; [|done]. injection Hen as ->. exists e. split; [done|]. by exists last.
    + apply wp_bind, wp_ret. by apply Hrun.
  - apply wp_bind, wp_on_index, wp_ask. rewrite (set_index_same c). destruct (get_chain _ _ _) as [os|e] eqn:Hch; [by apply Hrun|split_and!; [done..|]; intros last' os Hl; simplify_eq; rewrite Hch; done].
Qed.

(** ** Lookups *)

Lemma lookup_capacity_cache q u m : keep (fun c => capacity_cache c = m) (lookup_prefix_cache_hit q u).
Proof.
  assert (forall A (a : IndexAct A), keep (fun c => capacity_cache c = m) (on_index a)) as Hi.
  { intros A a c Hc. apply wp_on_index. unfold wp. exact Hc. }
  assert (forall ids, keep (fun c => capacity_cache c = m) (lookup_and_store q u ids)).
  { intros ids. unfold lookup_and_store. apply keep_bind; [apply Hi|intros res]. apply keep_bind; [apply keep_read|intros ep].
    apply keep_bind; [by apply keep_modify|intros _; apply keep_ret]. }
  unfold lookup_prefix_cache_hit. apply keep_bind; [apply keep_read|intros c]. cbv zeta.
  destruct (lookup_cache c !! seq_id q) as [e|]; [|cbn [andb]; apply keep_bind; auto].
  destruct (same_request e q u), (lookup_is_current (the_index c) e); cbn [andb]; first [apply keep_ret|apply keep_bind; auto using keep_ret].
Qed.
Lemma lookup_caches_ok q u c : caches_ok c ->
  wp (lookup_prefix_cache_hit q u) (fun _ c' => caches_ok c' /\ frame (the_index c) (the_index c')) c.
Proof.
  intros [Hok Hcap]. pose proof (lookup_prefix_cache_hit_spec q u c Hok) as Hspec. pose proof (lookup_capacity_cache q u (capacity_cache c) c eq_refl) as Hk.
  unfold wp in *. destruct (lookup_prefix_cache_hit q u c) as [r c']. destruct Hspec as (_ & Hf & Hok'). cbn in *. split; [|done]. split; [done|].
  rewrite Hk. intros i e Hi. apply (cap_entry_later (the_index c)); [apply Hok|apply Hok'|by apply frame_later|by apply (Hcap i)].
Qed.
End hits.
