(* ===== verification/StandardCache.v ===== *)
(** * The standard cache manager

    [engine/cache_manager/standard.py], [StandardCacheManager] with
    [prefix_cache_mixin.py], [PrefixCacheMixin]: who owns which KV slot.  Free
    slots form a stack, each resident request has a row that lists the slots of
    its tokens, and full blocks of a row are handed to the prefix index, whose
    blocks then own the slots and may outlive the request.

    Index tensors and arrays are lists of [Z]; the tensors that hold keys and
    values are not here.  Payloads are mutable objects shared by blocks, pending
    blocks and plans, and live in a store.  The manager is one without an
    offload controller, so polling does nothing and every block is on the
    device. *)

From stdpp Require Import base gmap list strings.
From Stdlib Require Import ZArith Lia.
From S2P Require Import Prelude PyDict PyBytes Sha256 RoutingMembership RadixTree RadixForest PrefixHash.
From S2P Require Import PrefixIndex PrefixFreeable SamplingParams Sequence PrefixLookup.

(** ** Ranges of row positions *)

Definition Range : Type := Z * Z.

Fixpoint insert_range (r : Range) (l : list Range) : list Range :=
  match l with
  | [] => [r]
  | q :: l' => if (r.1 <? q.1) || ((r.1 =? q.1) && (r.2 <=? q.2)) then r :: l else q :: insert_range r l'
  end.
Fixpoint merge_sorted (last : Range) (l : list Range) : list Range :=
  match l with
  | [] => [last]
  | (s, e) :: l' =>
      if last.2 <? s then last :: merge_sorted (s, e) l' else merge_sorted (last.1, Z.max last.2 e) l'
  end.
Definition merge_ranges (l : list Range) : list Range :=
  match foldr insert_range [] (List.filter (fun r => r.1 <? r.2) l) with
  | [] => []
  | r :: l' => merge_sorted r l'
  end.

Fixpoint complement_from (cur stop : Z) (l : list Range) : list Range :=
  match l with
  | [] => if cur <? stop then [(cur, stop)] else []
  | (s, e) :: l' => (if cur <? s then [(cur, s)] else []) ++ complement_from (Z.max cur e) stop l'
  end.
Definition complement_ranges (start stop : Z) (l : list Range) : list Range :=
  complement_from start stop (merge_ranges l).

(** ** Index tensors *)

(** [t[a:b] = v] for [0 <= a]: the slice is clipped to the tensor, and a value of
    one element is broadcast over it. *)
Definition tensor_assign (t : list Z) (a b : Z) (v : list Z) : exc (list Z) :=
  let n := Z.of_nat (length t) in
  let a' := Z.min a n in
  let b' := Z.max a' (Z.min b n) in
  let put v := Ok (take (Z.to_nat a') t ++ v ++ drop (Z.to_nat b') t) in
  if Z.of_nat (length v) =? b' - a' then put v
  else
    match v with
    | [x] => put (replicate (Z.to_nat (b' - a')) x)
    | _ => Raise (RuntimeError "The expanded size of the tensor must match the existing size")
    end.
(** [t[i]] and [t[i] = x] of an array, for [0 <= i]. *)
Definition array_get (t : list Z) (i : Z) : exc Z :=
  match t !! Z.to_nat i with Some x => Ok x | None => Raise (IndexError "index out of bounds") end.
Definition array_set (t : list Z) (i x : Z) : list Z := <[Z.to_nat i := x]> t.

(** ** Data *)

Record StandardPrefixBlockPayload := mkPayload {
  token_slots : option (list Z);
  block_start : Z;
  block_end : Z;
  host_block_index : option Z;
  retained_offsets : option (list Z);
}.
#[export] Instance eta_payload : Eta StandardPrefixBlockPayload := fun r =>
  mkPayload (token_slots r) (block_start r) (block_end r) (host_block_index r) (retained_offsets r).
Definition resident_tokens (p : StandardPrefixBlockPayload) (size : Z) : Z :=
  match retained_offsets p with None => size | Some l => Z.of_nat (length l) end.

Record PrefixRuntimeState := mkPrefixState {
  state_parent_block_id : option bytes;
  next_logical_block_idx : Z;
  pending_tokens : list Z;
  pending_slots : list (list Z);
}.
#[export] Instance eta_prefix_state : Eta PrefixRuntimeState := fun r =>
  mkPrefixState (state_parent_block_id r) (next_logical_block_idx r) (pending_tokens r) (pending_slots r).

Record PendingPrefixBlock := mkPending {
  pending_block_id : bytes;
  pending_parent_id : option bytes;
  pending_logical_idx : Z;
  pending_payload : ObjRef;
  pending_block_slots : list Z;
  pending_token_ids : list Z;
}.

Record LayerBatchStates := mkBatchStates {
  slot_mapping : list Z;
  context_lens : list Z;
  max_context_len : Z;
  req_indices : list Z;
}.
(** The tensors of a step: [cu_seqlens_q] is [None] for a decode step. *)
Record StepInput := mkStepInput {
  input_ids : list Z;
  positions : list Z;
  cu_seqlens_q : option (list Z);
}.

Record StandardConfig := mkStandardConfig {
  num_kvcache_slots : Z;
  max_model_len : Z;
  max_buffer_rows : Z;
  enable_prefix_caching : bool;
  std_block_size : Z;
  std_fingerprint : bytes;
  prefix_cache_max_blocks : option Z;
  std_sparse_method : string;
  std_max_num_batched_tokens : Z;
  std_max_decoding_seqs : Z;
}.

Record StandardCacheManager := mkStandard {
  std_config : StandardConfig;
  free_slots_stack : list Z;
  num_free_slots : Z;
  buffer_req_to_token_slots : list (list Z);
  seq_id_to_row : gmap Z Z;
  free_rows : list Z;
  row_seq_lens : list Z;
  row_logical_lens : list Z;
  layer_batch_state : LayerBatchStates;
  prefix_cache : option (CachedIndex RadixTreeBackend);
  payloads : gmap nat StandardPrefixBlockPayload;
  seq_id_to_prefix_blocks : gmap Z (list ObjRef);
  seq_id_to_cached_ranges : gmap Z (list Range);
  seq_id_to_materialized_blocks : gmap Z (list ObjRef);
  prefix_runtime_states : gmap Z PrefixRuntimeState;
  pending_prefix_blocks : gmap Z (list PendingPrefixBlock);
  snapshot_depth : Z;
  snapshot_freeable : option (gset bytes);
  snapshot_reclaimable : option Z;
}.
#[export] Instance eta_standard : Eta StandardCacheManager := fun r =>
  mkStandard (std_config r) (free_slots_stack r) (num_free_slots r) (buffer_req_to_token_slots r)
    (seq_id_to_row r) (free_rows r) (row_seq_lens r) (row_logical_lens r) (layer_batch_state r)
    (prefix_cache r) (payloads r) (seq_id_to_prefix_blocks r) (seq_id_to_cached_ranges r)
    (seq_id_to_materialized_blocks r) (prefix_runtime_states r) (pending_prefix_blocks r)
    (snapshot_depth r) (snapshot_freeable r) (snapshot_reclaimable r).

#[local] Abbreviation Index := (RadixPrefixIndex RadixTreeBackend).
#[local] Abbreviation MgrAct := (Act PyExn StandardCacheManager).

Section manager.
Context `{Digest}.
Implicit Types (s : StandardCacheManager) (q : Sequence) (sid r : Z) (o : ObjRef).

(** [torch.arange(n)] and [range(n)] *)
Definition arange (n : Z) : list Z := Z.of_nat <$> seq 0 (Z.to_nat n).

(** [__init__]; [None] where prefix caching is off. *)
Definition new_prefix_cache (cf : StandardConfig) : exc (option (CachedIndex RadixTreeBackend)) :=
  if enable_prefix_caching cf then
    ix ← new_index (std_block_size cf) (std_fingerprint cf) (prefix_cache_max_blocks cf);
    Ok (Some (mkCachedIndex ix ∅ ∅))
  else Ok None.
Definition new_standard (cf : StandardConfig) : exc StandardCacheManager :=
  ix ← new_prefix_cache cf;
  let rows := Z.to_nat (max_buffer_rows cf) in
  Ok (mkStandard cf (arange (num_kvcache_slots cf)) (num_kvcache_slots cf)
        (replicate rows (replicate (Z.to_nat (max_model_len cf)) 0)) ∅ (arange (max_buffer_rows cf))
        (replicate rows 0) (replicate rows 0) (mkBatchStates [] [] 0 []) ix ∅ ∅ ∅ ∅ ∅ ∅ 0 None None).

(** ** Access *)

Definition on_cached {A} (m : Act PyExn (CachedIndex RadixTreeBackend) A) : MgrAct A := fun s =>
  match prefix_cache s with
  | None => (Raise (AttributeError "prefix_cache"), s)
  | Some c => let '(r, c') := m c in (r, s <| prefix_cache := Some c' |>)
  end.
Definition on_prefix {A} (m : Act PyExn Index A) : MgrAct A := on_cached (on_index m).
(** [not self.enable_prefix_caching or self.prefix_cache is None], negated. *)
Definition caching s : bool := enable_prefix_caching (std_config s) && bool_decide (is_Some (prefix_cache s)).
Definition require_prefix_cache : MgrAct unit :=
  s ← read id;
  guard_not (bool_decide (prefix_cache s = None)) (RuntimeError "prefix cache is not enabled for this cache manager.").

Definition invalid_payload : PyExn := RuntimeError "Standard prefix cache block has an invalid payload.".
(** [block.payload], which must be a [StandardPrefixBlockPayload]. *)
Definition payload_of (e : PyExn) (b : PrefixCacheBlock) : MgrAct StandardPrefixBlockPayload := fun s =>
  match payloads s !! payload b with Some p => (Ok p, s) | None => (Raise e, s) end.
Definition write_payload o (f : StandardPrefixBlockPayload -> StandardPrefixBlockPayload) : MgrAct unit :=
  modify (fun s => s <| payloads ::= alter f o |>).

Definition row_len r : MgrAct Z := s ← read id; lift (array_get (row_seq_lens s) r).
(** [self.buffer_req_to_token_slots[row, a:b] = v] *)
Definition write_row r (a b : Z) (v : list Z) : MgrAct unit :=
  s ← read id;
  match buffer_req_to_token_slots s !! Z.to_nat r with
  | None => throw (IndexError "index out of bounds")
  | Some row =>
      row' ← lift (tensor_assign row a b v);
      modify (fun s => s <| buffer_req_to_token_slots ::= <[Z.to_nat r := row']> |>)
  end.
(** [self.buffer_req_to_token_slots[row, a:b]] *)
Definition read_row r (a b : Z) : MgrAct (list Z) :=
  s ← read id;
  match buffer_req_to_token_slots s !! Z.to_nat r with
  | None => throw (IndexError "index out of bounds")
  | Some row => mret (slice a b row)
  end.

(** ** The free stack and the rows *)

(** [_return_prefix_device_slots] *)
Definition return_slots (slots : list Z) : MgrAct unit :=
  s ← read id;
  let count := Z.of_nat (length slots) in
  let ptr := num_free_slots s in
  stack ← lift (tensor_assign (free_slots_stack s) ptr (ptr + count) slots);
  modify (fun s => s <| free_slots_stack := stack |> <| num_free_slots := ptr + count |>).

Definition pop_slots (count : Z) : MgrAct (list Z) :=
  s ← read id;
  let ptr := num_free_slots s in
  modify (fun s => s <| num_free_slots := ptr - count |>) ;;
  mret (slice (ptr - count) ptr (free_slots_stack s)).

Definition get_free_row sid : MgrAct Z :=
  s ← read id;
  match seq_id_to_row s !! sid with
  | Some r => mret r
  | None =>
      match free_rows s with
      | [] => throw (RuntimeError "No free rows in cache manager buffer!")
      | r :: rest => modify (fun s => s <| free_rows := rest |> <| seq_id_to_row ::= <[sid := r]> |>) ;; mret r
      end
  end.

(** [self.row_seq_lens[row] += n] and the logical length with it *)
Definition grow_row r (n : Z) : MgrAct unit :=
  s ← read id;
  a ← lift (array_get (row_seq_lens s) r);
  b ← lift (array_get (row_logical_lens s) r);
  modify (fun s => s <| row_seq_lens ::= fun t => array_set t r (a + n) |>
                     <| row_logical_lens ::= fun t => array_set t r (b + n) |>).

(** ** Prefix blocks leaving the device *)

Definition free_device_prefix_block o : MgrAct unit :=
  b ← on_prefix (deref o);
  p ← payload_of (RuntimeError "Standard prefix cache block is missing its device payload.") b;
  s ← read id;
  let bad := RuntimeError "Standard prefix cache block has invalid device slots" in
  match token_slots p with
  | None => throw bad
  | Some slots =>
      guard_not (negb (Z.of_nat (length slots) =? resident_tokens p (std_block_size (std_config s)))) bad ;;
      return_slots slots ;;
      write_payload (payload b) (fun p => p <| token_slots := None |>)
  end.

(** The loop of [_free_prefix_cache_blocks]; returns whether some block has a
    host payload. *)
Fixpoint free_blocks_loop (os : list ObjRef) (host : bool) : MgrAct bool :=
  match os with
  | [] => mret host
  | o :: os' =>
      b ← on_prefix (deref o);
      payload_of (RuntimeError "Standard prefix cache block is missing token slots.") b ;;
      when (device_present (residency b)) (free_device_prefix_block o) ;;
      free_blocks_loop os' (host || host_present (residency b))
  end.
Definition free_prefix_cache_blocks (os : list ObjRef) : MgrAct unit :=
  host ← free_blocks_loop os false;
  guard_not host (RuntimeError "Prefix blocks have host payloads but no offload controller is active.").

(** [_block_resident_tokens_or_full] *)
Definition block_resident_tokens s (b : PrefixCacheBlock) : Z :=
  match payloads s !! payload b with
  | Some p => resident_tokens p (std_block_size (std_config s))
  | None => std_block_size (std_config s)
  end.

Definition evict_prefix_cache_until_free (needed : Z) : MgrAct unit :=
  s ← read id;
  when (caching s && (num_free_slots s <? needed))
    (evicted ← on_prefix (evict_until_weight (block_resident_tokens s) (needed - num_free_slots s));
     free_prefix_cache_blocks evicted).

Definition evict_prefix_cache_for_insert (needed : Z) : MgrAct unit :=
  s ← read id;
  when (caching s)
    (evicted ← on_prefix (ensure_insert_capacity needed);
     free_prefix_cache_blocks evicted).

(** ** References *)

Definition release_prefix_blocks (os : list ObjRef) : MgrAct unit :=
  s ← read id;
  guard_not (bool_decide (prefix_cache s = None) && negb (bool_decide (os = [])))
    (RuntimeError "Cannot release prefix blocks without a prefix cache.") ;;
  for_each os (fun o => on_prefix (release_block_ref o "Prefix cache block ref_count became negative.")).

(** The ids of the blocks a request holds. *)
Fixpoint held_ids (ix : Index) (os : list ObjRef) : exc (list bytes) :=
  match os with
  | [] => Ok []
  | o :: os' =>
      match store ix !! o with
      | None => Raise (AttributeError "block")
      | Some b => rest ← held_ids ix os'; Ok (stable_block_id b :: rest)
      end
  end.
Definition held_blocks s sid : list ObjRef :=
  default [] (seq_id_to_prefix_blocks s !! sid) ++ default [] (seq_id_to_materialized_blocks s !! sid).

Definition hold_materialized_prefix_block_ref sid o : MgrAct unit :=
  s ← read id;
  b ← on_prefix (deref o);
  ids ← on_prefix (ask (fun ix => held_ids ix (held_blocks s sid)));
  when (negb (bool_decide (stable_block_id b ∈ ids)))
    (guard_not (bool_decide (prefix_cache s = None)) (RuntimeError "Cannot hold a prefix block without a prefix cache.") ;;
     on_prefix (acquire_block_ref o) ;;
     modify (fun s => s <| seq_id_to_materialized_blocks ::= fun m => <[sid := default [] (m !! sid) ++ [o]]> m |>)).

(** ** Allocation *)

Definition out_of_slots : PyExn := AssertionError "Out of KV cache slots".

(** [_allocate] *)
Definition allocate sid (size : Z) : MgrAct (list Z) :=
  evict_prefix_cache_until_free size ;;
  s ← read id;
  guard_not (num_free_slots s <? size) out_of_slots ;;
  r ← get_free_row sid;
  cur ← row_len r;
  slots ← pop_slots size;
  write_row r cur (cur + size) slots ;;
  grow_row r size ;;
  mret slots.

Fixpoint get_free_rows (sids : list Z) : MgrAct (list Z) :=
  match sids with
  | [] => mret []
  | sid :: sids' => r ← get_free_row sid; rs ← get_free_rows sids'; mret (r :: rs)
  end.
Fixpoint row_lens (rs : list Z) : MgrAct (list Z) :=
  match rs with
  | [] => mret []
  | r :: rs' => n ← row_len r; ns ← row_lens rs'; mret (n :: ns)
  end.
(** [self.buffer_req_to_token_slots[rows, cols] = slots], which checks every
    index before it writes. *)
Definition in_table s (rc : Z * Z) : bool :=
  match buffer_req_to_token_slots s !! Z.to_nat rc.1 with
  | Some row => rc.2 <? Z.of_nat (length row)
  | None => false
  end.
Definition put_cell (t : list (list Z)) (r c x : Z) : list (list Z) := alter (fun row => array_set row c x) (Z.to_nat r) t.
Definition scatter (rows cols slots : list Z) : MgrAct unit :=
  s ← read id;
  guard_not (negb (forallb (in_table s) (zip rows cols))) (IndexError "index out of bounds") ;;
  modify (fun s => s <| buffer_req_to_token_slots ::= fun t =>
    foldl (fun t x => put_cell t x.1.1 x.1.2 x.2) t (zip (zip rows cols) slots) |>).

(** [self.row_seq_lens[rows] += 1], whose writes all start from the old values. *)
Definition bump_rows (rows : list Z) (t : list Z) : list Z :=
  foldl (fun acc r => array_set acc r (default 0 (t !! Z.to_nat r) + 1)) t rows.

(** [_allocate_batch] with [size = 1] *)
Definition allocate_batch (sids : list Z) : MgrAct (list Z) :=
  let n := Z.of_nat (length sids) in
  evict_prefix_cache_until_free n ;;
  s ← read id;
  guard_not (num_free_slots s <? n) out_of_slots ;;
  rows ← get_free_rows sids;
  cols ← row_lens rows;
  slots ← pop_slots n;
  scatter rows cols slots ;;
  modify (fun s => s <| row_seq_lens ::= bump_rows rows |> <| row_logical_lens ::= bump_rows rows |>) ;;
  mret slots.

(** ** Attaching a prefix hit *)

(** The checks on the blocks of the chain, before anything changes. *)
Fixpoint check_attach_chain (os : list ObjRef) : MgrAct unit :=
  match os with
  | [] => mret tt
  | o :: os' =>
      b ← on_prefix (deref o);
      p ← payload_of (RuntimeError "Invalid Standard prefix cache payload") b;
      lift (residency_validate (residency b)) ;;
      guard_not (negb (device_present (residency b)))
        (RuntimeError "Prefix lookup returned a non-device block that cannot be promoted") ;;
      s ← read id;
      guard_not (match token_slots p with
                 | None => true
                 | Some slots => negb (Z.of_nat (length slots) =? resident_tokens p (std_block_size (std_config s)))
                 end) (RuntimeError "Invalid Standard prefix cache block slots") ;;
      guard_not (is_transfer (residency b) H2D) (AssertionError "") ;;
      check_attach_chain os'
  end.

(** The loop that copies the blocks' slots into the row. *)
Fixpoint attach_blocks sid r (cursor : Z) (os : list ObjRef) : MgrAct Z :=
  match os with
  | [] => mret cursor
  | o :: os' =>
      b ← on_prefix (deref o);
      p ← payload_of (AssertionError "") b;
      match token_slots p with
      | None => throw (RuntimeError "Prefix attach reached a block without device slots after promotion")
      | Some slots =>
          let count := Z.of_nat (length slots) in
          if count =? 0 then attach_blocks sid r cursor os'
          else
            write_row r cursor (cursor + count) slots ;;
            modify (fun s => s <| seq_id_to_cached_ranges ::= fun m =>
              <[sid := default [] (m !! sid) ++ [(cursor, cursor + count)]]> m |>) ;;
            attach_blocks sid r (cursor + count) os'
      end
  end.

Definition attach_prefix_cache_if_needed q : MgrAct unit :=
  s ← read id;
  let sid := seq_id q in
  let hit := prefix_hit q in
  let hit_len := prefix_cache_hit_len hit in
  let bs := std_block_size (std_config s) in
  if negb (caching s) || (hit_len <=? 0) || bool_decide (is_Some (seq_id_to_prefix_blocks s !! sid)) then mret tt
  else
    match prefix_cache_hit_last_block_id hit with
    | None => throw (RuntimeError "prefix hit length but no last block id.")
    | Some last =>
        guard_not (negb (hit_len mod bs =? 0)) (RuntimeError "prefix hit length is not block aligned") ;;
        chain ← on_prefix (ask (fun ix => get_chain ix last (prefix_cache_hit_block_count hit)));
        guard_not (negb (Z.of_nat (length chain) * bs =? hit_len))
          (RuntimeError "Prefix cache chain length does not match scheduler metadata") ;;
        check_attach_chain chain ;;
        match seq_id_to_row s !! sid with
        | Some r => n ← row_len r; guard_not (negb (n =? 0)) (RuntimeError "Cannot attach prefix cache to non-empty row")
        | None => guard_not (bool_decide (free_rows s = [])) (RuntimeError "No free rows in cache manager buffer!")
        end ;;
        for_each chain (fun o => on_prefix (acquire_block_ref o)) ;;
        r ← get_free_row sid;
        modify (fun s => s <| seq_id_to_cached_ranges ::= fun m => <[sid := default [] (m !! sid)]> m |>) ;;
        cursor ← attach_blocks sid r 0 chain;
        modify (fun s => s <| row_seq_lens ::= fun t => array_set t r cursor |>
                           <| row_logical_lens ::= fun t => array_set t r hit_len |>
                           <| seq_id_to_prefix_blocks ::= <[sid := chain]> |>) ;;
        on_prefix (touch_chain chain)
    end.

(** ** Recording full blocks *)

(** [_make_prefix_block_payload]: a new payload object. *)
Definition make_prefix_block_payload (slots : list Z) : MgrAct ObjRef :=
  s ← read id;
  let o := fresh (dom (payloads s)) in
  modify (fun s => s <| payloads ::= <[o := mkPayload (Some slots) 0 (Z.of_nat (length slots)) None None]> |>) ;;
  mret o.

Definition set_state sid (st : PrefixRuntimeState) : MgrAct unit :=
  modify (fun s => s <| prefix_runtime_states ::= <[sid := st]> |>).

(** [add_block] *)
Definition add_block sid (toks slots : list Z) : MgrAct unit :=
  s ← read id;
  match prefix_runtime_states s !! sid with
  | None => throw (KeyError "")
  | Some st =>
      id ← on_prefix (ask (fun ix => stable_block_id_of (block_size (PrefixIndex.config ix)) (fingerprint (PrefixIndex.config ix)) toks
                                       (state_parent_block_id st)));
      o ← make_prefix_block_payload slots;
      let pending := mkPending id (state_parent_block_id st) (next_logical_block_idx st) o slots toks in
      modify (fun s => s <| pending_prefix_blocks ::= fun m => <[sid := default [] (m !! sid) ++ [pending]]> m |>) ;;
      set_state sid (st <| state_parent_block_id := Some id |> <| next_logical_block_idx ::= Z.succ |>)
  end.

(** [for block_start in range(offset, end_full, block_size)], [n] blocks. *)
Fixpoint add_full_blocks sid (n : nat) (bs : Z) (toks slots : list Z) : MgrAct unit :=
  match n with
  | O => mret tt
  | S n' =>
      add_block sid (take (Z.to_nat bs) toks) (take (Z.to_nat bs) slots) ;;
      add_full_blocks sid n' bs (drop (Z.to_nat bs) toks) (drop (Z.to_nat bs) slots)
  end.

(** The blocks that the tokens complete on their own and what is left over. *)
Definition record_rest sid (bs : Z) (toks slots : list Z) : MgrAct unit :=
  let n := Z.of_nat (length toks) / bs in
  add_full_blocks sid (Z.to_nat n) bs toks slots ;;
  let used := Z.to_nat (n * bs) in
  modify (fun s => s <| prefix_runtime_states ::= alter (fun st =>
    st <| pending_tokens := drop used toks |>
       <| pending_slots := match drop used toks with [] => [] | _ => [drop used slots] end |>) sid |>).

Definition record_prefix_materialization q (toks slots : list Z) : MgrAct unit :=
  s ← read id;
  let sid := seq_id q in
  let bs := std_block_size (std_config s) in
  if bool_decide (is_Some (multimodal_digest (tags q))) || negb (caching s) then mret tt
  else
    guard_not (negb (Z.of_nat (length toks) =? Z.of_nat (length slots)))
      (RuntimeError "Prefix materialization token/slot mismatch") ;;
    if bool_decide (toks = []) then mret tt
    else
      let st := default (mkPrefixState (prefix_cache_hit_last_block_id (prefix_hit q))
                           (prefix_cache_hit_block_count (prefix_hit q)) [] []) (prefix_runtime_states s !! sid) in
      set_state sid st ;;
      modify (fun s => s <| pending_prefix_blocks ::= fun m => <[sid := default [] (m !! sid)]> m |>) ;;
      if bool_decide (pending_tokens st = []) then record_rest sid bs toks slots
      else
        let n := Z.to_nat (Z.min (bs - Z.of_nat (length (pending_tokens st))) (Z.of_nat (length toks))) in
        let st' := st <| pending_tokens ::= fun l => l ++ take n toks |>
                      <| pending_slots ::= fun l => l ++ [take n slots] |> in
        set_state sid st' ;;
        if negb (Z.of_nat (length (pending_tokens st')) =? bs) then mret tt
        else
          add_block sid (pending_tokens st') (concat (pending_slots st')) ;;
          modify (fun s => s <| prefix_runtime_states ::= alter (fun st =>
            st <| pending_tokens := [] |> <| pending_slots := [] |>) sid |>) ;;
          record_rest sid bs (drop n toks) (drop n slots).

(** ** Handing full blocks to the index *)

(** [sum(self._standard_payload(block).resident_tokens(...) for block in attached)] *)
Fixpoint attached_resident (os : list ObjRef) : MgrAct Z :=
  match os with
  | [] => mret 0
  | o :: os' =>
      b ← on_prefix (deref o);
      p ← payload_of invalid_payload b;
      s ← read id;
      rest ← attached_resident os';
      mret (resident_tokens p (std_block_size (std_config s)) + rest)
  end.

Definition mark_materialized_prefix_block q o : MgrAct unit :=
  s ← read id;
  let sid := seq_id q in
  modify (fun s => s <| seq_id_to_cached_ranges ::= fun m => <[sid := default [] (m !! sid)]> m |>) ;;
  attached ← attached_resident (default [] (seq_id_to_prefix_blocks s !! sid));
  b ← on_prefix (deref o);
  let bs := std_block_size (std_config s) in
  let start := attached + logical_block_idx b * bs - prefix_cache_hit_len (prefix_hit q) in
  guard_not (start <? 0) (RuntimeError "materialized prefix block resolved to a negative physical row offset") ;;
  modify (fun s => s <| seq_id_to_cached_ranges ::= fun m =>
    <[sid := default [] (m !! sid) ++ [(start, start + bs)]]> m |>).

(** [PrefixCacheBlock(...)]: a new object, referenced once, on the device. *)
Definition new_block (bs : Z) (p : PendingPrefixBlock) : PrefixCacheBlock :=
  mkBlock (pending_block_id p) (pending_parent_id p) bs (pending_logical_idx p) (pending_payload p)
    (pending_token_ids p) 1 0 0 (mkResidency true false None) None.
Definition construct_block (b : PrefixCacheBlock) : Act PyExn Index ObjRef := fun ix =>
  let o := fresh (dom (store ix)) in (Ok o, ix <| store ::= <[o := b]> |>).

(** One pending block of the [try] body. *)
Definition materialize_pending q (p : PendingPrefixBlock) : MgrAct unit :=
  s ← read id;
  known ← on_prefix (read (fun ix => has_block ix (pending_block_id p)));
  when (negb known) (evict_prefix_cache_for_insert 1) ;;
  o ← on_prefix (construct_block (new_block (std_block_size (std_config s)) p));
  inserted ← on_prefix (insert_block o);
  if negb (bool_decide (inserted = o)) then hold_materialized_prefix_block_ref (seq_id q) inserted
  else
    modify (fun s => s <| seq_id_to_materialized_blocks ::= fun m =>
      <[seq_id q := default [] (m !! seq_id q) ++ [inserted]]> m |>) ;;
    mark_materialized_prefix_block q inserted.

(** The ids in the index among the parents and ids of the pending blocks; their
    order, a Python set's, does not matter. *)
Definition protected_block_ids (ix : Index) (ps : list PendingPrefixBlock) : list bytes :=
  elements (list_to_set (C := gset bytes)
    (List.filter (has_block ix) (ps ≫= fun p => option_list (pending_parent_id p) ++ [pending_block_id p]))).
Fixpoint acquire_protected (ids : list bytes) : MgrAct (list ObjRef) :=
  match ids with
  | [] => mret []
  | id :: ids' =>
      found ← on_prefix (read (fun ix => get_block ix id));
      match (found : option (ObjRef * PrefixCacheBlock)) with
      | None => acquire_protected ids'
      | Some (o, _) => on_prefix (acquire_block_ref o) ;; rest ← acquire_protected ids'; mret (o :: rest)
      end
  end.

Definition materialize_seq q : MgrAct unit :=
  s ← read id;
  let sid := seq_id q in
  let pending := default [] (pending_prefix_blocks s !! sid) in
  modify (fun s => s <| pending_prefix_blocks ::= delete sid |>) ;;
  if bool_decide (pending = []) then mret tt
  else
    modify (fun s => s <| seq_id_to_materialized_blocks ::= fun m => <[sid := default [] (m !! sid)]> m |>) ;;
    ids ← on_prefix (read (fun ix => protected_block_ids ix pending));
    protected ← acquire_protected ids;
    finally (for_each pending (materialize_pending q)) (release_prefix_blocks protected).

(** [on_forward_end] *)
Definition on_forward_end (qs : list Sequence) : MgrAct unit :=
  s ← read id;
  when (caching s) (for_each qs materialize_seq).

(** ** A request leaving *)

(** The loop of [free_seq] over the positions no block owns. *)
Definition free_ranges r (l : list Range) : MgrAct unit :=
  for_each l (fun ab => slots ← read_row r ab.1 ab.2; return_slots slots).

Definition clear_row r : MgrAct unit :=
  modify (fun s => s <| buffer_req_to_token_slots ::= alter (fun row => replicate (length row) 0) (Z.to_nat r) |>
                     <| row_seq_lens ::= fun t => array_set t r 0 |>
                     <| row_logical_lens ::= fun t => array_set t r 0 |>).

Definition free_seq sid : MgrAct unit :=
  s ← read id;
  match seq_id_to_row s !! sid with
  | None => throw (ValueError "")
  | Some r =>
      modify (fun s => s <| seq_id_to_row ::= delete sid |>) ;;
      cur ← row_len r;
      let cached := merge_ranges (default [] (seq_id_to_cached_ranges s !! sid)) in
      modify (fun s => s <| seq_id_to_cached_ranges ::= delete sid |>) ;;
      guard_not (cur <? 0) (RuntimeError "KV cache row length became negative") ;;
      free_ranges r (complement_ranges 0 cur cached) ;;
      let released := held_blocks s sid in
      modify (fun s => s <| seq_id_to_prefix_blocks ::= delete sid |> <| seq_id_to_materialized_blocks ::= delete sid |>) ;;
      release_prefix_blocks released ;;
      modify (fun s => s <| prefix_runtime_states ::= delete sid |> <| pending_prefix_blocks ::= delete sid |>) ;;
      clear_row r ;;
      modify (fun s => s <| free_rows ::= fun l => l ++ [r] |>)
  end.

(** ** Steps *)

(** [sum(seq.current_chunk_size for seq in seqs)] and each chunk's size. *)
Definition chunk_of q : exc Z :=
  match current_chunk_size q with
  | Some c => Ok c
  | None => Raise (TypeError "unsupported operand type(s) for +: 'int' and 'NoneType'")
  end.
(** [a[i:i+n] = l] for a NumPy array of ints. *)
Definition np_fill (n : Z) (l : list Z) : exc (list Z) :=
  if Z.of_nat (length l) =? n then Ok l
  else match l with
       | [x] => Ok (replicate (Z.to_nat n) x)
       | _ => Raise (ValueError "could not broadcast input array")
       end.

Record PrefillRows := mkPrefillRows {
  pf_input_ids : list Z;
  pf_positions : list Z;
  pf_slots : list Z;
  pf_context_lens : list Z;
  pf_rows : list Z;
  pf_cu_seqlens : list Z;
}.

(** One iteration of the loop of [_prepare_prefill]. *)
Definition prefill_one q (acc : PrefillRows) : MgrAct PrefillRows :=
  s ← read id;
  let sid := seq_id q in
  chunk ← lift (chunk_of q);
  let start_idx := num_prefilled_tokens q in
  resident_start ← match seq_id_to_row s !! sid with
                   | None => mret 0
                   | Some r =>
                       n ← lift (array_get (row_logical_lens s) r);
                       guard_not (negb (n =? start_idx)) (ValueError "KV cache logical row length mismatch in prefill") ;;
                       row_len r
                   end;
  slots ← allocate sid chunk;
  r ← get_free_row sid;
  mapped ← read_row r resident_start (resident_start + chunk);
  guard_not (negb (Z.of_nat (length mapped) =? chunk)) (RuntimeError "The expanded size of the tensor must match the existing size") ;;
  let toks := if chunk <? Z.of_nat (length (token_ids q)) then slice start_idx (start_idx + chunk) (token_ids q) else token_ids q in
  ids ← lift (np_fill chunk toks);
  record_prefix_materialization q toks slots ;;
  mret (mkPrefillRows (pf_input_ids acc ++ ids)
          (pf_positions acc ++ ((fun i => start_idx + i) <$> arange chunk))
          (pf_slots acc ++ mapped) (pf_context_lens acc ++ [resident_start + chunk]) (pf_rows acc ++ [r])
          (pf_cu_seqlens acc ++ [default 0 (last (pf_cu_seqlens acc)) + chunk])).
Fixpoint prefill_all (qs : list Sequence) (acc : PrefillRows) : MgrAct PrefillRows :=
  match qs with [] => mret acc | q :: qs' => acc' ← prefill_one q acc; prefill_all qs' acc' end.

Definition prepare_prefill (qs : list Sequence) : MgrAct StepInput :=
  for_each qs attach_prefix_cache_if_needed ;;
  for_each qs (fun q => lift (chunk_of q) ;; mret tt) ;;
  acc ← prefill_all qs (mkPrefillRows [] [] [] [] [] [0]);
  modify (fun s => s <| layer_batch_state := mkBatchStates (pf_slots acc) (pf_context_lens acc)
    (foldr Z.max 0 (pf_context_lens acc)) (pf_rows acc) |>) ;;
  mret (mkStepInput (pf_input_ids acc) (pf_positions acc) (Some (pf_cu_seqlens acc))).

Fixpoint decode_tokens (qs : list Sequence) : exc (list Z) :=
  match qs with [] => Ok [] | q :: qs' => t ← decode_input_token q; ts ← decode_tokens qs'; Ok (t :: ts) end.
Fixpoint record_decoded (l : list (Sequence * Z)) : MgrAct unit :=
  match l with
  | [] => mret tt
  | (q, slot) :: l' => t ← lift (decode_input_token q); record_prefix_materialization q [t] [slot] ;; record_decoded l'
  end.
Fixpoint known_rows s (sids : list Z) : exc (list Z) :=
  match sids with
  | [] => Ok []
  | sid :: sids' =>
      match seq_id_to_row s !! sid with
      | None => Raise (KeyError "")
      | Some r => rs ← known_rows s sids'; Ok (r :: rs)
      end
  end.

Definition prepare_decode (qs : list Sequence) : MgrAct StepInput :=
  toks ← lift (decode_tokens qs);
  slots ← allocate_batch (seq_id <$> qs);
  s ← read id;
  rows ← lift (known_rows s (seq_id <$> qs));
  record_decoded (zip qs slots) ;;
  lens ← row_lens rows;
  modify (fun s => s <| layer_batch_state := mkBatchStates slots lens (foldr Z.max 0 lens) rows |>) ;;
  mret (mkStepInput toks (decode_input_position <$> qs) None).

(** [CacheManager.prepare_step] *)
Definition prepare_step (qs : list Sequence) (is_prefill : bool) : MgrAct StepInput :=
  if is_prefill then prepare_prefill qs else prepare_decode qs.
End manager.
