(* ===== verification/StandardOracle.v ===== *)
(** * The standard cache manager: what it tells the scheduler

    [engine/cache_manager/standard.py] with the defaults of [base.py]: the free
    slots the scheduler may count on, what a prompt costs, the refresh of a
    prefix hit, and the snapshot that keeps one capacity view for a whole round.
    Without an offload controller a reclaimable block is one that repeated
    eviction can remove. *)

From stdpp Require Import base gmap list strings.
From Stdlib Require Import ZArith Lia.
From S2P Require Import Prelude PyDict PyBytes Sha256 RoutingMembership RadixTree RadixForest PrefixHash.
From S2P Require Import PrefixIndex PrefixFreeable SamplingParams Sequence PrefixLookup StandardCache.

Section oracle.
Context `{Digest}.
Implicit Types (s : StandardCacheManager) (q : Sequence) (ids : gset bytes).
#[local] Abbreviation MgrAct := (Act PyExn StandardCacheManager).

(** ** Slots of blocks *)

(** The slots of one id: those of its block when it is on the device. *)
Definition id_resident s (ix : RadixPrefixIndex RadixTreeBackend) (id : bytes) : Z :=
  match get_block ix id with
  | Some (_, b) => if device_present (residency b) then block_resident_tokens s b else 0
  | None => 0
  end.
Definition prefix_resident_slots_for_ids ids : MgrAct Z :=
  s ← read id;
  match prefix_cache s with
  | None => mret 0
  | Some c => mret (foldr (fun id n => id_resident s (the_index c) id + n) 0 (elements ids))
  end.

Definition prefix_freeable_block_ids_for_capacity : MgrAct (gset bytes) :=
  s ← read id;
  if bool_decide (prefix_cache s = None) then mret ∅
  else if snapshot_depth s <=? 0 then on_prefix freeable_block_ids
  else
    match snapshot_freeable s with
    | Some ids => mret ids
    | None =>
        ids ← on_prefix freeable_block_ids;
        modify (fun s => s <| snapshot_freeable := Some ids |>) ;;
        mret ids
    end.

Definition prefix_evictable_slots : MgrAct Z :=
  s ← read id;
  if bool_decide (prefix_cache s = None) then mret 0
  else ids ← prefix_freeable_block_ids_for_capacity; prefix_resident_slots_for_ids ids.

Definition prefix_step_reclaimable_slots : MgrAct Z :=
  s ← read id;
  if bool_decide (prefix_cache s = None) then mret 0
  else
    match (if 0 <? snapshot_depth s then snapshot_reclaimable s else None) with
    | Some n => mret n
    | None =>
        ids ← prefix_freeable_block_ids_for_capacity;
        n ← prefix_resident_slots_for_ids ids;
        when (0 <? snapshot_depth s) (modify (fun s => s <| snapshot_reclaimable := Some n |>)) ;;
        mret n
    end.

Definition prefix_immediately_evictable_slots : MgrAct Z :=
  s ← read id;
  if bool_decide (prefix_cache s = None) then mret 0
  else ids ← on_prefix evictable_block_ids; prefix_resident_slots_for_ids ids.

(** ** The snapshot of a scheduling pass *)

Definition drop_snapshot s : StandardCacheManager := s <| snapshot_freeable := None |> <| snapshot_reclaimable := None |>.
Definition enter_snapshot : MgrAct unit :=
  modify (fun s => let s' := s <| snapshot_depth ::= Z.succ |> in if snapshot_depth s' =? 1 then drop_snapshot s' else s').
Definition leave_snapshot : MgrAct unit :=
  modify (fun s => let s' := s <| snapshot_depth ::= Z.pred |> in if snapshot_depth s' =? 0 then drop_snapshot s' else s').
(** [with self.scheduler_capacity_snapshot(): body] *)
Definition scheduler_capacity_snapshot {A} (body : MgrAct A) : MgrAct A :=
  enter_snapshot ;; finally body leave_snapshot.

(** ** Free slots *)

Definition free_and_reclaimable : MgrAct Z :=
  n ← prefix_step_reclaimable_slots; s ← read id; mret (num_free_slots s + n).

Definition std_prefill_step_free_slots : MgrAct Z :=
  s ← read id;
  let most := std_max_num_batched_tokens (std_config s) in
  if (0 <? most) && (most <=? num_free_slots s) then mret (num_free_slots s) else free_and_reclaimable.

Definition std_decode_step_free_slots : MgrAct Z :=
  s ← read id;
  let physical := num_free_slots s in
  let most := std_max_decoding_seqs (std_config s) in
  if (0 <? most) && (most <=? physical) then mret physical
  else
    now ← prefix_immediately_evictable_slots;
    if (0 <? most) && (most <=? physical + now) then mret (physical + now) else free_and_reclaimable.

Definition std_prompt_admission_free_slots : MgrAct Z := free_and_reclaimable.

(** ** What a prompt costs *)

(** [_prefix_hit_chain] *)
Definition prefix_hit_chain q : MgrAct (list ObjRef) :=
  s ← read id;
  match prefix_cache s, prefix_cache_hit_last_block_id (prefix_hit q) with
  | Some _, Some last => on_prefix (ask (fun ix => get_chain ix last (prefix_cache_hit_block_count (prefix_hit q))))
  | _, _ => mret []
  end.
(** [sum(resident(block) for block in chain if block.stable_block_id in ids)] *)
Fixpoint chain_resident ids (os : list ObjRef) : MgrAct Z :=
  match os with
  | [] => mret 0
  | o :: os' =>
      b ← on_prefix (deref o);
      s ← read id;
      n ← chain_resident ids os';
      mret ((if bool_decide (stable_block_id b ∈ ids) then block_resident_tokens s b else 0) + n)
  end.
Definition prefix_hit_capacity_slots q : MgrAct (Z * Z) :=
  s ← read id;
  if bool_decide (prefix_cache s = None) then mret (0, 0)
  else
    on_cached (prefix_hit_capacity_counts q false) ;;
    entry ← on_cached (read (fun c => capacity_cache c !! seq_id q));
    chain ← match entry with Some e => mret (cap_chain e) | None => prefix_hit_chain q end;
    ids ← on_prefix freeable_block_ids;
    reclaimable ← chain_resident ids chain;
    mret (reclaimable, 0).

Definition std_prompt_admission_cost q : MgrAct Z :=
  let hit_len := prefix_cache_hit_len (prefix_hit q) in
  let suffix_len := num_prompt_tokens q - hit_len in
  if hit_len <=? 0 then mret suffix_len
  else
    slots ← prefix_hit_capacity_slots q;
    let '(reclaimable, promotion) := slots in
    mret (suffix_len + reclaimable + promotion).
Definition std_prompt_logical_reservation_cost q : MgrAct Z := std_prompt_admission_cost q.

Definition std_prompt_admission_costs q : MgrAct (PyDict string Z) :=
  slots ← std_prompt_admission_cost q;
  mret (<["rows"%string := 1]> (<["slots"%string := slots]> ∅)).

(** [CacheManager.reserved_prefill_slots] *)
Definition std_reserved_prefill_slots (waiting : list Sequence) : Z :=
  foldl (fun reserved q =>
    if (0 <? num_prefilled_tokens q) && (num_prefilled_tokens q <? num_prompt_tokens q)
    then reserved + (num_prompt_tokens q - num_prefilled_tokens q) else reserved) 0 waiting.
Definition std_prompt_admission_budgets (waiting : list Sequence) : MgrAct (PyDict string Z) :=
  free ← std_prompt_admission_free_slots;
  s ← read id;
  mret (<["rows"%string := Z.of_nat (length (free_rows s))]>
         (<["slots"%string := Z.max 0 (free - std_reserved_prefill_slots waiting)]> ∅)).

(** [CacheManager.remaining_prefill_tokens] *)
Definition std_remaining_prefill_tokens q : Z :=
  num_prompt_tokens q - Z.max (num_prefilled_tokens q) (prefix_cache_hit_len (prefix_hit q)).

(** ** The hit of a waiting prompt *)

(** The hit the refresh leaves on the sequence. *)
Definition std_refresh_prefix_cache_hit q : MgrAct PrefixHit :=
  s ← read id;
  let bs := std_block_size (std_config s) in
  if negb (caching s) || negb (num_prefilled_tokens q =? 0) || negb (num_completion_tokens q =? 0) then mret no_prefix_hit
  else
    usable ← lift (usable_prefix_cache_tokens (num_prompt_tokens q) bs);
    if usable <=? 0 then mret no_prefix_hit
    else
      r ← on_cached (lookup_prefix_cache_hit q usable);
      let '(hit_len, last_id, hits) := r in
      if hit_len <=? 0 then mret no_prefix_hit
      else
        guard_not (bool_decide (last_id = None) || (hits <=? 0)) (RuntimeError "Prefix cache lookup returned an invalid hit.") ;;
        guard_not ((num_prompt_tokens q <=? hit_len) || negb (hit_len mod bs =? 0))
          (RuntimeError "Prefix cache lookup returned an unusable hit length") ;;
        mret (mkPrefixHit true hit_len hits last_id bs (std_sparse_method (std_config s))).
End oracle.
