(* ===== verification/SlotRanges.v ===== *)
(** * Ranges of a row and flattened maps

    What [_merge_ranges] and [_complement_ranges] do to the cells of a row, the
    writes to index tensors, and the multiset of everything a map of lists
    holds. *)

From stdpp Require Import base gmap list.
From Stdlib Require Import ZArith Lia.
From S2P Require Import Prelude StandardCache.

(** ** Everything a map holds *)

Definition flat {K A} `{Countable K} (m : gmap K (list A)) : list A := concat (map_to_list m).*2.

Section flat.
Context {K A : Type} `{Countable K}.
Implicit Types (m : gmap K (list A)) (k : K) (l : list A).

Lemma concat_perm (l1 l2 : list (list A)) : l1 ≡ₚ l2 -> concat l1 ≡ₚ concat l2.
Proof.
  induction 1 as [|x l1 l2 _ IH|x y l|l1 l2 l3 _ IH1 _ IH2]; cbn; [done|by rewrite IH| |by rewrite IH1].
  rewrite !app_assoc. by rewrite (Permutation_app_comm y x).
Qed.
Lemma flat_empty : flat (∅ : gmap K (list A)) = [].
Proof. unfold flat. by rewrite map_to_list_empty. Qed.
Lemma flat_insert m k l : m !! k = None -> flat (<[k:=l]> m) ≡ₚ l ++ flat m.
Proof. intros Hk. unfold flat. apply (concat_perm _ (l :: _)). by rewrite map_to_list_insert. Qed.
Lemma flat_delete m k l : m !! k = Some l -> flat m ≡ₚ l ++ flat (delete k m).
Proof. intros Hk. rewrite <- (insert_delete_id m k l Hk) at 1. rewrite flat_insert; [done|apply lookup_delete_eq]. Qed.
Lemma flat_insert_delete m k l : flat (<[k:=l]> m) ≡ₚ l ++ flat (delete k m).
Proof. rewrite <- insert_delete_eq. apply flat_insert, lookup_delete_eq. Qed.
Lemma flat_update m k l l' : m !! k = Some l -> flat (<[k:=l']> m) ≡ₚ l' ++ flat (delete k m).
Proof. intros Hk. rewrite <- insert_delete_eq. rewrite flat_insert; [done|apply lookup_delete_eq]. Qed.
Lemma elem_of_flat m x : x ∈ flat m <-> exists k l, m !! k = Some l /\ x ∈ l.
Proof.
  unfold flat. rewrite list_elem_of_In, in_concat. setoid_rewrite <- list_elem_of_In. split.
  - intros (l & Hl & Hx). apply list_elem_of_fmap in Hl as ([k l'] & -> & Hm).
    apply elem_of_map_to_list in Hm. eauto.
  - intros (k & l & Hm & Hx). exists l. split; [|done]. apply list_elem_of_fmap. exists (k, l).
    split; [done|]. by apply elem_of_map_to_list.
Qed.
End flat.

(** ** Slices *)

Section slices.
Context {A : Type}.
Implicit Types (l : list A) (rs : list Range).

Lemma slice_app l a b c : 0 <= a <= b -> b <= c -> slice a b l ++ slice b c l = slice a c l.
Proof.
  intros. unfold slice. replace (Z.to_nat (c - a)) with (Z.to_nat (b - a) + Z.to_nat (c - b))%nat by lia.
  rewrite <- take_take_drop. f_equal. rewrite drop_drop. do 2 f_equal. lia.
Qed.
Lemma slice_none l a : slice a a l = [].
Proof. unfold slice. by rewrite Z.sub_diag. Qed.
Lemma slice_take l n : slice 0 n l = take (Z.to_nat n) l.
Proof. unfold slice. by rewrite Z.sub_0_r. Qed.
Lemma slice_of_take l a b n : 0 <= a -> b <= Z.of_nat n -> slice a b (take n l) = slice a b l.
Proof.
  intros. unfold slice. rewrite skipn_firstn_comm, take_take. f_equal. lia.
Qed.

Lemma slice_app_l l1 l2 a b : 0 <= a -> b <= Z.of_nat (length l1) -> slice a b (l1 ++ l2) = slice a b l1.
Proof.
  intros Ha0 Hb. unfold slice. destruct (decide (Z.to_nat a <= length l1)%nat) as [Ha|Ha].
  - rewrite drop_app_le by done. apply take_app_le. rewrite length_drop. lia.
  - replace (Z.to_nat (b - a)) with 0%nat by lia. by rewrite !take_0.
Qed.
Lemma slice_app_r l1 l2 a : Z.of_nat (length l1) = a -> slice a (a + Z.of_nat (length l2)) (l1 ++ l2) = l2.
Proof.
  intros Ha. unfold slice. replace (Z.to_nat a) with (length l1) by lia. rewrite drop_app_length.
  apply take_ge. lia.
Qed.
Lemma slice_all l a b : a <= 0 -> Z.of_nat (length l) <= b -> slice a b l = l.
Proof. intros. unfold slice. replace (Z.to_nat a) with 0%nat by lia. cbn. apply take_ge. lia. Qed.
Lemma slice_in l a b x : x ∈ slice a b l -> x ∈ l.
Proof. unfold slice. intros Hx. by eapply elem_of_subseteq in Hx; [|apply subseteq_take]; eapply elem_of_subseteq in Hx; [|apply subseteq_drop]. Qed.

Definition slices l rs : list A := concat ((fun r => slice r.1 r.2 l) <$> rs).

(** [rs] is increasing and lies between [a] and [z]. *)
Fixpoint ranges_between (a : Z) rs (z : Z) : Prop :=
  match rs with
  | [] => a <= z
  | (s, e) :: rs' => a <= s <= e /\ ranges_between e rs' z
  end.

Lemma ranges_between_le a rs z : ranges_between a rs z -> a <= z.
Proof. revert a. induction rs as [|[s e] rs IH]; intros a; cbn; [done|]. intros [? ?%IH]. lia. Qed.
Lemma ranges_between_weaken a a' rs z z' : a' <= a -> z <= z' -> ranges_between a rs z -> ranges_between a' rs z'.
Proof.
  revert a a'. induction rs as [|[s e] rs IH]; intros a a'; cbn; [lia|]. intros ? ? [? ?]. split; [lia|].
  by apply (IH e).
Qed.
Lemma ranges_between_snoc a rs z e : ranges_between a rs z -> z <= e -> ranges_between a (rs ++ [(z, e)]) e.
Proof. revert a. induction rs as [|[s e'] rs IH]; intros a; cbn; [lia|]. intros [? ?] ?. split; [done|by apply IH]. Qed.
Lemma ranges_between_elem a rs z s e : ranges_between a rs z -> (s, e) ∈ rs -> a <= s <= e /\ e <= z.
Proof.
  revert a. induction rs as [|[s' e'] rs IH]; intros a; cbn; [by intros _ ?%elem_of_nil|].
  intros [? Hrs] [[= -> ->]|Hin]%elem_of_cons; [by apply ranges_between_le in Hrs|].
  destruct (IH _ Hrs Hin). lia.
Qed.

Lemma nonempty_ranges l a rs z (rs' := List.filter (fun r => r.1 <? r.2) rs) :
  ranges_between a rs z ->
  ranges_between a rs' z /\ slices l rs' = slices l rs /\ Forall (fun r => r.1 < r.2) rs'.
Proof.
  subst rs'. revert a. induction rs as [|[s e] rs IH]; intros a; cbn; [intros ?; by split_and!|].
  intros [Hse Hrs]. destruct (IH e Hrs) as (IH1 & IH2 & IH3). unfold slices in *. cbn.
  destruct (Z.ltb_spec s e); cbn.
  - rewrite IH2. split; [by split|]. split; [done|by constructor].
  - rewrite IH2. replace e with s in * by lia. rewrite slice_none. split; [|done].
    by eapply (ranges_between_weaken s a _ z); [lia..|].
Qed.
Lemma sort_sorted a rs z : ranges_between a rs z -> Forall (fun r => r.1 < r.2) rs -> foldr insert_range [] rs = rs.
Proof.
  revert a. induction rs as [|[s e] rs IH]; intros a; [done|]. cbn [ranges_between foldr].
  intros [_ Hrs] [Hse Hne]%Forall_cons. rewrite (IH e Hrs Hne). destruct rs as [|[s' e'] rs]; [done|].
  cbn in *. destruct (Z.ltb_spec s s'); [done|lia].
Qed.
Lemma slices_app_l l1 l2 rs a : 0 <= a -> ranges_between a rs (Z.of_nat (length l1)) -> slices (l1 ++ l2) rs = slices l1 rs.
Proof.
  revert a. induction rs as [|[s e] rs IH]; intros a Ha; [done|]. cbn. intros [? Hrs]. unfold slices in *. cbn.
  rewrite (IH e ltac:(lia) Hrs). apply ranges_between_le in Hrs. by rewrite slice_app_l by lia.
Qed.
Lemma elem_of_slices l rs x : x ∈ slices l rs <-> exists s e, (s, e) ∈ rs /\ x ∈ slice s e l.
Proof.
  unfold slices. rewrite list_elem_of_In, in_concat. setoid_rewrite <- list_elem_of_In. split.
  - intros (l' & Hl' & Hx). apply list_elem_of_fmap in Hl' as ([s e] & -> & ?). eauto.
  - intros (s & e & Hin & Hx). exists (slice s e l). split; [|done]. apply list_elem_of_fmap. by exists (s, e).
Qed.
Lemma merge_sorted_slices l s e rs z : 0 <= s <= e -> ranges_between e rs z ->
  ranges_between s (merge_sorted (s, e) rs) z /\ slices l (merge_sorted (s, e) rs) = slice s e l ++ slices l rs.
Proof.
  revert s e. induction rs as [|[s' e'] rs IH]; intros s e Hse; cbn [merge_sorted ranges_between fst snd].
  - unfold slices. cbn. intros ?. split; [lia|done].
  - intros [Hs' Hrs]. unfold slices in *. destruct (Z.ltb_spec e s').
    + destruct (IH s' e' ltac:(lia) Hrs) as [IH1 IH2]. cbn. rewrite IH2. split; [|done].
      split; [lia|]. by eapply (ranges_between_weaken s' e _ z); [lia..|].
    + replace (Z.max e e') with e' by lia. destruct (IH s e' ltac:(lia) Hrs) as [IH1 IH2]. split; [done|].
      rewrite IH2. cbn. rewrite app_assoc. replace s' with e by lia. by rewrite slice_app by lia.
Qed.
Lemma merge_ranges_slices l a rs z : 0 <= a -> ranges_between a rs z ->
  ranges_between a (merge_ranges rs) z /\ slices l (merge_ranges rs) = slices l rs.
Proof.
  intros Ha Hrs. unfold merge_ranges. destruct (nonempty_ranges l a rs z Hrs) as (H1 & H2 & H3).
  rewrite (sort_sorted a _ z) by done. destruct (List.filter (fun r => r.1 <? r.2) rs) as [|[s e] rs']; [by split|].
  destruct H1 as [Hse H1]. destruct (merge_sorted_slices l s e rs' z ltac:(lia) H1) as [M1 M2]. split.
  - by eapply (ranges_between_weaken s a _ z); [lia..|].
  - rewrite M2, <- H2. done.
Qed.
Lemma complement_from_slices l cur rs z : 0 <= cur -> ranges_between cur rs z ->
  slices l (complement_from cur z rs) ++ slices l rs ≡ₚ slice cur z l.
Proof.
  revert cur. induction rs as [|[s e] rs IH]; intros cur Hcur; cbn [complement_from ranges_between].
  - intros. destruct (Z.ltb_spec cur z); cbn; [by rewrite !app_nil_r|]. replace z with cur by lia. by rewrite slice_none.
  - intros [Hse Hrs]. replace (Z.max cur e) with e by lia. pose proof (ranges_between_le _ _ _ Hrs).
    transitivity (slice cur s l ++ slice s e l ++ slice e z l); [|by rewrite !slice_app by lia].
    rewrite <- (IH e ltac:(lia) Hrs). unfold slices. rewrite fmap_app, concat_app.
    assert (concat ((fun r => slice r.1 r.2 l) <$> (if cur <? s then [(cur, s)] else [])) = slice cur s l) as ->.
    { destruct (Z.ltb_spec cur s); cbn; [by rewrite app_nil_r|]. replace s with cur by lia. by rewrite slice_none. }
    cbn. solve_Permutation.
Qed.
Lemma slice_sub l a b c d x : 0 <= c <= a -> b <= d -> x ∈ slice a b l -> x ∈ slice c d l.
Proof.
  intros Ha Hb Hx. destruct (decide (a <= b)) as [Hab|Hab].
  - rewrite <- (slice_app l c a d), elem_of_app by lia. right. rewrite <- (slice_app l a b d), elem_of_app by lia. by left.
  - unfold slice in Hx. replace (Z.to_nat (b - a)) with 0%nat in Hx by lia. by apply elem_of_nil in Hx.
Qed.
Lemma complement_from_tail l cur rs z a b stop x : 0 <= cur -> ranges_between cur rs z -> z <= a -> b <= stop ->
  x ∈ slice a b l -> x ∈ slices l (complement_from cur stop rs).
Proof.
  intros Hcur Hrs Ha Hb Hx. revert cur Hcur Hrs. induction rs as [|[s e] rs IH]; intros cur Hcur; cbn [complement_from ranges_between].
  - intros Hz. destruct (Z.ltb_spec cur stop).
    + apply elem_of_slices. exists cur, stop. split; [by left|]. apply (slice_sub l a b); [lia..|done].
    + unfold slice in Hx. replace (Z.to_nat (b - a)) with 0%nat in Hx by lia. by apply elem_of_nil in Hx.
  - intros [Hse Hrs]. replace (Z.max cur e) with e by lia. specialize (IH e ltac:(lia) Hrs).
    apply elem_of_slices in IH as (s' & e' & Hin & Hx'). apply elem_of_slices. exists s', e'. split; [|done].
    apply elem_of_app. by right.
Qed.
(** What lies beyond the ranges is in their complement. *)
Lemma complement_tail l rs z a b stop x : ranges_between 0 rs z -> z <= a -> b <= stop ->
  x ∈ slice a b l -> x ∈ slices l (complement_ranges 0 stop rs).
Proof.
  intros Hrs Ha Hb Hx. destruct (merge_ranges_slices l 0 rs z ltac:(lia) Hrs) as [H1 _].
  by apply (complement_from_tail l 0 _ z a b).
Qed.
(** The complement and the ranges partition the cells. *)
Lemma complement_slices l rs z : ranges_between 0 rs z ->
  slices l (complement_ranges 0 z rs) ++ slices l rs ≡ₚ take (Z.to_nat z) l.
Proof.
  intros Hrs. unfold complement_ranges. destruct (merge_ranges_slices l 0 rs z ltac:(lia) Hrs) as [H1 H2].
  rewrite <- H2, <- slice_take. by apply complement_from_slices.
Qed.
End slices.
