(* ===== verification/PrefixClient.v ===== *)
(** * The prefix index as its clients see it

    A cache manager sees the index as a map from block ids to entries: which
    object is indexed, which payload it carries, where it resides and how many
    references it has.  This file states each operation a manager calls by what
    it does to that map. *)

From stdpp Require Import base gmap list strings.
From Stdlib Require Import ZArith Lia.
From S2P Require Import Prelude PyDict PyBytes Sha256 RoutingMembership RadixTree RadixForest PrefixHash.
From S2P Require Import PrefixIndex PrefixIndexFacts PrefixCapacity PrefixTransfer PrefixCommit PrefixQueue PrefixEviction.
From S2P Require Import PrefixControl PrefixSubtree PrefixDemotion PrefixReclaim PrefixContract PrefixEpochs SlotRanges.

Record Entry := mkEntry {
  e_obj : nat;
  e_payload : nat;
  e_refs : Z;
  e_residency : PrefixBlockResidency;
  e_parent : option bytes;
  e_priority : Z;
}.
#[export] Instance eta_entry : Eta Entry := fun r => 
  mkEntry (e_obj r) (e_payload r) (e_refs r) (e_residency r) (e_parent r) (e_priority r).
Definition entry_of (ob : nat * PrefixCacheBlock) : Entry :=
  mkEntry ob.1 (payload ob.2) (ref_count ob.2) (residency ob.2) (parent_block_id ob.2) (eviction_priority ob.2).

Section client.
Context {T : Type} `{BlockForest T} `{Digest} {query : FreeableQuery T}.
#[local] Abbreviation Index := (RadixPrefixIndex T).
#[local] Abbreviation IndexAct := (Act PyExn (RadixPrefixIndex T)).
Implicit Types (ix : Index) (id : bytes) (o : nat) (b : PrefixCacheBlock).

Definition seen ix : gmap bytes Entry :=
  map_imap (fun id _ => entry_of <$> get_block ix id) (gset_to_gmap tt (ids_of ix)).

Lemma lookup_seen ix id : seen ix !! id = entry_of <$> get_block ix id.
Proof.
  unfold seen. rewrite map_lookup_imap, lookup_gset_to_gmap. destruct (get_block ix id) as [ob|] eqn:Hg.
  - rewrite option_guard_True; [done|]. apply ids_of_elem. unfold get_block in Hg.
    destruct (blocks ix !! id); [eauto|done].
  - by destruct (guard _).
Qed.
Lemma seen_ext ix ix' : (forall id, entry_of <$> get_block ix' id = entry_of <$> get_block ix id) -> seen ix' = seen ix.
Proof. intros Hg. apply map_eq. intros id. by rewrite !lookup_seen. Qed.
Lemma seen_insert ix ix' id o b :
  (forall id', get_block ix' id' = if decide (id' = id) then Some (o, b) else get_block ix id') ->
  seen ix' = <[id := entry_of (o, b)]> (seen ix).
Proof.
  intros Hg. apply map_eq. intros id'. rewrite lookup_seen, Hg. case_decide; [subst; by rewrite lookup_insert_eq|].
  by rewrite lookup_insert_ne, lookup_seen by done.
Qed.
Lemma seen_Some ix id en : seen ix !! id = Some en ->
  exists o b, get_block ix id = Some (o, b) /\ en = entry_of (o, b).
Proof. rewrite lookup_seen. destruct (get_block ix id) as [[o b]|]; [|done]. intros [= <-]. eauto. Qed.
Lemma seen_store ix id en : index_wf ix -> seen ix !! id = Some en ->
  exists b, get_block ix id = Some (e_obj en, b) /\ store ix !! e_obj en = Some b /\ stable_block_id b = id /\
    payload b = e_payload en /\ ref_count b = e_refs en /\ residency b = e_residency en.
Proof.
  intros Hwf (o & b & Hg & ->)%seen_Some. exists b. pose proof Hg as (_ & ? & ?)%get_block_Some; [|done]. done.
Qed.
(** One object is indexed under one id. *)
Lemma seen_object ix id1 id2 e1 e2 :
  index_wf ix -> seen ix !! id1 = Some e1 -> seen ix !! id2 = Some e2 -> e_obj e1 = e_obj e2 -> id1 = id2.
Proof.
  intros Hwf (b1 & H1 & _)%seen_store (b2 & H2 & _)%seen_store E; [|done..]. rewrite E in H1. by eapply get_block_object.
Qed.

(** What every call of a client keeps. *)
Definition client_step ix ix' : Prop := index_inv ix' /\ config ix' = config ix.

(** ** References *)

Lemma set_ref_seen ix id en n msg :
  index_inv ix -> seen ix !! id = Some en -> 0 <= n ->
  wp (set_block_ref_count (e_obj en) n msg) (fun r ix' => r = Ok tt /\ client_step ix ix' /\
    seen ix' = <[id := en <| e_refs := n |>]> (seen ix)) ix.
Proof.
  intros Hinv Hs Hn. pose proof (proj1 Hinv) as Hwf.
  destruct (seen_store ix id en Hwf Hs) as (b & Hg & Ho & Hid & Hp & Hr & Hres).
  pose proof (set_block_ref_count_spec ix (e_obj en) n msg Hwf) as Hspec.
  assert (wp (set_block_ref_count (e_obj en) n msg) (fun r ix' => r = Ok tt /\ config ix' = config ix) ix) as Hok.
  { unfold set_block_ref_count, validate_indexed_block.
    assert (not_indexed ix (e_obj en) b = false) as Hni.
    { unfold not_indexed. apply (get_block_Some ix id _ b Hwf) in Hg as (Hb & _). rewrite Hid, Hb.
      by rewrite bool_decide_eq_true_2. }
    unfold wp, mbind, Act_bind, deref. rewrite Ho. cbn. rewrite Hni. cbn.
    rewrite (proj2 (Z.ltb_ge n 0)) by done. cbn. rewrite Ho. destruct (ref_count b =? n); [done|].
    cbn. by destruct (negb _). }
  unfold wp in *. destruct Hok as [Hok Hc]. rewrite Hok in Hspec |- *.
  destruct Hspec as (Hpost & _ & b' & Hg' & Hupd). split; [done|]. split; [split; [by eapply op_post_inv|done]|].
  assert (stable_block_id b' = id) as Hid' by (by eapply get_block_object). rewrite Hid' in *.
  assert (b' = b) as -> by congruence.
  rewrite (seen_insert _ _ _ _ _ Hupd). f_equal. rewrite lookup_seen, Hg in Hs. injection Hs as <-. done.
Qed.

Lemma acquire_seen ix id en : index_inv ix -> seen ix !! id = Some en -> 0 <= e_refs en ->
  wp (acquire_block_ref (e_obj en)) (fun r ix' => r = Ok tt /\ client_step ix ix' /\
    seen ix' = <[id := en <| e_refs ::= fun n => n + 1 |>]> (seen ix)) ix.
Proof.
  intros Hinv Hs Hn. destruct (seen_store ix id en (proj1 Hinv) Hs) as (b & _ & Ho & _ & _ & Hr & _).
  unfold acquire_block_ref. apply wp_bind. unfold wp, deref. rewrite Ho. cbn.
  pose proof (set_ref_seen ix id en (ref_count b + 1) negative_ref Hinv Hs ltac:(lia)) as Hspec.
  unfold wp in Hspec. by rewrite Hr in *.
Qed.
Lemma release_seen ix id en msg : index_inv ix -> seen ix !! id = Some en -> 0 < e_refs en ->
  wp (release_block_ref (e_obj en) msg) (fun r ix' => r = Ok tt /\ client_step ix ix' /\
    seen ix' = <[id := en <| e_refs ::= fun n => n - 1 |>]> (seen ix)) ix.
Proof.
  intros Hinv Hs Hn. destruct (seen_store ix id en (proj1 Hinv) Hs) as (b & _ & Ho & _ & _ & Hr & _).
  unfold release_block_ref. apply wp_bind. unfold wp, deref. rewrite Ho. cbn.
  pose proof (set_ref_seen ix id en (ref_count b - 1) msg Hinv Hs ltac:(lia)) as Hspec.
  unfold wp in Hspec. by rewrite Hr in *.
Qed.

Lemma touch_chain_seen ix os : index_inv ix ->
  wp (touch_chain os) (fun r ix' => r = Ok tt /\ client_step ix ix' /\ seen ix' = seen ix) ix.
Proof.
  intros Hinv. pose proof (touch_chain_spec ix os (proj1 Hinv)) as Hspec.
  enough (wp (touch_chain os) (fun r ix' => r = Ok tt /\ config ix' = config ix /\
    forall id, entry_of <$> get_block ix' id = entry_of <$> get_block ix id) ix) as Hg.
  { unfold wp in *. destruct Hg as (Hr & Hc & Hg). split; [done|]. split; [split; [by eapply op_post_inv|done]|].
    by apply seen_ext. }
  clear Hspec. unfold touch_chain. apply wp_bind, wp_tick. intros c. cbv beta iota. set (ix1 := ix <| epochs ::= _ |>).
  assert (config ix1 = config ix /\ forall id, entry_of <$> get_block ix1 id = entry_of <$> get_block ix id) as [Hc1 H1] by done.
  clearbody ix1. revert ix1 Hc1 H1. induction os as [|o os IH]; intros ix1 Hc1 H1; cbn [for_each]; [by apply wp_ret|].
  apply wp_bind, wp_update_block. cbv beta iota. apply IH; [done|]. intros id. rewrite <- H1.
  rewrite updated_get_block. destruct (get_block ix1 id) as [[o' b]|]; [|done]. case_decide; reflexivity.
Qed.

(** ** Insertion *)

Lemma construct_seen ix b : index_inv ix ->
  let o := fresh (dom (store ix)) in
  let ix' := ix <| store ::= <[o := b]> |> in
  client_step ix ix' /\ seen ix' = seen ix /\ store ix' !! o = Some b /\ (forall id en, seen ix !! id = Some en -> e_obj en <> o).
Proof.
  intros Hinv o ix'. assert (store ix !! o = None) as Ho by (apply not_elem_of_dom, is_fresh). split_and!.
  - split; [by apply (alloc_block_inv ix b)|done].
  - apply seen_ext. intros id. unfold get_block, ix'. cbn. destruct (blocks ix !! id) as [o'|] eqn:Hb; [|done].
    destruct (iwf_store ix (proj1 Hinv) id o' Hb) as (b' & Hb' & _). by rewrite lookup_insert_ne by congruence.
  - unfold ix'. cbn. by rewrite lookup_insert_eq.
  - intros id en Hs E. destruct (seen_store ix id en (proj1 Hinv) Hs) as (b' & _ & Ho' & _). congruence.
Qed.

Lemma wp_and {S A} (m : Act PyExn S A) (P Q : exc A -> S -> Prop) (s : S) : wp m P s -> wp m Q s -> wp m (fun r s' => P r s' /\ Q r s') s.
Proof. by split. Qed.
Lemma insert_config ix o b : index_inv ix -> store ix !! o = Some b -> 0 <= ref_count b ->
  wp (insert_block o) (fun _ ix' => config ix' = config ix) ix.
Proof.
  intros Hinv Ho Hr. destruct (run_op_later ix (Insert o) Hinv) as [Hc _]; [intros b'; cbn; congruence|].
  unfold wp. cbn [run_op] in Hc. unfold discard, mbind, Act_bind in Hc. by destruct (insert_block o ix) as [[?|?] ?].
Qed.

Lemma insert_seen ix o b : index_inv ix -> store ix !! o = Some b -> 0 <= ref_count b ->
  wp (insert_block o) (fun r ix' => client_step ix ix' /\
    match r with
    | Raise _ => seen ix' = seen ix
    | Ok o' => match seen ix !! stable_block_id b with
               | Some en => o' = e_obj en /\ seen ix' = seen ix
               | None => o' = o /\ seen ix' = <[stable_block_id b := entry_of (o, b)]> (seen ix) /\
                   exists b', store ix' !! o = Some b' /\ logical_block_idx b' = logical_block_idx b
               end
    end) ix.
Proof.
  intros Hinv Ho Hr.
  eapply wp_mono; [apply wp_and; [apply insert_block_spec; [done|congruence]|apply (insert_config ix o b); done]|].
  cbv beta. intros r ix' [[Hinv' Hpost] Hc]. split; [done|]. destruct r as [o'|e]; [|by apply seen_ext; intros id; rewrite Hpost].
  destruct Hpost as (b' & Ho' & _ & Hpost). assert (b' = b) as -> by congruence. rewrite lookup_seen.
  destruct (get_block ix (stable_block_id b)) as [[e eb]|] eqn:Hg; cbn.
  - destruct Hpost as (-> & _ & Hg'). split; [done|]. apply seen_ext. intros id. rewrite Hg'.
    case_decide; [subst; by rewrite Hg|done].
  - destruct Hpost as (-> & _ & Hg'). split_and!; [done|apply (seen_insert _ _ _ o _ Hg')|].
    specialize (Hg' (stable_block_id b)). rewrite decide_True in Hg' by done. apply get_block_Some in Hg' as (_ & ? & _); [eauto|apply Hinv'].
Qed.

(** ** Eviction *)

(** The blocks [l] left the index: what [f] reads of the entries is split
    between them and the rest, and none of them was referenced. *)
Record gone ix (l : list (nat * PrefixCacheBlock)) ix' : Prop := mkGone {
  gone_split {A} (f : Entry -> list A) :
    flat (f <$> seen ix) ≡ₚ (l ≫= (fun ob => f (entry_of ob))) ++ flat (f <$> seen ix');
  gone_out id en : seen ix !! id = Some en ->
    seen ix' !! id = Some en \/ exists b, (e_obj en, b) ∈ l /\ stable_block_id b = id;
  gone_sub : seen ix' ⊆ seen ix;
  gone_each o b : (o, b) ∈ l -> get_block ix (stable_block_id b) = Some (o, b) /\ ref_count b = 0;
}.

Lemma without_seen ix id ix1 : without ix id ix1 -> seen ix1 = delete id (seen ix).
Proof.
  intros Hout. apply map_eq. intros id'. rewrite lookup_seen, (Hout id'). destruct (decide (id' = id)) as [->|Hne].
  - by rewrite lookup_delete_eq.
  - by rewrite lookup_delete_ne, lookup_seen.
Qed.
Lemma unheld_refs b : unheld b -> ref_count b = 0.
Proof. intros [[Hr%negb_false_iff%Z.eqb_eq _]%orb_false_iff _]%orb_false_iff. done. Qed.
Lemma trace_gone_seen ix l ix' : evict_trace unheld ix l ix' -> gone ix l ix'.
Proof.
  induction 1 as [ix Hinv|ix id o b ix1 l ix' Hinv Hg Hl _ Hout _ _ Htr [IHs IHr IHb IHe]].
  - split; [done|by left|done|by intros ? ? ?%elem_of_nil].
  - pose proof (without_seen _ _ _ Hout) as Hs1. pose proof (get_block_id ix id o b (proj1 Hinv) Hg) as Hid.
    assert (seen ix !! id = Some (entry_of (o, b))) as Hsid by (by rewrite lookup_seen, Hg).
    pose proof (unheld_refs b (leaf_sat _ _ _ o b Hg Hl)) as Hr0. rewrite Hs1 in *. split.
    + intros A f. cbn. rewrite <- app_assoc, <- IHs, fmap_delete. apply flat_delete. by rewrite lookup_fmap, Hsid.
    + intros id' en Hen. destruct (decide (id' = id)) as [->|Hne].
      * right. exists b. rewrite Hsid in Hen. injection Hen as <-. split; [by left|done].
      * destruct (IHr id' en) as [?|(b' & ? & ?)]; [by rewrite lookup_delete_ne|by left|]. right. exists b'. split; [by right|done].
    + etrans; [exact IHb|]. apply delete_subseteq.
    + intros o' b' [[= -> ->]|Hin]%elem_of_cons; [by rewrite Hid|]. destruct (IHe o' b' Hin) as [Hg' ?].
      rewrite (Hout (stable_block_id b')) in Hg'. by case_decide.
Qed.

Lemma keep_store_remove st id : keep (fun ix => store ix = st) (remove_block_from_index id).
Proof.
  unfold remove_block_from_index, ask, on_backend, record_routing_remove, mark_removed, mark_capacity_mutated, mark_mutated.
  keep_auto; intros ix Hix; unfold wp; cbn; repeat case_match; cbn; done.
Qed.
Lemma keep_store_evict st w n : keep (fun ix => store ix = st) (evict_until_weight w n).
Proof.
  assert (forall fuel q before got, keep (fun ix => store ix = st) (evict_loop w fuel n q before got)) as Hl.
  { induction fuel as [|fuel IH]; intros q before got; cbn [evict_loop].
    - keep_auto.
    - destruct (n <=? got); [apply keep_ret|]. apply keep_bind; [by intros ix Hix|]. intros [[[o b]|] q']; [|apply keep_ret].
      apply keep_bind; [apply keep_guard|]. intros _. apply keep_bind; [apply keep_store_remove|]. intros o'.
      apply keep_bind; [by apply keep_modify|]. intros _. apply keep_bind; [by intros ix Hix|]. intros q''. apply IH. }
  unfold evict_until_weight. destruct (n <=? 0); [apply keep_ret|]. apply keep_bind; [by intros ix Hix|].
  intros q. apply keep_bind; [apply keep_read|]. intros fuel. apply Hl.
Qed.

Definition evict_result ix l ix' : Prop := client_step ix ix' /\ store ix' = store ix /\ gone ix l ix'.

Lemma evict_until_weight_seen ix w n : index_inv ix -> (forall b, 0 <= w b) ->
  wp (evict_until_weight w n) (fun r ix' => exists l, r = Ok l.*1 /\ evict_result ix l ix' /\
    evict_post unheld w n 0 ix [] r ix') ix.
Proof.
  intros Hinv Hw. eapply wp_mono; [apply wp_and; [by apply evict_until_weight_spec|by apply (keep_store_evict (store ix))]|].
  cbv beta. intros r ix' [Hpost Hst]. pose proof Hpost as (l & Hr & Htr & _). exists l. split; [done|]. split; [|done].
  destruct (evict_trace_inv _ _ _ _ Htr) as [_ Hinv']. destruct (evict_trace_live _ _ _ _ Htr) as [_ Hc].
  split_and!; [split; done|done|by apply trace_gone_seen].
Qed.

Lemma evictable_keeps ix : index_inv ix ->
  wp evictable_blocks (fun _ ix' => client_step ix ix' /\ seen ix' = seen ix /\ store ix' = store ix) ix.
Proof.
  intros Hinv. unfold evictable_blocks. apply wp_bind. eapply wp_mono; [by apply evictable_block_ids_spec|]. cbv beta.
  intros r ix' (Hinv' & Hcore & _ & ids & -> & _). apply wp_ret.
  split; [split; [done|by injection Hcore]|]. split; [|by injection Hcore].
  apply seen_ext. intros id. by rewrite (core_get_block ix' ix id Hcore).
Qed.

(** Room for one more block: the index is never above its limit, so at most one
    block is evicted, and when none can be nothing was. *)
Lemma ensure_one_seen ix : index_inv ix ->
  wp (ensure_insert_capacity 1) (fun r ix' =>
    match r with
    | Ok os => exists l, os = l.*1 /\ evict_result ix l ix'
    | Raise _ => client_step ix ix' /\ seen ix' = seen ix
    end) ix.
Proof.
  intros Hinv. assert (evict_result ix [] ix) as Hnil.
  { split_and!; [done..|]. split; [done|by left|done|by intros ? ? ?%elem_of_nil]. }
  unfold ensure_insert_capacity. apply wp_bind, wp_read. cbv beta iota.
  destruct (max_blocks (config ix)) as [m|] eqn:Hm; [|apply wp_ret; by exists []].
  pose proof (iwf_max ix (proj1 Hinv) m Hm). apply wp_bind, wp_guard; [done|]. intros _.
  apply wp_bind, wp_read. cbv beta iota. wp_step; bool_to_prop; [apply wp_ret; by exists []|].
  apply wp_bind. eapply wp_mono; [apply evict_until_weight_seen; [done|intros; lia]|]. cbv beta.
  intros r ix' (l & -> & Hres & (l' & Hl' & Htr & _ & Hecon)). rewrite app_nil_l in Hl'.
  assert (Z.of_nat (length l) <= 1) as Hone.
  { assert (length l = length l') as -> by (rewrite <- (length_fmap fst l), <- (length_fmap fst l'); congruence).
    destruct l' as [|x l1 _] using rev_ind; [cbn; lia|]. specialize (Hecon l1 x eq_refl).
    rewrite weight_of_one in Hecon. rewrite length_app. cbn [length]. lia. }
  apply wp_bind, wp_when; intros Hn; [|apply wp_ret; by exists l]. bool_to_prop. rewrite length_fmap in Hn.
  destruct l as [|x [|y l]]; cbn [length] in Hn, Hone; [|lia|lia].
  destruct Hres as ((Hinv' & Hc') & Hst' & [Hsplit Hout Hsub Heach]).
  apply wp_bind. eapply wp_mono; [by apply evictable_keeps|]. cbv beta. intros r2 ix2 ((Hinv2 & Hc2) & Hs2 & _).
  assert (client_step ix ix2 /\ seen ix2 = seen ix) as Hfin.
  { split; [split; [done|congruence]|]. rewrite Hs2. apply (anti_symm (⊆)); [done|].
    apply map_subseteq_spec. intros id en Hen. destruct (Hout id en Hen) as [?|(b & ?%elem_of_nil & _)]; done. }
  destruct r2; [apply wp_throw|]; done.
Qed.
Lemma gone_rest ix l ix' id en : gone ix l ix' -> seen ix !! id = Some en -> e_refs en <> 0 -> seen ix' !! id = Some en.
Proof.
  intros [_ Hout _ Heach] Hen Hne. destruct (Hout id en Hen) as [?|(b & Hin & Hid)]; [done|].
  destruct (Heach _ _ Hin) as [Hs Hr]. rewrite lookup_seen in Hen. rewrite Hid in Hs.
  rewrite Hs in Hen. apply (f_equal (fmap e_refs)) in Hen. cbn in Hen. congruence.
Qed.

(** ** Chains *)

Definition indexed_object (bl : gmap bytes Entry) o : Prop := exists id en, bl !! id = Some en /\ e_obj en = o.

Lemma ranked_path_NoDup ix path : index_wf ix ->
  (forall i x, path !! i = Some x -> forest_of (backend ix) x = Some (match i with O => None | S j => path !! j end)) ->
  NoDup path.
Proof.
  intros Hwf Hp. destruct (forest_ranked _ (iwf_backend ix Hwf)) as [rank Hr].
  assert (forall d i x y, path !! i = Some x -> path !! (i + S d)%nat = Some y -> (rank x < rank y)%nat) as Hlt.
  { induction d as [|d IH]; intros i x y Hx Hy; pose proof (Hp _ _ Hy) as Hfy.
    - rewrite Nat.add_1_r in Hfy. rewrite Hx in Hfy. by destruct (Hr _ _ Hfy).
    - replace (i + S (S d))%nat with (S (i + S d)) in Hfy by lia.
      destruct (path !! (i + S d)%nat) as [z|] eqn:Hz; [|apply lookup_ge_None_1 in Hz; apply lookup_lt_Some in Hy; lia].
      destruct (Hr _ _ Hfy) as [? _]. specialize (IH i x z Hx Hz). lia. }
  apply NoDup_alt. intros i j x Hi Hj. destruct (Nat.lt_trichotomy i j) as [Hij|[->|Hij]]; [|done|].
  - pose proof (Hlt (j - S i)%nat i x x Hi) as Hc. replace (i + S (j - S i))%nat with j in Hc by lia. specialize (Hc Hj). lia.
  - pose proof (Hlt (i - S j)%nat j x x Hj) as Hc. replace (j + S (i - S j))%nat with i in Hc by lia. specialize (Hc Hi). lia.
Qed.
Lemma get_chain_seen ix last n os : index_wf ix -> is_Some (get_block ix last) -> get_chain ix last n = Ok os ->
  NoDup os /\ Z.of_nat (length os) = n /\ Forall (indexed_object (seen ix)) os.
Proof.
  intros Hwf Hl Hc. assert (0 < n) as Hn by (unfold get_chain in Hc; destruct (Z.leb_spec n 0); [done|lia]).
  destruct (get_chain_spec ix last n Hwf Hl Hn) as (path & _ & Hp & Hspec). rewrite Hc in Hspec. case_match; [done|].
  destruct Hspec as (os' & [= <-] & Hlen & Hf2). pose proof (ranked_path_NoDup ix path Hwf Hp) as Hnd.
  rewrite <- (take_drop (length path - Z.to_nat n) path) in Hnd. apply NoDup_app in Hnd as (_ & _ & Hnd).
  split_and!; [|done|].
  - clear -Hf2 Hnd Hwf. induction Hf2 as [|o x os xs (b & Hb) Hf2 IH]; [constructor|]. apply NoDup_cons in Hnd as [Hx Hnd].
    constructor; [|by apply IH]. intros Hin. apply Hx. clear IH Hx Hnd.
    induction Hf2 as [|o' x' os xs (b' & Hb') Hf2 IH]; [by apply elem_of_nil in Hin|].
    apply elem_of_cons in Hin as [->|Hin]; [|right; auto]. rewrite (get_block_object ix x x' o' b b'); [by left|done..].
  - clear -Hf2. induction Hf2 as [|o x os xs (b & Hb) Hf2 IH]; constructor; [|done].
    exists x, (entry_of (o, b)). by rewrite lookup_seen, Hb.
Qed.
End client.
