(* ===== verification/PrefixRefs.v ===== *)
(** * References and freeable blocks of the prefix index

    What clients of the index share: counting the references on its blocks
    against who holds them, runs of references taken or given back, and the
    blocks that eviction can remove, as a function of the entries the index
    shows. *)

From stdpp Require Import base gmap list strings.
From Stdlib Require Import ZArith Lia.
From S2P Require Import Prelude PyDict PyBytes Sha256 RoutingMembership RadixTree RadixForest PrefixHash.
From S2P Require Import PrefixIndex PrefixIndexFacts PrefixCapacity PrefixEviction PrefixFreeable SlotRanges PrefixClient.

(** ** Lists *)

Lemma flat_elem {A} (m : gmap Z (list A)) sid x : x ∈ default [] (m !! sid) -> x ∈ flat m.
Proof.
  intros Hx. apply elem_of_flat. destruct (m !! sid) as [l|] eqn:Hl; [by exists sid, l|by apply elem_of_nil in Hx].
Qed.
Lemma flat_default {A} (m : gmap Z (list A)) sid : flat m ≡ₚ default [] (m !! sid) ++ flat (delete sid m).
Proof. destruct (m !! sid) as [x|] eqn:Hx; [by apply flat_delete|]. by rewrite delete_id. Qed.

Lemma flat_length {A} `{Countable K} (m : gmap K (list A)) (n : Z) :
  (forall k l, m !! k = Some l -> Z.of_nat (length l) = n) -> Z.of_nat (length (flat m)) = n * Z.of_nat (size m).
Proof.
  induction m as [|k l m Hk IH] using map_ind; intros Hl; [rewrite flat_empty, map_size_empty; cbn; lia|].
  rewrite flat_insert, length_app, map_size_insert_None by done. rewrite Nat2Z.inj_add, IH.
  - rewrite (Hl k l) by apply lookup_insert_eq. lia.
  - intros k' l' Hk'. apply (Hl k'). rewrite lookup_insert_ne; [done|congruence].
Qed.

Lemma int64s_take n toks : int64s toks = true -> int64s (take n toks) = true.
Proof. unfold int64s. rewrite !forallb_forall. intros Hx x Hin. apply Hx. rewrite <- (take_drop n toks). apply in_or_app. by left. Qed.
Lemma int64s_drop n toks : int64s toks = true -> int64s (drop n toks) = true.
Proof. unfold int64s. rewrite !forallb_forall. intros Hx x Hin. apply Hx. rewrite <- (take_drop n toks). apply in_or_app. by right. Qed.

(** ** Counting references

    [held] lists every reference that is held, by the object it is on. *)

Definition counted (bl : gmap bytes Entry) (held : list nat) : Prop :=
  (forall id en, bl !! id = Some en -> e_refs en = Z.of_nat (count_occ Nat.eq_dec held (e_obj en))) /\
  Forall (indexed_object bl) held.
Definition objects_apart (bl : gmap bytes Entry) : Prop :=
  forall id1 id2 e1 e2, bl !! id1 = Some e1 -> bl !! id2 = Some e2 -> e_obj e1 = e_obj e2 -> id1 = id2.

Lemma counted_perm bl held held' : held ≡ₚ held' -> counted bl held -> counted bl held'.
Proof.
  intros Hp [Hc Hf]. split.
  - intros id en Hen. rewrite (Hc id en Hen). f_equal. by apply Permutation_count_occ.
  - by rewrite <- Hp.
Qed.
Lemma indexed_object_update bl id en en' o : bl !! id = Some en -> e_obj en' = e_obj en ->
  indexed_object bl o -> indexed_object (<[id := en']> bl) o.
Proof.
  intros Hen Ho (id' & en1 & Hen1 & <-). destruct (decide (id' = id)) as [->|Hne].
  - exists id, en'. rewrite lookup_insert_eq. split; [done|]. congruence.
  - exists id', en1. by rewrite lookup_insert_ne.
Qed.
Lemma counted_update bl held held' id en n : objects_apart bl -> bl !! id = Some en -> counted bl held ->
  Forall (indexed_object bl) held' ->
  (forall o, o <> e_obj en -> count_occ Nat.eq_dec held' o = count_occ Nat.eq_dec held o) ->
  n = Z.of_nat (count_occ Nat.eq_dec held' (e_obj en)) ->
  counted (<[id := en <| e_refs := n |>]> bl) held'.
Proof.
  intros Hap Hen [Hc _] Hf Ho Hn. split.
  - intros id' en' Hen'. destruct (decide (id' = id)) as [->|Hne].
    + rewrite lookup_insert_eq in Hen'. injection Hen' as <-. exact Hn.
    + rewrite lookup_insert_ne in Hen' by done. rewrite Ho; [by apply (Hc id')|].
      intros E. apply Hne. by apply (Hap id' id en' en).
  - eapply Forall_impl; [exact Hf|]. intros o. by apply (indexed_object_update bl id en).
Qed.
Lemma counted_acquire bl held id en : objects_apart bl -> bl !! id = Some en -> counted bl held ->
  counted (<[id := en <| e_refs ::= fun n => n + 1 |>]> bl) (e_obj en :: held).
Proof.
  intros Hap Hen Hc. apply (counted_update bl held (e_obj en :: held) id en (e_refs en + 1)); try done.
  - constructor; [by exists id, en|apply Hc].
  - intros o Hne. apply count_occ_cons_neq. done.
  - rewrite (proj1 Hc id en Hen), count_occ_cons_eq by done. lia.
Qed.
Lemma counted_release bl held id en : objects_apart bl -> bl !! id = Some en -> counted bl (e_obj en :: held) ->
  0 < e_refs en /\ counted (<[id := en <| e_refs ::= fun n => n - 1 |>]> bl) held.
Proof.
  intros Hap Hen Hc. pose proof (proj1 Hc id en Hen) as Hr. rewrite count_occ_cons_eq in Hr by done. split; [lia|].
  pose proof Hc as [_ Hf]. apply Forall_cons in Hf as [_ Hf].
  apply (counted_update bl (e_obj en :: held) held id en (e_refs en - 1)); try done.
  - intros o Hne. symmetry. by apply count_occ_cons_neq.
  - lia.
Qed.
Lemma counted_refs_pos bl held id en : counted bl held -> bl !! id = Some en -> 0 <= e_refs en.
Proof. intros [Hc _] Hen. rewrite (Hc id en Hen). lia. Qed.

(** ** Blocks nothing holds, with all their descendants *)

Definition entry_blocked (en : Entry) : bool :=
  negb (e_refs en =? 0) || (e_priority en <? 0) || bool_decide (transfer (e_residency en) <> None).
Definition parents (bl : gmap bytes Entry) : forest := fun id => e_parent <$> bl !! id.
Definition free_subtree (bl : gmap bytes Entry) (id : bytes) : Prop :=
  is_Some (bl !! id) /\ forall x en, below (parents bl) id x -> bl !! x = Some en -> entry_blocked en = false.

Section refs.
Context `{Digest}.
#[local] Abbreviation Index := (RadixPrefixIndex RadixTreeBackend).
Implicit Types (ix : Index) (id : bytes) (o : nat).

Lemma parents_seen ix : index_wf ix -> forall id, parents (seen ix) id = forest_of (backend ix) id.
Proof.
  intros Hwf id. rewrite (iwf_forest ix Hwf). unfold parents. rewrite lookup_seen. by destruct (get_block ix id) as [[o b]|].
Qed.
Lemma freeable_seen ix id : index_wf ix -> freeable_spec ix id <-> free_subtree (seen ix) id.
Proof.
  intros Hwf. pose proof (parents_seen ix Hwf) as Hp. unfold freeable_spec, closure_spec, free_subtree, block_sat.
  rewrite lookup_seen. setoid_rewrite lookup_seen. split.
  - intros [(o & b & Hg & _) Hc]. rewrite Hg. split; [eauto|]. intros x en Hx Hen.
    destruct (get_block ix x) as [[o' b']|] eqn:Hx'; [|done]. injection Hen as <-.
    apply (Hc x) with o'; [|done]. by apply (below_ext (parents (seen ix))).
  - intros [Hs Hc]. destruct (get_block ix id) as [[o b]|] eqn:Hg; [|by destruct Hs]. split; [eauto|].
    intros x Hx o' b' Hg'. apply (Hc x (entry_of (o', b'))); [|by rewrite Hg'].
    by apply (below_ext (forest_of (backend ix))).
Qed.

(** What [freeable_block_ids] answers. *)
Definition freeable_set ix : gset bytes := match (freeable_block_ids ix).1 with Ok ids => ids | Raise _ => ∅ end.
Lemma freeable_set_spec ix id : index_inv ix -> id ∈ freeable_set ix <-> free_subtree (seen ix) id.
Proof.
  intros Hinv. rewrite <- (freeable_seen ix id (proj1 Hinv)). pose proof (freeable_block_ids_spec ix Hinv) as Hs. unfold wp in Hs.
  destruct Hs as (_ & _ & _ & ids & Hr & Hids). unfold freeable_set. rewrite Hr. apply Hids.
Qed.
Lemma freeable_set_same ix ix' : index_inv ix -> index_inv ix' -> seen ix' = seen ix -> freeable_set ix' = freeable_set ix.
Proof.
  intros Hinv Hinv' Hs. apply leibniz_equiv. intros id. rewrite !freeable_set_spec by done. by rewrite Hs.
Qed.

(** Evicted blocks were freeable, the other freeable blocks still are. *)
Lemma freeable_set_evicted ix l ix' : evict_trace unheld ix l ix' ->
  Z.of_nat (size (freeable_set ix)) = Z.of_nat (length l) + Z.of_nat (size (freeable_set ix')).
Proof.
  intros Htr. destruct (evict_trace_inv _ _ _ _ Htr) as [Hinv Hinv']. destruct (trace_freeable _ _ _ Htr) as (Hnd & Hf & Hids).
  replace (freeable_set ix) with (list_to_set (trace_ids l) ∪ freeable_set ix').
  - rewrite size_union.
    + rewrite (size_list_to_set (C := gset bytes)) by done. unfold trace_ids. rewrite !length_fmap. lia.
    + intros x Hx Hx'. apply elem_of_list_to_set in Hx. destruct (Hids x Hx) as [_ Hn].
      apply (freeable_set_spec ix' x Hinv') in Hx' as [Hs _]. rewrite lookup_seen, Hn in Hs. by destruct Hs.
  - apply leibniz_equiv. intros x. rewrite elem_of_union, elem_of_list_to_set, !freeable_set_spec by done.
    rewrite <- !freeable_seen by (apply Hinv || apply Hinv'). symmetry. apply Hf.
Qed.
Lemma no_leaf_freeable ix : index_inv ix -> (forall id, ~ leaf_spec unheld ix id) -> freeable_set ix = ∅.
Proof.
  intros Hinv Hn. destruct (decide (freeable_set ix = ∅)) as [|Hne]; [done|]. exfalso.
  destruct (freeable_leaf ix (freeable_set ix) (proj1 Hinv)) as [y Hy]; [|done|by apply (Hn y)].
  intros x. by rewrite freeable_set_spec, freeable_seen by apply Hinv || done.
Qed.

(** How many blocks left, and what a quantity of theirs was. *)
Lemma flat_singletons {A} (f : Entry -> A) (bl : gmap bytes Entry) : length (flat ((fun en => [f en]) <$> bl)) = size bl.
Proof.
  apply Nat2Z.inj. rewrite (flat_length _ 1); [rewrite map_size_fmap; lia|].
  intros k l Hk. rewrite lookup_fmap in Hk. destruct (bl !! k); [by injection Hk as <-|done].
Qed.
Lemma bind_singletons {A B} (f : A -> B) (l : list A) : (l ≫= fun x => [f x]) = f <$> l.
Proof. induction l as [|x l IH]; cbn; [done|]. by rewrite <- IH. Qed.
Lemma gone_size ix l ix' : gone ix l ix' -> size (seen ix) = (length l + size (seen ix'))%nat.
Proof.
  intros Hg. pose proof (Permutation_length (gone_split _ _ _ Hg (fun en => [en]))) as Hp.
  rewrite length_app, (bind_singletons entry_of), length_fmap, !(flat_singletons (fun en => en)) in Hp. done.
Qed.
Lemma gone_sum ix l ix' (f : Entry -> Z) : gone ix l ix' ->
  sumZ (flat ((fun en => [f en]) <$> seen ix)) = sumZ ((fun ob => f (entry_of ob)) <$> l) + sumZ (flat ((fun en => [f en]) <$> seen ix')).
Proof.
  intros Hg. rewrite (gone_split _ _ _ Hg (fun en => [f en])), sumZ_app.
  by rewrite (bind_singletons (fun ob => f (entry_of ob))).
Qed.

(** The index lists its objects in some order. *)
Lemma values_seen {A} ix (f : Entry -> A) (g : nat -> A) : index_wf ix -> (forall id en, seen ix !! id = Some en -> g (e_obj en) = f en) ->
  g <$> values (blocks ix) ≡ₚ flat ((fun en => [f en]) <$> seen ix).
Proof.
  intros Hwf Hg. set (F := fun io : bytes * nat => (io.1, default (mkEntry io.2 0 0 (mkResidency true false None) None 0) (seen ix !! io.1))).
  assert (forall id o, (id, o) ∈ items (blocks ix) -> exists en, seen ix !! id = Some en /\ e_obj en = o) as Hin.
  { intros id o Hio. apply (dict_elem_of_items _ _ _ (iwf_dict ix Hwf)) in Hio. destruct (iwf_store ix Hwf id o Hio) as (b & Hb & _).
    exists (entry_of (o, b)). split; [|done]. rewrite lookup_seen. unfold get_block. by rewrite Hio, Hb. }
  assert (F <$> items (blocks ix) ≡ₚ map_to_list (seen ix)) as Hp.
  { apply NoDup_Permutation.
    - apply (NoDup_fmap_1 fst). rewrite <- list_fmap_compose. exact (iwf_dict ix Hwf).
    - apply NoDup_map_to_list.
    - intros [id en]. rewrite elem_of_map_to_list, list_elem_of_fmap. split.
      + intros ([id' o] & [= -> ->] & Hio). destruct (Hin _ _ Hio) as (en & Hen & _). cbn. by rewrite Hen.
      + intros Hen. pose proof Hen as (o & b & Hgb & _)%seen_Some. apply get_block_Some in Hgb as (Hb & _); [|done]. exists (id, o).
        split; [unfold F; cbn; by rewrite Hen|]. by apply dict_elem_of_items_1. }
  unfold flat. rewrite map_to_list_fmap, <- Hp, <- !list_fmap_compose.
  unfold values. rewrite <- list_fmap_compose. apply reflexive_eq.
  assert (forall l, (forall id o, (id, o) ∈ l -> exists en, seen ix !! id = Some en /\ e_obj en = o) ->
    (g ∘ snd) <$> l = concat ((snd ∘ prod_map id (fun en => [f en]) ∘ F) <$> l)) as Hl; [|by apply Hl].
  clear Hin Hp. induction l as [|[id o] l IH]; intros Hin; cbn; [done|]. destruct (Hin id o ltac:(by left)) as (en & Hen & <-).
  rewrite IH by (intros id' o' H'; apply Hin; by right). unfold F at 1. cbn. rewrite Hen. cbn. by rewrite (Hg id en Hen).
Qed.
Lemma live_seen ix : index_wf ix -> live ix = Z.of_nat (size (seen ix)).
Proof.
  intros Hwf. pose proof (Permutation_length (values_seen ix e_obj (fun o => o) Hwf ltac:(done))) as Hp.
  rewrite flat_singletons, length_fmap in Hp. unfold live. rewrite <- Hp. unfold values, len. by rewrite length_fmap.
Qed.

(** ** Runs of references *)

Lemma seen_apart (ix : Index) : index_inv ix -> objects_apart (seen ix).
Proof. intros [Hwf _] id1 id2 e1 e2 H1 H2 E. by apply (seen_object ix id1 id2 e1 e2). Qed.

(** What a run of reference changes keeps of the entries. *)
(** An entry apart from its references. *)
Definition but_refs (en : Entry) : Entry := en <| e_refs := 0 |>.
Definition same_but_refs (bl bl' : gmap bytes Entry) : Prop :=
  forall id, but_refs <$> bl' !! id = but_refs <$> bl !! id.
#[global] Instance same_but_refs_trans : Transitive same_but_refs.
Proof. intros b1 b2 b3 H1 H2 id. by rewrite (H2 id). Qed.
Lemma same_but_refs_insert bl id en n : bl !! id = Some en -> same_but_refs bl (<[id := en <| e_refs ::= n |>]> bl).
Proof.
  intros Hen id'. destruct (decide (id' = id)) as [->|Hne]; [by rewrite lookup_insert_eq, Hen|by rewrite lookup_insert_ne].
Qed.
Lemma same_but_refs_elem bl bl' id en : same_but_refs bl bl' -> bl !! id = Some en -> exists en', bl' !! id = Some en' /\
  e_obj en' = e_obj en /\ e_payload en' = e_payload en /\ e_residency en' = e_residency en.
Proof.
  intros Hs Hen. specialize (Hs id). rewrite Hen in Hs. destruct (bl' !! id) as [en'|]; [|done]. exists en'. unfold but_refs in Hs. cbn in Hs. by simplify_eq.
Qed.
Lemma same_but_refs_sym bl bl' : same_but_refs bl bl' -> same_but_refs bl' bl.
Proof. intros Hs id. by rewrite (Hs id). Qed.
Lemma same_but_refs_indexed bl bl' o : same_but_refs bl bl' -> indexed_object bl o -> indexed_object bl' o.
Proof. intros Hs (id & en & Hen & <-). destruct (same_but_refs_elem _ _ _ _ Hs Hen) as (en' & ? & ? & _). by exists id, en'. Qed.

(** Only the entries of the objects [os] got references. *)
Definition pins (os : list nat) (bl bl' : gmap bytes Entry) : Prop := same_but_refs bl bl' /\
  forall id en en', bl !! id = Some en -> bl' !! id = Some en' -> 0 <= e_refs en <= e_refs en' /\ (e_obj en ∉ os -> e_refs en' = e_refs en).
Lemma counted_pins bl bl' os held : same_but_refs bl bl' -> counted bl held -> counted bl' (os ++ held) -> pins os bl bl'.
Proof.
  intros Hs [Hc _] [Hc' _]. split; [done|]. intros id en en' Hen Hen'. destruct (same_but_refs_elem _ _ _ _ Hs Hen) as (en1 & Hen1 & Ho & _).
  assert (en1 = en') as -> by congruence. rewrite (Hc' id en' Hen'), (Hc id en Hen), Ho, count_occ_app. split; [lia|]. intros Hn.
  rewrite (proj1 (count_occ_not_In Nat.eq_dec os (e_obj en))); [done|]. by intros ?%list_elem_of_In.
Qed.

Definition refs_result (ix ix' : Index) held : Prop :=
  client_step ix ix' /\ same_but_refs (seen ix) (seen ix') /\ counted (seen ix') held.

Lemma release_all_index msg os held (ix : Index) : index_inv ix -> counted (seen ix) (os ++ held) ->
  wp (for_each os (fun o => release_block_ref o msg)) (fun x ix' => x = Ok tt /\ refs_result ix ix' held) ix.
Proof.
  revert ix. induction os as [|o os IH]; intros ix Hinv Hcnt; cbn [for_each app] in *; [by apply wp_ret|].
  pose proof (proj2 Hcnt) as Hf. apply Forall_cons in Hf as [(id & en & Hen & <-) _].
  destruct (counted_release _ _ _ _ (seen_apart _ Hinv) Hen Hcnt) as [Hpos Hcnt'].
  apply wp_bind. eapply wp_mono; [by apply (release_seen ix id en)|]. cbv beta. intros x ix1 (-> & [Hinv1 Hc1] & Hs1).
  rewrite <- Hs1 in Hcnt'. eapply wp_mono; [by apply IH|]. cbv beta. intros x ix2 (-> & [Hinv2 Hc2] & Hs2 & Hcnt2).
  split; [done|]. split; [split; [done|congruence]|]. split; [|done]. etrans; [|exact Hs2]. rewrite Hs1. by apply same_but_refs_insert.
Qed.
Lemma acquire_all_index os held (ix : Index) : index_inv ix -> counted (seen ix) held -> Forall (indexed_object (seen ix)) os ->
  wp (for_each os acquire_block_ref) (fun x ix' => x = Ok tt /\ refs_result ix ix' (os ++ held)) ix.
Proof.
  revert ix held. induction os as [|o os IH]; intros ix held Hinv Hcnt Hf; cbn [for_each app] in *; [by apply wp_ret|].
  apply Forall_cons in Hf as [(id & en & Hen & <-) Hf].
  apply wp_bind. eapply wp_mono; [apply (acquire_seen ix id en Hinv Hen); by eapply counted_refs_pos|]. cbv beta.
  intros x ix1 (-> & [Hinv1 Hc1] & Hs1).
  assert (same_but_refs (seen ix) (seen ix1)) as Hsame by (rewrite Hs1; by apply same_but_refs_insert).
  eapply wp_mono; [apply (IH ix1 (e_obj en :: held) Hinv1)|].
  - rewrite Hs1. apply counted_acquire; [by apply seen_apart|done..].
  - eapply Forall_impl; [exact Hf|]. intros o. by apply same_but_refs_indexed.
  - cbv beta. intros x ix2 (-> & [Hinv2 Hc2] & Hs2 & Hcnt2). split; [done|]. split; [split; [done|congruence]|].
    split; [by etrans|]. eapply counted_perm; [|exact Hcnt2]. solve_Permutation.
Qed.

(** A new index holds nothing. *)
Lemma new_index_empty bs fp max (ix : Index) : new_index bs fp max = Ok ix ->
  seen ix = ∅ /\ PrefixIndex.config ix = mkIndexConfig bs fp max /\ forall m, max = Some m -> 0 <= m.
Proof.
  unfold new_index. destruct (bs <=? 0); [done|]. destruct max as [m|]; [destruct (Z.leb_spec m 0); [done|]|]; intros [= <-];
    (split; [apply map_eq; intros id; rewrite lookup_seen; done|]; split; [done|]); [intros m' [= <-]; lia|done].
Qed.
End refs.
