(* ===== verification/StandardInvariant.v ===== *)
(** * The standard cache manager: who owns each slot

    The invariant of [StandardCacheManager]: every slot is free, in a private
    cell of one request's row or in one block of the prefix index; the rows are
    laid out as the request's recorded blocks say; each range of a row that
    belongs to a block shows that block's slots; and the index counts exactly
    the references the requests hold.  The capacity is what such a manager can
    still hand out: the free slots and those of the blocks that repeated
    eviction can remove. *)

From stdpp Require Import base gmap list strings.
From Stdlib Require Import ZArith Lia.
From S2P Require Import Prelude PyDict PyBytes Sha256 RoutingMembership RadixTree RadixForest PrefixHash.
From S2P Require Import PrefixIndex PrefixIndexFacts PrefixCapacity PrefixEviction PrefixFreeable SamplingParams Sequence PrefixLookup.
From S2P Require Import StandardCache SlotRanges PrefixClient PrefixRefs.

#[local] Abbreviation Payloads := (gmap nat StandardPrefixBlockPayload).
#[local] Abbreviation Blocks := (gmap bytes Entry).

(** ** Slots of blocks *)

Definition slots_of (pl : Payloads) (o : nat) : list Z := match pl !! o with Some p => default [] (token_slots p) | None => [] end.
(** The payload owns the slots [l], one per token of a full block. *)
Definition owns (bs : Z) (pl : Payloads) (o : nat) (l : list Z) : Prop :=
  exists p, pl !! o = Some p /\ token_slots p = Some l /\ retained_offsets p = None /\ Z.of_nat (length l) = bs.
Lemma owns_slots bs pl o l : owns bs pl o l -> slots_of pl o = l.
Proof. intros (p & Hp & Ht & _). unfold slots_of. by rewrite Hp, Ht. Qed.
Definition shared_of (bl : Blocks) (pl : Payloads) : gmap bytes (list Z) := (fun en => slots_of pl (e_payload en)) <$> bl.

(** ** The layout of a row *)

Definition on_device : PrefixBlockResidency := mkResidency true false None.

Record SeqView := mkSeqView {
  v_len : Z;
  v_cells : list Z;
  v_attached : list nat;
  v_materialized : list nat;
  v_ranges : list Range;
  v_state : option PrefixRuntimeState;
  v_pending : list PendingPrefixBlock;
}.

#[export] Instance eta_view : Eta SeqView := fun r =>
  mkSeqView (v_len r) (v_cells r) (v_attached r) (v_materialized r) (v_ranges r) (v_state r) (v_pending r).

Section layout.
Context (bs : Z) (bl : Blocks) (pl : Payloads).

(** The pending blocks [ps] are the [k]-th, [k+1]-th, ... of the row. *)
Fixpoint pending_at (cells : list Z) (k : Z) (ps : list PendingPrefixBlock) : Prop :=
  match ps with
  | [] => True
  | p :: ps' =>
      (pending_logical_idx p = k /\ owns bs pl (pending_payload p) (pending_block_slots p) /\
       pending_block_slots p = slice (k * bs) ((k + 1) * bs) cells) /\
      pending_at cells (k + 1) ps'
  end.

(** [R] cells are recorded: the attached blocks, the blocks recorded since, and
    the tokens of the block that is filling up. *)
Definition recorded (R : Z) (v : SeqView) : Prop :=
  match v_state v with
  | None => v_pending v = [] /\ ranges_between 0 (v_ranges v) (Z.of_nat (length (v_attached v)) * bs)
  | Some st => exists k,
      next_logical_block_idx st = k + Z.of_nat (length (v_pending v)) /\
      Z.of_nat (length (v_attached v)) <= k /\ Z.of_nat (length (v_attached v)) * bs < v_len v /\
      ranges_between 0 (v_ranges v) (k * bs) /\
      pending_at (v_cells v) k (v_pending v) /\
      R = next_logical_block_idx st * bs + Z.of_nat (length (pending_tokens st)) /\
      Z.of_nat (length (pending_tokens st)) <= bs /\
      concat (pending_slots st) = slice (next_logical_block_idx st * bs) R (v_cells v) /\
      int64s (pending_tokens st) = true
  end.

Definition backed (cells : list Z) (held : list nat) (ab : Range) : Prop :=
  exists id en, bl !! id = Some en /\ e_obj en ∈ held /\ slots_of pl (e_payload en) = slice ab.1 ab.2 cells.

Record seq_ok (gap : Z) (v : SeqView) : Prop := {
  so_length : Z.of_nat (length (v_cells v)) = v_len v;
  so_attached : Z.of_nat (length (v_attached v)) * bs <= v_len v - gap;
  so_gap : 0 <= gap;
  so_ranges : ranges_between 0 (v_ranges v) (v_len v - gap);
  so_recorded : recorded (v_len v - gap) v;
  so_backed : Forall (backed (v_cells v) (v_attached v ++ v_materialized v)) (v_ranges v);
  so_distinct : NoDup (v_cells v);
}.
End layout.

(** ** The manager's parts *)

Section invariant.
Context `{Digest}.
Implicit Types (s : StandardCacheManager) (sid r : Z) (o : nat).

Definition index_of s : option (RadixPrefixIndex RadixTreeBackend) := the_index <$> prefix_cache s.
Definition blk s : Blocks := match prefix_cache s with Some c => seen (the_index c) | None => ∅ end.
Definition size_of s : Z := std_block_size (std_config s).

Definition len_of s r : Z := default 0 (row_seq_lens s !! Z.to_nat r).
Definition row_of s r : list Z := default [] (buffer_req_to_token_slots s !! Z.to_nat r).
Definition cells s r : list Z := take (Z.to_nat (len_of s r)) (row_of s r).
Definition ranges_of s sid : list Range := default [] (seq_id_to_cached_ranges s !! sid).
Definition private_of s sid r : list Z := slices (cells s r) (complement_ranges 0 (len_of s r) (ranges_of s sid)).
Definition private s : gmap Z (list Z) := map_imap (fun sid r => Some (private_of s sid r)) (seq_id_to_row s).
Definition shared s : gmap bytes (list Z) := shared_of (blk s) (payloads s).
Definition free s : list Z := take (Z.to_nat (num_free_slots s)) (free_slots_stack s).

Definition view s sid r : SeqView :=
  mkSeqView (len_of s r) (cells s r) (default [] (seq_id_to_prefix_blocks s !! sid))
    (default [] (seq_id_to_materialized_blocks s !! sid)) (ranges_of s sid)
    (prefix_runtime_states s !! sid) (default [] (pending_prefix_blocks s !! sid)).

Definition holders s : list nat := flat (seq_id_to_prefix_blocks s) ++ flat (seq_id_to_materialized_blocks s).

(** What an operation has in its hands: references acquired for no request yet,
    slots popped and not placed, and cells written and not recorded. *)
Record Flight := mkFlight {
  extra_refs : list nat;
  loose : list Z;
  gap : Z -> Z;
}.
Definition rest : Flight := mkFlight [] [] (fun _ => 0).

Record shape_ok s : Prop := {
  sh_stack : Z.of_nat (length (free_slots_stack s)) = Z.max 0 (num_kvcache_slots (std_config s));
  sh_free : 0 <= num_free_slots s <= Z.of_nat (length (free_slots_stack s));
  sh_table : Z.of_nat (length (buffer_req_to_token_slots s)) = Z.max 0 (max_buffer_rows (std_config s));
  sh_rows : Forall (fun row => Z.of_nat (length row) = Z.max 0 (max_model_len (std_config s))) (buffer_req_to_token_slots s);
  sh_lens : length (row_seq_lens s) = length (buffer_req_to_token_slots s);
  sh_logical : row_logical_lens s = row_seq_lens s;
  sh_range : forall r, 0 <= len_of s r <= Z.max 0 (max_model_len (std_config s));
  sh_perm : free_rows s ++ (map_to_list (seq_id_to_row s)).*2 ≡ₚ arange (max_buffer_rows (std_config s));
  sh_empty : forall r, r ∈ free_rows s -> len_of s r = 0;
}.

Definition index_ok s : Prop :=
  match index_of s with
  | Some ix => enable_prefix_caching (std_config s) = true /\ index_inv ix /\ block_size (PrefixIndex.config ix) = size_of s
  | None => prefix_runtime_states s = ∅
  end.
Definition blocks_ok s : Prop := forall id en, blk s !! id = Some en ->
  e_residency en = on_device /\ exists l, owns (size_of s) (payloads s) (e_payload en) l.
Definition refs_ok (held : list nat) s : Prop := counted (blk s) (held ++ holders s).
Definition absent s sid : Prop :=
  seq_id_to_prefix_blocks s !! sid = None /\ seq_id_to_materialized_blocks s !! sid = None /\
  seq_id_to_cached_ranges s !! sid = None /\ prefix_runtime_states s !! sid = None /\ pending_prefix_blocks s !! sid = None.
Definition seqs_ok (g : Z -> Z) s : Prop := forall sid,
  match seq_id_to_row s !! sid with
  | Some r => seq_ok (size_of s) (blk s) (payloads s) (g sid) (view s sid r)
  | None => absent s sid
  end.
Definition conserved (l : list Z) s : Prop :=
  free s ++ flat (private s) ++ flat (shared s) ++ l ≡ₚ arange (num_kvcache_slots (std_config s)).

Record mgr_ok (fl : Flight) s : Prop := {
  mo_shape : shape_ok s;
  mo_index : index_ok s;
  mo_blocks : blocks_ok s;
  mo_refs : refs_ok (extra_refs fl) s;
  mo_seqs : seqs_ok (gap fl) s;
  mo_conserved : conserved (loose fl) s;
}.

(** ** First consequences *)

Lemma arange_NoDup n : NoDup (arange n).
Proof. unfold arange. apply NoDup_fmap_2; [apply _|]. apply NoDup_ListNoDup, seq_NoDup. Qed.
Lemma elem_of_arange n x : x ∈ arange n <-> 0 <= x < n.
Proof.
  unfold arange. rewrite list_elem_of_fmap. setoid_rewrite elem_of_seq. split.
  - intros (k & -> & ?). lia.
  - intros ?. exists (Z.to_nat x). lia.
Qed.
Lemma conserved_NoDup l s : conserved l s -> NoDup (free s ++ flat (private s) ++ flat (shared s) ++ l).
Proof. intros Hc. unfold conserved in Hc. rewrite Hc. apply arange_NoDup. Qed.

Lemma lookup_private s sid : private s !! sid = private_of s sid <$> seq_id_to_row s !! sid.
Proof. unfold private. rewrite map_lookup_imap. by destruct (seq_id_to_row s !! sid). Qed.
Lemma lookup_shared s id : shared s !! id = (fun en => slots_of (payloads s) (e_payload en)) <$> blk s !! id.
Proof. apply lookup_fmap. Qed.

Lemma row_valid s sid r : shape_ok s -> seq_id_to_row s !! sid = Some r -> 0 <= r < max_buffer_rows (std_config s).
Proof.
  intros Hs Hr. apply elem_of_arange. rewrite <- (sh_perm s Hs), elem_of_app. right.
  apply list_elem_of_fmap. exists (sid, r). split; [done|]. by apply elem_of_map_to_list.
Qed.
Lemma row_inj s sid sid' r : shape_ok s -> seq_id_to_row s !! sid = Some r -> seq_id_to_row s !! sid' = Some r -> sid = sid'.
Proof.
  intros Hs H1 H2. pose proof (arange_NoDup (max_buffer_rows (std_config s))) as Hnd. rewrite <- (sh_perm s Hs) in Hnd.
  apply NoDup_app in Hnd as (_ & _ & Hnd). destruct (decide (sid = sid')) as [|Hne]; [done|]. exfalso.
  rewrite <- (insert_delete_id _ _ _ H1), map_to_list_insert in Hnd by apply lookup_delete_eq.
  cbn in Hnd. apply NoDup_cons in Hnd as [Hn _]. apply Hn. apply list_elem_of_fmap. exists (sid', r). split; [done|].
  apply elem_of_map_to_list. by rewrite lookup_delete_ne.
Qed.
Lemma free_row_unused s sid r : shape_ok s -> seq_id_to_row s !! sid = Some r -> r ∉ free_rows s.
Proof.
  intros Hs Hr Hin. pose proof (arange_NoDup (max_buffer_rows (std_config s))) as Hnd. rewrite <- (sh_perm s Hs) in Hnd.
  apply NoDup_app in Hnd as (_ & Hn & _). apply (Hn r Hin). apply list_elem_of_fmap. exists (sid, r).
  split; [done|]. by apply elem_of_map_to_list.
Qed.
Lemma row_lookup s r : shape_ok s -> 0 <= r < max_buffer_rows (std_config s) ->
  exists row, buffer_req_to_token_slots s !! Z.to_nat r = Some row /\ row_of s r = row /\
    Z.of_nat (length row) = Z.max 0 (max_model_len (std_config s)) /\
    row_seq_lens s !! Z.to_nat r = Some (len_of s r).
Proof.
  intros Hs Hr. pose proof (sh_table s Hs). destruct (lookup_lt_is_Some_2 (buffer_req_to_token_slots s) (Z.to_nat r)) as [row Hrow]; [lia|].
  exists row. split_and!; [done|unfold row_of; by rewrite Hrow|by apply (Forall_lookup_1 _ _ _ _ (sh_rows s Hs) Hrow)|].
  unfold len_of. destruct (lookup_lt_is_Some_2 (row_seq_lens s) (Z.to_nat r)) as [n ->]; [|done].
  rewrite (sh_lens s Hs). by apply lookup_lt_Some in Hrow.
Qed.

Lemma mgr_ok_gap refs l g g' s : (forall sid, g sid = g' sid) -> mgr_ok (mkFlight refs l g) s -> mgr_ok (mkFlight refs l g') s.
Proof.
  intros Hg [Hs Hix Hb Hrf Hsq Hc]. split; try done. intros sid. cbn in *. rewrite <- Hg. apply Hsq.
Qed.
Lemma mgr_ok_perm refs refs' l l' g s : refs ≡ₚ refs' -> l ≡ₚ l' -> mgr_ok (mkFlight refs l g) s -> mgr_ok (mkFlight refs' l' g) s.
Proof.
  intros Hr Hl [Hs Hix Hb Hrf Hsq Hc]. split; try done; cbn in *.
  - destruct Hrf as [H1 H2]. split; [|by rewrite <- Hr]. intros id en Hen. rewrite (H1 id en Hen). f_equal.
    apply Permutation_count_occ. by rewrite Hr.
  - unfold conserved in *. by rewrite <- Hl.
Qed.
End invariant.

(** ** The capacity of a manager *)

Section capacity.
Context `{Digest}.
Implicit Types (s : StandardCacheManager) (sid r : Z) (o : nat) (fl : Flight).

Definition freeable s : gset bytes := match prefix_cache s with Some c => freeable_set (the_index c) | None => ∅ end.
Definition capacity s : Z := num_free_slots s + size_of s * Z.of_nat (size (freeable s)).

Lemma mgr_index_inv fl s c : mgr_ok fl s -> prefix_cache s = Some c -> index_inv (the_index c).
Proof. intros Hok Hc. pose proof (mo_index _ _ Hok) as Hix. unfold index_ok, index_of in Hix. rewrite Hc in Hix. apply Hix. Qed.
Lemma freeable_elem fl s id : mgr_ok fl s -> id ∈ freeable s <-> is_Some (prefix_cache s) /\ free_subtree (blk s) id.
Proof.
  intros Hok. unfold freeable, blk. destruct (prefix_cache s) as [c|] eqn:Hc.
  - rewrite freeable_set_spec by (by eapply mgr_index_inv). split; [intros ?; eauto|by intros [_ ?]].
  - split; [by intros ?%elem_of_empty|]. by intros [[? ?] _].
Qed.
Lemma freeable_same fl fl' s s' : mgr_ok fl s -> mgr_ok fl' s' -> (is_Some (prefix_cache s') <-> is_Some (prefix_cache s)) ->
  blk s' = blk s -> freeable s' = freeable s.
Proof. intros Hok Hok' Hc Hb. apply leibniz_equiv. intros id. rewrite (freeable_elem fl' s'), (freeable_elem fl s), Hc, Hb by done. done. Qed.
Lemma capacity_bounds fl s : mgr_ok fl s -> 0 <= size_of s -> num_free_slots s <= capacity s.
Proof. intros Hok Hs. unfold capacity. nia. Qed.

(** Every slot is counted once. *)
Lemma slots_counted fl s : mgr_ok fl s ->
  num_free_slots s + Z.of_nat (length (flat (private s))) + size_of s * Z.of_nat (size (blk s)) + Z.of_nat (length (loose fl)) =
    Z.max 0 (num_kvcache_slots (std_config s)).
Proof.
  intros Hok. pose proof (mo_conserved _ _ Hok) as Hc. unfold conserved in Hc. apply Permutation_length in Hc.
  pose proof (sh_free _ (mo_shape _ _ Hok)).
  assert (Z.of_nat (length (flat (shared s))) = size_of s * Z.of_nat (size (blk s))) as Hsh.
  { unfold shared, shared_of. rewrite (flat_length _ (size_of s)).
    - by rewrite map_size_fmap.
    - intros id l Hl. rewrite lookup_fmap in Hl. destruct (blk s !! id) as [en|] eqn:Hen; [|done]. injection Hl as <-.
      destruct (mo_blocks _ _ Hok id en Hen) as (_ & l & Hl). rewrite (owns_slots _ _ _ _ Hl). by destruct Hl as (? & _ & _ & _ & ?). }
  rewrite !length_app in Hc. assert (Z.of_nat (length (free s)) = num_free_slots s) as Hf by (unfold free; rewrite length_take; lia).
  unfold arange in Hc. rewrite length_fmap, length_seq in Hc. lia.
Qed.

(** Taking references on the blocks [X], whose ancestors are in [X], costs at
    most the freeable ones among them. *)
Lemma pinned_freeable fl fl' s s' (X : gset bytes) : mgr_ok fl s -> mgr_ok fl' s' -> (is_Some (prefix_cache s') <-> is_Some (prefix_cache s)) ->
  (forall id, (e_parent <$> blk s' !! id) = (e_parent <$> blk s !! id)) ->
  (forall id en en', blk s !! id = Some en -> blk s' !! id = Some en' -> id ∉ X -> entry_blocked en = false -> entry_blocked en' = false) ->
  (forall x y, y ∈ X -> below (parents (blk s)) x y -> x ∈ X) ->
  freeable s ∖ X ⊆ freeable s'.
Proof.
  intros Hok Hok' Hc Hpar Hblk Hup id Hid. apply elem_of_difference in Hid as [Hid Hn].
  rewrite (freeable_elem fl s) in Hid by done. rewrite (freeable_elem fl' s') by done. destruct Hid as (Hs & Hp & Hb).
  assert (forall x, is_Some (blk s' !! x) <-> is_Some (blk s !! x)) as Hdom.
  { intros x. specialize (Hpar x). destruct (blk s' !! x), (blk s !! x); done || (split; intros [? ?]; done). }
  split; [by apply Hc|]. split; [by apply Hdom|]. intros x en' Hx Hen'.
  destruct (proj1 (Hdom x) ltac:(eauto)) as [en Hen]. assert (below (parents (blk s)) id x) as Hbx by (by apply (below_ext (parents (blk s')))).
  apply (Hblk x en en' Hen Hen'); [|by apply (Hb x)]. intros Hin. apply Hn. by apply (Hup id x).
Qed.
Lemma pinned_capacity s s' (X : gset bytes) : std_config s' = std_config s -> num_free_slots s' = num_free_slots s -> 0 <= size_of s ->
  freeable s ∖ X ⊆ freeable s' -> capacity s - size_of s * Z.of_nat (size (freeable s ∩ X)) <= capacity s'.
Proof.
  intros Hc Hn Hs Hsub. apply subseteq_size in Hsub. pose proof (subseteq_size (freeable s ∩ X) (freeable s) ltac:(set_solver)).
  rewrite size_difference_alt in Hsub. unfold capacity, size_of in *. rewrite Hc, Hn. nia.
Qed.
End capacity.
