(* ===== verification/StandardMoves.v ===== *)
(** * The standard cache manager: moving slots

    The elementary moves every operation is made of, as functions on states, and
    that each keeps the invariant: a fresh row for a request, slots popped from
    the free stack or returned to it, slots placed at the end of a row. *)

From stdpp Require Import base gmap list strings.
From Stdlib Require Import ZArith Lia.
From S2P Require Import Prelude PyDict PyBytes Sha256 RoutingMembership RadixTree RadixForest PrefixHash.
From S2P Require Import PrefixIndex PrefixIndexFacts PrefixCapacity SamplingParams Sequence PrefixLookup.
From S2P Require Import StandardCache SlotRanges PrefixClient PrefixRefs StandardInvariant.

Section moves.
Context `{Digest}.
Implicit Types (s : StandardCacheManager) (sid r : Z) (o : nat) (v l : list Z) (fl : Flight).

(** What one request's operation leaves alone of another: its row, the slots the
    row shows and its records. *)
Record stays sid s s' : Prop := {
  st_config : std_config s' = std_config s;
  st_index : is_Some (prefix_cache s') <-> is_Some (prefix_cache s);
  st_row : seq_id_to_row s' !! sid = seq_id_to_row s !! sid;
  st_cells : forall r, seq_id_to_row s !! sid = Some r -> len_of s' r = len_of s r /\ cells s' r = cells s r;
  st_attached : seq_id_to_prefix_blocks s' !! sid = seq_id_to_prefix_blocks s !! sid;
  st_state : prefix_runtime_states s' !! sid = prefix_runtime_states s !! sid;
  st_ranges : ranges_of s' sid = ranges_of s sid;
}.
Definition others_stay sid s s' : Prop := forall sid', sid' <> sid -> stays sid' s s'.

#[global] Instance request_stays_refl sid : Reflexive (stays sid).
Proof. intros s. by split. Qed.
#[global] Instance request_stays_trans sid : Transitive (stays sid).
Proof.
  intros s1 s2 s3 [A1 A2 A3 A4 A5 A6 A7] [B1 B2 B3 B4 B5 B6 B7]. split; try congruence; [by rewrite B2|].
  intros r Hr. destruct (A4 r Hr) as [<- <-]. apply B4. congruence.
Qed.
#[global] Instance others_stay_refl sid : Reflexive (others_stay sid).
Proof. by intros s sid' _. Qed.
#[global] Instance others_stay_trans sid : Transitive (others_stay sid).
Proof. intros s1 s2 s3 H1 H2 sid' Hne. etrans; [by apply H1|by apply H2]. Qed.

(** ** Cells and owners *)

Lemma cells_length s r : shape_ok s -> 0 <= r < max_buffer_rows (std_config s) ->
  Z.of_nat (length (cells s r)) = len_of s r.
Proof.
  intros Hs Hr. destruct (row_lookup s r Hs Hr) as (row & _ & Hrow & Hl & _). unfold cells.
  pose proof (sh_range s Hs r). rewrite Hrow, length_take. lia.
Qed.

(** Each cell of a row shows a slot of its own or one of a block. *)
Lemma cells_owned s sid r g x : shape_ok s -> seq_id_to_row s !! sid = Some r ->
  seq_ok (size_of s) (blk s) (payloads s) g (view s sid r) -> x ∈ cells s r ->
  x ∈ flat (private s) \/ x ∈ flat (shared s).
Proof.
  intros Hs Hr [Hlen _ Hg Hrs _ Hb _] Hx. cbn in *.
  assert (ranges_between 0 (ranges_of s sid) (len_of s r)) as Hrs' by (eapply ranges_between_weaken; [..|exact Hrs]; lia).
  pose proof (complement_slices (cells s r) _ _ Hrs') as Hp. rewrite take_ge in Hp by lia.
  rewrite <- Hp, elem_of_app in Hx. destruct Hx as [Hx|Hx].
  - left. apply elem_of_flat. exists sid, (private_of s sid r). by rewrite lookup_private, Hr.
  - right. apply elem_of_slices in Hx as (a & b & Hin & Hx). rewrite Forall_forall in Hb.
    destruct (Hb _ Hin) as (id & en & Hen & _ & Heq). apply elem_of_flat. exists id. eexists. rewrite lookup_shared, Hen.
    split; [done|]. by rewrite Heq.
Qed.

Lemma private_update s s' sid r : seq_id_to_row s' = seq_id_to_row s -> seq_id_to_row s !! sid = Some r ->
  (forall sid' r', seq_id_to_row s !! sid' = Some r' -> sid' <> sid -> private_of s' sid' r' = private_of s sid' r') ->
  flat (private s') ≡ₚ private_of s' sid r ++ flat (delete sid (private s)).
Proof.
  intros Hrow Hr Ho. rewrite (flat_delete (private s') sid (private_of s' sid r)) by (by rewrite lookup_private, Hrow, Hr).
  replace (delete sid (private s')) with (delete sid (private s)); [done|]. apply map_eq. intros sid'.
  destruct (decide (sid' = sid)) as [->|Hne]; [by rewrite !lookup_delete_eq|]. rewrite !lookup_delete_ne by done.
  rewrite !lookup_private, Hrow. destruct (seq_id_to_row s !! sid') as [r'|] eqn:Hr'; [|done]. cbn. f_equal. symmetry. by apply Ho.
Qed.
Lemma private_split s sid r : seq_id_to_row s !! sid = Some r ->
  flat (private s) ≡ₚ private_of s sid r ++ flat (delete sid (private s)).
Proof. intros Hr. apply flat_delete. by rewrite lookup_private, Hr. Qed.

(** ** Placing slots at the end of a row *)

Definition place r v s : StandardCacheManager :=
  let n := len_of s r in
  s <| buffer_req_to_token_slots ::=
        <[Z.to_nat r := take (Z.to_nat n) (row_of s r) ++ v ++ drop (Z.to_nat (n + Z.of_nat (length v))) (row_of s r)]> |>
    <| row_seq_lens ::= fun t => array_set t r (n + Z.of_nat (length v)) |>
    <| row_logical_lens ::= fun t => array_set t r (n + Z.of_nat (length v)) |>.

Section place.
Context s r v (Hs : shape_ok s) (Hr : 0 <= r < max_buffer_rows (std_config s))
  (Hv : len_of s r + Z.of_nat (length v) <= max_model_len (std_config s)).

Lemma place_row : row_of (place r v s) r =
  take (Z.to_nat (len_of s r)) (row_of s r) ++ v ++ drop (Z.to_nat (len_of s r + Z.of_nat (length v))) (row_of s r).
Proof.
  destruct (row_lookup s r Hs Hr) as (row & Hb & Hrow & Hl & _). unfold row_of at 1, place. cbn.
  by rewrite list_lookup_insert_eq by (by apply lookup_lt_Some in Hb).
Qed.
Lemma place_len : len_of (place r v s) r = len_of s r + Z.of_nat (length v).
Proof.
  destruct (row_lookup s r Hs Hr) as (row & _ & _ & _ & Hl). unfold len_of at 1, place, array_set. cbn.
  by rewrite list_lookup_insert_eq by (by apply lookup_lt_Some in Hl).
Qed.
Lemma place_other r' : 0 <= r' -> r' <> r -> len_of (place r v s) r' = len_of s r' /\ row_of (place r v s) r' = row_of s r'.
Proof. intros. unfold len_of, row_of, place, array_set. cbn. by rewrite !list_lookup_insert_ne by lia. Qed.
Lemma place_cells : cells (place r v s) r = cells s r ++ v.
Proof.
  pose proof (sh_range s Hs r) as Hrg. destruct (row_lookup s r Hs Hr) as (row & _ & Hrow & Hl & _).
  unfold cells. rewrite place_len, place_row, app_assoc.
  replace (Z.to_nat (len_of s r + Z.of_nat (length v))) with
    (length (take (Z.to_nat (len_of s r)) (row_of s r) ++ v)) at 1.
  2:{ rewrite length_app, length_take, Hrow. lia. }
  by rewrite take_app_length.
Qed.
Lemma place_cells_other r' : 0 <= r' -> r' <> r -> cells (place r v s) r' = cells s r'.
Proof. intros H0 Hne. unfold cells. by destruct (place_other r' H0 Hne) as [-> ->]. Qed.

Lemma place_shape sid : seq_id_to_row s !! sid = Some r -> shape_ok (place r v s).
Proof.
  intros Hsid.
  pose proof place_row as Hrow. destruct (row_lookup s r Hs Hr) as (row & Hb & Hrow0 & Hl & _).
  pose proof (sh_range s Hs) as Hrg. pose proof (Hrg r) as Hrgr.
  split; try apply Hs; unfold place; cbn.
  - rewrite length_insert. apply Hs.
  - apply Forall_insert; [apply Hs|]. rewrite !length_app, length_take, length_drop, Hrow0. lia.
  - unfold array_set. rewrite !length_insert. apply Hs.
  - by rewrite (sh_logical s Hs).
  - intros r'. destruct (decide (Z.to_nat r' = Z.to_nat r)) as [E|Hne].
    + change (0 <= len_of (place r v s) r' <= Z.max 0 (max_model_len (std_config s))).
      replace (len_of (place r v s) r') with (len_of (place r v s) r) by (unfold len_of; by rewrite E). rewrite place_len. lia.
    + specialize (Hrg r'). unfold len_of in *. cbn. unfold array_set. by rewrite list_lookup_insert_ne.
  - intros r' Hin. destruct (decide (Z.to_nat r' = Z.to_nat r)) as [E|Hne].
    2:{ unfold len_of. cbn. unfold array_set. rewrite list_lookup_insert_ne by done. by apply (sh_empty s Hs). }
    pose proof (free_row_unused s sid r Hs Hsid) as Hn. assert (0 <= r').
    { apply (elem_of_arange (max_buffer_rows (std_config s))). rewrite <- (sh_perm s Hs), elem_of_app. by left. }
    replace r' with r in Hin by lia. done.
Qed.
End place.

Definition set_gap (g : Z -> Z) sid n : Z -> Z := fun sid' => if decide (sid' = sid) then n else g sid'.

(** Cells appended beyond what is recorded change nothing that is recorded. *)
Lemma pending_at_app bs pl cs v k ps : 0 <= bs -> 0 <= k -> (k + Z.of_nat (length ps)) * bs <= Z.of_nat (length cs) ->
  pending_at bs pl cs k ps -> pending_at bs pl (cs ++ v) k ps.
Proof.
  intros Hbs. revert k. induction ps as [|p ps IH]; intros k Hk Hle; cbn [pending_at length] in *; [done|].
  intros [(Hi & Ho & Hsl) Hps]. split; [|apply IH; [lia| |done]; etrans; [|exact Hle]; nia].
  rewrite slice_app_l by nia. done.
Qed.
Lemma recorded_app bs pl R w v : 0 <= R <= v_len w -> Z.of_nat (length (v_cells w)) = v_len w ->
  (is_Some (v_state w) -> 0 < bs) -> forall w', v_len w <= v_len w' -> v_cells w' = v_cells w ++ v -> v_attached w' = v_attached w ->
  v_ranges w' = v_ranges w -> v_state w' = v_state w -> v_pending w' = v_pending w ->
  recorded bs pl R w -> recorded bs pl R w'.
Proof.
  intros HR Hlen Hbs w' El Ec Ea Er Es Ep. unfold recorded. rewrite Ec, Ea, Er, Es, Ep.
  destruct (v_state w) as [st|]; [|done]. specialize (Hbs ltac:(eauto)).
  intros (k & Hn & Hk & Ha & Hrs & Hp & HR' & Hpt & Hps & Hi). exists k. split_and!; try done; [lia|..].
  - apply pending_at_app; [lia|lia| |done]. rewrite <- Hn. lia.
  - rewrite slice_app_l by nia. done.
Qed.
Lemma backed_app bl pl cs v held rs z : 0 <= z -> ranges_between 0 rs z -> z <= Z.of_nat (length cs) ->
  Forall (backed bl pl cs held) rs -> Forall (backed bl pl (cs ++ v) held) rs.
Proof.
  intros Hz Hrs Hle Hb. rewrite Forall_forall in *. intros [a b] Hin. destruct (Hb _ Hin) as (id & en & Hen & Ho & Heq).
  exists id, en. destruct (ranges_between_elem _ _ _ _ _ Hrs Hin) as [? ?]. cbn in *. rewrite slice_app_l by lia. done.
Qed.

Lemma seq_ok_place bs bl pl g w v w' : (is_Some (v_state w) -> 0 < bs) ->
  v_len w' = v_len w + Z.of_nat (length v) -> v_cells w' = v_cells w ++ v -> v_attached w' = v_attached w ->
  v_materialized w' = v_materialized w -> v_ranges w' = v_ranges w -> v_state w' = v_state w -> v_pending w' = v_pending w ->
  NoDup v -> (forall x, x ∈ v_cells w -> x ∉ v) ->
  seq_ok bs bl pl g w -> seq_ok bs bl pl (g + Z.of_nat (length v)) w'.
Proof.
  intros Hbs El Ec Ea Em Er Es Ep Hnd Hdis [Hlen Hatt Hg Hrs Hrec Hb Hd].
  assert (0 <= v_len w - g) by (by apply ranges_between_le in Hrs).
  replace (v_len w - g) with (v_len w' - (g + Z.of_nat (length v))) in * by lia.
  split.
  - rewrite Ec, length_app. lia.
  - by rewrite Ea.
  - lia.
  - by rewrite Er.
  - apply (recorded_app bs pl _ w v); [lia|done|done|lia|done..].
  - rewrite Ec, Ea, Em, Er. eapply backed_app; [|exact Hrs|lia|done]. lia.
  - rewrite Ec. by apply NoDup_app.
Qed.

Lemma state_size s sid : index_ok s -> is_Some (prefix_runtime_states s !! sid) -> 0 < size_of s.
Proof.
  unfold index_ok. destruct (index_of s) as [ix|].
  - intros (_ & [Hwf _] & <-) _. apply (iwf_block_size _ Hwf).
  - intros ->. rewrite lookup_empty. by intros [].
Qed.

Lemma place_ok s sid r refs v l g :
  mgr_ok (mkFlight refs (v ++ l) g) s -> seq_id_to_row s !! sid = Some r ->
  len_of s r + Z.of_nat (length v) <= max_model_len (std_config s) ->
  mgr_ok (mkFlight refs l (set_gap g sid (g sid + Z.of_nat (length v)))) (place r v s) /\ others_stay sid s (place r v s).
Proof.
  intros [Hs Hix Hb Hrf Hsq Hc] Hr Hv. cbn in *. pose proof (row_valid s sid r Hs Hr) as Hrv.
  pose proof (conserved_NoDup _ _ Hc) as Hnd. pose proof (Hsq sid) as Hw. rewrite Hr in Hw.
  assert (forall sid' r', seq_id_to_row s !! sid' = Some r' -> sid' <> sid -> 0 <= r' /\ r' <> r) as Hother.
  { intros sid' r' Hr' Hne. split; [by apply (row_valid s sid')|]. intros ->. by apply Hne, (row_inj s sid' sid r). }
  assert (forall x, x ∈ cells s r -> x ∉ v) as Hdis.
  { intros x Hx Hxv. apply NoDup_app in Hnd as (_ & _ & Hnd). apply NoDup_app in Hnd as (_ & Hpd & Hnd).
    apply NoDup_app in Hnd as (_ & Hsd & _).
    destruct (cells_owned s sid r _ x Hs Hr Hw Hx) as [Hp|Hp]; [apply (Hpd x Hp)|apply (Hsd x Hp)]; set_solver. }
  assert (NoDup v) as Hndv by (clear -Hnd; do 3 apply NoDup_app in Hnd as (_ & _ & Hnd); by apply NoDup_app in Hnd as (? & _)).
  split.
  - split; cbn.
    + by apply (place_shape s r v Hs Hrv Hv sid).
    + exact Hix.
    + exact Hb.
    + exact Hrf.
    + intros sid'. change (seq_id_to_row (place r v s) !! sid') with (seq_id_to_row s !! sid').
      specialize (Hsq sid'). destruct (seq_id_to_row s !! sid') as [r'|] eqn:Hr'; [|exact Hsq]. unfold set_gap.
      destruct (decide (sid' = sid)) as [->|Hne].
      * rewrite Hr in Hr'. injection Hr' as <-. apply (seq_ok_place _ _ _ _ (view s sid r) v); try done.
        -- intros Hst. by apply (state_size s sid).
        -- by apply place_len.
        -- by apply place_cells.
      * destruct (Hother sid' r' Hr' Hne) as [H0 Hrr].
        replace (view (place r v s) sid' r') with (view s sid' r'); [exact Hsq|]. unfold view.
        rewrite (place_cells_other s r v Hrv r') by done. by destruct (place_other s r v Hrv r' H0 Hrr) as [-> _].
    + unfold conserved. change (std_config (place r v s)) with (std_config s). rewrite <- Hc.
      change (free (place r v s)) with (free s). change (shared (place r v s)) with (shared s).
      rewrite (private_update s _ sid r) by
        (done || (intros sid' r' Hr' Hne; destruct (Hother sid' r' Hr' Hne) as [H0 Hrr]; unfold private_of;
           rewrite (place_cells_other s r v Hrv r') by done; by destruct (place_other s r v Hrv r' H0 Hrr) as [-> _])).
      rewrite (private_split s sid r Hr).
      enough (private_of (place r v s) sid r ≡ₚ v ++ private_of s sid r) as -> by solve_Permutation.
      assert (ranges_between 0 (ranges_of s sid) (len_of s r)) as Hrs.
      { eapply ranges_between_weaken; [..|apply (so_ranges _ _ _ _ _ Hw)]; cbn; [lia|]. pose proof (so_gap _ _ _ _ _ Hw). cbn in *. lia. }
      pose proof (cells_length s r Hs Hrv) as Hcl. pose proof (sh_range s Hs r).
      unfold private_of. rewrite place_cells, place_len by done. change (ranges_of (place r v s) sid) with (ranges_of s sid).
      apply (Permutation_app_inv_r (slices (cells s r) (ranges_of s sid))).
      rewrite <- app_assoc, (complement_slices (cells s r)) by done.
      rewrite <- (slices_app_l (cells s r) v _ 0) by (lia || by rewrite Hcl). rewrite complement_slices.
      2:{ eapply ranges_between_weaken; [..|exact Hrs]; lia. }
      rewrite !take_ge by (rewrite ?length_app; lia). apply Permutation_app_comm.
  - intros sid' Hne. split; try done. intros r' Hr'. destruct (Hother sid' r' Hr' Hne) as [H0 Hrr].
    rewrite (place_cells_other s r v Hrv r') by done. by destruct (place_other s r v Hrv r' H0 Hrr) as [-> _].
Qed.

(** ** Changing the blocks and payloads a row sees *)

Lemma pending_at_mono bs pl pl' cs k ps :
  (forall p v, p ∈ ps -> owns bs pl (pending_payload p) v -> owns bs pl' (pending_payload p) v) ->
  pending_at bs pl cs k ps -> pending_at bs pl' cs k ps.
Proof.
  revert k. induction ps as [|p ps IH]; intros k Hp; cbn [pending_at]; [done|]. intros [(Hi & Ho & Hs) Hps]. split.
  - split_and!; [done| |done]. apply Hp; [by left|done].
  - apply IH; [|done]. intros p' v Hin. apply Hp. by right.
Qed.
Lemma seq_ok_mono bs bl bl' pl pl' g w :
  (forall id en, bl !! id = Some en -> e_obj en ∈ v_attached w ++ v_materialized w ->
     exists en', bl' !! id = Some en' /\ e_obj en' = e_obj en /\ slots_of pl' (e_payload en') = slots_of pl (e_payload en)) ->
  (forall p v, p ∈ v_pending w -> owns bs pl (pending_payload p) v -> owns bs pl' (pending_payload p) v) ->
  seq_ok bs bl pl g w -> seq_ok bs bl' pl' g w.
Proof.
  intros Hbl Hp [Hlen Hatt Hg Hrs Hrec Hb Hd]. split; try done.
  - unfold recorded in *. destruct (v_state w) as [st|]; [|done]. destruct Hrec as (k & ? & ? & ? & ? & Hpa & Hrec). exists k.
    do 4 (split; [done|]). split; [by eapply pending_at_mono|done].
  - eapply Forall_impl; [exact Hb|]. intros ab (id & en & Hen & Ho & Heq). destruct (Hbl id en Hen Ho) as (en' & Hen' & Ho' & Hs').
    exists id, en'. rewrite Ho', Hs'. done.
Qed.
Lemma pending_at_elem bs pl cs k ps p : 0 <= bs -> pending_at bs pl cs k ps -> p ∈ ps ->
  owns bs pl (pending_payload p) (pending_block_slots p) /\
  exists k', k <= k' < k + Z.of_nat (length ps) /\ pending_block_slots p = slice (k' * bs) ((k' + 1) * bs) cs.
Proof.
  intros Hbs. revert k. induction ps as [|q ps IH]; intros k; [by intros _ ?%elem_of_nil|].
  cbn [pending_at length]. intros [(Hi & Ho & Hs) Hps] [->|Hin]%elem_of_cons.
  - split; [done|]. exists k. split; [lia|done].
  - destruct (IH (k + 1) Hps Hin) as (? & k' & ? & ?). split; [done|]. exists k'. split; [lia|done].
Qed.

(** The slots of a pending block are private cells of its request. *)
Lemma pending_private s sid r g p : shape_ok s -> index_ok s -> seq_id_to_row s !! sid = Some r ->
  seq_ok (size_of s) (blk s) (payloads s) g (view s sid r) -> p ∈ v_pending (view s sid r) ->
  owns (size_of s) (payloads s) (pending_payload p) (pending_block_slots p) /\
  forall x, x ∈ pending_block_slots p -> x ∈ flat (private s).
Proof.
  intros Hs Hix Hr [Hlen _ Hg _ Hrec _ _] Hp. unfold recorded in Hrec.
  destruct (v_state (view s sid r)) as [st|] eqn:Hst.
  2:{ destruct Hrec as [Hn _]. rewrite Hn in Hp. by apply elem_of_nil in Hp. }
  pose proof (state_size s sid Hix ltac:(cbn in Hst; rewrite Hst; eauto)) as Hbs.
  destruct Hrec as (k & Hn & Hk & _ & Hrs & Hpa & HR & _).
  destruct (pending_at_elem (size_of s) _ _ _ _ p ltac:(lia) Hpa Hp) as (Ho & k' & Hk' & Hsl). split; [done|].
  intros x Hx. rewrite Hsl in Hx. apply elem_of_flat. exists sid, (private_of s sid r). rewrite lookup_private, Hr.
  split; [done|]. unfold private_of. eapply (complement_tail _ _ (k * size_of s)); [exact Hrs| | |exact Hx]; [nia|].
  assert ((k' + 1) * size_of s <= next_logical_block_idx st * size_of s) by (rewrite Hn; nia). cbn in *. lia.
Qed.

(** ** The free stack *)

Definition popped n s : StandardCacheManager := s <| num_free_slots := num_free_slots s - n |>.
Definition pushed v s : StandardCacheManager :=
  let ptr := num_free_slots s in
  s <| free_slots_stack := take (Z.to_nat ptr) (free_slots_stack s) ++ v ++ drop (Z.to_nat (ptr + Z.of_nat (length v))) (free_slots_stack s) |>
    <| num_free_slots := ptr + Z.of_nat (length v) |>.

Lemma free_length s : shape_ok s -> Z.of_nat (length (free s)) = num_free_slots s.
Proof. intros Hs. unfold free. rewrite length_take. pose proof (sh_free s Hs). lia. Qed.

Lemma popped_ok s refs l g n : mgr_ok (mkFlight refs l g) s -> 0 <= n <= num_free_slots s ->
  mgr_ok (mkFlight refs (slice (num_free_slots s - n) (num_free_slots s) (free_slots_stack s) ++ l) g) (popped n s).
Proof.
  intros [Hs Hix Hb Hrf Hsq Hc] Hn. cbn in *. pose proof (sh_free s Hs). split; cbn; try done.
  - split; try apply Hs. unfold popped. cbn. lia.
  - unfold conserved in *. change (std_config (popped n s)) with (std_config s). rewrite <- Hc.
    change (private (popped n s)) with (private s). change (shared (popped n s)) with (shared s).
    assert (free s = free (popped n s) ++ slice (num_free_slots s - n) (num_free_slots s) (free_slots_stack s)) as ->.
    { unfold free, popped. cbn. rewrite <- !slice_take, slice_app by lia. done. }
    solve_Permutation.
Qed.

Lemma loose_fits s refs v l g : mgr_ok (mkFlight refs (v ++ l) g) s ->
  num_free_slots s + Z.of_nat (length v) <= Z.of_nat (length (free_slots_stack s)).
Proof.
  intros Hok. pose proof (mo_shape _ _ Hok) as Hs. pose proof (Permutation_length (mo_conserved _ _ Hok)) as Hl. cbn in Hl.
  rewrite !length_app in Hl. pose proof (free_length s Hs). rewrite (sh_stack s Hs).
  unfold arange in Hl. rewrite length_fmap, length_seq in Hl. lia.
Qed.
Lemma return_slots_run s v : 0 <= num_free_slots s -> num_free_slots s + Z.of_nat (length v) <= Z.of_nat (length (free_slots_stack s)) ->
  return_slots v s = (Ok tt, pushed v s).
Proof.
  intros H0 Hle. unfold return_slots, tensor_assign. unfold mbind, Act_bind, read, id. cbn [fst snd].
  replace (Z.min (num_free_slots s) (Z.of_nat (length (free_slots_stack s)))) with (num_free_slots s) by lia.
  replace (Z.max (num_free_slots s) _) with (num_free_slots s + Z.of_nat (length v)) by lia.
  rewrite (proj2 (Z.eqb_eq _ _)) by lia. reflexivity.
Qed.
Lemma pushed_free s v : 0 <= num_free_slots s -> num_free_slots s <= Z.of_nat (length (free_slots_stack s)) -> free (pushed v s) = free s ++ v.
Proof. intros H0 Hle. unfold free, pushed. cbn. rewrite app_assoc. apply take_app_length'. rewrite length_app, length_take. lia. Qed.
Lemma pushed_ok s refs v l g : mgr_ok (mkFlight refs (v ++ l) g) s -> mgr_ok (mkFlight refs l g) (pushed v s).
Proof.
  intros Hok. pose proof (loose_fits _ _ _ _ _ Hok) as Hfit. destruct Hok as [Hs Hix Hb Hrf Hsq Hc]. cbn in *.
  pose proof (sh_free s Hs). split; cbn; try done.
  - split; try apply Hs; unfold pushed; cbn.
    + rewrite !length_app, length_take, length_drop. pose proof (sh_stack s Hs). lia.
    + rewrite !length_app, length_take, length_drop. lia.
  - unfold conserved in *. change (std_config (pushed v s)) with (std_config s). rewrite <- Hc.
    change (private (pushed v s)) with (private s). change (shared (pushed v s)) with (shared s).
    rewrite pushed_free by lia.
    solve_Permutation.
Qed.

(** ** A row for a request *)

Definition rowed sid r rows s : StandardCacheManager := s <| free_rows := rows |> <| seq_id_to_row ::= <[sid := r]> |>.

Lemma empty_cells s r : len_of s r = 0 -> cells s r = [].
Proof. unfold cells. by intros ->. Qed.
Lemma seq_ok_absent s sid r g : seqs_ok g s -> seq_id_to_row s !! sid = None -> len_of s r = 0 -> g sid = 0 ->
  seq_ok (size_of s) (blk s) (payloads s) (g sid) (view s sid r).
Proof.
  intros Hsq Hn Hl Hg. specialize (Hsq sid). rewrite Hn in Hsq. destruct Hsq as (E1 & E2 & E3 & E4 & E5).
  unfold view, ranges_of. rewrite E1, E2, E3, E4, E5, Hl, Hg, (empty_cells s r Hl). cbn. split; cbn; try done; try lia.
  by constructor.
Qed.
Lemma rowed_ok fl s sid r rows : mgr_ok fl s -> seq_id_to_row s !! sid = None -> free_rows s = r :: rows -> gap fl sid = 0 ->
  mgr_ok fl (rowed sid r rows s) /\ others_stay sid s (rowed sid r rows s).
Proof.
  intros [Hs Hix Hb Hrf Hsq Hc] Hn Hf Hg. assert (len_of s r = 0) as Hl by (apply (sh_empty s Hs); rewrite Hf; by left).
  pose proof (Hsq sid) as Habs. rewrite Hn in Habs. split.
  - split; try done.
    + split; try apply Hs; unfold rowed; cbn.
      * rewrite map_to_list_insert by done. rewrite <- (sh_perm s Hs), Hf. cbn. solve_Permutation.
      * intros r' Hr'. change (len_of s r' = 0). apply (sh_empty s Hs). rewrite Hf. by right.
    + intros sid'. unfold rowed at 1. cbn. destruct (decide (sid' = sid)) as [->|Hne].
      * rewrite lookup_insert_eq. exact (seq_ok_absent s sid r _ Hsq Hn Hl Hg).
      * rewrite lookup_insert_ne by done. apply (Hsq sid').
    + unfold conserved in *. change (std_config (rowed sid r rows s)) with (std_config s). rewrite <- Hc.
      change (free (rowed sid r rows s)) with (free s). change (shared (rowed sid r rows s)) with (shared s).
      assert (private (rowed sid r rows s) = <[sid := []]> (private s)) as ->.
      { apply map_eq. intros sid'. rewrite lookup_private. unfold rowed at 2. cbn. destruct (decide (sid' = sid)) as [->|Hne].
        - rewrite !lookup_insert_eq. cbn. f_equal. unfold private_of. change (cells (rowed sid r rows s) r) with (cells s r).
          change (len_of (rowed sid r rows s) r) with (len_of s r). rewrite (empty_cells s r Hl), Hl.
          unfold slices. induction (complement_ranges _ _ _) as [|[a b] rs IH]; [done|]. cbn. rewrite IH. unfold slice. by rewrite drop_nil, take_nil.
        - rewrite !lookup_insert_ne, lookup_private by done. done. }
      rewrite flat_insert; [done|]. by rewrite lookup_private, Hn.
  - intros sid' Hne. split; try done. unfold rowed. cbn. by rewrite lookup_insert_ne.
Qed.

(** ** A payload whose slots have left *)

Definition cleared o s : StandardCacheManager := s <| payloads ::= alter (fun p => p <| token_slots := None |>) o |>.

Lemma owns_cleared bs pl o po v : po <> o -> owns bs (alter (fun p => p <| token_slots := None |>) o pl) po v <-> owns bs pl po v.
Proof. intros Hne. unfold owns. by rewrite lookup_alter_ne. Qed.
Lemma slots_of_cleared pl o po : po <> o -> slots_of (alter (fun p => p <| token_slots := None |>) o pl) po = slots_of pl po.
Proof. intros Hne. unfold slots_of. by rewrite lookup_alter_ne. Qed.

Lemma conserved_apart l s x : conserved l s ->
  (x ∈ free s ++ l -> x ∉ flat (private s) /\ x ∉ flat (shared s)) /\ (x ∈ flat (private s) -> x ∉ flat (shared s)).
Proof.
  intros Hc%conserved_NoDup. apply NoDup_app in Hc as (_ & H1 & Hc). apply NoDup_app in Hc as (_ & H2 & Hc).
  apply NoDup_app in Hc as (_ & H3 & _). specialize (H1 x). specialize (H2 x). specialize (H3 x).
  rewrite !elem_of_app in *. tauto.
Qed.
(** A payload whose slots are free or in hand is no indexed block's and no
    pending block's, so that they can be forgotten. *)
Lemma cleared_ok fl s o v : mgr_ok fl s -> owns (size_of s) (payloads s) o v -> v <> [] ->
  (forall x, x ∈ v -> x ∈ free s ++ loose fl) ->
  mgr_ok fl (cleared o s) /\
  forall po w y, owns (size_of s) (payloads s) po w -> y ∈ w -> y ∈ flat (private s) -> owns (size_of s) (payloads (cleared o s)) po w.
Proof.
  intros [Hs Hix Hb Hrf Hsq Hc] Ho Hne Hv. destruct v as [|x0 v0]; [done|]. set (v := x0 :: v0) in *.
  assert (forall id en, blk s !! id = Some en -> e_payload en <> o) as Hbl.
  { intros id en Hen E. destruct (conserved_apart _ _ x0 Hc) as [Hap _]. destruct (Hap ltac:(apply Hv; by left)) as [_ []].
    apply elem_of_flat. exists id, v. split; [|by left]. rewrite lookup_shared, Hen. cbn. f_equal. rewrite E. by eapply owns_slots. }
  assert (forall po w y, owns (size_of s) (payloads s) po w -> y ∈ w -> y ∈ flat (private s) -> po <> o) as Hpo.
  { intros po w y Hw Hy Hpy ->. destruct (conserved_apart _ _ y Hc) as [Hap _].
    assert (w = v) as -> by (by rewrite <- (owns_slots _ _ _ _ Hw), <- (owns_slots _ _ _ _ Ho)).
    destruct (Hap ltac:(by apply Hv)) as [Hn _]. done. }
  assert (shared (cleared o s) = shared s) as Hsh.
  { apply map_eq. intros id. rewrite !lookup_shared. change (blk (cleared o s)) with (blk s).
    destruct (blk s !! id) as [en|] eqn:Hen; [|done]. cbn. f_equal. apply slots_of_cleared. by apply (Hbl id). }
  split.
  - split; [split; apply Hs|done| |done| |].
    + intros id en Hen. destruct (Hb id en Hen) as [Hr (w & Hw)]. split; [done|]. exists w. apply owns_cleared; [|done]. by apply (Hbl id).
    + intros sid. specialize (Hsq sid). change (seq_id_to_row (cleared o s)) with (seq_id_to_row s).
      destruct (seq_id_to_row s !! sid) as [r|] eqn:Hr; [|exact Hsq].
      change (view (cleared o s) sid r) with (view s sid r). change (blk (cleared o s)) with (blk s).
      eapply seq_ok_mono; [..|exact Hsq].
      * intros id en Hen _. exists en. split_and!; [done..|]. apply slots_of_cleared. by apply (Hbl id).
      * intros p w Hp Hw. destruct (pending_private s sid r _ p Hs Hix Hr Hsq Hp) as [Hpo' Hpriv].
        apply owns_cleared; [|done]. assert (w = pending_block_slots p) as -> by
          (by rewrite <- (owns_slots _ _ _ _ Hw), <- (owns_slots _ _ _ _ Hpo')).
        destruct (pending_block_slots p) as [|y w'] eqn:E; [|apply (Hpo _ _ y Hw); [by left|apply Hpriv; by left]].
        intros Ep. rewrite Ep in Hw. by rewrite <- (owns_slots _ _ _ _ Hw), (owns_slots _ _ _ _ Ho) in *.
    + unfold conserved. rewrite Hsh. exact Hc.
  - intros po w y Hw Hy Hpy. apply owns_cleared; [|done]. by apply (Hpo po w y).
Qed.
End moves.
