(* ===== verification/StandardIndex.v ===== *)
(** * The standard cache manager: calls into the prefix index

    What the manager's calls into the index do to the invariant: references
    taken and given back, blocks evicted to make slots or room. *)

From stdpp Require Import base gmap list strings.
From Stdlib Require Import ZArith Lia.
From S2P Require Import Prelude PyDict PyBytes Sha256 RoutingMembership RadixTree RadixForest PrefixHash.
From S2P Require Import PrefixIndex PrefixIndexFacts PrefixCapacity PrefixEviction SamplingParams Sequence PrefixLookup.
From S2P Require Import StandardCache SlotRanges PrefixClient PrefixRefs StandardInvariant StandardMoves.

Section calls.
Context `{Digest}.
Implicit Types (s : StandardCacheManager) (sid r : Z) (o : nat) (v l : list Z) (fl : Flight).
#[local] Abbreviation Index := (RadixPrefixIndex RadixTreeBackend).
#[local] Abbreviation MgrAct := (Act PyExn StandardCacheManager).

Definition with_index s (c : CachedIndex RadixTreeBackend) (ix : Index) : StandardCacheManager :=
  s <| prefix_cache := Some (c <| the_index := ix |>) |>.

Lemma wp_on_prefix {A} (m : Act PyExn Index A) (Q : exc A -> StandardCacheManager -> Prop) s c :
  prefix_cache s = Some c -> wp m (fun x ix' => Q x (with_index s c ix')) (the_index c) -> wp (on_prefix m) Q s.
Proof. intros Hc. unfold wp, on_prefix, on_cached, on_index. rewrite Hc. by destruct (m (the_index c)) as [a ix']. Qed.

Lemma blk_with_index s c ix : blk (with_index s c ix) = seen ix.
Proof. done. Qed.
Lemma blk_index s c : prefix_cache s = Some c -> blk s = seen (the_index c).
Proof. unfold blk. by intros ->. Qed.
Lemma mgr_index fl s c : mgr_ok fl s -> prefix_cache s = Some c ->
  index_inv (the_index c) /\ block_size (PrefixIndex.config (the_index c)) = size_of s /\ 0 < size_of s.
Proof.
  intros Hok Hc. pose proof (mo_index _ _ Hok) as Hix. unfold index_ok, index_of in Hix. rewrite Hc in Hix.
  destruct Hix as (_ & Hinv & Hb). split_and!; [done|done|]. rewrite <- Hb. apply (iwf_block_size _ (proj1 Hinv)).
Qed.
Lemma view_held s sid r o : o ∈ v_attached (view s sid r) ++ v_materialized (view s sid r) -> o ∈ holders s.
Proof. unfold holders. rewrite !elem_of_app. cbn. intros [Ho|Ho]; [left|right]; by eapply flat_elem. Qed.

Lemma with_index_stays s c ix sid : prefix_cache s = Some c -> stays sid s (with_index s c ix).
Proof. intros Hc. by split; rewrite ?Hc. Qed.

(** The entries of [bl'] carry what those of [bl] carried, and what the
    requests hold is still there. *)
Definition thinned (bl bl' : gmap bytes Entry) (held : list nat) : Prop :=
  (forall id en', bl' !! id = Some en' -> exists en, bl !! id = Some en /\
     e_payload en' = e_payload en /\ e_residency en' = e_residency en) /\
  (forall id en, bl !! id = Some en -> e_obj en ∈ held -> exists en', bl' !! id = Some en' /\
     e_obj en' = e_obj en /\ e_payload en' = e_payload en).

Lemma index_moved s c ix' refs refs' l l' g : mgr_ok (mkFlight refs l g) s -> prefix_cache s = Some c ->
  client_step (the_index c) ix' -> thinned (seen (the_index c)) (seen ix') (holders s) ->
  counted (seen ix') (refs' ++ holders s) ->
  flat (shared_of (seen ix') (payloads s)) ++ l' ≡ₚ flat (shared s) ++ l ->
  mgr_ok (mkFlight refs' l' g) (with_index s c ix').
Proof.
  intros Hok Hc [Hinv' Hcf] [Hold Hheld] Hcnt Hcons. destruct (mgr_index _ _ _ Hok Hc) as (Hinv & Hbs & _).
  destruct Hok as [Hs Hix Hb Hrf Hsq Hco]. pose proof (blk_index s c Hc) as Hbl. split; cbn.
  - split; apply Hs.
  - unfold index_ok, index_of in *. rewrite Hc in Hix. cbn in *. rewrite Hcf. by destruct Hix.
  - intros id en' Hen'. destruct (Hold id en' Hen') as (en & Hen & Hp & Hr). rewrite <- Hbl in Hen.
    destruct (Hb id en Hen) as [? ?]. by rewrite Hp, Hr.
  - exact Hcnt.
  - intros sid. specialize (Hsq sid). change (seq_id_to_row (with_index s c ix')) with (seq_id_to_row s).
    destruct (seq_id_to_row s !! sid) as [r|] eqn:Hr; [|exact Hsq].
    change (view (with_index s c ix') sid r) with (view s sid r). eapply seq_ok_mono; [..|exact Hsq]; [|by intros].
    intros id en Hen Ho. rewrite Hbl in Hen. destruct (Hheld id en Hen ltac:(by eapply view_held)) as (en' & Hen' & ? & Hp).
    exists en'. split_and!; [done|done|]. cbn. by rewrite Hp.
  - unfold conserved in *. cbn in Hco. rewrite <- Hco.
    change (free (with_index s c ix')) with (free s). change (private (with_index s c ix')) with (private s).
    change (shared (with_index s c ix')) with (shared_of (seen ix') (payloads s)). by rewrite Hcons.
Qed.

Lemma index_same s c ix' fl : mgr_ok fl s -> prefix_cache s = Some c -> client_step (the_index c) ix' ->
  seen ix' = seen (the_index c) -> mgr_ok fl (with_index s c ix').
Proof.
  intros Hok Hc Hst Hs. pose proof (mo_refs _ _ Hok) as Hrf. unfold refs_ok in Hrf. destruct fl as [refs l g].
  apply (index_moved s c ix' refs refs l l g); try done; rewrite Hs; rewrite (blk_index s c Hc) in Hrf; [|done|].
  - split; [by eauto|]. intros id en Hen _. by exists en.
  - unfold shared. by rewrite (blk_index s c Hc).
Qed.

Lemma shared_refs bl pl id en en' : bl !! id = Some en -> e_payload en' = e_payload en ->
  shared_of (<[id := en']> bl) pl = shared_of bl pl.
Proof.
  intros Hen Hp. unfold shared_of. rewrite fmap_insert, Hp. apply insert_id. by rewrite lookup_fmap, Hen.
Qed.
Lemma thinned_refs bl id en en' held : bl !! id = Some en -> e_obj en' = e_obj en -> e_payload en' = e_payload en ->
  e_residency en' = e_residency en -> thinned bl (<[id := en']> bl) held.
Proof.
  intros Hen Ho Hp Hr. split.
  - intros id' en1 H1. apply lookup_insert_Some in H1 as [[<- <-]|[Hne H1]]; eauto.
  - intros id' en1 H1 _. destruct (decide (id' = id)) as [->|Hne].
    + exists en'. rewrite lookup_insert_eq. split_and!; congruence.
    + exists en1. by rewrite lookup_insert_ne.
Qed.

(** ** Taking and giving back references *)

Lemma acquire_ok s refs l g o : mgr_ok (mkFlight refs l g) s -> indexed_object (blk s) o ->
  wp (on_prefix (acquire_block_ref o)) (fun x s' => x = Ok tt /\ mgr_ok (mkFlight (o :: refs) l g) s' /\
    exists c ix', prefix_cache s = Some c /\ s' = with_index s c ix' /\
      (forall o', indexed_object (blk s) o' -> indexed_object (blk s') o')) s.
Proof.
  intros Hok (id & en & Hen & <-). destruct (prefix_cache s) as [c|] eqn:Hc; [|by unfold blk in Hen; rewrite Hc in Hen].
  rewrite (blk_index s c Hc) in *. destruct (mgr_index _ _ _ Hok Hc) as (Hinv & _ & _).
  pose proof (mo_refs _ _ Hok) as Hrf. unfold refs_ok in Hrf. rewrite (blk_index s c Hc) in Hrf. cbn in Hrf.
  eapply wp_on_prefix; [done|]. eapply wp_mono; [apply acquire_seen; [done..|by eapply counted_refs_pos]|].
  cbv beta. intros r ix' (-> & Hst & Hs). split; [done|]. split.
  - apply (index_moved s c ix' refs _ l l g); try done; rewrite Hs.
    + by eapply thinned_refs.
    + apply counted_acquire; [by apply seen_apart|done..].
    + unfold shared. rewrite (blk_index s c Hc). by erewrite shared_refs.
  - exists c, ix'. split_and!; [done..|]. intros o'. rewrite blk_with_index, Hs. by eapply indexed_object_update.
Qed.
Lemma release_ok s refs l g o msg : mgr_ok (mkFlight (o :: refs) l g) s ->
  wp (on_prefix (release_block_ref o msg)) (fun x s' => x = Ok tt /\ mgr_ok (mkFlight refs l g) s' /\
    exists c ix', prefix_cache s = Some c /\ s' = with_index s c ix') s.
Proof.
  intros Hok. pose proof (mo_refs _ _ Hok) as Hrf. unfold refs_ok in Hrf. cbn in Hrf.
  pose proof Hrf as [_ Hf]. apply Forall_cons in Hf as [(id & en & Hen & <-) _].
  destruct (prefix_cache s) as [c|] eqn:Hc; [|by unfold blk in Hen; rewrite Hc in Hen].
  rewrite (blk_index s c Hc) in *. destruct (mgr_index _ _ _ Hok Hc) as (Hinv & _ & _).
  destruct (counted_release _ _ _ _ (seen_apart _ Hinv) Hen Hrf) as [Hpos Hcnt].
  eapply wp_on_prefix; [done|]. eapply wp_mono; [by apply release_seen|].
  cbv beta. intros r ix' (-> & Hst & Hs). split; [done|]. split; [|by exists c, ix'].
  apply (index_moved s c ix' (e_obj en :: refs) _ l l g); try done; rewrite Hs.
  - by eapply thinned_refs.
  - exact Hcnt.
  - unfold shared. rewrite (blk_index s c Hc). by erewrite shared_refs.
Qed.

(** ** What leaves the requests alone *)

Record quiet s s' : Prop := {
  q_frame : s' = s <| prefix_cache := prefix_cache s' |> <| payloads := payloads s' |>
                   <| free_slots_stack := free_slots_stack s' |> <| num_free_slots := num_free_slots s' |>;
  q_index : is_Some (prefix_cache s') <-> is_Some (prefix_cache s);
  q_owns po w y : owns (size_of s) (payloads s) po w -> y ∈ w -> y ∈ flat (private s) ->
    owns (size_of s) (payloads s') po w;
}.
Lemma quiet_parts s s' : quiet s s' ->
  std_config s' = std_config s /\ private s' = private s /\ holders s' = holders s /\ seq_id_to_row s' = seq_id_to_row s /\
  row_seq_lens s' = row_seq_lens s /\ (forall sid r, view s' sid r = view s sid r) /\ free_rows s' = free_rows s.
Proof. intros [-> _ _]. done. Qed.
#[global] Instance manager_quiet_refl : Reflexive quiet.
Proof. intros s. split; [by destruct s|done|done]. Qed.
#[global] Instance manager_quiet_trans : Transitive quiet.
Proof.
  intros s1 s2 s3 H1 H2. destruct (quiet_parts _ _ H1) as (Hc & Hp & _). destruct H1 as [F1 I1 O1], H2 as [F2 I2 O2]. split.
  - rewrite F2, F1. done.
  - by rewrite I2.
  - intros po w y Ho Hy Hpy. rewrite Hp in O2. unfold size_of in *. rewrite Hc in O2. eapply O2; [|done..]. by eapply O1.
Qed.
Lemma quiet_stays s s' sid : quiet s s' -> stays sid s s'.
Proof. intros [-> Hi _]. by split. Qed.
Lemma quiet_others s s' sid : quiet s s' -> others_stay sid s s'.
Proof. intros Hq sid' _. by apply quiet_stays. Qed.
Lemma with_index_quiet s c ix : prefix_cache s = Some c -> quiet s (with_index s c ix).
Proof. intros Hc. split; [by destruct s|by rewrite Hc|done]. Qed.

(** ** Evicted blocks give their slots back *)

Definition slots_in (pl : gmap nat StandardPrefixBlockPayload) (ob : nat * PrefixCacheBlock) : list Z := slots_of pl (payload ob.2).

Lemma evicted_moved s c lb ix' refs l g : mgr_ok (mkFlight refs l g) s -> prefix_cache s = Some c ->
  evict_result (the_index c) lb ix' ->
  mgr_ok (mkFlight refs ((lb ≫= slots_in (payloads s)) ++ l) g) (with_index s c ix').
Proof.
  intros Hok Hc (Hst & _ & Hg). pose proof (mo_refs _ _ Hok) as Hrf. unfold refs_ok in Hrf. cbn in Hrf.
  pose proof Hg as [Hsplit _ Hsub _]. rewrite (blk_index s c Hc) in *.
  assert (forall id en, seen (the_index c) !! id = Some en -> e_obj en ∈ refs ++ holders s -> seen ix' !! id = Some en) as Hkeep.
  { intros id en Hen Ho. eapply gone_rest; [done..|]. rewrite (proj1 Hrf id en Hen).
    apply list_elem_of_In, (count_occ_In Nat.eq_dec) in Ho. lia. }
  apply (index_moved s c ix' refs refs l _ g); try done.
  - split.
    + intros id en' Hen'. exists en'. split; [|done]. by eapply lookup_weaken.
    + intros id en Hen Ho. exists en. split; [|done]. apply Hkeep; [done|]. apply elem_of_app. by right.
  - split.
    + intros id en Hen. apply (proj1 Hrf id). by eapply lookup_weaken.
    + rewrite Forall_forall. intros o Ho. destruct (proj1 (Forall_forall _ _) (proj2 Hrf) o Ho) as (id & en & Hen & <-).
      exists id, en. split; [by apply Hkeep|done].
  - unfold shared. rewrite (blk_index s c Hc).
    rewrite (Hsplit _ (fun en => slots_of (payloads s) (e_payload en)) : flat (shared_of _ (payloads s)) ≡ₚ _).
    unfold shared_of, slots_in. cbn. solve_Permutation.
Qed.

Definition evicted_block s (ob : nat * PrefixCacheBlock) : Prop :=
  (forall c, prefix_cache s = Some c -> store (the_index c) !! ob.1 = Some ob.2) /\
  residency ob.2 = on_device /\ exists v, owns (size_of s) (payloads s) (payload ob.2) v.

Lemma free_device_ok s c refs l g o b v : mgr_ok (mkFlight refs (v ++ l) g) s -> prefix_cache s = Some c -> 
  store (the_index c) !! o = Some b -> owns (size_of s) (payloads s) (payload b) v ->
  wp (free_device_prefix_block o) (fun x s' => x = Ok tt /\ s' = cleared (payload b) (pushed v s) /\
    mgr_ok (mkFlight refs l g) s' /\ quiet s s') s.
Proof.
  intros Hok Hc Ho Hv. pose proof Hv as (p & Hp & Ht & Hret & Hlen). destruct (mgr_index _ _ _ Hok Hc) as (_ & _ & Hbs).
  pose proof (pushed_ok _ _ _ _ _ Hok) as Hok1. pose proof (loose_fits _ _ _ _ _ Hok) as Hfit.
  pose proof (sh_free _ (mo_shape _ _ Hok)).
  destruct (cleared_ok _ (pushed v s) (payload b) v Hok1 Hv) as [Hok2 Hkeep].
  { intros ->. cbn in Hlen. lia. }
  { intros x Hx. apply elem_of_app. left. unfold free, pushed. cbn. rewrite app_assoc, take_app_length'.
    - apply elem_of_app. by right.
    - rewrite length_app, length_take. lia. }
  unfold free_device_prefix_block. apply wp_bind. eapply wp_on_prefix; [done|].
  unfold wp at 1, deref. rewrite Ho. cbn [fst snd].
  replace (with_index s c (the_index c)) with s by (unfold with_index; destruct s, c; cbn in *; by subst).
  apply wp_bind. unfold wp at 1, payload_of. rewrite Hp. cbn [fst snd]. apply wp_bind, wp_read. cbv beta iota. rewrite Ht.
  apply wp_bind, wp_guard.
  { unfold id, resident_tokens. rewrite Hret. unfold size_of in Hlen. rewrite Hlen, Z.eqb_refl. done. }
  intros _. apply wp_bind. unfold wp at 1. rewrite return_slots_run by lia. cbn [fst snd]. apply wp_modify.
  split_and!; [done|done|exact Hok2|]. split; [by destruct s|done|]. intros po w y. apply Hkeep.
Qed.

Lemma slots_in_other pl o lb : (forall ob, ob ∈ lb -> payload ob.2 <> o) ->
  lb ≫= slots_in (alter (fun p => p <| token_slots := None |>) o pl) = lb ≫= slots_in pl.
Proof.
  induction lb as [|ob lb IH]; intros Hne; [done|]. rewrite !bind_cons, IH by (intros; apply Hne; by right).
  f_equal. apply slots_of_cleared. intros E. by apply (Hne ob); [left|].
Qed.
Lemma free_blocks_loop_ok lb s refs l g : mgr_ok (mkFlight refs ((lb ≫= slots_in (payloads s)) ++ l) g) s ->
  is_Some (prefix_cache s) -> Forall (evicted_block s) lb ->
  wp (free_blocks_loop lb.*1 false) (fun x s' => x = Ok false /\ mgr_ok (mkFlight refs l g) s' /\ quiet s s' /\ prefix_cache s' = prefix_cache s) s.
Proof.
  revert s. induction lb as [|[o b] lb IH]; intros s Hok [c Hc] Hlb; cbn [free_blocks_loop fmap list_fmap fst].
  { by apply wp_ret. }
  apply Forall_cons in Hlb as [(Ho & Hres & (v & Hv)) Hlb]. specialize (Ho c Hc). cbn in Ho, Hres, Hv.
  pose proof Hv as (p & Hp & _). cbn in Hok. unfold slots_in in Hok at 1. cbn in Hok. rewrite (owns_slots _ _ _ _ Hv), <- app_assoc in Hok.
  apply wp_bind. eapply wp_on_prefix; [done|]. unfold wp at 1, deref. rewrite Ho. cbn [fst snd].
  replace (with_index s c (the_index c)) with s by (unfold with_index; destruct s, c; cbn in *; by subst).
  apply wp_bind. unfold wp at 1, payload_of. rewrite Hp. cbn [fst snd]. apply wp_bind. rewrite Hres. cbn [device_present on_device when].
  destruct (mgr_index _ _ _ Hok Hc) as (_ & _ & Hbs).
  assert (forall ob, ob ∈ lb -> payload ob.2 <> payload b) as Hne.
  { intros ob Hob E. pose proof (conserved_NoDup _ _ (mo_conserved _ _ Hok)) as Hnd. cbn in Hnd.
    do 3 apply NoDup_app in Hnd as (_ & _ & Hnd). apply NoDup_app in Hnd as (_ & Hnd & _).
    pose proof Hv as (_ & _ & _ & _ & Hlen). destruct v as [|x v]; [cbn in Hlen; lia|]. apply (Hnd x); [by left|].
    apply elem_of_app. left. apply list_elem_of_bind. exists ob. split; [|done]. unfold slots_in. rewrite E, (owns_slots _ _ _ _ Hv). by left. }
  eapply wp_mono; [by apply (free_device_ok s c refs ((lb ≫= slots_in (payloads s)) ++ l) g o b v)|]. cbv beta.
  intros x s' (-> & -> & Hok' & Hq). cbn [host_present on_device orb].
  set (s' := cleared (payload b) (pushed v s)) in *.
  eapply wp_mono; [apply (IH s')|].
  - replace (slots_in (payloads s')) with (slots_in (alter (fun p => p <| token_slots := None |>) (payload b) (payloads s))) by done.
    by rewrite slots_in_other.
  - by exists c.
  - rewrite Forall_forall in *. intros ob Hob. destruct (Hlb ob Hob) as (Hst & Hr & (w & Hw)). split_and!; [done|done|].
    exists w. apply owns_cleared; [by apply Hne|done].
  - cbv beta. intros x s2 (-> & Hok2 & Hq2 & Hpc). split_and!; [done|done|by etrans|exact Hpc].
Qed.

Lemma evicted_blocks s c lb ix' fl : mgr_ok fl s -> prefix_cache s = Some c -> evict_result (the_index c) lb ix' ->
  Forall (evicted_block (with_index s c ix')) lb.
Proof.
  intros Hok Hc (_ & Hst & [_ _ _ Heach]). destruct (mgr_index _ _ _ Hok Hc) as ([Hwf _] & _). rewrite Forall_forall.
  intros [o b] Hin. destruct (Heach o b Hin) as [Hg _].
  destruct (mo_blocks _ _ Hok (stable_block_id b) (entry_of (o, b))) as [Hr Hv]; [by rewrite (blk_index s c Hc), lookup_seen, Hg|].
  split_and!; [|exact Hr|exact Hv]. intros c' [= <-]. cbn. rewrite Hst. by apply (get_block_Some _ _ _ _ Hwf) in Hg as (_ & ? & _).
Qed.

(** The blocks an eviction returned are freed. *)
Lemma free_evicted_ok s c lb ix' refs l g : mgr_ok (mkFlight refs l g) s -> prefix_cache s = Some c ->
  evict_result (the_index c) lb ix' ->
  wp (free_prefix_cache_blocks lb.*1) (fun x s' => x = Ok tt /\ mgr_ok (mkFlight refs l g) s' /\ quiet s s' /\ blk s' = seen ix' /\ is_Some (prefix_cache s'))
    (with_index s c ix').
Proof.
  intros Hok Hc Hres. pose proof (evicted_moved _ _ _ _ _ _ _ Hok Hc Hres) as Hok1.
  unfold free_prefix_cache_blocks. apply wp_bind. eapply wp_mono.
  - apply (free_blocks_loop_ok lb _ refs l g); [exact Hok1|by eexists|by eapply evicted_blocks].
  - cbv beta. intros x s' (-> & Hok' & Hq & Hpc). apply wp_guard; [done|]. intros _. split_and!; [done|done|..].
    + etrans; [by apply with_index_quiet|done].
    + unfold blk. by rewrite Hpc.
    + by rewrite Hpc.
Qed.

Lemma resident_block fl s c id o b : mgr_ok fl s -> prefix_cache s = Some c -> get_block (the_index c) id = Some (o, b) ->
  block_resident_tokens s b = size_of s.
Proof.
  intros Hok Hc Hg. destruct (mo_blocks _ _ Hok id (entry_of (o, b))) as (_ & v & p & Hp & _ & Hret & _).
  { by rewrite (blk_index s c Hc), lookup_seen, Hg. }
  cbn in Hp. unfold block_resident_tokens, resident_tokens. by rewrite Hp, Hret.
Qed.
Lemma uncached_freeable fl s : mgr_ok fl s -> caching s = false -> prefix_cache s = None /\ freeable s = ∅.
Proof.
  intros Hok Hca. unfold caching in Hca. pose proof (mo_index _ _ Hok) as Hix. unfold index_ok, index_of in Hix. unfold freeable.
  destruct (prefix_cache s) as [c|] eqn:Hc; [|done]. destruct Hix as [He _]. rewrite He in Hca. by rewrite bool_decide_eq_true_2 in Hca by eauto.
Qed.

(** Eviction makes room in the free stack as far as the capacity goes. *)
Definition makes_room n s s' : Prop := capacity s' = capacity s /\ (n <= num_free_slots s' \/ num_free_slots s' = capacity s').
Lemma evicted_makes_room fl s c ix' s' n x : mgr_ok fl s -> mgr_ok fl s' -> prefix_cache s = Some c -> quiet s s' -> blk s' = seen ix' ->
  is_Some (prefix_cache s') -> evict_post unheld (block_resident_tokens s) (n - num_free_slots s) 0 (the_index c) [] x ix' -> makes_room n s s'.
Proof.
  intros Hok Hok' Hc Hq Hb [c' Hc'] (lb & _ & Htr & Hstop & _). destruct (quiet_parts _ _ Hq) as (Hcf & Hpr & _).
  pose proof (trace_gone_seen _ _ _ Htr) as Hg. pose proof (gone_each _ _ _ Hg) as Heach. destruct (evict_trace_inv _ _ _ _ Htr) as [Hinv Hinv'].
  pose proof (slots_counted _ _ Hok) as H1. pose proof (slots_counted _ _ Hok') as H2. rewrite Hpr, Hcf in H2. unfold size_of in *. rewrite Hcf in H2.
  assert (Z.of_nat (size (blk s)) = Z.of_nat (length lb) + Z.of_nat (size (blk s'))) as Hsz.
  { rewrite (blk_index s c Hc), Hb, (gone_size _ _ _ Hg). lia. }
  assert (freeable s' = freeable_set ix') as Hfr'.
  { unfold freeable. rewrite Hc'. apply freeable_set_same; [done|by eapply mgr_index_inv|]. by rewrite <- (blk_index s' c' Hc'), Hb. }
  pose proof (freeable_set_evicted _ _ _ Htr) as Hfs.
  assert (capacity s' = capacity s) as Hcap. { unfold capacity, size_of. rewrite Hfr', Hcf. unfold freeable. rewrite Hc. nia. }
  split; [exact Hcap|]. destruct Hstop as [Hstop|Hno].
  - left. enough (weight_of (block_resident_tokens s) lb = std_block_size (std_config s) * Z.of_nat (length lb)) by nia.
    clear -Hok Hc Heach. induction lb as [|[o b] lb IH]; [rewrite weight_nil; cbn; lia|]. rewrite weight_cons, IH by (intros; apply Heach; by right).
    destruct (Heach o b ltac:(by left)) as [Hg _]. rewrite (resident_block _ _ _ _ _ _ Hok Hc Hg). unfold size_of. cbn [length]. lia.
  - right. unfold capacity. rewrite Hfr', no_leaf_freeable by done. rewrite size_empty. lia.
Qed.
Lemma evict_until_free_ok s refs l g n : mgr_ok (mkFlight refs l g) s ->
  wp (evict_prefix_cache_until_free n) (fun x s' => x = Ok tt /\ mgr_ok (mkFlight refs l g) s' /\ quiet s s' /\ makes_room n s s') s.
Proof.
  intros Hok. unfold evict_prefix_cache_until_free. apply wp_bind, wp_read. cbv beta iota. unfold id. apply wp_when.
  2:{ intros Hn. do 3 (split; [done|]). split; [done|]. apply andb_false_iff in Hn as [Hn|Hn]; [|left; by bool_to_prop]. right.
      destruct (uncached_freeable _ _ Hok Hn) as [_ Hf]. unfold capacity. rewrite Hf, size_empty. lia. }
  intros Hw. apply andb_prop in Hw as [Hca _]. apply andb_prop in Hca as [_ [c Hc]%bool_decide_eq_true_1].
  destruct (mgr_index _ _ _ Hok Hc) as (Hinv & _ & Hbs). apply wp_bind. eapply wp_on_prefix; [done|].
  eapply wp_mono; [apply evict_until_weight_seen; [done|]|].
  - intros b. unfold block_resident_tokens, resident_tokens. fold (size_of s). repeat case_match; lia.
  - cbv beta. intros x ix' (lb & -> & Hres & Hpost). eapply wp_mono; [by apply free_evicted_ok|]. cbv beta.
    intros y s' (-> & Hok' & Hq & Hb & Hc'). split; [done|]. split; [done|]. split; [done|]. by eapply evicted_makes_room.
Qed.
Lemma evict_for_insert_ok s refs l g : mgr_ok (mkFlight refs l g) s ->
  wp (evict_prefix_cache_for_insert 1) (fun x s' => mgr_ok (mkFlight refs l g) s' /\ quiet s s') s.
Proof.
  intros Hok. unfold evict_prefix_cache_for_insert. apply wp_bind, wp_read. cbv beta iota. unfold id.
  apply wp_when; [|done]. intros Hw. apply andb_prop in Hw as [_ [c Hc]%bool_decide_eq_true_1].
  destruct (mgr_index _ _ _ Hok Hc) as (Hinv & _ & Hbs). apply wp_bind. eapply wp_on_prefix; [done|].
  eapply wp_mono; [by apply ensure_one_seen|]. cbv beta. intros [os|e] ix'.
  - intros (lb & -> & Hres). eapply wp_mono; [by apply free_evicted_ok|]. by intros x s' (_ & ? & ? & _).
  - intros [Hst Hs]. split; [by apply index_same|by apply with_index_quiet].
Qed.
End calls.
