(* ===== verification/StandardCaches.v ===== *)
(** * The standard cache manager: its caches of hits stay right

    The lookups and chains the manager remembers per request are right in every
    state its operations lead to: every access to the index is an operation of
    the index, after which a remembered chain is either still there or out of
    date by its epoch. *)

From stdpp Require Import base gmap list strings.
From Stdlib Require Import ZArith Lia.
From S2P Require Import Prelude PyDict PyBytes Sha256 RoutingMembership RadixTree RadixForest PrefixHash.
From S2P Require Import PrefixIndex PrefixIndexFacts PrefixCapacity PrefixTransfer PrefixContract PrefixEpochs PrefixFreeable.
From S2P Require Import SamplingParams Sequence PrefixLookup PrefixHits.
From S2P Require Import StandardCache SlotRanges PrefixClient PrefixRefs StandardInvariant StandardMoves StandardIndex.

Section caches.
Context `{Digest}.
Implicit Types (s : StandardCacheManager) (sid r : Z) (o : nat) (q : Sequence).
#[local] Abbreviation Index := (RadixPrefixIndex RadixTreeBackend).
#[local] Abbreviation Cached := (CachedIndex RadixTreeBackend).
#[local] Abbreviation MgrAct := (Act PyExn StandardCacheManager).

(** The caches are right; the operations leave the depth of the snapshot as it is. *)
Definition trusted (d : Z) s : Prop := (forall c, prefix_cache s = Some c -> caches_ok c) /\ snapshot_depth s = d.
Section safe.
Variable d : Z.
#[local] Abbreviation safe := (keep (trusted d)).

(** ** Access *)

Lemma keep_on_cached {A} (m : Act PyExn Cached A) : keep caches_ok m -> safe (on_cached m).
Proof.
  intros Hm s Hs. unfold wp, on_cached. destruct (prefix_cache s) as [c|] eqn:Hc; [|done]. specialize (Hm c (proj1 Hs c Hc)). unfold wp in Hm.
  destruct (m c) as [r c']. split; [|apply Hs]. intros c'' [= <-]. exact Hm.
Qed.
Lemma keep_on_prefix {A} (m : Act PyExn Index A) : moves m -> safe (on_prefix m).
Proof. intros Hm. by apply keep_on_cached, keep_on_index. Qed.
Lemma keep_finally {A} (a : MgrAct A) (b : MgrAct unit) : safe a -> safe b -> safe (finally a b).
Proof.
  intros Ha Hb s Hs. specialize (Ha s Hs). unfold wp, finally in *. destruct (a s) as [x s1]. specialize (Hb s1 Ha). unfold wp in Hb.
  destruct (b s1) as [[[]|e] s2]; exact Hb.
Qed.

Lemma moves_kept {A} (m : Act PyExn Index A) : (forall cf t E, keep (kept cf t E) m) -> moves m.
Proof.
  intros Hm ix Hinv. pose proof (Hm (PrefixIndex.config ix) (placed ix) (epoch_of ix) ix ltac:(by split)) as Hk.
  eapply wp_mono; [exact Hk|]. intros r ix' [Hinv' Hst]. split; [done|]. by apply stays_later.
Qed.
Lemma moves_evict w n : moves (evict_until_weight w n).
Proof. apply moves_kept. intros. apply keep_evict_weight. Qed.
Lemma moves_ensure n : moves (ensure_insert_capacity n).
Proof. apply moves_kept. intros. apply keep_ensure. Qed.
Lemma moves_acquire o : moves (acquire_block_ref o).
Proof. by apply (moves_op (Acquire o)). Qed.
Lemma moves_release o : moves (release_block_ref o "Prefix cache block ref_count became negative.").
Proof. by apply (moves_op (Release o)). Qed.
Lemma moves_touch os : moves (touch_chain os).
Proof. by apply (moves_op (Touch os)). Qed.
Lemma moves_evictable : moves evictable_block_ids.
Proof. apply (moves_op Evictable); [|done]. intros ix. symmetry. apply discard_state. Qed.

#[local] Hint Resolve moves_ask moves_read moves_deref moves_freeable moves_evict moves_ensure moves_acquire moves_release
  moves_touch moves_evictable keep_on_prefix keep_finally : keep.
#[local] Hint Extern 5 (keep _ (modify _)) => apply keep_modify; intros ? Hs; exact Hs : keep.

(** A block made and inserted in one go. *)
Lemma keep_construct_insert {A} bs p (K : ObjRef -> ObjRef -> MgrAct A) : (forall o o', safe (K o o')) ->
  safe (o ← on_prefix (construct_block (new_block bs p)); o' ← on_prefix (insert_block o); K o o').
Proof.
  intros HK s Hs. destruct (prefix_cache s) as [c|] eqn:Hc; [|apply wp_bind; unfold wp at 1, on_prefix, on_cached; by rewrite Hc].
  destruct Hs as [Hs Hd]. specialize (Hs c Hc). pose proof (proj1 (proj1 Hs)) as Hinv. set (b := new_block bs p).
  apply wp_bind. eapply wp_on_prefix; [exact Hc|]. unfold wp, construct_block. cbn [fst snd].
  destruct (construct_seen (the_index c) b Hinv) as ([Hinv1 _] & _ & Ho & _).
  pose proof (run_op_later (the_index c) (NewBlock b) Hinv I) as Hl1. cbn [run_op] in Hl1.
  set (o := fresh _) in *. set (ix1 := (the_index c) <| store ::= <[o := b]> |>) in *.
  assert (later (the_index c) ix1) as Hl by exact Hl1. pose proof (caches_later c ix1 Hs Hinv1 Hl) as Hs1.
  apply (wp_bind (on_prefix (insert_block o)) (fun o' => K o o') (fun _ s' => trusted d s')). eapply wp_on_prefix; [reflexivity|]. cbn [the_index].
  assert (op_ok ix1 (Insert o)) as Hop by (intros b' Hb'; rewrite Ho in Hb'; by injection Hb' as <-).
  pose proof (run_op_inv ix1 (Insert o) Hinv1 Hop) as Hinv2. pose proof (run_op_later ix1 (Insert o) Hinv1 Hop) as Hl2.
  cbn [run_op] in Hinv2, Hl2. rewrite discard_state in Hinv2, Hl2.
  assert (wp (insert_block o) (fun _ ix2 => index_inv ix2 /\ later ix1 ix2) ix1) as Hins by (by split).
  eapply wp_mono; [exact Hins|]. cbv beta. intros x ix2 [Hi2 Hlt].
  assert (trusted d (with_index (with_index s c ix1) (c <| the_index := ix1 |>) ix2)) as Ht.
  { split; [|exact Hd]. intros c' [= <-]. exact (caches_later (c <| the_index := ix1 |>) ix2 Hs1 Hi2 Hlt). }
  destruct x as [o'|e]; [by apply HK|exact Ht].
Qed.

(** ** The manager's operations *)

Lemma safe_payload_of e b : safe (payload_of e b).
Proof. intros s Hs. unfold wp, payload_of. by destruct (payloads s !! payload b). Qed.
Lemma safe_row_len r : safe (row_len r).
Proof. unfold row_len. keep_auto. Qed.
Lemma safe_write_row r a b v : safe (write_row r a b v).
Proof. unfold write_row. keep_auto. Qed.
Lemma safe_read_row r a b : safe (read_row r a b).
Proof. unfold read_row. keep_auto. Qed.
Lemma safe_return slots : safe (return_slots slots).
Proof. unfold return_slots. keep_auto. Qed.
Lemma safe_pop n : safe (pop_slots n).
Proof. unfold pop_slots. keep_auto. Qed.
Lemma safe_get_free_row sid : safe (get_free_row sid).
Proof. unfold get_free_row. keep_auto. Qed.
Lemma safe_grow r n : safe (grow_row r n).
Proof. unfold grow_row. keep_auto. Qed.
#[local] Hint Resolve safe_payload_of safe_row_len safe_write_row safe_read_row safe_return safe_pop safe_get_free_row safe_grow : keep.
Lemma safe_write_payload o f : safe (write_payload o f).
Proof. unfold write_payload. eauto with keep. Qed.
#[local] Hint Resolve safe_write_payload : keep.
Lemma safe_free_blocks os : safe (free_prefix_cache_blocks os).
Proof.
  assert (forall h, safe (free_blocks_loop os h)) as Hl; [|unfold free_prefix_cache_blocks; keep_auto].
  induction os as [|o os IH]; intros h; cbn [free_blocks_loop]; unfold free_device_prefix_block; keep_auto.
Qed.
#[local] Hint Resolve safe_free_blocks : keep.
Lemma safe_evict n : safe (evict_prefix_cache_until_free n).
Proof. unfold evict_prefix_cache_until_free. keep_auto. Qed.
Lemma safe_evict_insert n : safe (evict_prefix_cache_for_insert n).
Proof. unfold evict_prefix_cache_for_insert. keep_auto. Qed.
Lemma safe_release os : safe (release_prefix_blocks os).
Proof. unfold release_prefix_blocks. keep_auto. Qed.
Lemma safe_hold sid o : safe (hold_materialized_prefix_block_ref sid o).
Proof. unfold hold_materialized_prefix_block_ref. keep_auto. Qed.
#[local] Hint Resolve safe_evict safe_evict_insert safe_release safe_hold : keep.
Lemma safe_allocate sid n : safe (allocate sid n).
Proof. unfold allocate. keep_auto. Qed.
Lemma safe_get_free_rows sids : safe (get_free_rows sids).
Proof. induction sids; cbn [get_free_rows]; keep_auto. Qed.
Lemma safe_row_lens rs : safe (row_lens rs).
Proof. induction rs; cbn [row_lens]; keep_auto. Qed.
Lemma safe_scatter rows cols slots : safe (scatter rows cols slots).
Proof. unfold scatter. keep_auto. Qed.
#[local] Hint Resolve safe_allocate safe_get_free_rows safe_row_lens safe_scatter : keep.
Lemma safe_allocate_batch sids : safe (allocate_batch sids).
Proof. unfold allocate_batch. keep_auto. Qed.
Lemma safe_check_chain os : safe (check_attach_chain os).
Proof. induction os; cbn [check_attach_chain]; keep_auto. Qed.
Lemma safe_attach_blocks sid r cursor os : safe (attach_blocks sid r cursor os).
Proof. revert cursor. induction os; intros cursor; cbn [attach_blocks]; keep_auto. Qed.
#[local] Hint Resolve safe_allocate_batch safe_check_chain safe_attach_blocks : keep.
Lemma safe_attach q : safe (attach_prefix_cache_if_needed q).
Proof. unfold attach_prefix_cache_if_needed. keep_auto. Qed.
Lemma safe_set_state sid st : safe (set_state sid st).
Proof. unfold set_state. eauto with keep. Qed.
Lemma safe_make_payload slots : safe (make_prefix_block_payload slots).
Proof. unfold make_prefix_block_payload. keep_auto. Qed.
#[local] Hint Resolve safe_attach safe_set_state safe_make_payload : keep.
Lemma safe_add_block sid toks slots : safe (add_block sid toks slots).
Proof. unfold add_block. keep_auto. Qed.
#[local] Hint Resolve safe_add_block : keep.
Lemma safe_add_full sid n bs toks slots : safe (add_full_blocks sid n bs toks slots).
Proof. revert toks slots. induction n; intros toks slots; cbn [add_full_blocks]; keep_auto. Qed.
#[local] Hint Resolve safe_add_full : keep.
Lemma safe_record_rest sid bs toks slots : safe (record_rest sid bs toks slots).
Proof. unfold record_rest. keep_auto. Qed.
#[local] Hint Resolve safe_record_rest : keep.
Lemma safe_record q toks slots : safe (record_prefix_materialization q toks slots).
Proof. unfold record_prefix_materialization. keep_auto. Qed.
Lemma safe_attached_resident os : safe (attached_resident os).
Proof. induction os; cbn [attached_resident]; keep_auto. Qed.
#[local] Hint Resolve safe_record safe_attached_resident : keep.
Lemma safe_mark q o : safe (mark_materialized_prefix_block q o).
Proof. unfold mark_materialized_prefix_block. keep_auto. Qed.
#[local] Hint Resolve safe_mark : keep.
Lemma safe_materialize_pending q p : safe (materialize_pending q p).
Proof.
  unfold materialize_pending. do 2 (keep_step; cbv beta iota zeta; [auto with keep|keep_step]). 
  keep_step; [keep_auto|intros _]. apply keep_construct_insert. keep_auto.
Qed.
Lemma safe_acquire_protected ids : safe (acquire_protected ids).
Proof. induction ids; cbn [acquire_protected]; keep_auto. Qed.
#[local] Hint Resolve safe_materialize_pending safe_acquire_protected : keep.
Lemma safe_materialize q : safe (materialize_seq q).
Proof. unfold materialize_seq. keep_auto. apply keep_finally; keep_auto. Qed.
Lemma safe_free_ranges r l : safe (free_ranges r l).
Proof. unfold free_ranges. keep_auto. Qed.
Lemma safe_clear_row r : safe (clear_row r).
Proof. unfold clear_row. eauto with keep. Qed.
#[local] Hint Resolve safe_materialize safe_free_ranges safe_clear_row : keep.
Lemma safe_forward_end qs : safe (on_forward_end qs).
Proof. unfold on_forward_end. keep_auto. Qed.
Lemma safe_free_seq sid : safe (free_seq sid).
Proof. unfold free_seq. keep_auto. Qed.
Lemma safe_prefill_all qs acc : safe (prefill_all qs acc).
Proof. revert acc. induction qs; intros acc; cbn [prefill_all]; unfold prefill_one; keep_auto. Qed.
Lemma safe_record_decoded l : safe (record_decoded l).
Proof. induction l as [|[q slot] l IH]; cbn [record_decoded]; keep_auto. Qed.
#[local] Hint Resolve safe_prefill_all safe_record_decoded : keep.
Lemma safe_prepare_step qs b : safe (prepare_step qs b).
Proof. unfold prepare_step, prepare_prefill, prepare_decode. keep_auto. Qed.
End safe.
End caches.
