(* ===== verification/StandardSteps.v ===== *)
(** * The standard cache manager: allocation and release

    [_allocate], [_allocate_batch] and [free_seq] keep the invariant, whether
    they return or raise. *)

From stdpp Require Import base gmap list strings.
From Stdlib Require Import ZArith Lia.
From S2P Require Import Prelude PyDict PyBytes Sha256 RoutingMembership RadixTree RadixForest PrefixHash.
From S2P Require Import PrefixIndex PrefixIndexFacts PrefixCapacity SamplingParams Sequence PrefixLookup.
From S2P Require Import StandardCache SlotRanges PrefixClient PrefixRefs StandardInvariant StandardMoves StandardIndex.

Section steps.
Context `{Digest}.
Implicit Types (s : StandardCacheManager) (sid r : Z) (o : nat) (v l : list Z) (fl : Flight) (g : Z -> Z).
#[local] Abbreviation MgrAct := (Act PyExn StandardCacheManager).

Definition own_cells s sid : list Z := match seq_id_to_row s !! sid with Some r => cells s r | None => [] end.
Definition own_len s sid : Z := match seq_id_to_row s !! sid with Some r => len_of s r | None => 0 end.
(** The request's own records, its row and length apart. *)
Record same_record sid s s' : Prop := {
  sr_config : std_config s' = std_config s;
  sr_index : is_Some (prefix_cache s') <-> is_Some (prefix_cache s);
  sr_attached : seq_id_to_prefix_blocks s' !! sid = seq_id_to_prefix_blocks s !! sid;
  sr_state : prefix_runtime_states s' !! sid = prefix_runtime_states s !! sid;
}.
#[global] Instance same_record_refl sid : Reflexive (same_record sid).
Proof. intros s. by split. Qed.
#[global] Instance same_record_trans sid : Transitive (same_record sid).
Proof. intros s1 s2 s3 [A1 A2 A3 A4] [B1 B2 B3 B4]. split; try congruence. by rewrite B2. Qed.
Lemma stays_record sid s s' : stays sid s s' -> same_record sid s s'.
Proof. by intros []. Qed.
Lemma stays_own_len sid s s' : stays sid s s' -> own_len s' sid = own_len s sid.
Proof. intros [_ _ Hr Hl _ _ _]. unfold own_len. rewrite Hr. destruct (seq_id_to_row s !! sid) as [r|]; [|done]. by destruct (Hl r eq_refl). Qed.

Lemma stays_own_cells sid s s' : stays sid s s' -> own_cells s' sid = own_cells s sid.
Proof. intros [_ _ Hr Hc _ _ _]. unfold own_cells. rewrite Hr. destruct (seq_id_to_row s !! sid) as [r|]; [|done]. by destruct (Hc r eq_refl). Qed.

(** ** Rows *)

Lemma row_len_run s r : shape_ok s -> 0 <= r < max_buffer_rows (std_config s) -> row_len r s = (Ok (len_of s r), s).
Proof.
  intros Hs Hr. destruct (row_lookup s r Hs Hr) as (row & _ & _ & _ & Hl). unfold row_len, array_get.
  unfold mbind, Act_bind, read, lift, id. cbn. by rewrite Hl.
Qed.
Lemma place_run {A} s r v (K : MgrAct A) (Q : exc A -> StandardCacheManager -> Prop) :
  shape_ok s -> 0 <= r < max_buffer_rows (std_config s) ->
  len_of s r + Z.of_nat (length v) <= max_model_len (std_config s) -> wp K Q (place r v s) ->
  wp (write_row r (len_of s r) (len_of s r + Z.of_nat (length v)) v ;; grow_row r (Z.of_nat (length v)) ;; K) Q s.
Proof.
  intros Hs Hr Hv HK. destruct (row_lookup s r Hs Hr) as (row & Hb & Hrow & Hlen & Hl). pose proof (sh_range s Hs r).
  assert (write_row r (len_of s r) (len_of s r + Z.of_nat (length v)) v s =
    (Ok tt, s <| buffer_req_to_token_slots ::= <[Z.to_nat r := take (Z.to_nat (len_of s r)) row ++ v ++
       drop (Z.to_nat (len_of s r + Z.of_nat (length v))) row]> |>)) as Hw.
  { unfold write_row, mbind, Act_bind, read, id, tensor_assign. cbn [fst snd]. rewrite Hb.
    replace (Z.min (len_of s r) (Z.of_nat (length row))) with (len_of s r) by lia.
    replace (Z.max (len_of s r) _) with (len_of s r + Z.of_nat (length v)) by lia.
    rewrite (proj2 (Z.eqb_eq _ _)) by lia. reflexivity. }
  apply wp_bind. unfold wp at 1. rewrite Hw. cbn [fst snd]. apply wp_bind. unfold wp at 1, grow_row, array_get.
  unfold mbind, Act_bind, read, lift, id. cbn. rewrite (sh_logical s Hs), Hl. cbn.
  unfold place in HK. cbn in HK. rewrite Hrow, (sh_logical s Hs) in HK. exact HK.
Qed.

(** What [_get_free_row] gives: the request's row, or a fresh one. *)
Definition row_given sid s r s' : Prop :=
  (s' = s /\ seq_id_to_row s !! sid = Some r) \/
  (seq_id_to_row s !! sid = None /\ exists rows, free_rows s = r :: rows /\ s' = rowed sid r rows s).
Lemma get_free_row_ok s fl sid : mgr_ok fl s -> (seq_id_to_row s !! sid = None -> gap fl sid = 0) ->
  wp (get_free_row sid) (fun x s' =>
    match x with
    | Ok r => row_given sid s r s' /\ mgr_ok fl s' /\ seq_id_to_row s' !! sid = Some r /\
        others_stay sid s s' /\ same_record sid s s' /\ len_of s' r = own_len s sid /\ cells s' r = own_cells s sid
    | Raise _ => s' = s /\ seq_id_to_row s !! sid = None /\ free_rows s = []
    end) s.
Proof.
  intros Hok Hg. unfold get_free_row, own_len, own_cells. apply wp_bind, wp_read. cbv beta iota. unfold id.
  destruct (seq_id_to_row s !! sid) as [r|] eqn:Hr.
  - apply wp_ret. split_and!; try done. by left.
  - destruct (free_rows s) as [|r rows] eqn:Hf; [by apply wp_throw|]. apply wp_bind, wp_modify, wp_ret.
    change (row_given sid s r (rowed sid r rows s) /\ mgr_ok fl (rowed sid r rows s) /\ seq_id_to_row (rowed sid r rows s) !! sid = Some r /\
        others_stay sid s (rowed sid r rows s) /\ same_record sid s (rowed sid r rows s) /\ len_of (rowed sid r rows s) r = 0 /\ cells (rowed sid r rows s) r = []).
    assert (len_of s r = 0) as Hl0 by (apply (sh_empty s (mo_shape _ _ Hok)); rewrite Hf; by left).
    destruct (rowed_ok fl s sid r rows Hok Hr Hf (Hg eq_refl)) as [Hok' Ho]. split_and!; try done; try by apply empty_cells.
    + right. split; [done|]. by exists rows.
    + unfold rowed. cbn. apply lookup_insert_eq.
Qed.

(** ** [_allocate] *)

Definition pop_of n s : list Z := slice (num_free_slots s - n) (num_free_slots s) (free_slots_stack s).
Lemma pop_length n s : shape_ok s -> 0 <= n <= num_free_slots s -> Z.of_nat (length (pop_of n s)) = n.
Proof. intros Hs Hn. pose proof (sh_free s Hs). unfold pop_of. rewrite length_slice; lia. Qed.

Definition allocated refs l g sid size s (x : exc (list Z)) s' : Prop :=
  match x with
  | Ok slots => exists r, seq_id_to_row s' !! sid = Some r /\ Z.of_nat (length slots) = size /\
      mgr_ok (mkFlight refs l (set_gap g sid (g sid + size))) s' /\ others_stay sid s s' /\ same_record sid s s' /\
      len_of s' r = own_len s sid + size /\ slots = slice (own_len s sid) (own_len s sid + size) (cells s' r) /\
      cells s' r = own_cells s sid ++ slots /\ capacity s' = capacity s - size
  | Raise _ => mgr_ok (mkFlight refs l g) s' /\ quiet s s' /\
      (capacity s < size \/ seq_id_to_row s !! sid = None /\ free_rows s = [])
  end.
Lemma quiet_own_len s s' sid : quiet s s' -> own_len s' sid = own_len s sid.
Proof. intros Hq. by apply stays_own_len, quiet_stays. Qed.

Lemma allocate_ok s refs l g sid size : mgr_ok (mkFlight refs l g) s -> 0 <= size ->
  (seq_id_to_row s !! sid = None -> g sid = 0) -> own_len s sid + size <= max_model_len (std_config s) ->
  wp (allocate sid size) (allocated refs l g sid size s) s.
Proof.
  intros Hok Hsz Hg Hfit. unfold allocate. apply wp_bind. eapply wp_mono; [by apply evict_until_free_ok|]. cbv beta.
  intros x s1 (-> & Hok1 & Hq & Hcap & Hroom). destruct (quiet_parts _ _ Hq) as (Hc1 & _ & _ & Hr1 & _ & _ & Hf1).
  apply wp_bind, wp_read. cbv beta iota. unfold id. apply wp_bind, wp_guard; [intros Hn; bool_to_prop; split_and!; [done..|left; lia]|]. intros Hfree. bool_to_prop.
  apply wp_bind. eapply wp_mono; [apply (get_free_row_ok s1 _ sid Hok1); by rewrite Hr1|]. cbv beta.
  intros [r|e] s2; [|intros (-> & Hn & Hf); split_and!; [done..|right; split; congruence]]. intros (Hgiven & Hok2 & Hr2 & Ho2 & Hsr2 & Hl2 & Hcl2). rewrite (quiet_own_len _ _ sid Hq) in Hl2. rewrite (stays_own_cells _ _ _ (quiet_stays _ _ sid Hq)) in Hcl2.
  pose proof (mo_shape _ _ Hok2) as Hs2. pose proof (row_valid s2 sid r Hs2 Hr2) as Hrv.
  assert (num_free_slots s2 = num_free_slots s1) as Hn2 by (destruct Hgiven as [[-> _]|(_ & rows & _ & ->)]; done).
  apply wp_bind. unfold wp at 1. rewrite row_len_run by done. cbn [fst snd].
  apply wp_bind. unfold pop_slots. apply wp_bind, wp_read. cbv beta iota. unfold id. apply wp_bind, wp_modify, wp_ret. cbv beta iota.
  change (slice _ _ _) with (pop_of size s2). change (s2 <| num_free_slots := _ |>) with (popped size s2).
  pose proof (popped_ok s2 refs l g size Hok2 ltac:(lia)) as Hok3. pose proof (pop_length size s2 Hs2 ltac:(lia)) as Hlen.
  fold (pop_of size s2) in Hok3. set (v := pop_of size s2) in *. set (s3 := popped size s2) in *.
  change (len_of s2 r) with (len_of s3 r) in *. change (seq_id_to_row s2) with (seq_id_to_row s3) in *.
  assert (std_config s3 = std_config s) as Hc3.
  { change (std_config s3) with (std_config s2). rewrite (sr_config _ _ _ Hsr2). done. }
  rewrite <- Hlen. apply place_run; [apply Hok3|by rewrite Hc3, <- Hc1, <- (sr_config _ _ _ Hsr2)|rewrite Hc3; lia|].
  apply wp_ret. destruct (place_ok s3 sid r refs v l g Hok3 Hr2) as [Hok4 Ho4]; [rewrite Hc3; lia|].
  exists r. rewrite Hlen, <- Hl2 in *. assert (0 <= r < max_buffer_rows (std_config s3)) as Hrv3 by (by rewrite Hc3, <- Hc1, <- (sr_config _ _ _ Hsr2)).
  split_and!.
  - exact Hr2.
  - done.
  - exact Hok4.
  - etrans; [by apply quiet_others|]. etrans; [exact Ho2|]. etrans; [|exact Ho4].
    intros sid' _. by split.
  - etrans; [by apply stays_record, quiet_stays|]. etrans; [exact Hsr2|]. by split.
  - rewrite place_len by (apply Hok3 || done). lia.
  - rewrite place_cells by (try apply Hok3; try done; rewrite Hc3; lia). rewrite <- Hlen at 1.
    symmetry. apply slice_app_r. apply cells_length; [apply Hok3|done].
  - rewrite place_cells by (try apply Hok3; try done; rewrite Hc3; lia). by rewrite <- Hcl2.
  - rewrite <- Hcap. assert (prefix_cache s2 = prefix_cache s1) as Hpc by (destruct Hgiven as [[-> _]|(_ & rows & _ & ->)]; done).
    unfold capacity, freeable, size_of. change (prefix_cache (place r v s3)) with (prefix_cache s2).
    change (std_config (place r v s3)) with (std_config s3). change (num_free_slots (place r v s3)) with (num_free_slots s2 - size).
    rewrite Hpc, Hc3, Hn2, Hc1. lia.
Qed.
End steps.
