(* ===== verification/StandardRecord.v ===== *)
(** * The standard cache manager: recording full blocks

    [record_prefix_materialization]: the tokens of a step, cut into blocks that
    wait to be handed to the index and a rest that waits for more tokens. *)

From stdpp Require Import base gmap list strings.
From Stdlib Require Import ZArith Lia.
From S2P Require Import Prelude PyDict PyBytes Sha256 RoutingMembership RadixTree RadixForest PrefixHash.
From S2P Require Import PrefixIndex PrefixIndexFacts PrefixCapacity PrefixTransfer SamplingParams Sequence PrefixLookup.
From S2P Require Import StandardCache SlotRanges PrefixClient PrefixRefs StandardInvariant StandardMoves StandardIndex StandardSteps.

Section record.
Context `{Digest}.
Implicit Types (s : StandardCacheManager) (sid r : Z) (o : nat) (v l : list Z) (fl : Flight) (g : Z -> Z) (st : PrefixRuntimeState).
#[local] Abbreviation MgrAct := (Act PyExn StandardCacheManager).

(** Only the request's own entries of the states and pending blocks change, and
    payload objects are created. *)
Record records sid s s' : Prop := {
  rc_frame : s' = s <| payloads := payloads s' |> <| prefix_runtime_states := prefix_runtime_states s' |>
                    <| pending_prefix_blocks := pending_prefix_blocks s' |>;
  rc_states sid' : sid' <> sid -> prefix_runtime_states s' !! sid' = prefix_runtime_states s !! sid';
}.
#[global] Instance records_refl sid : Reflexive (records sid).
Proof. intros s. split; [by destruct s|done]. Qed.
#[global] Instance records_trans sid : Transitive (records sid).
Proof. intros s1 s2 s3 [F1 S1] [F2 S2]. split; [by rewrite F2, F1|]. intros sid' Hne. by rewrite S2, S1. Qed.
Lemma records_others sid s s' : records sid s s' -> others_stay sid s s'.
Proof. intros [F S] sid' Hne. split; try by rewrite F. by apply S. Qed.

Definition with_state sid st s : StandardCacheManager := s <| prefix_runtime_states ::= <[sid := st]> |>.

Lemma view_other_state s sid st sid' r' : sid' <> sid -> view (with_state sid st s) sid' r' = view s sid' r'.
Proof. intros Hne. unfold view, with_state. cbn. by rewrite lookup_insert_ne. Qed.
Lemma view_own_state s sid st r : view (with_state sid st s) sid r = (view s sid r) <| v_state := Some st |>.
Proof. unfold view, with_state. cbn. by rewrite lookup_insert_eq. Qed.
Lemma view_same_state s sid st r : prefix_runtime_states s !! sid = Some st -> (view s sid r) <| v_state := Some st |> = view s sid r.
Proof. intros Hst. unfold view. cbn. by rewrite Hst. Qed.
Lemma with_state_records sid st s : records sid s (with_state sid st s).
Proof. split; [by destruct s|]. intros sid' Hne. unfold with_state. cbn. by rewrite lookup_insert_ne. Qed.

(** A state change of one request keeps the rest of the invariant. *)
Lemma with_state_ok refs l g s sid r st n : mgr_ok (mkFlight refs l g) s -> is_Some (prefix_cache s) -> seq_id_to_row s !! sid = Some r ->
  seq_ok (size_of s) (blk s) (payloads s) n ((view s sid r) <| v_state := Some st |>) ->
  mgr_ok (mkFlight refs l (set_gap g sid n)) (with_state sid st s).
Proof.
  intros [Hs Hix Hb Hrf Hsq Hc] [c Hca] Hr Hok. split; cbn; try done.
  - split; apply Hs.
  - unfold index_ok, index_of in *. cbn in *. rewrite Hca in *. exact Hix.
  - intros sid'. specialize (Hsq sid'). change (seq_id_to_row (with_state sid st s)) with (seq_id_to_row s). unfold set_gap.
    destruct (decide (sid' = sid)) as [->|Hne].
    + rewrite Hr, view_own_state. exact Hok.
    + destruct (seq_id_to_row s !! sid') as [r'|]; [by rewrite view_other_state|].
      destruct Hsq as (? & ? & ? & ? & ?). split_and!; try done. unfold with_state. cbn. by rewrite lookup_insert_ne.
Qed.

(** The tokens that wait change; [m] more cells count as recorded. *)
Lemma refill_ok refs l g s sid r st st' m : mgr_ok (mkFlight refs l g) s -> is_Some (prefix_cache s) -> seq_id_to_row s !! sid = Some r ->
  prefix_runtime_states s !! sid = Some st -> next_logical_block_idx st' = next_logical_block_idx st ->
  Z.of_nat (length (pending_tokens st')) = Z.of_nat (length (pending_tokens st)) + m -> Z.of_nat (length (pending_tokens st')) <= size_of s ->
  m <= g sid -> int64s (pending_tokens st') = true ->
  concat (pending_slots st') = slice (next_logical_block_idx st * size_of s) (len_of s r - (g sid - m)) (cells s r) ->
  mgr_ok (mkFlight refs l (set_gap g sid (g sid - m))) (with_state sid st' s).
Proof.
  intros Hok Hca Hr Hst Hnext Hpt Hle Hm Hi Hps. apply (with_state_ok _ _ _ _ _ r); [done..|].
  pose proof (state_size s sid (mo_index _ _ Hok) ltac:(rewrite Hst; eauto)) as Hbs.
  pose proof (mo_seqs _ _ Hok sid) as Hsq. rewrite Hr in Hsq. cbn in Hsq.
  destruct Hsq as [Hlen Hatt Hg Hrs Hrec Hb Hd]. unfold recorded in Hrec. cbn in *. rewrite Hst in Hrec.
  destruct Hrec as (k & Hn & Hk & Ha & Hkr & Hpa & HR & Hptb & Hcs & Hi64).
  assert (k * size_of s <= next_logical_block_idx st * size_of s) by nia.
  assert (Z.of_nat (length (default [] (seq_id_to_prefix_blocks s !! sid))) * size_of s <= k * size_of s) by nia.
  split; cbn; try done; try lia.
  - eapply ranges_between_weaken; [..|exact Hkr]; lia.
  - unfold recorded. cbn. exists k. rewrite Hnext. split_and!; try done. lia.
Qed.

(** ** Adding a block *)

Definition new_payload (slots : list Z) : StandardPrefixBlockPayload := mkPayload (Some slots) 0 (Z.of_nat (length slots)) None None.
Definition fresh_payload s : nat := fresh (dom (payloads s)).
Definition new_pending st (id : bytes) o (toks slots : list Z) : PendingPrefixBlock :=
  mkPending id (state_parent_block_id st) (next_logical_block_idx st) o slots toks.
Definition advanced st (id : bytes) : PrefixRuntimeState := st <| state_parent_block_id := Some id |> <| next_logical_block_idx ::= Z.succ |>.
Definition added sid st (id : bytes) (toks slots : list Z) s : StandardCacheManager :=
  s <| payloads ::= <[fresh_payload s := new_payload slots]> |>
    <| pending_prefix_blocks ::= fun m => <[sid := default [] (m !! sid) ++ [new_pending st id (fresh_payload s) toks slots]]> m |>
    <| prefix_runtime_states ::= <[sid := advanced st id]> |>.

Lemma with_index_id s c : prefix_cache s = Some c -> with_index s c (the_index c) = s.
Proof. intros Hc. unfold with_index. destruct s, c; cbn in *. by subst. Qed.

Definition block_id_in (c : CachedIndex RadixTreeBackend) (toks : list Z) (parent : option bytes) : exc bytes :=
  stable_block_id_of (block_size (PrefixIndex.config (the_index c))) (fingerprint (PrefixIndex.config (the_index c))) toks parent.
Lemma add_block_run s sid st toks slots c (Q : exc unit -> StandardCacheManager -> Prop) :
  prefix_cache s = Some c -> prefix_runtime_states s !! sid = Some st ->
  Z.of_nat (length toks) = block_size (PrefixIndex.config (the_index c)) -> int64s toks = true ->
  (forall id, block_id_in c toks (state_parent_block_id st) = Ok id -> Q (Ok tt) (added sid st id toks slots s)) ->
  wp (add_block sid toks slots) Q s.
Proof.
  unfold block_id_in. intros Hc Hst Hlen Hi HQ. unfold add_block. apply wp_bind, wp_read. cbv beta iota. unfold id. rewrite Hst.
  destruct (stable_block_id_ok _ (fingerprint (PrefixIndex.config (the_index c))) toks (state_parent_block_id st) Hi Hlen) as (m & Hm & Hid).
  apply wp_bind. eapply wp_on_prefix; [done|]. apply wp_ask. rewrite Hid, (with_index_id s c Hc).
  apply wp_bind. unfold make_prefix_block_payload. apply wp_bind, wp_read. cbv beta iota zeta. apply wp_bind, wp_modify, wp_ret.
  apply wp_bind, wp_modify. cbv beta iota zeta. unfold set_state. apply wp_modify. exact (HQ _ Hid).
Qed.

Lemma fresh_payload_new s : payloads s !! fresh_payload s = None.
Proof. unfold fresh_payload. apply not_elem_of_dom, is_fresh. Qed.
Lemma owns_new bs pl o p po v : pl !! o = None -> owns bs pl po v -> owns bs (<[o := p]> pl) po v.
Proof. intros Hn (q & Hq & ?). exists q. split; [|done]. rewrite lookup_insert_ne; [done|congruence]. Qed.
Lemma slots_new pl o p po : pl !! o = None -> is_Some (pl !! po) -> slots_of (<[o := p]> pl) po = slots_of pl po.
Proof. intros Hn [q Hq]. unfold slots_of. rewrite lookup_insert_ne; [done|congruence]. Qed.
Lemma owns_present bs pl po v : owns bs pl po v -> is_Some (pl !! po).
Proof. intros (p & -> & _). eauto. Qed.

Lemma added_records sid st id toks slots s : records sid s (added sid st id toks slots s).
Proof. split; [by destruct s|]. intros sid' Hne. unfold added. cbn. by rewrite lookup_insert_ne. Qed.

Lemma pending_at_snoc bs pl cs k ps p : pending_at bs pl cs k ps ->
  pending_logical_idx p = k + Z.of_nat (length ps) -> owns bs pl (pending_payload p) (pending_block_slots p) ->
  pending_block_slots p = slice ((k + Z.of_nat (length ps)) * bs) ((k + Z.of_nat (length ps) + 1) * bs) cs ->
  pending_at bs pl cs k (ps ++ [p]).
Proof.
  revert k. induction ps as [|q ps IH]; intros k; cbn [pending_at app length].
  - rewrite Z.add_0_r. done.
  - intros [Hq Hps] Hi Ho Hsl. split; [done|]. replace (k + Z.of_nat (S (length ps))) with (k + 1 + Z.of_nat (length ps)) in * by lia.
    by apply IH.
Qed.

Lemma added_ok refs l g s sid r st id toks slots : mgr_ok (mkFlight refs l g) s -> is_Some (prefix_cache s) -> seq_id_to_row s !! sid = Some r ->
  prefix_runtime_states s !! sid = Some st -> pending_tokens st = [] -> size_of s <= g sid -> Z.of_nat (length slots) = size_of s ->
  slots = slice (next_logical_block_idx st * size_of s) ((next_logical_block_idx st + 1) * size_of s) (cells s r) ->
  mgr_ok (mkFlight refs l (set_gap g sid (g sid - size_of s))) (added sid st id toks slots s).
Proof.
  intros Hok [c Hca] Hr Hst Hpt Hg0 Hlsl Hsl. pose proof (state_size s sid (mo_index _ _ Hok) ltac:(rewrite Hst; eauto)) as Hbs.
  destruct Hok as [Hs Hix Hb Hrf Hsq Hc]. set (s' := added sid st id toks slots s). pose proof (fresh_payload_new s) as Hnew.
  assert (blk s' = blk s) as Hblk by done.
  assert (shared s' = shared s) as Hsh.
  { apply map_eq. intros id'. rewrite !lookup_shared, Hblk. destruct (blk s !! id') as [en|] eqn:Hen; [|done]. cbn. f_equal.
    destruct (Hb id' en Hen) as [_ (w & Hw)]. apply slots_new; [done|by eapply owns_present]. }
  split; cbn [extra_refs loose gap].
  - split; apply Hs.
  - unfold index_ok, index_of in *. cbn in *. rewrite Hca in *. exact Hix.
  - intros id' en Hen. destruct (Hb id' en Hen) as [Hres (w & Hw)]. split; [done|]. exists w. by apply owns_new.
  - exact Hrf.
  - intros sid'. pose proof (Hsq sid') as Hv. change (seq_id_to_row s') with (seq_id_to_row s). unfold set_gap.
    destruct (decide (sid' = sid)) as [->|Hne].
    + rewrite Hr in *. assert (view s' sid r = (view s sid r)
        <| v_state := Some (advanced st id) |>
        <| v_pending ::= fun ps => ps ++ [new_pending st id (fresh_payload s) toks slots] |>) as ->.
      { unfold view, s', added. cbn. by rewrite !lookup_insert_eq. }
      destruct Hv as [Hlen Hatt Hg Hrs Hrec Hbk Hd]. unfold recorded in Hrec. cbn in Hrec. rewrite Hst in Hrec.
      destruct Hrec as (k & Hn & Hk & Ha & Hkr & Hpa & HR & Hptb & Hcs & Hi64). rewrite Hpt in HR. cbn in HR.
      cbn in Hlen, Hatt, Hrs, Hbk, Hd, Hg. change (size_of s') with (size_of s). split; cbn; change (len_of s' r) with (len_of s r); try done; try lia.
      * eapply ranges_between_weaken; [..|exact Hrs]; lia.
      * exists k. cbn. rewrite Hpt, length_app. cbn [length]. split_and!; try done; try lia.
        -- apply pending_at_snoc; cbn; [|lia| |by rewrite <- Hn].
           ++ eapply pending_at_mono; [|exact Hpa]. intros p v _. by apply owns_new.
           ++ exists (new_payload slots). rewrite lookup_insert_eq. done.
        -- cbn. rewrite Hcs. replace (len_of s r - g sid) with (next_logical_block_idx st * size_of s) by lia.
           replace (len_of s r - (g sid - size_of s)) with (Z.succ (next_logical_block_idx st) * size_of s).
           ++ by rewrite !slice_none.
           ++ lia.
      * eapply Forall_impl; [exact Hbk|]. intros ab (id' & en & Hen & Ho & Heq). exists id', en. split_and!; [done..|].
        rewrite <- Heq. apply slots_new; [done|]. destruct (Hb id' en Hen) as [_ (w & Hw)]. by eapply owns_present.
    + destruct (seq_id_to_row s !! sid') as [r'|] eqn:Hr'.
      * replace (view s' sid' r') with (view s sid' r') by (unfold view, s', added; cbn; by rewrite !lookup_insert_ne).
        eapply seq_ok_mono; [..|exact Hv].
        -- intros id' en Hen _. exists en. split_and!; [done..|]. apply slots_new; [done|]. destruct (Hb id' en Hen) as [_ (w & Hw)]. by eapply owns_present.
        -- intros p v _ Hw. exact (owns_new _ _ _ _ _ _ Hnew Hw).
      * destruct Hv as (? & ? & ? & ? & ?). split_and!; try done; unfold s', added; cbn; by rewrite lookup_insert_ne.
  - unfold conserved. rewrite Hsh. exact Hc.
Qed.

(** ** Full blocks and the rest *)

Lemma set_gap_same g sid n sid' : set_gap (set_gap g sid n) sid (set_gap g sid n sid) sid' = set_gap g sid n sid'.
Proof. unfold set_gap. by repeat case_decide. Qed.
Lemma set_gap_at g sid n : set_gap g sid n sid = n.
Proof. unfold set_gap. by rewrite decide_True. Qed.
Lemma set_gap_twice g sid n m sid' : set_gap (set_gap g sid n) sid m sid' = set_gap g sid m sid'.
Proof. unfold set_gap. by repeat case_decide. Qed.
Lemma set_gap_id g sid sid' : set_gap g sid (g sid) sid' = g sid'.
Proof. unfold set_gap. case_decide; congruence. Qed.

Lemma records_cells sid s s' : records sid s s' ->
  (forall r, cells s' r = cells s r) /\ (forall r, len_of s' r = len_of s r) /\ seq_id_to_row s' = seq_id_to_row s /\
  prefix_cache s' = prefix_cache s /\ std_config s' = std_config s /\ seq_id_to_prefix_blocks s' = seq_id_to_prefix_blocks s.
Proof. intros [-> _]. done. Qed.

Lemma slice_front {A} (cs : list A) a n m : 0 <= n <= m -> take (Z.to_nat n) (slice a (a + m) cs) = slice a (a + n) cs.
Proof. intros Hn. unfold slice. rewrite take_take. f_equal. lia. Qed.
Lemma drop_slice {A} (cs : list A) a n m : 0 <= a -> 0 <= n <= m -> drop (Z.to_nat n) (slice a (a + m) cs) = slice (a + n) (a + m) cs.
Proof.
  intros Ha Hn. unfold slice. rewrite skipn_firstn_comm, drop_drop. f_equal; [lia|]. f_equal. lia.
Qed.
Section one.
Context (refs : list nat) (l : list Z) (sid r : Z).

(** A recording in progress: [slots] are the cells that come next. *)
Record recording g s st (toks slots : list Z) : Prop := {
  rg_ok : mgr_ok (mkFlight refs l g) s;
  rg_cache : is_Some (prefix_cache s);
  rg_row : seq_id_to_row s !! sid = Some r;
  rg_state : prefix_runtime_states s !! sid = Some st;
  rg_slots : slots = slice (len_of s r - g sid) (len_of s r) (cells s r);
  rg_gap : Z.of_nat (length slots) = g sid;
  rg_toks : length toks = length slots;
  rg_int64 : int64s toks = true;
}.
Lemma recording_at g s st toks slots : recording g s st toks slots ->
  0 < size_of s /\ 0 <= next_logical_block_idx st /\
  len_of s r - g sid = next_logical_block_idx st * size_of s + Z.of_nat (length (pending_tokens st)) /\
  Z.of_nat (length (pending_tokens st)) <= size_of s /\ 0 <= g sid /\
  concat (pending_slots st) = slice (next_logical_block_idx st * size_of s) (len_of s r - g sid) (cells s r) /\
  int64s (pending_tokens st) = true.
Proof.
  intros [Hok [c Hc] Hr Hst _ _ _ _]. destruct (mgr_index _ _ _ Hok Hc) as (_ & _ & Hbs). pose proof (mo_seqs _ _ Hok sid) as Hsq.
  rewrite Hr in Hsq. destruct Hsq as [_ _ Hg _ Hrec _ _]. unfold recorded in Hrec. cbn in Hrec, Hg. rewrite Hst in Hrec.
  destruct Hrec as (k & Hn & Hk & _ & _ & _ & HR & Hpt & Hps & Hi). split_and!; try done. lia.
Qed.

(** One full block is cut off. *)
Lemma cut_block g s st toks slots : recording g s st toks slots -> pending_tokens st = [] -> size_of s <= g sid ->
  let n := Z.to_nat (size_of s) in
  (forall id, recording (set_gap g sid (g sid - size_of s)) (added sid st id (take n toks) (take n slots) s) (advanced st id) (drop n toks) (drop n slots)) /\
  wp (add_block sid (take n toks) (take n slots)) (fun x s' => x = Ok tt /\ records sid s s' /\ exists st',
    recording (set_gap g sid (g sid - size_of s)) s' st' (drop n toks) (drop n slots) /\ pending_tokens st' = [] /\
    pending_slots st' = pending_slots st) s.
Proof.
  intros Hrg Hpt Hle n. destruct (recording_at _ _ _ _ _ Hrg) as (Hbs & Hnn & HR & _ & Hg & _ & _). rewrite Hpt in HR. cbn in HR.
  destruct Hrg as [Hok [c Hc] Hr Hst Hsl Hgap Hlen Hi]. destruct (mgr_index _ _ _ Hok Hc) as (_ & Hcb & _).
  assert (len_of s r = (len_of s r - g sid) + g sid) as Heq by lia. rewrite Heq in Hsl at 2.
  enough (forall id, recording (set_gap g sid (g sid - size_of s)) (added sid st id (take n toks) (take n slots) s) (advanced st id) (drop n toks) (drop n slots)) as Hall.
  { split; [exact Hall|]. apply (add_block_run s sid st _ _ c); [done|done| |by apply int64s_take|].
    { rewrite length_take, Hcb. lia. }
    intros id _. split; [done|]. split; [apply added_records|]. exists (advanced st id). split; [apply Hall|done]. }
  assert (take n slots = slice (next_logical_block_idx st * size_of s) ((next_logical_block_idx st + 1) * size_of s) (cells s r)) as Htk.
  { rewrite Hsl. unfold n. rewrite slice_front by lia. f_equal; lia. }
  intros id. split.
  - apply (added_ok _ _ _ _ _ r); try done. rewrite length_take. lia.
  - by exists c.
  - exact Hr.
  - unfold added. cbn. by rewrite lookup_insert_eq.
  - rewrite set_gap_at. change (len_of (added _ _ _ _ _ s) r) with (len_of s r). change (cells (added _ _ _ _ _ s) r) with (cells s r).
    rewrite Hsl. unfold n. rewrite drop_slice by lia. f_equal; lia.
  - rewrite set_gap_at, length_drop. lia.
  - rewrite !length_drop. lia.
  - by apply int64s_drop.
Qed.

Lemma recording_gap g g' s st toks slots : (forall x, g x = g' x) -> recording g s st toks slots -> recording g' s st toks slots.
Proof. intros Hg [? ? ? ? ? ? ? ?]. split; try done; try by rewrite <- Hg. by eapply mgr_ok_gap. Qed.

Lemma add_full_blocks_ok n g s st toks slots : recording g s st toks slots -> pending_tokens st = [] -> Z.of_nat n * size_of s <= g sid ->
  let m := Z.to_nat (Z.of_nat n * size_of s) in
  wp (add_full_blocks sid n (size_of s) toks slots) (fun x s' => x = Ok tt /\ records sid s s' /\ exists st',
    recording (set_gap g sid (g sid - Z.of_nat n * size_of s)) s' st' (drop m toks) (drop m slots) /\ pending_tokens st' = [] /\
    pending_slots st' = pending_slots st) s.
Proof.
  revert g s st toks slots. induction n as [|n IH]; intros g s st toks slots Hrg Hpt Hle m; cbn [add_full_blocks].
  - apply wp_ret. split; [done|]. split; [done|]. exists st. split; [|done].
    eapply recording_gap; [|exact Hrg]. intros x. replace (g sid - Z.of_nat 0 * size_of s) with (g sid) by lia. by rewrite set_gap_id.
  - destruct (recording_at _ _ _ _ _ Hrg) as (Hbs & _). apply wp_bind. eapply wp_mono; [apply (cut_block g s st toks slots); [done..|lia]|].
    cbv beta. intros x s1 (-> & Hrc1 & st1 & Hrg1 & Hpt1 & Hps1).
    destruct (records_cells _ _ _ Hrc1) as (_ & _ & _ & _ & Hc1 & _). assert (size_of s1 = size_of s) as Hsz by (unfold size_of; by rewrite Hc1).
    specialize (IH _ s1 st1 _ _ Hrg1 Hpt1). rewrite set_gap_at, Hsz in IH. specialize (IH ltac:(lia)). cbv zeta in IH.
    eapply wp_mono; [exact IH|]. cbv beta. intros x s2 (-> & Hrc2 & st2 & Hrg2 & Hpt2 & Hps2).
    split; [done|]. split; [by etrans|]. exists st2. split_and!; [|done|congruence].
    rewrite !drop_drop in Hrg2. replace (Z.to_nat (size_of s) + Z.to_nat (Z.of_nat n * size_of s))%nat with m in Hrg2 by lia.
    eapply recording_gap; [|exact Hrg2]. intros x. rewrite set_gap_twice. f_equal. lia.
Qed.

Lemma alter_state s st f : prefix_runtime_states s !! sid = Some st ->
  s <| prefix_runtime_states ::= alter f sid |> = with_state sid (f st) s.
Proof.
  intros Hst. unfold with_state. cbn. f_equal. apply map_eq. intros sid'. destruct (decide (sid' = sid)) as [->|Hne].
  - by rewrite lookup_alter_eq, Hst, lookup_insert_eq.
  - by rewrite lookup_alter_ne, lookup_insert_ne.
Qed.

(** Recording is over: nothing of the request is left unrecorded. *)
Definition recorded_all g s s' : Prop :=
  mgr_ok (mkFlight refs l (set_gap g sid 0)) s' /\ records sid s s' /\ is_Some (prefix_runtime_states s' !! sid).

Lemma record_rest_ok g s st toks slots : recording g s st toks slots -> pending_tokens st = [] ->
  wp (record_rest sid (size_of s) toks slots) (fun x s' => x = Ok tt /\ recorded_all g s s') s.
Proof.
  intros Hrg Hpt. destruct (recording_at _ _ _ _ _ Hrg) as (Hbs & _). pose proof (rg_gap _ _ _ _ _ Hrg) as Hgap.
  pose proof (rg_toks _ _ _ _ _ Hrg) as Hlen. unfold record_rest. set (n := Z.of_nat (length toks) / size_of s).
  assert (0 <= n) as Hn by (apply Z.div_pos; lia).
  pose proof (Z.div_mod (Z.of_nat (length toks)) (size_of s) ltac:(lia)) as Hdm. fold n in Hdm.
  pose proof (Z.mod_pos_bound (Z.of_nat (length toks)) (size_of s) Hbs) as Hmod.
  apply wp_bind. eapply wp_mono; [apply (add_full_blocks_ok (Z.to_nat n) g s st toks slots); [done..|lia]|]. cbv beta zeta.
  rewrite Z2Nat.id by done. intros x s1 (-> & Hrc & st1 & Hrg1 & Hpt1 & Hps1).
  destruct (recording_at _ _ _ _ _ Hrg1) as (_ & _ & HR1 & _). pose proof Hrg1 as [Hok1 Hca1 Hr1 Hst1 Hsl1 Hgap1 Hlen1 _].
  destruct (records_cells _ _ _ Hrc) as (_ & _ & _ & _ & Hc1 & _). assert (size_of s1 = size_of s) as Hsz by (unfold size_of; by rewrite Hc1).
  rewrite set_gap_at in *. rewrite Hpt1, Hsz in HR1. cbn in HR1. set (used := Z.to_nat (n * size_of s)) in *.
  apply wp_modify. rewrite (alter_state s1 st1) by done. split; [done|]. cbn [pending_tokens pending_slots update_with].
  match goal with |- recorded_all _ _ (with_state _ ?x _) => set (st' := x) end.
  assert (Z.of_nat (length (drop used toks)) = Z.of_nat (length toks) mod size_of s) as Hrem by (rewrite length_drop; lia).
  split; [|split].
  - eapply mgr_ok_gap; [|apply (refill_ok refs l (set_gap g sid (g sid - n * size_of s)) s1 sid r st1 st' (g sid - n * size_of s)); try done].
    + intros x. rewrite set_gap_twice, set_gap_at. f_equal. lia.
    + rewrite Hpt1. unfold st'. cbn. rewrite length_drop. lia.
    + rewrite Hsz. unfold st'. cbn. lia.
    + rewrite set_gap_at. lia.
    + unfold st'. cbn. apply int64s_drop, (rg_int64 _ _ _ _ _ Hrg).
    + rewrite set_gap_at, Z.sub_diag, Z.sub_0_r, Hsz. replace (next_logical_block_idx st1 * size_of s) with (len_of s1 r - (g sid - n * size_of s)) by lia.
      rewrite <- Hsl1. unfold st'. cbn. destruct (drop used toks) as [|t ts] eqn:Ed; cbn; [|by rewrite app_nil_r].
      cbn in Hlen1. by destruct (drop used slots).
  - etrans; [exact Hrc|]. apply with_state_records.
  - unfold with_state. cbn. rewrite lookup_insert_eq. eauto.
Qed.

(** ** The whole of [record_prefix_materialization] *)

Definition pend_known s : StandardCacheManager := s <| pending_prefix_blocks ::= fun m => <[sid := default [] (m !! sid)]> m |>.
Lemma pend_known_view s sid' r' : view (pend_known s) sid' r' = view s sid' r'.
Proof.
  unfold view, pend_known. cbn. destruct (decide (sid' = sid)) as [->|Hne]; [by rewrite lookup_insert_eq|by rewrite lookup_insert_ne].
Qed.
Lemma pend_known_ok g s : mgr_ok (mkFlight refs l g) s -> seq_id_to_row s !! sid = Some r -> mgr_ok (mkFlight refs l g) (pend_known s).
Proof.
  intros [Hs Hix Hb Hrf Hsq Hc] Hr. split; try done; [split; apply Hs|]. intros sid'. specialize (Hsq sid').
  change (seq_id_to_row (pend_known s)) with (seq_id_to_row s). destruct (seq_id_to_row s !! sid') as [r'|] eqn:Hr'.
  - rewrite pend_known_view. exact Hsq.
  - destruct Hsq as (? & ? & ? & ? & ?). split_and!; try done. unfold pend_known. cbn. rewrite lookup_insert_ne; congruence.
Qed.
Lemma pend_known_records s : records sid s (pend_known s).
Proof. split; [by destruct s|done]. Qed.

(** The request's state as recording starts, and where it has to agree with the
    row: the first record of a request covers everything after its hit. *)
Definition start_state s q : PrefixRuntimeState :=
  default (mkPrefixState (prefix_cache_hit_last_block_id (prefix_hit q)) (prefix_cache_hit_block_count (prefix_hit q)) [] [])
    (prefix_runtime_states s !! sid).
Record record_input g s q (toks slots : list Z) : Prop := {
  ri_ok : mgr_ok (mkFlight refs l g) s;
  ri_row : seq_id_to_row s !! sid = Some r;
  ri_slots : slots = slice (len_of s r - g sid) (len_of s r) (cells s r);
  ri_gap : Z.of_nat (length slots) = g sid;
  ri_toks : length toks = length slots;
  ri_int64 : int64s toks = true;
  ri_hit : prefix_cache_hit_block_count (prefix_hit q) = Z.of_nat (length (default [] (seq_id_to_prefix_blocks s !! sid)));
  ri_first : prefix_runtime_states s !! sid = None ->
    len_of s r - g sid = prefix_cache_hit_block_count (prefix_hit q) * size_of s;
}.

Lemma start_recording g s q toks slots : record_input g s q toks slots -> is_Some (prefix_cache s) -> toks <> [] ->
  recording g (pend_known (with_state sid (start_state s q) s)) (start_state s q) toks slots.
Proof.
  intros [Hok Hr Hsl Hgap Hlen Hi Hhit Hfirst] Hca Hne.
  assert (0 < g sid) as Hpos by (destruct toks; [done|cbn in Hlen; lia]).
  assert (mgr_ok (mkFlight refs l g) (with_state sid (start_state s q) s)) as Hok1.
  { eapply mgr_ok_gap; [apply (set_gap_id g sid)|]. apply (with_state_ok _ _ _ _ _ r); [done..|].
    pose proof (mo_seqs _ _ Hok sid) as Hsq. rewrite Hr in Hsq. cbn in Hsq. unfold start_state.
    destruct (prefix_runtime_states s !! sid) as [st|] eqn:Hst; cbn [default from_option id].
    - rewrite (view_same_state _ _ _ _ Hst). exact Hsq.
    - destruct Hsq as [Hl Hatt Hg Hrs Hrec Hb Hd]. unfold recorded in Hrec. cbn in Hrec. rewrite Hst in Hrec.
      destruct Hrec as [Hpe Hra]. cbn in Hl, Hatt, Hrs. specialize (Hfirst eq_refl). split; cbn; try done.
      exists (prefix_cache_hit_block_count (prefix_hit q)). cbn. rewrite Hpe, Hhit in *. cbn. split_and!; try done; try lia.
      + destruct Hca as [c Hc]. destruct (mgr_index _ _ _ Hok Hc) as (_ & _ & ?). lia.
      + rewrite Hfirst, slice_none. done. }
  split; try done.
  - by apply pend_known_ok.
  - unfold with_state. cbn. by rewrite lookup_insert_eq.
Qed.

Lemma untracked_ok g s : mgr_ok (mkFlight refs l g) s -> seq_id_to_row s !! sid = Some r -> prefix_runtime_states s !! sid = None ->
  mgr_ok (mkFlight refs l (set_gap g sid 0)) s.
Proof.
  intros [Hs Hix Hb Hrf Hsq Hc] Hr Hn. split; try done. intros sid'. specialize (Hsq sid'). cbn in *. unfold set_gap.
  case_decide as E; [subst|exact Hsq]. rewrite Hr in *. destruct Hsq as [Hl Hatt Hg Hrs Hrec Hb' Hd].
  split; try done; [lia| |].
  - eapply ranges_between_weaken; [..|exact Hrs]; lia.
  - unfold recorded in *. cbn in *. by rewrite Hn in *.
Qed.

(** A partly filled block is topped up. *)
Lemma top_up g s st toks slots n : recording g s st toks slots -> (n <= length toks)%nat ->
  Z.of_nat (length (pending_tokens st)) + Z.of_nat n <= size_of s ->
  let st' := st <| pending_tokens ::= fun u => u ++ take n toks |> <| pending_slots ::= fun u => u ++ [take n slots] |> in
  mgr_ok (mkFlight refs l (set_gap g sid (g sid - Z.of_nat n))) (with_state sid st' s).
Proof.
  intros Hrg Hn Hle st'. destruct (recording_at _ _ _ _ _ Hrg) as (Hbs & Hnn & HR & _ & Hg & Hcs & Hi).
  destruct Hrg as [Hok Hca Hr Hst Hsl Hgap Hlen Hi2]. pose proof (sh_range s (mo_shape _ _ Hok) r).
  apply (refill_ok refs l g s sid r st st'); try done; unfold st'; cbn.
  - rewrite length_app, length_take. lia.
  - rewrite length_app, length_take. lia.
  - lia.
  - unfold int64s in *. rewrite forallb_app, Hi. cbn. by apply int64s_take.
  - rewrite concat_app, Hcs. cbn. rewrite app_nil_r.
    assert (take n slots = slice (len_of s r - g sid) (len_of s r - g sid + Z.of_nat n) (cells s r)) as ->.
    { rewrite Hsl. replace (len_of s r) with (len_of s r - g sid + g sid) at 2 by lia.
      rewrite <- (Nat2Z.id n) at 1. apply slice_front. lia. }
    rewrite slice_app by nia. f_equal. lia.
Qed.

Definition topped st (toks slots : list Z) (n : nat) : PrefixRuntimeState :=
  st <| pending_tokens ::= fun u => u ++ take n toks |> <| pending_slots ::= fun u => u ++ [take n slots] |>.
Definition emptied st : PrefixRuntimeState := st <| pending_tokens := [] |> <| pending_slots := [] |>.

(** The full block that a topped up rest makes, cut off a state that never
    waited. *)
Lemma full_block g s st toks slots n c : recording g s st toks slots -> prefix_cache s = Some c -> (n <= length toks)%nat ->
  Z.of_nat (length (pending_tokens st)) + Z.of_nat n = size_of s ->
  let st' := topped st toks slots n in
  let s2 := with_state sid st' s in
  wp (add_block sid (pending_tokens st') (concat (pending_slots st'))) (fun x s3 => x = Ok tt /\ exists id,
    s3 = added sid st' id (pending_tokens st') (concat (pending_slots st')) s2 /\
    recording (set_gap g sid (g sid - Z.of_nat n)) (with_state sid (emptied (advanced st' id)) s3) (emptied (advanced st' id)) (drop n toks) (drop n slots)) s2.
Proof.
  intros Hrg Hc Hn Hfull st' s2. destruct (recording_at _ _ _ _ _ Hrg) as (Hbs & Hnn & HR & _ & Hg & Hcs & Hi).
  destruct Hrg as [Hok Hca Hr Hst Hsl Hgap Hlen Hi2]. destruct (mgr_index _ _ _ Hok Hc) as (_ & Hcb & _).
  pose proof (sh_range s (mo_shape _ _ Hok) r) as Hrg.
  assert (Z.of_nat (length (pending_tokens st')) = size_of s) as Hpt by (unfold st', topped; cbn; rewrite length_app, length_take; lia).
  assert (int64s (pending_tokens st') = true) as Hi' by (unfold st', topped, int64s in *; cbn; rewrite forallb_app, Hi; by apply int64s_take).
  set (ste := emptied st). set (se := with_state sid ste s).
  assert (recording (set_gap g sid (g sid + Z.of_nat (length (pending_tokens st)))) se ste
    (pending_tokens st ++ toks) (concat (pending_slots st) ++ slots)) as Hre.
  { assert (length (concat (pending_slots st)) = length (pending_tokens st)) as Hcl.
    { apply Nat2Z.inj. rewrite Hcs, length_slice by (try lia; rewrite cells_length by (apply Hok || by eapply row_valid; [apply Hok|]); lia). lia. }
    split.
    - replace (g sid + Z.of_nat (length (pending_tokens st))) with (g sid - - Z.of_nat (length (pending_tokens st))) by lia.
      apply (refill_ok refs l g s sid r st ste); try done; unfold ste, emptied; cbn; try lia.
      rewrite <- (slice_none (cells s r) (next_logical_block_idx st * size_of s)). f_equal. lia.
    - exact Hca.
    - exact Hr.
    - unfold se, with_state. cbn. by rewrite lookup_insert_eq.
    - rewrite set_gap_at. change (len_of se r) with (len_of s r). change (cells se r) with (cells s r).
      rewrite Hcs, Hsl, slice_app by nia. f_equal. lia.
    - rewrite set_gap_at, length_app, Hcl. lia.
    - rewrite !length_app, Hcl. lia.
    - unfold int64s in *. by rewrite forallb_app, Hi, Hi2. }
  destruct (cut_block _ se ste _ _ Hre) as [Hall _]; [done|rewrite set_gap_at; change (size_of se) with (size_of s); lia|].
  apply (add_block_run s2 sid st' _ _ c); [done|unfold s2, with_state; cbn; by rewrite lookup_insert_eq|by rewrite Hcb|done|].
  intros id _. split; [done|]. exists id. split; [done|]. specialize (Hall id).
  assert (length (concat (pending_slots st)) = length (pending_tokens st)) as Hcl.
  { pose proof (rg_toks _ _ _ _ _ Hre) as E. rewrite !length_app, Hlen in E. lia. }
  replace (with_state sid (emptied (advanced st' id)) (added sid st' id (pending_tokens st') (concat (pending_slots st')) s2))
    with (added sid ste id (pending_tokens st') (concat (pending_slots st')) se).
  2:{ unfold with_state, added, s2, se, with_state. cbn. by rewrite !insert_insert_eq. }
  change (emptied (advanced st' id)) with (advanced ste id).
  change (size_of se) with (size_of s) in Hall.
  replace (Z.to_nat (size_of s)) with (length (pending_tokens st) + n)%nat in Hall by lia.
  assert (concat (pending_slots st') = concat (pending_slots st) ++ take n slots) as ->.
  { unfold st', topped. cbn. rewrite concat_app. cbn. by rewrite app_nil_r. }
  rewrite take_app_add, drop_app_add, <- Hcl, take_app_add, drop_app_add, Hcl in Hall.
  eapply recording_gap; [|exact Hall]. intros x. rewrite set_gap_twice, set_gap_at. f_equal. change (size_of se) with (size_of s). lia.
Qed.

(** The request's records after a step: everything recorded, or nothing to
    record. *)
Definition record_done g s s' : Prop := mgr_ok (mkFlight refs l (set_gap g sid 0)) s' /\ records sid s s'.

Lemma record_all_ok g s st toks slots : recording g s st toks slots ->
  wp (if bool_decide (pending_tokens st = []) then record_rest sid (size_of s) toks slots
      else
        let n := Z.to_nat (Z.min (size_of s - Z.of_nat (length (pending_tokens st))) (Z.of_nat (length toks))) in
        let st' := topped st toks slots n in
        set_state sid st' ;;
        if negb (Z.of_nat (length (pending_tokens st')) =? size_of s) then mret tt
        else
          add_block sid (pending_tokens st') (concat (pending_slots st')) ;;
          modify (fun s => s <| prefix_runtime_states ::= alter emptied sid |>) ;;
          record_rest sid (size_of s) (drop n toks) (drop n slots))
    (fun x s' => x = Ok tt /\ record_done g s s' /\ is_Some (prefix_runtime_states s' !! sid)) s.
Proof.
  intros Hrg. destruct (recording_at _ _ _ _ _ Hrg) as (Hbs & Hnn & HR & Hpb & Hg & _ & _).
  pose proof Hrg as [Hok [c Hc] Hr Hst Hsl Hgap Hlen _]. case_bool_decide as Hpt.
  { eapply wp_mono; [by apply (record_rest_ok g s st)|]. cbv beta. intros x s' (-> & ? & ? & ?). done. }
  set (n := Z.to_nat _). cbv zeta. set (st' := topped st toks slots n). unfold set_state. apply wp_bind, wp_modify. cbv beta iota.
  fold (with_state sid st' s). assert (Z.of_nat (length (pending_tokens st')) = Z.of_nat (length (pending_tokens st)) + Z.of_nat n) as Hpt'.
  { unfold st', topped. cbn. rewrite length_app, length_take. lia. }
  apply wp_if; intros Hfull; bool_to_prop.
  - apply wp_ret. split; [done|]. split; [|unfold with_state; cbn; rewrite lookup_insert_eq; eauto]. split; [|apply with_state_records].
    eapply mgr_ok_gap; [|apply (top_up g s st toks slots n Hrg); lia]. intros x. f_equal. lia.
  - apply wp_bind. eapply wp_mono; [apply (full_block g s st toks slots n c); [done|done|lia|lia]|]. cbv beta.
    intros x s3 (-> & id & -> & Hrg3). fold st'. apply wp_bind, wp_modify. cbv beta iota.
    match goal with |- wp _ _ (?y <| prefix_runtime_states ::= _ |>) => set (s3 := y) in * end.
    rewrite (alter_state s3 (advanced st' id)) by (unfold s3, added; cbn; by rewrite lookup_insert_eq).
    eapply wp_mono; [apply (record_rest_ok _ _ _ _ _ Hrg3); done|]. cbv beta. intros x s' (-> & Hok' & Hrc & Hsome).
    split; [done|]. split; [|done]. split.
    + eapply mgr_ok_gap; [|exact Hok']. intros y. apply set_gap_twice.
    + etrans; [|exact Hrc]. etrans; [apply (with_state_records sid st')|]. etrans; [apply added_records|]. apply with_state_records.
Qed.

Lemma record_materialization_ok g s q toks slots : record_input g s q toks slots -> seq_id q = sid ->
  (caching s = true -> is_Some (multimodal_digest (tags q)) -> prefix_runtime_states s !! sid = None) ->
  wp (record_prefix_materialization q toks slots) (fun x s' => x = Ok tt /\ record_done g s s' /\
    (caching s = true -> multimodal_digest (tags q) = None -> toks = [] /\ s' = s \/ is_Some (prefix_runtime_states s' !! sid))) s.
Proof.
  intros Hin Hq Hmm. pose proof Hin as [Hok Hr Hsl Hgap Hlen Hi Hhit Hfirst].
  unfold record_prefix_materialization. apply wp_bind, wp_read. cbv beta iota zeta. unfold id. rewrite Hq.
  assert (caching s = false -> prefix_runtime_states s !! sid = None) as Hno.
  { unfold caching. pose proof (mo_index _ _ Hok) as Hix. unfold index_ok, index_of in Hix. intros Hca.
    destruct (prefix_cache s); cbn in Hix.
    - destruct Hix as [He _]. rewrite He in Hca. done.
    - by rewrite Hix. }
  apply wp_if; intros Hskip.
  { apply wp_ret. split; [done|]. split.
    2:{ intros Hca Hd. rewrite Hca, Hd in Hskip. done. }
    split; [|done]. apply untracked_ok; [done..|]. apply orb_prop in Hskip as [Hm|Hm].
    - apply bool_decide_eq_true_1 in Hm. destruct (caching s) eqn:Hca; [by apply Hmm|by apply Hno].
    - apply Hno. by apply negb_true_iff. }
  bool_to_prop. assert (is_Some (prefix_cache s)) as Hca by (unfold caching in *; bool_to_prop; done).
  apply wp_bind, wp_guard; [intros; bool_to_prop; lia|]. intros _. case_bool_decide as Hne.
  { apply wp_ret. split; [done|]. split; [|by left]. split; [|done]. eapply mgr_ok_gap; [|exact Hok]. intros x. subst toks. cbn in Hlen.
    unfold set_gap. case_decide; [subst; lia|done]. }
  pose proof (start_recording g s q toks slots Hin Hca Hne) as Hrg. fold (start_state s q).
  apply wp_bind. unfold set_state. apply wp_modify. cbv beta iota. fold (with_state sid (start_state s q) s).
  apply wp_bind, wp_modify. cbv beta iota.
  change (with_state sid (start_state s q) s <| pending_prefix_blocks ::= _ |>) with (pend_known (with_state sid (start_state s q) s)).
  eapply wp_mono; [exact (record_all_ok g _ _ _ _ Hrg)|]. cbv beta. intros x s' (-> & [Hok' Hrc] & Hsome). split; [done|]. split; [|by right]. split; [done|].
  etrans; [apply (with_state_records sid (start_state s q))|]. etrans; [apply pend_known_records|]. exact Hrc.
Qed.
End one.
End record.
