(* ===== verification/StandardRelease.v ===== *)
(** * The standard cache manager: a request leaves

    [free_seq]: the private slots of the row go back to the free stack, the
    references on blocks are given back and the row is cleared. *)

From stdpp Require Import base gmap list strings.
From Stdlib Require Import ZArith Lia.
From S2P Require Import Prelude PyDict PyBytes Sha256 RoutingMembership RadixTree RadixForest PrefixHash.
From S2P Require Import PrefixIndex PrefixIndexFacts PrefixCapacity SamplingParams Sequence PrefixLookup.
From S2P Require Import StandardCache SlotRanges PrefixClient PrefixRefs StandardInvariant StandardMoves StandardIndex StandardSteps.

(** Computes the state an action runs from. *)
Ltac norm_state :=
  match goal with |- wp ?m ?Q ?x => let y := eval cbn in x in change (wp m Q y); cbv beta iota end.

Section release.
Context `{Digest}.
Implicit Types (s : StandardCacheManager) (sid r : Z) (o : nat) (v l : list Z) (fl : Flight) (g : Z -> Z).
#[local] Abbreviation Index := (RadixPrefixIndex RadixTreeBackend).
#[local] Abbreviation MgrAct := (Act PyExn StandardCacheManager).

(** ** Loops over the index *)

Lemma with_index_twice s c ix ix' : with_index (with_index s c ix) (c <| the_index := ix |>) ix' = with_index s c ix'.
Proof. done. Qed.
Lemma for_each_on_prefix (m : nat -> Act PyExn Index unit) os (Q : exc unit -> StandardCacheManager -> Prop) s c :
  prefix_cache s = Some c -> wp (for_each os m) (fun x ix' => Q x (with_index s c ix')) (the_index c) ->
  wp (for_each os (fun o => on_prefix (m o))) Q s.
Proof.
  revert s c. induction os as [|o os IH]; intros s c Hc; cbn [for_each].
  - intros HQ. unfold with_index in HQ. apply wp_ret. unfold wp in HQ. cbn in HQ.
    replace s with (s <| prefix_cache := Some (c <| the_index := the_index c |>) |>); [exact HQ|]. destruct s, c; cbn in *. by subst.
  - intros HQ. apply wp_bind. eapply wp_on_prefix; [done|]. apply wp_bind_inv in HQ. eapply wp_mono; [exact HQ|]. cbv beta.
    intros [[]|e] ix'; [|done]. intros HQ'. apply (IH _ (c <| the_index := ix' |>)); [done|]. exact HQ'.
Qed.

Lemma same_but_refs_thinned bl bl' held : same_but_refs bl bl' -> thinned bl bl' held.
Proof.
  intros Hs. split.
  - intros id en' Hen'. destruct (same_but_refs_elem _ _ _ _ (same_but_refs_sym _ _ Hs) Hen') as (en & ? & ? & ? & ?). eauto.
  - intros id en Hen _. destruct (same_but_refs_elem _ _ _ _ Hs Hen) as (en' & ? & ? & ? & ?). eauto.
Qed.
Lemma same_but_refs_shared bl bl' pl : same_but_refs bl bl' -> shared_of bl' pl = shared_of bl pl.
Proof.
  intros Hs. apply map_eq. intros id. unfold shared_of. rewrite !lookup_fmap. specialize (Hs id).
  destruct (bl !! id), (bl' !! id); cbn in *; [|done..]. unfold but_refs in Hs. injection Hs as _ -> _ _ _. done.
Qed.
(** ** Slots going back *)

Lemma pushed_twice s v v' : 0 <= num_free_slots s -> num_free_slots s + Z.of_nat (length v) <= Z.of_nat (length (free_slots_stack s)) ->
  pushed v' (pushed v s) = pushed (v ++ v') s.
Proof.
  intros H0 Hle. unfold pushed. cbn. rewrite length_app, Nat2Z.inj_add, Z.add_assoc. f_equal.
  assert (length (take (Z.to_nat (num_free_slots s)) (free_slots_stack s)) = Z.to_nat (num_free_slots s)) as Hl by (rewrite length_take; lia).
  assert (take (Z.to_nat (num_free_slots s + Z.of_nat (length v))) (take (Z.to_nat (num_free_slots s)) (free_slots_stack s) ++ v ++
     drop (Z.to_nat (num_free_slots s + Z.of_nat (length v))) (free_slots_stack s)) = take (Z.to_nat (num_free_slots s)) (free_slots_stack s) ++ v) as ->.
  { rewrite app_assoc. apply take_app_length'. rewrite length_app. lia. }
  rewrite <- !app_assoc. do 3 f_equal. rewrite app_assoc, drop_app_ge by (rewrite length_app; lia).
  rewrite drop_drop. f_equal. rewrite length_app. lia.
Qed.
Lemma pushed_nil s : 0 <= num_free_slots s -> pushed [] s = s.
Proof. intros H0. unfold pushed. cbn. rewrite Z.add_0_r, take_drop. by destruct s. Qed.

Lemma free_ranges_run s r rs row (Q : exc unit -> StandardCacheManager -> Prop) : 0 <= num_free_slots s ->
  buffer_req_to_token_slots s !! Z.to_nat r = Some row ->
  num_free_slots s + Z.of_nat (length (slices row rs)) <= Z.of_nat (length (free_slots_stack s)) ->
  Q (Ok tt) (pushed (slices row rs) s) -> wp (free_ranges r rs) Q s.
Proof.
  unfold free_ranges. revert s. induction rs as [|[a b] rs IH]; intros s H0 Hrow Hle HQ; cbn [for_each].
  - apply wp_ret. by rewrite pushed_nil in HQ.
  - unfold slices in Hle, HQ. cbn in Hle, HQ. fold (slices row rs) in Hle, HQ. rewrite length_app in Hle.
    assert (read_row r a b s = (Ok (slice a b row), s)) as Hrd.
    { unfold read_row, mbind, Act_bind, read, id. by rewrite Hrow. }
    apply wp_bind, wp_bind. unfold wp at 1. cbn [fst snd]. rewrite Hrd. cbn [fst snd].
    unfold wp at 1. rewrite return_slots_run by lia. cbn [fst snd]. apply IH; [cbn; lia|done| |].
    + unfold pushed. cbn. rewrite !length_app, length_take, length_drop. lia.
    + rewrite pushed_twice by lia. exact HQ.
Qed.

(** ** The request's records *)

Definition departed sid r s : StandardCacheManager :=
  mkStandard (std_config s) (free_slots_stack s) (num_free_slots s)
    (alter (fun row => replicate (length row) 0) (Z.to_nat r) (buffer_req_to_token_slots s))
    (delete sid (seq_id_to_row s)) (free_rows s ++ [r]) (array_set (row_seq_lens s) r 0) (array_set (row_logical_lens s) r 0)
    (layer_batch_state s) (prefix_cache s) (payloads s) (delete sid (seq_id_to_prefix_blocks s))
    (delete sid (seq_id_to_cached_ranges s)) (delete sid (seq_id_to_materialized_blocks s))
    (delete sid (prefix_runtime_states s)) (delete sid (pending_prefix_blocks s))
    (snapshot_depth s) (snapshot_freeable s) (snapshot_reclaimable s).

Lemma departed_other s sid r r' : 0 <= r -> 0 <= r' -> r' <> r ->
  len_of (departed sid r s) r' = len_of s r' /\ cells (departed sid r s) r' = cells s r'.
Proof.
  intros Hr Hr' Hne. assert (len_of (departed sid r s) r' = len_of s r') as Hl.
  { unfold len_of, departed, array_set. cbn. by rewrite list_lookup_insert_ne by lia. }
  split; [done|]. unfold cells. rewrite Hl. unfold row_of, departed. cbn. by rewrite list_lookup_alter_ne by lia.
Qed.
Lemma departed_len s sid r : shape_ok s -> 0 <= r < max_buffer_rows (std_config s) -> len_of (departed sid r s) r = 0.
Proof.
  intros Hs Hr. destruct (row_lookup s r Hs Hr) as (row & _ & _ & _ & Hl). unfold len_of, departed, array_set. cbn.
  by rewrite list_lookup_insert_eq by (by apply lookup_lt_Some in Hl).
Qed.
Lemma departed_shape s sid r : shape_ok s -> seq_id_to_row s !! sid = Some r -> shape_ok (departed sid r s).
Proof.
  intros Hs Hr. pose proof (row_valid s sid r Hs Hr) as Hrv. split; try apply Hs.
  - unfold departed. cbn. rewrite length_alter. apply Hs.
  - unfold departed. cbn. apply Forall_alter; [apply Hs|]. intros row Hrow Hl. by rewrite length_replicate.
  - unfold departed, array_set. cbn. rewrite length_insert, length_alter. apply Hs.
  - unfold departed. cbn. by rewrite (sh_logical s Hs).
  - intros r'. destruct (decide (Z.to_nat r' = Z.to_nat r)) as [E|Hne].
    + replace (len_of (departed sid r s) r') with (len_of (departed sid r s) r) by (unfold len_of; by rewrite E).
      rewrite departed_len by done. change (std_config (departed sid r s)) with (std_config s). lia.
    + pose proof (sh_range s Hs r') as Hr'. unfold len_of, departed, array_set in *. cbn. by rewrite list_lookup_insert_ne.
  - unfold departed. cbn. rewrite <- (sh_perm s Hs). rewrite <- (insert_delete_id _ _ _ Hr) at 2.
    rewrite map_to_list_insert by apply lookup_delete_eq. cbn. solve_Permutation.
  - intros r' Hin. unfold departed in Hin. cbn in Hin. apply elem_of_app in Hin as [Hin|Hin%list_elem_of_singleton]; [|subst; by apply departed_len].
    assert (0 <= r') by (apply (elem_of_arange (max_buffer_rows (std_config s))); rewrite <- (sh_perm s Hs), elem_of_app; by left).
    rewrite (proj1 (departed_other s sid r r' ltac:(lia) ltac:(done) ltac:(intros ->; by apply (free_row_unused s sid r Hs Hr)))).
    by apply (sh_empty s Hs).
Qed.

Lemma departed_ok refs l g s sid r : mgr_ok (mkFlight refs l g) s -> seq_id_to_row s !! sid = Some r ->
  mgr_ok (mkFlight (held_blocks s sid ++ refs) (private_of s sid r ++ l) (set_gap g sid 0)) (departed sid r s) /\
  others_stay sid s (departed sid r s).
Proof.
  intros [Hs Hix Hb Hrf Hsq Hc] Hr. pose proof (row_valid s sid r Hs Hr) as Hrv. cbn in *.
  assert (forall sid' r', seq_id_to_row s !! sid' = Some r' -> sid' <> sid -> 0 <= r' /\ r' <> r) as Hother.
  { intros sid' r' Hr' Hne. split; [by apply (row_valid s sid')|]. intros ->. by apply Hne, (row_inj s sid' sid r). }
  split; [split; cbn|].
  - by apply departed_shape.
  - unfold index_ok, index_of in *. cbn. destruct (prefix_cache s); cbn in *; [done|]. by rewrite Hix, delete_empty.
  - exact Hb.
  - unfold refs_ok in *. change (blk (departed sid r s)) with (blk s). eapply counted_perm; [|exact Hrf].
    unfold holders, held_blocks. rewrite (flat_default (seq_id_to_prefix_blocks s) sid), (flat_default (seq_id_to_materialized_blocks s) sid).
    unfold departed. cbn. solve_Permutation.
  - intros sid'. specialize (Hsq sid'). unfold set_gap, departed at 1. cbn. destruct (decide (sid' = sid)) as [->|Hne].
    + rewrite lookup_delete_eq. unfold absent, departed. cbn. by rewrite !lookup_delete_eq.
    + rewrite lookup_delete_ne by done. destruct (seq_id_to_row s !! sid') as [r'|] eqn:Hr'.
      * destruct (Hother sid' r' Hr' Hne) as [H0 Hrr]. destruct (departed_other s sid r r' ltac:(lia) H0 Hrr) as [El Ec].
        replace (view (departed sid r s) sid' r') with (view s sid' r'); [exact Hsq|]. unfold view. rewrite El, Ec.
        unfold ranges_of, departed. cbn. by rewrite !lookup_delete_ne.
      * destruct Hsq as (? & ? & ? & ? & ?). unfold absent, departed. cbn. by rewrite !lookup_delete_ne.
  - unfold conserved in *. change (std_config (departed sid r s)) with (std_config s). rewrite <- Hc.
    change (free (departed sid r s)) with (free s). change (shared (departed sid r s)) with (shared s).
    rewrite (private_split s sid r Hr).
    replace (private (departed sid r s)) with (delete sid (private s)); [solve_Permutation|].
    apply map_eq. intros sid'. rewrite lookup_private. unfold departed at 2. cbn. destruct (decide (sid' = sid)) as [->|Hne].
    + by rewrite !lookup_delete_eq.
    + rewrite !lookup_delete_ne, lookup_private by done. destruct (seq_id_to_row s !! sid') as [r'|] eqn:Hr'; [|done]. cbn. f_equal.
      destruct (Hother sid' r' Hr' Hne) as [H0 Hrr]. destruct (departed_other s sid r r' ltac:(lia) H0 Hrr) as [El Ec].
      unfold private_of. rewrite El, Ec. unfold ranges_of, departed. cbn. by rewrite lookup_delete_ne.
  - intros sid' Hne. split; try done; unfold ranges_of, departed; cbn; try by rewrite lookup_delete_ne.
    intros r' Hr'. destruct (Hother sid' r' Hr' Hne) as [H0 Hrr]. by apply departed_other; [lia|..].
Qed.

(** ** [free_seq] *)

Lemma freed_slots s sid r n : shape_ok s -> seq_id_to_row s !! sid = Some r ->
  seq_ok (size_of s) (blk s) (payloads s) n (view s sid r) ->
  slices (row_of s r) (complement_ranges 0 (len_of s r) (merge_ranges (ranges_of s sid))) ≡ₚ private_of s sid r.
Proof.
  intros Hs Hr Hw. pose proof (row_valid s sid r Hs Hr) as Hrv. destruct (row_lookup s r Hs Hrv) as (row & _ & Hrow & Hl & _).
  pose proof (sh_range s Hs r) as Hrg. rewrite Hrow.
  assert (ranges_between 0 (ranges_of s sid) (len_of s r)) as Hrs.
  { eapply ranges_between_weaken; [..|apply (so_ranges _ _ _ _ _ Hw)]; cbn; [lia|]. pose proof (so_gap _ _ _ _ _ Hw). cbn in *. lia. }
  destruct (merge_ranges_slices row 0 _ _ ltac:(lia) Hrs) as [Hm Hms]. destruct (merge_ranges_slices (cells s r) 0 _ _ ltac:(lia) Hrs) as [_ Hms'].
  unfold private_of. apply (Permutation_app_inv_r (slices row (ranges_of s sid))). rewrite <- Hms at 1. rewrite complement_slices by done.
  assert (cells s r = take (Z.to_nat (len_of s r)) row) as Hcells by (unfold cells; by rewrite Hrow).
  assert (slices row (ranges_of s sid) = slices (cells s r) (ranges_of s sid)) as ->.
  { rewrite Hcells. rewrite <- (take_drop (Z.to_nat (len_of s r)) row) at 1. apply (slices_app_l _ _ _ 0); [done|].
    rewrite length_take. replace (Z.of_nat (Z.to_nat (len_of s r) `min` length row)) with (len_of s r) by lia. done. }
  rewrite complement_slices by done. rewrite Hcells, take_take. by rewrite Nat.min_id.
Qed.

(** The end of [free_seq]: everything but the slots. *)
Definition left sid r s (c : option (CachedIndex RadixTreeBackend)) : StandardCacheManager :=
  mkStandard (std_config s) (free_slots_stack s) (num_free_slots s)
    (alter (fun row => replicate (length row) 0) (Z.to_nat r) (buffer_req_to_token_slots s))
    (seq_id_to_row s) (free_rows s ++ [r]) (array_set (row_seq_lens s) r 0) (array_set (row_logical_lens s) r 0)
    (layer_batch_state s) c (payloads s) (seq_id_to_prefix_blocks s) (seq_id_to_cached_ranges s) (seq_id_to_materialized_blocks s)
    (delete sid (prefix_runtime_states s)) (delete sid (pending_prefix_blocks s))
    (snapshot_depth s) (snapshot_freeable s) (snapshot_reclaimable s).
Lemma release_tail s sid r held rest (Q : exc unit -> StandardCacheManager -> Prop) :
  match prefix_cache s with
  | None => held = [] /\ Q (Ok tt) (left sid r s None)
  | Some c => index_inv (the_index c) /\ counted (seen (the_index c)) (held ++ rest) /\
      forall ix', refs_result (the_index c) ix' rest -> Q (Ok tt) (left sid r s (Some (c <| the_index := ix' |>)))
  end ->
  wp (release_prefix_blocks held ;;
      modify (fun s => s <| prefix_runtime_states ::= delete sid |> <| pending_prefix_blocks ::= delete sid |>) ;;
      clear_row r ;;
      modify (fun s => s <| free_rows ::= fun l => l ++ [r] |>)) Q s.
Proof.
  unfold release_prefix_blocks, clear_row. intros HQ. apply wp_bind, wp_bind, wp_read. cbv beta iota. unfold id.
  destruct (prefix_cache s) as [c|] eqn:Hc.
  - destruct HQ as (Hinv & Hcnt & HQ). apply wp_bind, wp_guard; [intros Hg; bool_to_prop; done|]. intros _.
    eapply for_each_on_prefix; [exact Hc|]. eapply wp_mono; [by apply release_all_index|]. cbv beta.
    intros x ix' (-> & Hres). apply wp_bind, wp_modify, wp_bind, wp_modify, wp_modify. exact (HQ ix' Hres).
  - destruct HQ as (-> & HQ). apply wp_bind, wp_guard; [done|]. intros _. cbn [for_each]. apply wp_ret.
    apply wp_bind, wp_modify, wp_bind, wp_modify, wp_modify. unfold left in HQ. rewrite <- Hc in HQ. exact HQ.
Qed.

Lemma free_seq_ok refs l g s sid : mgr_ok (mkFlight refs l g) s ->
  wp (free_seq sid) (fun x s' =>
    match seq_id_to_row s !! sid with
    | None => x = Raise (ValueError "") /\ s' = s
    | Some r => x = Ok tt /\ mgr_ok (mkFlight refs l (set_gap g sid 0)) s' /\ others_stay sid s s' /\
        seq_id_to_row s' !! sid = None /\ free s' ≡ₚ private_of s sid r ++ free s
    end) s.
Proof.
  intros Hok. unfold free_seq. apply wp_bind, wp_read. cbv beta iota. unfold id.
  destruct (seq_id_to_row s !! sid) as [r|] eqn:Hr; [|by apply wp_throw].
  pose proof (mo_shape _ _ Hok) as Hs. pose proof (row_valid s sid r Hs Hr) as Hrv. destruct (row_lookup s r Hs Hrv) as (row & Hb & Hrow & Hl & Hlen).
  pose proof (mo_seqs _ _ Hok sid) as Hw. rewrite Hr in Hw. pose proof (freed_slots s sid r _ Hs Hr Hw) as Hfs. rewrite Hrow in Hfs.
  destruct (departed_ok refs l g s sid r Hok Hr) as [Hd Ho]. pose proof (sh_free s Hs). pose proof (sh_range s Hs r) as Hrg.
  pose proof (loose_fits _ _ _ _ _ Hd) as Hfit. cbn in Hfit. rewrite <- (Permutation_length Hfs) in Hfit.
  set (rs := complement_ranges 0 (len_of s r) (merge_ranges (ranges_of s sid))) in *. set (v := slices row rs) in *.
  pose proof (pushed_ok (departed sid r s) _ v l _ (mgr_ok_perm _ _ _ _ _ _ (reflexivity _) (Permutation_app_tail l (symmetry Hfs)) Hd)) as Hp.
  pose proof (mo_refs _ _ Hp) as Hcnt. unfold refs_ok in Hcnt. cbn [extra_refs] in Hcnt. rewrite <- app_assoc in Hcnt.
  apply wp_bind, wp_modify. norm_state. apply wp_bind. unfold row_len. apply wp_bind, wp_read. cbv beta iota. unfold id.
  apply wp_lift. unfold array_get. cbn [row_seq_lens]. rewrite Hlen. cbv beta iota zeta.
  apply wp_bind, wp_modify. norm_state. apply wp_bind, wp_guard; [intros; bool_to_prop; lia|]. intros _.
  fold (ranges_of s sid). fold rs. apply wp_bind. apply (free_ranges_run _ r rs row); [exact (proj1 H0)|exact Hb|exact Hfit|].
  cbv beta iota zeta. fold v. unfold pushed. norm_state. apply wp_bind, wp_modify. norm_state. fold (held_blocks s sid).
  apply (release_tail _ sid r _ (refs ++ holders (departed sid r s))). cbn [prefix_cache].
  assert (forall c', mgr_ok (mkFlight refs l (set_gap g sid 0)) c' -> others_stay sid (pushed v (departed sid r s)) c' ->
    seq_id_to_row c' = delete sid (seq_id_to_row s) -> free c' = free (pushed v (departed sid r s)) ->
    Ok tt = Ok (E := PyExn) tt /\ mgr_ok (mkFlight refs l (set_gap g sid 0)) c' /\ others_stay sid s c' /\
    seq_id_to_row c' !! sid = None /\ free c' ≡ₚ private_of s sid r ++ free s) as Hfin.
  { intros c' Hok' Ho' Hr' Hn'. split_and!; [done|exact Hok'| | |].
    - etrans; [exact Ho|]. etrans; [|exact Ho']. intros sid' _. by split.
    - rewrite Hr'. apply lookup_delete_eq.
    - rewrite Hn', pushed_free by (cbn; lia). change (free (departed sid r s)) with (free s). rewrite Hfs. apply Permutation_app_comm. }
  destruct (prefix_cache s) as [c|] eqn:Hc.
  - assert (prefix_cache (pushed v (departed sid r s)) = Some c) as Hc2 by done.
    rewrite (blk_index _ c Hc2) in Hcnt. destruct (mgr_index _ _ _ Hok Hc) as (Hinv & _ & _).
    split_and!; [exact Hinv|exact Hcnt|]. intros ix' (Hst & Hsame & Hcnt').
    match goal with |- context [left sid r ?x ?y] => replace (left sid r x y) with (with_index (pushed v (departed sid r s)) c ix') by reflexivity end.
    apply Hfin; [|by apply quiet_others, with_index_quiet|done|done].
    eapply index_moved; [exact Hp|exact Hc2|done|by apply same_but_refs_thinned|exact Hcnt'|].
    unfold shared. rewrite (blk_index _ c Hc2). by rewrite (same_but_refs_shared _ _ _ Hsame).
  - assert (blk (pushed v (departed sid r s)) = ∅) as Hbl by (unfold blk; cbn; by rewrite Hc).
    assert (held_blocks s sid = []) as Hnil.
    { destruct (held_blocks s sid) as [|o held']; [done|]. destruct Hcnt as [_ Hf]. apply Forall_cons in Hf as [(id & en & Hen & _) _]. by rewrite Hbl in Hen. }
    split; [exact Hnil|]. rewrite Hnil in Hp.
    match goal with |- context [left sid r ?x ?y] => replace (left sid r x y) with (pushed v (departed sid r s)) end.
    + by apply Hfin.
    + unfold pushed, departed, left. cbn. by rewrite Hc.
Qed.
End release.
