(* ===== verification/StandardAttach.v ===== *)
(** * The standard cache manager: attaching a prefix hit

    [attach_prefix_cache_if_needed]: the blocks of a request's hit are
    referenced and their slots become the first cells of its row.  A hit is
    whole when its blocks are the path from the root to its last block, as a
    lookup finds it; attaching it takes the freeable blocks on that path out of
    the manager's capacity and nothing else. *)

From stdpp Require Import base gmap list strings.
From Stdlib Require Import ZArith Lia.
From S2P Require Import Prelude PyDict PyBytes Sha256 RoutingMembership RadixTree RadixTreeFacts RadixWalks RadixForest PrefixHash.
From S2P Require Import PrefixIndex PrefixIndexFacts PrefixCapacity PrefixTransfer PrefixControl SamplingParams Sequence PrefixLookup PrefixHits.
From S2P Require Import StandardCache SlotRanges PrefixClient PrefixRefs StandardInvariant StandardMoves StandardIndex StandardSteps.
From S2P Require Import StandardRecord StandardRelease.

(** ** The cells of a chain *)

Fixpoint chain_ranges (cursor : Z) (vs : list (list Z)) : list Range :=
  match vs with
  | [] => []
  | v :: vs' => (cursor, cursor + Z.of_nat (length v)) :: chain_ranges (cursor + Z.of_nat (length v)) vs'
  end.
Lemma chain_ranges_between a vs : ranges_between a (chain_ranges a vs) (a + Z.of_nat (length (concat vs))).
Proof.
  revert a. induction vs as [|v vs IH]; intros a; cbn; [lia|]. split; [lia|]. rewrite length_app.
  replace (a + Z.of_nat (length v + length (concat vs))) with (a + Z.of_nat (length v) + Z.of_nat (length (concat vs))) by lia. apply IH.
Qed.
Lemma chain_ranges_slices (pre : list Z) vs :
  slices (pre ++ concat vs) (chain_ranges (Z.of_nat (length pre)) vs) = concat vs.
Proof.
  revert pre. induction vs as [|v vs IH]; intros pre; [done|]. cbn [chain_ranges concat]. unfold slices. cbn. f_equal.
  - rewrite app_assoc, slice_app_l by (rewrite ?length_app; lia). by apply slice_app_r.
  - rewrite app_assoc. replace (Z.of_nat (length pre) + Z.of_nat (length v)) with (Z.of_nat (length (pre ++ v))) by (rewrite length_app; lia).
    apply IH.
Qed.
Lemma chain_ranges_each (pre : list Z) vs ab : ab ∈ chain_ranges (Z.of_nat (length pre)) vs -> slice ab.1 ab.2 (pre ++ concat vs) ∈ vs.
Proof.
  revert pre. induction vs as [|v vs IH]; intros pre; cbn [chain_ranges concat]; [by intros ?%elem_of_nil|].
  rewrite app_assoc. intros [->|Hin]%elem_of_cons.
  - cbn [fst snd]. rewrite slice_app_l, slice_app_r by (rewrite ?length_app; lia). by left.
  - right. apply IH. by rewrite length_app, Nat2Z.inj_add.
Qed.

Lemma flat_some `{Countable K} {A} (m : gmap K (list A)) ids : NoDup ids -> (forall id, id ∈ ids -> is_Some (m !! id)) ->
  exists others, flat m ≡ₚ concat ((fun id => default [] (m !! id)) <$> ids) ++ others.
Proof.
  revert m. induction ids as [|id ids IH]; intros m Hnd Hin; [by exists (flat m)|]. apply NoDup_cons in Hnd as [Hn Hnd].
  destruct (Hin id ltac:(by left)) as [v Hv]. destruct (IH (delete id m) Hnd) as [m' Hm'].
  { intros id' Hid'. rewrite lookup_delete_ne by (intros ->; done). apply Hin. by right. }
  exists m'. rewrite (flat_delete m id v Hv), Hm'. cbn. rewrite Hv. cbn. rewrite <- app_assoc. do 2 f_equiv.
  apply reflexive_eq. f_equal. apply list_fmap_ext. intros i id' Hid'. rewrite lookup_delete_ne; [done|].
  intros ->. apply Hn. by eapply list_elem_of_lookup_2.
Qed.

Section attach.
Context `{Digest}.
Implicit Types (s : StandardCacheManager) (sid r : Z) (o : nat) (v l : list Z) (fl : Flight) (g : Z -> Z) (q : Sequence).
#[local] Abbreviation Index := (RadixPrefixIndex RadixTreeBackend).
#[local] Abbreviation MgrAct := (Act PyExn StandardCacheManager).

(** Each block of the chain [os] owns the slots of [vs] at its place. *)
Definition chain_slots s (os : list nat) (vs : list (list Z)) : Prop :=
  Forall2 (fun o v => exists id en, blk s !! id = Some en /\ e_obj en = o /\ owns (size_of s) (payloads s) (e_payload en) v) os vs.
Lemma chain_slots_exist s os : blocks_ok s -> Forall (indexed_object (blk s)) os -> exists vs, chain_slots s os vs.
Proof.
  intros Hb. induction 1 as [|o os (id & en & Hen & Ho) _ (vs & IH)]; [exists []; constructor|].
  destruct (Hb id en Hen) as [_ (v & Hv)]. exists (v :: vs). constructor; [|done]. eauto 6.
Qed.
Lemma chain_slots_length s os vs : chain_slots s os vs -> Z.of_nat (length (concat vs)) = Z.of_nat (length os) * size_of s.
Proof.
  induction 1 as [|o v os vs (id & en & _ & _ & (p & _ & _ & _ & Hl)) _ IH]; [done|]. cbn [concat length]. rewrite length_app. lia.
Qed.
Lemma chain_slots_NoDup s os vs l : objects_apart (blk s) -> conserved l s -> NoDup os -> chain_slots s os vs -> NoDup (concat vs).
Proof.
  intros Hap Hc Hnd Hcs.
  assert (exists ids, NoDup ids /\ (forall id, id ∈ ids -> is_Some (shared s !! id)) /\ (fun id => default [] (shared s !! id)) <$> ids = vs /\
    Forall (fun id => exists en, blk s !! id = Some en /\ e_obj en ∈ os) ids) as (ids & Hi & Hsome & <- & _).
  { induction Hcs as [|o v os vs (id & en & Hen & Ho & Hv) _ IH]; [exists []; split_and!; [constructor|by intros ? ?%elem_of_nil|done|constructor]|].
    apply NoDup_cons in Hnd as [Hn Hnd]. destruct (IH Hnd) as (ids & Hi & Hsome & Hvs & Hf). exists (id :: ids).
    assert (shared s !! id = Some v) as Hsh by (rewrite lookup_shared, Hen; cbn; f_equal; by eapply owns_slots). split_and!.
    - constructor; [|done]. intros Hin. rewrite Forall_forall in Hf. destruct (Hf id Hin) as (en' & Hen' & Hin'). apply Hn.
      rewrite <- Ho. by assert (en' = en) as -> by congruence.
    - intros id' [->|Hin]%elem_of_cons; [by rewrite Hsh|by apply Hsome].
    - cbn. by rewrite Hsh, Hvs.
    - constructor; [exists en; split; [done|rewrite Ho; by left]|]. eapply Forall_impl; [exact Hf|]. intros id' (en' & ? & ?). exists en'. split; [done|by right]. }
  destruct (flat_some (shared s) ids Hi Hsome) as [m' Hm]. pose proof (conserved_NoDup _ _ Hc) as Hnd'.
  apply NoDup_app in Hnd' as (_ & _ & Hnd'). apply NoDup_app in Hnd' as (_ & _ & Hnd'). apply NoDup_app in Hnd' as (Hnd' & _).
  rewrite Hm in Hnd'. by apply NoDup_app in Hnd' as (? & _).
Qed.

(** ** The state with the chain attached *)

Definition attached sid r (os : list nat) (vs : list (list Z)) s : StandardCacheManager :=
  let n := Z.of_nat (length (concat vs)) in
  mkStandard (std_config s) (free_slots_stack s) (num_free_slots s)
    (<[Z.to_nat r := concat vs ++ drop (length (concat vs)) (row_of s r)]> (buffer_req_to_token_slots s))
    (seq_id_to_row s) (free_rows s) (array_set (row_seq_lens s) r n) (array_set (row_logical_lens s) r n)
    (layer_batch_state s) (prefix_cache s) (payloads s) (<[sid := os]> (seq_id_to_prefix_blocks s))
    (<[sid := ranges_of s sid ++ chain_ranges 0 vs]> (seq_id_to_cached_ranges s)) (seq_id_to_materialized_blocks s)
    (prefix_runtime_states s) (pending_prefix_blocks s)
    (snapshot_depth s) (snapshot_freeable s) (snapshot_reclaimable s).

Section one.
Context s sid r (os : list nat) (vs : list (list Z)) (Hs : shape_ok s) (Hr : seq_id_to_row s !! sid = Some r)
  (Hfit : Z.of_nat (length (concat vs)) <= max_model_len (std_config s)).
Let Hrv : 0 <= r < max_buffer_rows (std_config s) := row_valid s sid r Hs Hr.

Lemma attached_len : len_of (attached sid r os vs s) r = Z.of_nat (length (concat vs)).
Proof.
  destruct (row_lookup s r Hs Hrv) as (row & _ & _ & _ & Hl). unfold len_of, attached, array_set. cbn.
  by rewrite list_lookup_insert_eq by (by apply lookup_lt_Some in Hl).
Qed.
Lemma attached_cells : cells (attached sid r os vs s) r = concat vs.
Proof.
  destruct (row_lookup s r Hs Hrv) as (row & Hb & _ & _ & _). unfold cells. rewrite attached_len. unfold row_of at 1, attached. cbn.
  rewrite list_lookup_insert_eq by (by apply lookup_lt_Some in Hb). cbn. rewrite Nat2Z.id. apply take_app_length.
Qed.
Lemma attached_other r' : 0 <= r' -> r' <> r -> len_of (attached sid r os vs s) r' = len_of s r' /\ cells (attached sid r os vs s) r' = cells s r'.
Proof.
  intros Hr' Hne. assert (len_of (attached sid r os vs s) r' = len_of s r') as Hl.
  { unfold len_of, attached, array_set. cbn. by rewrite list_lookup_insert_ne by lia. }
  split; [done|]. unfold cells. rewrite Hl. unfold row_of, attached. cbn. by rewrite list_lookup_insert_ne by lia.
Qed.
Lemma attached_shape : shape_ok (attached sid r os vs s).
Proof.
  destruct (row_lookup s r Hs Hrv) as (row & Hb & Hrow & Hl & _). split; try apply Hs.
  - unfold attached. cbn. rewrite length_insert. apply Hs.
  - unfold attached. cbn. apply Forall_insert; [apply Hs|]. rewrite Hrow, length_app, length_drop. lia.
  - unfold attached, array_set. cbn. rewrite !length_insert. apply Hs.
  - unfold attached. cbn. by rewrite (sh_logical s Hs).
  - intros r'. destruct (decide (Z.to_nat r' = Z.to_nat r)) as [E|Hne].
    + replace (len_of (attached sid r os vs s) r') with (len_of (attached sid r os vs s) r) by (unfold len_of; by rewrite E).
      rewrite attached_len. change (std_config (attached sid r os vs s)) with (std_config s). lia.
    + pose proof (sh_range s Hs r') as Hr'. unfold len_of, attached, array_set in *. cbn. by rewrite list_lookup_insert_ne.
  - intros r' Hin. assert (0 <= r') by (apply (elem_of_arange (max_buffer_rows (std_config s))); rewrite <- (sh_perm s Hs), elem_of_app; by left).
    rewrite (proj1 (attached_other r' ltac:(done) ltac:(intros ->; by apply (free_row_unused s sid r Hs Hr)))).
    by apply (sh_empty s Hs).
Qed.
End one.

Lemma attached_ok refs l g s sid r os vs : mgr_ok (mkFlight (os ++ refs) l g) s -> is_Some (prefix_cache s) ->
  seq_id_to_row s !! sid = Some r -> len_of s r = 0 -> seq_id_to_prefix_blocks s !! sid = None -> NoDup os ->
  chain_slots s os vs -> Z.of_nat (length (concat vs)) <= max_model_len (std_config s) ->
  mgr_ok (mkFlight refs l g) (attached sid r os vs s) /\ others_stay sid s (attached sid r os vs s).
Proof.
  intros Hok [c Hc] Hr Hl0 Hnone Hnd Hcs Hfit. destruct (mgr_index _ _ _ Hok Hc) as (Hinv & _ & Hbs).
  pose proof (chain_slots_length _ _ _ Hcs) as Hlen. pose proof (seen_apart _ Hinv) as Hap. rewrite <- (blk_index s c Hc) in Hap.
  destruct Hok as [Hs Hix Hb Hrf Hsq Hco]. cbn in *. pose proof (row_valid s sid r Hs Hr) as Hrv.
  assert (forall sid' r', seq_id_to_row s !! sid' = Some r' -> sid' <> sid -> 0 <= r' /\ r' <> r) as Hother.
  { intros sid' r' Hr' Hne. split; [by apply (row_valid s sid')|]. intros ->. by apply Hne, (row_inj s sid' sid r). }
  pose proof (Hsq sid) as Hw. rewrite Hr in Hw. destruct Hw as [Hwl Hatt Hg Hrs Hrec Hbk Hd]. unfold recorded in Hrec. cbn in *. rewrite Hl0, Hnone in *.
  assert (g sid = 0) as Hg0 by (apply ranges_between_le in Hrs; lia). rewrite Hg0 in *.
  assert (prefix_runtime_states s !! sid = None) as Hst.
  { destruct (prefix_runtime_states s !! sid) as [st|]; [|done]. destruct Hrec as (k & _ & _ & Ha & _). cbn in Ha. lia. }
  rewrite Hst in *. destruct Hrec as [Hpe _].
  assert (ranges_of s sid = []) as Hnil.
  { destruct (ranges_of s sid) as [|[a b] rs] eqn:Ers; [done|]. exfalso. apply Forall_cons in Hbk as [(id & en & Hen & _ & Heq) _].
    destruct (Hb id en Hen) as [_ (v & Hv)]. rewrite (owns_slots _ _ _ _ Hv) in Heq. destruct Hv as (_ & _ & _ & _ & Hv).
    rewrite (empty_cells s r Hl0) in Heq. unfold slice in Heq. rewrite drop_nil, take_nil in Heq. subst v. cbn in Hv. lia. }
  set (s' := attached sid r os vs s).
  assert (Forall (backed (blk s) (payloads s) (concat vs) (os ++ default [] (seq_id_to_materialized_blocks s !! sid))) (chain_ranges 0 vs)) as Hnewb.
  { rewrite Forall_forall. intros ab Hab. pose proof (chain_ranges_each [] vs ab Hab) as Hin. cbn in Hin.
    apply list_elem_of_lookup in Hin as [i Hi]. destruct (Forall2_lookup_r _ _ _ _ _ Hcs Hi) as (o & Ho & id & en & Hen & Heo & Hv).
    exists id, en. split_and!; [done| |by eapply owns_slots]. apply elem_of_app. left. rewrite Heo. by eapply list_elem_of_lookup_2. }
  split; [split; cbn|].
  - by apply attached_shape.
  - exact Hix.
  - exact Hb.
  - unfold refs_ok in *. change (blk s') with (blk s). eapply counted_perm; [|exact Hrf]. unfold holders, s', attached. cbn.
    rewrite flat_insert by done. solve_Permutation.
  - intros sid'. specialize (Hsq sid'). change (seq_id_to_row s') with (seq_id_to_row s). destruct (seq_id_to_row s !! sid') as [r'|] eqn:Hr'.
    + destruct (decide (sid' = sid)) as [->|Hne].
      * assert (r' = r) as -> by congruence. rewrite Hg0.
        replace (view s' sid r) with (mkSeqView (Z.of_nat (length (concat vs))) (concat vs) os (default [] (seq_id_to_materialized_blocks s !! sid))
          (chain_ranges 0 vs) None []).
        2:{ unfold view. unfold s' at 1 2. rewrite attached_len, attached_cells by done. unfold ranges_of, s', attached. cbn.
            by rewrite !lookup_insert_eq, Hst, Hpe, Hnil. }
        pose proof (chain_ranges_between 0 vs) as Hcr. rewrite Z.add_0_l in Hcr. change (size_of s') with (size_of s).
        split; cbn; rewrite ?Z.sub_0_r; try done; try lia.
        -- split; [done|]. by rewrite <- Hlen.
        -- by eapply (chain_slots_NoDup s os vs l).
      * destruct (Hother sid' r' Hr' Hne) as [H0 Hrr]. destruct (attached_other s sid r os vs Hs Hr r' H0 Hrr) as [El Ec].
        replace (view s' sid' r') with (view s sid' r'); [exact Hsq|]. unfold view, s'. rewrite El, Ec. unfold ranges_of, attached. cbn.
        by rewrite !lookup_insert_ne.
    + assert (sid' <> sid) as Hne by congruence. destruct Hsq as (? & ? & ? & ? & ?). unfold absent, s', attached. cbn. by rewrite !lookup_insert_ne.
  - unfold conserved in *. change (std_config s') with (std_config s). rewrite <- Hco.
    change (free s') with (free s). change (shared s') with (shared s).
    rewrite (private_update s s' sid r); [|done|done|].
    2:{ intros sid' r' Hr' Hne. destruct (Hother sid' r' Hr' Hne) as [H0 Hrr]. destruct (attached_other s sid r os vs Hs Hr r' H0 Hrr) as [El Ec].
        unfold private_of, s'. rewrite El, Ec. unfold ranges_of, attached. cbn. by rewrite lookup_insert_ne. }
    rewrite (private_split s sid r Hr).
    assert (private_of s sid r = []) as ->.
    { unfold private_of. rewrite Hl0, Hnil. done. }
    enough (private_of s' sid r ≡ₚ []) as -> by done.
    unfold private_of, s'. rewrite attached_len, attached_cells by done. replace (ranges_of (attached sid r os vs s) sid) with (chain_ranges 0 vs)
      by (unfold ranges_of at 1, attached; cbn; by rewrite lookup_insert_eq, Hnil).
    apply (Permutation_app_inv_r (slices (concat vs) (chain_ranges 0 vs))). rewrite complement_slices by apply (chain_ranges_between 0 vs).
    rewrite (chain_ranges_slices [] vs : slices (concat vs) (chain_ranges 0 vs) = _). rewrite take_ge by lia. done.
  - intros sid' Hne. split; try done; unfold ranges_of, s', attached; cbn; try by rewrite lookup_insert_ne.
    intros r' Hr'. destruct (Hother sid' r' Hr' Hne) as [H0 Hrr]. by apply attached_other.
Qed.

(** ** Running the loops *)

Definition attaching sid r (row : list Z) (rs : list Range) s : StandardCacheManager :=
  mkStandard (std_config s) (free_slots_stack s) (num_free_slots s) (<[Z.to_nat r := row]> (buffer_req_to_token_slots s))
    (seq_id_to_row s) (free_rows s) (row_seq_lens s) (row_logical_lens s)
    (layer_batch_state s) (prefix_cache s) (payloads s) (seq_id_to_prefix_blocks s)
    (<[sid := rs]> (seq_id_to_cached_ranges s)) (seq_id_to_materialized_blocks s)
    (prefix_runtime_states s) (pending_prefix_blocks s)
    (snapshot_depth s) (snapshot_freeable s) (snapshot_reclaimable s).
Lemma attaching_twice sid r row rs row' rs' s : attaching sid r row' rs' (attaching sid r row rs s) = attaching sid r row' rs' s.
Proof. unfold attaching. cbn. by rewrite list_insert_insert_eq, insert_insert_eq. Qed.

Lemma wp_deref_block fl s c o id en (Q : exc PrefixCacheBlock -> StandardCacheManager -> Prop) : mgr_ok fl s -> prefix_cache s = Some c ->
  blk s !! id = Some en -> e_obj en = o ->
  (forall b, stable_block_id b = id -> payload b = e_payload en -> residency b = e_residency en -> Q (Ok b) s) ->
  wp (on_prefix (deref o)) Q s.
Proof.
  intros Hok Hc Hen <- HQ. destruct (mgr_index _ _ _ Hok Hc) as ([Hwf _] & _). rewrite (blk_index s c Hc) in Hen.
  destruct (seen_store _ _ _ Hwf Hen) as (b & _ & Hb & Hid & Hp & _ & Hr). eapply wp_on_prefix; [done|].
  unfold wp, deref. rewrite Hb. cbn. rewrite (with_index_id s c Hc). by apply HQ.
Qed.
Lemma wp_payload_of s e b p (Q : exc StandardPrefixBlockPayload -> StandardCacheManager -> Prop) : payloads s !! payload b = Some p -> Q (Ok p) s ->
  wp (payload_of e b) Q s.
Proof. intros Hp HQ. unfold wp, payload_of. by rewrite Hp. Qed.

Lemma check_attach_chain_run fl s c os : mgr_ok fl s -> prefix_cache s = Some c -> Forall (indexed_object (blk s)) os ->
  wp (check_attach_chain os) (fun x s' => x = Ok tt /\ s' = s) s.
Proof.
  intros Hok Hc. induction 1 as [|o os (key & en & Hen & Ho) _ IH]; cbn [check_attach_chain]; [done|].
  destruct (mo_blocks _ _ Hok key en Hen) as [Hres (v & p & Hp & Ht & Hret & Hlen)]. apply wp_bind.
  eapply (wp_deref_block _ s c o key en); [done..|]. intros b _ Hpl Hrb. apply wp_bind, (wp_payload_of _ _ _ p); [by rewrite Hpl|].
  rewrite Hrb, Hres. apply wp_bind, wp_lift. cbn [residency_validate on_device device_present host_present transfer negb andb].
  apply wp_bind, wp_guard; [done|]. intros _. apply wp_bind, wp_read. cbv beta iota. unfold id at 1. rewrite Ht.
  apply wp_bind, wp_guard; [intros Hn; exfalso; unfold resident_tokens in Hn; rewrite Hret in Hn; bool_to_prop; unfold size_of in Hlen; lia|].
  intros _. apply wp_bind, wp_guard; [done|]. intros _. exact IH.
Qed.

Lemma attach_blocks_run fl s sid r row rs os vs cursor : mgr_ok fl s -> is_Some (prefix_cache s) -> 0 <= r < max_buffer_rows (std_config s) ->
  chain_slots s os vs -> 0 <= cursor -> cursor + Z.of_nat (length (concat vs)) <= Z.of_nat (length row) ->
  wp (attach_blocks sid r cursor os) (fun x s' => x = Ok (cursor + Z.of_nat (length (concat vs))) /\
    s' = attaching sid r (take (Z.to_nat cursor) row ++ concat vs ++ drop (Z.to_nat (cursor + Z.of_nat (length (concat vs)))) row)
           (rs ++ chain_ranges cursor vs) s)
    (attaching sid r row rs s).
Proof.
  intros Hok [c Hc] Hr Hcs. destruct (mgr_index _ _ _ Hok Hc) as (_ & _ & Hbs). revert row rs cursor.
  destruct (row_lookup s r (mo_shape _ _ Hok) Hr) as (row0 & Hrow0 & _).
  induction Hcs as [|o v os vs (key & en & Hen & Ho & Hv) _ IH]; intros row rs cursor H0 Hle; cbn [attach_blocks chain_ranges concat] in *.
  { apply wp_ret. split; [f_equal; cbn; lia|]. cbn. by rewrite Z.add_0_r, take_drop, app_nil_r. }
  set (s1 := attaching sid r row rs s). apply wp_bind. pose proof Hv as (p & Hp & Ht & _ & Hlv).
  assert (wp (on_prefix (deref o)) (fun x s' => s' = s1 /\ exists b, x = Ok b /\ payload b = e_payload en) s1) as Hd.
  { destruct (mgr_index _ _ _ Hok Hc) as ([Hwf _] & _). rewrite (blk_index s c Hc) in Hen.
    destruct (seen_store _ _ _ Hwf Hen) as (b & _ & Hb & _ & Hpb & _). assert (prefix_cache s1 = Some c) as Hc1 by exact Hc.
    eapply wp_on_prefix; [exact Hc1|]. unfold wp, deref. rewrite <- Ho, Hb. cbn. rewrite (with_index_id s1 c Hc1). split; [done|]. by exists b. }
  eapply wp_mono; [exact Hd|]. cbv beta. intros x s' (-> & b & -> & Hpb). apply wp_bind. apply (wp_payload_of s1 _ b p); [by rewrite Hpb|].
  rewrite Ht. rewrite length_app in Hle. rewrite (proj2 (Z.eqb_neq (Z.of_nat (length v)) 0)) by lia.
  assert (write_row r cursor (cursor + Z.of_nat (length v)) v s1 = (Ok tt,
    attaching sid r (take (Z.to_nat cursor) row ++ v ++ drop (Z.to_nat (cursor + Z.of_nat (length v))) row) rs s)) as Hw.
  { unfold write_row, mbind, Act_bind, read, tensor_assign. cbn [fst snd]. unfold id at 1. unfold s1 at 1, attaching. cbn [buffer_req_to_token_slots].
    rewrite list_lookup_insert_eq by (by apply lookup_lt_Some in Hrow0).
    replace (Z.min cursor (Z.of_nat (length row))) with cursor by lia.
    replace (Z.max cursor _) with (cursor + Z.of_nat (length v)) by lia.
    rewrite (proj2 (Z.eqb_eq _ _)) by lia. unfold lift, modify, s1, attaching. cbn. by rewrite list_insert_insert_eq. }
  apply wp_bind. unfold wp at 1. rewrite Hw. cbn [fst snd]. apply wp_bind, wp_modify. cbv beta iota.
  assert (forall row1, (attaching sid r row1 rs s) <| seq_id_to_cached_ranges ::= fun m =>
    <[sid := default [] (m !! sid) ++ [(cursor, cursor + Z.of_nat (length v))]]> m |> =
    attaching sid r row1 (rs ++ [(cursor, cursor + Z.of_nat (length v))]) s) as Hrs.
  { intros row1. unfold attaching. cbn. by rewrite lookup_insert_eq, insert_insert_eq. }
  rewrite Hrs. eapply wp_mono; [apply IH; [lia|]|].
  - rewrite !length_app, length_take, length_drop. lia.
  - cbv beta. intros x s' (-> & ->). rewrite length_app. split; [f_equal; lia|]. rewrite <- app_assoc. cbn [app].
    f_equal.
    assert (length (take (Z.to_nat cursor) row) = Z.to_nat cursor) as Hlt by (rewrite length_take; lia).
    assert (take (Z.to_nat (cursor + Z.of_nat (length v))) (take (Z.to_nat cursor) row ++ v ++ drop (Z.to_nat (cursor + Z.of_nat (length v))) row) =
      take (Z.to_nat cursor) row ++ v) as ->.
    { rewrite app_assoc. apply take_app_length'. rewrite length_app. lia. }
    rewrite <- !app_assoc. do 3 f_equal. rewrite app_assoc, drop_app_ge by (rewrite length_app; lia).
    rewrite drop_drop. f_equal. rewrite length_app. lia.
Qed.

Lemma chain_last_present (ix : Index) last n os : index_wf ix -> get_chain ix last n = Ok os -> is_Some (get_block ix last).
Proof.
  intros Hwf. unfold get_chain. destruct (n <=? 0); [done|]. intros Hc. apply (forest_present ix last Hwf).
  change (forest_of (backend ix) last) with (block_parent (backend ix) last). destruct (block_parent (backend ix) last) eqn:Hp; [eauto|].
  change (forest_path (backend ix) last) with (path_to_block (backend ix) last) in Hc.
  rewrite (path_to_block_absent _ _ (iwf_backend ix Hwf) Hp) in Hc. done.
Qed.

(** What the scheduler's hit promises of a request. *)
Record hit_ok s q : Prop := {
  hk_len : prefix_cache_hit_len (prefix_hit q) = prefix_cache_hit_block_count (prefix_hit q) * size_of s;
  hk_count : 0 <= prefix_cache_hit_block_count (prefix_hit q);
  hk_fits : prefix_cache_hit_len (prefix_hit q) <= max_model_len (std_config s);
  hk_attached os : seq_id_to_prefix_blocks s !! seq_id q = Some os -> prefix_cache_hit_block_count (prefix_hit q) = Z.of_nat (length os);
}.

(** The request's row shows the slots of the blocks [os], in order. *)
Definition reads_chain s sid (os : list nat) : Prop :=
  exists r vs, seq_id_to_row s !! sid = Some r /\ chain_slots s os vs /\ cells s r = concat vs.
Definition hit_chain s q (os : list nat) : Prop :=
  exists c last, prefix_cache s = Some c /\ prefix_cache_hit_last_block_id (prefix_hit q) = Some last /\
    get_chain (the_index c) last (prefix_cache_hit_block_count (prefix_hit q)) = Ok os.

(** The step attaches the request's hit. *)
Definition attaches s q : Prop :=
  caching s = true /\ 0 < prefix_cache_hit_len (prefix_hit q) /\ seq_id_to_prefix_blocks s !! seq_id q = None.
#[global] Instance attaches_dec s q : Decision (attaches s q).
Proof. unfold attaches. apply _. Defined.
(** Why an attachment is refused, before anything changes. *)
Definition attach_refused s q : Prop :=
  (forall os, ~ hit_chain s q os) \/ own_len s (seq_id q) <> 0 \/ (seq_id_to_row s !! seq_id q = None /\ free_rows s = []).
(** The request's blocks were there, or are attached now. *)
Definition attach_post refs l g s q (x : exc unit) s' : Prop :=
  mgr_ok (mkFlight refs l g) s' /\ others_stay (seq_id q) s s' /\
  match x with
  | Raise _ => s' = s /\ attaches s q /\ attach_refused s q
  | Ok _ => s' = s /\ (caching s = false \/ prefix_cache_hit_len (prefix_hit q) <= 0 \/ is_Some (seq_id_to_prefix_blocks s !! seq_id q)) \/
      exists os, seq_id_to_prefix_blocks s' !! seq_id q = Some os /\ prefix_cache_hit_block_count (prefix_hit q) = Z.of_nat (length os) /\
        prefix_runtime_states s' !! seq_id q = None /\ own_len s' (seq_id q) = prefix_cache_hit_len (prefix_hit q) /\
        is_Some (seq_id_to_row s' !! seq_id q) /\ seq_id_to_prefix_blocks s !! seq_id q = None /\ own_len s (seq_id q) = 0 /\
        hit_chain s q os /\ reads_chain s' (seq_id q) os /\ pins os (blk s) (blk s') /\ num_free_slots s' = num_free_slots s
  end.

Lemma attach_rest refs l g s q r os c : mgr_ok (mkFlight (os ++ refs) l g) s -> prefix_cache s = Some c ->
  seq_id_to_row s !! seq_id q = Some r -> len_of s r = 0 -> seq_id_to_prefix_blocks s !! seq_id q = None -> NoDup os ->
  Forall (indexed_object (blk s)) os -> Z.of_nat (length os) * size_of s = prefix_cache_hit_len (prefix_hit q) ->
  prefix_cache_hit_len (prefix_hit q) <= max_model_len (std_config s) ->
  wp (modify (fun s => s <| seq_id_to_cached_ranges ::= fun m => <[seq_id q := default [] (m !! seq_id q)]> m |>) ;;
      cursor ← attach_blocks (seq_id q) r 0 os;
      modify (fun s => s <| row_seq_lens ::= fun t => array_set t r cursor |>
                         <| row_logical_lens ::= fun t => array_set t r (prefix_cache_hit_len (prefix_hit q)) |>
                         <| seq_id_to_prefix_blocks ::= <[seq_id q := os]> |>) ;;
      on_prefix (touch_chain os))
    (fun x s' => x = Ok tt /\ mgr_ok (mkFlight refs l g) s' /\ others_stay (seq_id q) s s' /\
      seq_id_to_prefix_blocks s' !! seq_id q = Some os /\ prefix_runtime_states s' !! seq_id q = None /\
      seq_id_to_row s' !! seq_id q = Some r /\ len_of s' r = prefix_cache_hit_len (prefix_hit q) /\ reads_chain s' (seq_id q) os /\
      blk s' = blk s /\ num_free_slots s' = num_free_slots s) s.
Proof.
  intros Hok Hc Hr Hl0 Hnone Hnd Hidx Hhit Hfit. pose proof (mo_shape _ _ Hok) as Hs. pose proof (row_valid s _ r Hs Hr) as Hrv.
  destruct (row_lookup s r Hs Hrv) as (row & Hb & Hrow & Hlrow & _).
  destruct (chain_slots_exist s os (mo_blocks _ _ Hok) Hidx) as [vs Hcs]. pose proof (chain_slots_length _ _ _ Hcs) as Hlen.
  destruct (attached_ok refs l g s (seq_id q) r os vs Hok ltac:(by rewrite Hc) Hr Hl0 Hnone Hnd Hcs ltac:(lia)) as [Hok' Ho'].
  assert (prefix_runtime_states s !! seq_id q = None) as Hst.
  { pose proof (mo_seqs _ _ Hok (seq_id q)) as Hw. rewrite Hr in Hw. destruct Hw as [_ _ _ _ Hrec _ _]. unfold recorded in Hrec. cbn in Hrec.
    destruct (prefix_runtime_states s !! seq_id q) as [st|]; [|done]. destruct Hrec as (k & _ & _ & Ha & _). rewrite Hnone in Ha. cbn in Ha. lia. }
  apply wp_bind, wp_modify. cbv beta iota.
  match goal with |- wp _ _ ?x => replace x with (attaching (seq_id q) r (row_of s r) (ranges_of s (seq_id q)) s) end.
  2:{ unfold attaching, ranges_of. cbn. rewrite Hrow, list_insert_id by done. by destruct s. }
  apply wp_bind. eapply wp_mono.
  { apply (attach_blocks_run _ s (seq_id q) r (row_of s r) _ os vs 0 Hok); [by rewrite Hc|done|done|done|rewrite Hrow; lia]. }
  cbv beta. intros x s1 (-> & ->). rewrite !Z.add_0_l, Nat2Z.id. cbn [Z.to_nat take app].
  apply wp_bind, wp_modify. cbv beta iota.
  match goal with |- wp _ _ ?x => replace x with (attached (seq_id q) r os vs s) end.
  2:{ unfold attached, attaching. cbn. by rewrite Hlen, Hhit. }
  destruct (mgr_index _ _ _ Hok Hc) as (Hinv & _). eapply wp_on_prefix; [exact Hc|]. eapply wp_mono; [by apply touch_chain_seen|].
  cbv beta. intros x ix' (-> & Hst' & Hseen). split; [done|].
  assert (prefix_cache (attached (seq_id q) r os vs s) = Some c) as Hc2 by exact Hc.
  split; [by eapply index_same|]. split; [etrans; [exact Ho'|by apply quiet_others, with_index_quiet]|].
  split_and!; [apply lookup_insert_eq|exact Hst|exact Hr| | |by rewrite blk_with_index, Hseen, <- (blk_index s c Hc)|done].
  2:{ exists r, vs. split; [exact Hr|]. split; [|change (cells (attached (seq_id q) r os vs s) r = concat vs); by apply attached_cells].
      unfold chain_slots in *. rewrite blk_with_index, Hseen, <- (blk_index s c Hc). exact Hcs. }
  change (len_of (attached (seq_id q) r os vs s) r = prefix_cache_hit_len (prefix_hit q)). rewrite attached_len by done. lia.
Qed.

Lemma attach_ok refs l g s q : mgr_ok (mkFlight refs l g) s -> hit_ok s q -> (seq_id_to_row s !! seq_id q = None -> g (seq_id q) = 0) ->
  wp (attach_prefix_cache_if_needed q) (attach_post refs l g s q) s.
Proof.
  intros Hok Hhit Hg. pose proof (mo_shape _ _ Hok) as Hs.
  unfold attach_prefix_cache_if_needed. apply wp_bind, wp_read. cbv beta iota zeta. unfold id. apply wp_if; intros Hskip.
  { apply wp_ret. split; [done|]. split; [done|]. left. split; [done|]. apply orb_prop in Hskip as [Hskip|Hskip]; [apply orb_prop in Hskip as [Hskip|Hskip]|].
    - left. by apply negb_true_iff.
    - right; left. by bool_to_prop.
    - do 2 right. by bool_to_prop. }
  bool_to_prop. assert (exists c, prefix_cache s = Some c) as [c Hc] by (unfold caching in *; bool_to_prop; done).
  assert (seq_id_to_prefix_blocks s !! seq_id q = None) as Hnone by (by apply eq_None_not_Some).
  assert (forall e : PyExn, attach_refused s q -> attach_post refs l g s q (Raise e) s) as Herr.
  { intros e He. split; [done|]. split; [done|]. split; [done|]. split; [|done]. split_and!; [done|lia|done]. }
  destruct (mgr_index _ _ _ Hok Hc) as (Hinv & Hbs & Hpos).
  destruct (prefix_cache_hit_last_block_id (prefix_hit q)) as [last|] eqn:Hlast.
  2:{ apply wp_throw, Herr. left. intros os (c' & last & _ & Hl & _). congruence. }
  apply wp_bind, wp_guard.
  { intros Hm. bool_to_prop. destruct Hm. rewrite (hk_len _ _ Hhit). apply Z_mod_mult. }
  intros _. apply wp_bind. eapply wp_on_prefix; [done|]. apply wp_ask. rewrite (with_index_id s c Hc).
  destruct (get_chain (the_index c) last _) as [os|e] eqn:Hch.
  2:{ apply Herr. left. intros os (c' & last' & Hc' & Hl & Hg'). simplify_eq. congruence. }
  pose proof (chain_last_present _ _ _ _ (proj1 Hinv) Hch) as Hpres.
  destruct (get_chain_seen _ _ _ _ (proj1 Hinv) Hpres Hch) as (Hnd & Hlen & Hidx). rewrite <- (blk_index s c Hc) in Hidx.
  apply wp_bind, wp_guard.
  { intros Hm. bool_to_prop. rewrite (hk_len _ _ Hhit), Hlen in Hm. by destruct Hm. }
  intros Heq. bool_to_prop. fold (size_of s) in Heq.
  apply wp_bind. eapply wp_mono; [by apply (check_attach_chain_run _ s c os Hok Hc Hidx)|]. cbv beta. intros x s0 (-> & ->).
  apply wp_bind. assert (wp match seq_id_to_row s !! seq_id q with
      | Some r => n ← row_len r; guard_not (negb (n =? 0)) (RuntimeError "Cannot attach prefix cache to non-empty row")
      | None => guard_not (bool_decide (free_rows s = [])) (RuntimeError "No free rows in cache manager buffer!")
      end (fun x s' => s' = s /\ match x with Ok _ => own_len s (seq_id q) = 0 /\ (seq_id_to_row s !! seq_id q = None -> free_rows s <> []) | Raise _ => attach_refused s q end) s) as Hrow.
  { unfold own_len. destruct (seq_id_to_row s !! seq_id q) as [r|] eqn:Hr.
    - apply wp_bind. unfold wp at 1. rewrite row_len_run by (done || by eapply row_valid). cbn [fst snd].
      apply wp_guard; intros Hn; bool_to_prop; [|done]. split; [done|]. right; left. unfold own_len. by rewrite Hr.
    - apply wp_guard; intros Hn; bool_to_prop; [|done]. split; [done|]. right; right. by rewrite Hr. }
  eapply wp_mono; [exact Hrow|]. cbv beta. intros [[]|e] s0 [-> Hr0]; [|by apply Herr]. destruct Hr0 as [Hl0 Hfree].
  apply wp_bind. eapply for_each_on_prefix; [exact Hc|]. pose proof (mo_refs _ _ Hok) as Hcnt. unfold refs_ok in Hcnt.
  rewrite (blk_index s c Hc) in Hcnt, Hidx. eapply wp_mono; [by apply acquire_all_index|]. cbv beta.
  intros x ix1 (-> & Hst1 & Hsame & Hcnt1). set (s1 := with_index s c ix1).
  assert (mgr_ok (mkFlight (os ++ refs) l g) s1) as Hok1.
  { apply (index_moved s c ix1 refs (os ++ refs) l l); [done|done|done|by apply same_but_refs_thinned| |].
    - cbn in Hcnt1. by rewrite <- app_assoc.
    - unfold shared. rewrite (blk_index s c Hc). by rewrite (same_but_refs_shared _ _ _ Hsame). }
  apply wp_bind. eapply wp_mono; [apply (get_free_row_ok s1 _ (seq_id q) Hok1 Hg)|]. cbv beta.
  assert (others_stay (seq_id q) s s1) as Ho1 by (by apply quiet_others, with_index_quiet).
  intros [r|e] s2.
  - intros (Hgiven & Hok2 & Hr2 & Ho2 & Hsr2 & Hl2 & _). change (own_len s1 (seq_id q)) with (own_len s (seq_id q)) in Hl2.
    assert (prefix_cache s2 = Some (c <| the_index := ix1 |>)) as Hc2 by (destruct Hgiven as [[-> _]|(_ & rows & _ & ->)]; done).
    assert (std_config s2 = std_config s) as Hcf2 by (by rewrite (sr_config _ _ _ Hsr2)).
    assert (Forall (indexed_object (blk s2)) os) as Hidx2.
    { rewrite (blk_index s2 _ Hc2). eapply Forall_impl; [exact Hidx|]. intros o. by apply same_but_refs_indexed. }
    eapply wp_mono; [apply (attach_rest refs l g s2 q r os (c <| the_index := ix1 |>) Hok2 Hc2 Hr2)|]; try done.
    + by rewrite Hl2.
    + rewrite (sr_attached _ _ _ Hsr2). exact Hnone.
    + unfold size_of. rewrite Hcf2. exact Heq.
    + rewrite Hcf2. apply Hhit.
    + cbv beta. intros x s3 (-> & Hok3 & Ho3 & Hat & Hst & Hr3 & Hl3 & Hrd & Hb3 & Hn3). split; [done|]. split; [by do 2 (etrans; [eassumption|])|].
      right. exists os. unfold own_len at 1. rewrite Hr3. split_and!; try done; [by exists c, last| |].
      * rewrite Hb3, (blk_index s c Hc), (blk_index s2 _ Hc2). by apply (counted_pins _ _ _ (refs ++ holders s)).
      * rewrite Hn3. destruct Hgiven as [[-> _]|(_ & rows & _ & ->)]; done.
  - intros (-> & Hn & Hf). by destruct (Hfree Hn).
Qed.
End attach.

(** ** What attaching a hit costs *)

Lemma same_but_refs_parents bl bl' x : same_but_refs bl bl' -> parents bl' x = parents bl x.
Proof.
  intros Hs. specialize (Hs x). unfold parents. destruct (bl !! x), (bl' !! x); cbn in *; [|done..]. unfold but_refs in Hs. cbn in Hs. by injection Hs as _ _ _ -> _.
Qed.

Section hits.
Context `{Digest}.
Implicit Types (s : StandardCacheManager) (sid r : Z) (o : nat) (q : Sequence) (ids : list bytes).

Record hit_whole s q ids : Prop := {
  hw_last : prefix_cache_hit_last_block_id (prefix_hit q) = last ids;
  hw_count : prefix_cache_hit_block_count (prefix_hit q) = Z.of_nat (length ids);
  hw_path : root_path (parents (blk s)) ids;
}.
(** The slots that stop being reclaimable when the hit is attached. *)
Definition hit_cost s ids : Z := size_of s * Z.of_nat (size (freeable s ∩ list_to_set ids)).

Lemma hit_whole_chain fl s q ids : mgr_ok fl s -> is_Some (prefix_cache s) -> hit_whole s q ids -> ids <> [] ->
  exists os, hit_chain s q os /\ Forall2 (fun o x => exists en, blk s !! x = Some en /\ e_obj en = o) os ids.
Proof.
  intros Hok [c Hc] [Hl Hn Hp] Hne. destruct (mgr_index _ _ _ Hok Hc) as ([Hwf _] & _).
  destruct (last ids) as [b|] eqn:Hb; [|by apply last_None in Hb]. pose proof Hb as Hbi. rewrite last_lookup in Hbi.
  assert (is_Some (get_block (the_index c) b)) as Hpres.
  { pose proof (Hp _ _ Hbi) as Hf. unfold parents in Hf. rewrite (blk_index s c Hc), lookup_seen in Hf.
    destruct (get_block (the_index c) b); [eauto|done]. }
  destruct (get_chain_spec (the_index c) b (Z.of_nat (length ids)) Hwf Hpres ltac:(destruct ids; cbn; [done|lia])) as (path & Hlast & Hpath & Hget).
  assert (path = ids) as ->.
  { apply (root_path_unique (parents (blk s))); [|done|congruence].
    intros i x Hx. rewrite (blk_index s c Hc), (parents_seen _ Hwf). by apply Hpath. }
  rewrite Z.ltb_irrefl in Hget. destruct Hget as (os & Hget & _ & Hf). exists os. split.
  - exists c, b. rewrite Hn. split_and!; [done..|exact Hget].
  - rewrite Nat2Z.id, Nat.sub_diag, drop_0 in Hf. eapply Forall2_impl; [exact Hf|]. cbv beta. intros o x (b' & Hb').
    exists (entry_of (o, b')). by rewrite (blk_index s c Hc), lookup_seen, Hb'.
Qed.

Lemma hit_chain_unique s q os os' : hit_chain s q os -> hit_chain s q os' -> os = os'.
Proof. intros (c & b & Hc & Hb & Hg) (c' & b' & Hc' & Hb' & Hg'). simplify_eq. congruence. Qed.

Lemma pins_blocked os bl bl' id en en' : pins os bl bl' -> bl !! id = Some en -> bl' !! id = Some en' ->
  (entry_blocked en' = false -> entry_blocked en = false) /\ (e_obj en ∉ os -> entry_blocked en' = entry_blocked en).
Proof.
  intros [Hs Hr] Hen Hen'. destruct (Hr id en en' Hen Hen') as [Hle Heq]. specialize (Hs id). rewrite Hen, Hen' in Hs.
  unfold but_refs in Hs. cbn in Hs. injection Hs as _ _ E1 _ E2. unfold entry_blocked. rewrite E1, E2. split; [|intros Hn; by rewrite (Heq Hn)].
  destruct (Z.eqb_spec (e_refs en') 0), (Z.eqb_spec (e_refs en) 0); cbn; done || lia.
Qed.

(** Taking references makes no block freeable. *)
Lemma pins_freeable fl fl' s s' os : mgr_ok fl s -> mgr_ok fl' s' -> (is_Some (prefix_cache s') <-> is_Some (prefix_cache s)) ->
  pins os (blk s) (blk s') -> freeable s' ⊆ freeable s.
Proof.
  intros Hok Hok' Hc Hp id. rewrite (freeable_elem fl' s'), (freeable_elem fl s) by done. intros (Hs & Hb & Hf).
  assert (forall x, is_Some (blk s' !! x) -> is_Some (blk s !! x)) as Hdom.
  { intros x. destruct Hp as [Hsb _]. specialize (Hsb x). destruct (blk s' !! x), (blk s !! x); done || eauto. }
  assert (forall x, is_Some (blk s !! x) -> is_Some (blk s' !! x)) as Hdom'.
  { intros x. destruct Hp as [Hsb _]. specialize (Hsb x). destruct (blk s' !! x), (blk s !! x); done || eauto. }
  split; [by apply Hc|]. split; [by apply Hdom|]. intros x en Hx Hen. destruct (Hdom' x ltac:(eauto)) as [en' Hen'].
  apply (pins_blocked os _ _ x en en' Hp Hen Hen'). apply (Hf x); [|done].
  eapply below_ext; [|exact Hx]. intros y. symmetry. apply same_but_refs_parents, Hp.
Qed.

Lemma attached_capacity fl fl' s s' q ids os : mgr_ok fl s -> mgr_ok fl' s' -> std_config s' = std_config s -> is_Some (prefix_cache s) ->
  is_Some (prefix_cache s') -> num_free_slots s' = num_free_slots s -> 
  hit_whole s q ids -> ids <> [] -> hit_chain s q os -> pins os (blk s) (blk s') -> capacity s - hit_cost s ids <= capacity s'.
Proof.
  intros Hok Hok' Hcf Hc Hc' Hn Hw Hne Hch Hp. destruct (hit_whole_chain _ _ _ _ Hok Hc Hw Hne) as (os' & Hch' & Hf).
  rewrite (hit_chain_unique _ _ _ _ Hch' Hch) in Hf. pose proof Hc as [c Hpc]. destruct (mgr_index _ _ _ Hok Hpc) as (Hinv & _ & Hbs).
  apply (pinned_capacity s s'); [done|done|lia|].
  apply (pinned_freeable fl fl'); [done|done|done| | |].
  - intros x. apply (same_but_refs_parents _ _ x), Hp.
  - intros x en en' Hen Hen' Hx Hb. destruct (pins_blocked os _ _ x en en' Hp Hen Hen') as [_ Heq]. rewrite Heq; [done|].
    intros Hin. apply Hx, elem_of_list_to_set. apply list_elem_of_lookup in Hin as [i Hi].
    destruct (Forall2_lookup_l _ _ _ _ _ Hf Hi) as (y & Hy & en1 & Hen1 & Ho).
    enough (x = y) as -> by (by eapply list_elem_of_lookup_2).
    rewrite (blk_index s c Hpc) in Hen, Hen1. by apply (seen_apart _ Hinv x y en en1).
  - intros x y Hy Hb. apply elem_of_list_to_set. apply elem_of_list_to_set in Hy. eapply root_path_up; [apply Hw|done..].
Qed.
End hits.
