(* ===== verification/StandardReports.v ===== *)
(** * The standard cache manager: its reports are exact

    A query changes nothing but memos, lookups and the snapshot of the pass, and
    what it answers is the capacity of the manager, snapshot or not; the cost of
    a prompt is its suffix and the freeable blocks its hit would pin. *)

From stdpp Require Import base gmap list strings.
From Stdlib Require Import ZArith Lia.
From S2P Require Import Prelude PyDict PyBytes Sha256 RoutingMembership RadixTree RadixForest PrefixHash.
From S2P Require Import PrefixIndex PrefixIndexFacts PrefixCapacity PrefixTransfer PrefixCommit PrefixEviction PrefixControl PrefixEpochs PrefixFreeable.
From S2P Require Import SamplingParams Sequence PrefixLookup PrefixHits.
From S2P Require Import StandardCache StandardOracle SlotRanges PrefixClient PrefixRefs StandardInvariant StandardMoves StandardIndex.
From S2P Require Import StandardCaches StandardSteps StandardRecord StandardRelease StandardAttach.

Section reports.
Context `{Digest}.
Implicit Types (s : StandardCacheManager) (sid : Z) (q : Sequence) (fl : Flight).
#[local] Abbreviation Index := (RadixPrefixIndex RadixTreeBackend).
#[local] Abbreviation Cached := (CachedIndex RadixTreeBackend).
#[local] Abbreviation MgrAct := (Act PyExn StandardCacheManager).

(** ** What a query may change *)

Definition index_config s : option IndexConfig := (fun c : Cached => PrefixIndex.config (the_index c)) <$> prefix_cache s.
Lemma index_config_some s s' : index_config s' = index_config s -> (is_Some (prefix_cache s') <-> is_Some (prefix_cache s)).
Proof. unfold index_config. destruct (prefix_cache s), (prefix_cache s'); cbn; done || (split; intros [? ?]; done || eauto). Qed.
Record consulted s s' : Prop := {
  cs_frame : s' = s <| prefix_cache := prefix_cache s' |> <| snapshot_depth := snapshot_depth s' |>
                    <| snapshot_freeable := snapshot_freeable s' |> <| snapshot_reclaimable := snapshot_reclaimable s' |>;
  cs_index : index_config s' = index_config s;
  cs_blocks : blk s' = blk s;
  cs_inv : index_ok s -> index_ok s';
}.
#[global] Instance consulted_refl : Reflexive consulted.
Proof. intros s. split; [by destruct s|done..]. Qed.
#[global] Instance consulted_trans : Transitive consulted.
Proof.
  intros s1 s2 s3 [-> I1 B1 V1] [-> I2 B2 V2]. split; [done| | |auto].
  - etrans; [exact I2|exact I1].
  - congruence.
Qed.

Lemma consulted_ok fl s s' : mgr_ok fl s -> consulted s s' -> mgr_ok fl s'.
Proof.
  intros [Hs Hix Hb Hrf Hsq Hc] [Hf Hi Hbl Hv]. specialize (Hv Hix).
  assert (shared s' = shared s) as Hsh by (unfold shared; rewrite Hbl, Hf; done).
  split; [|done|..].
  - rewrite Hf. by destruct Hs.
  - intros id en. rewrite Hbl. rewrite Hf. apply Hb.
  - unfold refs_ok in *. rewrite Hbl. rewrite Hf. exact Hrf.
  - intros sid. specialize (Hsq sid). rewrite Hbl. rewrite Hf. exact Hsq.
  - unfold conserved in *. rewrite Hsh. rewrite Hf. exact Hc.
Qed.
Lemma consulted_stays s s' sid : consulted s s' -> stays sid s s'.
Proof. intros [Hf Hi _ _]. split; first [by apply index_config_some|by rewrite Hf]. Qed.
Lemma consulted_capacity fl s s' : mgr_ok fl s -> consulted s s' -> freeable s' = freeable s /\ capacity s' = capacity s.
Proof.
  intros Hok Hc. pose proof (consulted_ok fl s s' Hok Hc) as Hok'. pose proof Hc as [Hf Hi Hb _].
  assert (freeable s' = freeable s) as E by (by apply (freeable_same fl fl); [..|by apply index_config_some|]). split; [done|]. unfold capacity, size_of. rewrite E. by rewrite Hf.
Qed.

(** ** The state a query runs in *)

(** The snapshot of the pass, where there is one, is what a query would find. *)
Definition snapshot_true s : Prop := 0 < snapshot_depth s ->
  (forall X, snapshot_freeable s = Some X -> X = freeable s) /\
  (forall n, snapshot_reclaimable s = Some n -> n = size_of s * Z.of_nat (size (freeable s))).
Record asked fl s0 d s : Prop := {
  as_ok : mgr_ok fl s;
  as_consulted : consulted s0 s;
  as_caches : trusted d s;
  as_snapshot : snapshot_true s;
}.
(** A query that answers [x] and only consults. *)
Definition answers {A} (m : MgrAct A) (P : A -> Prop) fl s0 d : Prop := forall s, asked fl s0 d s ->
  wp m (fun r s' => asked fl s0 d s' /\ exists a, r = Ok a /\ P a) s.

Section asked.
Context (fl : Flight) (s0 : StandardCacheManager) (d : Z) (Hok0 : mgr_ok fl s0).

Lemma asked_parts s : asked fl s0 d s -> freeable s = freeable s0 /\ capacity s = capacity s0 /\ num_free_slots s = num_free_slots s0 /\
  std_config s = std_config s0 /\ (is_Some (prefix_cache s) <-> is_Some (prefix_cache s0)) /\ blk s = blk s0.
Proof.
  intros [_ Hc _ _]. destruct (consulted_capacity fl s0 s Hok0 Hc) as [Hf Hcap]. destruct Hc as [Hfr Hi Hb _].
  split_and!; [done|done|by rewrite Hfr|by rewrite Hfr|by apply index_config_some|done].
Qed.

(** A call on the index that leaves its blocks, configuration and epochs alone. *)
Lemma asked_with_index s c ix' : asked fl s0 d s -> prefix_cache s = Some c -> index_inv ix' -> core ix' = core (the_index c) ->
  later (the_index c) ix' -> asked fl s0 d (with_index s c ix').
Proof.
  intros [Hok Hc Hca Hsn] Hp Hinv Hcore Hl. assert (consulted s (with_index s c ix')) as Hc1.
  { split; [done| | |].
    - unfold index_config. rewrite Hp. cbn. by injection Hcore as ->.
    - rewrite blk_with_index, (blk_index s c Hp). apply seen_ext. intros id. by rewrite (core_get_block ix' (the_index c) id Hcore).
    - unfold index_ok, index_of. cbn. rewrite Hp. cbn. intros (? & _ & ?). injection Hcore as -> _ _ _ _ _. done. }
  destruct (consulted_capacity fl _ _ Hok Hc1) as [Hfr _]. split.
  - by apply (consulted_ok fl s).
  - by etrans.
  - destruct Hca as [Hca Hd]. split; [|exact Hd]. intros c' [= <-]. apply caches_later; [by apply Hca|done..].
  - unfold snapshot_true in *. rewrite Hfr. exact Hsn.
Qed.
Lemma asked_cached s c c' : asked fl s0 d s -> prefix_cache s = Some c -> caches_ok c' -> core (the_index c') = core (the_index c) ->
  asked fl s0 d (s <| prefix_cache := Some c' |>).
Proof.
  intros [Hok Hc Hca Hsn] Hp Hco Hcore. assert (consulted s (s <| prefix_cache := Some c' |>)) as Hc1.
  { split; [done| | |].
    - unfold index_config. rewrite Hp. cbn. by pose proof Hcore as [= -> _ _ _ _ _].
    - rewrite (blk_index s c Hp). unfold blk. cbn. apply seen_ext. intros id. by rewrite (core_get_block (the_index c') (the_index c) id Hcore).
    - unfold index_ok, index_of. cbn. rewrite Hp. cbn. intros (? & _ & ?). pose proof Hcore as [= E _ _ _ _ _]. rewrite E. split; [done|]. split; [apply Hco|done]. }
  destruct (consulted_capacity fl _ _ Hok Hc1) as [Hfr _]. split.
  - by apply (consulted_ok fl s).
  - by etrans.
  - destruct Hca as [Hca Hd]. split; [|exact Hd]. by intros c'' [= <-].
  - unfold snapshot_true in *. rewrite Hfr. exact Hsn.
Qed.

(** ** Slots of sets of blocks *)

Lemma freeable_cases s : asked fl s0 d s -> prefix_cache s = None -> freeable s0 = ∅.
Proof. intros Ha Hn. destruct (asked_parts s Ha) as [<- _]. unfold freeable. by rewrite Hn. Qed.
Lemma id_resident_indexed s c id : asked fl s0 d s -> prefix_cache s = Some c -> is_Some (blk s !! id) ->
  id_resident s (the_index c) id = size_of s0.
Proof.
  intros Ha Hc Hid. destruct (asked_parts s Ha) as (_ & _ & _ & Hcf & _). unfold id_resident. rewrite (blk_index s c Hc), lookup_seen in Hid.
  destruct (get_block (the_index c) id) as [[o b]|] eqn:Hg; [|by destruct Hid].
  destruct (mo_blocks _ _ (as_ok _ _ _ _ Ha) id (entry_of (o, b))) as (Hres & _); [by rewrite (blk_index s c Hc), lookup_seen, Hg|].
  cbn in Hres. rewrite Hres. cbn [device_present on_device]. rewrite (resident_block fl s c id o b (as_ok _ _ _ _ Ha) Hc Hg).
  unfold size_of. by rewrite Hcf.
Qed.
Lemma resident_sum s c (l : list bytes) : asked fl s0 d s -> prefix_cache s = Some c -> Forall (fun id => is_Some (blk s !! id)) l ->
  foldr (fun id n => id_resident s (the_index c) id + n) 0 l = size_of s0 * Z.of_nat (length l).
Proof.
  intros Ha Hc. induction 1 as [|id l Hid _ IH]; cbn; [lia|]. rewrite IH, (id_resident_indexed s c id) by done. lia.
Qed.
Lemma freeable_indexed s id : asked fl s0 d s -> id ∈ freeable s0 -> is_Some (blk s !! id).
Proof.
  intros Ha Hid. destruct (asked_parts s Ha) as (Hf & _). rewrite <- Hf in Hid. apply (freeable_elem fl s id (as_ok _ _ _ _ Ha)) in Hid as (_ & Hs & _). done.
Qed.
Lemma resident_slots_answers (X : gset bytes) : (X ⊆ freeable s0) ->
  answers (prefix_resident_slots_for_ids X) (fun n => n = size_of s0 * Z.of_nat (size X)) fl s0 d.
Proof.
  intros HX s Ha. unfold prefix_resident_slots_for_ids. apply wp_bind, wp_read. cbv beta iota. unfold id.
  destruct (prefix_cache s) as [c|] eqn:Hc; apply wp_ret; (split; [done|]); eexists; (split; [done|]).
  - rewrite (resident_sum s c); [by rewrite <- (size_list_to_set (C := gset bytes)), list_to_set_elements_L by apply NoDup_elements|done..|].
    apply Forall_forall. intros id Hid%elem_of_elements. apply (freeable_indexed s id Ha). by apply HX.
  - rewrite (freeable_cases s Ha Hc) in HX. assert (X = ∅) as -> by set_solver. rewrite size_empty. lia.
Qed.

Lemma freeable_blocks_answers : is_Some (prefix_cache s0) -> answers (on_prefix freeable_block_ids) (fun ids => ids = freeable s0) fl s0 d.
Proof.
  intros Hs0 s Ha. destruct (asked_parts s Ha) as (Hf & _ & _ & _ & Hi & _). destruct (proj2 Hi Hs0) as [c Hc].
  pose proof (mgr_index_inv fl s c (as_ok _ _ _ _ Ha) Hc) as Hinv.
  eapply wp_on_prefix; [exact Hc|]. eapply wp_mono; [by apply freeable_block_ids_spec|]. cbv beta. intros r ix' (Hinv' & Hcore & He & ids & -> & Hids).
  split; [apply asked_with_index; [done..|by apply core_later]|]. exists ids. split; [done|]. rewrite <- Hf. apply leibniz_equiv. intros id.
  unfold freeable. rewrite Hc, Hids, freeable_set_spec by done. apply freeable_seen, Hinv.
Qed.

(** ** Capacity *)

Lemma answers_ret {A} (a : A) (P : A -> Prop) : P a -> answers (mret a) P fl s0 d.
Proof. intros Ha s Hs. apply wp_ret. split; [done|]. by exists a. Qed.
Lemma answers_bind {A B} (m : MgrAct A) (f : A -> MgrAct B) P Q : answers m P fl s0 d -> (forall a, P a -> answers (f a) Q fl s0 d) ->
  answers (m ≫= f) Q fl s0 d.
Proof.
  intros Hm Hf s Hs. apply wp_bind. eapply wp_mono; [by apply Hm|]. cbv beta. intros r s' (Hs' & a & -> & Ha). by apply Hf.
Qed.
Lemma answers_bind_at {A B} s (m : MgrAct A) (f : A -> MgrAct B) P Q : asked fl s0 d s -> answers m P fl s0 d ->
  (forall a, P a -> answers (f a) Q fl s0 d) -> wp (m ≫= f) (fun r s' => asked fl s0 d s' /\ exists a, r = Ok a /\ Q a) s.
Proof. intros Ha Hm Hf. by apply (answers_bind m f P Q). Qed.
Lemma answers_read {A} (f : StandardCacheManager -> MgrAct A) P : (forall s, asked fl s0 d s -> wp (f s) (fun r s' => asked fl s0 d s' /\ exists a, r = Ok a /\ P a) s) ->
  answers (s ← read id; f s) P fl s0 d.
Proof. intros Hf s Hs. apply wp_bind, wp_read. cbv beta iota. by apply Hf. Qed.

Lemma asked_snapshot s (g : StandardCacheManager -> StandardCacheManager) : asked fl s0 d s ->
  consulted s (g s) -> prefix_cache (g s) = prefix_cache s -> snapshot_depth (g s) = snapshot_depth s -> snapshot_true (g s) ->
  asked fl s0 d (g s).
Proof.
  intros [Hok Hc Hca Hsn] Hg Hp Hd Ht. split; [by apply (consulted_ok fl s)|by etrans| |done]. unfold trusted in *. by rewrite Hp, Hd.
Qed.
Lemma keep_freeable_snapshot s : asked fl s0 d s -> asked fl s0 d (s <| snapshot_freeable := Some (freeable s0) |>).
Proof.
  intros Ha. destruct (asked_parts s Ha) as (Hf & _). apply (asked_snapshot s (fun s => s <| snapshot_freeable := Some (freeable s0) |>)); try done.
  intros Hpos. destruct (as_snapshot _ _ _ _ Ha Hpos) as [_ Hn]. split; [|exact Hn]. cbn. intros X [= <-]. symmetry. exact Hf.
Qed.
Lemma keep_count_snapshot s : asked fl s0 d s ->
  asked fl s0 d (s <| snapshot_reclaimable := Some (size_of s0 * Z.of_nat (size (freeable s0))) |>).
Proof.
  intros Ha. destruct (asked_parts s Ha) as (Hf & _ & _ & Hcf & _).
  apply (asked_snapshot s (fun s => s <| snapshot_reclaimable := Some (size_of s0 * Z.of_nat (size (freeable s0))) |>)); try done.
  intros Hpos. destruct (as_snapshot _ _ _ _ Ha Hpos) as [Hx _]. split; [exact Hx|]. cbn. intros n [= <-].
  unfold freeable in Hf |- *. cbn. rewrite Hf. unfold size_of. cbn. by rewrite Hcf.
Qed.

Lemma capacity_ids_answers : answers prefix_freeable_block_ids_for_capacity (fun X => X = freeable s0) fl s0 d.
Proof.
  apply answers_read. intros s Ha. destruct (asked_parts s Ha) as (_ & _ & _ & _ & Hi & _). unfold id. case_bool_decide as Hc.
  { apply answers_ret; [|done]. symmetry. by apply (freeable_cases s). }
  assert (is_Some (prefix_cache s0)) as Hs0 by (apply Hi; destruct (prefix_cache s); [eauto|done]).
  destruct (Z.leb_spec (snapshot_depth s) 0) as [|Hpos]; [by apply freeable_blocks_answers|].
  destruct (snapshot_freeable s) as [X|] eqn:Hx.
  { apply answers_ret; [|done]. destruct (as_snapshot _ _ _ _ Ha Hpos) as [Hs _]. rewrite (Hs X Hx). apply (asked_parts s Ha). }
  apply (answers_bind_at s _ _ (fun X => X = freeable s0)); [done|by apply freeable_blocks_answers|]. intros X -> s' Ha'.
  apply wp_bind, wp_modify, wp_ret. split; [by apply keep_freeable_snapshot|by eexists].
Qed.
Definition reclaimable_slots : Z := size_of s0 * Z.of_nat (size (freeable s0)).
Lemma reclaimable_answers : answers prefix_step_reclaimable_slots (fun n => n = reclaimable_slots) fl s0 d.
Proof.
  apply answers_read. intros s Ha. unfold id. case_bool_decide as Hc.
  { apply answers_ret; [|done]. unfold reclaimable_slots. rewrite (freeable_cases s Ha Hc), size_empty. lia. }
  destruct (Z.ltb_spec 0 (snapshot_depth s)) as [Hpos|]; [destruct (snapshot_reclaimable s) as [n|] eqn:Hx|].
  { apply answers_ret; [|done]. destruct (as_snapshot _ _ _ _ Ha Hpos) as [_ Hs]. rewrite (Hs n Hx). destruct (asked_parts s Ha) as (Hf & _ & _ & Hcf & _).
    unfold reclaimable_slots, size_of. by rewrite Hf, Hcf. }
  all: apply (answers_bind_at s _ _ (fun X => X = freeable s0)); [done|by apply capacity_ids_answers|].
  all: intros X ->; apply answers_bind with (P := fun n => n = reclaimable_slots); [by apply resident_slots_answers|].
  all: intros n -> s' Ha'; apply wp_bind; unfold when; cbv iota; first [apply wp_modify, wp_ret|do 2 apply wp_ret].
  all: split; [first [exact Ha'|by apply keep_count_snapshot]|by eexists].
Qed.
Lemma free_and_reclaimable_answers : answers free_and_reclaimable (fun n => n = capacity s0) fl s0 d.
Proof.
  apply answers_bind with (P := fun n => n = reclaimable_slots); [apply reclaimable_answers|]. intros n ->. apply answers_read. intros s Ha.
  apply answers_ret; [|done]. destruct (asked_parts s Ha) as (_ & _ & Hn & _). unfold id. rewrite Hn. done.
Qed.

(** A step's report is the capacity, or stops where the step has enough. *)
Definition enough (most n : Z) : Prop := n <= capacity s0 /\ (n = capacity s0 \/ 0 < most <= n).
Lemma asked_size s : asked fl s0 d s -> 0 <= size_of s0 \/ prefix_cache s = None.
Proof.
  intros Ha. destruct (prefix_cache s) as [c|] eqn:Hc; [left|by right]. destruct (mgr_index _ _ _ (as_ok _ _ _ _ Ha) Hc) as (_ & _ & Hs).
  destruct (asked_parts s Ha) as (_ & _ & _ & Hcf & _). unfold size_of in *. rewrite <- Hcf. lia.
Qed.
Lemma free_below s : asked fl s0 d s -> num_free_slots s0 <= capacity s0.
Proof.
  intros Ha. unfold capacity. destruct (asked_size s Ha) as [|Hn]; [nia|]. rewrite (freeable_cases s Ha Hn), size_empty. lia.
Qed.
Lemma prefill_free_answers : answers std_prefill_step_free_slots (enough (std_max_num_batched_tokens (std_config s0))) fl s0 d.
Proof.
  apply answers_read. intros s Ha. unfold id. cbv zeta. destruct (asked_parts s Ha) as (_ & _ & Hn & Hcf & _). rewrite Hn, Hcf.
  destruct ((0 <? _) && (_ <=? num_free_slots s0)) eqn:Hb; bool_to_prop.
  - apply answers_ret; [|done]. split; [by apply (free_below s)|]. right. lia.
  - eapply wp_mono; [by apply free_and_reclaimable_answers|]. cbv beta. intros r s' (? & a & -> & ->). split; [done|]. eexists. split; [done|]. split; [lia|by left].
Qed.

Lemma evictable_below s (c : Cached) (X : gset bytes) : asked fl s0 d s -> prefix_cache s = Some c ->
  (forall id, id ∈ X <-> evictable_spec (the_index c) id) -> X ⊆ freeable s0.
Proof.
  intros Ha Hc HX id Hid%HX. destruct (asked_parts s Ha) as (<- & _). pose proof (mgr_index_inv fl s c (as_ok _ _ _ _ Ha) Hc) as Hinv.
  unfold freeable. rewrite Hc. apply freeable_set_spec; [done|]. apply freeable_seen; [apply Hinv|]. destruct Hid as [(o & b & Hg & Hb) Hno].
  split; [exists o, b; by rewrite Hg|]. intros x Hx o' b' Hg'. assert (x = id) as ->; [|by simplify_eq].
  apply rtc_inv_r in Hx as [Hx|(y & _ & Hy)]; [done|]. by apply (Hno y) in Hy.
Qed.
Lemma evictable_answers : answers prefix_immediately_evictable_slots (fun n => 0 <= n <= reclaimable_slots) fl s0 d.
Proof.
  apply answers_read. intros s Ha. unfold id. case_bool_decide as Hn.
  { apply answers_ret; [|done]. unfold reclaimable_slots. rewrite (freeable_cases s Ha Hn), size_empty. lia. }
  destruct (prefix_cache s) as [c|] eqn:Hc; [|done]. pose proof (mgr_index_inv fl s c (as_ok _ _ _ _ Ha) Hc) as Hinv.
  apply wp_bind. eapply wp_on_prefix; [exact Hc|]. eapply wp_mono; [apply (wp_and _ _ _ _ (evictable_block_ids_spec _ Hinv) (moves_evictable _ Hinv))|].
  cbv beta. intros r ix' ((Hinv' & Hcore & _ & X & -> & HX) & _ & Hl).
  assert (X ⊆ freeable s0) as Hsub by (by apply (evictable_below s c)).
  eapply wp_mono; [apply (resident_slots_answers X Hsub); by apply (asked_with_index s c)|]. cbv beta. intros r s' (Ha' & n & -> & ->). split; [done|].
  eexists. split; [done|]. destruct (asked_size s Ha) as [Hs|]; [|congruence]. apply subseteq_size in Hsub. unfold reclaimable_slots. nia.
Qed.
Lemma decode_free_answers : answers std_decode_step_free_slots (enough (std_max_decoding_seqs (std_config s0))) fl s0 d.
Proof.
  apply answers_read. intros s Ha. unfold id. cbv zeta. destruct (asked_parts s Ha) as (_ & _ & Hn & Hcf & _). rewrite Hn, Hcf.
  destruct ((0 <? _) && (_ <=? num_free_slots s0)) eqn:Hb; bool_to_prop.
  { apply answers_ret; [|done]. split; [by apply (free_below s)|]. right. lia. }
  apply (answers_bind_at s _ _ (fun n => 0 <= n <= reclaimable_slots)); [done|apply evictable_answers|]. intros n Hle.
  destruct ((0 <? _) && (_ <=? num_free_slots s0 + n)) eqn:Hb'; bool_to_prop.
  - apply answers_ret. split; [change (capacity s0) with (num_free_slots s0 + reclaimable_slots); lia|]. right. lia.
  - intros s' Ha'. eapply wp_mono; [by apply free_and_reclaimable_answers|]. cbv beta. intros r s2 (? & a & -> & ->). split; [done|]. eexists. split; [done|]. split; [lia|by left].
Qed.

(** ** Costs *)

(** The hit of the request: none, or the blocks of a path from the root. *)
Definition path_hit s q (path : list bytes) : Prop :=
  match path with [] => prefix_cache_hit_len (prefix_hit q) <= 0 | _ => is_Some (prefix_cache s) /\ 0 < prefix_cache_hit_len (prefix_hit q) /\ hit_whole s q path end.
Lemma chain_resident_answers X os (path : list bytes) : 
  Forall2 (fun o x => exists en, blk s0 !! x = Some en /\ e_obj en = o) os path ->
  answers (chain_resident X os) (fun n => n = size_of s0 * Z.of_nat (length (List.filter (fun x => bool_decide (x ∈ X)) path))) fl s0 d.
Proof.
  induction 1 as [|o x os path (en & Hen & Ho) _ IH]; cbn [chain_resident]; [apply answers_ret; cbn; lia|]. intros s Ha.
  destruct (asked_parts s Ha) as (_ & _ & _ & Hcf & Hi & Hb). rewrite <- Hb in Hen.
  destruct (prefix_cache s) as [c|] eqn:Hc; [|unfold blk in Hen; by rewrite Hc in Hen].
  pose proof (mgr_index_inv fl s c (as_ok _ _ _ _ Ha) Hc) as Hinv. rewrite (blk_index s c Hc) in Hen.
  destruct (seen_store _ _ _ (proj1 Hinv) Hen) as (b & Hg & Hst & Hid & _ & _ & _). rewrite Ho in *.
  apply wp_bind. eapply wp_on_prefix; [exact Hc|]. unfold wp, deref. rewrite Hst. cbn [fst snd].
  assert (with_index s c (the_index c) = s) as -> by (destruct s, c; cbn in *; by subst).
  apply wp_bind, wp_read. cbv beta iota. unfold id.
  apply (answers_bind_at s _ _ _ _ Ha IH). intros n -> s' Ha'. apply wp_ret. split; [done|]. eexists. split; [done|].
  rewrite (resident_block fl s c x o b (as_ok _ _ _ _ Ha) Hc Hg), Hid. cbn [List.filter]. unfold size_of. rewrite Hcf.
  repeat case_bool_decide; cbn [length]; lia || done.
Qed.

Lemma wp_on_cached {A} (m : Act PyExn Cached A) (Q : exc A -> StandardCacheManager -> Prop) s (c : Cached) :
  prefix_cache s = Some c -> wp m (fun x c' => Q x (s <| prefix_cache := Some c' |>)) c -> wp (on_cached m) Q s.
Proof. intros Hc. unfold wp, on_cached. rewrite Hc. by destruct (m c) as [a c']. Qed.
Lemma asked_hit_whole s q path : asked fl s0 d s -> hit_whole s0 q path -> hit_whole s q path.
Proof. intros Ha [H1 H2 H3]. destruct (asked_parts s Ha) as (_ & _ & _ & _ & _ & Hb). split; [done..|]. by rewrite Hb. Qed.
Lemma filter_meets (X : gset bytes) (path : list bytes) : NoDup path ->
  length (List.filter (fun x => bool_decide (x ∈ X)) path) = size (X ∩ list_to_set path).
Proof.
  induction 1 as [|x path Hx _ IH]; cbn [List.filter list_to_set]; [by rewrite (intersection_empty_r_L X), size_empty|].
  assert (x ∉ (list_to_set path : gset bytes)) as Hn by (by rewrite elem_of_list_to_set). case_bool_decide as Hin; cbn [length].
  - replace (X ∩ ({[x]} ∪ list_to_set path)) with ({[x]} ∪ X ∩ list_to_set path) by set_solver.
    rewrite size_union by set_solver. by rewrite size_singleton, IH.
  - rewrite IH. f_equal. set_solver.
Qed.

Lemma hit_capacity_answers q path : path <> [] -> path_hit s0 q path ->
  answers (prefix_hit_capacity_slots q) (fun x => x = (hit_cost s0 path, 0)) fl s0 d.
Proof.
  intros Hne Hhit. destruct path as [|x0 path0]; [done|]. set (path := x0 :: path0) in *. destruct Hhit as (Hs0 & Hlen & Hw).
  apply answers_read. intros s Ha. unfold id. destruct (asked_parts s Ha) as (Hfr & _ & _ & Hcf & Hi & Hb).
  destruct (proj2 Hi Hs0) as [c Hc]. rewrite bool_decide_eq_false_2 by congruence.
  destruct (hit_whole_chain fl s q path (as_ok _ _ _ _ Ha) ltac:(eauto) (asked_hit_whole s q path Ha Hw) Hne) as (os & (c' & b & Hc' & Hlast & Hget) & Hf).
  rewrite Hc in Hc'. injection Hc' as <-. rewrite Hb in Hf.
  apply wp_bind. eapply wp_on_cached; [exact Hc|]. eapply wp_mono; [apply hit_counts_ok; by apply (as_caches _ _ _ _ Ha)|]. cbv beta.
  intros r c1 (Hco & Hcore & He & Hr). pose proof (asked_cached s c c1 Ha Hc Hco Hcore) as Ha1.
  destruct r as [x|e]; [|by destruct (Hr b os Hlast)]. destruct Hr as [Hr|(e & Hent & last & Hlast' & Hchain)].
  { rewrite (hw_count _ _ _ Hw) in Hr. cbn in Hr. lia. }
  apply wp_bind. eapply wp_on_cached; [reflexivity|]. apply wp_read. cbv beta iota. rewrite Hent.
  match goal with |- wp _ _ ?y => replace y with (s <| prefix_cache := Some c1 |>) by done end.
  apply wp_bind, wp_ret. cbv beta iota. rewrite Hlast in Hlast'. injection Hlast' as <-.
  assert (cap_chain e = os) as ->.
  { assert (get_chain (the_index c1) b (prefix_cache_hit_block_count (prefix_hit q)) = Ok os) as Hget1; [|congruence].
    pose proof (mgr_index_inv fl s c (as_ok _ _ _ _ Ha) Hc) as Hinv.
    apply (get_chain_later (the_index c)); [apply Hinv|apply Hco|by apply core_later|unfold epoch_of; by rewrite He|done]. }
  apply (answers_bind_at _ _ _ (fun X => X = freeable s0) _ Ha1); [by apply freeable_blocks_answers|]. intros X ->.
  apply answers_bind with (P := fun n => n = hit_cost s0 path); [|intros n ->; by apply answers_ret].
  intros s2 Ha2. eapply wp_mono; [by apply (chain_resident_answers _ os path Hf)|]. cbv beta. intros r s3 (? & n & -> & ->). split; [done|].
  eexists. split; [done|]. unfold hit_cost. rewrite filter_meets; [done|]. apply (root_path_NoDup (parents (blk s0))), Hw.
Qed.
Lemma admission_cost_answers q path : path_hit s0 q path ->
  answers (std_prompt_admission_cost q) (fun n => n = num_prompt_tokens q - prefix_cache_hit_len (prefix_hit q) + hit_cost s0 path) fl s0 d.
Proof.
  intros Hhit. unfold std_prompt_admission_cost. cbv zeta. destruct path as [|x path].
  - cbn in Hhit. rewrite (proj2 (Z.leb_le _ 0)) by done. apply answers_ret. unfold hit_cost. cbn [list_to_set list_to_set].
    rewrite (intersection_empty_r_L (freeable s0)), size_empty. lia.
  - pose proof Hhit as (_ & Hlen & _). rewrite (proj2 (Z.leb_gt _ 0)) by done.
    apply answers_bind with (P := fun y => y = (hit_cost s0 (x :: path), 0)); [by apply hit_capacity_answers|]. intros y ->. apply answers_ret. lia.
Qed.
Lemma budgets_answers waiting : answers (std_prompt_admission_budgets waiting) (fun b =>
  b = <["rows"%string := Z.of_nat (length (free_rows s0))]> (<["slots"%string := Z.max 0 (capacity s0 - std_reserved_prefill_slots waiting)]> ∅)) fl s0 d.
Proof.
  apply answers_bind with (P := fun n => n = capacity s0); [apply free_and_reclaimable_answers|]. intros n ->. apply answers_read. intros s Ha.
  apply answers_ret; [|done]. unfold id. by rewrite (cs_frame _ _ (as_consulted _ _ _ _ Ha)).
Qed.

(** ** The refreshed hit *)

Definition hit_of s (path : list bytes) : PrefixHit :=
  match path with
  | [] => no_prefix_hit
  | _ => mkPrefixHit true (Z.of_nat (length path) * size_of s) (Z.of_nat (length path)) (last path) (size_of s) (std_sparse_method (std_config s))
  end.
(** The longest path of the index along the prompt's block ids, with a token of
    the prompt left to compute. *)
Record refreshed s q (path : list bytes) : Prop := {
  rf_whole : path = [] \/ is_Some (prefix_cache s) /\ root_path (parents (blk s)) path /\ Z.of_nat (length path) * size_of s < num_prompt_tokens q;
  rf_longest c : prefix_cache s = Some c -> num_prefilled_tokens q = 0 -> num_completion_tokens q = 0 ->
    exists usable ids h, usable_prefix_cache_tokens (num_prompt_tokens q) (size_of s) = Ok usable /\
      block_ids_of_tokens (size_of s) (fingerprint (PrefixIndex.config (the_index c))) (prompt_token_ids q) (Some usable) = Ok ids /\
      longest_hit (the_index c) ids h /\ path = take h ids;
}.
Lemma refreshed_path s q path : 0 < size_of s -> refreshed s q path -> path_hit s (q <| prefix_hit := hit_of s path |>) path.
Proof.
  intros Hs [[->|(Hc & Hp & _)] _]; [done|]. destruct path as [|x path]; [done|]. split; [done|]. cbn [prefix_hit hit_of prefix_cache_hit_len].
  split; [cbn; nia|]. by split.
Qed.
Lemma longest_hit_ext (ix ix' : Index) l h : (forall x, forest_of (backend ix') x = forest_of (backend ix) x) -> longest_hit ix l h -> longest_hit ix' l h.
Proof. intros Hf (H1 & H2 & H3). split_and!; [done|intros i x; rewrite Hf; apply H2|intros x; rewrite Hf; apply H3]. Qed.
Lemma longest_path c ids h : index_wf (the_index c) -> longest_hit (the_index c) ids h -> root_path (parents (seen (the_index c))) (take h ids).
Proof.
  intros Hwf (Hle & Hhit & _) i x Hi. rewrite (parents_seen _ Hwf). apply lookup_take_Some in Hi as [Hi Hlt]. rewrite (Hhit i x Hlt Hi).
  destruct i as [|j]; [done|]. rewrite lookup_take_lt by lia. done.
Qed.
Lemma refresh_answers q : caching s0 = bool_decide (is_Some (prefix_cache s0)) ->
  Z.of_nat (length (prompt_token_ids q)) = num_prompt_tokens q -> int64s (prompt_token_ids q) = true ->
  answers (std_refresh_prefix_cache_hit q) (fun hit => exists path, hit = hit_of s0 path /\ refreshed s0 q path) fl s0 d.
Proof.
  intros Hca Hlen Htoks. apply answers_read. intros s Ha. unfold id. destruct (asked_parts s Ha) as (_ & _ & _ & Hcf & Hi & Hb).
  assert (caching s = bool_decide (is_Some (prefix_cache s))) as Hcas.
  { unfold caching in *. rewrite Hcf. destruct (enable_prefix_caching (std_config s0)); cbn in *; [done|].
    symmetry in Hca. apply bool_decide_eq_false in Hca. by rewrite bool_decide_eq_false_2 by (by rewrite Hi). }
  destruct (negb (caching s) || _ || _) eqn:Hskip.
  { apply answers_ret; [|done]. exists []. split; [done|]. split; [by left|]. intros c Hc Hp Hq. rewrite Hcas, Hp, Hq in Hskip.
    rewrite bool_decide_eq_true_2 in Hskip by (apply Hi; eauto). done. }
  apply orb_false_elim in Hskip as [[Hc%negb_false_iff Hp%negb_false_iff%Z.eqb_eq]%orb_false_elim Hq%negb_false_iff%Z.eqb_eq].
  rewrite Hcas in Hc. apply bool_decide_eq_true in Hc as [c Hc]. destruct (mgr_index _ _ _ (as_ok _ _ _ _ Ha) Hc) as ([Hwf _] & Hbs & Hpos).
  pose proof (proj1 (as_caches _ _ _ _ Ha) c Hc) as Hco.
  destruct (waiting_hit c q (proj1 Hco) Hlen Htoks) as (u & ids & h & Hu & Hu1 & Hids & Hh & Hfit & Hrun). cbv zeta in *.
  assert (size_of s0 = size_of s) as Hsz by (unfold size_of; by rewrite Hcf).
  assert (refreshed s0 q (take h ids)) as Hrf.
  { split.
    - destruct Hfit as [->|Hfit]; [by left|right]. rewrite <- Hb, (blk_index s c Hc). split; [apply Hi; eauto|]. split; [by apply longest_path|].
      rewrite Hsz, <- Hbs, length_take_le by apply Hh. done.
    - intros c0 Hc0 _ _. exists u, ids, h. rewrite Hsz, <- Hbs. pose proof (cs_index _ _ (as_consulted _ _ _ _ Ha)) as Hix. unfold index_config in Hix.
      rewrite Hc, Hc0 in Hix. cbn in Hix. injection Hix as Hix. rewrite <- Hix. split_and!; [done|done| |done].
      apply (longest_hit_ext (the_index c)); [|done]. intros x. destruct (mgr_index _ _ _ Hok0 Hc0) as ([Hwf0 _] & _).
      rewrite <- (parents_seen _ Hwf), <- (parents_seen _ Hwf0), <- (blk_index s c Hc), <- (blk_index s0 c0 Hc0). by rewrite Hb. }
  assert (0 < size_of s0) as Hpos0 by lia. rewrite <- Hsz in Hbs. rewrite Hbs in Hu, Hfit, Hrun.
  apply wp_bind, wp_lift. rewrite Hcf. change (std_block_size (std_config s0)) with (size_of s0). rewrite Hu. cbv beta iota.
  destruct (Z.leb_spec u 0) as [Hu2|Hu2].
  { apply answers_ret; [|done]. exists []. split; [done|]. replace (take h ids) with ([] : list bytes) in Hrf; [done|]. by rewrite Hu1. }
  apply wp_bind. eapply wp_on_cached; [exact Hc|]. eapply wp_mono; [apply (wp_and _ _ _ _ Hrun (lookup_caches_ok q u c Hco))|]. cbv beta.
  intros r c' ((-> & Hf & _) & Hco' & _). pose proof (asked_cached s c c' Ha Hc Hco' (frame_core _ _ Hf)) as Ha'.
  assert (hit_of s0 (take h ids) = match h with O => no_prefix_hit | S _ => mkPrefixHit true (Z.of_nat h * size_of s0) (Z.of_nat h) (last (take h ids)) (size_of s0) (std_sparse_method (std_config s0)) end) as Hhit.
  { unfold hit_of. rewrite length_take_le by apply Hh. destruct h as [|n]; [done|]. destruct ids; [|done]. destruct Hh as [Hle _]. cbn in Hle. lia. }
  destruct h as [|n]; [apply answers_ret; [by exists (take 0 ids)|done]|]. set (h := S n) in *.
  rewrite (proj2 (Z.leb_gt (Z.of_nat h * size_of s0) 0)) by nia.
  apply wp_bind, wp_guard.
  { intros [Hn%bool_decide_eq_true_1|Hn%Z.leb_le]%orb_prop; [|lia].
    apply last_None in Hn. apply (f_equal length) in Hn. rewrite length_take_le in Hn by apply Hh. done. }
  intros _. apply wp_bind, wp_guard.
  { rewrite Z_mod_mult. intros [Hn%Z.leb_le|?]%orb_prop; [|done]. lia. }
  intros _. apply answers_ret; [by exists (take h ids)|done].
Qed.
End asked.
End reports.
