(* ===== verification/StandardMaterialize.v ===== *)
(** * The standard cache manager: handing blocks to the index

    [on_forward_end]: the full blocks of a step are inserted into the index, in
    order, while the blocks they build on are held.  A block the index takes
    owns its cells from then on; one it already had is only referenced. *)

From stdpp Require Import base gmap list strings.
From Stdlib Require Import ZArith Lia.
From S2P Require Import Prelude PyDict PyBytes Sha256 RoutingMembership RadixTree RadixForest PrefixHash.
From S2P Require Import PrefixIndex PrefixIndexFacts PrefixCapacity PrefixTransfer SamplingParams Sequence PrefixLookup.
From S2P Require Import StandardCache SlotRanges PrefixClient PrefixRefs StandardInvariant StandardMoves StandardIndex StandardSteps.
From S2P Require Import StandardRecord StandardRelease StandardAttach.

Section materialize.
Context `{Digest}.
Implicit Types (s : StandardCacheManager) (sid r : Z) (o : nat) (v l : list Z) (fl : Flight) (g : Z -> Z) (q : Sequence).
#[local] Abbreviation Index := (RadixPrefixIndex RadixTreeBackend).
#[local] Abbreviation MgrAct := (Act PyExn StandardCacheManager).

(** The request's row and records, its ranges apart: [on_forward_end] gives
    cells of the row to blocks. *)
Definition remains sid s s' : Prop := stays sid (s <| seq_id_to_cached_ranges := seq_id_to_cached_ranges s' |>) s'.
Lemma stays_remains sid s s' : stays sid s s' -> remains sid s s'.
Proof. by intros []. Qed.
#[global] Instance remains_refl sid : Reflexive (remains sid).
Proof. intros s. by split. Qed.
#[global] Instance remains_trans sid : Transitive (remains sid).
Proof.
  intros s1 s2 s3 [A1 A2 A3 A4 A5 A6 _] [B1 B2 B3 B4 B5 B6 _]. cbn in *. split; cbn; try done; try congruence; [by rewrite B2|].
  intros r Hr. rewrite <- A3 in Hr. destruct (B4 r Hr) as [E1 E2]. rewrite A3 in Hr. destruct (A4 r Hr) as [F1 F2].
  split; [etrans; [exact E1|exact F1]|etrans; [exact E2|exact F2]].
Qed.

(** ** Moves *)

Definition unpended sid s : StandardCacheManager := s <| pending_prefix_blocks ::= delete sid |>.
Lemma unpended_ok fl s sid : mgr_ok fl s -> mgr_ok fl (unpended sid s).
Proof.
  intros [Hs Hix Hb Hrf Hsq Hc]. split; try done; [split; apply Hs|]. intros sid'. specialize (Hsq sid').
  change (seq_id_to_row (unpended sid s)) with (seq_id_to_row s). destruct (decide (sid' = sid)) as [->|Hne].
  - destruct (seq_id_to_row s !! sid) as [r|].
    + destruct Hsq as [Hl Ha Hg Hrs Hrec Hbk Hd]. change (size_of (unpended sid s)) with (size_of s). split; try done. unfold recorded in *. cbn in *. unfold unpended. cbn. rewrite lookup_delete_eq.
      destruct (prefix_runtime_states s !! sid) as [st|] eqn:Hst; cbn in *.
      * pose proof (state_size s sid Hix ltac:(rewrite Hst; eauto)) as Hbs.
        destruct Hrec as (k & Hn & Hk & Ha' & Hkr & _ & HR & Hpt & Hcs & Hi). exists (next_logical_block_idx st). cbn. split_and!; try done; try lia.
        eapply ranges_between_weaken; [..|exact Hkr]; [lia|]. apply Z.mul_le_mono_nonneg_r; lia.
      * destruct Hrec as [_ ?]. done.
    + destruct Hsq as (? & ? & ? & ? & ?). unfold absent, unpended. cbn. split_and!; try done. apply lookup_delete_eq.
  - destruct (seq_id_to_row s !! sid') as [r'|].
    + replace (view (unpended sid s) sid' r') with (view s sid' r'); [exact Hsq|]. unfold view, unpended. cbn. by rewrite lookup_delete_ne.
    + destruct Hsq as (? & ? & ? & ? & ?). unfold absent, unpended. cbn. split_and!; try done. by rewrite lookup_delete_ne.
Qed.

Definition given sid (os : list nat) s : StandardCacheManager :=
  s <| seq_id_to_materialized_blocks ::= fun m => <[sid := default [] (m !! sid) ++ os]> m |>.
Lemma given_ok refs l g s sid r os : mgr_ok (mkFlight (os ++ refs) l g) s -> seq_id_to_row s !! sid = Some r ->
  mgr_ok (mkFlight refs l g) (given sid os s).
Proof.
  intros [Hs Hix Hb Hrf Hsq Hc] Hr. split; try done; [split; apply Hs| |]; cbn in *.
  - unfold refs_ok in *. change (blk (given sid os s)) with (blk s). eapply counted_perm; [|exact Hrf]. unfold holders, given. cbn.
    rewrite (flat_default (seq_id_to_materialized_blocks s) sid), flat_insert_delete. solve_Permutation.
  - intros sid'. specialize (Hsq sid'). change (seq_id_to_row (given sid os s)) with (seq_id_to_row s). destruct (decide (sid' = sid)) as [->|Hne].
    + rewrite Hr in *. destruct Hsq as [Hl Ha Hg Hrs Hrec Hbk Hd]. split; try done. cbn in *. unfold given. cbn. rewrite lookup_insert_eq. cbn.
      eapply Forall_impl; [exact Hbk|]. intros ab (id & en & ? & Ho & ?). exists id, en. split_and!; [done| |done].
      rewrite !elem_of_app in *. naive_solver.
    + destruct (seq_id_to_row s !! sid') as [r'|].
      * replace (view (given sid os s) sid' r') with (view s sid' r'); [exact Hsq|]. unfold view, given. cbn. by rewrite lookup_insert_ne.
      * destruct Hsq as (? & ? & ? & ? & ?). unfold absent, given. cbn. split_and!; try done. by rewrite lookup_insert_ne.
Qed.

(** A block of the row the index took: it owns the [k]-th cells from here on. *)
Definition handed sid o (k bs : Z) (c : CachedIndex RadixTreeBackend) s : StandardCacheManager :=
  mkStandard (std_config s) (free_slots_stack s) (num_free_slots s) (buffer_req_to_token_slots s)
    (seq_id_to_row s) (free_rows s) (row_seq_lens s) (row_logical_lens s)
    (layer_batch_state s) (Some c) (payloads s) (seq_id_to_prefix_blocks s)
    (<[sid := ranges_of s sid ++ [(k * bs, k * bs + bs)]]> (seq_id_to_cached_ranges s))
    (<[sid := default [] (seq_id_to_materialized_blocks s !! sid) ++ [o]]> (seq_id_to_materialized_blocks s))
    (prefix_runtime_states s) (pending_prefix_blocks s)
    (snapshot_depth s) (snapshot_freeable s) (snapshot_reclaimable s).

(** The blocks [ps] still to be handed over, the first at index [k]. *)
Record to_hand s sid r (k : Z) (ps : list PendingPrefixBlock) : Prop := {
  th_row : seq_id_to_row s !! sid = Some r;
  th_pend : default [] (pending_prefix_blocks s !! sid) = [];
  th_ranges : ranges_between 0 (ranges_of s sid) (k * size_of s);
  th_at : pending_at (size_of s) (payloads s) (cells s r) k ps;
  th_att : Z.of_nat (length (default [] (seq_id_to_prefix_blocks s !! sid))) <= k;
  th_state : exists st, prefix_runtime_states s !! sid = Some st /\ next_logical_block_idx st = k + Z.of_nat (length ps);
}.

Lemma slice_private s sid r z a b x : seq_id_to_row s !! sid = Some r -> ranges_between 0 (ranges_of s sid) z -> z <= a -> b <= len_of s r ->
  x ∈ slice a b (cells s r) -> x ∈ flat (private s).
Proof.
  intros Hr Hrs Ha Hb Hx. apply elem_of_flat. exists sid, (private_of s sid r). rewrite lookup_private, Hr. split; [done|].
  unfold private_of. by eapply complement_tail.
Qed.

(** The entry of a pending block that became an object of the index. *)
Definition handed_entry o (p : PendingPrefixBlock) : Entry := mkEntry o (pending_payload p) 1 on_device (pending_parent_id p) 0.

Section handed.
Context (refs : list nat) l g s sid r (k : Z) (p : PendingPrefixBlock) (ps : list PendingPrefixBlock) (c : CachedIndex RadixTreeBackend) (ix' : Index) (id : bytes) o.
Context (Hok : mgr_ok (mkFlight refs l g) s) (Hc : prefix_cache s = Some c) (Hth : to_hand s sid r k (p :: ps)).
Context (Hst : client_step (the_index c) ix') (Hnew : seen (the_index c) !! id = None)
  (Hseen : seen ix' = <[id := handed_entry o p]> (seen (the_index c)))
  (Hfresh : forall id' en, seen (the_index c) !! id' = Some en -> e_obj en <> o).
Context (c' : CachedIndex RadixTreeBackend) (Hc' : the_index c' = ix').
#[local] Notation s' := (handed sid o k (size_of s) c' s).

Let Hbs : 0 < size_of s := proj2 (proj2 (mgr_index _ _ _ Hok Hc)).
Let Hbl : blk s = seen (the_index c) := blk_index s c Hc.
Let Hr : seq_id_to_row s !! sid = Some r := th_row _ _ _ _ _ Hth.

Lemma handed_blk : blk s' = <[id := handed_entry o p]> (blk s).
Proof. rewrite Hbl, <- Hseen. unfold blk. cbn. by rewrite Hc'. Qed.
Lemma handed_slots : owns (size_of s) (payloads s) (pending_payload p) (pending_block_slots p) /\
  pending_block_slots p = slice (k * size_of s) (k * size_of s + size_of s) (cells s r).
Proof.
  destruct (th_at _ _ _ _ _ Hth) as [(_ & Ho & Hsl) _]. split; [done|]. rewrite Hsl. f_equal. lia.
Qed.
Lemma handed_bound : exists st, prefix_runtime_states s !! sid = Some st /\ (k + 1) * size_of s <= next_logical_block_idx st * size_of s /\
  next_logical_block_idx st * size_of s <= len_of s r - g sid /\ 0 <= g sid.
Proof.
  destruct (th_state _ _ _ _ _ Hth) as (st & Hs & Hn). cbn [length] in Hn. exists st. split; [done|].
  pose proof (mo_seqs _ _ Hok sid) as Hw. rewrite Hr in Hw. destruct Hw as [_ _ Hg _ Hrec _ _]. unfold recorded in Hrec. cbn in Hrec, Hg. rewrite Hs in Hrec.
  destruct Hrec as (k' & _ & _ & _ & _ & _ & HR & _). split; [nia|]. cbn in HR. lia.
Qed.

Lemma handed_conserved : conserved l s'.
Proof.
  destruct handed_slots as [Ho Hsl]. destruct handed_bound as (st & _ & H1 & H2 & Hg). pose proof (mo_conserved _ _ Hok) as Hco. cbn in Hco.
  unfold conserved in *. change (std_config s') with (std_config s). rewrite <- Hco. change (free s') with (free s).
  assert (shared s' = <[id := pending_block_slots p]> (shared s)) as ->.
  { unfold shared at 1. rewrite handed_blk. unfold shared_of. rewrite fmap_insert. cbn. by rewrite (owns_slots _ _ _ _ Ho). }
  rewrite flat_insert by (rewrite lookup_shared, Hbl, Hnew; done).
  rewrite (private_update s s' sid r); [|done|exact Hr|].
  2:{ intros sid' r' Hr' Hne. unfold private_of, ranges_of. cbn. by rewrite lookup_insert_ne. }
  rewrite (private_split s sid r Hr).
  enough (private_of s sid r ≡ₚ pending_block_slots p ++ private_of s' sid r) as -> by solve_Permutation.
  assert (ranges_of s' sid = ranges_of s sid ++ [(k * size_of s, k * size_of s + size_of s)]) as Hrs' by (unfold ranges_of at 1; cbn; by rewrite lookup_insert_eq).
  unfold private_of. rewrite Hrs'. change (cells s' r) with (cells s r). change (len_of s' r) with (len_of s r).
  pose proof (th_ranges _ _ _ _ _ Hth) as Hrs.
  apply (Permutation_app_inv_r (slices (cells s r) (ranges_of s sid))). rewrite complement_slices.
  2:{ eapply ranges_between_weaken; [..|exact Hrs]; [lia|nia]. }
  rewrite <- (complement_slices (cells s r) (ranges_of s sid ++ [(k * size_of s, k * size_of s + size_of s)])).
  2:{ eapply ranges_between_weaken; [| |apply ranges_between_snoc; [exact Hrs|]]; lia. }
  unfold slices. rewrite fmap_app, concat_app. cbn. rewrite app_nil_r, <- Hsl. solve_Permutation.
Qed.

Lemma handed_counted : counted (blk s') (refs ++ holders s').
Proof.
  pose proof (mo_refs _ _ Hok) as Hrf. unfold refs_ok in Hrf. cbn in Hrf.
  assert (refs ++ holders s' ≡ₚ o :: refs ++ holders s) as Hp.
  { unfold holders. cbn. rewrite (flat_default (seq_id_to_materialized_blocks s) sid), flat_insert_delete. solve_Permutation. }
  eapply counted_perm; [symmetry; exact Hp|]. rewrite handed_blk.
  assert (count_occ Nat.eq_dec (refs ++ holders s) o = 0%nat) as H0.
  { apply count_occ_not_In. intros Hin%list_elem_of_In. destruct Hrf as [_ Hf]. rewrite Forall_forall in Hf.
    destruct (Hf o Hin) as (id' & en & Hen & Heo). rewrite Hbl in Hen. by destruct (Hfresh id' en Hen). }
  assert (blk s !! id = None) as Hnone by (by rewrite Hbl). split.
  - intros id' en Hen. destruct (decide (id' = id)) as [->|Hne].
    + rewrite lookup_insert_eq in Hen. injection Hen as <-. cbn [e_obj e_refs handed_entry]. rewrite count_occ_cons_eq, H0 by done. done.
    + rewrite lookup_insert_ne in Hen by done. rewrite (proj1 Hrf id' en Hen). rewrite count_occ_cons_neq; [done|].
      rewrite Hbl in Hen. intros E. by apply (Hfresh id' en Hen).
  - constructor; [exists id; eexists; by rewrite lookup_insert_eq|]. eapply Forall_impl; [apply Hrf|].
    intros o' (id' & en & Hen & <-). exists id', en. split; [|done]. rewrite lookup_insert_ne; [done|congruence].
Qed.

Lemma handed_ok : mgr_ok (mkFlight refs l g) s' /\ to_hand s' sid r (k + 1) ps /\ (forall sid', remains sid' s s').
Proof.
  destruct handed_slots as [Ho Hsl]. destruct handed_bound as (st & Hst' & H1 & H2 & Hg). pose proof handed_blk as Hblk.
  assert (blk s !! id = None) as Hnone by (by rewrite Hbl). pose proof (th_ranges _ _ _ _ _ Hth) as Hkr.
  assert (ranges_of s' sid = ranges_of s sid ++ [(k * size_of s, k * size_of s + size_of s)]) as Hrs' by (unfold ranges_of at 1; cbn; by rewrite lookup_insert_eq).
  assert (ranges_between 0 (ranges_of s' sid) ((k + 1) * size_of s)) as Hkr'.
  { rewrite Hrs'. replace ((k + 1) * size_of s) with (k * size_of s + size_of s) by lia. apply ranges_between_snoc; [done|lia]. }
  split; [split|split]; cbn [extra_refs loose gap].
  - split; apply (mo_shape _ _ Hok).
  - pose proof (mo_index _ _ Hok) as Hix. unfold index_ok, index_of in *. rewrite Hc in Hix. cbn in *. destruct Hst as [Hinv' Hcf]. rewrite Hc', Hcf. by destruct Hix as (? & _ & ?).
  - intros id' en Hen. rewrite Hblk in Hen. apply lookup_insert_Some in Hen as [[<- <-]|[_ Hen]]; [split; [done|eauto]|by apply (mo_blocks _ _ Hok id')].
  - exact handed_counted.
  - intros sid'. pose proof (mo_seqs _ _ Hok sid') as Hsq. cbn in Hsq. change (seq_id_to_row s') with (seq_id_to_row s).
    assert (forall id' en, blk s !! id' = Some en -> blk s' !! id' = Some en) as Hkeep.
    { intros id' en Hen. rewrite Hblk, lookup_insert_ne; [done|congruence]. }
    destruct (decide (sid' = sid)) as [->|Hne].
    + rewrite Hr in *. destruct Hsq as [Hl Ha _ Hrs Hrec Hbk Hd]. cbn in Hl, Ha, Hrs, Hbk, Hd. unfold recorded in Hrec. cbn in Hrec.
      rewrite Hst', (th_pend _ _ _ _ _ Hth) in Hrec. destruct Hrec as (k' & Hn & Hk & Ha' & _ & Hpa & HR & Hpt & Hcs & Hi). cbn in Hn.
      change (size_of s') with (size_of s). split; cbn; try done.
      * change (len_of s' r) with (len_of s r). eapply ranges_between_weaken; [..|exact Hkr']; lia.
      * unfold recorded. cbn. rewrite Hst', (th_pend _ _ _ _ _ Hth). exists k'. cbn. rewrite Z.add_0_r in Hn |- *. subst k'.
        split_and!; try done. eapply ranges_between_weaken; [..|exact Hkr']; lia.
      * rewrite Hrs', lookup_insert_eq. cbn. apply Forall_app. split.
        -- eapply Forall_impl; [exact Hbk|]. intros ab (id' & en & Hen & Hin & Heq). exists id', en. split_and!; [by apply Hkeep| |done].
           rewrite !elem_of_app in *. naive_solver.
        -- constructor; [|done]. exists id, (handed_entry o p).
           change (blk s' !! id = Some (handed_entry o p) /\ o ∈ default [] (seq_id_to_prefix_blocks s !! sid) ++
             default [] (seq_id_to_materialized_blocks s !! sid) ++ [o] /\ slots_of (payloads s) (pending_payload p) =
             slice (k * size_of s) (k * size_of s + size_of s) (cells s r)). rewrite Hblk, lookup_insert_eq.
           split; [done|]. split; [rewrite !elem_of_app, list_elem_of_singleton; auto|]. rewrite (owns_slots _ _ _ _ Ho). exact Hsl.
    + destruct (seq_id_to_row s !! sid') as [r'|] eqn:Hr'.
      * replace (view s' sid' r') with (view s sid' r') by (unfold view, ranges_of; cbn; by rewrite !lookup_insert_ne).
        eapply seq_ok_mono; [..|exact Hsq]; [|by intros]. intros id' en Hen _. exists en. split; [by apply Hkeep|done].
      * destruct Hsq as (? & ? & ? & ? & ?). unfold absent. cbn. rewrite !lookup_insert_ne by done. done.
  - exact handed_conserved.
  - destruct (th_state _ _ _ _ _ Hth) as (st2 & ? & Hn). cbn [length] in Hn. split; try apply Hth.
    + exact Hkr'.
    + pose proof (th_att _ _ _ _ _ Hth). cbn. lia.
    + exists st2. split; [done|]. lia.
  - intros sid'. by split; rewrite ?Hc.
Qed.
End handed.

(** ** Running the operations *)

Lemma to_hand_skip s sid r k p ps : 0 <= size_of s -> to_hand s sid r k (p :: ps) -> to_hand s sid r (k + 1) ps.
Proof.
  intros Hbs [Hr Hp Hrs [_ Hat] Ha (st & Hst & Hn)]. cbn [length] in Hn. split; try done.
  - eapply ranges_between_weaken; [..|exact Hrs]; [lia|nia].
  - lia.
  - exists st. split; [done|lia].
Qed.
Lemma to_hand_payloads s s' sid r k ps : to_hand s sid r k ps -> seq_id_to_row s' = seq_id_to_row s ->
  pending_prefix_blocks s' = pending_prefix_blocks s -> seq_id_to_cached_ranges s' = seq_id_to_cached_ranges s -> cells s' r = cells s r ->
  std_config s' = std_config s -> seq_id_to_prefix_blocks s' = seq_id_to_prefix_blocks s -> prefix_runtime_states s' = prefix_runtime_states s ->
  (forall p v, p ∈ ps -> owns (size_of s) (payloads s) (pending_payload p) v -> owns (size_of s) (payloads s') (pending_payload p) v) ->
  to_hand s' sid r k ps.
Proof.
  intros [Hr Hp Hrs Hat Ha Hst] E1 E2 E3 E4 E5 E6 E7 Hpay. unfold ranges_of, size_of in *.
  split; unfold ranges_of, size_of; rewrite ?E1, ?E2, ?E3, ?E4, ?E5, ?E6, ?E7; try done. by eapply pending_at_mono.
Qed.
Lemma to_hand_private refs l g s sid r k ps p x : mgr_ok (mkFlight refs l g) s -> is_Some (prefix_cache s) -> to_hand s sid r k ps -> p ∈ ps ->
  owns (size_of s) (payloads s) (pending_payload p) (pending_block_slots p) /\ (x ∈ pending_block_slots p -> x ∈ flat (private s)).
Proof.
  intros Hok [c Hc] Hth Hp. destruct (mgr_index _ _ _ Hok Hc) as (_ & _ & Hbs).
  destruct (pending_at_elem (size_of s) _ _ _ _ p ltac:(lia) (th_at _ _ _ _ _ Hth) Hp) as (Ho & k' & Hk' & Hsl). split; [done|].
  intros Hx. destruct (th_state _ _ _ _ _ Hth) as (st & Hst & Hn). pose proof (mo_seqs _ _ Hok sid) as Hw. rewrite (th_row _ _ _ _ _ Hth) in Hw.
  destruct Hw as [_ _ Hg _ Hrec _ _]. unfold recorded in Hrec. cbn in Hrec, Hg. rewrite Hst in Hrec. destruct Hrec as (k2 & _ & _ & _ & _ & _ & HR & _).
  rewrite Hsl in Hx. eapply (slice_private s sid r (k * size_of s)); [apply Hth|apply Hth| | |exact Hx]; [nia|].
  assert ((k' + 1) * size_of s <= next_logical_block_idx st * size_of s) by (apply Z.mul_le_mono_nonneg_r; lia). lia.
Qed.
Lemma to_hand_quiet refs l g s s' sid r k ps : mgr_ok (mkFlight refs l g) s -> is_Some (prefix_cache s) -> quiet s s' -> to_hand s sid r k ps -> to_hand s' sid r k ps.
Proof.
  intros Hok Hca Hq Hth. pose proof Hca as [c Hc]. destruct (mgr_index _ _ _ Hok Hc) as (_ & _ & Hbs). pose proof Hq as [F _ Ho].
  eapply to_hand_payloads; [exact Hth|by rewrite F..|]. intros p v Hp Hv.
  destruct (pending_block_slots p) as [|x w] eqn:E.
  - destruct (to_hand_private _ _ _ _ _ _ _ _ p 0 Hok Hca Hth Hp) as [Hown _]. rewrite E in Hown. destruct Hown as (_ & _ & _ & _ & Hl). cbn in Hl. lia.
  - destruct (to_hand_private _ _ _ _ _ _ _ _ p x Hok Hca Hth Hp) as [Hown Hx]. rewrite E in Hown, Hx.
    assert (v = x :: w) as -> by (by rewrite <- (owns_slots _ _ _ _ Hv), (owns_slots _ _ _ _ Hown)).
    eapply Ho; [done|by left|]. apply Hx. by left.
Qed.

Lemma attached_resident_ok s c os : prefix_cache s = Some c ->
  Forall (fun o => exists b v, store (the_index c) !! o = Some b /\ owns (size_of s) (payloads s) (payload b) v) os ->
  wp (attached_resident os) (fun x s' => x = Ok (Z.of_nat (length os) * size_of s) /\ s' = s) s.
Proof.
  intros Hc. induction 1 as [|o os (b & v & Hb & p & Hpl & Ht & Hret & Hl) _ IH]; cbn [attached_resident]; [by apply wp_ret|].
  apply wp_bind. eapply wp_on_prefix; [done|]. unfold wp at 1, deref. rewrite Hb. cbn [fst snd]. rewrite (with_index_id s c Hc).
  apply wp_bind. apply (wp_payload_of s _ b p); [done|]. apply wp_bind, wp_read. cbv beta iota. apply wp_bind.
  eapply wp_mono; [exact IH|]. cbv beta. intros x s' (-> & ->). apply wp_ret. split; [|done]. f_equal.
  unfold resident_tokens. rewrite Hret. unfold id, size_of. cbn [length]. lia.
Qed.

(** A second reference on a block the index already had. *)
Lemma hold_ok refs l g s sid r o : mgr_ok (mkFlight refs l g) s -> is_Some (prefix_cache s) -> seq_id_to_row s !! sid = Some r ->
  indexed_object (blk s) o ->
  wp (hold_materialized_prefix_block_ref sid o) (fun x s' => mgr_ok (mkFlight refs l g) s' /\ (forall sid', remains sid' s s') /\
    forall k ps, to_hand s sid r k ps -> to_hand s' sid r k ps) s.
Proof.
  intros Hok [c Hc] Hr Hidx. assert (forall sid', remains sid' s s) as Hst0 by done.
  unfold hold_materialized_prefix_block_ref. apply wp_bind, wp_read. cbv beta iota. apply wp_bind.
  pose proof Hidx as (key & en & Hen & Ho). eapply wp_deref_block; [done|done|done|exact Ho|]. intros b _ _ _. cbv beta iota. unfold id.
  apply wp_bind. eapply wp_on_prefix; [done|]. apply wp_ask. rewrite (with_index_id s c Hc).
  destruct (held_ids _ _) as [ids|e]; [|done].
  apply wp_when; intros Hin; [|done]. apply wp_bind, wp_guard; [intros Hg; bool_to_prop; congruence|]. intros _.
  apply wp_bind. eapply wp_mono; [by apply acquire_ok|]. cbv beta. intros x s1 (-> & Hok1 & c1 & ix' & Hc1 & -> & _).
  apply wp_modify. assert (c1 = c) as -> by congruence. split_and!.
  - by apply (given_ok refs l g _ sid r [o]).
  - intros sid'. etrans; [by apply stays_remains, (with_index_stays s c ix')|]. by split.
  - intros k ps Hth. by eapply to_hand_payloads.
Qed.

Record hit_matches s q : Prop := {
  hm_len : prefix_cache_hit_len (prefix_hit q) = prefix_cache_hit_block_count (prefix_hit q) * size_of s;
  hm_count : prefix_cache_hit_block_count (prefix_hit q) = Z.of_nat (length (default [] (seq_id_to_prefix_blocks s !! seq_id q)));
}.
Lemma hit_matches_remains s s' q : remains (seq_id q) s s' -> hit_matches s q -> hit_matches s' q.
Proof. intros [Hc _ _ _ Ha _ _] [H1 H2]. cbn in *. split; unfold size_of; by rewrite ?Hc, ?Ha. Qed.

Lemma mark_run refs l g s q r k p ps o id (c : CachedIndex RadixTreeBackend) (ix' : Index) : mgr_ok (mkFlight refs l g) s -> prefix_cache s = Some c ->
  to_hand s (seq_id q) r k (p :: ps) -> client_step (the_index c) ix' -> seen (the_index c) !! id = None ->
  seen ix' = <[id := handed_entry o p]> (seen (the_index c)) -> hit_matches s q ->
  (exists b, store ix' !! o = Some b /\ logical_block_idx b = k) ->
  wp (modify (fun s => s <| seq_id_to_materialized_blocks ::= fun m => <[seq_id q := default [] (m !! seq_id q) ++ [o]]> m |>) ;;
      mark_materialized_prefix_block q o)
    (fun x s' => x = Ok tt /\ s' = handed (seq_id q) o k (size_of s) (c <| the_index := ix' |>) s) (with_index s c ix').
Proof.
  intros Hok Hc Hth Hst Hnew Hseen Hhit (b & Hb & Hlog). destruct (mgr_index _ _ _ Hok Hc) as (Hinv & _ & Hbs).
  unfold mark_materialized_prefix_block. set (sid := seq_id q) in *.
  set (s1 := mkStandard (std_config s) (free_slots_stack s) (num_free_slots s) (buffer_req_to_token_slots s)
    (seq_id_to_row s) (free_rows s) (row_seq_lens s) (row_logical_lens s)
    (layer_batch_state s) (Some (c <| the_index := ix' |>)) (payloads s) (seq_id_to_prefix_blocks s)
    (<[sid := ranges_of s sid]> (seq_id_to_cached_ranges s))
    (<[sid := default [] (seq_id_to_materialized_blocks s !! sid) ++ [o]]> (seq_id_to_materialized_blocks s))
    (prefix_runtime_states s) (pending_prefix_blocks s)
    (snapshot_depth s) (snapshot_freeable s) (snapshot_reclaimable s)).
  assert (prefix_cache s1 = Some (c <| the_index := ix' |>)) as Hc1 by done.
  apply wp_bind, wp_modify. cbv beta iota. apply wp_bind, wp_read. cbv beta iota. apply wp_bind, wp_modify. cbv beta iota.
  match goal with |- wp _ _ ?x => change x with s1 end. apply wp_bind.
  eapply wp_mono; [apply (attached_resident_ok s1 _ _ Hc1)|].
  - change (Forall (fun o => exists b v, store ix' !! o = Some b /\ owns (size_of s) (payloads s) (payload b) v) (default [] (seq_id_to_prefix_blocks s !! sid))).
    rewrite Forall_forall. intros o' Ho'. pose proof (mo_refs _ _ Hok) as [_ Hf]. rewrite Forall_forall in Hf.
    destruct (Hf o') as (id' & en & Hen & <-).
    { apply elem_of_app. right. apply elem_of_app. left. by eapply flat_elem. }
    destruct (mo_blocks _ _ Hok _ _ Hen) as [_ (v & Hv)]. rewrite (blk_index s c Hc) in Hen.
    destruct (seen_store ix' id' en (proj1 (proj1 Hst))) as (b' & _ & Hb' & _ & Hp' & _); [rewrite Hseen, lookup_insert_ne; [done|congruence]|].
    exists b', v. by rewrite Hp'.
  - cbv beta. change (size_of s1) with (size_of s). intros x s' (-> & ->). cbn [fst snd].
    apply wp_bind. eapply wp_on_prefix; [exact Hc1|]. unfold wp at 1, deref. change (the_index (c <| the_index := ix' |>)) with ix'.
    rewrite Hb. cbn [fst snd]. change (with_index s1 (c <| the_index := ix' |>) ix') with s1.
    match goal with |- context [guard_not (?n <? 0)] => replace n with (k * size_of s) end.
    2:{ rewrite (hm_len _ _ Hhit), (hm_count _ _ Hhit), Hlog. fold sid. unfold size_of. cbn. lia. }
    assert (0 <= k) as Hk by (pose proof (th_att _ _ _ _ _ Hth); lia).
    apply wp_bind, wp_guard; [intros Hg; bool_to_prop; nia|]. intros _. apply wp_modify. split; [done|].
    unfold handed, s1. cbn. rewrite lookup_insert_eq, insert_insert_eq. done.
Qed.


(** ** One block, one request, all requests *)

Definition handing refs l g s q r k ps (x : exc unit) s' : Prop :=
  mgr_ok (mkFlight refs l g) s' /\ (forall sid', remains sid' s s') /\
  match x with Ok _ => to_hand s' (seq_id q) r k ps | Raise _ => True end.

Lemma inserted_ok refs l g s q r k p ps o o' (c : CachedIndex RadixTreeBackend) (ix' : Index) :
  mgr_ok (mkFlight refs l g) s -> prefix_cache s = Some c -> to_hand s (seq_id q) r k (p :: ps) -> hit_matches s q ->
  client_step (the_index c) ix' -> (forall id en, seen (the_index c) !! id = Some en -> e_obj en <> o) ->
  match seen (the_index c) !! pending_block_id p with
  | Some en => o' = e_obj en /\ seen ix' = seen (the_index c)
  | None => o' = o /\ seen ix' = <[pending_block_id p := handed_entry o p]> (seen (the_index c)) /\
      exists b, store ix' !! o = Some b /\ logical_block_idx b = k
  end ->
  wp (if negb (bool_decide (o' = o)) then hold_materialized_prefix_block_ref (seq_id q) o'
      else modify (fun s => s <| seq_id_to_materialized_blocks ::= fun m => <[seq_id q := default [] (m !! seq_id q) ++ [o']]> m |>) ;;
           mark_materialized_prefix_block q o')
    (handing refs l g s q r (k + 1) ps) (with_index s c ix').
Proof.
  intros Hok Hc Hth Hhit Hst Hfresh Hins. destruct (seen (the_index c) !! pending_block_id p) as [en|] eqn:Hen.
  - destruct Hins as (-> & Hs). rewrite bool_decide_eq_false_2 by (by eapply Hfresh). cbn [negb].
    pose proof (index_same s c ix' _ Hok Hc Hst Hs) as Hok'. assert (is_Some (prefix_cache (with_index s c ix'))) as Hca' by eauto.
    assert (to_hand (with_index s c ix') (seq_id q) r (k + 1) ps) as Hth'.
    { apply (to_hand_skip _ _ _ _ p); [destruct (mgr_index _ _ _ Hok Hc) as (_ & _ & ?); change (size_of (with_index s c ix')) with (size_of s); lia|].
      eapply to_hand_quiet; [exact Hok|by rewrite Hc|by apply with_index_quiet|done]. }
    eapply wp_mono; [apply (hold_ok refs l g _ (seq_id q) r (e_obj en) Hok' Hca')|].
    + apply Hth.
    + exists (pending_block_id p), en. change (blk (with_index s c ix')) with (seen ix'). by rewrite Hs.
    + cbv beta. intros x s' (Hok2 & Hst2 & Hth2). split; [done|]. split.
      * intros sid'. etrans; [by apply stays_remains, (with_index_stays s c ix')|done].
      * destruct x; [by apply Hth2|done].
  - destruct Hins as (-> & Hs & Hb). rewrite bool_decide_eq_true_2 by done. cbn [negb].
    eapply wp_mono; [by apply (mark_run refs l g s q r k p ps o (pending_block_id p) c ix')|]. cbv beta.
    intros x s' (-> & ->).
    destruct (handed_ok refs l g s (seq_id q) r k p ps c ix' (pending_block_id p) o Hok Hc Hth Hst Hen Hs Hfresh (c <| the_index := ix' |>) ltac:(done))
      as (Hok' & Hth' & Hst'). done.
Qed.

Lemma materialize_pending_ok refs l g s q r k p ps : mgr_ok (mkFlight refs l g) s -> is_Some (prefix_cache s) ->
  to_hand s (seq_id q) r k (p :: ps) -> hit_matches s q ->
  wp (materialize_pending q p) (handing refs l g s q r (k + 1) ps) s.
Proof.
  intros Hok Hca Hth Hhit. pose proof Hca as [c Hc]. unfold materialize_pending. apply wp_bind, wp_read. cbv beta iota.
  apply wp_bind. eapply wp_on_prefix; [done|]. apply wp_read. rewrite (with_index_id s c Hc).
  apply wp_bind. eapply wp_mono with (Q := fun x s1 => mgr_ok (mkFlight refs l g) s1 /\ quiet s s1).
  { apply wp_when; intros _; [by apply evict_for_insert_ok|]. split; [done|reflexivity]. }
  intros [[]|e] s1 [Hok1 Hq]; [|split; [done|]; split; [|done]; intros sid'; by apply stays_remains, quiet_stays].
  assert (to_hand s1 (seq_id q) r k (p :: ps)) as Hth1 by (by apply (to_hand_quiet refs l g s)).
  assert (hit_matches s1 q) as Hhit1 by (eapply hit_matches_remains; [by apply stays_remains, quiet_stays|done]).
  assert (is_Some (prefix_cache s1)) as [c1 Hc1] by (by apply (q_index _ _ Hq)).
  assert (forall x s', handing refs l g s1 q r (k + 1) ps x s' -> handing refs l g s q r (k + 1) ps x s') as Hback.
  { intros x s' (? & Hs' & ?). split; [done|]. split; [|done]. intros sid'. etrans; [by apply stays_remains, quiet_stays|done]. }
  clear c Hc. destruct (mgr_index _ _ _ Hok1 Hc1) as (Hinv & _ & _). unfold id.
  set (b := new_block _ p). destruct (construct_seen (the_index c1) b Hinv) as ([Hinv1 Hcf1] & Hs1 & Ho1 & Hfresh).
  set (o := fresh (dom (store (the_index c1)))) in *. set (ix1 := (the_index c1) <| store ::= <[o := b]> |>) in *.
  apply wp_bind. eapply wp_on_prefix; [done|]. unfold wp at 1, construct_block. cbn [fst snd]. fold o. fold ix1.
  apply wp_bind. eapply (wp_on_prefix _ _ _ (c1 <| the_index := ix1 |>)); [done|].
  eapply wp_mono; [apply (insert_seen ix1 o b Hinv1 Ho1); done|]. cbv beta. intros x ix2 ([Hinv2 Hcf2] & Hins).
  rewrite with_index_twice.
  assert (client_step (the_index c1) ix2) as Hst2 by (split; [done|congruence]). rewrite Hs1 in Hins.
  destruct x as [o'|e].
  - eapply wp_mono; [apply (inserted_ok refs l g s1 q r k p ps o o' c1 ix2); try done|exact Hback].
    change (stable_block_id b) with (pending_block_id p) in Hins. destruct (seen (the_index c1) !! pending_block_id p); [done|].
    destruct Hins as (? & ? & b' & ? & Hl). split_and!; [done|done|]. exists b'. split; [done|]. rewrite Hl.
    destruct (th_at _ _ _ _ _ Hth1) as [(? & _) _]. done.
  - apply Hback. split; [by apply index_same|]. split; [|done]. intros sid'. by apply stays_remains, with_index_stays.
Qed.

Lemma materialize_all_ok refs l g q r ps : forall s k, mgr_ok (mkFlight refs l g) s -> is_Some (prefix_cache s) ->
  to_hand s (seq_id q) r k ps -> hit_matches s q ->
  wp (for_each ps (materialize_pending q)) (fun _ s' => mgr_ok (mkFlight refs l g) s' /\ forall sid', remains sid' s s') s.
Proof.
  induction ps as [|p ps IH]; intros s k Hok Hca Hth Hhit; cbn [for_each]; [by apply wp_ret|].
  apply wp_bind. eapply wp_mono; [by apply (materialize_pending_ok refs l g s q r k p ps)|]. cbv beta.
  intros [[]|e] s1 (Hok1 & Hst & Hth1); [|done]. eapply wp_mono; [apply (IH s1 (k + 1) Hok1); [|done|]|].
  - by apply (st_index _ _ _ (Hst (seq_id q))).
  - by apply (hit_matches_remains s s1).
  - cbv beta. intros x s2 (Hok2 & Hst2). split; [done|]. intros sid'. etrans; [apply Hst|apply Hst2].
Qed.

Lemma acquire_protected_ok ids refs l g s : mgr_ok (mkFlight refs l g) s -> is_Some (prefix_cache s) ->
  wp (acquire_protected ids) (fun x s' => exists os, x = Ok os /\ mgr_ok (mkFlight (os ++ refs) l g) s' /\ quiet s s') s.
Proof.
  revert refs s. induction ids as [|key ids IH]; intros refs s Hok [c Hc]; cbn [acquire_protected].
  { apply wp_ret. exists []. by split_and!. }
  apply wp_bind. eapply wp_on_prefix; [done|]. apply wp_read. rewrite (with_index_id s c Hc).
  destruct (get_block (the_index c) key) as [[o b]|] eqn:Hg; [|by apply IH].
  apply wp_bind. eapply wp_mono; [apply (acquire_ok s refs l g o Hok)|].
  { exists key, (entry_of (o, b)). by rewrite (blk_index s c Hc), lookup_seen, Hg. }
  cbv beta. intros x s1 (-> & Hok1 & c1 & ix' & Hc1 & -> & _). assert (c1 = c) as -> by congruence.
  apply wp_bind. eapply wp_mono; [apply (IH (o :: refs) _ Hok1); eauto|]. cbv beta. intros x s2 (os & -> & Hok2 & Hq).
  apply wp_ret. exists (o :: os). split; [done|]. split.
  - eapply mgr_ok_perm; [|done|exact Hok2]. solve_Permutation.
  - etrans; [by apply (with_index_quiet s c ix')|exact Hq].
Qed.
Lemma release_blocks_ok os refs l g s : mgr_ok (mkFlight (os ++ refs) l g) s ->
  wp (release_prefix_blocks os) (fun x s' => x = Ok tt /\ mgr_ok (mkFlight refs l g) s' /\ quiet s s') s.
Proof.
  intros Hok. unfold release_prefix_blocks. apply wp_bind, wp_read. cbv beta iota. unfold id.
  apply wp_bind, wp_guard.
  { intros Hg. bool_to_prop. destruct os as [|o os]; [done|]. pose proof (mo_refs _ _ Hok) as [_ Hf]. cbn in Hf.
    apply Forall_cons in Hf as [(key & en & Hen & _) _]. unfold blk in Hen. by rewrite H0 in Hen. }
  intros _. revert s Hok. induction os as [|o os IH]; intros s Hok; cbn [for_each]; [by apply wp_ret|].
  apply wp_bind. eapply wp_mono; [by apply (release_ok s (os ++ refs) l g o)|]. cbv beta.
  intros x s1 (-> & Hok1 & c & ix' & Hc & ->). eapply wp_mono; [by apply IH|]. cbv beta. intros x s2 (-> & Hok2 & Hq).
  split_and!; [done|done|]. etrans; [by apply (with_index_quiet s c ix')|done].
Qed.

(** What waits when a forward pass ends: the row's blocks from the first that
    is in no range. *)
Definition opened sid s : StandardCacheManager := given sid [] (unpended sid s).
Lemma opened_to_hand refs l g s sid : mgr_ok (mkFlight refs l g) s -> default [] (pending_prefix_blocks s !! sid) <> [] ->
  exists r k, to_hand (opened sid s) sid r k (default [] (pending_prefix_blocks s !! sid)) /\ mgr_ok (mkFlight refs l g) (opened sid s).
Proof.
  intros Hok Hne. pose proof (mo_seqs _ _ Hok sid) as Hsq. destruct (seq_id_to_row s !! sid) as [r|] eqn:Hr.
  2:{ destruct Hsq as (_ & _ & _ & _ & Hn). by rewrite Hn in Hne. }
  destruct Hsq as [_ _ _ _ Hrec _ _]. unfold recorded in Hrec. cbn in Hrec. destruct (prefix_runtime_states s !! sid) as [st|] eqn:Hst; [|by destruct Hrec].
  destruct Hrec as (k & Hn & Hk & _ & Hrs & Hpa & _). exists r, k. split.
  - split; try done.
    + unfold opened, unpended. cbn. by rewrite lookup_delete_eq.
    + exists st. done.
  - apply (given_ok refs l g _ sid r []); [by apply unpended_ok|done].
Qed.
Lemma opened_remains sid s sid' : remains sid' s (opened sid s).
Proof. by split. Qed.

Lemma materialize_seq_ok refs l g s q : mgr_ok (mkFlight refs l g) s -> is_Some (prefix_cache s) -> hit_matches s q ->
  wp (materialize_seq q) (fun _ s' => mgr_ok (mkFlight refs l g) s' /\ forall sid', remains sid' s s') s.
Proof.
  intros Hok Hca Hhit. unfold materialize_seq. set (sid := seq_id q). apply wp_bind, wp_read. cbv beta iota zeta. unfold id.
  apply wp_bind, wp_modify. cbv beta iota. fold (unpended sid s). case_bool_decide as Hne.
  { apply wp_ret. split; [by apply unpended_ok|]. intros sid'. by split. }
  destruct (opened_to_hand refs l g s sid Hok Hne) as (r & k & Hth & Hok1). apply wp_bind, wp_modify. cbv beta iota.
  match goal with |- wp _ _ ?x => replace x with (opened sid s) by (unfold opened, given, unpended; cbn; by rewrite app_nil_r) end.
  set (s1 := opened sid s) in *. assert (is_Some (prefix_cache s1)) as Hca1 by done. pose proof Hca1 as [c Hc].
  apply wp_bind. eapply wp_on_prefix; [done|]. apply wp_read. rewrite (with_index_id s1 c Hc).
  apply wp_bind. eapply wp_mono; [by apply (acquire_protected_ok _ refs l g s1)|]. cbv beta. intros x s2 (os & -> & Hok2 & Hq).
  apply wp_finally. eapply wp_mono; [apply (materialize_all_ok (os ++ refs) l g q r _ s2 k Hok2)|].
  - by apply (q_index _ _ Hq).
  - by apply (to_hand_quiet refs l g s1).
  - apply (hit_matches_remains s1); [by apply stays_remains, quiet_stays|]. apply (hit_matches_remains s); [apply opened_remains|done].
  - cbv beta. intros x s3 (Hok3 & Hst3). eapply wp_mono; [by apply release_blocks_ok|]. cbv beta.
    intros x' s4 (-> & Hok4 & Hq4). split; [done|]. intros sid'.
    etrans; [apply opened_remains|]. etrans; [by apply stays_remains, quiet_stays|]. etrans; [apply Hst3|]. by apply stays_remains, quiet_stays.
Qed.

Lemma on_forward_end_ok refs l g s qs : mgr_ok (mkFlight refs l g) s -> Forall (hit_matches s) qs ->
  wp (on_forward_end qs) (fun _ s' => mgr_ok (mkFlight refs l g) s' /\ forall sid', remains sid' s s') s.
Proof.
  intros Hok Hq. unfold on_forward_end. apply wp_bind, wp_read. cbv beta iota. unfold id. apply wp_when; intros Hca; [|by split].
  assert (is_Some (prefix_cache s)) as Hc by (unfold caching in Hca; bool_to_prop; done). clear Hca.
  revert s Hok Hq Hc. induction qs as [|q qs IH]; intros s Hok Hq Hc; cbn [for_each]; [by apply wp_ret|].
  apply Forall_cons in Hq as [Hq Hqs]. apply wp_bind. eapply wp_mono; [by apply (materialize_seq_ok refs l g s q)|]. cbv beta.
  intros [[]|e] s1 (Hok1 & Hst); [|done]. eapply wp_mono; [apply (IH s1 Hok1)|].
  - eapply Forall_impl; [exact Hqs|]. intros q'. by apply (hit_matches_remains s s1).
  - by apply (st_index _ _ _ (Hst (seq_id q))).
  - cbv beta. intros x s2 (Hok2 & Hst2). split; [done|]. intros sid'. etrans; [apply Hst|apply Hst2].
Qed.
End materialize.
