(* ===== verification/StandardConsult.v ===== *)
(** * The standard cache manager: a scheduling pass

    The questions of a scheduling pass, asked one after another inside
    [scheduler_capacity_snapshot]: whatever was asked before, and whichever
    questions raised, a question finds the manager as it was when the pass
    began. *)

From stdpp Require Import base gmap list strings.
From Stdlib Require Import ZArith Lia.
From S2P Require Import Prelude PyDict PyBytes Sha256 RoutingMembership RadixTree RadixForest PrefixHash.
From S2P Require Import PrefixIndex PrefixIndexFacts PrefixCapacity PrefixTransfer PrefixCommit PrefixEviction PrefixControl PrefixEpochs PrefixFreeable.
From S2P Require Import SamplingParams Sequence PrefixLookup PrefixHits.
From S2P Require Import StandardCache StandardOracle SlotRanges PrefixClient PrefixRefs StandardInvariant StandardMoves StandardIndex.
From S2P Require Import StandardCaches StandardSteps StandardRecord StandardRelease StandardAttach StandardReports StandardMaterialize.

(** The questions of the scheduler and of the runtime state on its behalf. *)
Inductive Query :=
  | AskRefresh (q : Sequence)
  | AskAdmissionFree
  | AskCost (q : Sequence)
  | AskCosts (q : Sequence)
  | AskReservation (q : Sequence)
  | AskBudgets (waiting : list Sequence)
  | AskPrefillFree
  | AskDecodeFree.

Section consult.
Context `{Digest}.
Implicit Types (s : StandardCacheManager) (q : Sequence) (fl : Flight).
#[local] Abbreviation Index := (RadixPrefixIndex RadixTreeBackend).
#[local] Abbreviation Cached := (CachedIndex RadixTreeBackend).
#[local] Abbreviation MgrAct := (Act PyExn StandardCacheManager).

Definition run_query (x : Query) : MgrAct unit :=
  match x with
  | AskRefresh q => std_refresh_prefix_cache_hit q ;; mret tt
  | AskAdmissionFree => std_prompt_admission_free_slots ;; mret tt
  | AskCost q => std_prompt_admission_cost q ;; mret tt
  | AskCosts q => std_prompt_admission_costs q ;; mret tt
  | AskReservation q => std_prompt_logical_reservation_cost q ;; mret tt
  | AskBudgets waiting => std_prompt_admission_budgets waiting ;; mret tt
  | AskPrefillFree => std_prefill_step_free_slots ;; mret tt
  | AskDecodeFree => std_decode_step_free_slots ;; mret tt
  end.

Section asked.
Context (fl : Flight) (s0 : StandardCacheManager) (d : Z) (Hok0 : mgr_ok fl s0).
#[local] Abbreviation silent := (keep (asked fl s0 d)).

Lemma silent_answers {A} (m : MgrAct A) P : answers m P fl s0 d -> silent m.
Proof. intros Hm s Ha. eapply wp_mono; [by apply Hm|]. by intros r s' [? _]. Qed.
Lemma silent_on_prefix {A} (m : Act PyExn Index A) :
  (forall ix, index_inv ix -> wp m (fun _ ix' => index_inv ix' /\ core ix' = core ix /\ later ix ix') ix) -> silent (on_prefix m).
Proof.
  intros Hm s Ha. destruct (prefix_cache s) as [c|] eqn:Hc; [|unfold wp, on_prefix, on_cached; by rewrite Hc].
  eapply wp_on_prefix; [exact Hc|]. eapply wp_mono; [apply Hm; by apply (mgr_index_inv fl s c (as_ok _ _ _ _ Ha))|].
  cbv beta. intros r ix' (? & ? & ?). by apply (asked_with_index fl s0 d s c).
Qed.
Lemma silent_on_cached {A} (m : Act PyExn Cached A) :
  (forall c, caches_ok c -> wp m (fun _ c' => caches_ok c' /\ core (the_index c') = core (the_index c)) c) -> silent (on_cached m).
Proof.
  intros Hm s Ha. destruct (prefix_cache s) as [c|] eqn:Hc; [|unfold wp, on_cached; by rewrite Hc].
  eapply wp_on_cached; [exact Hc|]. eapply wp_mono; [apply Hm; by apply (as_caches _ _ _ _ Ha)|].
  cbv beta. intros r c' (? & ?). by apply (asked_cached fl s0 d s c).
Qed.
Lemma silent_freeable : silent (on_prefix freeable_block_ids).
Proof.
  apply silent_on_prefix. intros ix Hinv. eapply wp_mono; [by apply freeable_block_ids_spec|]. cbv beta. intros r ix' (? & ? & ? & _).
  split_and!; [done|done|by apply core_later].
Qed.
Lemma silent_deref o : silent (on_prefix (deref o)).
Proof. apply silent_on_prefix. intros ix Hinv. unfold wp, deref. destruct (store ix !! o); (split_and!; [done|done|apply later_refl]). Qed.
Lemma silent_ask {A} (f : Index -> exc A) : silent (on_prefix (ask f)).
Proof. apply silent_on_prefix. intros ix Hinv. split_and!; [done|done|apply later_refl]. Qed.
Lemma silent_counts q : silent (on_cached (prefix_hit_capacity_counts q false)).
Proof. apply silent_on_cached. intros c Hc. eapply wp_mono; [by apply hit_counts_ok|]. cbv beta. by intros r c' (? & ? & _). Qed.
Lemma silent_lookup q u : silent (on_cached (lookup_prefix_cache_hit q u)).
Proof.
  apply silent_on_cached. intros c Hc. eapply wp_mono; [by apply lookup_caches_ok|]. cbv beta. intros r c' (? & ?). split; [done|by apply frame_core].
Qed.
Lemma silent_read_cached {A} (f : Cached -> A) : silent (on_cached (read f)).
Proof. apply silent_on_cached. by intros c Hc. Qed.
#[local] Hint Resolve silent_freeable silent_deref silent_ask silent_counts silent_lookup silent_read_cached : keep.
Lemma silent_chain_resident X os : silent (chain_resident X os).
Proof. induction os; cbn [chain_resident]; keep_auto. Qed.
Lemma silent_free : silent free_and_reclaimable.
Proof. eapply silent_answers. by apply free_and_reclaimable_answers. Qed.
#[local] Hint Resolve silent_chain_resident silent_free : keep.
Lemma silent_cost q : silent (std_prompt_admission_cost q).
Proof. unfold std_prompt_admission_cost, prefix_hit_capacity_slots, prefix_hit_chain. keep_auto. Qed.
#[local] Hint Resolve silent_cost : keep.

(** A question changes nothing a later one could notice, even one that raises. *)
Lemma silent_query x : silent (run_query x).
Proof.
  destruct x; cbn [run_query]; (apply keep_bind; [|intros; apply keep_ret]).
  - unfold std_refresh_prefix_cache_hit. keep_auto.
  - exact silent_free.
  - auto with keep.
  - unfold std_prompt_admission_costs. keep_auto.
  - exact (silent_cost q).
  - unfold std_prompt_admission_budgets, std_prompt_admission_free_slots. keep_auto.
  - eapply silent_answers. by apply prefill_free_answers.
  - eapply silent_answers. by apply decode_free_answers.
Qed.
End asked.

(** ** The snapshot *)

Lemma enter_asked fl s0 d s : mgr_ok fl s0 -> 0 <= d -> asked fl s0 d s -> asked fl s0 (d + 1) (enter_snapshot s).2.
Proof.
  intros Hok0 Hd [Hok Hc Hca Hsn]. assert (consulted s (enter_snapshot s).2 /\ trusted (d + 1) (enter_snapshot s).2 /\ snapshot_true (enter_snapshot s).2) as (H1 & H2 & H3).
  { destruct Hca as [Hca Hdep]. unfold enter_snapshot, modify. cbn [snd]. cbv zeta. change (snapshot_depth (s <| snapshot_depth ::= Z.succ |>)) with (Z.succ (snapshot_depth s)). destruct (Z.eqb_spec (Z.succ (snapshot_depth s)) 1) as [E|E].
    - split_and!; [split; [reflexivity..|intros Hx; exact Hx]| |intros _; split; intros ? Hx; discriminate Hx]. split; [exact Hca|]. cbn. lia.
    - split_and!; [split; [reflexivity..|intros Hx; exact Hx]|split; [exact Hca|cbn; lia]|]. intros Hpos. cbn in Hpos. exact (Hsn ltac:(lia)). }
  split; [by apply (consulted_ok fl s)|by etrans|done|done].
Qed.
Lemma leave_asked fl s0 d s : mgr_ok fl s0 -> 0 <= d -> asked fl s0 (d + 1) s -> asked fl s0 d (leave_snapshot s).2.
Proof.
  intros Hok0 Hd [Hok Hc Hca Hsn]. assert (consulted s (leave_snapshot s).2 /\ trusted d (leave_snapshot s).2 /\ snapshot_true (leave_snapshot s).2) as (H1 & H2 & H3).
  { destruct Hca as [Hca Hdep]. unfold leave_snapshot, modify. cbn [snd]. cbv zeta. change (snapshot_depth (s <| snapshot_depth ::= Z.pred |>)) with (Z.pred (snapshot_depth s)). destruct (Z.eqb_spec (Z.pred (snapshot_depth s)) 0) as [E|E].
    - split_and!; [split; [reflexivity..|intros Hx; exact Hx]| |intros _; split; intros ? Hx; discriminate Hx]. split; [exact Hca|]. cbn. lia.
    - split_and!; [split; [reflexivity..|intros Hx; exact Hx]|split; [exact Hca|cbn; lia]|]. intros Hpos. cbn in Hpos. exact (Hsn ltac:(lia)). }
  split; [by apply (consulted_ok fl s)|by etrans|done|done].
Qed.
Lemma within_snapshot {A} fl s0 d (body : MgrAct A) (P : exc A -> Prop) s : mgr_ok fl s0 -> 0 <= d ->
  (forall s1, asked fl s0 (d + 1) s1 -> wp body (fun r s' => asked fl s0 (d + 1) s' /\ P r) s1) -> asked fl s0 d s ->
  wp (scheduler_capacity_snapshot body) (fun r s' => asked fl s0 d s' /\ P r) s.
Proof.
  intros Hok0 Hd Hbody Ha. unfold scheduler_capacity_snapshot. apply wp_bind. pose proof (enter_asked fl s0 d s Hok0 Hd Ha) as He.
  unfold wp at 1. change (enter_snapshot s).1 with (Ok tt : exc unit). cbv iota. apply wp_finally.
  eapply wp_mono; [by apply Hbody|]. cbv beta. intros r s1 [Ha1 Hr]. pose proof (leave_asked fl s0 d s1 Hok0 Hd Ha1) as Hl.
  unfold wp. change (leave_snapshot s1).1 with (Ok tt : exc unit). cbv iota. by split.
Qed.

Lemma asked_start fl s d : mgr_ok fl s -> trusted d s -> d <= 0 -> asked fl s d s.
Proof. intros Hok Ht Hd. split; [done|done|done|]. intros Hpos. destruct Ht as [_ Ht]. lia. Qed.

(** The pass: the questions in order; one that raises ends it. *)
Definition consult (xs : list Query) : MgrAct unit := scheduler_capacity_snapshot (for_each xs run_query).
Lemma consult_ok fl s xs : mgr_ok fl s -> trusted 0 s -> asked fl s 0 (consult xs s).2.
Proof.
  intros Hok Ht. apply (wp_run (consult xs) (fun _ s' => asked fl s 0 s')). eapply wp_mono.
  - apply (within_snapshot fl s 0 _ (fun _ => True) s Hok); [lia| |by apply asked_start]. intros s1 Ha1.
    eapply wp_mono; [apply (keep_for_each (asked fl s (0 + 1)) xs run_query); [intros x; by apply silent_query|exact Ha1]|]. by intros.
  - by intros r s' [? _].
Qed.
End consult.
