(* ===== verification/StandardPrefill.v ===== *)
(** * The standard cache manager: prefill steps

    [_prepare_prefill]: prefix hits attached, slots allocated for each chunk,
    the chunk's tokens recorded.  What the scheduler promises of a request is
    [request_ok]; every outcome keeps the invariant. *)

From stdpp Require Import base gmap list strings.
From Stdlib Require Import ZArith Lia.
From S2P Require Import Prelude PyDict PyBytes Sha256 RoutingMembership RadixTree RadixForest PrefixHash.
From S2P Require Import PrefixIndex PrefixIndexFacts PrefixCapacity PrefixTransfer SamplingParams Sequence PrefixLookup PrefixHits.
From S2P Require Import StandardCache SlotRanges PrefixClient PrefixRefs StandardInvariant StandardMoves StandardIndex StandardSteps.
From S2P Require Import StandardRecord StandardRelease StandardAttach.

Section prefill.
Context `{Digest}.
Implicit Types (s : StandardCacheManager) (sid r : Z) (o : nat) (v l : list Z) (fl : Flight) (g : Z -> Z) (q : Sequence).
#[local] Abbreviation MgrAct := (Act PyExn StandardCacheManager).

(** The manager between operations: some requests may have cells that were
    never recorded, those whose step raised. *)
Definition sound (refs : list nat) l s : Prop := exists g, mgr_ok (mkFlight refs l g) s.

(** ** What a request is ready for *)

Definition attached_of s sid : list nat := default [] (seq_id_to_prefix_blocks s !! sid).
(** All the request's cells are recorded, or none but its hit's. *)
Definition tracked s q : Prop :=
  match prefix_runtime_states s !! seq_id q with
  | Some st => own_len s (seq_id q) = next_logical_block_idx st * size_of s + Z.of_nat (length (pending_tokens st))
  | None => own_len s (seq_id q) = Z.of_nat (length (attached_of s (seq_id q))) * size_of s
  end.
Record recordable s q : Prop := {
  rd_plain : caching s = true -> multimodal_digest (tags q) = None -> tracked s q;
  rd_multimodal : caching s = true -> is_Some (multimodal_digest (tags q)) -> prefix_runtime_states s !! seq_id q = None;
}.
Definition hit_attached s q : Prop :=
  caching s = true -> prefix_cache_hit_block_count (prefix_hit q) = Z.of_nat (length (attached_of s (seq_id q))).

Lemma caching_cache fl s : mgr_ok fl s -> caching s = bool_decide (is_Some (prefix_cache s)).
Proof.
  intros Hok. unfold caching. pose proof (mo_index _ _ Hok) as Hix. unfold index_ok, index_of in Hix.
  destruct (prefix_cache s); cbn in Hix; [by destruct Hix as [-> _]|]. by rewrite andb_false_r.
Qed.
Lemma uncached_state fl s sid : mgr_ok fl s -> caching s = false -> prefix_runtime_states s !! sid = None.
Proof.
  intros Hok Hca. rewrite (caching_cache _ _ Hok) in Hca. pose proof (mo_index _ _ Hok) as Hix. unfold index_ok, index_of in Hix.
  destruct (prefix_cache s); [bool_to_prop; by destruct Hca; eauto|]. cbn in Hix. by rewrite Hix.
Qed.
Lemma stays_caching sid s s' : stays sid s s' -> caching s' = caching s.
Proof. intros [Hc Hi _ _ _ _ _]. unfold caching. rewrite Hc. f_equal. by apply bool_decide_ext. Qed.
Lemma same_record_caching sid s s' : same_record sid s s' -> caching s' = caching s.
Proof. intros [Hc Hi _ _]. unfold caching. rewrite Hc. f_equal. by apply bool_decide_ext. Qed.
Lemma stays_tracked s s' q : stays (seq_id q) s s' -> tracked s q -> tracked s' q.
Proof.
  intros Hst. unfold tracked. rewrite (stays_own_len _ _ _ Hst). destruct Hst as [Hc _ _ _ Ha Hs _]. unfold size_of, attached_of. by rewrite Hc, Ha, Hs.
Qed.
Lemma stays_recordable s s' q : stays (seq_id q) s s' -> recordable s q -> recordable s' q.
Proof.
  intros Hst [H1 H2]. pose proof (stays_caching _ _ _ Hst) as Hca. split; rewrite Hca.
  - intros. by apply (stays_tracked s); auto.
  - rewrite (st_state _ _ _ Hst). done.
Qed.
Lemma stays_hit_attached s s' q : stays (seq_id q) s s' -> hit_attached s q -> hit_attached s' q.
Proof. intros Hst. unfold hit_attached, attached_of. rewrite (stays_caching _ _ _ Hst). by rewrite (st_attached _ _ _ Hst). Qed.
Lemma stays_hit_ok s s' q : stays (seq_id q) s s' -> hit_ok s q -> hit_ok s' q.
Proof. intros [Hc _ _ _ Ha _ _] [H1 H2 H3 H4]. split; unfold size_of; by rewrite ?Hc, ?Ha. Qed.

Lemma rowless_gap refs l g s sid : mgr_ok (mkFlight refs l g) s -> seq_id_to_row s !! sid = None ->
  mgr_ok (mkFlight refs l (set_gap g sid 0)) s.
Proof.
  intros [Hs Hix Hb Hrf Hsq Hc] Hn. split; try done. intros sid'. specialize (Hsq sid'). cbn in *. unfold set_gap.
  case_decide; [subst; by rewrite Hn in *|done].
Qed.
(** A request that is ready has no cells waiting to be recorded. *)
Lemma settle refs l g s q : mgr_ok (mkFlight refs l g) s -> recordable s q ->
  mgr_ok (mkFlight refs l (set_gap g (seq_id q) 0)) s.
Proof.
  intros Hok [Hplain Hmm]. destruct (seq_id_to_row s !! seq_id q) as [r|] eqn:Hr; [|by apply rowless_gap].
  destruct (prefix_runtime_states s !! seq_id q) as [st|] eqn:Hst; [|by apply (untracked_ok _ _ _ r)].
  destruct (caching s) eqn:Hca; [|by rewrite (uncached_state _ _ _ Hok Hca) in Hst].
  destruct (multimodal_digest (tags q)) eqn:Hd; [specialize (Hmm eq_refl ltac:(eauto)); congruence|]. specialize (Hplain eq_refl eq_refl).
  unfold tracked, own_len in Hplain. rewrite Hst, Hr in Hplain. pose proof (mo_seqs _ _ Hok (seq_id q)) as Hw. rewrite Hr in Hw.
  destruct Hw as [_ _ _ _ Hrec _ _]. unfold recorded in Hrec. cbn in Hrec. rewrite Hst in Hrec. destruct Hrec as (k & _ & _ & _ & _ & _ & HR & _).
  eapply mgr_ok_gap; [|exact Hok]. intros x. unfold set_gap. case_decide; [subst; lia|done].
Qed.

(** ** Recording a step's cells *)

(** What recording leaves of the request's state. *)
Definition state_left s s' q (toks slots : list Z) : Prop := caching s = true ->
  match multimodal_digest (tags q) with
  | None => length toks = length slots /\ (toks = [] /\ s' = s \/ is_Some (prefix_runtime_states s' !! seq_id q))
  | Some _ => s' = s
  end.
(** A request whose cells are all recorded can be recorded again. *)
Lemma left_recordable refs l g s s' q toks slots : mgr_ok (mkFlight refs l g) s' -> g (seq_id q) = 0 -> is_Some (seq_id_to_row s' !! seq_id q) ->
  caching s' = caching s -> state_left s s' q toks slots ->
  (slots = [] -> caching s = true -> multimodal_digest (tags q) = None -> tracked s q) ->
  (caching s = true -> is_Some (multimodal_digest (tags q)) -> prefix_runtime_states s !! seq_id q = None) -> recordable s' q.
Proof.
  unfold state_left. intros Hok Hg [r Hr] Hca Hleft Hsame Hmm. split; rewrite Hca; intros Hc Hd; specialize (Hleft Hc).
  2:{ destruct Hd as [d Hd]. rewrite Hd in Hleft. rewrite Hleft. apply Hmm; eauto. }
  rewrite Hd in Hleft. destruct Hleft as [Hlen [[-> ->]|[st Hst]]].
  { destruct slots; [by apply Hsame|done]. }
  unfold tracked, own_len. rewrite Hst, Hr. pose proof (mo_seqs _ _ Hok (seq_id q)) as Hw. rewrite Hr in Hw.
  destruct Hw as [_ _ _ _ Hrec _ _]. unfold recorded in Hrec. cbn in Hrec. rewrite Hst in Hrec. destruct Hrec as (k & _ & _ & _ & _ & _ & HR & _). lia.
Qed.

Lemma record_step_ok refs l g s q r toks slots : mgr_ok (mkFlight refs l g) s -> seq_id_to_row s !! seq_id q = Some r ->
  slots = slice (len_of s r - g (seq_id q)) (len_of s r) (cells s r) -> Z.of_nat (length slots) = g (seq_id q) -> int64s toks = true ->
  hit_attached s q ->
  (caching s = true -> multimodal_digest (tags q) = None -> prefix_runtime_states s !! seq_id q = None ->
     len_of s r - g (seq_id q) = Z.of_nat (length (attached_of s (seq_id q))) * size_of s) ->
  (caching s = true -> is_Some (multimodal_digest (tags q)) -> prefix_runtime_states s !! seq_id q = None) ->
  wp (record_prefix_materialization q toks slots) (fun x s' =>
    match x with Ok _ => record_done refs l (seq_id q) g s s' /\ state_left s s' q toks slots | Raise _ => s' = s /\ length toks <> length slots end) s.
Proof.
  intros Hok Hr Hsl Hgap Hi Hatt Hfirst Hmm.
  destruct (bool_decide (is_Some (multimodal_digest (tags q))) || negb (caching s)) eqn:Hskip.
  - unfold record_prefix_materialization. apply wp_bind, wp_read. cbv beta iota zeta. unfold id. rewrite Hskip. apply wp_ret.
    split; [|by intros Hca; destruct (multimodal_digest (tags q)); [done|rewrite Hca in Hskip]]. split; [|done]. apply (untracked_ok _ _ _ r); [done..|]. apply orb_prop in Hskip as [Hm|Hm].
    + bool_to_prop. destruct (caching s) eqn:Hca; [by apply Hmm|by eapply uncached_state].
    + bool_to_prop. by eapply uncached_state.
  - destruct (decide (length toks = length slots)) as [Hlen|Hlen].
    + bool_to_prop. eapply wp_mono; [apply (record_materialization_ok refs l (seq_id q) r g s q toks slots)|].
      * split; try done; [by apply Hatt|]. intros Hn. rewrite (Hatt ltac:(done)). apply Hfirst; [done| |done]. by apply eq_None_not_Some.
      * done.
      * done.
      * intros x s' (-> & Hd & Hsome). split; [done|]. intros Hc. assert (multimodal_digest (tags q) = None) as Hd0 by (by apply eq_None_not_Some). rewrite Hd0. auto.
    + unfold record_prefix_materialization. apply wp_bind, wp_read. cbv beta iota zeta. unfold id. rewrite Hskip.
      apply wp_bind, wp_guard; [done|]. intros Hg. bool_to_prop. lia.
Qed.

(** ** One request of the batch *)

(** The request has [n] more cells behind the ones it had, owned by no block. *)
Record grown n s s' sid : Prop := {
  gw_len : own_len s' sid = own_len s sid + n;
  gw_row : is_Some (seq_id_to_row s' !! sid);
  gw_cells : own_cells s sid `prefix_of` own_cells s' sid;
  gw_ranges : ranges_between 0 (ranges_of s' sid) (own_len s sid);
}.
Lemma stays_grown n s s1 s2 sid : stays sid s1 s2 -> grown n s s1 sid -> grown n s s2 sid.
Proof.
  intros Hst [H1 H2 H3 H4]. split; [by rewrite (stays_own_len _ _ _ Hst)|by rewrite (st_row _ _ _ Hst)|by rewrite (stays_own_cells _ _ _ Hst)|].
  by rewrite (st_ranges _ _ _ Hst).
Qed.
Lemma grown_same n s s1 s2 sid : own_len s1 sid = own_len s sid -> own_cells s1 sid = own_cells s sid -> grown n s1 s2 sid -> grown n s s2 sid.
Proof. intros E1 E2 [H1 H2 H3 H4]. by split; rewrite <- ?E1, <- ?E2. Qed.
Lemma grown_from n s s1 s2 sid : stays sid s s1 -> grown n s1 s2 sid -> grown n s s2 sid.
Proof. intros Hst. apply grown_same; [by apply stays_own_len|by apply stays_own_cells]. Qed.

Definition chunk_size q : Z := default 0 (current_chunk_size q).
(** The slots of the request's last [n] cells. *)
Definition last_slots n s sid : list Z := slice (own_len s sid - n) (own_len s sid) (own_cells s sid).
Definition row_index s sid : Z := default 0 (seq_id_to_row s !! sid).

Lemma stays_last_slots n sid s s' : stays sid s s' -> last_slots n s' sid = last_slots n s sid.
Proof. intros Hst. unfold last_slots. by rewrite (stays_own_len _ _ _ Hst), (stays_own_cells _ _ _ Hst). Qed.
Lemma stays_row_index sid s s' : stays sid s s' -> row_index s' sid = row_index s sid.
Proof. intros Hst. unfold row_index. by rewrite (st_row _ _ _ Hst). Qed.
Lemma others_stay_config sid s s' : others_stay sid s s' -> std_config s' = std_config s.
Proof. intros Ho. apply (st_config (sid + 1) s s'), Ho. lia. Qed.

Record prefill_ready s q : Prop := {
  pr_recordable : recordable s q;
  pr_attached : hit_attached s q;
  pr_tokens : int64s (token_ids q) = true;
  pr_chunk c : current_chunk_size q = Some c -> 0 <= c /\ 0 <= num_prefilled_tokens q /\ num_prefilled_tokens q + c <= max_model_len (std_config s);
}.
Lemma stays_prefill_ready s s' q : stays (seq_id q) s s' -> prefill_ready s q -> prefill_ready s' q.
Proof.
  intros Hst [H1 H2 H3 H4]. split; [by apply (stays_recordable s)|by apply (stays_hit_attached s)|done|]. by rewrite (st_config _ _ _ Hst).
Qed.

Lemma cells_slice s r a b : shape_ok s -> 0 <= r < max_buffer_rows (std_config s) -> 0 <= a -> b <= len_of s r ->
  slice a b (row_of s r) = slice a b (cells s r).
Proof.
  intros Hs Hr Ha Hb. pose proof (cells_length s r Hs Hr). unfold cells in *.
  rewrite <- (take_drop (Z.to_nat (len_of s r)) (row_of s r)) at 1. rewrite slice_app_l by lia. done.
Qed.
Lemma read_row_run s r a b : shape_ok s -> 0 <= r < max_buffer_rows (std_config s) -> 0 <= a -> b <= len_of s r ->
  read_row r a b s = (Ok (slice a b (cells s r)), s).
Proof.
  intros Hs Hr Ha Hb. rewrite <- cells_slice by done. destruct (row_lookup s r Hs Hr) as (row & Hrow & <- & _).
  unfold read_row, mbind, Act_bind, read, id. cbn. by rewrite Hrow.
Qed.

Definition prefilled s q (acc acc' : PrefillRows) s' : Prop :=
  let sid := seq_id q in
  grown (chunk_size q) s s' sid /\
  pf_slots acc' = pf_slots acc ++ last_slots (chunk_size q) s' sid /\
  pf_context_lens acc' = pf_context_lens acc ++ [own_len s' sid] /\ pf_rows acc' = pf_rows acc ++ [row_index s' sid].

(** The tokens of the chunk. *)
Definition chunk_tokens q (c : Z) : list Z :=
  if c <? Z.of_nat (length (token_ids q)) then slice (num_prefilled_tokens q) (num_prefilled_tokens q + c) (token_ids q) else token_ids q.
(** The request's chunk continues where the manager is. *)
Record chunk_follows s q : Prop := {
  cw_chunk : is_Some (current_chunk_size q);
  cw_start : is_Some (seq_id_to_row s !! seq_id q) -> own_len s (seq_id q) = num_prefilled_tokens q;
  cw_tokens : Z.of_nat (length (chunk_tokens q (chunk_size q))) = chunk_size q;
}.
Definition has_row s q : Prop := seq_id_to_row s !! seq_id q = None -> free_rows s <> [].
Definition chunk_fits s q : Prop := chunk_follows s q /\ has_row s q /\ chunk_size q <= capacity s.

Lemma resident_start_ok s q : shape_ok s ->
  wp (match seq_id_to_row s !! seq_id q with
      | None => mret 0
      | Some r => n ← lift (array_get (row_logical_lens s) r);
                  guard_not (negb (n =? num_prefilled_tokens q)) (ValueError "KV cache logical row length mismatch in prefill") ;;
                  row_len r
      end : MgrAct Z)
    (fun x s' => s' = s /\ match x with Ok a => a = own_len s (seq_id q) /\ (own_len s (seq_id q) = num_prefilled_tokens q \/ own_len s (seq_id q) = 0)
                               | Raise _ => ~ chunk_follows s q end) s.
Proof.
  intros Hs. unfold own_len. destruct (seq_id_to_row s !! seq_id q) as [r|] eqn:Hr; [|apply wp_ret; auto].
  pose proof (row_valid s _ r Hs Hr) as Hrv. destruct (row_lookup s r Hs Hrv) as (row & _ & _ & _ & Hl).
  apply wp_bind, wp_lift. unfold array_get. rewrite (sh_logical s Hs), Hl. apply wp_bind, wp_guard; intros Hg; bool_to_prop.
  { split; [done|]. intros [_ Hst _]. unfold own_len in Hst. rewrite Hr in Hst. by destruct Hg; apply Hst. }
  unfold wp. rewrite row_len_run by done. cbn. auto 6.
Qed.

Lemma prefill_one_ok refs l s q acc : sound refs l s -> prefill_ready s q ->
  wp (prefill_one q acc) (fun x s' => sound refs l s' /\ others_stay (seq_id q) s s' /\
    match x with Ok acc' => prefilled s q acc acc' s' /\ recordable s' q /\ hit_attached s' q /\ capacity s' = capacity s - chunk_size q
               | Raise _ => ~ chunk_fits s q end) s.
Proof.
  intros [g Hok] [Hrec Hatt Htok Hchunk]. apply (settle _ _ _ _ q) in Hok; [|done]. set (sid := seq_id q) in *.
  assert (sound refs l s) as Hsd by (by eexists). pose proof (mo_shape _ _ Hok) as Hs.
  unfold prefill_one. apply wp_bind, wp_read. cbv beta iota zeta. unfold id at 1. apply wp_bind, wp_lift. unfold chunk_of at 1.
  unfold prefilled, chunk_fits, chunk_size. destruct (current_chunk_size q) as [c|] eqn:Hc.
  2:{ split; [done|]. split; [done|]. intros ([[? Hf] _ _] & _). congruence. }
  specialize (Hchunk c eq_refl) as (Hc0 & Hp0 & Hfit). cbn [default from_option]. unfold id.
  apply wp_bind. eapply wp_mono; [by apply resident_start_ok|]. cbv beta. fold sid. intros [a|e] s0 [-> Ha].
  2:{ split; [done|]. split; [done|]. by intros [? _]. }
  destruct Ha as [-> Hlen].
  apply wp_bind. eapply wp_mono; [apply (allocate_ok s refs l _ sid c Hok Hc0); [by rewrite set_gap_at|lia]|]. unfold allocated. rewrite set_gap_at, Z.add_0_l. cbv beta iota.
  intros [slots|e] s1.
  2:{ intros (Hok1 & Hq & Hwhy). split; [by eexists|]. split; [by apply quiet_others|]. intros (_ & Hrow & Hroom).
      destruct Hwhy as [Hlt|[Hn Hf]]; [lia|by apply Hrow]. }
  intros (r & Hr1 & Hsl & Hok1 & Ho1 & Hsr1 & Hl1 & Hslots & Hcells & Hcap1). pose proof (mo_shape _ _ Hok1) as Hs1. pose proof (row_valid s1 sid r Hs1 Hr1) as Hrv1.
  apply wp_bind. unfold get_free_row. apply wp_bind, wp_read. cbv beta iota. unfold id. rewrite Hr1. apply wp_ret.
  assert (0 <= own_len s sid) as Hown0 by (unfold own_len; destruct (seq_id_to_row s !! sid); [apply (sh_range s Hs)|lia]).
  apply wp_bind. unfold wp at 1. rewrite read_row_run by (done || lia). cbn [fst snd].
  rewrite <- Hslots. apply wp_bind, wp_guard; [intros Hm; bool_to_prop; lia|]. intros _. apply wp_bind, wp_lift.
  assert (chunk_size q = c) as Hcs by (unfold chunk_size; by rewrite Hc).
  fold (chunk_tokens q c). set (toks := chunk_tokens q c).
  assert (forall Q : Prop, Z.of_nat (length toks) <> c -> ~ (chunk_follows s q /\ Q)) as Hbad.
  { intros Q Hne [[_ _ Ht] _]. by rewrite Hcs in Ht. }
  destruct (np_fill c _) as [ids|e] eqn:Hfill.
  2:{ split; [by eexists|]. split; [exact Ho1|]. apply Hbad. intros E. unfold np_fill in Hfill. by rewrite (proj2 (Z.eqb_eq _ _) E) in Hfill. }
  apply wp_bind.
  eapply wp_mono; [apply (record_step_ok refs l _ s1 q r toks slots Hok1 Hr1)|].
  - fold sid. rewrite !set_gap_at. rewrite Hslots. f_equal; lia.
  - fold sid. rewrite !set_gap_at. done.
  - unfold toks, chunk_tokens. destruct (c <? _); [by apply int64s_slice|done].
  - unfold hit_attached, attached_of in *. fold sid. fold sid in Hatt. rewrite (same_record_caching _ _ _ Hsr1), (sr_attached _ _ _ Hsr1). exact Hatt.
  - rewrite (same_record_caching _ _ _ Hsr1). fold sid. rewrite (sr_state _ _ _ Hsr1), !set_gap_at. unfold attached_of, size_of.
    rewrite (sr_attached _ _ _ Hsr1), (sr_config _ _ _ Hsr1). intros Hca Hd Hn. pose proof (rd_plain _ _ Hrec Hca Hd) as Ht.
    unfold tracked in Ht. fold sid in Ht. rewrite Hn in Ht. unfold attached_of, size_of in Ht. lia.
  - rewrite (same_record_caching _ _ _ Hsr1). fold sid. rewrite (sr_state _ _ _ Hsr1). apply Hrec.
  - cbv beta. intros [[]|e] s2; [|intros [-> Hne]; split; [by eexists|]; split; [exact Ho1|]; apply Hbad; lia]. intros [[Hok2 Hrc] Hleft]. apply wp_ret.
    split; [by eexists|]. split; [etrans; [exact Ho1|by apply records_others]|].
    assert (own_len s2 sid = own_len s sid + c /\ row_index s2 sid = r /\ own_cells s2 sid = cells s1 r /\ is_Some (seq_id_to_row s2 !! sid)) as (Ho2 & Hri & Hcl & Hsome).
    { rewrite (rc_frame _ _ _ Hrc). unfold own_len at 1, row_index, own_cells. cbn. rewrite Hr1. eauto. }
    assert (caching s2 = caching s1) as Hca2 by (rewrite (rc_frame _ _ _ Hrc); done).
    cbn. unfold last_slots. rewrite Ho2, Hri, Hcl. split; [split_and!; [| |done|done]|split; [|split]].
    { split; [by rewrite Ho2|done|rewrite Hcl, Hcells; by apply prefix_app_r|]. rewrite (rc_frame _ _ _ Hrc). unfold ranges_of at 1. cbn. fold (ranges_of s1 sid).
      pose proof (mo_seqs _ _ Hok1 sid) as Hw. rewrite Hr1 in Hw. pose proof (so_ranges _ _ _ _ _ Hw) as Hrs. cbn in Hrs. rewrite set_gap_at in Hrs.
      by replace (own_len s sid) with (len_of s1 r - c) by lia. }
    { replace (own_len s sid + c - c) with (own_len s sid) by lia. by rewrite <- Hslots. }
    + assert (caching s1 = caching s) as Hca1 by by apply (same_record_caching sid).
      eapply (left_recordable refs l _ s1 s2 q toks slots Hok2); [apply set_gap_at|done|done|done| |].
      * rewrite Hca1. intros Hnil Hca Hd. assert (c = 0) as Hc00 by (rewrite Hnil in Hsl; cbn in Hsl; lia).
        pose proof (rd_plain _ _ Hrec Hca Hd) as Ht. assert (own_len s1 sid = own_len s sid) as El by (unfold own_len at 1; rewrite Hr1; lia).
        unfold tracked, attached_of, size_of in *. fold sid in Ht |- *.
        by rewrite El, (sr_state _ _ _ Hsr1), (sr_attached _ _ _ Hsr1), (sr_config _ _ _ Hsr1).
      * rewrite Hca1. fold sid. rewrite (sr_state _ _ _ Hsr1). apply Hrec.
    + rewrite (rc_frame _ _ _ Hrc). unfold hit_attached, attached_of. cbn. fold sid. rewrite (sr_attached _ _ _ Hsr1).
      change (caching _) with (caching s1). rewrite (same_record_caching _ _ _ Hsr1). exact Hatt.
    + rewrite <- Hcap1. unfold capacity, freeable, size_of. rewrite (rc_frame _ _ _ Hrc). done.
Qed.

(** ** The batch *)

(** What the requests [sids] do not include is left alone. *)
Definition only_these (sids : list Z) s s' : Prop := forall sid, sid ∉ sids -> stays sid s s'.
Lemma only_these_cons sid sids s s1 s2 : others_stay sid s s1 -> only_these sids s1 s2 -> only_these (sid :: sids) s s2.
Proof. intros H1 H2 sid' Hn. apply not_elem_of_cons in Hn as [? ?]. etrans; [by apply H1|by apply H2]. Qed.
#[global] Instance only_these_refl sids : Reflexive (only_these sids).
Proof. by intros s sid _. Qed.
#[global] Instance only_these_trans sids : Transitive (only_these sids).
Proof. intros s1 s2 s3 H1 H2 sid Hn. etrans; [by apply H1|by apply H2]. Qed.


(** The request can be in a batch again. *)
Definition still_ready s q : Prop := recordable s q /\ hit_attached s q.
Lemma stays_still_ready s s' q : stays (seq_id q) s s' -> still_ready s q -> still_ready s' q.
Proof. intros Hst [H1 H2]. split; [by apply (stays_recordable s)|by apply (stays_hit_attached s)]. Qed.

Definition batch_rows (acc acc' : PrefillRows) s' qs : Prop :=
  pf_slots acc' = pf_slots acc ++ (qs ≫= fun q => last_slots (chunk_size q) s' (seq_id q)) /\
  pf_context_lens acc' = pf_context_lens acc ++ ((fun q => own_len s' (seq_id q)) <$> qs) /\
  pf_rows acc' = pf_rows acc ++ ((fun q => row_index s' (seq_id q)) <$> qs).

(** ** Room for a batch *)

Definition chunks qs : Z := foldr Z.add 0 (chunk_size <$> qs).
Definition rowless s qs : Z := Z.of_nat (length (List.filter (fun q => bool_decide (seq_id_to_row s !! seq_id q = None)) qs)).
Definition batch_fits s qs : Prop :=
  Forall (chunk_follows s) qs /\ rowless s qs <= Z.of_nat (length (free_rows s)) /\ chunks qs <= capacity s.

Lemma stays_chunk_follows s s' q : stays (seq_id q) s s' -> chunk_follows s q -> chunk_follows s' q.
Proof. intros Hst [H1 H2 H3]. split; [done| |done]. by rewrite (st_row _ _ _ Hst), (stays_own_len _ _ _ Hst). Qed.
Lemma stays_rowless s s' qs : (forall q, q ∈ qs -> stays (seq_id q) s s') -> rowless s' qs = rowless s qs.
Proof.
  intros Hst. unfold rowless. induction qs as [|q qs IH]; [done|]. cbn. rewrite (st_row _ _ _ (Hst q ltac:(by left))).
  specialize (IH ltac:(intros; apply Hst; by right)). destruct (bool_decide _); cbn; lia.
Qed.
Lemma rowless_cons s q qs : rowless s (q :: qs) = (if decide (seq_id_to_row s !! seq_id q = None) then 1 else 0) + rowless s qs.
Proof. unfold rowless. cbn. case_decide as Hn; [rewrite bool_decide_eq_true_2 by done|rewrite bool_decide_eq_false_2 by done]; cbn; lia. Qed.

Lemma free_rows_counted s : shape_ok s -> Z.of_nat (length (free_rows s)) + Z.of_nat (size (seq_id_to_row s)) = Z.max 0 (max_buffer_rows (std_config s)).
Proof.
  intros Hs. pose proof (Permutation_length (sh_perm s Hs)) as Hp. rewrite length_app, length_fmap, length_map_to_list in Hp.
  unfold arange in Hp. rewrite length_fmap, length_seq in Hp. lia.
Qed.
(** A request takes one row at most. *)
Lemma rows_left s s' sid : shape_ok s -> shape_ok s' -> others_stay sid s s' ->
  Z.of_nat (length (free_rows s)) - (if decide (seq_id_to_row s !! sid = None) then 1 else 0) <= Z.of_nat (length (free_rows s')).
Proof.
  intros Hs Hs' Ho. pose proof (free_rows_counted _ Hs) as H1. pose proof (free_rows_counted _ Hs') as H2. rewrite (others_stay_config _ _ _ Ho) in H2.
  assert (delete sid (seq_id_to_row s') = delete sid (seq_id_to_row s)) as Hd.
  { apply map_eq. intros k. destruct (decide (k = sid)) as [->|Hne]; [by rewrite !lookup_delete_eq|]. rewrite !lookup_delete_ne by done. apply (st_row _ _ _ (Ho k Hne)). }
  apply (f_equal size) in Hd. pose proof (map_size_delete sid (seq_id_to_row s)) as E1. pose proof (map_size_delete sid (seq_id_to_row s')) as E2.
  assert (forall x, seq_id_to_row s !! sid = Some x -> (size (seq_id_to_row s) <> 0)%nat) as Hpos.
  { intros x Hx E. apply map_size_empty_inv in E. by rewrite E in Hx. }
  destruct (seq_id_to_row s !! sid) as [x|]; [specialize (Hpos x eq_refl)|]; destruct (seq_id_to_row s' !! sid); case_decide; try done; unfold id in *; lia.
Qed.

Lemma prefill_all_ok refs l qs : forall s acc, sound refs l s -> NoDup (seq_id <$> qs) -> Forall (prefill_ready s) qs ->
  wp (prefill_all qs acc) (fun x s' => sound refs l s' /\ only_these (seq_id <$> qs) s s' /\
    match x with
    | Ok acc' => batch_rows acc acc' s' qs /\ Forall (fun q => grown (chunk_size q) s s' (seq_id q) /\ still_ready s' q) qs
    | Raise _ => ~ batch_fits s qs
    end) s.
Proof.
  induction qs as [|q qs IH]; intros s acc Hok Hnd Hrd; cbn [prefill_all].
  { apply wp_ret. split; [done|]. split; [done|]. split; [|done]. unfold batch_rows. by rewrite !app_nil_r. }
  cbn in Hnd. apply NoDup_cons in Hnd as [Hni Hnd]. apply Forall_cons in Hrd as [Hrq Hrd].
  assert (forall qs', Forall (prefill_ready s) qs' -> 0 <= chunks qs') as Hpos.
  { intros qs'. unfold chunks. induction 1 as [|q' qs' [_ _ _ Hc] _ IHq]; cbn; [lia|]. unfold chunk_size at 1.
    destruct (current_chunk_size q') as [c|]; cbn; [specialize (Hc c eq_refl)|]; lia. }
  apply wp_bind. eapply wp_mono; [by apply prefill_one_ok|]. cbv beta. intros [acc1|e] s1 (Hok1 & Ho1 & Hp).
  2:{ split; [done|]. split; [|intros (Hf & Hrows & Hroom); apply Hp; apply Forall_cons in Hf as [Hf _]; split; [done|split]].
      - intros sid Hn. cbn in Hn. apply not_elem_of_cons in Hn as [? _]. by apply Ho1.
      - intros Hn Hnil. rewrite rowless_cons, decide_True, Hnil in Hrows by done. unfold rowless in Hrows. cbn in Hrows. lia.
      - unfold chunks in Hroom. cbn in Hroom. fold (chunks qs) in Hroom. specialize (Hpos qs Hrd). lia. }
  assert (forall q', q' ∈ qs -> stays (seq_id q') s s1) as Hst1.
  { intros q' Hin. apply Ho1. intros E. apply Hni. rewrite <- E. by apply list_elem_of_fmap_2. }
  destruct Hp as ((Hg1 & F1 & F2 & F3) & Hrec1 & Hatt1 & Hcap1).
  assert (batch_fits s (q :: qs) -> batch_fits s1 qs) as Hfits.
  { intros (Hf & Hrows & Hroom). apply Forall_cons in Hf as [_ Hf]. destruct Hok as [g Hok], Hok1 as [g1 Hok1].
    pose proof (rows_left _ _ _ (mo_shape _ _ Hok) (mo_shape _ _ Hok1) Ho1) as Hleft. rewrite rowless_cons in Hrows.
    split; [|split; [rewrite (stays_rowless s) by done; lia|unfold chunks in *; cbn in Hroom; lia]].
    rewrite Forall_forall in *. intros q' Hin. apply (stays_chunk_follows s); auto. }
  eapply wp_mono; [apply (IH s1 acc1 Hok1 Hnd)|].
  { rewrite Forall_forall in *. intros q' Hin. apply (stays_prefill_ready s); auto. }
  cbv beta. intros x s2 (Hok2 & Ho2 & Hx). split; [done|]. split; [by eapply only_these_cons|].
  destruct x as [acc2|e]; [|auto]. destruct Hx as [(E1 & E2 & E3) Hgr].
  pose proof (Ho2 _ Hni) as Hst. split.
  - unfold batch_rows. rewrite bind_cons, !fmap_cons, E1, E2, E3, F1, F2, F3, <- !app_assoc.
    by rewrite (stays_last_slots _ _ _ _ Hst), (stays_own_len _ _ _ Hst), (stays_row_index _ _ _ Hst).
  - constructor; [split; [by apply (stays_grown _ _ s1)|by apply (stays_still_ready s1)]|]. rewrite Forall_forall in *. intros q' Hin.
    split; [eapply grown_from; [by apply Hst1|by apply Hgr]|by apply Hgr].
Qed.

(** What the scheduler promises of a request it puts in a prefill batch. *)
Record request_ok s q : Prop := {
  rq_hit : hit_ok s q;
  rq_recordable : recordable s q;
  rq_tokens : int64s (token_ids q) = true;
  rq_chunk c : current_chunk_size q = Some c -> 0 <= c /\ 0 <= num_prefilled_tokens q /\ num_prefilled_tokens q + c <= max_model_len (std_config s);
}.
Lemma stays_request_ok s s' q : stays (seq_id q) s s' -> request_ok s q -> request_ok s' q.
Proof.
  intros Hst [H1 H2 H3 H4]. split; [by apply (stays_hit_ok s)|by apply (stays_recordable s)|done|]. by rewrite (st_config _ _ _ Hst).
Qed.

Lemma attach_ready refs l g s q s' : mgr_ok (mkFlight refs l g) s -> request_ok s q -> attach_post refs l g s q (Ok tt) s' -> prefill_ready s' q.
Proof.
  intros Hok [Hhit Hrec Htok Hch] (Hok' & Ho & Hcase). pose proof (others_stay_config _ _ _ Ho) as Hcf.
  split; [| |done|by rewrite Hcf].
  - destruct Hcase as [[-> _]|(os & Hos & Hcnt & Hst & Hlen & _)]; [done|]. split; [|done]. intros _ _. unfold tracked, attached_of.
    rewrite Hst, Hos, Hlen. cbn. rewrite (hk_len _ _ Hhit), Hcnt. unfold size_of. by rewrite Hcf.
  - destruct Hcase as [[-> Hc]|(os & Hos & Hcnt & _)]; [|unfold hit_attached, attached_of; by rewrite Hos]. intros Hca. unfold attached_of.
    rewrite (caching_cache _ _ Hok) in Hca. bool_to_prop. destruct Hca as [c Hpc]. destruct (mgr_index _ _ _ Hok Hpc) as (_ & _ & Hbs).
    destruct (seq_id_to_prefix_blocks s !! seq_id q) as [os|] eqn:Hos; [by apply Hhit|]. cbn.
    assert (prefix_cache_hit_len (prefix_hit q) <= 0).
    { destruct Hc as [Hc|[Hc|[? Hc]]]; [|done|done]. rewrite (caching_cache _ _ Hok), Hpc in Hc. done. }
    pose proof (hk_len _ _ Hhit). pose proof (hk_count _ _ Hhit). nia.
Qed.
Lemma attach_prefix refs l g s q s' : shape_ok s -> attach_post refs l g s q (Ok tt) s' -> own_cells s (seq_id q) `prefix_of` own_cells s' (seq_id q).
Proof.
  intros Hs (_ & _ & [[-> _]|(os & _ & _ & _ & _ & _ & _ & Hl & _)]); [done|]. unfold own_len in Hl. unfold own_cells at 1.
  destruct (seq_id_to_row s !! seq_id q) as [r|]; [|apply prefix_nil]. rewrite empty_cells by done. apply prefix_nil.
Qed.
(** ** Room for a batch that attaches hits *)

(** [n] slots stop being reclaimable when the request's hit is attached. *)
Definition hit_reserve s q n : Prop :=
  if decide (attaches s q) then own_len s (seq_id q) = 0 /\ exists ids, hit_whole s q ids /\ n = hit_cost s ids else n = 0.
Record seq_fits s q n : Prop := {
  sf_hit : hit_reserve s q n;
  sf_chunk : is_Some (current_chunk_size q);
  sf_attached : attaches s q -> num_prefilled_tokens q = prefix_cache_hit_len (prefix_hit q);
  sf_start : ~ attaches s q -> is_Some (seq_id_to_row s !! seq_id q) -> own_len s (seq_id q) = num_prefilled_tokens q;
  sf_tokens : Z.of_nat (length (chunk_tokens q (chunk_size q))) = chunk_size q;
}.
Definition step_fits s qs : Prop := exists ns,
  Forall2 (seq_fits s) qs ns /\ rowless s qs <= Z.of_nat (length (free_rows s)) /\ chunks qs + foldr Z.add 0 ns <= capacity s.

Lemma hit_cost_nonneg s ids : 0 <= size_of s -> 0 <= hit_cost s ids.
Proof. unfold hit_cost. nia. Qed.
Lemma hit_chain_positive s q os : hit_chain s q os -> 0 < prefix_cache_hit_block_count (prefix_hit q).
Proof. intros (c & b & _ & _ & Hg). unfold get_chain in Hg. destruct (Z.leb_spec (prefix_cache_hit_block_count (prefix_hit q)) 0); done. Qed.

(** A hit that has room is attached; it takes its reserve and no row but one. *)
Lemma attach_fits refs l g s q x s' n : mgr_ok (mkFlight refs l g) s -> request_ok s q -> attach_post refs l g s q x s' ->
  seq_fits s q n -> has_row s q ->
  x = Ok tt /\ capacity s - n <= capacity s' /\ freeable s' ⊆ freeable s /\ same_but_refs (blk s) (blk s') /\ chunk_follows s' q /\
  (seq_id_to_row s' !! seq_id q = None -> seq_id_to_row s !! seq_id q = None /\ Z.of_nat (length (free_rows s)) <= Z.of_nat (length (free_rows s'))).
Proof.
  intros Hok Hrq Hpost [Hhit Hch Hatt Hst Htok] Hrow. pose proof Hpost as (Hok' & Ho & Hcase). unfold hit_reserve in Hhit.
  assert (attaches s q -> is_Some (prefix_cache s) /\ 0 < size_of s) as Hpc.
  { intros (Hca & _). rewrite (caching_cache _ _ Hok) in Hca. bool_to_prop. split; [done|]. destruct Hca as [c Hc].
    by destruct (mgr_index _ _ _ Hok Hc) as (_ & _ & ?). }
  assert (forall ids, attaches s q -> hit_whole s q ids -> ids <> []) as Hne.
  { intros ids (Hca & Hlen & Hn) Hw ->. destruct (Hpc ltac:(by split_and!)) as [_ ?]. rewrite (hk_len _ _ (rq_hit _ _ Hrq)), (hw_count _ _ _ Hw) in Hlen. cbn in Hlen. lia. }
  destruct x as [[]|e].
  2:{ exfalso. destruct Hcase as (_ & Hat & Hwhy). rewrite decide_True in Hhit by done. destruct Hhit as (Hl0 & ids & Hw & _).
      destruct (Hpc Hat) as [Hp _]. destruct Hwhy as [Hno|[Hl|[Hn Hf]]]; [|done|by apply Hrow].
      destruct (hit_whole_chain _ _ _ _ Hok Hp Hw (Hne ids Hat Hw)) as (os & Hos & _). by apply (Hno os). }
  destruct Hcase as [[-> Hc]|(os & Hos & Hcnt & Hstt & Hlen & [r Hr] & Hnone & Hl0 & Hchain & _ & Hpins & Hnf)].
  - assert (~ attaches s q) as Hno by (intros (Hca & Hlen & Hn); destruct Hc as [Hc|[Hc|[? Hc]]]; [congruence|lia|congruence]).
    rewrite decide_False in Hhit by done. subst n. split_and!; [done|lia|done|done| |by intros ?]. by split; auto.
  - assert (attaches s q) as Hat.
    { pose proof Hchain as (c & b & Hc & _). pose proof (hit_chain_positive _ _ _ Hchain).
      split_and!; [by rewrite (caching_cache _ _ Hok), Hc| |done]. rewrite (hk_len _ _ (rq_hit _ _ Hrq)).
      destruct (mgr_index _ _ _ Hok Hc) as (_ & _ & ?). nia. }
    rewrite decide_True in Hhit by done. destruct Hhit as (_ & ids & Hw & ->). destruct (Hpc Hat) as [Hp Hs].
    pose proof (others_stay_config _ _ _ Ho) as Hcf. assert (is_Some (prefix_cache s') <-> is_Some (prefix_cache s)) as Hpc'.
    { apply (st_index (seq_id q + 1) s s'), Ho. lia. }
    split_and!; [done| | |apply Hpins| |congruence].
    + apply (attached_capacity _ _ _ _ q ids os Hok Hok'); try done; [by apply Hpc'|by apply Hne].
    + by apply (pins_freeable _ _ _ _ os Hok Hok').
    + split; [done| |done]. rewrite Hlen. intros _. symmetry. by apply Hatt.
Qed.

Lemma seq_fits_later s s' q n : stays (seq_id q) s s' -> freeable s' ⊆ freeable s -> same_but_refs (blk s) (blk s') -> (caching s = true -> 0 <= size_of s) ->
  seq_fits s q n -> exists n', seq_fits s' q n' /\ n' <= n.
Proof.
  intros Hst Hf Hb Hs [Hhit Hch Hatt Hstart Htok].
  assert (attaches s' q <-> attaches s q) as Hat by (unfold attaches; by rewrite (stays_caching _ _ _ Hst), (st_attached _ _ _ Hst)).
  assert (forall n', hit_reserve s' q n' -> seq_fits s' q n') as Hmk.
  { intros n' Hn'. split; [done|done|by rewrite Hat| |done]. by rewrite Hat, (st_row _ _ _ Hst), (stays_own_len _ _ _ Hst). }
  unfold hit_reserve in *. destruct (decide (attaches s q)) as [Ha|Ha].
  - destruct Hhit as (Hl0 & ids & [H1 H2 H3] & ->). exists (hit_cost s' ids). split.
    + apply Hmk. rewrite decide_True by by apply Hat. rewrite (stays_own_len _ _ _ Hst). split; [done|]. exists ids. split; [|done].
      split; [done|done|]. eapply root_path_ext; [|exact H3]. intros x. symmetry. by apply same_but_refs_parents.
    + unfold hit_cost, size_of in *. rewrite (st_config _ _ _ Hst). apply Z.mul_le_mono_nonneg_l; [by apply Hs, Ha|].
      apply inj_le, subseteq_size. set_solver.
  - subst n. exists 0. split; [|lia]. apply Hmk. rewrite decide_False; [done|]. by rewrite Hat.
Qed.
Lemma seqs_fit_later s s' qs ns : (forall q, q ∈ qs -> stays (seq_id q) s s') -> freeable s' ⊆ freeable s -> same_but_refs (blk s) (blk s') -> (caching s = true -> 0 <= size_of s) ->
  Forall2 (seq_fits s) qs ns -> exists ns', Forall2 (seq_fits s') qs ns' /\ foldr Z.add 0 ns' <= foldr Z.add 0 ns.
Proof.
  intros Hst Hf Hb Hs. induction 1 as [|q n qs ns Hq _ IH]; [by exists []|]. destruct IH as (ns' & Hns & Hle); [intros; apply Hst; by right|].
  destruct (seq_fits_later s s' q n (Hst q ltac:(by left)) Hf Hb Hs Hq) as (n' & Hn' & Hle'). exists (n' :: ns'). cbn. split; [by constructor|lia].
Qed.

(** What is left for the chunks once the hits are attached. *)
Definition attach_room s qs : Prop := exists ns,
  Forall2 (seq_fits s) qs ns /\ rowless s qs <= Z.of_nat (length (free_rows s)).
Definition room_left s s' qs : Prop := forall ns, Forall2 (seq_fits s) qs ns -> rowless s qs <= Z.of_nat (length (free_rows s)) ->
  Forall (chunk_follows s') qs /\ capacity s - foldr Z.add 0 ns <= capacity s' /\
  Z.of_nat (length (free_rows s)) - rowless s qs <= Z.of_nat (length (free_rows s')) - rowless s' qs.

Lemma attach_all_ok refs l qs : forall s, sound refs l s -> NoDup (seq_id <$> qs) -> Forall (request_ok s) qs ->
  wp (for_each qs attach_prefix_cache_if_needed) (fun x s' => sound refs l s' /\ only_these (seq_id <$> qs) s s' /\
    match x with
    | Ok _ => Forall (fun q => prefill_ready s' q /\ own_cells s (seq_id q) `prefix_of` own_cells s' (seq_id q)) qs /\ room_left s s' qs
    | Raise _ => ~ attach_room s qs
    end) s.
Proof.
  induction qs as [|q qs IH]; intros s [g Hok] Hnd Hrq; cbn [for_each].
  { apply wp_ret. split; [by eexists|]. split; [done|]. split; [done|]. intros ns Hns _. apply Forall2_nil_inv_l in Hns as ->. cbn. split; [done|lia]. }
  cbn in Hnd. apply NoDup_cons in Hnd as [Hni Hnd]. apply Forall_cons in Hrq as [Hq Hrq].
  pose proof (settle _ _ _ _ q Hok (rq_recordable _ _ Hq)) as Hok0. apply wp_bind.
  eapply wp_mono; [apply (attach_ok refs l _ s q Hok0 (rq_hit _ _ Hq)); by rewrite set_gap_at|]. intros x s1 Hpost.
  pose proof Hpost as (Hok1 & Ho1 & _).
  assert (forall ns, Forall2 (seq_fits s) (q :: qs) ns -> rowless s (q :: qs) <= Z.of_nat (length (free_rows s)) -> has_row s q) as Hhas.
  { intros ns _ Hrows Hn Hf. rewrite rowless_cons, decide_True, Hf in Hrows by done. unfold rowless in Hrows. cbn in Hrows. lia. }
  destruct x as [[]|e].
  2:{ split; [by eexists|]. split; [intros sid Hn; cbn in Hn; apply not_elem_of_cons in Hn as [? _]; by apply Ho1|].
      intros (ns & Hns & Hrows). pose proof (Hhas ns Hns Hrows) as Hr. apply Forall2_cons_inv_l in Hns as (n & ns' & Hn & _ & _).
      by destruct (attach_fits _ _ _ _ _ _ _ n Hok0 Hq Hpost Hn Hr) as [? _]. }
  pose proof (attach_ready _ _ _ _ _ _ Hok0 Hq Hpost) as Hrdq.
  assert (forall q', q' ∈ qs -> stays (seq_id q') s s1) as Hst1.
  { intros q' Hin. apply Ho1. intros E. apply Hni. rewrite <- E. by apply list_elem_of_fmap_2. }
  assert (forall n ns, Forall2 (seq_fits s) (q :: qs) (n :: ns) -> rowless s (q :: qs) <= Z.of_nat (length (free_rows s)) ->
    capacity s - n <= capacity s1 /\ chunk_follows s1 q /\
    Z.of_nat (length (free_rows s)) - rowless s (q :: qs) <= Z.of_nat (length (free_rows s1)) - rowless s1 (q :: qs) /\
    exists ns1, Forall2 (seq_fits s1) qs ns1 /\ foldr Z.add 0 ns1 <= foldr Z.add 0 ns) as Hstep.
  { intros n ns Hns Hrows. pose proof (Hhas _ Hns Hrows) as Hr. apply Forall2_cons in Hns as [Hn Hns].
    destruct (attach_fits _ _ _ _ _ _ _ n Hok0 Hq Hpost Hn Hr) as (_ & Hcap & Hfr & Hsb & Hch & Hrow1).
    pose proof (rows_left _ _ _ (mo_shape _ _ Hok0) (mo_shape _ _ Hok1) Ho1) as Hleft.
    split; [done|]. split; [done|]. split.
    - rewrite !rowless_cons, (stays_rowless s s1 qs) by done. case_decide as Hd; case_decide; try lia; destruct Hrow1 as [Hn1 ?]; try done; lia.
    - apply (seqs_fit_later s); [done..|intros Hca|done]. rewrite (caching_cache _ _ Hok0) in Hca. bool_to_prop. destruct Hca as [c Hc].
      destruct (mgr_index _ _ _ Hok0 Hc) as (_ & _ & ?). lia. }
  eapply wp_mono; [apply (IH s1); [by eexists|done|]|].
  { rewrite Forall_forall in *. intros q' Hin. apply (stays_request_ok s); auto. }
  cbv beta. intros x s2 (Hok2 & Ho2 & Hx). split; [done|]. split; [by eapply only_these_cons|]. destruct x as [[]|e].
  2:{ intros (ns & Hns & Hrows). destruct ns as [|n ns]; [by apply Forall2_nil_inv_r in Hns|].
      destruct (Hstep n ns Hns Hrows) as (_ & _ & Hleft & ns1 & Hns1 & _). apply Hx. exists ns1. split; [done|].
      rewrite (rowless_cons s1) in Hleft. case_decide; lia. }
  destruct Hx as [Hx Hroom]. split.
  - constructor.
    + rewrite (stays_own_cells _ _ _ (Ho2 _ Hni)). split; [apply (stays_prefill_ready s1); [by apply Ho2|done]|].
      by apply (attach_prefix _ _ _ _ _ _ (mo_shape _ _ Hok0) Hpost).
    + rewrite Forall_forall in *. intros q' Hin. destruct (Hx q' Hin) as [? Hp]. split; [done|]. by rewrite (stays_own_cells (seq_id q') s s1) in Hp by auto.
  - intros ns Hns Hrows. destruct ns as [|n ns]; [by apply Forall2_nil_inv_r in Hns|].
    destruct (Hstep n ns Hns Hrows) as (Hcap & Hch & Hleft & ns1 & Hns1 & Hle). destruct (Hroom ns1 Hns1) as (Hf & Hcap2 & Hleft2).
    { rewrite (rowless_cons s1) in Hleft. case_decide; lia. }
    split; [|split].
    + constructor; [|done]. apply (stays_chunk_follows s1); [by apply Ho2|done].
    + cbn. lia.
    + rewrite (rowless_cons s1) in Hleft. rewrite (rowless_cons s2), (st_row _ _ _ (Ho2 _ Hni)). lia.
Qed.

Definition layered b s : StandardCacheManager := s <| layer_batch_state := b |>.
Lemma layered_ok fl s b : mgr_ok fl s -> mgr_ok fl (layered b s).
Proof. intros [Hs Hix Hb Hrf Hsq Hc]. split; try done. split; apply Hs. Qed.
Lemma layered_sound refs l s b : sound refs l s -> sound refs l (layered b s).
Proof. intros [g Hok]. exists g. by apply layered_ok. Qed.
Lemma layered_stays b s sid : stays sid s (layered b s).
Proof. by split. Qed.

(** The request's last [n] cells are no block's. *)
Record wrote n s sid : Prop := {
  wr_row : is_Some (seq_id_to_row s !! sid);
  wr_ranges : ranges_between 0 (ranges_of s sid) (own_len s sid - n);
  wr_count : 0 <= n;
}.
Lemma grown_wrote n s s' sid : 0 <= n -> grown n s s' sid -> wrote n s' sid.
Proof. intros Hn [H1 H2 _ H4]. split; [done| |done]. by replace (own_len s' sid - n) with (own_len s sid) by lia. Qed.

(** The tensors a prefill step leaves for the kernels: each request's last cells
    in batch order, the lengths and the rows. *)
Definition prefill_layers s qs : LayerBatchStates :=
  let lens := (fun q => own_len s (seq_id q)) <$> qs in
  mkBatchStates (qs ≫= fun q => last_slots (chunk_size q) s (seq_id q)) lens (foldr Z.max 0 lens) ((fun q => row_index s (seq_id q)) <$> qs).

Lemma chunks_keep qs s : wp (for_each qs (fun q => lift (chunk_of q) ;; mret tt) : MgrAct unit)
  (fun x s' => s' = s /\ (x = Ok tt \/ ~ Forall (fun q => is_Some (current_chunk_size q)) qs)) s.
Proof.
  induction qs as [|q qs IH]; cbn [for_each]; [by split; [|left]|]. apply wp_bind, wp_bind, wp_lift. unfold chunk_of.
  destruct (current_chunk_size q) as [c|] eqn:Hc.
  - apply wp_ret. eapply wp_mono; [exact IH|]. cbv beta. intros x s' [-> [->|Hx]]; (split; [done|]); [by left|right]. by intros [_ ?]%Forall_cons.
  - split; [done|]. right. intros [[c ?] _]%Forall_cons. congruence.
Qed.

Lemma prepare_prefill_ok refs l s qs : sound refs l s -> NoDup (seq_id <$> qs) -> Forall (request_ok s) qs ->
  wp (prepare_prefill qs) (fun x s' => sound refs l s' /\ only_these (seq_id <$> qs) s s' /\
    match x with
    | Ok _ => layer_batch_state s' = prefill_layers s' qs /\ Forall (fun q => wrote (chunk_size q) s' (seq_id q) /\ own_cells s (seq_id q) `prefix_of` own_cells s' (seq_id q) /\ still_ready s' q) qs
    | Raise _ => ~ step_fits s qs
    end) s.
Proof.
  intros Hok Hnd Hrq. unfold prepare_prefill. apply wp_bind. eapply wp_mono; [by apply attach_all_ok|]. cbv beta.
  intros [[]|e] s1 (Hok1 & Ho1 & Hrd).
  2:{ split; [done|]. split; [done|]. intros (ns & Hns & Hrows & _). apply Hrd. by exists ns. }
  destruct Hrd as [Hrd Hroom].
  assert (step_fits s qs -> batch_fits s1 qs) as Hfits.
  { intros (ns & Hns & Hrows & Hcap). destruct (Hroom ns Hns Hrows) as (Hf & Hc1 & Hleft). split; [done|]. split; lia. }
  apply wp_bind. eapply wp_mono; [apply chunks_keep|]. cbv beta. intros [[]|e] s1' [-> Hch].
  2:{ split; [done|]. split; [done|]. intros (ns & Hns & _). destruct Hch as [|Hch]; [done|]. apply Hch. clear -Hns.
      induction Hns as [|q n qs ns [] _ IH]; by constructor. }
  apply wp_bind. eapply wp_mono; [apply (prefill_all_ok refs l qs s1); [done..|]; eapply Forall_impl; [exact Hrd|]; by intros q [? _]|]. cbv beta.
  intros [acc|e] s2 (Hok2 & Ho2 & Hx); [|split; [done|]; split; [by etrans|auto]]. destruct Hx as [(E1 & E2 & E3) Hgr]. cbn in E1, E2, E3.
  apply wp_bind, wp_modify, wp_ret. fold (layered (mkBatchStates (pf_slots acc) (pf_context_lens acc) (foldr Z.max 0 (pf_context_lens acc)) (pf_rows acc)) s2).
  split; [by apply layered_sound|]. split; [etrans; [exact Ho1|]; etrans; [exact Ho2|]; by intros sid _|]. split.
  - rewrite E1, E2, E3. done.
  - rewrite Forall_forall in *. intros q Hin. destruct (Hgr q Hin) as [Hg Hag]. destruct (Hrd q Hin) as [Hr Hpre]. split; [|split].
    + apply (grown_wrote _ s1); [|by apply (stays_grown _ _ s2); [apply layered_stays|]]. unfold chunk_size.
      destruct (current_chunk_size q) eqn:Hc; [by apply (pr_chunk _ _ Hr)|done].
    + etrans; [exact Hpre|]. apply (gw_cells _ _ _ _ Hg).
    + by apply (stays_still_ready s2); [apply layered_stays|].
Qed.
End prefill.
