(* ===== verification/StandardDecode.v ===== *)
(** * The standard cache manager: decode steps

    [_allocate_batch] and [_prepare_decode]: one slot for each request of the
    batch, written with one indexed assignment, and the decoded tokens
    recorded. *)

From stdpp Require Import base gmap list strings.
From Stdlib Require Import ZArith Lia.
From S2P Require Import Prelude PyDict PyBytes Sha256 RoutingMembership RadixTree RadixForest PrefixHash.
From S2P Require Import PrefixIndex PrefixIndexFacts PrefixCapacity PrefixTransfer SamplingParams Sequence PrefixLookup.
From S2P Require Import StandardCache SlotRanges PrefixClient PrefixRefs StandardInvariant StandardMoves StandardIndex StandardSteps.
From S2P Require Import StandardRecord StandardRelease StandardAttach StandardPrefill.

Section decode.
Context `{Digest}.
Implicit Types (s : StandardCacheManager) (sid r : Z) (o : nat) (v l : list Z) (fl : Flight) (g : Z -> Z) (q : Sequence).
#[local] Abbreviation MgrAct := (Act PyExn StandardCacheManager).

(** ** The indexed assignment is one placement after another *)

Definition place_each (rows slots : list Z) s : StandardCacheManager :=
  foldl (fun s x => place x.1 [x.2] s) s (zip rows slots).
Definition scattered (rows cols slots : list Z) s : StandardCacheManager :=
  s <| buffer_req_to_token_slots ::= fun t => foldl (fun t x => put_cell t x.1.1 x.1.2 x.2) t (zip (zip rows cols) slots) |>
    <| row_seq_lens ::= bump_rows rows |> <| row_logical_lens ::= bump_rows rows |>.
Definition roomy s r : Prop := 0 <= r /\ exists row, buffer_req_to_token_slots s !! Z.to_nat r = Some row /\
  0 <= len_of s r < Z.of_nat (length row) /\ row_seq_lens s !! Z.to_nat r = Some (len_of s r).

Lemma alter_as_insert {A} (f : A -> A) (t : list A) i x : t !! i = Some x -> alter f i t = <[i := f x]> t.
Proof.
  intros Hx. apply list_eq. intros j. destruct (decide (j = i)) as [->|Hne].
  - rewrite list_lookup_alter_eq, list_lookup_insert_eq, Hx; [done|]. by apply lookup_lt_Some in Hx.
  - by rewrite list_lookup_alter_ne, list_lookup_insert_ne by done.
Qed.
Lemma bump_rows_base (rows t1 t2 acc : list Z) : (forall r, r ∈ rows -> t1 !! Z.to_nat r = t2 !! Z.to_nat r) ->
  foldl (fun acc r => array_set acc r (default 0 (t1 !! Z.to_nat r) + 1)) acc rows =
  foldl (fun acc r => array_set acc r (default 0 (t2 !! Z.to_nat r) + 1)) acc rows.
Proof.
  revert acc. induction rows as [|r rows IH]; intros acc Hr; cbn [foldl]; [done|]. rewrite (Hr r) by (by left). apply IH. intros r' Hr'. apply Hr. by right.
Qed.

Lemma place_each_scattered rows : forall slots s, NoDup rows -> Forall (roomy s) rows -> length slots = length rows ->
  row_logical_lens s = row_seq_lens s -> place_each rows slots s = scattered rows (len_of s <$> rows) slots s.
Proof.
  induction rows as [|r rows IH]; intros slots s Hnd Hrm Hlen Hlog; [by destruct s|].
  destruct slots as [|x slots]; [done|]. apply NoDup_cons in Hnd as [Hn Hnd].
  pose proof Hrm as [(Hr0 & row & Hrow & Hl & Hsl) Hrms]%Forall_cons. injection Hlen as Hlen.
  assert (forall r', r' ∈ rows -> Z.to_nat r <> Z.to_nat r') as Hne.
  { intros r' Hin E. rewrite Forall_forall in Hrms. destruct (Hrms r' Hin) as [? _]. apply Hn. by replace r with r' by lia. }
  assert (forall r', r' ∈ rows -> len_of (place r [x] s) r' = len_of s r') as Hlen'.
  { intros r' Hin. unfold len_of, place, array_set. cbn. by rewrite list_lookup_insert_ne by by apply Hne. }
  unfold place_each. cbn [zip zip_with foldl fst snd]. fold (place_each rows slots (place r [x] s)). rewrite IH; [|done| |done|].
  - assert (len_of (place r [x] s) <$> rows = len_of s <$> rows) as -> by (apply list_fmap_ext; intros i r' Hi%list_elem_of_lookup_2; by apply Hlen').
    assert (row_of s r = row) as Er by (unfold row_of; by rewrite Hrow).
    assert (forall t, t !! Z.to_nat r = Some (len_of s r) -> foldl (fun acc r0 => array_set acc r0 (default 0 (array_set t r (len_of s r + 1) !! Z.to_nat r0) + 1)) (array_set t r (len_of s r + 1)) rows =
      foldl (fun acc r0 => array_set acc r0 (default 0 (t !! Z.to_nat r0) + 1)) (array_set t r (default 0 (t !! Z.to_nat r) + 1)) rows) as Hb.
    { intros t Ht. rewrite Ht. cbn [default from_option id]. apply bump_rows_base. intros r' Hin. unfold array_set. by rewrite list_lookup_insert_ne by by apply Hne. }
    unfold scattered, place. cbn. rewrite Er, Hlog. unfold bump_rows. cbn [foldl]. rewrite !Hb by done.
    assert (put_cell (buffer_req_to_token_slots s) r (len_of s r) x =
      <[Z.to_nat r := take (Z.to_nat (len_of s r)) row ++ x :: drop (Z.to_nat (len_of s r + 1)) row]> (buffer_req_to_token_slots s)) as ->.
    { unfold put_cell, array_set. rewrite (alter_as_insert _ _ _ row Hrow), (insert_take_drop row) by lia.
      by replace (Z.to_nat (len_of s r + 1)) with (S (Z.to_nat (len_of s r))) by lia. }
    done.
  - rewrite Forall_forall in *. intros r' Hin. destruct (Hrms r' Hin) as (H0 & row' & Hrow' & Hl' & Hsl'). split; [done|]. exists row'.
    rewrite Hlen' by done. unfold place, array_set. cbn. rewrite !list_lookup_insert_ne by by apply Hne. done.
  - unfold place. cbn. by rewrite Hlog.
Qed.

(** ** A slot for each request *)

Definition in_rows s sids (rows : list Z) : Prop := Forall2 (fun sid r => seq_id_to_row s !! sid = Some r) sids rows.
Definition raised_on (sids : list Z) g : Z -> Z := fun sid => if bool_decide (sid ∈ sids) then g sid + 1 else g sid.
(** The request has one more cell, which shows the slot [x]. *)
Definition given_slot s s' sid (x : Z) : Prop := grown 1 s s' sid /\ last_slots 1 s' sid = [x] /\ same_record sid s s'.
Lemma given_slot_stays s s1 s2 sid x : stays sid s1 s2 -> given_slot s s1 sid x -> given_slot s s2 sid x.
Proof.
  intros Hst (H1 & H2 & H3). split; [by apply (stays_grown _ _ s1)|]. split; [by rewrite (stays_last_slots _ _ _ _ Hst)|].
  etrans; [done|by apply stays_record].
Qed.
Lemma given_slot_from s s1 s2 sid x : stays sid s s1 -> given_slot s1 s2 sid x -> given_slot s s2 sid x.
Proof. intros Hst (H1 & H2 & H3). split; [by apply (grown_from _ _ s1)|]. split; [done|]. etrans; [by apply stays_record|done]. Qed.

Lemma ranges_within fl s sid r : mgr_ok fl s -> seq_id_to_row s !! sid = Some r -> ranges_between 0 (ranges_of s sid) (len_of s r).
Proof.
  intros Hok Hr. pose proof (mo_seqs _ _ Hok sid) as Hw. rewrite Hr in Hw.
  eapply ranges_between_weaken; [..|apply (so_ranges _ _ _ _ _ Hw)]; cbn; [lia|]. pose proof (so_gap _ _ _ _ _ Hw). lia.
Qed.
Lemma place_given s sid r x : shape_ok s -> seq_id_to_row s !! sid = Some r -> len_of s r < max_model_len (std_config s) ->
  ranges_between 0 (ranges_of s sid) (len_of s r) ->
  given_slot s (place r [x] s) sid x.
Proof.
  intros Hs Hr Hl Hrs. pose proof (row_valid s sid r Hs Hr) as Hrv. pose proof (place_len s r [x] Hs Hrv) as Hpl. pose proof (sh_range s Hs r).
  assert (own_len (place r [x] s) sid = own_len s sid + 1) as Ho.
  { unfold own_len. change (seq_id_to_row (place r [x] s)) with (seq_id_to_row s). by rewrite Hr, Hpl. }
  split; [|split; [|by split]].
  - split; [done| | |].
    + change (seq_id_to_row (place r [x] s)) with (seq_id_to_row s). by rewrite Hr.
    + unfold own_cells. change (seq_id_to_row (place r [x] s)) with (seq_id_to_row s). rewrite Hr.
      rewrite place_cells by (try done; cbn; lia). by apply prefix_app_r.
    + unfold own_len. by rewrite Hr.
  - unfold last_slots. rewrite Ho. unfold own_len, own_cells. change (seq_id_to_row (place r [x] s)) with (seq_id_to_row s). rewrite Hr.
    rewrite place_cells by (try done; cbn; lia). replace (len_of s r + 1 - 1) with (len_of s r) by lia. apply (slice_app_r _ [x]). by apply cells_length.
Qed.

Lemma places_ok refs l sids : forall rows slots s g, mgr_ok (mkFlight refs (slots ++ l) g) s -> NoDup sids -> in_rows s sids rows ->
  length slots = length sids -> Forall (fun sid => own_len s sid < max_model_len (std_config s)) sids ->
  mgr_ok (mkFlight refs l (raised_on sids g)) (place_each rows slots s) /\ only_these sids s (place_each rows slots s) /\
  Forall2 (given_slot s (place_each rows slots s)) sids slots.
Proof.
  induction sids as [|sid sids IH]; intros rows slots s g Hok Hnd Hin Hlen Hroom.
  { apply Forall2_nil_inv_l in Hin as ->. destruct slots; [|done]. split_and!; [exact Hok|done|constructor]. }
  apply Forall2_cons_inv_l in Hin as (r & rows' & Hr & Hin & ->). destruct slots as [|x slots]; [done|]. injection Hlen as Hlen.
  apply NoDup_cons in Hnd as [Hn Hnd]. apply Forall_cons in Hroom as [Hl Hroom]. unfold own_len in Hl. rewrite Hr in Hl.
  destruct (place_ok s sid r refs [x] (slots ++ l) g Hok Hr ltac:(cbn; lia)) as [Hok1 Ho1]. pose proof (place_given s sid r x (mo_shape _ _ Hok) Hr Hl (ranges_within _ _ _ _ Hok Hr)) as Hg1.
  assert (forall sid', sid' ∈ sids -> stays sid' s (place r [x] s)) as Hst by (intros sid' Hin'; apply Ho1; congruence).
  destruct (IH rows' slots _ _ Hok1 Hnd) as (Hok2 & Ho2 & Hg2); [exact Hin|done| |].
  { rewrite Forall_forall in *. intros sid' Hin'. rewrite (stays_own_len _ _ _ (Hst sid' Hin')), (st_config _ _ _ (Hst sid' Hin')). auto. }
  change (place_each (r :: rows') (x :: slots) s) with (place_each rows' slots (place r [x] s)). split_and!.
  - eapply mgr_ok_gap; [|exact Hok2]. intros sid'. unfold raised_on, set_gap. cbn [length].
    destruct (decide (sid' = sid)) as [->|Hne].
    + rewrite (bool_decide_eq_false_2 (sid ∈ sids)), bool_decide_eq_true_2 by (done || by left). done.
    + rewrite (bool_decide_ext (sid' ∈ sid :: sids) (sid' ∈ sids)) by set_solver. done.
  - by eapply only_these_cons.
  - constructor; [by apply (given_slot_stays _ (place r [x] s)), Hg1; apply Ho2|].
    rewrite Forall2_lookup in *. intros i. specialize (Hg2 i). destruct (sids !! i) as [sid'|] eqn:Hi; inversion Hg2; constructor.
    eapply given_slot_from; [apply Hst; by eapply list_elem_of_lookup_2|done].
Qed.

Lemma row_lens_run s rows : Forall (fun r => row_seq_lens s !! Z.to_nat r = Some (len_of s r)) rows -> row_lens rows s = (Ok (len_of s <$> rows), s).
Proof.
  induction 1 as [|r rows Hr _ IH]; cbn [row_lens]; [done|]. unfold row_len, array_get, mbind, Act_bind, read, lift, id in *. cbn. rewrite Hr. cbn. by rewrite IH.
Qed.

(** The rows found or made: nothing else happens to a request. *)
Record rows_given s s' : Prop := {
  gr_record sid : same_record sid s s';
  gr_len sid : own_len s' sid = own_len s sid;
  gr_cells sid : own_cells s' sid = own_cells s sid;
  gr_free : num_free_slots s' = num_free_slots s;
}.
#[global] Instance rows_given_refl : Reflexive rows_given.
Proof. by split. Qed.
#[global] Instance rows_given_trans : Transitive rows_given.
Proof. intros s1 s2 s3 [A1 A2 A3 A4] [B1 B2 B3 B4]. split; [intros sid; etrans; [apply A1|apply B1]|intros; by rewrite B2, A2|intros; by rewrite B3, A3|congruence]. Qed.

(** The requests have rows. *)
Definition resident s (sids : list Z) : Prop := Forall (fun sid => is_Some (seq_id_to_row s !! sid)) sids.

Lemma get_free_rows_ok fl sids : forall s, mgr_ok fl s -> NoDup sids -> (forall sid, sid ∈ sids -> gap fl sid = 0) ->
  wp (get_free_rows sids) (fun x s' => mgr_ok fl s' /\ only_these sids s s' /\
    match x with Ok rows => in_rows s' sids rows /\ rows_given s s' | Raise _ => ~ resident s sids end) s.
Proof.
  induction sids as [|sid sids IH]; intros s Hok Hnd Hg; cbn [get_free_rows].
  { apply wp_ret. split_and!; try done. constructor. }
  apply NoDup_cons in Hnd as [Hn Hnd]. apply wp_bind. eapply wp_mono; [apply (get_free_row_ok s fl sid Hok); intros _; apply Hg; by left|]. cbv beta.
  intros [r|e] s1.
  2:{ intros (-> & Hn0 & _). split; [done|]. split; [done|]. intros [[r Hr] _]%Forall_cons. congruence. }
  intros (Hgiven & Hok1 & Hr1 & Ho1 & Hsr1 & Hl1 & Hcl1).
  assert (rows_given s s1) as Hgr.
  { split.
    - intros sid'. destruct (decide (sid' = sid)) as [->|Hne]; [done|by apply stays_record, Ho1].
    - intros sid'. destruct (decide (sid' = sid)) as [->|Hne]; [|by apply stays_own_len, Ho1]. unfold own_len at 1. by rewrite Hr1.
    - intros sid'. destruct (decide (sid' = sid)) as [->|Hne]; [|by apply stays_own_cells, Ho1]. unfold own_cells at 1. by rewrite Hr1.
    - destruct Hgiven as [[-> _]|(_ & rows & _ & ->)]; done. }
  apply wp_bind. eapply wp_mono; [apply (IH s1 Hok1 Hnd); intros sid' ?; apply Hg; by right|]. cbv beta.
  intros [rows|e] s2 (Hok2 & Ho2 & Hx); [|split; [done|]; split; [by eapply only_these_cons|]].
  2:{ intros [_ Hr]%Forall_cons. apply Hx. unfold resident in *. rewrite Forall_forall in *. intros sid' Hin. rewrite (st_row _ _ _ (Ho1 sid' ltac:(congruence))). auto. }
  destruct Hx as [Hin Hgr2].
  apply wp_ret. split; [done|]. split; [by eapply only_these_cons|]. split; [|by etrans]. constructor; [|done].
  by rewrite (st_row _ _ _ (Ho2 sid Hn)).
Qed.

Lemma in_rows_NoDup s sids rows : shape_ok s -> NoDup sids -> in_rows s sids rows -> NoDup rows.
Proof.
  intros Hs Hnd Hin. induction Hin as [|sid r sids rows Hr Hin IH]; [constructor|]. apply NoDup_cons in Hnd as [Hn Hnd].
  constructor; [|auto]. intros Hx. apply Hn. destruct (list_elem_of_lookup_1 _ _ Hx) as [i Hi].
  destruct (Forall2_lookup_r _ _ _ _ _ Hin Hi) as (sid' & Hi' & Hr'). rewrite (row_inj s sid sid' r Hs Hr Hr'). by eapply list_elem_of_lookup_2.
Qed.
Lemma in_rows_roomy s sids rows : shape_ok s -> in_rows s sids rows -> Forall (fun sid => own_len s sid < max_model_len (std_config s)) sids ->
  Forall (roomy s) rows.
Proof.
  intros Hs Hin Hroom. induction Hin as [|sid r sids rows Hr Hin IH]; [constructor|]. apply Forall_cons in Hroom as [Hl Hroom].
  constructor; [|auto]. pose proof (row_valid s sid r Hs Hr) as Hrv. destruct (row_lookup s r Hs Hrv) as (row & Hb & _ & Hlr & Hls).
  unfold own_len in Hl. rewrite Hr in Hl. pose proof (sh_range s Hs r). split; [lia|]. exists row. split_and!; [done|lia|lia|done].
Qed.
Lemma roomy_in_table s rows : Forall (roomy s) rows -> forallb (in_table s) (zip rows (len_of s <$> rows)) = true.
Proof.
  induction 1 as [|r rows (_ & row & Hb & Hl & _) _ IH]; [done|]. cbn. rewrite IH, andb_true_r. unfold in_table. cbn. rewrite Hb. apply Z.ltb_lt. lia.
Qed.

Lemma allocate_batch_ok refs l s sids g : mgr_ok (mkFlight refs l g) s -> NoDup sids -> (forall sid, sid ∈ sids -> g sid = 0) ->
  Forall (fun sid => own_len s sid < max_model_len (std_config s)) sids ->
  wp (allocate_batch sids) (fun x s' => only_these sids s s' /\
    match x with
    | Ok slots => mgr_ok (mkFlight refs l (raised_on sids g)) s' /\ Forall2 (given_slot s s') sids slots
    | Raise _ => mgr_ok (mkFlight refs l g) s' /\ ~ (resident s sids /\ Z.of_nat (length sids) <= capacity s)
    end) s.
Proof.
  intros Hok Hnd Hg Hroom. unfold allocate_batch. cbv zeta. set (n := Z.of_nat (length sids)).
  apply wp_bind. eapply wp_mono; [by apply evict_until_free_ok|]. cbv beta. intros x s1 (-> & Hok1 & Hq & Hcap & Hmake).
  assert (only_these sids s s1) as Ho1 by (intros sid _; by apply quiet_stays). destruct (quiet_parts _ _ Hq) as (Hc1 & _ & _ & Hr1 & _).
  apply wp_bind, wp_read. cbv beta iota. unfold id. apply wp_bind, wp_guard; intros Hfree; bool_to_prop.
  { split; [done|]. split; [done|]. intros [_ Hle]. fold n in Hle. lia. }
  apply wp_bind. eapply wp_mono; [by apply (get_free_rows_ok _ sids s1 Hok1)|]. cbv beta.
  intros [rows|e] s2 (Hok2 & Ho2 & Hx).
  2:{ split; [by etrans|]. split; [done|]. intros [Hr _]. apply Hx. unfold resident in *. by rewrite Hr1. }
  destruct Hx as [Hin Hgr].
  pose proof (mo_shape _ _ Hok2) as Hs2.
  assert (forall sid, own_len s2 sid = own_len s sid /\ own_cells s2 sid = own_cells s sid /\ same_record sid s s2) as Hsame.
  { intros sid. rewrite (gr_len _ _ Hgr), (quiet_own_len _ _ sid Hq), (gr_cells _ _ Hgr), (stays_own_cells _ _ _ (quiet_stays _ _ sid Hq)). split; [done|]. split; [done|]. etrans; [by apply stays_record, quiet_stays|apply Hgr]. }
  assert (std_config s2 = std_config s) as Hcf by apply (sr_config 0 s s2), Hsame.
  assert (Forall (fun sid => own_len s2 sid < max_model_len (std_config s2)) sids) as Hroom2.
  { eapply Forall_impl; [exact Hroom|]. intros sid. cbv beta. by rewrite Hcf, (proj1 (Hsame sid)). }
  pose proof (in_rows_roomy _ _ _ Hs2 Hin Hroom2) as Hrm. pose proof (in_rows_NoDup _ _ _ Hs2 Hnd Hin) as Hndr.
  apply wp_bind. unfold wp at 1. rewrite row_lens_run by (eapply Forall_impl; [exact Hrm|]; by intros r (_ & row & _ & _ & ?)). cbn [fst snd].
  apply wp_bind. unfold pop_slots. apply wp_bind, wp_read. cbv beta iota zeta. unfold id. apply wp_bind, wp_modify, wp_ret. cbv beta iota.
  fold (popped n s2). fold (pop_of n s2). pose proof (gr_free _ _ Hgr) as Hn2.
  pose proof (popped_ok s2 refs l g n Hok2 ltac:(lia)) as Hok3. pose proof (pop_length n s2 Hs2 ltac:(lia)) as Hlen. fold (pop_of n s2) in Hok3.
  set (slots := pop_of n s2) in *. set (s3 := popped n s2) in *.
  destruct (places_ok refs l sids rows slots s3 g Hok3 Hnd Hin ltac:(lia) Hroom2) as (Hok4 & Ho4 & Hg4).
  change (len_of s2) with (len_of s3). apply wp_bind. unfold scatter. apply wp_bind, wp_read. cbv beta iota. unfold id.
  apply wp_bind, wp_guard; [intros Hgd; by rewrite (roomy_in_table s3 rows Hrm) in Hgd|]. intros _. apply wp_modify. cbv beta iota.
  apply wp_bind, wp_modify, wp_ret. change (only_these sids s (scattered rows (len_of s3 <$> rows) slots s3) /\
    mgr_ok (mkFlight refs l (raised_on sids g)) (scattered rows (len_of s3 <$> rows) slots s3) /\
    Forall2 (given_slot s (scattered rows (len_of s3 <$> rows) slots s3)) sids slots).
  rewrite <- place_each_scattered; [|done|exact Hrm|rewrite <- (Forall2_length _ _ _ Hin); lia|apply Hok3].
  split_and!; [|done|].
  - etrans; [exact Ho1|]. etrans; [exact Ho2|]. etrans; [|exact Ho4]. intros sid _. by split.
  - eapply Forall2_impl; [exact Hg4|]. intros sid x (H1 & H3 & H4). destruct (Hsame sid) as (E1 & E3 & E2). split_and!; [|done|].
    + by apply (grown_same _ s s3).
    + etrans; [exact E2|]. etrans; [|exact H4]. by split.
Qed.

(** ** Recording the decoded tokens *)

Record same_rows s s' : Prop := {
  sw_rows : seq_id_to_row s' = seq_id_to_row s;
  sw_lens : row_seq_lens s' = row_seq_lens s;
  sw_table : buffer_req_to_token_slots s' = buffer_req_to_token_slots s;
  sw_ranges : seq_id_to_cached_ranges s' = seq_id_to_cached_ranges s;
}.
#[global] Instance same_rows_refl : Reflexive same_rows.
Proof. by split. Qed.
#[global] Instance same_rows_trans : Transitive same_rows.
Proof. intros s1 s2 s3 [A1 A2 A3 A4] [B1 B2 B3 B4]. split; congruence. Qed.
Lemma records_rows sid s s' : records sid s s' -> same_rows s s'.
Proof. intros [-> _]. done. Qed.
Lemma same_rows_last_slots n s s' sid : same_rows s s' -> last_slots n s' sid = last_slots n s sid.
Proof. intros [H1 H2 H3 _]. unfold last_slots, own_len, own_cells, cells, len_of, row_of. by rewrite H1, H2, H3. Qed.
Lemma same_rows_own_len s s' sid : same_rows s s' -> own_len s' sid = own_len s sid.
Proof. intros [H1 H2 H3 _]. unfold own_len, len_of. by rewrite H1, H2. Qed.
Lemma same_rows_grown n s s1 s2 sid : same_rows s1 s2 -> grown n s s1 sid -> grown n s s2 sid.
Proof.
  intros Hw [H1 H2 H3 H4]. split.
  - by rewrite (same_rows_own_len _ _ _ Hw).
  - by rewrite (sw_rows _ _ Hw).
  - destruct Hw as [E1 E2 E3 _]. unfold own_cells at 2, cells, len_of, row_of. by rewrite E1, E2, E3.
  - unfold ranges_of in *. by rewrite (sw_ranges _ _ Hw).
Qed.

Record slot_ready g s q (x : Z) : Prop := {
  dr_gap : g (seq_id q) = 1;
  dr_row : is_Some (seq_id_to_row s !! seq_id q);
  dr_slot : last_slots 1 s (seq_id q) = [x];
  dr_attached : hit_attached s q;
  dr_first : caching s = true -> multimodal_digest (tags q) = None -> prefix_runtime_states s !! seq_id q = None ->
    own_len s (seq_id q) - 1 = Z.of_nat (length (attached_of s (seq_id q))) * size_of s;
  dr_multimodal : caching s = true -> is_Some (multimodal_digest (tags q)) -> prefix_runtime_states s !! seq_id q = None;
  dr_token t : decode_input_token q = Ok t -> int64s [t] = true;
}.
Lemma stays_slot_ready g sid n s s' q x : stays (seq_id q) s s' -> seq_id q <> sid -> slot_ready g s q x -> slot_ready (set_gap g sid n) s' q x.
Proof.
  intros Hst Hne [H1 H2 H3 H4 H5 H6 H7]. pose proof (stays_caching _ _ _ Hst) as Hca. split.
  - unfold set_gap. by rewrite decide_False.
  - by rewrite (st_row _ _ _ Hst).
  - by rewrite (stays_last_slots _ _ _ _ Hst).
  - by apply (stays_hit_attached s).
  - rewrite Hca, (stays_own_len _ _ _ Hst). destruct Hst as [Hc _ _ _ Ha Hs _]. unfold attached_of, size_of. by rewrite Ha, Hs, Hc.
  - rewrite Hca, (st_state _ _ _ Hst). done.
  - done.
Qed.

(** The request has a token to decode. *)
Definition has_token q : Prop := exists t, decode_input_token q = Ok t.

Lemma record_decoded_ok refs l qs : forall slots s g, mgr_ok (mkFlight refs l g) s -> NoDup (seq_id <$> qs) -> Forall2 (slot_ready g s) qs slots ->
  wp (record_decoded (zip qs slots)) (fun x s' => sound refs l s' /\ only_these (seq_id <$> qs) s s' /\ same_rows s s' /\
    match x with Ok _ => Forall (still_ready s') qs | Raise _ => ~ Forall has_token qs end) s.
Proof.
  induction qs as [|q qs IH]; intros slots s g Hok Hnd Hrd.
  { cbn. apply wp_ret. split_and!; [by eexists|done|done|done]. }
  apply Forall2_cons_inv_l in Hrd as (x & slots' & Hq & Hrd & ->). cbn in Hnd. apply NoDup_cons in Hnd as [Hn Hnd]. cbn [zip zip_with record_decoded].
  destruct Hq as [Hgap [r Hr] Hsl Hatt Hfirst Hmm Htok]. unfold last_slots, own_len, own_cells in Hsl. unfold own_len in Hfirst. rewrite Hr in Hsl, Hfirst.
  apply wp_bind, wp_lift. destruct (decode_input_token q) as [t|e] eqn:Ht.
  2:{ split_and!; [by eexists|done..|]. intros [[t Ht'] _]%Forall_cons. congruence. }
  apply wp_bind. eapply wp_mono; [apply (record_step_ok refs l g s q r [t] [x] Hok Hr)|].
  - by rewrite Hgap.
  - by rewrite Hgap.
  - by apply Htok.
  - done.
  - by rewrite Hgap.
  - done.
  - cbv beta. intros [[]|e] s1; [|by intros (_ & [])]. intros [[Hok1 Hrc] Hleft]. pose proof (records_others _ _ _ Hrc) as Ho1.
    eapply wp_mono; [apply (IH slots' s1 _ Hok1 Hnd)|].
    + rewrite Forall2_lookup in *. intros i. specialize (Hrd i). destruct (qs !! i) as [q'|] eqn:Hi; inversion Hrd; constructor.
      assert (seq_id q' <> seq_id q) by (intros E; apply Hn; rewrite <- E; by eapply list_elem_of_fmap_2, list_elem_of_lookup_2).
      apply (stays_slot_ready g _ _ s); [by apply Ho1|done|done].
    + cbv beta. intros x' s2 (Hok2 & Ho2 & Hw2 & Hx). split; [done|]. split; [by eapply only_these_cons|]. split; [etrans; [by eapply records_rows|done]|].
      destruct x'; [|by intros [_ ?]%Forall_cons]. constructor; [|done]. apply (stays_still_ready s1); [by apply Ho2|].
      assert (caching s1 = caching s) as Hca by (rewrite (rc_frame _ _ _ Hrc); done). split.
      * eapply (left_recordable refs l _ s s1 q [t] [x] Hok1); [apply set_gap_at|by rewrite (sw_rows _ _ (records_rows _ _ _ Hrc)), Hr|done|done|done|done].
      * unfold hit_attached, attached_of. rewrite Hca. by rewrite (rc_frame _ _ _ Hrc).
Qed.

(** ** The step *)

(** What the scheduler promises of a request it puts in a decode batch. *)
Record decode_ok s q : Prop := {
  do_recordable : recordable s q;
  do_attached : hit_attached s q;
  do_token t : decode_input_token q = Ok t -> int64s [t] = true;
  do_room : own_len s (seq_id q) < max_model_len (std_config s);
}.
Definition decode_layers s qs : LayerBatchStates :=
  let lens := (fun q => own_len s (seq_id q)) <$> qs in
  mkBatchStates (qs ≫= fun q => last_slots 1 s (seq_id q)) lens (foldr Z.max 0 lens) ((fun q => row_index s (seq_id q)) <$> qs).

Lemma settle_all refs l g s qs : mgr_ok (mkFlight refs l g) s -> Forall (recordable s) qs ->
  exists g', mgr_ok (mkFlight refs l g') s /\ forall sid, sid ∈ seq_id <$> qs -> g' sid = 0.
Proof.
  intros Hok. induction 1 as [|q qs Hq _ (g' & Hok' & Hg')].
  - exists g. split; [done|]. by intros sid ?%elem_of_nil.
  - exists (set_gap g' (seq_id q) 0). split; [by apply settle|]. intros sid Hin. unfold set_gap. case_decide; [done|]. cbn in Hin.
    apply elem_of_cons in Hin as [?|Hin]; [done|by apply Hg'].
Qed.
Lemma known_rows_run s sids : Forall (fun sid => is_Some (seq_id_to_row s !! sid)) sids -> known_rows s sids = Ok (row_index s <$> sids).
Proof. induction 1 as [|sid sids [r Hr] _ IH]; cbn [known_rows]; [done|]. unfold row_index at 1. rewrite Hr, IH. cbn. unfold row_index. by rewrite Hr. Qed.

Lemma given_ready s s1 g q x : decode_ok s q -> given_slot s s1 (seq_id q) x -> g (seq_id q) = 1 -> slot_ready g s1 q x.
Proof.
  intros [Hrec Hatt Htok _] ([Hl Hr _ _] & Hs & Hsr) Hg. pose proof (same_record_caching _ _ _ Hsr) as Hca. split; try done.
  - unfold hit_attached, attached_of. by rewrite Hca, (sr_attached _ _ _ Hsr).
  - rewrite Hca, (sr_state _ _ _ Hsr), Hl. unfold attached_of, size_of. rewrite (sr_attached _ _ _ Hsr), (sr_config _ _ _ Hsr). intros Hc Hd Hn.
    pose proof (rd_plain _ _ Hrec Hc Hd) as Ht. unfold tracked in Ht. rewrite Hn in Ht. unfold attached_of, size_of in Ht. lia.
  - rewrite Hca, (sr_state _ _ _ Hsr). apply Hrec.
Qed.

(** The batch can be decoded. *)
Definition decode_fits s qs : Prop :=
  Forall has_token qs /\ resident s (seq_id <$> qs) /\ Z.of_nat (length qs) <= capacity s.
Lemma decode_tokens_raise qs e : decode_tokens qs = Raise e -> ~ Forall has_token qs.
Proof.
  induction qs as [|q qs IH]; cbn [decode_tokens]; [done|]. intros Ht [[t Hq] Hf]%Forall_cons. rewrite Hq in Ht. cbn in Ht.
  destruct (decode_tokens qs) as [ts|e']; [done|]. by apply IH.
Qed.

Lemma prepare_decode_ok refs l s qs : sound refs l s -> NoDup (seq_id <$> qs) -> Forall (decode_ok s) qs ->
  wp (prepare_decode qs) (fun x s' => sound refs l s' /\ only_these (seq_id <$> qs) s s' /\
    match x with
    | Ok _ => layer_batch_state s' = decode_layers s' qs /\ Forall (fun q => grown 1 s s' (seq_id q) /\ still_ready s' q) qs
    | Raise _ => ~ decode_fits s qs
    end) s.
Proof.
  intros Hok Hnd Hrq. unfold prepare_decode. apply wp_bind, wp_lift. destruct (decode_tokens qs) as [toks|e] eqn:Htoks.
  2:{ split; [done|]. split; [done|]. intros (Ht & _). apply (decode_tokens_raise qs e); done. }
  pose proof Hok as [g0 Hok0]. destruct (settle_all refs l g0 s qs Hok0) as (g & Hok1 & Hg); [by eapply Forall_impl; [exact Hrq|]; intros q [? _ _ _]|].
  apply wp_bind. eapply wp_mono; [apply (allocate_batch_ok refs l s (seq_id <$> qs) g Hok1 Hnd Hg)|].
  { rewrite Forall_fmap. eapply Forall_impl; [exact Hrq|]. by intros q [_ _ _ ?]. }
  cbv beta. intros [slots|e] s1 [Ho1 Hx].
  2:{ destruct Hx as [Hx Hno]. split; [by eexists|]. split; [done|]. intros (_ & Hr & Hle). apply Hno. by rewrite length_fmap. }
  destruct Hx as [Hok2 Hgs].
  apply wp_bind, wp_read. cbv beta iota. unfold id. apply wp_bind, wp_lift.
  assert (Forall (fun sid => is_Some (seq_id_to_row s1 !! sid)) (seq_id <$> qs)) as Hrows.
  { rewrite Forall_lookup. intros i sid Hi. destruct (Forall2_lookup_l _ _ _ _ _ Hgs Hi) as (x & _ & [] & _). done. }
  rewrite known_rows_run by done. rewrite Forall2_fmap_l in Hgs. apply wp_bind.
  eapply wp_mono; [apply (record_decoded_ok refs l qs slots s1 _ Hok2 Hnd)|].
  { rewrite Forall2_lookup in *. intros i. specialize (Hgs i). destruct (qs !! i) as [q|] eqn:Hi; inversion Hgs; constructor.
    pose proof (list_elem_of_lookup_2 _ _ _ Hi) as Hin. apply (given_ready s); [by eapply Forall_forall in Hrq|done|].
    unfold raised_on. rewrite bool_decide_eq_true_2 by (by apply list_elem_of_fmap_2). rewrite Hg; [done|by apply list_elem_of_fmap_2]. }
  cbv beta. intros [[]|e] s2 (Hok3 & Ho2 & Hw & Hagain).
  2:{ split; [done|]. split; [by etrans|]. by intros (Ht & _). }
  assert (forall q, q ∈ qs -> len_of s2 (row_index s1 (seq_id q)) = own_len s2 (seq_id q) /\ row_seq_lens s2 !! Z.to_nat (row_index s1 (seq_id q)) = Some (len_of s2 (row_index s1 (seq_id q)))) as Hl.
  { intros q Hin. rewrite Forall_forall in Hrows. destruct (Hrows (seq_id q)) as [r Hr]; [by apply list_elem_of_fmap_2|].
    unfold row_index, own_len. rewrite (sw_rows _ _ Hw), Hr. split; [done|]. destruct Hok3 as [g3 Hok3]. pose proof (mo_shape _ _ Hok3) as Hs3.
    rewrite <- (sw_rows _ _ Hw) in Hr. by destruct (row_lookup s2 r Hs3 (row_valid s2 _ r Hs3 Hr)) as (row & _ & _ & _ & ?). }
  apply wp_bind. unfold wp at 1. rewrite row_lens_run.
  2:{ rewrite !Forall_fmap, Forall_forall. intros q Hin. by apply Hl. }
  cbn [fst snd]. apply wp_bind, wp_modify, wp_ret.
  set (b := mkBatchStates _ _ _ _). change (sound refs l (layered b s2) /\ only_these (seq_id <$> qs) s (layered b s2) /\
    b = decode_layers (layered b s2) qs /\ Forall (fun q => grown 1 s (layered b s2) (seq_id q) /\ still_ready (layered b s2) q) qs).
  split; [by apply layered_sound|]. split; [etrans; [exact Ho1|]; etrans; [exact Ho2|]; by intros sid _|]. split.
  - assert (slots = qs ≫= fun q => last_slots 1 s2 (seq_id q)) as ->.
    { clear -Hgs Hw. induction Hgs as [|q x qs slots (_ & Hx & _) _ IH]; [done|]. rewrite bind_cons, <- IH.
      by rewrite (same_rows_last_slots _ _ _ _ Hw), Hx. }
    assert (len_of s2 <$> (row_index s1 <$> (seq_id <$> qs)) = (fun q => own_len s2 (seq_id q)) <$> qs) as El.
    { rewrite <- !list_fmap_compose. apply list_fmap_ext. intros i q Hi. cbn. by apply Hl, (list_elem_of_lookup_2 _ i). }
    unfold b, decode_layers. rewrite El, <- list_fmap_compose. cbn. f_equal. apply list_fmap_ext. intros i q _. cbn. unfold row_index.
    by rewrite <- (sw_rows _ _ Hw).
  - rewrite Forall_lookup. intros i q Hi. destruct (Forall2_lookup_l _ _ _ _ _ Hgs Hi) as (x & _ & Hgi & _). split.
    + by apply (stays_grown _ _ s2), (same_rows_grown _ _ s1); [apply layered_stays|..].
    + apply (stays_still_ready s2); [apply layered_stays|by eapply Forall_lookup_1 in Hagain].
Qed.
End decode.
