(* ===== verification/StandardGuarantees.v ===== *)
(** * The standard cache manager: guarantees

    The manager's operations as steps, and what holds in every state they reach
    from a new manager, operations that raise included. *)

From stdpp Require Import base gmap list strings.
From Stdlib Require Import ZArith Lia.
From S2P Require Import Prelude PyDict PyBytes Sha256 RoutingMembership RadixTree RadixForest PrefixHash.
From S2P Require Import PrefixIndex PrefixIndexFacts PrefixCapacity PrefixContract SamplingParams Sequence PrefixLookup.
From S2P Require Import StandardCache SlotRanges PrefixClient PrefixRefs StandardInvariant StandardMoves StandardIndex StandardSteps.
From S2P Require Import StandardRecord StandardRelease StandardAttach StandardMaterialize StandardCaches StandardReports StandardConsult StandardPrefill StandardDecode.

Section guarantees.
Context `{Digest}.
Implicit Types (s : StandardCacheManager) (sid r : Z) (o : nat) (q : Sequence).
#[local] Abbreviation MgrAct := (Act PyExn StandardCacheManager).

(** ** A new manager *)

Lemma length_arange n : Z.of_nat (length (arange n)) = Z.max 0 n.
Proof. unfold arange. rewrite length_fmap, length_seq. lia. Qed.
Lemma new_lens n i : default 0 (replicate n 0 !! i) = 0.
Proof. destruct (decide (i < n)%nat); [by rewrite lookup_replicate_2|]. by rewrite lookup_ge_None_2 by (rewrite length_replicate; lia). Qed.

Lemma new_standard_ok cf s : new_standard cf = Ok s -> 0 <= num_kvcache_slots cf -> mgr_ok rest s.
Proof.
  intros Hnew Hn. unfold new_standard in Hnew. destruct (new_prefix_cache cf) as [ix|e] eqn:Hix; [|done]. cbn in Hnew.
  injection Hnew as Hnew. assert (blk s = ∅) as Hblk.
  { rewrite <- Hnew. unfold blk. cbn. unfold new_prefix_cache in Hix. destruct (enable_prefix_caching cf); [|by injection Hix as <-].
    destruct (new_index _ _ _) as [x|] eqn:Hx; [|done]. injection Hix as <-. by apply (new_index_empty _ _ _ x Hx). }
  split; cbn.
  - subst s. split; cbn.
    + apply length_arange.
    + rewrite length_arange. lia.
    + rewrite length_replicate. lia.
    + apply Forall_replicate. rewrite length_replicate. lia.
    + by rewrite !length_replicate.
    + done.
    + intros r. unfold len_of. cbn. rewrite new_lens. lia.
    + by rewrite app_nil_r.
    + intros r _. unfold len_of. cbn. by rewrite new_lens.
  - subst s. unfold index_ok, index_of. cbn. unfold new_prefix_cache in Hix. destruct (enable_prefix_caching cf) eqn:He; [|by injection Hix as <-].
    destruct (new_index _ _ _) as [x|] eqn:Hx; [|done]. injection Hix as <-. cbn. split; [done|]. split; [by eapply new_index_inv|].
    destruct (new_index_empty _ _ _ x Hx) as (_ & E & _). by rewrite E.
  - intros id en Hen. by rewrite Hblk in Hen.
  - unfold refs_ok. rewrite Hblk. subst s. split; [done|]. constructor.
  - intros sid. subst s. done.
  - unfold conserved, shared. rewrite Hblk. subst s. unfold free, private, shared_of. cbn. rewrite fmap_empty.
    rewrite take_ge by (pose proof (length_arange (num_kvcache_slots cf)); lia). cbn. by rewrite app_nil_r.
Qed.

(** ** The operations as steps *)

Inductive StandardOp :=
  | PrepareStep (qs : list Sequence) (is_prefill : bool)
  | ForwardEnd (qs : list Sequence)
  | FreeSeq (sid : Z)
  | Consult (xs : list Query).

Definition run_standard (op : StandardOp) : MgrAct unit :=
  match op with
  | PrepareStep qs b => prepare_step qs b ;; mret tt
  | ForwardEnd qs => on_forward_end qs
  | FreeSeq sid => free_seq sid
  | Consult xs => consult xs
  end.

(** What the caller promises: the scheduler's batches name each request once,
    its prefix hit and its lengths are the manager's. *)
Definition standard_op_ok s (op : StandardOp) : Prop :=
  match op with
  | PrepareStep qs true => NoDup (seq_id <$> qs) /\ Forall (request_ok s) qs
  | PrepareStep qs false => NoDup (seq_id <$> qs) /\ Forall (decode_ok s) qs
  | ForwardEnd qs => Forall (hit_matches s) qs
  | FreeSeq _ | Consult _ => True
  end.
Definition op_requests (op : StandardOp) : list Z :=
  match op with PrepareStep qs _ => seq_id <$> qs | ForwardEnd _ | Consult _ => [] | FreeSeq sid => [sid] end.

Inductive standard_reachable (cf : StandardConfig) : StandardCacheManager -> Prop :=
  | standard_new s : new_standard cf = Ok s -> standard_reachable cf s
  | standard_step s op : standard_reachable cf s -> standard_op_ok s op -> standard_reachable cf (run_standard op s).2.

(** The other requests' rows and records. *)
Definition unaffected (op : StandardOp) s s' : Prop := forall sid, sid ∉ op_requests op -> remains sid s s'.
(** A manager between operations. *)
Definition ready s : Prop := sound [] [] s /\ trusted 0 s.
Lemma run_standard_trusted s op : ready s -> trusted 0 (run_standard op s).2.
Proof.
  intros [[g Hok] Ht]. destruct op as [qs b|qs|sid|xs]; cbn [run_standard].
  - assert (keep (trusted 0) (prepare_step qs b ;; mret tt)) as Hk by (apply keep_bind; [apply safe_prepare_step|intros; apply keep_ret]). by apply Hk.
  - by apply safe_forward_end.
  - by apply safe_free_seq.
  - by apply (consult_ok _ s xs Hok Ht).
Qed.
Lemma run_standard_ok s op : ready s -> standard_op_ok s op ->
  ready (run_standard op s).2 /\ unaffected op s (run_standard op s).2.
Proof.
  intros Hrd Hop. pose proof (run_standard_trusted s op Hrd) as Ht'. destruct Hrd as [Hok Ht].
  enough (sound [] [] (run_standard op s).2 /\ unaffected op s (run_standard op s).2) as [? ?] by done.
  apply (wp_run (run_standard op) (fun _ s' => sound [] [] s' /\ unaffected op s s')). clear Ht'.
  destruct op as [qs [|]|qs|sid|xs]; cbn in *.
  - destruct Hop as [Hnd Hrq]. apply wp_bind. eapply wp_mono; [by apply prepare_prefill_ok|]. cbv beta.
    intros [a|e] s' (? & Ho & _); (split; [done|]); intros sid Hn; by apply stays_remains, Ho.
  - destruct Hop as [Hnd Hrq]. apply wp_bind. eapply wp_mono; [by apply prepare_decode_ok|]. cbv beta.
    intros [a|e] s' (? & Ho & _); (split; [done|]); intros sid Hn; by apply stays_remains, Ho.
  - destruct Hok as [g Hok]. eapply wp_mono; [by apply on_forward_end_ok|]. cbv beta. intros x s' [? Hst]. split; [by eexists|]. intros sid _. apply Hst.
  - destruct Hok as [g Hok]. eapply wp_mono; [by apply free_seq_ok|]. cbv beta. intros x s'. destruct (seq_id_to_row s !! sid) as [r|].
    + intros (_ & Hok' & Ho & _). split; [by eexists|]. intros sid' Hn. apply stays_remains, Ho. by apply not_elem_of_cons in Hn as [? _].
    + intros (_ & ->). split; [by eexists|]. by intros sid' _.
  - destruct Hok as [g Hok]. destruct (consult_ok _ s xs Hok Ht) as [Hok' Hc _ _]. split; [by exists g|]. intros sid _. by apply stays_remains, consulted_stays.
Qed.
Lemma standard_ready cf s : 0 <= num_kvcache_slots cf -> standard_reachable cf s -> ready s /\ std_config s = cf.
Proof.
  intros Hn. induction 1 as [s Hs|s op _ [IH Hcf] Hop].
  - split; [split; [eexists; by apply (new_standard_ok cf)|]|].
    + unfold new_standard in Hs. destruct (new_prefix_cache cf) as [ix|] eqn:Hix; [|done]. cbn in Hs. injection Hs as <-. split; [|done]. cbn.
      intros c ->. unfold new_prefix_cache in Hix. destruct (enable_prefix_caching cf); [|done].
      destruct (new_index _ _ _) as [x|] eqn:Hx; [|done]. injection Hix as <-. split; [|apply map_Forall_empty]. split; [by eapply new_index_inv|apply map_Forall_empty].
    + unfold new_standard in Hs. destruct (new_prefix_cache cf); [|done]. cbn in Hs. by injection Hs as <-.
  - destruct (run_standard_ok s op IH Hop) as [Hok Ho]. split; [done|]. exact (eq_trans (st_config _ _ _ (Ho _ (infinite_is_fresh (op_requests op)))) Hcf).
Qed.
Lemma standard_sound cf s : 0 <= num_kvcache_slots cf -> standard_reachable cf s -> sound [] [] s /\ std_config s = cf.
Proof. intros Hn Hr. by destruct (standard_ready cf s Hn Hr) as [[? _] ?]. Qed.

(** ** Owners of slots *)

Lemma flat_unique `{Countable K} {A} (m : gmap K (list A)) i j a b x : NoDup (flat m) -> m !! i = Some a -> m !! j = Some b -> x ∈ a -> x ∈ b -> i = j.
Proof.
  intros Hnd Hi Hj Ha Hb. destruct (decide (i = j)) as [|Hne]; [done|]. rewrite (flat_delete m i a Hi) in Hnd. apply NoDup_app in Hnd as (_ & Hnd & _).
  destruct (Hnd x Ha). apply elem_of_flat. exists j, b. by rewrite lookup_delete_ne.
Qed.
Lemma private_unique fl s sid sid' r r' x : mgr_ok fl s -> seq_id_to_row s !! sid = Some r -> seq_id_to_row s !! sid' = Some r' ->
  x ∈ private_of s sid r -> x ∈ private_of s sid' r' -> sid = sid'.
Proof.
  intros Hok Hr Hr'. pose proof (conserved_NoDup _ _ (mo_conserved _ _ Hok)) as Hnd. apply NoDup_app in Hnd as (_ & _ & Hnd). apply NoDup_app in Hnd as (Hnd & _ & _).
  apply (flat_unique (private s)); [done|by rewrite lookup_private, ?Hr, ?Hr'..].
Qed.
Lemma private_elem s sid r x : seq_id_to_row s !! sid = Some r -> x ∈ private_of s sid r -> x ∈ flat (private s).
Proof. intros Hr Hx. apply elem_of_flat. exists sid, (private_of s sid r). by rewrite lookup_private, Hr. Qed.

(** The slot is in a block of the index that the request holds. *)
Definition in_held_block s sid (x : Z) (id : bytes) : Prop :=
  exists en, blk s !! id = Some en /\ e_obj en ∈ held_blocks s sid /\ x ∈ slots_of (payloads s) (e_payload en).
Lemma held_shared s sid x id : in_held_block s sid x id -> x ∈ flat (shared s).
Proof. intros (en & Hen & _ & Hx). apply elem_of_flat. exists id, (slots_of (payloads s) (e_payload en)). by rewrite lookup_shared, Hen. Qed.
Lemma cell_owner fl s sid r x : mgr_ok fl s -> seq_id_to_row s !! sid = Some r -> x ∈ cells s r ->
  x ∈ private_of s sid r \/ exists id, in_held_block s sid x id.
Proof.
  intros Hok Hr Hx. pose proof (mo_shape _ _ Hok) as Hs. pose proof (row_valid s sid r Hs Hr) as Hrv. pose proof (cells_length s r Hs Hrv) as Hlen.
  pose proof (complement_slices (cells s r) _ _ (ranges_within _ _ _ _ Hok Hr)) as Hp. rewrite take_ge in Hp by lia.
  rewrite <- Hp, elem_of_app in Hx. destruct Hx as [Hx|Hx]; [by left|]. right. apply elem_of_slices in Hx as (a & b & Hin & Hx).
  pose proof (mo_seqs _ _ Hok sid) as Hw. rewrite Hr in Hw. pose proof (so_backed _ _ _ _ _ Hw) as Hb. rewrite Forall_forall in Hb.
  destruct (Hb _ Hin) as (id & en & Hen & Ho & Heq). exists id, en. split_and!; [done|exact Ho|]. rewrite Heq. exact Hx.
Qed.
Lemma own_cell_row s sid x : x ∈ own_cells s sid -> exists r, seq_id_to_row s !! sid = Some r /\ x ∈ cells s r.
Proof. unfold own_cells. destruct (seq_id_to_row s !! sid) as [r|]; [eauto|by intros ?%elem_of_nil]. Qed.

(** C1: In every state the manager reaches, the free slots, the cells of the
    rows that no block owns and the blocks of the index make up the manager's
    slots, each exactly once: no slot is lost and none has two owners, whatever
    was allocated, evicted, shared, handed to the index, freed or refused. *)
Theorem slots_partitioned cf s : 0 <= num_kvcache_slots cf -> standard_reachable cf s ->
  free s ++ flat (private s) ++ flat (shared s) ≡ₚ arange (num_kvcache_slots cf).
Proof.
  intros Hn Hr. destruct (standard_sound cf s Hn Hr) as [[g Hok] <-]. pose proof (mo_conserved _ _ Hok) as Hc.
  unfold conserved in Hc. cbn in Hc. by rewrite app_nil_r in Hc.
Qed.

(** C3: A slot a live row shows is not free, and is either a cell of that
    request alone or in an indexed block the request holds a reference on; a row
    shows no slot twice, and two requests show the same slot only through a
    block both of them hold. *)
Theorem live_slots_protected cf s sid x : 0 <= num_kvcache_slots cf -> standard_reachable cf s ->
  NoDup (own_cells s sid) /\
  (x ∈ own_cells s sid -> x ∉ free s /\
     ((exists r, seq_id_to_row s !! sid = Some r /\ x ∈ private_of s sid r) \/ exists id, in_held_block s sid x id) /\
     forall sid', sid' <> sid -> x ∈ own_cells s sid' -> exists id, in_held_block s sid x id /\ in_held_block s sid' x id).
Proof.
  intros Hn Hre. destruct (standard_sound cf s Hn Hre) as [[g Hok] _]. pose proof (mo_conserved _ _ Hok) as Hc. cbn in Hc. split.
  { unfold own_cells. destruct (seq_id_to_row s !! sid) as [r|] eqn:Hr; [|constructor]. pose proof (mo_seqs _ _ Hok sid) as Hw. rewrite Hr in Hw. apply Hw. }
  intros (r & Hr & Hx)%own_cell_row. destruct (conserved_apart _ _ x Hc) as [Hap1 Hap2].
  pose proof (cell_owner _ _ _ _ _ Hok Hr Hx) as Hown. split; [|split].
  - intros Hf. destruct (Hap1 ltac:(apply elem_of_app; by left)) as [Hp Hs]. destruct Hown as [Ho|(id & Ho)].
    + by apply Hp, (private_elem _ _ _ _ Hr).
    + by apply Hs, (held_shared _ _ _ _ Ho).
  - destruct Hown; [left|right]; eauto.
  - intros sid' Hne (r' & Hr' & Hx')%own_cell_row. pose proof (cell_owner _ _ _ _ _ Hok Hr' Hx') as Hown'.
    destruct Hown as [Ho|(id & Ho)], Hown' as [Ho'|(id' & Ho')].
    + destruct Hne. symmetry. by eapply (private_unique _ s sid sid' r r' x).
    + destruct (Hap2 (private_elem _ _ _ _ Hr Ho)). by eapply held_shared.
    + destruct (Hap2 (private_elem _ _ _ _ Hr' Ho')). by eapply held_shared.
    + assert (id = id') as <-; [|by exists id]. destruct Ho as (en & Hen & _ & Hxe), Ho' as (en' & Hen' & _ & Hxe').
      apply conserved_NoDup in Hc. do 2 apply NoDup_app in Hc as (_ & _ & Hc). apply NoDup_app in Hc as (Hc & _ & _).
      apply (flat_unique (shared s) id id' (slots_of (payloads s) (e_payload en)) (slots_of (payloads s) (e_payload en')) x Hc);
        [by rewrite lookup_shared, ?Hen, ?Hen'..|done|done].
Qed.

(** C18: Every block of the index carries exactly as many references as the
    requests hold on it, and everything a request holds is in the index: a
    block someone uses is never evictable, and none is pinned for nobody. *)
Theorem references_counted cf s : 0 <= num_kvcache_slots cf -> standard_reachable cf s ->
  (forall id en, blk s !! id = Some en -> e_refs en = Z.of_nat (count_occ Nat.eq_dec (holders s) (e_obj en))) /\
  (forall sid o, o ∈ held_blocks s sid -> exists id en, blk s !! id = Some en /\ e_obj en = o /\ 0 < e_refs en).
Proof.
  intros Hn Hre. destruct (standard_sound cf s Hn Hre) as [[g Hok] _]. destruct (mo_refs _ _ Hok) as [Hcnt Hidx]. cbn in Hcnt, Hidx. split; [exact Hcnt|].
  intros sid o Ho. assert (o ∈ holders s) as Hin.
  { unfold holders, held_blocks in *. rewrite elem_of_app in *. destruct Ho; [left|right]; by eapply flat_elem. }
  rewrite Forall_forall in Hidx. destruct (Hidx o Hin) as (id & en & Hen & <-). exists id, en. split_and!; [done|done|].
  rewrite (Hcnt id en Hen). apply list_elem_of_In, (count_occ_In Nat.eq_dec) in Hin. lia.
Qed.

(** C24: An operation leaves the rows of the requests it does not name as they
    were - the same row, the same length, the same slots - also when it raises;
    handing blocks to the index changes no row at all. *)
Theorem requests_unaffected cf s op sid : 0 <= num_kvcache_slots cf -> standard_reachable cf s -> standard_op_ok s op -> sid ∉ op_requests op ->
  let s' := (run_standard op s).2 in
  seq_id_to_row s' !! sid = seq_id_to_row s !! sid /\ own_len s' sid = own_len s sid /\ own_cells s' sid = own_cells s sid /\
  seq_id_to_prefix_blocks s' !! sid = seq_id_to_prefix_blocks s !! sid.
Proof.
  intros Hn Hre Hop Hni s'. destruct (standard_ready cf s Hn Hre) as [Hrd _]. destruct (run_standard_ok s op Hrd Hop) as [_ Hun].
  specialize (Hun sid Hni). split_and!; [apply (st_row _ _ _ Hun)|apply (stays_own_len _ _ _ Hun)|apply (stays_own_cells _ _ _ Hun)|apply (st_attached _ _ _ Hun)].
Qed.

(** C25: [free_seq] of a resident request succeeds, gives exactly the slots that
    were the request's alone back to the free stack and forgets the request; of
    any other id it raises [ValueError] and changes nothing. *)
Theorem free_seq_returns_slots cf s sid : 0 <= num_kvcache_slots cf -> standard_reachable cf s ->
  let '(x, s') := free_seq sid s in
  match seq_id_to_row s !! sid with
  | Some r => x = Ok tt /\ free s' ≡ₚ private_of s sid r ++ free s /\ seq_id_to_row s' !! sid = None /\ held_blocks s' sid = []
  | None => x = Raise (ValueError "") /\ s' = s
  end.
Proof.
  intros Hn Hre. destruct (standard_sound cf s Hn Hre) as [[g Hok] _]. pose proof (free_seq_ok _ _ _ s sid Hok) as Hf. unfold wp in Hf.
  destruct (free_seq sid s) as [x s']. cbn in Hf. destruct (seq_id_to_row s !! sid) as [r|]; [|done]. destruct Hf as (-> & Hok' & _ & Hr & Hfree).
  split_and!; [done..|]. pose proof (mo_seqs _ _ Hok' sid) as Hw. rewrite Hr in Hw. destruct Hw as (E1 & E2 & _). unfold held_blocks. by rewrite E1, E2.
Qed.

(** ** What a step writes *)

(** The cells a step adds to a request. *)
Definition step_count (is_prefill : bool) q : Z := if is_prefill then chunk_size q else 1.
Definition step_slots (is_prefill : bool) s q : list Z := last_slots (step_count is_prefill q) s (seq_id q).
Definition step_layers (is_prefill : bool) s qs : LayerBatchStates :=
  let lens := (fun q => own_len s (seq_id q)) <$> qs in
  mkBatchStates (qs ≫= step_slots is_prefill s) lens (foldr Z.max 0 lens) ((fun q => row_index s (seq_id q)) <$> qs).

Lemma prepare_step_ok s qs b : sound [] [] s -> standard_op_ok s (PrepareStep qs b) ->
  wp (prepare_step qs b) (fun x s' => sound [] [] s' /\
    match x with
    | Ok _ => layer_batch_state s' = step_layers b s' qs /\
        Forall (fun q => wrote (step_count b q) s' (seq_id q) /\ own_cells s (seq_id q) `prefix_of` own_cells s' (seq_id q) /\ still_ready s' q) qs
    | Raise _ => True
    end) s.
Proof.
  intros Hok Hop. unfold prepare_step. destruct b; destruct Hop as [Hnd Hrq].
  - eapply wp_mono; [exact (prepare_prefill_ok [] [] s qs Hok Hnd Hrq)|]. cbv beta. intros [a|e] s' (Hok' & _ & Hx); [|done]. by destruct Hx as [-> ?].
  - eapply wp_mono; [exact (prepare_decode_ok [] [] s qs Hok Hnd Hrq)|]. cbv beta. intros [a|e] s' (Hok' & _ & Hx); [|done]. destruct Hx as [-> Hg].
    split_and!; [done|done|]. eapply Forall_impl; [exact Hg|]. intros q [H1 H2]. split; [by apply (grown_wrote _ s)|]. split; [apply H1|done].
Qed.
Lemma wrote_private fl s sid n x : mgr_ok fl s -> wrote n s sid -> x ∈ last_slots n s sid ->
  exists r, seq_id_to_row s !! sid = Some r /\ x ∈ private_of s sid r.
Proof.
  intros Hok [[r Hr] Hrs Hn] Hx. exists r. split; [done|]. unfold last_slots, own_cells, own_len in *. rewrite Hr in *.
  unfold private_of. eapply (complement_tail _ _ (len_of s r - n)); [exact Hrs| | |exact Hx]; lia.
Qed.
Lemma NoDup_bind {A B} (f : A -> list B) (l : list A) : NoDup l -> (forall a, a ∈ l -> NoDup (f a)) ->
  (forall a b x, a ∈ l -> b ∈ l -> x ∈ f a -> x ∈ f b -> a = b) -> NoDup (l ≫= f).
Proof.
  intros Hnd Hf Hdis. induction Hnd as [|a l Ha Hnd IH]; [constructor|]. rewrite bind_cons. apply NoDup_app. split_and!.
  - apply Hf. by left.
  - intros x Hx (b & Hxb & Hb)%list_elem_of_bind. apply Ha. by rewrite (Hdis a b x) by (done || by left || by right).
  - apply IH; [intros; apply Hf; by right|]. intros b c x Hb Hc. apply Hdis; by right.
Qed.
Lemma slice_NoDup a b (l : list Z) : NoDup l -> NoDup (slice a b l).
Proof. intros Hnd. unfold slice. eapply sublist_NoDup; [exact Hnd|]. etrans; [apply sublist_take|apply sublist_drop]. Qed.

(** C6: A successful prefill or decode step hands the kernels, in batch order,
    the last cells of each request's row: no two tokens of the step are written
    to the same slot, no slot written is free, in a block of the index or shown
    by another request, and every row keeps the slots it had as a prefix.
    Afterwards the requests meet the promises that depend on the manager again. *)
Theorem step_writes_own_slots cf s qs b inp s' : 0 <= num_kvcache_slots cf -> standard_reachable cf s -> standard_op_ok s (PrepareStep qs b) ->
  prepare_step qs b s = (Ok inp, s') ->
  layer_batch_state s' = step_layers b s' qs /\ NoDup (slot_mapping (layer_batch_state s')) /\
  (forall q x, q ∈ qs -> x ∈ step_slots b s' q -> x ∉ free s' /\ x ∉ flat (shared s') /\ forall sid, x ∈ own_cells s' sid -> sid = seq_id q) /\
  Forall (fun q => own_cells s (seq_id q) `prefix_of` own_cells s' (seq_id q) /\ recordable s' q /\ hit_attached s' q) qs.
Proof.
  intros Hn Hre Hop Hrun. destruct (standard_sound cf s Hn Hre) as [Hok _]. pose proof (prepare_step_ok s qs b Hok Hop) as Hstep.
  unfold wp in Hstep. rewrite Hrun in Hstep. cbn in Hstep. destruct Hstep as ([g Hok'] & Hlay & Hqs).
  assert (NoDup (seq_id <$> qs)) as Hnd by (by destruct b, Hop). pose proof (mo_conserved _ _ Hok') as Hc. cbn in Hc.
  assert (forall q x, q ∈ qs -> x ∈ step_slots b s' q -> exists r, seq_id_to_row s' !! seq_id q = Some r /\ x ∈ private_of s' (seq_id q) r) as Hpriv.
  { intros q x Hin Hx. rewrite Forall_forall in Hqs. destruct (Hqs q Hin) as [Hw _]. by apply (wrote_private _ s' _ _ x Hok' Hw). }
  split_and!; [done| | |].
  - rewrite Hlay. cbn. apply NoDup_bind.
    + by apply (NoDup_fmap_1 seq_id).
    + intros q Hin. rewrite Forall_forall in Hqs. destruct (Hqs q Hin) as [[[r Hr] _ _] _]. unfold step_slots, last_slots, own_cells. rewrite Hr.
      apply slice_NoDup. pose proof (mo_seqs _ _ Hok' (seq_id q)) as Hw. rewrite Hr in Hw. apply Hw.
    + intros q1 q2 x Hq1 Hq2 H1 H2. destruct (Hpriv q1 x Hq1 H1) as (r1 & Hr1 & Hx1), (Hpriv q2 x Hq2 H2) as (r2 & Hr2 & Hx2).
      pose proof (private_unique _ s' _ _ _ _ x Hok' Hr1 Hr2 Hx1 Hx2) as E.
      destruct (list_elem_of_lookup_1 _ _ Hq1) as [i Hi], (list_elem_of_lookup_1 _ _ Hq2) as [j Hj].
      assert (i = j) as -> by (apply (NoDup_lookup _ i j (seq_id q1) Hnd); rewrite list_lookup_fmap; [by rewrite Hi|by rewrite Hj, E]). congruence.
  - intros q x Hin Hx. destruct (Hpriv q x Hin Hx) as (r & Hr & Hxr). destruct (conserved_apart _ _ x Hc) as [Hap1 Hap2].
    pose proof (private_elem _ _ _ _ Hr Hxr) as Hxp. split; [|split].
    + intros Hf. by destruct (Hap1 ltac:(apply elem_of_app; by left)) as [? _].
    + by apply Hap2.
    + intros sid (r' & Hr' & Hx')%own_cell_row. destruct (cell_owner _ _ _ _ _ Hok' Hr' Hx') as [Ho|(id & Ho)].
      * by apply (private_unique _ s' sid (seq_id q) r' r x Hok').
      * destruct (Hap2 Hxp). by eapply held_shared.
  - eapply Forall_impl; [exact Hqs|]. by intros q (_ & ? & ? & ?).
Qed.

(** C17: A request whose hit is attached reads the cached prefix: its row shows,
    in order, the slots of the blocks on the path to the hit's last block, the
    request holds a reference on each of them, and nothing but the hit is
    recorded for it. *)
Theorem attach_reads_hit_chain cf s q s' : 0 <= num_kvcache_slots cf -> standard_reachable cf s -> request_ok s q ->
  caching s = true -> 0 < prefix_cache_hit_len (prefix_hit q) -> seq_id_to_prefix_blocks s !! seq_id q = None ->
  attach_prefix_cache_if_needed q s = (Ok tt, s') ->
  exists os vs, hit_chain s q os /\ seq_id_to_prefix_blocks s' !! seq_id q = Some os /\ NoDup os /\
    chain_slots s' os vs /\ own_cells s' (seq_id q) = concat vs /\ own_len s' (seq_id q) = prefix_cache_hit_len (prefix_hit q) /\
    (forall o, o ∈ os -> exists id en, blk s' !! id = Some en /\ e_obj en = o /\ 0 < e_refs en).
Proof.
  intros Hn Hre Hrq Hca Hpos Hnone Hrun. destruct (standard_sound cf s Hn Hre) as [[g0 Hok0] _].
  pose proof (settle _ _ _ _ q Hok0 (rq_recordable _ _ Hrq)) as Hok. pose proof (attach_ok [] [] _ s q Hok (rq_hit _ _ Hrq) ltac:(by rewrite set_gap_at)) as Hat.
  unfold wp in Hat. rewrite Hrun in Hat. cbn in Hat. destruct Hat as (Hok' & _ & [[_ [Hx|[Hx|[? Hx]]]]|(os & Hos & _ & _ & Hlen & _ & _ & _ & Hch & (r & vs & Hr & Hcs & Hcl) & _ & _)]);
    [congruence|lia|congruence|].
  exists os, vs. pose proof Hch as (c & last & Hc & _ & Hget). destruct (mgr_index _ _ _ Hok Hc) as ([Hwf _] & _).
  destruct (get_chain_seen _ _ _ _ Hwf (chain_last_present _ _ _ _ Hwf Hget) Hget) as (Hnd & _). split_and!; [done..| |done|].
  - unfold own_cells. by rewrite Hr.
  - intros o Ho. destruct (mo_refs _ _ Hok') as [Hcnt Hidx]. cbn in Hcnt, Hidx. assert (o ∈ holders s') as Hin.
    { unfold holders. apply elem_of_app. left. apply (flat_elem _ (seq_id q)). by rewrite Hos. }
    rewrite Forall_forall in Hidx. destruct (Hidx o Hin) as (id & en & Hen & <-). exists id, en. split_and!; [done|done|].
    rewrite (Hcnt id en Hen). apply list_elem_of_In, (count_occ_In Nat.eq_dec) in Hin. lia.
Qed.
End guarantees.

(** ** A small run: two prompts share a block *)

Definition sample_standard : StandardConfig := mkStandardConfig 8 6 3 true 2 [] (Some 2) "vanilla" 16 4.
Definition sample_built : {s | new_standard sample_standard = Ok s}.
Proof. vm_compute. eexists. reflexivity. Defined.
Definition sample_fresh : StandardCacheManager := proj1_sig sample_built.
Definition sample_prompt (sid : Z) (toks : list Z) (start : Z) (hit : PrefixHit) : Sequence :=
  (new_sequence sid toks default_sampling) <| num_prefilled_tokens := start |>
    <| current_chunk_size := Some (Z.of_nat (length toks) - start) |> <| prefix_hit := hit |>.
Definition sample_first : Sequence := sample_prompt 1 [7; 8; 9] 0 no_prefix_hit.
Definition sample_block_id : bytes := match stable_block_id_of 2 [] [7; 8] None with Ok id => id | Raise _ => [] end.
Definition sample_second : Sequence := sample_prompt 2 [7; 8; 5] 2 (mkPrefixHit true 2 1 (Some sample_block_id) 2 "vanilla").
Definition run_standards (ops : list StandardOp) (s : StandardCacheManager) : StandardCacheManager := foldl (fun s op => (run_standard op s).2) s ops.
Definition sample_stored : StandardCacheManager := run_standards [PrepareStep [sample_first] true; ForwardEnd [sample_first]] sample_fresh.
Definition sample_shared : StandardCacheManager := (run_standard (PrepareStep [sample_second] true) sample_stored).2.

(** Discharges what a request is promised, by evaluation. *)
Ltac promise_by_evaluation :=
  lazymatch goal with
  | |- NoDup _ => apply (bool_decide_unpack _); vm_compute; exact I
  | |- Forall _ [] => constructor
  | |- Forall _ (_ :: _) => constructor
  | |- forall c, current_chunk_size _ = Some c -> _ => intros ? Hc; vm_compute in Hc; injection Hc as <-; vm_compute; repeat split; discriminate
  | |- forall os, seq_id_to_prefix_blocks _ !! _ = Some os -> _ => intros ? Hc; vm_compute in Hc; discriminate
  | |- _ <= _ => vm_compute; discriminate
  | |- _ < _ => vm_compute; reflexivity
  | |- _ = _ => vm_compute; reflexivity
  | |- tracked _ _ => vm_compute; reflexivity
  | |- _ -> _ => intros _
  | |- _ => split
  end.

Lemma sample_stored_reachable : standard_reachable sample_standard sample_stored.
Proof.
  unfold sample_stored, run_standards. cbn [foldl]. repeat apply standard_step; cbn [standard_op_ok].
  - apply standard_new. exact (proj2_sig sample_built).
  - repeat promise_by_evaluation.
  - repeat promise_by_evaluation.
Qed.
Lemma sample_second_ok : standard_op_ok sample_stored (PrepareStep [sample_second] true).
Proof. cbn [standard_op_ok]. repeat promise_by_evaluation. Qed.
Lemma sample_shared_reachable : standard_reachable sample_standard sample_shared.
Proof. apply standard_step; [apply sample_stored_reachable|apply sample_second_ok]. Qed.

Lemma slots_partitioned_witness :
  (free sample_shared, own_cells sample_shared 1, own_cells sample_shared 2) = ([0; 1; 2; 3], [5; 6; 7], [5; 6; 4]) /\
  free sample_shared ++ flat (private sample_shared) ++ flat (shared sample_shared) ≡ₚ arange 8.
Proof.
  split; [vm_compute; reflexivity|]. apply (slots_partitioned sample_standard sample_shared); [vm_compute; discriminate|exact sample_shared_reachable].
Defined.

Lemma live_slots_protected_witness : exists id, in_held_block sample_shared 1 5 id /\ in_held_block sample_shared 2 5 id.
Proof.
  destruct (live_slots_protected sample_standard sample_shared 1 5) as [_ Hlive]; [vm_compute; discriminate|exact sample_shared_reachable|].
  destruct Hlive as (_ & _ & Hshare); [vm_compute; left|]. apply (Hshare 2); [discriminate|vm_compute; left].
Defined.

Lemma references_counted_witness : exists id en, blk sample_shared !! id = Some en /\
  count_occ Nat.eq_dec (holders sample_shared) (e_obj en) = 2%nat /\ e_refs en = 2.
Proof.
  destruct (references_counted sample_standard sample_shared) as [Hcnt _]; [vm_compute; discriminate|exact sample_shared_reachable|].
  exists sample_block_id. specialize (Hcnt sample_block_id). remember (blk sample_shared !! sample_block_id) as en eqn:E. vm_compute in E.
  rewrite E in Hcnt |- *. eexists. split; [reflexivity|]. specialize (Hcnt _ eq_refl). vm_compute in Hcnt |- *. split; reflexivity.
Defined.

Lemma requests_unaffected_witness : own_cells sample_shared 1 = own_cells sample_stored 1 /\ own_cells sample_stored 1 = [5; 6; 7].
Proof.
  split; [|vm_compute; reflexivity].
  assert (1 ∉ op_requests (PrepareStep [sample_second] true)) as Hni by (apply (bool_decide_unpack _); vm_compute; exact I).
  destruct (requests_unaffected sample_standard sample_stored (PrepareStep [sample_second] true) 1 ltac:(vm_compute; discriminate)
    sample_stored_reachable sample_second_ok Hni) as (_ & _ & Hc & _). exact Hc.
Defined.

Lemma free_seq_returns_slots_witness : exists s', free_seq 1 sample_shared = (Ok tt, s') /\ free s' ≡ₚ [7; 0; 1; 2; 3] /\ held_blocks s' 1 = [].
Proof.
  pose proof (free_seq_returns_slots sample_standard sample_shared 1 ltac:(vm_compute; discriminate) sample_shared_reachable) as Hf.
  destruct (free_seq 1 sample_shared) as [x s']. assert (seq_id_to_row sample_shared !! 1 = Some 0) as Hr by (vm_compute; reflexivity).
  rewrite Hr in Hf. destruct Hf as (-> & Hp & _ & Hh). exists s'. split; [reflexivity|]. split; [|exact Hh].
  rewrite Hp. apply reflexive_eq. vm_compute. reflexivity.
Defined.

Lemma step_writes_own_slots_witness : slot_mapping (layer_batch_state sample_shared) = [4] /\ NoDup (slot_mapping (layer_batch_state sample_shared)) /\
  4 ∉ flat (shared sample_shared).
Proof.
  split; [vm_compute; reflexivity|].
  destruct (prepare_step [sample_second] true sample_stored) as [x s'] eqn:Hrun.
  assert (s' = sample_shared) as ->.
  { unfold sample_shared, run_standard, mbind, Act_bind. rewrite Hrun. destruct x; reflexivity. }
  destruct x as [inp|e]; [|apply (f_equal fst) in Hrun; vm_compute in Hrun; discriminate].
  destruct (step_writes_own_slots sample_standard sample_stored [sample_second] true inp sample_shared ltac:(vm_compute; discriminate)
    sample_stored_reachable sample_second_ok Hrun) as (_ & Hnd & Hpriv & _). split; [exact Hnd|].
  apply (Hpriv sample_second 4); [left|vm_compute; left].
Defined.

Lemma attach_reads_hit_chain_witness : exists os vs s', attach_prefix_cache_if_needed sample_second sample_stored = (Ok tt, s') /\
  chain_slots s' os vs /\ own_cells s' 2 = concat vs /\ own_cells s' 2 = [5; 6].
Proof.
  destruct (attach_prefix_cache_if_needed sample_second sample_stored) as [x s'] eqn:Hrun.
  assert (own_cells s' 2 = [5; 6]) as Hcl.
  { transitivity (own_cells (attach_prefix_cache_if_needed sample_second sample_stored).2 2); [by rewrite Hrun|vm_compute; reflexivity]. }
  destruct x as [[]|e]; [|apply (f_equal fst) in Hrun; vm_compute in Hrun; discriminate].
  pose proof sample_second_ok as [_ Hrq]. apply Forall_cons in Hrq as [Hrq _].
  destruct (attach_reads_hit_chain sample_standard sample_stored sample_second s' ltac:(vm_compute; discriminate) sample_stored_reachable Hrq
    ltac:(vm_compute; reflexivity) ltac:(vm_compute; reflexivity) ltac:(vm_compute; reflexivity) Hrun) as (os & vs & _ & _ & _ & Hcs & Hcv & _).
  exists os, vs, s'. split; [reflexivity|]. split; [exact Hcs|]. split; [exact Hcv|exact Hcl].
Defined.
