(* ===== verification/StandardAdmission.v ===== *)
(** * The standard cache manager and the scheduler's questions

    The manager is the oracle of the scheduler's rounds.  At any point of a
    scheduling pass its reports are exact, and a batch the reports allow
    succeeds: what was admitted does not run out of slots. *)

From stdpp Require Import base gmap list strings.
From Stdlib Require Import ZArith Lia.
From S2P Require Import Prelude PyDict PyBytes Sha256 RoutingMembership RadixTree RadixForest PrefixHash.
From S2P Require Import PrefixIndex PrefixIndexFacts PrefixCapacity PrefixContract SamplingParams Sequence PrefixLookup PrefixHits.
From S2P Require Import StandardCache StandardOracle SlotRanges PrefixClient PrefixRefs StandardInvariant StandardMoves StandardIndex StandardSteps.
From S2P Require Import StandardRecord StandardRelease StandardAttach StandardCaches StandardReports StandardConsult.
From S2P Require Import StandardPrefill StandardDecode StandardGuarantees.

Section admission.
Context `{Digest}.
Implicit Types (s : StandardCacheManager) (sid : Z) (q : Sequence).
#[local] Abbreviation MgrAct := (Act PyExn StandardCacheManager).

(** ** A point of a pass *)

(** The manager inside the snapshot, after the questions [xs]. *)
Definition during s (xs : list Query) : StandardCacheManager := (for_each xs run_query (enter_snapshot s).2).2.

Lemma during_asked cf s xs : 0 <= num_kvcache_slots cf -> standard_reachable cf s ->
  exists fl, mgr_ok fl s /\ asked fl s 1 (during s xs) /\ asked fl s 0 s.
Proof.
  intros Hn Hr. destruct (standard_ready cf s Hn Hr) as [[[g Hok] Ht] _]. exists (mkFlight [] [] g). split; [done|].
  pose proof (asked_start _ s 0 Hok Ht ltac:(lia)) as Ha. split; [|done].
  apply (keep_for_each (asked (mkFlight [] [] g) s 1) xs run_query); [intros x; by apply silent_query|].
  by apply (enter_asked _ s 0 s Hok).
Qed.
Lemma answered {A} fl s0 d (m : MgrAct A) P s : answers m P fl s0 d -> asked fl s0 d s -> exists a, (m s).1 = Ok a /\ P a.
Proof. intros Hm Ha. destruct (Hm s Ha) as (_ & a & ? & ?). by exists a. Qed.

(** C8: At any point of a scheduling pass - whatever was asked before and
    whichever questions raised - the manager reports for an admission exactly
    the slots that are neither a live row's own nor in a block that a request
    holds directly or through a descendant; for a step it reports the same
    number, or fewer that are enough for the largest step. *)
Theorem pass_reports_exact cf s xs : 0 <= num_kvcache_slots cf -> standard_reachable cf s ->
  let s1 := during s xs in
  (std_prompt_admission_free_slots s1).1 = Ok (capacity s) /\
  capacity s = num_kvcache_slots cf - Z.of_nat (length (flat (private s))) - size_of s * (Z.of_nat (size (blk s)) - Z.of_nat (size (freeable s))) /\
  (forall id, id ∈ freeable s <-> is_Some (prefix_cache s) /\ free_subtree (blk s) id) /\
  (exists n, (std_prefill_step_free_slots s1).1 = Ok n /\ enough s (std_max_num_batched_tokens cf) n) /\
  (exists n, (std_decode_step_free_slots s1).1 = Ok n /\ enough s (std_max_decoding_seqs cf) n).
Proof.
  intros Hn Hr s1. destruct (during_asked cf s xs Hn Hr) as (fl & Hok & Ha & _). destruct (standard_ready cf s Hn Hr) as [[[g Hok1] _] <-].
  split_and!.
  - by destruct (answered _ _ _ _ _ s1 (free_and_reclaimable_answers fl s 1 Hok) Ha) as (n & Hx & ->).
  - pose proof (slots_counted _ s Hok1) as Hc. change (length (loose _)) with 0%nat in Hc. unfold capacity. lia.
  - intros id. by apply (freeable_elem fl).
  - exact (answered _ _ _ _ _ s1 (prefill_free_answers fl s 1 Hok) Ha).
  - exact (answered _ _ _ _ _ s1 (decode_free_answers fl s 1 Hok) Ha).
Qed.

(** C33: At any point of a pass the refresh of a waiting prompt finds the longest
    path of cached blocks along the prompt that leaves a token to compute, and
    admitting the prompt with that hit costs its remaining tokens and the slots
    of those blocks that are reclaimable now and will not be. *)
Theorem pass_prompt_costs cf s xs q : 0 <= num_kvcache_slots cf -> standard_reachable cf s ->
  Z.of_nat (length (prompt_token_ids q)) = num_prompt_tokens q -> int64s (prompt_token_ids q) = true ->
  let s1 := during s xs in
  exists path, refreshed s q path /\ (std_refresh_prefix_cache_hit q s1).1 = Ok (hit_of s path) /\
    (std_prompt_admission_cost (q <| prefix_hit := hit_of s path |>) s1).1 =
      Ok (num_prompt_tokens q - size_of s * Z.of_nat (length path) + size_of s * Z.of_nat (size (freeable s ∩ list_to_set path))).
Proof.
  intros Hn Hr Hlen Htoks s1. destruct (during_asked cf s xs Hn Hr) as (fl & Hok & Ha & _).
  destruct (answered _ _ _ _ _ s1 (refresh_answers fl s 1 Hok q (caching_cache _ _ Hok) Hlen Htoks) Ha) as (hit & Hhit & path & -> & Hrf).
  exists path. split_and!; [done..|]. assert (path_hit s (q <| prefix_hit := hit_of s path |>) path) as Hp.
  { destruct path as [|x path]; [done|]. apply refreshed_path; [|done]. destruct (rf_whole _ _ _ Hrf) as [|([c Hc] & _)]; [done|]. apply (mgr_index _ _ _ Hok Hc). }
  destruct (answered _ _ _ _ _ s1 (admission_cost_answers fl s 1 Hok _ path Hp) Ha) as (n & Hx & ->). rewrite Hx. f_equal.
  unfold hit_cost. change (num_prompt_tokens (q <| prefix_hit := hit_of s path |>)) with (num_prompt_tokens q).
  change (prefix_hit (q <| prefix_hit := hit_of s path |>)) with (hit_of s path).
  assert (prefix_cache_hit_len (hit_of s path) = Z.of_nat (length path) * size_of s) as -> by (by destruct path). lia.
Qed.

(** ** Batches the reports allow *)

(** The prompt as it was refreshed: nothing computed, no hit. *)
Definition waiting_form q : Sequence := q <| num_prefilled_tokens := 0 |> <| current_chunk_size := None |> <| prefix_hit := no_prefix_hit |>.
Record new_prompt s q (cost : Z) : Prop := {
  np_row : seq_id_to_row s !! seq_id q = None;
  np_prompt : Z.of_nat (length (prompt_token_ids q)) = num_prompt_tokens q;
  np_tokens : int64s (prompt_token_ids q) = true;
  np_length : num_prompt_tokens q <= Z.of_nat (length (token_ids q));
  np_hit : (std_refresh_prefix_cache_hit (waiting_form q) s).1 = Ok (prefix_hit q);
  np_cost : (std_prompt_admission_cost q s).1 = Ok cost;
  np_start : num_prefilled_tokens q = prefix_cache_hit_len (prefix_hit q);
  np_chunk : is_Some (current_chunk_size q) /\ num_prefilled_tokens q + chunk_size q <= num_prompt_tokens q;
}.
Record next_chunk s q (cost : Z) : Prop := {
  nc_row : is_Some (seq_id_to_row s !! seq_id q);
  nc_start : own_len s (seq_id q) = num_prefilled_tokens q;
  nc_hit : ~ attaches s q;
  nc_chunk : current_chunk_size q = Some cost;
  nc_length : num_prefilled_tokens q + cost <= Z.of_nat (length (token_ids q));
}.
(** What the scheduler puts in a prefill batch, and the slots it sets aside. *)
Definition scheduled s q cost : Prop := new_prompt s q cost \/ next_chunk s q cost.

Lemma chunk_tokens_length q : 0 <= num_prefilled_tokens q -> 0 <= chunk_size q ->
  num_prefilled_tokens q + chunk_size q <= Z.of_nat (length (token_ids q)) -> Z.of_nat (length (chunk_tokens q (chunk_size q))) = chunk_size q.
Proof.
  intros H1 H2 H3. unfold chunk_tokens. destruct (Z.ltb_spec (chunk_size q) (Z.of_nat (length (token_ids q)))); [|lia]. rewrite length_slice; lia.
Qed.
Lemma scheduled_fits fl s q cost : mgr_ok fl s -> asked fl s 0 s -> request_ok s q -> scheduled s q cost ->
  exists n, seq_fits s q n /\ chunk_size q + n <= cost.
Proof.
  intros Hok Ha Hrq [Hnp|Hnc].
  - destruct Hnp as [Hrow Hlen Htoks Htl Hhit Hcost Hst [Hck Hfit]]. destruct Hck as [k Hk]. destruct (rq_chunk _ _ Hrq k Hk) as (Hk0 & Hp0 & _).
    assert (chunk_size q = k) as Hck by (unfold chunk_size; by rewrite Hk).
    destruct (answered _ _ _ _ _ s (refresh_answers fl s 0 Hok (waiting_form q) (caching_cache _ _ Hok) Hlen Htoks) Ha) as (hit & Hh & path & -> & Hrf).
    rewrite Hhit in Hh. injection Hh as Hh. assert (path_hit s q path /\ (attaches s q <-> path <> [])) as [Hp Hatt].
    { pose proof (mo_seqs _ _ Hok (seq_id q)) as Hab. rewrite Hrow in Hab. destruct Hab as (Hnone & _). unfold attaches. rewrite Hh, Hnone.
      destruct path as [|x path]; [split; [cbn; by rewrite Hh|split; [by intros (_ & ? & _)|done]]|].
      destruct (rf_whole _ _ _ Hrf) as [|([c Hc] & Hpath & _)]; [done|]. destruct (mgr_index _ _ _ Hok Hc) as (_ & _ & Hpos).
      pose proof (refreshed_path s (waiting_form q) _ Hpos Hrf) as (Hpc & Hl & Hw). cbn in Hl. split.
      - split; [done|]. rewrite Hh. split; [exact Hl|]. destruct Hw as [W1 W2 W3]. split; [by rewrite Hh|by rewrite Hh|done].
      - split; [done|]. intros _. split_and!; [by rewrite (caching_cache _ _ Hok), Hc|exact Hl|done]. }
    destruct (answered _ _ _ _ _ s (admission_cost_answers fl s 0 Hok q path Hp) Ha) as (n & Hx & ->). rewrite Hcost in Hx. injection Hx as ->.
    exists (hit_cost s path). split; [|rewrite Hst in Hfit; lia]. split.
    + unfold hit_reserve. case_decide as Hat.
      * split; [unfold own_len; by rewrite Hrow|]. exists path. split; [|done]. destruct path; [by destruct (proj1 Hatt Hat)|apply Hp].
      * assert (path = []) as -> by (destruct path; [done|by destruct Hat; apply Hatt]). unfold hit_cost. cbn [list_to_set].
        rewrite (intersection_empty_r_L (freeable s)), size_empty. lia.
    + by rewrite Hk.
    + done.
    + intros _ [r Hr]. congruence.
    + apply chunk_tokens_length; lia.
  - destruct Hnc as [Hrow Hst Hatt Hk Htl]. exists 0. destruct (rq_chunk _ _ Hrq cost Hk) as (Hk0 & Hp0 & _).
    assert (chunk_size q = cost) as Hck by (unfold chunk_size; by rewrite Hk). split; [|lia]. split.
    + unfold hit_reserve. by rewrite decide_False.
    + by rewrite Hk.
    + done.
    + done.
    + rewrite Hck. rewrite <- Hck. apply chunk_tokens_length; lia.
Qed.

(** C7: A prefill batch whose set-aside slots add up to no more than the manager
    reports, and whose new prompts have rows, is executed: no attachment is
    refused, no allocation fails and no check raises, even if prompts of the
    batch share the blocks they attach or blocks must be evicted for them. *)
Theorem admitted_batch_prefills cf s qs costs n : 0 <= num_kvcache_slots cf -> standard_reachable cf s ->
  standard_op_ok s (PrepareStep qs true) -> Forall2 (scheduled s) qs costs -> 
  (std_prompt_admission_free_slots s).1 = Ok n -> foldr Z.add 0 costs <= n -> rowless s qs <= Z.of_nat (length (free_rows s)) ->
  exists inp s', prepare_step qs true s = (Ok inp, s') /\ layer_batch_state s' = step_layers true s' qs.
Proof.
  intros Hn Hr [Hnd Hrq] Hsc Hfree Hsum Hrows. destruct (during_asked cf s [] Hn Hr) as (fl & Hok & _ & Ha).
  destruct (standard_ready cf s Hn Hr) as [[Hs _] _].
  destruct (answered _ _ _ _ _ s (free_and_reclaimable_answers fl s 0 Hok) Ha) as (m & Hm & ->). change (free_and_reclaimable s) with (std_prompt_admission_free_slots s) in Hm.
  rewrite Hfree in Hm. injection Hm as ->.
  assert (step_fits s qs) as Hfits.
  { enough (exists ns, Forall2 (seq_fits s) qs ns /\ chunks qs + foldr Z.add 0 ns <= foldr Z.add 0 costs) as (ns & Hns & Hle) by (exists ns; split_and!; [done|done|lia]).
    clear -Hsc Hrq Hok Ha. induction Hsc as [|q cost qs costs Hq _ IH]; [exists []; split; [constructor|unfold chunks; cbn; lia]|].
    apply Forall_cons in Hrq as [Hq' Hrq]. destruct (IH Hrq) as (ns & Hns & Hle). destruct (scheduled_fits fl s q cost Hok Ha Hq' Hq) as (k & Hk & Hkc).
    exists (k :: ns). split; [by constructor|]. unfold chunks in *. cbn. lia. }
  pose proof (prepare_prefill_ok [] [] s qs Hs Hnd Hrq) as Hp. unfold wp in Hp. unfold prepare_step. destruct (prepare_prefill qs s) as [[inp|e] s'].
  - exists inp, s'. split; [done|]. apply Hp.
  - by destruct Hp as (_ & _ & ?).
Qed.

(** C34: A decode batch of resident requests with a token each, no larger than
    the slots the manager reports for a decode step, is executed. *)
Theorem decode_batch_proceeds cf s qs n : 0 <= num_kvcache_slots cf -> standard_reachable cf s ->
  standard_op_ok s (PrepareStep qs false) -> Forall has_token qs -> Forall (fun q => is_Some (seq_id_to_row s !! seq_id q)) qs ->
  (std_decode_step_free_slots s).1 = Ok n -> Z.of_nat (length qs) <= n ->
  exists inp s', prepare_step qs false s = (Ok inp, s') /\ layer_batch_state s' = step_layers false s' qs.
Proof.
  intros Hn Hr [Hnd Hrq] Htok Hres Hfree Hle. destruct (during_asked cf s [] Hn Hr) as (fl & Hok & _ & Ha).
  destruct (standard_ready cf s Hn Hr) as [[Hs _] _].
  destruct (answered _ _ _ _ _ s (decode_free_answers fl s 0 Hok) Ha) as (m & Hm & Hcap & _). rewrite Hfree in Hm. injection Hm as <-.
  pose proof (prepare_decode_ok [] [] s qs Hs Hnd Hrq) as Hp. unfold wp in Hp. unfold prepare_step. destruct (prepare_decode qs s) as [[inp|e] s'].
  - exists inp, s'. split; [done|]. apply Hp.
  - destruct Hp as (_ & _ & Hno). destruct Hno. split; [done|]. split; [by apply Forall_fmap|]. lia.
Qed.
End admission.

(** ** A small run: two prompts share a block nobody holds *)

Definition sample_idle : StandardCacheManager := (run_standard (FreeSeq 1) sample_stored).2.
Definition sample_hit : PrefixHit := mkPrefixHit true 2 1 (Some sample_block_id) 2 "vanilla".
Definition sample_third : Sequence := sample_prompt 3 [7; 8; 6] 2 sample_hit.
Definition sample_batch : list Sequence := [sample_second; sample_third].
Lemma sample_idle_reachable : standard_reachable sample_standard sample_idle.
Proof. apply standard_step; [apply sample_stored_reachable|exact I]. Qed.
Lemma sample_batch_ok : standard_op_ok sample_idle (PrepareStep sample_batch true).
Proof. unfold sample_batch. cbn [standard_op_ok]. repeat promise_by_evaluation. Qed.
Lemma sample_batch_scheduled : Forall2 (scheduled sample_idle) sample_batch [3; 3].
Proof.
  constructor; [left|constructor; [left|constructor]]; split; first [split; vm_compute; [by eexists|discriminate]|vm_compute; (reflexivity || discriminate)].
Qed.
Definition sample_pass : list Query := [AskRefresh (waiting_form sample_second); AskCost sample_third; AskCost (sample_prompt 9 [1] 0 sample_hit); AskPrefillFree].

Lemma pass_reports_exact_witness :
  num_free_slots sample_idle = 6 /\ (std_prompt_admission_free_slots (during sample_idle sample_pass)).1 = Ok (capacity sample_idle) /\ capacity sample_idle = 8.
Proof.
  split; [vm_compute; reflexivity|]. split; [|vm_compute; reflexivity].
  apply (pass_reports_exact sample_standard sample_idle sample_pass); [vm_compute; discriminate|exact sample_idle_reachable].
Defined.

Lemma pass_prompt_costs_witness : exists path, refreshed sample_idle (waiting_form sample_second) path /\ hit_of sample_idle path = sample_hit /\
  (std_prompt_admission_cost sample_second (during sample_idle sample_pass)).1 = Ok 3.
Proof.
  destruct (pass_prompt_costs sample_standard sample_idle sample_pass (waiting_form sample_second) ltac:(vm_compute; discriminate)
    sample_idle_reachable ltac:(vm_compute; reflexivity) ltac:(vm_compute; reflexivity)) as (path & Hrf & Hhit & _).
  exists path. split; [exact Hrf|]. split; [|vm_compute; reflexivity].
  assert ((std_refresh_prefix_cache_hit (waiting_form sample_second) (during sample_idle sample_pass)).1 = Ok sample_hit) as E by (vm_compute; reflexivity).
  rewrite E in Hhit. by injection Hhit.
Defined.

Lemma admitted_batch_prefills_witness : exists inp s', prepare_step sample_batch true sample_idle = (Ok inp, s') /\ input_ids inp = [5; 6].
Proof.
  destruct (admitted_batch_prefills sample_standard sample_idle sample_batch [3; 3] 8 ltac:(vm_compute; discriminate) sample_idle_reachable
    sample_batch_ok sample_batch_scheduled ltac:(vm_compute; reflexivity) ltac:(vm_compute; discriminate) ltac:(vm_compute; discriminate))
    as (inp & s' & Hrun & _).
  exists inp, s'. split; [exact Hrun|]. assert ((prepare_step sample_batch true sample_idle).1 = Ok inp) as E by (by rewrite Hrun). vm_compute in E.
  injection E as <-. reflexivity.
Defined.

Definition sample_decoding : Sequence := sample_first <| num_prefilled_tokens := 3 |> <| current_chunk_size := None |>.
Lemma decode_batch_proceeds_witness : exists inp s', prepare_step [sample_decoding] false sample_stored = (Ok inp, s') /\
  slot_mapping (layer_batch_state s') = [4].
Proof.
  destruct (decode_batch_proceeds sample_standard sample_stored [sample_decoding] 5 ltac:(vm_compute; discriminate) sample_stored_reachable)
    as (inp & s' & Hrun & _).
  - split; [promise_by_evaluation|constructor; [|constructor]]. split.
    + split; [repeat promise_by_evaluation|]. intros _ [d Hd]. vm_compute in Hd. discriminate.
    + repeat promise_by_evaluation.
    + intros t Ht. vm_compute in Ht. injection Ht as <-. reflexivity.
    + repeat promise_by_evaluation.
  - repeat constructor. eexists. vm_compute. reflexivity.
  - repeat constructor. vm_compute. eauto.
  - vm_compute. reflexivity.
  - vm_compute. discriminate.
  - exists inp, s'. split; [exact Hrun|]. transitivity (slot_mapping (layer_batch_state (prepare_step [sample_decoding] false sample_stored).2)); [by rewrite Hrun|].
    vm_compute. reflexivity.
Defined.
