(* ===== verification/RecurrentRows.v ===== *)
(** * Recurrent state rows

    [engine/recurrent_state_manager.py]: a pool of rows, one per resident
    sequence plus a scratch row, in which every recurrent layer keeps its named
    tensors; prefix snapshots copy a row out and back in.

    PyTorch is a parameter: element types with their sizes, devices, the content
    of a tensor of a given shape and its zero.  Waiting on a readiness event has
    no effect on this state. *)

From stdpp Require Import base gmap list strings list_numbers.
From Stdlib Require Import ZArith Lia.
From S2P Require Import Prelude PyDict Sequence.

(** ** PyTorch *)

Class TorchTypes (DType Device Content Event : Type) := {
  dtype_eq :: EqDecision DType;
  device_eq :: EqDecision Device;
  element_size : DType -> Z;
  zeros : list Z -> Content;
  is_cpu : Device -> bool;
}.

Section recurrent.
Context {DType Device Content Event : Type} `{TorchTypes DType Device Content Event}.

Definition product (shape : list Z) : Z := foldl Z.mul 1 shape.

(** A tensor value handed to the manager. *)
Record Tensor := mkTensor {
  shape : list Z;
  dtype : DType;
  device : Device;
  content : Content;
}.

(** ** Schemas *)

Record RecurrentTensorSpec := mkTensorSpec {
  spec_name : string;
  spec_shape : list Z;
  spec_dtype : DType;
}.
(** [__post_init__] *)
Definition tensor_spec (name : string) (dims : list Z) (t : DType) : exc RecurrentTensorSpec :=
  if String.eqb name "" || bool_decide (dims = []) || existsb (fun d => d <=? 0) dims
  then Raise (ValueError "Invalid recurrent tensor spec") else Ok (mkTensorSpec name dims t).
Definition nbytes (t : RecurrentTensorSpec) : Z := product (spec_shape t) * element_size (spec_dtype t).

Record RecurrentStateSpec := mkStateSpec {
  state_spec_name : string;
  tensor_specs : list RecurrentTensorSpec;
}.
Definition state_names (s : RecurrentStateSpec) : list string := spec_name <$> tensor_specs s.
Definition state_spec (name : string) (specs : list RecurrentTensorSpec) : exc RecurrentStateSpec :=
  let names := spec_name <$> specs in
  if String.eqb name "" || bool_decide (names = []) || existsb (fun n => String.eqb n "") names
     || negb (bool_decide (NoDup names))
  then Raise (ValueError "Invalid recurrent state spec") else Ok (mkStateSpec name specs).
Definition bytes_per_layer (s : RecurrentStateSpec) : Z := sumZ (nbytes <$> tensor_specs s).
Definition bytes_for_layers (s : RecurrentStateSpec) (layers : Z) : Z := bytes_per_layer s * layers.

Record RecurrentCapacity := mkCapacity {
  cap_row_capacity : Z;
  cap_total_rows : Z;
  cap_bytes_per_row : Z;
  cap_pool_bytes : Z;
  cap_supported_active_sequences : Z;
}.
(** The configuration fields the manager reads. *)
Record RecurrentConfig := mkRecurrentConfig {
  rc_max_num_seqs_in_gpu : Z;
  rc_recurrent_state_max_bytes : option Z;
  rc_prefix_cache_block_size : Z;
  rc_linear_attention_layers : list Z;
  rc_layer_idx_to_kv_idx : list (option Z);
}.
(** [l[i]] of a tuple: a negative index counts from the end. *)
Definition py_index {A} (l : list A) (i : Z) : exc A :=
  match (if i <? - Z.of_nat (length l) then None
         else l !! Z.to_nat (if i <? 0 then Z.of_nat (length l) + i else i)) with
  | Some x => Ok x
  | None => Raise (IndexError "tuple index out of range")
  end.
(** [RuntimeLayout.is_linear_attention] *)
Definition is_linear_attention (c : RecurrentConfig) (layer_idx : Z) : exc bool :=
  kv ← py_index (rc_layer_idx_to_kv_idx c) layer_idx; Ok (bool_decide (kv = None)).

Definition resolve_capacity (c : RecurrentConfig) (spec : RecurrentStateSpec) (layers : Z) : exc RecurrentCapacity :=
  if layers <=? 0 then Raise (ValueError "num_recurrent_layers must be positive")
  else
    let per_row := bytes_for_layers spec layers in
    let rows := rc_max_num_seqs_in_gpu c in
    let pool := (rows + 1) * per_row in
    if match rc_recurrent_state_max_bytes c with Some b => b <? pool | None => false end
    then Raise (RuntimeError "live recurrent-state pool exceeds recurrent_state_max_bytes")
    else Ok (mkCapacity rows (rows + 1) per_row pool rows).

(** ** State *)

(** One preallocated tensor of shape [total_rows, *buf_shape]. *)
Record Buffer := mkBuffer {
  buf_shape : list Z;
  buf_dtype : DType;
  buf_device : Device;
  rows : list Content;
}.
#[export] Instance eta_buffer : Eta Buffer := fun b => mkBuffer (buf_shape b) (buf_dtype b) (buf_device b) (rows b).

Record RecurrentPrefixPayload := mkPayload {
  payload_token_count : Z;
  layer_states : PyDict Z (PyDict string Tensor);
}.

Record RecurrentStateManager := mkRecurrent {
  rm_config : RecurrentConfig;
  rm_spec : RecurrentStateSpec;
  rm_device : Device;
  row_capacity : Z;
  bytes_per_row : Z;
  pool_bytes : Z;
  seq_id_to_row : gmap Z Z;
  row_to_seq_id : list (option Z);
  free_rows : list Z;
  layer_buffers : PyDict Z (PyDict string Buffer);
  decode_state_indices : gmap Z (Device * list Z);
  pending_prefix_payloads : gmap Z (RecurrentPrefixPayload * gmap Z Event);
}.
#[export] Instance eta_recurrent : Eta RecurrentStateManager := fun m =>
  mkRecurrent (rm_config m) (rm_spec m) (rm_device m) (row_capacity m) (bytes_per_row m) (pool_bytes m)
    (seq_id_to_row m) (row_to_seq_id m) (free_rows m) (layer_buffers m) (decode_state_indices m)
    (pending_prefix_payloads m).
#[local] Abbreviation RowAct := (Act PyExn RecurrentStateManager).

Definition scratch_row (m : RecurrentStateManager) : Z := row_capacity m.

Definition new_buffer (total : Z) (d : Device) (t : RecurrentTensorSpec) : Buffer :=
  mkBuffer (spec_shape t) (spec_dtype t) d (replicate (Z.to_nat total) (zeros (spec_shape t))).
Definition new_buffers (total : Z) (d : Device) (spec : RecurrentStateSpec) : PyDict string Buffer :=
  foldl (fun b t => <[spec_name t := new_buffer total d t]> b) ∅ (tensor_specs spec).

(** [__init__]; the platform's allocator statistics are left out. *)
Definition new_manager (c : RecurrentConfig) (d : Device) (spec : RecurrentStateSpec) : exc RecurrentStateManager :=
  let layers := rc_linear_attention_layers c in
  cap ← resolve_capacity c spec (Z.of_nat (length layers));
  if cap_row_capacity cap <=? 0 then Raise (ValueError "Recurrent state row capacity must be positive")
  else Ok (mkRecurrent c spec d (cap_row_capacity cap) (cap_bytes_per_row cap) (cap_pool_bytes cap)
             ∅ (replicate (Z.to_nat (cap_row_capacity cap)) None) (seqZ 0 (cap_row_capacity cap))
             (foldl (fun b l => <[l := new_buffers (cap_total_rows cap) d spec]> b) ∅ layers) ∅ ∅).

(** ** Rows *)

(** [buffer[row] = x] *)
Definition set_row (row : Z) (x : Content) (b : Buffer) : Buffer := b <| rows ::= fun l => <[Z.to_nat row := x]> l |>.
Definition zero_row (row : Z) (b : Buffer) : Buffer := set_row row (zeros (buf_shape b)) b.
Definition map_dict {K V} (f : V -> V) (d : PyDict K V) : PyDict K V :=
  mkDict ((fun kv => (kv.1, f kv.2)) <$> items d).
(** The loops over [layer_buffers.values()] and their [values()]. *)
Definition map_buffers (f : Buffer -> Buffer) : PyDict Z (PyDict string Buffer) -> PyDict Z (PyDict string Buffer) :=
  map_dict (map_dict f).

Definition allocate_row (seq_id : Z) : RowAct Z :=
  m ← read (fun m => m);
  match seq_id_to_row m !! seq_id with
  | Some row => mret row
  | None =>
      match free_rows m with
      | [] => throw (RuntimeError "Recurrent state row capacity exhausted")
      | row :: rest =>
          modify (fun m => m <| free_rows := rest |>) ;;
          modify (fun m => m <| seq_id_to_row ::= <[seq_id := row]> |>) ;;
          modify (fun m => m <| row_to_seq_id ::= <[Z.to_nat row := Some seq_id]> |>) ;;
          modify (fun m => m <| layer_buffers ::= map_buffers (zero_row row) |>) ;;
          mret row
      end
  end.

Definition ensure_buffer (layer_idx : Z) (name : string) (value : Tensor) : RowAct Buffer :=
  m ← read (fun m => m);
  match layer_buffers m !! layer_idx with
  | None => throw (RuntimeError "Recurrent state was requested for undeclared layer_idx")
  | Some buffers =>
      match buffers !! name with
      | None => throw (RuntimeError "Recurrent state was requested for undeclared tensor name")
      | Some b =>
          guard_not (negb (bool_decide (buf_shape b = shape value)))
            (RuntimeError "Recurrent state shape changed after row pool allocation") ;;
          guard_not (negb (bool_decide (buf_dtype b = dtype value)) || negb (bool_decide (buf_device b = device value)))
            (RuntimeError "Recurrent state dtype/device changed after row pool allocation") ;;
          mret b
      end
  end.

Definition prepare_step (seqs : list Sequence) : RowAct unit :=
  for_each seqs (fun q => allocate_row (seq_id q) ;; mret tt).

Definition rows_of (m : RecurrentStateManager) (seqs : list Sequence) : list Z :=
  omap (fun q => seq_id_to_row m !! seq_id q) seqs.
Definition padded_rows (m : RecurrentStateManager) (seqs : list Sequence) (token_batch : Z) : list Z :=
  rows_of m seqs ++ replicate (Z.to_nat (token_batch - Z.of_nat (length seqs))) (scratch_row m).

Definition prepare_decode_static (seqs : list Sequence) (token_batch : Z) (d : Device) : RowAct unit :=
  prepare_step seqs ;;
  guard_not (token_batch <? Z.of_nat (length seqs)) (RuntimeError "static decode has fewer token rows than real sequences") ;;
  m ← read (fun m => m);
  guard_not (match decode_state_indices m !! token_batch with Some (d', _) => negb (bool_decide (d' = d)) | None => false end)
    (RuntimeError "decode state-index buffer changed device") ;;
  modify (fun m => m <| decode_state_indices ::= <[token_batch := (d, padded_rows m seqs token_batch)]> |>).

Definition free_seq (seq_id : Z) : RowAct unit :=
  modify (fun m => m <| pending_prefix_payloads ::= delete seq_id |>) ;;
  m ← read (fun m => m);
  match seq_id_to_row m !! seq_id with
  | None => mret tt
  | Some row =>
      modify (fun m => m <| seq_id_to_row ::= delete seq_id |>) ;;
      guard_not (negb (bool_decide (row_to_seq_id m !! Z.to_nat row = Some (Some seq_id))))
        (RuntimeError "Recurrent state row ownership is inconsistent") ;;
      modify (fun m => m <| row_to_seq_id ::= <[Z.to_nat row := None]> |>) ;;
      modify (fun m => m <| free_rows ::= fun l => l ++ [row] |>)
  end.

Definition zero_all (b : Buffer) : Buffer := b <| rows ::= fmap (fun _ => zeros (buf_shape b)) |>.
Definition reset_after_warmup : RowAct unit :=
  modify (fun m => m <| pending_prefix_payloads := ∅ |> <| seq_id_to_row := ∅ |>
                     <| row_to_seq_id := replicate (Z.to_nat (row_capacity m)) None |>
                     <| free_rows := seqZ 0 (row_capacity m) |> <| layer_buffers ::= map_buffers zero_all |>).

(** ** Layer states *)

Definition write_buffer (layer_idx : Z) (name : string) (row : Z) (x : Content) : RowAct unit :=
  modify (fun m => match layer_buffers m !! layer_idx with
                   | None => m
                   | Some buffers =>
                       match buffers !! name with
                       | None => m
                       | Some b => m <| layer_buffers ::= <[layer_idx := <[name := set_row row x b]> buffers]> |>
                       end
                   end).

Definition set_layer_state (seq_id layer_idx : Z) (states : PyDict string Tensor) : RowAct unit :=
  m ← read (fun m => m);
  linear ← lift (is_linear_attention (rm_config m) layer_idx);
  guard_not (negb linear) (RuntimeError "layer is full_attention and has no recurrent state") ;;
  let names := state_names (rm_spec m) in
  guard_not (existsb (fun n => negb (has_key n states)) names || existsb (fun n => negb (bool_decide (n ∈ names))) (keys states))
    (RuntimeError "recurrent state schema mismatch") ;;
  row ← allocate_row seq_id;
  for_each (items states) (fun kv =>
    ensure_buffer layer_idx kv.1 kv.2 ;; write_buffer layer_idx kv.1 row (content kv.2)).

(** [_materialize_pending_prefix_layer]; [capturing] is [is_stream_capturing()]. *)
Definition materialize (capturing : bool) (seq_id layer_idx : Z) : RowAct unit :=
  m ← read (fun m => m);
  match pending_prefix_payloads m !! seq_id with
  | None => mret tt
  | Some (payload, events) =>
      match layer_states payload !! layer_idx with
      | None => mret tt
      | Some state =>
          match events !! layer_idx with
          | None => throw (RuntimeError "Recurrent prefix layer is missing its H2D readiness event")
          | Some _ =>
              let events' := delete layer_idx events in
              modify (fun m => m <| pending_prefix_payloads ::= <[seq_id := (payload, events')]> |>) ;;
              guard_not capturing (RuntimeError "Recurrent prefix H2D readiness waits are forbidden during graph capture") ;;
              set_layer_state seq_id layer_idx state ;;
              when (bool_decide (events' = ∅)) (modify (fun m => m <| pending_prefix_payloads ::= delete seq_id |>))
          end
      end
  end.

(** The row of each buffer of a layer. *)
Definition read_row (row : Z) (b : Buffer) : option Tensor :=
  (fun x => mkTensor (buf_shape b) (buf_dtype b) (buf_device b) x) <$> rows b !! Z.to_nat row.
Definition layer_row (row : Z) (buffers : PyDict string Buffer) : PyDict string Tensor :=
  mkDict (omap (fun kv => (fun t => (kv.1, t)) <$> read_row row kv.2) (items buffers)).

Definition get_layer_state (capturing : bool) (seq_id layer_idx : Z) : RowAct (option (PyDict string Tensor)) :=
  materialize capturing seq_id layer_idx ;;
  m ← read (fun m => m);
  match seq_id_to_row m !! seq_id, layer_buffers m !! layer_idx with
  | Some row, Some buffers => mret (if bool_decide (items buffers = []) then None else Some (layer_row row buffers))
  | _, _ => mret None
  end.

(** ** Decoding *)

Definition zero_rows (row : Z) (names : list string) (buffers : PyDict string Buffer) : PyDict string Buffer :=
  foldl (fun bs n => match bs !! n with Some b => <[n := zero_row row b]> bs | None => bs end) buffers names.
Definition zero_scratch (layer_idx : Z) : RowAct unit :=
  modify (fun m => match layer_buffers m !! layer_idx with
                   | None => m
                   | Some buffers => m <| layer_buffers ::=
                       <[layer_idx := zero_rows (scratch_row m) (state_names (rm_spec m)) buffers]> |>
                   end).

Definition spec_of (spec : RecurrentStateSpec) (name : string) : option RecurrentTensorSpec :=
  List.find (fun t => String.eqb (spec_name t) name) (tensor_specs spec).
(** The tensor whose element type the activations must have. *)
Definition activation_state_name (spec : RecurrentStateSpec) : option string :=
  if bool_decide ("conv_state"%string ∈ state_names spec) then Some "conv_state"%string
  else match tensor_specs spec with
       | [] => None
       | t :: ts => if forallb (fun u => bool_decide (spec_dtype u = spec_dtype t)) ts then Some (spec_name t) else None
       end.

Definition get_decode_layer_state (capturing : bool) (seqs : list Sequence) (layer_idx token_batch : Z)
    (activation : DType) (d : Device) : RowAct (list (string * Buffer) * (Device * list Z)) :=
  for_each seqs (fun q => materialize capturing (seq_id q) layer_idx) ;;
  guard_not (token_batch <? Z.of_nat (length seqs)) (RuntimeError "decode has fewer token rows than real sequences") ;;
  m ← read (fun m => m);
  let spec := rm_spec m in
  let buffers := default ∅ (layer_buffers m !! layer_idx) in
  guard_not (existsb (fun n => negb (has_key n buffers)) (state_names spec))
    (RuntimeError "decode requires initialized recurrent state") ;;
  guard_not (existsb (fun n => match buffers !! n, spec_of spec n with
                               | Some b, Some t => negb (bool_decide (buf_dtype b = spec_dtype t)) || negb (bool_decide (buf_device b = d))
                               | _, _ => true
                               end) (state_names spec))
    (RuntimeError "decode recurrent pool does not match its model schema") ;;
  guard_not (match activation_state_name spec with
             | Some n => match spec_of spec n with Some t => negb (bool_decide (spec_dtype t = activation)) | None => false end
             | None => false
             end)
    (RuntimeError "decode activation dtype does not match") ;;
  guard_not (existsb (fun q => bool_decide (seq_id_to_row m !! seq_id q = None)) seqs)
    (RuntimeError "decode requires recurrent state for every sequence") ;;
  zero_scratch layer_idx ;;
  m ← read (fun m => m);
  match decode_state_indices m !! token_batch with
  | None => throw (RuntimeError "decode state-index buffer was not prepared for the static batch")
  | Some (d', indices) =>
      guard_not (is_cpu d' && negb (bool_decide (indices = padded_rows m seqs token_batch)))
        (RuntimeError "decode state-index buffer is stale") ;;
      mret (omap (fun n => (fun b => (n, b)) <$> default ∅ (layer_buffers m !! layer_idx) !! n) (state_names spec), (d', indices))
  end.

(** ** Prefix snapshots *)

Fixpoint snapshot_layers (c : RecurrentConfig) (row : Z) (layers : list (Z * PyDict string Buffer)) :
    exc (list (Z * PyDict string Tensor)) :=
  match layers with
  | [] => Ok []
  | (l, buffers) :: layers' =>
      linear ← is_linear_attention c l;
      rest ← snapshot_layers c row layers';
      Ok (if (linear : bool) then (l, layer_row row buffers) :: rest else rest)
  end.
Definition build_prefix_recurrent_payload (q : Sequence) (token_count : Z) : RowAct RecurrentPrefixPayload :=
  m ← read (fun m => m);
  guard_not (token_count <=? 0) (ValueError "token_count must be > 0") ;;
  let bs := rc_prefix_cache_block_size (rm_config m) in
  guard_not ((0 <? bs) && negb (token_count mod bs =? 0))
    (ValueError "Recurrent prefix snapshots are only valid at prefix block boundaries") ;;
  match seq_id_to_row m !! seq_id q with
  | None => throw (RuntimeError "Cannot snapshot recurrent state for unknown seq_id")
  | Some row =>
      states ← lift (snapshot_layers (rm_config m) row (items (layer_buffers m)));
      mret (mkPayload token_count (mkDict states))
  end.

Definition attach_prefix_recurrent_payload (q : Sequence) (payload : option RecurrentPrefixPayload)
    (readiness_events : option (gmap Z Event)) : RowAct unit :=
  match payload with
  | None => mret tt
  | Some p =>
      m ← read (fun m => m);
      guard_not (payload_token_count p <=? 0) (RuntimeError "Invalid recurrent prefix payload token_count") ;;
      let bs := rc_prefix_cache_block_size (rm_config m) in
      guard_not ((0 <? bs) && negb (payload_token_count p mod bs =? 0))
        (RuntimeError "Cannot attach recurrent prefix payload from a non-boundary snapshot") ;;
      match readiness_events with
      | Some events =>
          guard_not (negb (bool_decide ((dom events : gset Z) = list_to_set (keys (layer_states p)))))
            (RuntimeError "Recurrent prefix readiness events do not match payload layers") ;;
          allocate_row (seq_id q) ;;
          modify (fun m => m <| pending_prefix_payloads ::= <[seq_id q := (p, events)]> |>)
      | None => for_each (items (layer_states p)) (fun kv => set_layer_state (seq_id q) kv.1 kv.2)
      end
  end.

Definition prefix_recurrent_snapshot_nbytes (m : RecurrentStateManager) : Z := bytes_per_row m.
Definition prefix_recurrent_payload_nbytes (payload : option RecurrentPrefixPayload) : Z :=
  match payload with
  | None => 0
  | Some p => sumZ ((fun state => sumZ ((fun t => product (shape t) * element_size (dtype t)) <$> values state))
                     <$> values (layer_states p))
  end.
End recurrent.
