(* ===== verification/RecurrentFacts.v ===== *)
(** * Recurrent state rows: ownership and snapshots

    Every row is free or belongs to exactly one sequence, whatever the manager
    is asked to do; and a prefix snapshot restores what it copied. *)

From stdpp Require Import base gmap list strings list_numbers.
From Stdlib Require Import ZArith Lia.
From S2P Require Import Prelude PyDict SamplingParams Sequence RecurrentRows.

(** ** Mapping a dictionary *)

Section map_dict.
Context {K V W : Type} `{EqDecision K}.

Lemma map_dict_lookup (f : V -> V) (d : PyDict K V) k : map_dict f d !! k = f <$> d !! k.
Proof.
  destruct d as [l]. unfold lookup, dict_lookup. cbn. induction l as [|[k' v] l IH]; cbn; [done|].
  by case_decide.
Qed.
Lemma map_dict_keys (f : V -> V) (d : PyDict K V) : keys (map_dict f d) = keys d.
Proof. unfold keys. cbn. by rewrite <- list_fmap_compose. Qed.
Lemma dict_insert_keeps_keys (d : PyDict K V) k v : is_Some (d !! k) -> keys (<[k:=v]> d) = keys d.
Proof. apply dict_keys_insert_Some. Qed.
End map_dict.

Section recurrent.
Context {DType Device Content Event : Type} `{TorchTypes DType Device Content Event}.
#[local] Abbreviation Manager := (@RecurrentStateManager DType Device Content Event).
#[local] Abbreviation RowAct := (Act PyExn (@RecurrentStateManager DType Device Content Event)).
#[local] Abbreviation BufferT := (@Buffer DType Device Content).
#[local] Abbreviation TensorT := (@Tensor DType Device Content).
Implicit Types (m : Manager) (b : BufferT) (q l row : Z) (name : string).

(** ** The invariant *)

(** What never changes of a buffer. *)
Definition meta b := (buf_shape b, buf_dtype b, buf_device b, length (rows b)).
Definition buffer_at m l name : option BufferT := bufs ← layer_buffers m !! l; bufs !! name.
(** The pool of [m'] is that of [m] up to the rows' contents. *)
Definition same_pool m m' : Prop :=
  keys (layer_buffers m') = keys (layer_buffers m) /\
  (forall l, keys <$> layer_buffers m' !! l = keys <$> layer_buffers m !! l) /\
  (forall l name, meta <$> buffer_at m' l name = meta <$> buffer_at m l name).
Definition same_setup m m' : Prop :=
  rm_config m' = rm_config m /\ rm_spec m' = rm_spec m /\ row_capacity m' = row_capacity m /\ same_pool m m'.

Record rows_ok m : Prop := {
  rk_positive : 0 < row_capacity m;
  rk_length : length (row_to_seq_id m) = Z.to_nat (row_capacity m);
  rk_owner : forall q row, seq_id_to_row m !! q = Some row <-> 0 <= row /\ row_to_seq_id m !! Z.to_nat row = Some (Some q);
  rk_free : forall row, row ∈ free_rows m <-> 0 <= row /\ row_to_seq_id m !! Z.to_nat row = Some None;
  rk_free_once : NoDup (free_rows m);
  rk_buffers : forall l name b, buffer_at m l name = Some b -> length (rows b) = Z.to_nat (row_capacity m + 1);
}.

Lemma same_pool_refl m : same_pool m m.
Proof. by split_and!. Qed.
Lemma same_pool_trans m1 m2 m3 : same_pool m1 m2 -> same_pool m2 m3 -> same_pool m1 m3.
Proof. intros (A1 & A2 & A3) (B1 & B2 & B3). split_and!; [congruence| |]; intros; by rewrite ?B2, ?A2, ?B3, ?A3. Qed.
Lemma same_setup_refl m : same_setup m m.
Proof. split_and!; try done; apply same_pool_refl. Qed.
Lemma same_setup_trans m1 m2 m3 : same_setup m1 m2 -> same_setup m2 m3 -> same_setup m1 m3.
Proof.
  intros (A1 & A2 & A3 & A4) (B1 & B2 & B3 & B4). split; [congruence|]. split; [congruence|]. split; [congruence|].
  by eapply same_pool_trans.
Qed.

Lemma same_pool_buffer m m' l name b' : same_pool m m' -> buffer_at m' l name = Some b' ->
  exists b, buffer_at m l name = Some b /\ meta b' = meta b.
Proof.
  intros (_ & _ & Hm) Hb. specialize (Hm l name). rewrite Hb in Hm. cbn in Hm.
  destruct (buffer_at m l name) as [b|]; [|done]. exists b. split; [done|]. by apply (inj Some) in Hm.
Qed.

(** The row bookkeeping is all the invariant needs besides the pool. *)
Lemma rows_ok_pool m m' : rows_ok m -> same_pool m m' -> row_capacity m' = row_capacity m ->
  seq_id_to_row m' = seq_id_to_row m -> row_to_seq_id m' = row_to_seq_id m -> free_rows m' = free_rows m -> rows_ok m'.
Proof.
  intros [H1 H2 H3 H4 H5 H6] Hp Ec Es Er Ef. split; rewrite ?Ec, ?Es, ?Er, ?Ef; try done.
  intros l name b' Hb. destruct (same_pool_buffer m m' l name b' Hp Hb) as (b & Hb' & Hm).
  injection Hm as _ _ _ Hm. rewrite Hm. by eapply H6.
Qed.

(** ** Updating buffers *)

Lemma map_buffers_at m f l name :
  (bufs ← map_buffers f (layer_buffers m) !! l; bufs !! name) = f <$> buffer_at m l name.
Proof.
  unfold map_buffers, buffer_at. rewrite map_dict_lookup. destruct (layer_buffers m !! l) as [bufs|]; cbn; [|done].
  by rewrite map_dict_lookup.
Qed.

Lemma same_pool_map m m' f : (forall b, meta (f b) = meta b) -> layer_buffers m' = map_buffers f (layer_buffers m) ->
  same_pool m m'.
Proof.
  intros Hf E. split_and!.
  - rewrite E. apply map_dict_keys.
  - intros l. rewrite E. unfold map_buffers. rewrite map_dict_lookup. destruct (layer_buffers m !! l) as [bufs|]; [|done].
    exact (f_equal Some (map_dict_keys f bufs)).
  - intros l name. unfold buffer_at at 1. rewrite E, map_buffers_at. destruct (buffer_at m l name); cbn; [|done].
    by rewrite Hf.
Qed.

Lemma set_row_meta row x b : meta (set_row row x b) = meta b.
Proof. unfold meta, set_row. cbn. by rewrite length_insert. Qed.
Lemma zero_row_meta row b : meta (zero_row row b) = meta b.
Proof. apply set_row_meta. Qed.
Lemma zero_all_meta b : meta (zero_all b) = meta b.
Proof. unfold meta, zero_all. cbn. by rewrite length_fmap. Qed.

(** Replacing one buffer by another of the same geometry. *)
Lemma same_pool_insert m m' l bufs name b b' : layer_buffers m !! l = Some bufs -> bufs !! name = Some b -> meta b' = meta b ->
  layer_buffers m' = <[l := <[name := b']> bufs]> (layer_buffers m) -> same_pool m m'.
Proof.
  intros Hl Hn Hm E. split_and!.
  - rewrite E. apply dict_keys_insert_Some. eauto.
  - intros l'. rewrite E, dict_lookup_insert. case_decide; [|done]. subst. rewrite Hl. cbn. f_equal.
    apply dict_keys_insert_Some. eauto.
  - intros l' name'. unfold buffer_at. rewrite E, dict_lookup_insert. case_decide; [|done]. subst. rewrite Hl. cbn.
    rewrite dict_lookup_insert. case_decide; [|done]. subst. rewrite Hn. cbn. by rewrite Hm.
Qed.

(** ** What a sequence's row holds *)

Definition cell m row l name : option Content := b ← buffer_at m l name; rows b !! Z.to_nat row.
Definition state_of m q l name : option Content := row ← seq_id_to_row m !! q; cell m row l name.

Lemma cell_map m m' f row l name : layer_buffers m' = map_buffers f (layer_buffers m) ->
  (forall b, rows (f b) !! Z.to_nat row = rows b !! Z.to_nat row) -> cell m' row l name = cell m row l name.
Proof.
  intros E Hf. unfold cell. unfold buffer_at at 1. rewrite E, map_buffers_at.
  destruct (buffer_at m l name); cbn; [apply Hf|done].
Qed.

(** ** Allocation *)

Lemma allocate_spec q m : rows_ok m ->
  wp (allocate_row q) (fun x m' => rows_ok m' /\ same_setup m m' /\ pending_prefix_payloads m' = pending_prefix_payloads m /\
    match x with
    | Ok row => seq_id_to_row m' !! q = Some row /\ (is_Some (seq_id_to_row m !! q) -> m' = m) /\
        forall q', q' <> q -> seq_id_to_row m' !! q' = seq_id_to_row m !! q' /\
          forall l name, state_of m' q' l name = state_of m q' l name
    | Raise _ => m' = m /\ seq_id_to_row m !! q = None /\ free_rows m = []
    end) m.
Proof.
  intros Hok. unfold allocate_row. do 2 wp_step. destruct (seq_id_to_row m !! q) as [row|] eqn:Hq.
  { wp_step. split_and!; try done. }
  destruct (free_rows m) as [|row rest] eqn:Hf.
  { wp_step. split_and!; try done. }
  do 4 (apply wp_bind, wp_modify). wp_step. cbn.
  match goal with |- rows_ok ?x /\ _ => set (m' := x) end.
  destruct Hok as [H1 H2 H3 H4 H5 H6].
  assert (0 <= row /\ row_to_seq_id m !! Z.to_nat row = Some None) as [Hrow Hnone] by (apply H4; rewrite Hf; by left).
  assert (Z.to_nat row < length (row_to_seq_id m))%nat as Hlt by (by eapply lookup_lt_Some).
  assert (same_pool m m') as Hpool by (eapply (same_pool_map m m' (zero_row row)); [apply zero_row_meta|done]).
  assert (forall q' r, seq_id_to_row m !! q' = Some r -> r <> row) as Hother.
  { intros q' r Hr ->. apply H3 in Hr as [_ Hr]. congruence. }
  split_and!; try done; try (by destruct Hpool as (? & ? & ?)).
  - split; cbn; try done.
    + by rewrite length_insert.
    + intros q' r. rewrite lookup_insert. split.
      * case_decide as E.
        -- intros [= <-]. subst. split; [done|]. by rewrite list_lookup_insert_eq.
        -- intros Hr. apply H3 in Hr as Hr'. destruct Hr' as [? Hr']. split; [done|].
           rewrite list_lookup_insert_ne; [done|]. apply Hother in Hr. lia.
      * intros [Hr Hl]. destruct (decide (Z.to_nat row = Z.to_nat r)) as [E|E].
        -- rewrite E, list_lookup_insert_eq in Hl by lia. injection Hl as ->. rewrite decide_True by done. f_equal. lia.
        -- rewrite list_lookup_insert_ne in Hl by done. rewrite decide_False; [apply H3; by split|].
           intros ->. rewrite (proj2 (H3 q' r)) in Hq by done. done.
    + intros r. assert (r ∈ rest <-> r ∈ free_rows m /\ r <> row) as ->.
      { rewrite Hf in *. apply NoDup_cons in H5 as [Hni _]. rewrite elem_of_cons. split; [intros Hr; split; [by right|by intros ->]|].
        by intros [[?|?] ?]. }
      rewrite H4. split.
      * intros [[? Hr] Hne]. split; [done|]. rewrite list_lookup_insert_ne; [done|lia].
      * intros [Hr Hl]. destruct (decide (Z.to_nat row = Z.to_nat r)) as [E|E].
        -- rewrite E, list_lookup_insert_eq in Hl by lia. done.
        -- rewrite list_lookup_insert_ne in Hl by done. split; [done|]. intros ->. done.
    + rewrite Hf in H5. by apply NoDup_cons in H5 as [_ ?].
    + intros l name b' Hb. destruct (same_pool_buffer m m' l name b' Hpool Hb) as (b & Hb' & Hm).
      injection Hm as _ _ _ Hm. rewrite Hm. by eapply H6.
  - apply lookup_insert_eq.
  - intros q' Hne. split; [by apply lookup_insert_ne|]. intros l name. unfold state_of. cbn.
    rewrite lookup_insert_ne by done. destruct (seq_id_to_row m !! q') as [r|] eqn:Hr; cbn; [|done].
    eapply cell_map; [done|]. intros b. cbn. rewrite list_lookup_insert_ne; [done|].
    apply Hother in Hr as Hne'. apply H3 in Hr as [? _]. lia.
Qed.

(** Two actions on the same pool. *)
Definition keeps {A} (a : RowAct A) : Prop := forall m, rows_ok m -> wp a (fun _ m' => rows_ok m' /\ same_setup m m') m.

Lemma keeps_allocate q : keeps (allocate_row q).
Proof. intros m Hok. eapply wp_mono; [by apply allocate_spec|]. by intros x m' (? & ? & _). Qed.
Lemma keeps_bind {A B} (a : RowAct A) (f : A -> RowAct B) : keeps a -> (forall x, keeps (f x)) -> keeps (a ≫= f).
Proof.
  intros Ha Hf m Hok. apply wp_bind. eapply wp_mono; [by apply Ha|]. intros [x|e] m' [Hok' Hs]; [|done].
  eapply wp_mono; [by apply Hf|]. intros y m'' [? ?]. split; [done|]. by eapply same_setup_trans.
Qed.
Lemma keeps_ret {A} (x : A) : keeps (mret x).
Proof. intros m Hok. wp_step. split; [done|apply same_setup_refl]. Qed.
Lemma keeps_read {A} (f : Manager -> A) : keeps (read f).
Proof. intros m Hok. wp_step. split; [done|apply same_setup_refl]. Qed.
Lemma keeps_throw {A} e : keeps (throw e : RowAct A).
Proof. intros m Hok. wp_step. split; [done|apply same_setup_refl]. Qed.
Lemma keeps_lift {A} (x : exc A) : keeps (lift x).
Proof. intros m Hok. wp_step. split; [done|apply same_setup_refl]. Qed.
Lemma keeps_guard c e : keeps (guard_not c e).
Proof. intros m Hok. wp_step; (split; [done|apply same_setup_refl]). Qed.
Lemma keeps_when c a : keeps a -> keeps (when c a).
Proof. intros Ha. destruct c; [exact Ha|apply (keeps_ret tt)]. Qed.
Lemma keeps_for_each {A} (xs : list A) f : (forall x, keeps (f x)) -> keeps (for_each xs f).
Proof. intros Hf. induction xs as [|x xs IH]; [apply (keeps_ret tt)|]. apply keeps_bind; [apply Hf|by intros _]. Qed.
(** Writes that leave rows and pool alone. *)
Lemma keeps_modify (f : Manager -> Manager) :
  (forall m, (rm_config (f m), rm_spec (f m), row_capacity (f m), seq_id_to_row (f m), row_to_seq_id (f m), free_rows (f m)) =
    (rm_config m, rm_spec m, row_capacity m, seq_id_to_row m, row_to_seq_id m, free_rows m)) ->
  (forall m, same_pool m (f m)) -> keeps (modify f).
Proof.
  intros Hf Hp m Hok. wp_step. specialize (Hf m). injection Hf as E1 E2 E3 E4 E5 E6.
  split; [by apply (rows_ok_pool m)|]. by destruct (Hp m) as (? & ? & ?).
Qed.

Create HintDb rows.
Hint Resolve keeps_allocate keeps_ret keeps_read keeps_throw keeps_lift keeps_guard : rows.
Ltac keeps_step :=
  lazymatch goal with
  | |- forall _, _ => intros ?
  | |- keeps (mbind _ _) => apply keeps_bind
  | |- keeps (for_each _ _) => apply keeps_for_each
  | |- keeps (when _ _) => apply keeps_when
  | |- keeps (modify _) => apply keeps_modify; [done|done]
  | |- keeps (match ?x with _ => _ end) => destruct x
  | |- keeps _ => solve [auto with rows]
  end.
Ltac keeps_auto := repeat (keeps_step; cbv beta iota zeta).

Lemma keeps_ensure l name v : keeps (ensure_buffer l name v).
Proof. unfold ensure_buffer. keeps_auto. Qed.
Lemma keeps_write l name row x : keeps (write_buffer l name row x).
Proof.
  unfold write_buffer. apply keeps_modify.
  - intros m. by repeat case_match.
  - intros m. destruct (layer_buffers m !! l) as [bufs|] eqn:Hl; [|apply same_pool_refl].
    destruct (bufs !! name) as [b|] eqn:Hb; [|apply same_pool_refl].
    apply (same_pool_insert m _ l bufs name b (set_row row x b)); [done|done|apply set_row_meta|done].
Qed.
Hint Resolve keeps_ensure keeps_write : rows.
Lemma keeps_set_layer q l states : keeps (set_layer_state q l states).
Proof. unfold set_layer_state. keeps_auto. Qed.
Hint Resolve keeps_set_layer : rows.
Lemma keeps_materialize c q l : keeps (materialize c q l).
Proof. unfold materialize. keeps_auto. Qed.
Hint Resolve keeps_materialize : rows.

Lemma keeps_prepare seqs : keeps (prepare_step seqs).
Proof. unfold prepare_step. keeps_auto. Qed.
Hint Resolve keeps_prepare : rows.
Lemma keeps_prepare_static seqs n d : keeps (prepare_decode_static seqs n d).
Proof. unfold prepare_decode_static. keeps_auto. Qed.
Lemma keeps_get c q l : keeps (get_layer_state c q l).
Proof. unfold get_layer_state. keeps_auto. Qed.
Lemma keeps_build s n : keeps (build_prefix_recurrent_payload s n).
Proof. unfold build_prefix_recurrent_payload. keeps_auto. Qed.
Lemma keeps_attach s p ev : keeps (attach_prefix_recurrent_payload s p ev).
Proof. unfold attach_prefix_recurrent_payload. keeps_auto. Qed.

Lemma zero_rows_same (bufs : PyDict string BufferT) names row :
  keys (zero_rows row names bufs) = keys bufs /\ forall n, meta <$> zero_rows row names bufs !! n = meta <$> bufs !! n.
Proof.
  unfold zero_rows. revert bufs. induction names as [|x names IH]; intros bufs; cbn; [done|].
  destruct (bufs !! x) as [b|] eqn:Hb; [|apply IH]. destruct (IH (<[x:=zero_row row b]> bufs)) as [-> Hm].
  split; [apply dict_keys_insert_Some; eauto|]. intros n. rewrite Hm, dict_lookup_insert. case_decide; [|done].
  subst. rewrite Hb. cbn. by rewrite zero_row_meta.
Qed.
Lemma keeps_zero_scratch l : keeps (zero_scratch l).
Proof.
  unfold zero_scratch. apply keeps_modify.
  - intros m. by case_match.
  - intros m. destruct (layer_buffers m !! l) as [bufs|] eqn:Hl; [|apply same_pool_refl].
    destruct (zero_rows_same bufs (state_names (rm_spec m)) (scratch_row m)) as [Hk Hm]. split_and!; cbn.
    + apply dict_keys_insert_Some. eauto.
    + intros l'. rewrite dict_lookup_insert. case_decide; [|done]. subst. rewrite Hl. exact (f_equal Some Hk).
    + intros l' name. unfold buffer_at. cbn. rewrite dict_lookup_insert. case_decide; [|done]. subst. rewrite Hl. apply Hm.
Qed.
Hint Resolve keeps_zero_scratch : rows.
Lemma keeps_decode c seqs l n t d : keeps (get_decode_layer_state c seqs l n t d).
Proof. unfold get_decode_layer_state. keeps_auto. Qed.

(** Freeing never meets an inconsistent owner. *)
Lemma free_seq_spec q m : rows_ok m -> wp (free_seq q) (fun x m' => x = Ok tt /\ rows_ok m' /\ same_setup m m' /\
  seq_id_to_row m' !! q = None /\ pending_prefix_payloads m' !! q = None /\
  (forall row, seq_id_to_row m !! q = Some row -> free_rows m' = free_rows m ++ [row]) /\
  forall q', q' <> q -> seq_id_to_row m' !! q' = seq_id_to_row m !! q' /\
    forall l name, state_of m' q' l name = state_of m q' l name) m.
Proof.
  intros Hok. unfold free_seq. apply wp_bind, wp_modify. do 2 wp_step. cbn.
  destruct (seq_id_to_row m !! q) as [row|] eqn:Hq; cbn.
  2:{ wp_step. split_and!; try done; [by apply (rows_ok_pool m)|apply lookup_delete_eq]. }
  apply wp_bind, wp_modify. destruct Hok as [H1 H2 H3 H4 H5 H6]. cbn.
  apply H3 in Hq as Hrow. destruct Hrow as [Hrow Hown].
  rewrite (bool_decide_eq_true_2 (row_to_seq_id m !! Z.to_nat row = Some (Some q))) by done.
  apply wp_bind, wp_guard; [done|intros _]. apply wp_bind, wp_modify, wp_modify. cbn.
  assert (Z.to_nat row < length (row_to_seq_id m))%nat as Hlt by (by eapply lookup_lt_Some).
  split_and!; try done.
  - split; cbn; try done.
    + by rewrite length_insert.
    + intros q' r. rewrite lookup_delete_Some, H3. split.
      * intros (Hne & ? & Hr). split; [done|]. rewrite list_lookup_insert_ne; [done|]. intros E. rewrite E in Hown. congruence.
      * intros [? Hr]. destruct (decide (Z.to_nat row = Z.to_nat r)) as [E|E].
        -- rewrite E, list_lookup_insert_eq in Hr by lia. done.
        -- rewrite list_lookup_insert_ne in Hr by done. split; [|done]. intros <-. apply E.
           assert (seq_id_to_row m !! q = Some r) as Hr' by (by apply H3).
           assert (seq_id_to_row m !! q = Some row) as Hr'' by (by apply H3). congruence.
    + intros r. rewrite elem_of_app, list_elem_of_singleton, H4. split.
      * intros [[? Hr]| ->]; [|split; [done|by apply list_lookup_insert_eq]]. split; [done|].
        rewrite list_lookup_insert_ne; [done|]. intros E. rewrite E in Hown. congruence.
      * intros [? Hr]. destruct (decide (Z.to_nat row = Z.to_nat r)) as [E|E]; [right; lia|left].
        rewrite list_lookup_insert_ne in Hr by done. by split.
    + apply NoDup_app. split_and!; [done| |apply NoDup_singleton]. intros r Hr ->%list_elem_of_singleton.
      apply H4 in Hr as [_ Hr]. congruence.
  - apply lookup_delete_eq.
  - apply lookup_delete_eq.
  - by intros r [= <-].
  - intros q' Hne. split; [by rewrite lookup_delete_ne|]. intros l name. unfold state_of. cbn. by rewrite lookup_delete_ne.
Qed.

Lemma keeps_free q : keeps (free_seq q).
Proof. intros m Hok. eapply wp_mono; [by apply free_seq_spec|]. by intros x m' (_ & ? & ? & _). Qed.

(** A pool in which every row is free. *)
Lemma fresh_rows_ok n : 0 < n ->
  (forall row, row ∈ seqZ 0 n <-> 0 <= row /\ replicate (Z.to_nat n) (None : option Z) !! Z.to_nat row = Some None) /\
  forall q row, replicate (Z.to_nat n) (None : option Z) !! Z.to_nat row <> Some (Some q).
Proof.
  intros Hn. split.
  - intros row. rewrite elem_of_seqZ, lookup_replicate. split; intros; split; lia || tauto || (split; [done|lia]).
  - intros q row E. apply lookup_replicate in E as [? _]. done.
Qed.

Lemma keeps_reset : keeps reset_after_warmup.
Proof.
  intros m [H1 H2 H3 H4 H5 H6]. unfold reset_after_warmup. wp_step.
  match goal with |- rows_ok ?x /\ _ => set (m' := x) end.
  assert (same_pool m m') as Hp by (by apply (same_pool_map m m' zero_all zero_all_meta)).
  destruct (fresh_rows_ok (row_capacity m) H1) as [F1 F2]. split; [|by split_and!]. split; cbn; try done.
  - by rewrite length_replicate.
  - intros q row. rewrite lookup_empty. split; [done|]. intros [_ E]. by apply F2 in E.
  - apply NoDup_seqZ.
  - intros l name b' Hb. destruct (same_pool_buffer m m' l name b' Hp Hb) as (b & Hb' & Hm).
    injection Hm as _ _ _ Hm. rewrite Hm. by eapply H6.
Qed.

(** ** Runs *)

Inductive RowOp :=
| RPrepare (seqs : list Sequence)
| RPrepareStatic (seqs : list Sequence) (token_batch : Z) (d : Device)
| RFree (q : Z)
| RReset
| RGet (capturing : bool) (q l : Z)
| RSet (q l : Z) (states : PyDict string TensorT)
| RDecode (capturing : bool) (seqs : list Sequence) (l token_batch : Z) (t : DType) (d : Device)
| RSnapshot (s : Sequence) (token_count : Z)
| RAttach (s : Sequence) (p : option (@RecurrentPrefixPayload DType Device Content)) (ev : option (gmap Z Event)).

Definition run_row_op (op : RowOp) : RowAct unit :=
  match op with
  | RPrepare seqs => prepare_step seqs
  | RPrepareStatic seqs n d => prepare_decode_static seqs n d
  | RFree q => free_seq q
  | RReset => reset_after_warmup
  | RGet c q l => get_layer_state c q l ;; mret tt
  | RSet q l states => set_layer_state q l states
  | RDecode c seqs l n t d => get_decode_layer_state c seqs l n t d ;; mret tt
  | RSnapshot s n => build_prefix_recurrent_payload s n ;; mret tt
  | RAttach s p ev => attach_prefix_recurrent_payload s p ev
  end.
Definition run_row_ops (ops : list RowOp) m : Manager := foldl (fun m op => (run_row_op op m).2) m ops.

Lemma keeps_row_op op : keeps (run_row_op op).
Proof.
  destruct op; cbn.
  - apply keeps_prepare.
  - apply keeps_prepare_static.
  - apply keeps_free.
  - apply keeps_reset.
  - apply keeps_bind; [apply keeps_get|intros _; apply keeps_ret].
  - apply keeps_set_layer.
  - apply keeps_bind; [apply keeps_decode|intros _; apply keeps_ret].
  - apply keeps_bind; [apply keeps_build|intros _; apply keeps_ret].
  - apply keeps_attach.
Qed.

Lemma run_rows_ok ops m : rows_ok m -> rows_ok (run_row_ops ops m) /\ same_setup m (run_row_ops ops m).
Proof.
  revert m. induction ops as [|op ops IH]; intros m Hok; [split; [done|apply same_setup_refl]|]. cbn.
  destruct (keeps_row_op op m Hok) as [Hok' Hs]. destruct (IH _ Hok') as [? ?]. split; [done|]. by eapply same_setup_trans.
Qed.

Lemma new_buffers_rows total d spec name b : new_buffers total d spec !! name = Some b ->
  length (rows b) = Z.to_nat total.
Proof.
  unfold new_buffers. assert (forall bs : PyDict string BufferT, (forall n b, bs !! n = Some b -> length (rows b) = Z.to_nat total) ->
    foldl (fun (x : PyDict string BufferT) t => <[spec_name t := new_buffer total d t]> x) bs (tensor_specs spec) !! name = Some b ->
    length (rows b) = Z.to_nat total) as Hgen; [|by apply Hgen].
  induction (tensor_specs spec) as [|t ts IH]; intros bs Hbs; cbn; [apply Hbs|]. apply IH. intros n b'.
  rewrite dict_lookup_insert. case_decide; [|apply Hbs]. intros [= <-]. cbn. by rewrite length_replicate.
Qed.

Lemma new_layers_at (f : Z -> PyDict string BufferT) layers (bs : PyDict Z (PyDict string BufferT)) l x :
  foldl (fun (y : PyDict Z (PyDict string BufferT)) l => <[l := f l]> y) bs layers !! l = Some x -> x = f l \/ bs !! l = Some x.
Proof.
  revert bs. induction layers as [|y ys IH]; intros bs; cbn; [by right|]. intros [?|E]%IH; [by left|].
  rewrite dict_lookup_insert in E. case_decide; [|by right]. subst. injection E as <-. by left.
Qed.

Lemma new_manager_ok c d spec m : new_manager c d spec = Ok m -> rows_ok m.
Proof.
  unfold new_manager, resolve_capacity. case_match; cbn; [done|]. case_match; cbn; [done|].
  destruct (Z.leb_spec (rc_max_num_seqs_in_gpu c) 0); cbn; [done|]. intros [= <-].
  destruct (fresh_rows_ok (rc_max_num_seqs_in_gpu c)) as [F1 F2]; [done|]. split; cbn; try done.
  - by rewrite length_replicate.
  - intros q row. rewrite lookup_empty. split; [done|]. intros [_ E]. by apply F2 in E.
  - apply NoDup_seqZ.
  - intros l name b Hb. unfold buffer_at in Hb. cbn in Hb.
    match type of Hb with (?x ≫= _) = _ => destruct x as [bufs|] eqn:E; [|done] end. cbn in Hb.
    apply (new_layers_at (fun _ => new_buffers (rc_max_num_seqs_in_gpu c + 1) d spec)) in E as [->|E]; [|done].
    by apply new_buffers_rows in Hb.
Qed.
End recurrent.
