(* ===== verification/RecurrentGuarantees.v ===== *)
(** * Recurrent state rows: guarantees

    Rows are owned exclusively in every run, freeing never finds an
    inconsistent owner, and a prefix snapshot restores the state it copied
    without touching any other sequence. *)

From stdpp Require Import base gmap list strings list_numbers.
From Stdlib Require Import ZArith Lia.
From S2P Require Import Prelude PyDict SamplingParams Sequence RecurrentRows RecurrentFacts.

Section recurrent.
Context {DType Device Content Event : Type} `{TorchTypes DType Device Content Event}.
#[local] Abbreviation Manager := (@RecurrentStateManager DType Device Content Event).
#[local] Abbreviation RowAct := (Act PyExn (@RecurrentStateManager DType Device Content Event)).
#[local] Abbreviation BufferT := (@Buffer DType Device Content).
#[local] Abbreviation TensorT := (@Tensor DType Device Content).
#[local] Abbreviation returns := (@wpe PyExn (@RecurrentStateManager DType Device Content Event) _ (fun _ => False)).
Implicit Types (m : Manager) (b : BufferT) (q l row : Z) (name : string).

(** ** The schema *)

(** Every layer of the pool is a recurrent layer with the schema's tensors. *)
Record schema_ok m : Prop := {
  sk_layers : dict_wf (layer_buffers m);
  sk_linear : forall l, l ∈ keys (layer_buffers m) -> is_linear_attention (rm_config m) l = Ok true;
  sk_names : forall l bufs, layer_buffers m !! l = Some bufs ->
    dict_wf bufs /\ forall n, n ∈ keys bufs <-> n ∈ state_names (rm_spec m);
}.

Lemma schema_ok_setup m m' : schema_ok m -> same_setup m m' -> schema_ok m'.
Proof.
  intros [H1 H2 H3] (E1 & E2 & _ & K1 & K2 & _). split.
  - unfold dict_wf. by rewrite K1.
  - intros l. rewrite K1, E1. apply H2.
  - intros l bufs Hl. specialize (K2 l). rewrite Hl in K2. destruct (layer_buffers m !! l) as [bufs0|] eqn:E; [|done].
    cbn in K2. injection K2 as K2. unfold dict_wf. rewrite K2, E2. by apply (H3 l).
Qed.

Definition layout_ok (c : RecurrentConfig) : Prop :=
  NoDup (rc_linear_attention_layers c) /\
  forall l, l ∈ rc_linear_attention_layers c -> is_linear_attention c l = Ok true.

Lemma new_buffers_names total d spec : NoDup (state_names spec) ->
  dict_wf (new_buffers total d spec : PyDict string BufferT) /\
  forall n, n ∈ keys (new_buffers total d spec : PyDict string BufferT) <-> n ∈ state_names spec.
Proof.
  unfold new_buffers, state_names. intros _.
  assert (forall bs : PyDict string BufferT, dict_wf bs ->
    let r := foldl (fun (x : PyDict string BufferT) t => <[spec_name t := new_buffer total d t]> x) bs (tensor_specs spec) in
    dict_wf r /\ forall n, n ∈ keys r <-> n ∈ keys bs \/ n ∈ spec_name <$> tensor_specs spec) as Hgen.
  { induction (tensor_specs spec) as [|t ts IH]; intros bs Hwf; cbn.
    { split; [done|]. intros n. rewrite elem_of_nil. tauto. }
    destruct (IH (<[spec_name t := new_buffer total d t]> bs)) as [H1 H2]; [by apply dict_wf_insert|]. split; [done|].
    intros n. rewrite H2, elem_of_cons, !dict_elem_of_keys, dict_lookup_insert. case_decide; [|naive_solver].
    subst. split; [by right; left|by left]. }
  destruct (Hgen ∅ dict_wf_empty) as [H1 H2]. split; [exact H1|]. intros n. rewrite H2.
  rewrite dict_elem_of_keys, dict_lookup_empty. split; [by intros [[? ?]|?]|by right].
Qed.

Lemma new_manager_schema c d spec m : layout_ok c -> NoDup (state_names spec) -> new_manager c d spec = Ok m -> schema_ok m.
Proof.
  intros [Hnd Hlin] Hnames. unfold new_manager, resolve_capacity. case_match; cbn; [done|]. case_match; cbn; [done|].
  destruct (Z.leb_spec (rc_max_num_seqs_in_gpu c) 0); cbn; [done|]. intros [= <-].
  set (f := fun _ : Z => new_buffers (rc_max_num_seqs_in_gpu c + 1) d spec : PyDict string BufferT).
  assert (forall layers (bs : PyDict Z (PyDict string BufferT)), dict_wf bs ->
    let r := foldl (fun (x : PyDict Z (PyDict string BufferT)) l => <[l := f l]> x) bs layers in
    dict_wf r /\ forall l, l ∈ keys r -> l ∈ keys bs \/ l ∈ layers) as Hgen.
  { induction layers as [|y ys IH]; intros bs Hwf; cbn; [split; [done|by left]|].
    destruct (IH (<[y := f y]> bs)) as [Hd He]; [by apply dict_wf_insert|]. split; [done|].
    intros l Hl. apply He in Hl as [Hl|Hl]; [|right; by right]. rewrite dict_elem_of_keys, dict_lookup_insert in Hl.
    case_decide; [subst; right; by left|left; by apply dict_elem_of_keys]. }
  destruct (Hgen (rc_linear_attention_layers c) ∅ dict_wf_empty) as [H1' H2']. split; cbn.
  - exact H1'.
  - intros l Hl. apply H2' in Hl as [Hl|Hl]; [by apply dict_elem_of_keys in Hl as [? ?]|by apply Hlin].
  - intros l bufs Hl. apply (new_layers_at f) in Hl as [->|Hl]; [by apply new_buffers_names|done].
Qed.

(** ** Reading rows *)

Lemma layer_row_at row (bufs : PyDict string BufferT) name : dict_wf bufs ->
  layer_row row bufs !! name = (b ← bufs !! name; read_row row b).
Proof.
  destruct bufs as [items]. unfold dict_wf, keys, layer_row, lookup, dict_lookup. cbn.
  induction items as [|[n b] items IH]; cbn; [done|]. intros [Hni Hnd]%NoDup_cons. specialize (IH Hnd). cbn in IH, Hni.
  case_decide as Hd; cbn; [|destruct (read_row row b); cbn; [rewrite decide_False by done|]; exact IH].
  subst. destruct (read_row row b) as [t|]; cbn; [by rewrite decide_True|].
  rewrite IH. destruct (assoc name items) as [b'|] eqn:E; [|done]. exfalso. apply Hni.
  apply (dict_elem_of_keys (mkDict items)). by exists b'.
Qed.
Lemma layer_row_keys row (bufs : PyDict string BufferT) :
  (forall n b, (n, b) ∈ items bufs -> is_Some (read_row row b)) -> keys (layer_row row bufs) = keys bufs.
Proof.
  unfold keys, layer_row. cbn. induction (items bufs) as [|[n b] l IH]; intros Hall; [done|]. cbn.
  destruct (Hall n b) as [t Ht]; [by left|]. rewrite Ht. cbn. f_equal. apply IH. intros. eapply Hall. by right.
Qed.

Lemma snapshot_layers_all c row (layers : list (Z * PyDict string BufferT)) :
  (forall l, l ∈ layers.*1 -> is_linear_attention c l = Ok true) ->
  snapshot_layers c row layers = Ok ((fun kv => (kv.1, layer_row row kv.2)) <$> layers).
Proof.
  induction layers as [|[l bufs] layers IH]; intros Hall; [done|]. cbn. rewrite Hall by (by left). cbn.
  rewrite IH by (intros; apply Hall; by right). done.
Qed.

(** ** Writing a layer *)

Lemma read_row_cell m row l bufs n b : layer_buffers m !! l = Some bufs -> bufs !! n = Some b ->
  read_row row b = (fun x => mkTensor (buf_shape b) (buf_dtype b) (buf_device b) x) <$> cell m row l n.
Proof. intros Hl Hn. unfold cell, buffer_at. rewrite Hl. cbn. by rewrite Hn. Qed.

Lemma write_cell m l n row x bufs b : layer_buffers m !! l = Some bufs -> bufs !! n = Some b ->
  (Z.to_nat row < length (rows b))%nat -> 0 <= row ->
  wp (write_buffer l n row x) (fun r m' => r = Ok tt /\ cell m' row l n = Some x /\
    seq_id_to_row m' = seq_id_to_row m /\ free_rows m' = free_rows m /\
    forall row' l' n', 0 <= row' -> row' <> row \/ l' <> l \/ n' <> n -> cell m' row' l' n' = cell m row' l' n') m.
Proof.
  intros Hl Hn Hlt Hrow. unfold write_buffer. wp_step. rewrite Hl, Hn.
  assert (forall row' l' n', cell (m <| layer_buffers ::= <[l:=<[n:=set_row row x b]> bufs]> |>) row' l' n' =
    if decide (l = l' /\ n = n') then rows (set_row row x b) !! Z.to_nat row' else cell m row' l' n') as Hc.
  { intros row' l' n'. unfold cell, buffer_at. cbn. rewrite dict_lookup_insert. case_decide as E1.
    - subst. cbn. rewrite dict_lookup_insert. case_decide as E2.
      + subst. rewrite decide_True by done. done.
      + rewrite decide_False by naive_solver. by rewrite Hl.
    - rewrite decide_False by naive_solver. done. }
  split_and!; try done.
  - rewrite Hc, decide_True by done. cbn. by rewrite list_lookup_insert_eq.
  - intros row' l' n' Hr' Hne. rewrite Hc. case_decide as E; [|done]. destruct E as [<- <-]. cbn.
    rewrite list_lookup_insert_ne by (destruct Hne as [?|[?|?]]; [lia|done..]).
    unfold cell, buffer_at. rewrite Hl. cbn. by rewrite Hn.
Qed.

(** [states] fits the buffers of layer [l]. *)
Definition fits m l (states : PyDict string TensorT) : Prop :=
  exists bufs, layer_buffers m !! l = Some bufs /\ dict_wf states /\ (forall n, n ∈ keys states <-> n ∈ keys bufs) /\
    forall n t b, states !! n = Some t -> bufs !! n = Some b -> shape t = buf_shape b /\ dtype t = buf_dtype b /\ device t = buf_device b.

Lemma fits_pool m m' l states : fits m l states -> same_pool m m' -> fits m' l states.
Proof.
  intros (bufs & Hl & Hwf & Hk & Hm) (_ & K2 & K3). specialize (K2 l). rewrite Hl in K2.
  destruct (layer_buffers m' !! l) as [bufs'|] eqn:Hl'; [|done]. cbn in K2. injection K2 as K2.
  exists bufs'. split_and!; [done|done|by rewrite K2|]. intros n t b' Ht Hb'.
  specialize (K3 l n). unfold buffer_at in K3. rewrite Hl, Hl' in K3. cbn in K3. rewrite Hb' in K3.
  destruct (bufs !! n) as [b|] eqn:Hb; [|done]. cbn in K3. apply (inj Some) in K3. injection K3 as E1 E2 E3 _.
  rewrite E1, E2, E3. by apply (Hm n t b).
Qed.

Lemma wpe_of_wp {A} (X : PyExn -> Prop) (a : RowAct A) P m : wp a (fun r m' => match r with Ok x => P x m' | Raise e => X e end) m -> wpe X a P m.
Proof. done. Qed.

Lemma set_layer_spec q l states m : rows_ok m -> schema_ok m -> fits m l states ->
  (is_Some (seq_id_to_row m !! q) \/ free_rows m <> []) ->
  returns (set_layer_state q l states) (fun _ m' => rows_ok m' /\ same_setup m m' /\ is_Some (seq_id_to_row m' !! q) /\
    (forall n t, states !! n = Some t -> state_of m' q l n = Some (content t)) /\
    (is_Some (seq_id_to_row m !! q) -> forall l' n, l' <> l -> state_of m' q l' n = state_of m q l' n) /\
    forall q' l' n, q' <> q -> state_of m' q' l' n = state_of m q' l' n) m.
Proof.
  intros Hok Hsch Hfits Hroom. unfold set_layer_state. do 2 wpe_step. destruct Hfits as (bufs0 & Hl0 & Hwf & Hk & Hm0) eqn:Hf.
  clear Hf. assert (l ∈ keys (layer_buffers m)) as Hlk by (apply dict_elem_of_keys; eauto).
  apply wpe_bind, wpe_lift; [|by rewrite (sk_linear m Hsch l Hlk)]. intros lin. rewrite (sk_linear m Hsch l Hlk). intros [= <-].
  apply wpe_bind, wpe_guard; [done|intros _]. destruct (sk_names m Hsch l bufs0 Hl0) as [_ Hnames].
  apply wpe_bind, wpe_guard; [|intros _].
  { intros Hbad. apply orb_true_iff in Hbad as [Hbad|Hbad]; apply existsb_exists in Hbad as (n & Hin & Hn); apply list_elem_of_In in Hin.
    - apply negb_true_iff, dict_has_key_false, dict_not_elem_of_keys in Hn. apply Hn, Hk, Hnames, Hin.
    - apply negb_true_iff, bool_decide_eq_false in Hn. apply Hn, Hnames, Hk, Hin. }
  apply wpe_bind, wpe_of_wp. eapply wp_mono; [by apply allocate_spec|]. cbv beta.
  intros [row|e] m1 (Hok1 & Hs1 & _ & Hx); [|destruct Hx as (_ & Hn & Hf); destruct Hroom as [Hr|Hr]; [rewrite Hn in Hr; by destruct Hr|done]].
  destruct Hx as (Hrow & Hsame & Hoth). apply (rk_owner m1 Hok1) in Hrow as Hrow0. destruct Hrow0 as [Hrow0 Hown].
  assert (Z.to_nat row < Z.to_nat (row_capacity m1))%nat as Hlt.
  { rewrite <- (rk_length m1 Hok1). by eapply lookup_lt_Some. }
  eapply wpe_mono; [apply (wpe_for_each _ _ _ (fun rest m' => rows_ok m' /\ same_setup m1 m' /\
    seq_id_to_row m' = seq_id_to_row m1 /\ exists dn, items states = dn ++ rest /\
    (forall n t, (n, t) ∈ dn -> cell m' row l n = Some (content t)) /\
    forall row' l' n, 0 <= row' -> row' <> row \/ l' <> l -> cell m' row' l' n = cell m1 row' l' n))|].
  - split_and!; [done|apply same_setup_refl|done|]. exists []. split_and!; [done| |done]. by intros n t ?%elem_of_nil.
  - intros [n t] rest m2 (Hok2 & Hs2 & Hq2 & dn & Hitems & Hdn & Hcells). cbn [fst snd].
    assert (fits m2 l states) as (bufs & Hl & _ & Hk2 & Hmeta).
    { apply (fits_pool m); [by exists bufs0|]. eapply same_pool_trans; [apply Hs1|apply Hs2]. }
    assert (states !! n = Some t) as Ht.
    { apply dict_elem_of_items; [done|]. rewrite Hitems. set_solver. }
    assert (is_Some (bufs !! n)) as [b Hb] by (apply dict_elem_of_keys, Hk2, dict_elem_of_keys; eauto).
    destruct (Hmeta n t b Ht Hb) as (M1 & M2 & M3).
    assert (length (rows b) = Z.to_nat (row_capacity m2 + 1)) as Hlen.
    { apply (rk_buffers m2 Hok2 l n b). unfold buffer_at. by rewrite Hl. }
    assert (row_capacity m2 = row_capacity m1) as Hcap by apply Hs2.
    apply wpe_bind. eapply (wpe_mono _ _ (fun _ m' => m' = m2)).
    { unfold ensure_buffer. do 2 wpe_step. rewrite Hl, Hb. rewrite M1, M2, M3. rewrite !bool_decide_eq_true_2 by done. cbn.
      repeat (apply wpe_bind, wpe_guard; [done|intros _]). by wpe_step. }
    cbv beta. intros _ m2' ->. apply wpe_of_wp. unfold wp.
    pose proof (keeps_write l n row (content t) m2 Hok2) as Hkw. unfold wp in Hkw.
    pose proof (write_cell m2 l n row (content t) bufs b Hl Hb ltac:(lia) Hrow0) as Hw. unfold wp in Hw.
    destruct (write_buffer l n row (content t) m2) as [r m3]. cbn [fst snd] in *.
    destruct Hw as (-> & Hc & Hq3 & _ & Hoc), Hkw as [Hok3 Hs3].
    split_and!; [done|by eapply same_setup_trans|congruence|]. exists (dn ++ [(n, t)]). split_and!.
    + by rewrite Hitems, <- app_assoc.
    + intros n' t' [Hin|Hin]%elem_of_app; [|apply list_elem_of_singleton in Hin as [= -> ->]; done].
      rewrite Hoc; [by apply Hdn|done|]. right. right. intros ->.
      unfold dict_wf, keys in Hwf. rewrite Hitems, fmap_app in Hwf. apply NoDup_app in Hwf as (_ & Hdis & _).
      apply (Hdis n); [by apply (list_elem_of_fmap_2 fst _ (n, t'))|by left].
    + intros row' l' n' Hr' Hne. rewrite Hoc; [by apply Hcells|done|]. destruct Hne; [by left|by right; left].
  - cbv beta. intros _ m2 (Hok2 & Hs2 & Hq2 & dn & Hitems & Hdn & Hcells). rewrite app_nil_r in Hitems. subst dn.
    split_and!; [done|by eapply same_setup_trans|rewrite Hq2; eauto| | |].
    + intros n t Ht. unfold state_of. rewrite Hq2, Hrow. cbn. by apply Hdn, dict_elem_of_items_1.
    + intros Hr l' n Hne. rewrite <- (Hsame Hr). unfold state_of. rewrite Hq2, Hrow. cbn. apply Hcells; [done|by right].
    + intros q' l' n Hne. destruct (Hoth q' Hne) as [Hq' Hst]. rewrite <- Hst. unfold state_of. rewrite Hq2.
      destruct (seq_id_to_row m1 !! q') as [r|] eqn:Hr; [|done]. cbn.
      apply (rk_owner m1 Hok1) in Hr as [Hr0 Hr1]. apply Hcells; [done|]. left. intros ->. congruence.
Qed.

(** ** Attaching a snapshot *)

(** The layer states a payload holds fit the pool, each layer once. *)
Definition payload_fits m (layers : PyDict Z (PyDict string TensorT)) : Prop :=
  dict_wf layers /\ forall l st, layers !! l = Some st -> fits m l st.

Lemma attach_layers_spec q m (layers : PyDict Z (PyDict string TensorT)) : rows_ok m -> schema_ok m ->
  payload_fits m layers -> (is_Some (seq_id_to_row m !! q) \/ free_rows m <> []) ->
  returns (for_each (items layers) (fun kv => set_layer_state q kv.1 kv.2)) (fun _ m' => same_setup m m' /\
    (forall l st n t, layers !! l = Some st -> st !! n = Some t -> state_of m' q l n = Some (content t)) /\
    forall q' l n, q' <> q -> state_of m' q' l n = state_of m q' l n) m.
Proof.
  intros Hok Hsch [Hwf Hfits] Hroom.
  eapply wpe_mono; [apply (wpe_for_each _ _ _ (fun rest m' => rows_ok m' /\ same_setup m m' /\ exists dn,
    items layers = dn ++ rest /\ (is_Some (seq_id_to_row m' !! q) \/ dn = [] /\ free_rows m' <> []) /\
    (forall l st n t, (l, st) ∈ dn -> st !! n = Some t -> state_of m' q l n = Some (content t)) /\
    forall q' l n, q' <> q -> state_of m' q' l n = state_of m q' l n))|].
  - split_and!; [done|apply same_setup_refl|]. exists []. split_and!; [done|naive_solver| |done]. by intros l st n t ?%elem_of_nil.
  - intros [l st] rest m1 (Hok1 & Hs1 & dn & Hitems & Hroom1 & Hdn & Hoth). cbn [fst snd].
    assert (layers !! l = Some st) as Hl by (apply dict_elem_of_items; [done|]; rewrite Hitems; set_solver).
    eapply wpe_mono; [apply set_layer_spec|].
    + done.
    + by apply (schema_ok_setup m).
    + apply (fits_pool m); [by apply Hfits|apply Hs1].
    + naive_solver.
    + cbv beta. intros _ m2 (Hok2 & Hs2 & Hres & Hst & Hkeep & Hoth2).
      split_and!; [done|by eapply same_setup_trans|]. exists (dn ++ [(l, st)]). split_and!.
      * by rewrite Hitems, <- app_assoc.
      * by left.
      * intros l' st' n t [Hin|Hin]%elem_of_app Ht.
        -- rewrite Hkeep; [by eapply Hdn| |].
           ++ destruct Hroom1 as [?|[-> _]]; [done|by apply elem_of_nil in Hin].
           ++ intros ->. unfold dict_wf, keys in Hwf. rewrite Hitems, fmap_app in Hwf. apply NoDup_app in Hwf as (_ & Hdis & _).
              apply (Hdis l); [by apply (list_elem_of_fmap_2 fst _ (l, st'))|by left].
        -- apply list_elem_of_singleton in Hin as [= -> ->]. by apply Hst.
      * intros q' l' n Hne. rewrite Hoth2 by done. by apply Hoth.
  - cbv beta. intros _ m' (_ & Hs & dn & Hitems & _ & Hdn & Hoth). rewrite app_nil_r in Hitems. subst dn.
    split_and!; [done| |done]. intros l st n t Hl. apply Hdn. by apply dict_elem_of_items_1.
Qed.

(** ** Taking a snapshot *)

Lemma layer_row_fits m row l bufs : rows_ok m -> 0 <= row < row_capacity m -> layer_buffers m !! l = Some bufs ->
  dict_wf bufs -> fits m l (layer_row row bufs).
Proof.
  intros Hok Hrow Hl Hwf. assert (keys (layer_row row bufs) = keys bufs) as Hk.
  { apply layer_row_keys. intros n b Hin. unfold read_row. apply fmap_is_Some, lookup_lt_is_Some.
    rewrite (rk_buffers m Hok l n b); [lia|]. unfold buffer_at. rewrite Hl. cbn. by apply dict_elem_of_items. }
  exists bufs. split_and!; [done|unfold dict_wf; by rewrite Hk|by rewrite Hk|].
  intros n t b Ht Hb. rewrite layer_row_at in Ht by done. rewrite Hb in Ht. cbn in Ht. unfold read_row in Ht.
  destruct (rows b !! Z.to_nat row); [|done]. cbn in Ht. by injection Ht as <-.
Qed.

Lemma owned_row m q row : rows_ok m -> seq_id_to_row m !! q = Some row -> 0 <= row < row_capacity m.
Proof.
  intros Hok Hq. apply (rk_owner m Hok) in Hq as [? Hq]. apply lookup_lt_Some in Hq. rewrite (rk_length m Hok) in Hq. lia.
Qed.

Lemma map_snd_lookup {K V W} `{EqDecision K} (g : V -> W) (d : PyDict K V) k :
  (mkDict ((fun kv => (kv.1, g kv.2)) <$> items d) : PyDict K W) !! k = g <$> d !! k.
Proof.
  destruct d as [l]. unfold lookup, dict_lookup. cbn. induction l as [|[k' v] l IH]; cbn; [done|]. by case_decide.
Qed.

(** What a snapshot holds. *)
Lemma build_spec s n m : rows_ok m -> schema_ok m ->
  wpo (build_prefix_recurrent_payload s n) (fun p m' => m' = m /\ is_Some (seq_id_to_row m !! seq_id s) /\
    let bs := rc_prefix_cache_block_size (rm_config m) in
    payload_token_count p <=? 0 = false /\ (0 <? bs) && negb (payload_token_count p mod bs =? 0) = false /\
    payload_fits m (layer_states p) /\
    forall l name, (st ← layer_states p !! l; content <$> st !! name) = state_of m (seq_id s) l name) m.
Proof.
  intros Hok Hsch. unfold build_prefix_recurrent_payload. do 2 wpo_step.
  do 2 (apply wpo_bind, wpo_guard; intros ?). destruct (seq_id_to_row m !! seq_id s) as [row|] eqn:Hrow; [|by wpo_step].
  apply wpo_bind, wpo_lift. intros layers E. rewrite snapshot_layers_all in E by (apply (sk_linear m Hsch)).
  injection E as <-. wpo_step. apply owned_row in Hrow as Hr; [|done]. split; [done|]. split; [done|]. cbn zeta. split; [done|]. split; [done|]. cbn [layer_states]. split.
  - split.
    + unfold dict_wf, keys. cbn. rewrite <- list_fmap_compose. apply (sk_layers m Hsch).
    + intros l st. rewrite map_snd_lookup. destruct (layer_buffers m !! l) as [bufs|] eqn:Hl; [|done]. cbn. intros [= <-].
      by apply layer_row_fits, (sk_names m Hsch l bufs).
  - intros l name. rewrite map_snd_lookup. unfold state_of. rewrite Hrow. cbn. unfold cell, buffer_at.
    destruct (layer_buffers m !! l) as [bufs|] eqn:Hl; cbn; [|done].
    rewrite layer_row_at by (by apply (sk_names m Hsch l bufs)). destruct (bufs !! name) as [b|]; cbn; [|done].
    unfold read_row. by destruct (rows b !! Z.to_nat row).
Qed.

(** A layer and name the pool does not have hold nothing. *)
Lemma state_of_pool m m' q q' l n : rows_ok m -> same_pool m m' -> is_Some (seq_id_to_row m !! q) -> state_of m q l n = None -> state_of m' q' l n = None.
Proof.
  intros Hok (_ & _ & Hm) [row Hrow] Hnone. unfold state_of, cell in *. specialize (Hm l n).
  destruct (buffer_at m' l n) as [b'|]; [|by destruct (seq_id_to_row m' !! q')].
  destruct (buffer_at m l n) as [b|] eqn:Hb; [|done]. exfalso. rewrite Hrow in Hnone. cbn in Hnone.
  apply lookup_ge_None in Hnone. rewrite (rk_buffers m Hok l n b Hb) in Hnone. apply owned_row in Hrow; [lia|done].
Qed.


Lemma run_returns {A} (a : RowAct A) P m : returns a P m -> exists x m', a m = (Ok x, m') /\ P x m'.
Proof. unfold wpe, wp. destruct (a m) as [[x|e] m'']; cbn; [|done]. eauto. Qed.

(** Free and owned rows add up. *)
Lemma rows_counted m : rows_ok m ->
  Z.of_nat (length (free_rows m)) + Z.of_nat (size (seq_id_to_row m)) = row_capacity m.
Proof.
  intros Hok. set (owned := (map_to_list (seq_id_to_row m)).*2).
  assert (forall row, row ∈ owned <-> exists q, seq_id_to_row m !! q = Some row) as Hin.
  { intros row. unfold owned. rewrite list_elem_of_fmap. split.
    - intros ([q r] & -> & Hq). exists q. by apply elem_of_map_to_list.
    - intros (q & Hq). exists (q, row). split; [done|]. by apply elem_of_map_to_list. }
  assert (NoDup owned) as Hnd.
  { unfold owned. apply NoDup_fmap_2_strong; [|apply NoDup_map_to_list]. intros [q1 r] [q2 r2] H1 H2 E. cbn in E. subst r2.
    apply elem_of_map_to_list in H1, H2. f_equal. apply (rk_owner m Hok) in H1 as [_ H1], H2 as [_ H2]. congruence. }
  assert (free_rows m ++ owned ≡ₚ seqZ 0 (row_capacity m)) as Hp.
  { apply NoDup_Permutation; [|apply NoDup_seqZ|].
    - apply NoDup_app. split_and!; [apply (rk_free_once m Hok)| |done]. intros row Hf Ho. apply Hin in Ho as [q Hq].
      apply (rk_free m Hok) in Hf as [_ Hf]. apply (rk_owner m Hok) in Hq as [_ Hq]. congruence.
    - intros row. rewrite elem_of_app, elem_of_seqZ, Hin, (rk_free m Hok). split.
      + intros [[? Hf]|[q Hq]]; [|apply owned_row in Hq; [lia|done]]. apply lookup_lt_Some in Hf.
        rewrite (rk_length m Hok) in Hf. lia.
      + intros Hr. destruct (lookup_lt_is_Some_2 (row_to_seq_id m) (Z.to_nat row)) as [[q|] Ho].
        * rewrite (rk_length m Hok). lia.
        * right. exists q. apply (rk_owner m Hok). split; [lia|done].
        * left. split; [lia|done]. }
  apply Permutation_length in Hp. rewrite length_app, length_seqZ in Hp. unfold owned in Hp.
  rewrite length_fmap, length_map_to_list in Hp. pose proof (rk_positive m Hok). lia.
Qed.
(** ** Claims *)

(** C27: after any sequence of operations on a new manager, refused ones
    included, every row is either free, once, or owned by exactly one sequence;
    the pool keeps its geometry; and freeing any sequence always succeeds: the
    ownership check of [free_seq] never fires and the row goes back to the free
    list. *)
Theorem rows_partitioned (c : RecurrentConfig) (d : Device) (spec : RecurrentStateSpec) m (ops : list RowOp) q :
  new_manager c d spec = Ok m ->
  let m' := run_row_ops ops m in
  rows_ok m' /\ same_setup m m' /\
  (Z.of_nat (length (free_rows m')) + Z.of_nat (size (seq_id_to_row m')) = row_capacity m') /\
  (free_seq q m').1 = Ok tt /\ seq_id_to_row (free_seq q m').2 !! q = None /\
  forall row, seq_id_to_row m' !! q = Some row -> row ∈ free_rows (free_seq q m').2.
Proof.
  intros Hnew m'. destruct (run_rows_ok ops m) as [Hok Hs]; [by eapply new_manager_ok|]. fold m' in Hok, Hs.
  split; [done|]. split; [done|]. split; [by apply rows_counted|].
  pose proof (free_seq_spec q m' Hok) as Hf. unfold wp in Hf. destruct Hf as (H1 & _ & _ & H2 & _ & H3 & _).
  split_and!; [done|done|]. intros row Hrow. rewrite (H3 row Hrow). set_solver.
Qed.

(** C21: a prefix snapshot taken of a sequence and attached later, whatever
    happened in between (the sequence may have been freed and its row reused),
    restores every recurrent tensor of every layer as it was when the snapshot
    was taken, provided the new sequence has a row or one is free; the state of
    every other sequence is untouched. *)
Theorem snapshot_restores_state (c : RecurrentConfig) (d : Device) (spec : RecurrentStateSpec) m0
    (before after : list RowOp) (s1 s2 : Sequence) n p :
  layout_ok c -> NoDup (state_names spec) -> new_manager c d spec = Ok m0 ->
  let m := run_row_ops before m0 in
  let m1 := run_row_ops after m in
  (build_prefix_recurrent_payload s1 n m).1 = Ok p ->
  is_Some (seq_id_to_row m1 !! seq_id s2) \/ free_rows m1 <> [] ->
  exists m2, attach_prefix_recurrent_payload s2 (Some p) None m1 = (Ok tt, m2) /\
    (forall l name, state_of m2 (seq_id s2) l name = state_of m (seq_id s1) l name) /\
    forall q l name, q <> seq_id s2 -> state_of m2 q l name = state_of m1 q l name.
Proof.
  intros Hlay Hnames Hnew m m1 Hbuild Hroom.
  destruct (run_rows_ok before m0) as [Hok Hs]; [by eapply new_manager_ok|]. fold m in Hok, Hs.
  destruct (run_rows_ok after m Hok) as [Hok1 Hs1]. fold m1 in Hok1, Hs1.
  assert (schema_ok m) as Hsch by (eapply schema_ok_setup; [by eapply new_manager_schema|done]).
  pose proof (build_spec s1 n m Hok Hsch) as Hb. unfold wpo, wp in Hb. rewrite Hbuild in Hb.
  destruct Hb as (_ & Hres & Hn & Hbs & [Hwf Hfits] & Hst).
  pose proof (attach_layers_spec (seq_id s2) m1 (layer_states p) Hok1 (schema_ok_setup m m1 Hsch Hs1)) as Ha.
  destruct (run_returns _ _ _ (Ha ltac:(split; [done|]; intros l st Hl; eapply fits_pool; [by apply Hfits|apply Hs1]) Hroom))
    as ([] & m2 & E & Hs2 & Hdone & Hoth).
  exists m2. split.
  - unfold attach_prefix_recurrent_payload, read, mbind, Act_bind. rewrite Hn. cbn [guard_not].
    destruct Hs1 as (-> & _). rewrite Hbs. exact E.
  - split; [|intros; by apply Hoth]. intros l name. rewrite <- Hst.
    destruct (layer_states p !! l ≫= fun st => content <$> st !! name) as [x|] eqn:Hx.
    + destruct (layer_states p !! l) as [st|] eqn:Hl; [|done]. cbn in Hx. destruct (st !! name) as [t|] eqn:Ht; [|done].
      injection Hx as <-. by apply (Hdone l st).
    + apply (state_of_pool m m2 (seq_id s1)); [done| |done|by rewrite <- Hst].
      eapply same_pool_trans; [apply Hs1|apply Hs2].
Qed.
End recurrent.

(** ** Concrete runs

    One element type, one device, contents as numbers. *)

#[local] Instance one_device : TorchTypes unit unit Z unit :=
  {| element_size := fun _ => 4; zeros := fun _ => 0; is_cpu := fun _ => true |}.

Definition sample_config : RecurrentConfig := mkRecurrentConfig 2 None 4 [0; 2] [None; Some 0; None].
Definition sample_spec : RecurrentStateSpec := mkStateSpec "gdn" [mkTensorSpec "conv_state" [2; 3] tt; mkTensorSpec "ssm" [4] tt].
Definition sample_seq (id : Z) : Sequence := new_sequence id [11; 12; 13; 14] default_sampling.
Definition sample_states (x : Z) : PyDict string (@Tensor unit unit Z) :=
  mkDict [("conv_state"%string, mkTensor [2; 3] tt tt x); ("ssm"%string, mkTensor [4] tt tt (x + 1))].
(** Sequence 7 runs and is snapshotted, then its row is freed and reused. *)
Definition sample_before : list (@RowOp unit unit Z unit) :=
  [RPrepare [sample_seq 7; sample_seq 8]; RSet 7 0 (sample_states 70); RSet 7 2 (sample_states 72); RSet 8 0 (sample_states 80)].
Definition sample_after : list (@RowOp unit unit Z unit) := [RFree 7; RSet 8 2 (sample_states 90)].
Definition sample_manager : @RecurrentStateManager unit unit Z unit :=
  match new_manager sample_config tt sample_spec with Ok m => m | Raise _ => mkRecurrent sample_config sample_spec tt 0 0 0 ∅ [] [] ∅ ∅ ∅ end.
Definition sample_payload : @RecurrentPrefixPayload unit unit Z :=
  match (build_prefix_recurrent_payload (sample_seq 7) 4 (run_row_ops sample_before sample_manager)).1 with
  | Ok p => p | Raise _ => mkPayload 0 ∅ end.

Lemma sample_new : new_manager sample_config tt sample_spec = Ok sample_manager.
Proof. vm_compute. reflexivity. Qed.
Lemma sample_id id : seq_id (sample_seq id) = id.
Proof. done. Qed.
Lemma sample_layout : layout_ok sample_config.
Proof.
  split; [apply (bool_decide_unpack _); by vm_compute|]. intros l Hl. cbn in Hl.
  repeat (apply elem_of_cons in Hl as [->|Hl]; [done|]). by apply elem_of_nil in Hl.
Qed.

Lemma rows_partitioned_witness :
  (free_seq 7 (run_row_ops sample_before sample_manager)).1 = Ok tt /\
  free_rows (run_row_ops sample_before sample_manager) = [] /\
  free_rows (free_seq 7 (run_row_ops sample_before sample_manager)).2 = [0].
Proof.
  split; [|split; vm_compute; reflexivity].
  apply (rows_partitioned sample_config tt sample_spec sample_manager sample_before 7 sample_new).
Defined.

Lemma snapshot_restores_state_witness :
  exists m2, attach_prefix_recurrent_payload (sample_seq 9) (Some sample_payload) None
      (run_row_ops sample_after (run_row_ops sample_before sample_manager)) = (Ok tt, m2) /\
    state_of m2 9 2 "ssm" = Some 73 /\ state_of m2 8 2 "ssm" = Some 91.
Proof.
  destruct (snapshot_restores_state sample_config tt sample_spec sample_manager sample_before sample_after (sample_seq 7) (sample_seq 9)
    4 sample_payload sample_layout) as (m2 & E & H1 & H2).
  - apply (bool_decide_unpack _). vm_compute. exact I.
  - exact sample_new.
  - vm_compute. reflexivity.
  - right. vm_compute. discriminate.
  - exists m2. split; [exact E|]. split; [rewrite <- (sample_id 9), (H1 2 "ssm"%string); vm_compute; reflexivity|].
    rewrite (H2 8 2 "ssm"%string); [vm_compute; reflexivity|]. cbn. lia.
Defined.
