(* ===== verification/RecurrentBytes.v ===== *)
(** * Recurrent state rows: the size of snapshots

    A snapshot of a resident sequence has exactly the bytes the manager declares
    for one, [prefix_recurrent_snapshot_nbytes], whatever happened before: the
    geometry of the pool never changes. *)

From stdpp Require Import base gmap list strings list_numbers.
From Stdlib Require Import ZArith Lia.
From S2P Require Import Prelude PyDict SamplingParams Sequence RecurrentRows RecurrentFacts RecurrentGuarantees.

Section dict.
Context {K V : Type} `{EqDecision K}.
Implicit Types (d : PyDict K V).

Lemma fmap_items {A} d (f : V -> A) (g : K -> A) : dict_wf d -> (forall k v, d !! k = Some v -> g k = f v) -> f <$> values d = g <$> keys d.
Proof.
  intros Hwf Hg. unfold values, keys. rewrite <- !list_fmap_compose. apply list_fmap_ext. intros i [k v] Hi. cbn. symmetry.
  apply Hg, dict_elem_of_items; [done|]. by eapply list_elem_of_lookup_2.
Qed.
Lemma foldl_insert_keys {X} (xs : list X) (key : X -> K) (val : X -> V) d : NoDup (keys d ++ (key <$> xs)) ->
  keys (foldl (fun d x => <[key x := val x]> d) d xs) = keys d ++ (key <$> xs) /\
  (forall k, k ∈ keys d -> foldl (fun d x => <[key x := val x]> d) d xs !! k = d !! k) /\
  (forall x, x ∈ xs -> foldl (fun d x => <[key x := val x]> d) d xs !! key x = Some (val x)).
Proof.
  revert d. induction xs as [|x xs IH]; intros d Hnd; cbn [foldl fmap list_fmap].
  { rewrite app_nil_r. split_and!; [done|done|]. by intros x ?%elem_of_nil. }
  pose proof Hnd as Hnd'. cbn [fmap list_fmap] in Hnd'. apply NoDup_app in Hnd' as (_ & Hdis & [Hx _]%NoDup_cons).
  assert (key x ∉ keys d) as Hk by (intros Hin; apply (Hdis _ Hin); by left).
  assert (keys (<[key x := val x]> d) = keys d ++ [key x]) as Ek by (by apply dict_keys_insert_None, dict_not_elem_of_keys).
  destruct (IH (<[key x := val x]> d)) as (I1 & I2 & I3); [rewrite Ek, <- app_assoc; exact Hnd|]. split_and!.
  - by rewrite I1, Ek, <- app_assoc.
  - intros k Hin. rewrite I2 by (rewrite Ek; apply elem_of_app; by left). rewrite dict_lookup_insert_ne; [done|]. by intros <-.
  - intros y [->|Hy]%elem_of_cons; [|by apply I3]. rewrite I2 by (rewrite Ek; apply elem_of_app; right; by left). apply dict_lookup_insert_eq.
Qed.
End dict.

Lemma sumZ_const {A} (c : Z) (l : list A) : sumZ ((fun _ => c) <$> l) = c * Z.of_nat (length l).
Proof. induction l as [|x l IH]; [cbn; lia|]. change (c + sumZ ((fun _ => c) <$> l) = c * Z.of_nat (S (length l))). rewrite IH. lia. Qed.

Section bytes.
Context {DType Device Content Event : Type} `{TorchTypes DType Device Content Event}.
#[local] Abbreviation Manager := (@RecurrentStateManager DType Device Content Event).
#[local] Abbreviation RowAct := (Act PyExn (@RecurrentStateManager DType Device Content Event)).
#[local] Abbreviation BufferT := (@Buffer DType Device Content).
#[local] Abbreviation TensorT := (@Tensor DType Device Content).
Implicit Types (m : Manager) (b : BufferT) (l row : Z) (name : string).

(** ** The bytes of a row *)

Definition buffer_nbytes b : Z := product (buf_shape b) * element_size (buf_dtype b).
Definition row_nbytes m : Z :=
  sumZ ((fun l => sumZ ((fun n => from_option buffer_nbytes 0 (buffer_at m l n)) <$> from_option keys [] (layer_buffers m !! l)))
    <$> keys (layer_buffers m)).

Lemma same_pool_nbytes m m' : same_pool m m' -> row_nbytes m' = row_nbytes m.
Proof.
  intros (K1 & K2 & K3). unfold row_nbytes. rewrite K1. f_equal. apply list_fmap_ext. intros i l _. f_equal.
  assert (from_option keys [] (layer_buffers m' !! l) = from_option keys [] (layer_buffers m !! l)) as ->.
  { specialize (K2 l). destruct (layer_buffers m' !! l), (layer_buffers m !! l); cbn in *; by simplify_eq. }
  apply list_fmap_ext. intros j n _. specialize (K3 l n). destruct (buffer_at m' l n) as [b'|], (buffer_at m l n) as [b|]; cbn in *; try done.
  unfold meta in K3. injection K3 as E1 E2 _ _. unfold buffer_nbytes. by rewrite E1, E2.
Qed.
Lemma new_manager_nbytes c d spec m : NoDup (rc_linear_attention_layers c) -> NoDup (state_names spec) -> new_manager c d spec = Ok m ->
  row_nbytes m = bytes_per_row m.
Proof.
  intros Hnd Hnames. unfold new_manager, resolve_capacity. case_match; cbn; [done|]. case_match; cbn; [done|].
  destruct (Z.leb_spec (rc_max_num_seqs_in_gpu c) 0); cbn; [done|]. intros [= <-]. unfold row_nbytes, buffer_at. cbn.
  set (f := new_buffers (rc_max_num_seqs_in_gpu c + 1) d spec : PyDict string BufferT).
  destruct (foldl_insert_keys (rc_linear_attention_layers c) id (fun _ => f) (∅ : PyDict Z (PyDict string BufferT))) as (E1 & _ & E2); [by rewrite list_fmap_id|].
  unfold id in *. rewrite E1, list_fmap_id. cbn [app keys items fmap list_fmap].
  assert (forall l, l ∈ rc_linear_attention_layers c -> sumZ ((fun n => from_option buffer_nbytes 0 (f !! n)) <$> keys f) = bytes_per_layer spec) as Hl.
  { intros l _. unfold f, new_buffers. unfold state_names in Hnames.
    destruct (foldl_insert_keys (tensor_specs spec) spec_name (new_buffer (rc_max_num_seqs_in_gpu c + 1) d) (∅ : PyDict string BufferT)) as (F1 & _ & F2); [done|].
    unfold bytes_per_layer. rewrite F1. cbn [app]. change (keys (∅ : PyDict string BufferT)) with (@nil string). cbn [app]. rewrite <- list_fmap_compose. f_equal. apply list_fmap_ext. intros i t Hi.
    cbn. rewrite (F2 t) by (by eapply list_elem_of_lookup_2). done. }
  change (keys (∅ : PyDict Z (PyDict string BufferT))) with (@nil Z). cbn [app]. unfold bytes_for_layers.
  rewrite (list_fmap_ext _ (fun _ => bytes_per_layer spec)).
  - rewrite sumZ_const. lia.
  - intros i l Hi. apply list_elem_of_lookup_2 in Hi. rewrite (E2 l Hi). cbn [from_option mbind option_bind]. by apply (Hl l).
Qed.

(** ** No operation changes it *)

Section constant.
Context (n : Z).
#[local] Abbreviation constant := (keep (fun m : Manager => bytes_per_row m = n)).
Lemma constant_modify (f : Manager -> Manager) : (forall m, bytes_per_row (f m) = bytes_per_row m) -> constant (modify f : RowAct unit).
Proof. intros Hf. apply keep_modify. intros m Hm. by rewrite Hf. Qed.
#[local] Hint Extern 4 (keep _ (modify _)) => (apply constant_modify; intros; repeat case_match; reflexivity) : keep.
Lemma constant_allocate q : constant (allocate_row q).
Proof. unfold allocate_row. keep_auto. Qed.
#[local] Hint Resolve constant_allocate : keep.
Lemma constant_set q l st : constant (set_layer_state q l st).
Proof. unfold set_layer_state, ensure_buffer, write_buffer. keep_auto. Qed.
#[local] Hint Resolve constant_set : keep.
Lemma constant_materialize c q l : constant (materialize c q l).
Proof. unfold materialize. keep_auto. Qed.
Lemma constant_prepare qs : constant (prepare_step qs).
Proof. unfold prepare_step. keep_auto. Qed.
#[local] Hint Resolve constant_materialize constant_prepare : keep.
Lemma constant_op op : constant (run_row_op op).
Proof.
  destruct op; cbn [run_row_op]; unfold prepare_decode_static, RecurrentRows.free_seq, RecurrentRows.reset_after_warmup, get_layer_state,
    get_decode_layer_state, zero_scratch, build_prefix_recurrent_payload, attach_prefix_recurrent_payload; keep_auto.
Qed.
End constant.
Lemma run_bytes ops m : bytes_per_row (run_row_ops ops m) = bytes_per_row m.
Proof.
  revert m. induction ops as [|op ops IH]; intros m; [done|]. change (bytes_per_row (run_row_ops ops (run_row_op op m).2) = bytes_per_row m). rewrite IH. exact (constant_op (bytes_per_row m) op m eq_refl).
Qed.

(** ** Snapshots *)

Lemma snapshot_nbytes q n m row : rows_ok m -> schema_ok m -> seq_id_to_row m !! seq_id q = Some row -> 0 < n ->
  let bs := rc_prefix_cache_block_size (rm_config m) in (0 < bs -> n mod bs = 0) ->
  exists p, (build_prefix_recurrent_payload q n m).1 = Ok p /\ prefix_recurrent_payload_nbytes (Some p) = row_nbytes m.
Proof.
  intros Hok Hsch Hrow Hn bs Hmod.
  exists (mkPayload n (mkDict ((fun kv => (kv.1, layer_row row kv.2)) <$> items (layer_buffers m)))). split.
  - unfold build_prefix_recurrent_payload. act_unfold. destruct (Z.leb_spec n 0); [lia|]. fold bs.
    assert ((0 <? bs) && negb (n mod bs =? 0) = false) as ->.
    { destruct (Z.ltb_spec 0 bs); [|done]. by rewrite Hmod. }
    rewrite Hrow. by rewrite snapshot_layers_all by apply (sk_linear m Hsch).
  - cbn [prefix_recurrent_payload_nbytes layer_states]. unfold row_nbytes. f_equal. unfold values at 2. cbn [items].
    change (keys (layer_buffers m)) with ((items (layer_buffers m)).*1). rewrite <- !list_fmap_compose. apply list_fmap_ext. intros i [l bufs] Hi. cbn.
    assert (layer_buffers m !! l = Some bufs) as Hl by (apply dict_elem_of_items; [apply (sk_layers m Hsch)|]; by eapply list_elem_of_lookup_2).
    rewrite Hl. cbn. f_equal. destruct (sk_names m Hsch l bufs Hl) as [Hwf _]. apply owned_row in Hrow as Hr; [|done].
    assert (forall k b, (k, b) ∈ items bufs -> exists x, rows b !! Z.to_nat row = Some x) as Hread.
    { intros k b Hin. apply dict_elem_of_items in Hin; [|done]. apply lookup_lt_is_Some_2. rewrite (rk_buffers m Hok l k b); [lia|]. unfold buffer_at. by rewrite Hl. }
    assert (forall k b, (k, b) ∈ items bufs -> buffer_at m l k = Some b) as Hat.
    { intros k b Hin. apply dict_elem_of_items in Hin; [|done]. unfold buffer_at. by rewrite Hl. }
    unfold values, layer_row, keys. cbn [items]. clear -Hread Hat. induction (items bufs) as [|[k b] its IH]; [done|].
    destruct (Hread k b ltac:(by left)) as [x Hx]. cbn. unfold read_row at 1. rewrite Hx. cbn. rewrite (Hat k b) by (by left). cbn. f_equal.
    apply IH; intros; [eapply Hread|eapply Hat]; by right.
Qed.

Lemma reached_snapshot (c : RecurrentConfig) (d : Device) (spec : RecurrentStateSpec) m0 (ops : list RowOp) (q : Sequence) n :
  layout_ok c -> NoDup (state_names spec) -> new_manager c d spec = Ok m0 ->
  is_Some (seq_id_to_row (run_row_ops ops m0) !! seq_id q) -> 0 < n -> (0 < rc_prefix_cache_block_size c -> n mod rc_prefix_cache_block_size c = 0) ->
  exists p, (build_prefix_recurrent_payload q n (run_row_ops ops m0)).1 = Ok p /\
    prefix_recurrent_payload_nbytes (Some p) = prefix_recurrent_snapshot_nbytes (run_row_ops ops m0).
Proof.
  intros Hlay Hnames Hnew [row Hrow] Hn Hmod. destruct (run_rows_ok ops m0) as [Hok Hs]; [by eapply new_manager_ok|].
  pose proof (schema_ok_setup _ _ (new_manager_schema _ _ _ _ Hlay Hnames Hnew) Hs) as Hsch. pose proof Hs as (Hcf & _ & _ & Hpool).
  assert (rm_config m0 = c) as Hc0.
  { unfold new_manager in Hnew. destruct (resolve_capacity _ _ _) as [cap|e]; [|done]. cbn in Hnew. case_match; [done|]. by injection Hnew as <-. }
  destruct (snapshot_nbytes q n (run_row_ops ops m0) row Hok Hsch Hrow Hn) as (p & Hp & Hb); [by rewrite Hcf, Hc0|].
  exists p. split; [done|]. unfold prefix_recurrent_snapshot_nbytes. rewrite Hb, run_bytes, (same_pool_nbytes m0) by done.
  by apply (new_manager_nbytes c d spec); [apply Hlay|..].
Qed.

(** C32: in every reachable manager a resident sequence can be snapshot at every
    block boundary, and the snapshot has exactly the bytes the manager declares
    for one. *)
Theorem snapshot_has_declared_size (c : RecurrentConfig) (d : Device) (spec : RecurrentStateSpec) m0 (ops : list RowOp) (q : Sequence) n :
  layout_ok c -> NoDup (state_names spec) -> new_manager c d spec = Ok m0 ->
  is_Some (seq_id_to_row (run_row_ops ops m0) !! seq_id q) -> 0 < n -> (0 < rc_prefix_cache_block_size c -> n mod rc_prefix_cache_block_size c = 0) ->
  exists p, (build_prefix_recurrent_payload q n (run_row_ops ops m0)).1 = Ok p /\
    prefix_recurrent_payload_nbytes (Some p) = prefix_recurrent_snapshot_nbytes (run_row_ops ops m0).
Proof. intros Hlay Hnames Hnew. by apply (reached_snapshot c d spec). Qed.
End bytes.

#[local] Existing Instance one_device.
(** A snapshot of the sample pool: two layers of ten numbers of four bytes. *)
Lemma snapshot_has_declared_size_witness :
  exists p, (build_prefix_recurrent_payload (sample_seq 7) 4 (run_row_ops sample_before sample_manager)).1 = Ok p /\
    prefix_recurrent_payload_nbytes (Some p) = 80.
Proof.
  destruct (snapshot_has_declared_size sample_config tt sample_spec sample_manager sample_before (sample_seq 7) 4 sample_layout) as (p & E & B).
  - apply (bool_decide_unpack _). vm_compute. exact I.
  - exact sample_new.
  - vm_compute. by eexists.
  - done.
  - done.
  - exists p. split; [exact E|]. rewrite B. vm_compute. reflexivity.
Defined.
