(* ===== verification/PrefixCoordinator.v ===== *)
(** * The prefix cache coordinator

    [engine/prefix_cache_coordinator.py], [PrefixCacheCoordinator]: the prefix
    index of a runtime whose blocks carry keys and values and a snapshot of the
    recurrent state.  Full blocks of a request are reserved against the limits
    on blocks and on snapshot bytes, wait until the step is committed, and then
    enter the index held by the request.

    Keys and values belong to a cache manager, which is the class [PrefixKV];
    the snapshots are those of [RecurrentRows].  The coordinator is one without
    an offload controller: there is nothing to poll, transfer or write through,
    and every block is on the device. *)

From stdpp Require Import base gmap list strings.
From Stdlib Require Import ZArith Lia.
From S2P Require Import Prelude PyDict PyBytes Sha256 RoutingMembership RadixTree RadixForest PrefixHash.
From S2P Require Import PrefixIndex PrefixFreeable SamplingParams Sequence PrefixLookup RecurrentRows.

#[local] Abbreviation Index := (RadixPrefixIndex RadixTreeBackend).

(** The methods of a cache manager that own the keys and values of blocks. *)
Class PrefixKV (M K : Type) := {
  build_prefix_kv_payload : Sequence -> Z -> Z -> Act PyExn M K;
  prefix_kv_payload_nbytes : K -> Act PyExn M Z;
  validate_prefix_kv_attach : Sequence -> Act PyExn M bool;
  attach_prefix_kv_payload : Sequence -> K -> Act PyExn M unit;
  rollback_prefix_kv_attach : Sequence -> list K -> bool -> Act PyExn M unit;
  mark_materialized_prefix_kv_payload : Sequence -> K -> Act PyExn M unit;
  rollback_materialized_prefix_kv_payload : Sequence -> K -> Act PyExn M unit;
  free_prefix_kv_payload : K -> Act PyExn M unit;
  synchronize_prefix_cache_delete_plan : DeleteResult -> Act PyExn M unit;
}.

(** [l.remove(x)] *)
Fixpoint remove_first (x : nat) (l : list nat) : list nat :=
  match l with [] => [] | y :: l' => if Nat.eqb y x then l' else y :: remove_first x l' end.

(** The fields of the configuration that are read; the fingerprint is the hash
    of the others. *)
Record CoordinatorConfig := mkCoordinatorConfig {
  cc_enable_prefix_caching : bool;
  cc_block_size : Z;
  cc_recurrent_capacity_bytes : Z;
  cc_max_blocks : option Z;
  cc_fingerprint : bytes;
  cc_sparse_method : string;
}.

Record MixedPrefixRuntimeState := mkMixedState {
  state_parent_block_id : option bytes;
  next_logical_block_idx : Z;
  pending_tokens : list Z;
}.
#[export] Instance eta_mixed_state : Eta MixedPrefixRuntimeState := fun r =>
  mkMixedState (state_parent_block_id r) (next_logical_block_idx r) (pending_tokens r).

Section coordinator.
Context {DType Device Content Event : Type} `{TorchTypes DType Device Content Event}.
Context {M K : Type} `{PrefixKV M K} `{Digest}.
#[local] Abbreviation Rows := (@RecurrentStateManager DType Device Content Event).
#[local] Abbreviation Snapshot := (@RecurrentPrefixPayload DType Device Content).

Record MixedPrefixBlockPayload := mkMixedPayload {
  kv_payload : K;
  recurrent_payload : Snapshot;
  token_count : Z;
  accounting_bytes : Z;
  recurrent_bytes : Z;
}.
Record PendingMixedPrefixBlock := mkPendingMixed {
  pending_block_id : bytes;
  pending_parent_id : option bytes;
  pending_logical_idx : Z;
  pending_token_ids : list Z;
  pending_payload : MixedPrefixBlockPayload;
}.

(** The payload objects of the blocks of the index live in [payloads]. *)
Record PrefixCacheCoordinator := mkCoordinator {
  co_config : CoordinatorConfig;
  prefix_cache : option (CachedIndex RadixTreeBackend);
  payloads : gmap nat MixedPrefixBlockPayload;
  seq_id_to_prefix_blocks : gmap Z (list ObjRef);
  seq_id_to_materialized_blocks : gmap Z (list ObjRef);
  runtime_states : gmap Z MixedPrefixRuntimeState;
  pending_blocks : gmap Z (list PendingMixedPrefixBlock);
  pending_duplicate_refs : gmap Z (list bytes);
  pending_block_ids : gset bytes;
  pending_recurrent_bytes : Z;
  capacity_limited_seq_ids : gset Z;
  skipped_capacity_blocks : Z;
  cache_manager : M;
  recurrent_state_manager : Rows;
}.
#[export] Instance eta_coordinator : Eta PrefixCacheCoordinator := fun r =>
  mkCoordinator (co_config r) (prefix_cache r) (payloads r) (seq_id_to_prefix_blocks r) (seq_id_to_materialized_blocks r)
    (runtime_states r) (pending_blocks r) (pending_duplicate_refs r) (pending_block_ids r) (pending_recurrent_bytes r)
    (capacity_limited_seq_ids r) (skipped_capacity_blocks r) (cache_manager r) (recurrent_state_manager r).
#[local] Abbreviation CoAct := (Act PyExn PrefixCacheCoordinator).
Implicit Types (s : PrefixCacheCoordinator) (q : Sequence) (sid : Z) (o : ObjRef) (p : PendingMixedPrefixBlock).

Definition co_block_size s : Z := cc_block_size (co_config s).
Definition max_recurrent_bytes s : Z := cc_recurrent_capacity_bytes (co_config s).

(** [RadixPrefixIndex(...)] with empty lookup caches. *)
Definition co_new_index (cf : CoordinatorConfig) : exc (CachedIndex RadixTreeBackend) :=
  ix ← new_index (cc_block_size cf) (cc_fingerprint cf) (cc_max_blocks cf);
  Ok (mkCachedIndex ix ∅ ∅).
(** [__init__] *)
Definition new_coordinator (cf : CoordinatorConfig) (m : M) (r : Rows) : exc PrefixCacheCoordinator :=
  c ← (if cc_enable_prefix_caching cf then c ← co_new_index cf; Ok (Some c) else Ok None);
  Ok (mkCoordinator cf c ∅ ∅ ∅ ∅ ∅ ∅ ∅ 0 ∅ 0 m r).

(** ** Access *)

Definition on_cached {A} (m : Act PyExn (CachedIndex RadixTreeBackend) A) : CoAct A := fun s =>
  match prefix_cache s with
  | None => (Raise (AttributeError "prefix_cache"), s)
  | Some c => let '(r, c') := m c in (r, s <| prefix_cache := Some c' |>)
  end.
Definition on_prefix {A} (m : Act PyExn Index A) : CoAct A := on_cached (on_index m).
Definition on_kv {A} (m : Act PyExn M A) : CoAct A := fun s =>
  let '(r, x) := m (cache_manager s) in (r, s <| cache_manager := x |>).
Definition on_rows {A} (m : Act PyExn Rows A) : CoAct A := fun s =>
  let '(r, x) := m (recurrent_state_manager s) in (r, s <| recurrent_state_manager := x |>).

Definition require_prefix_cache : CoAct unit :=
  s ← read id;
  guard_not (bool_decide (prefix_cache s = None)) (RuntimeError "prefix cache is not enabled for this runtime.").

(** [RecurrentStateManager.free_prefix_recurrent_payload] *)
Definition free_prefix_recurrent_payload (payload : Snapshot) : CoAct unit := mret tt.

Definition invalid_payload : PyExn := RuntimeError "Mixed prefix cache block has an invalid payload.".
(** [block.payload], which must be a [MixedPrefixBlockPayload]. *)
Definition payload_of o : CoAct MixedPrefixBlockPayload :=
  b ← on_prefix (deref o);
  s ← read id;
  match payloads s !! payload b with Some x => mret x | None => throw invalid_payload end.
Fixpoint payloads_of (os : list ObjRef) : CoAct (list MixedPrefixBlockPayload) :=
  match os with
  | [] => mret []
  | o :: os' => x ← payload_of o; xs ← payloads_of os'; mret (x :: xs)
  end.

(** [_free_blocks] *)
Definition free_blocks (os : list ObjRef) : CoAct unit :=
  xs ← payloads_of os;
  for_each xs (fun x => on_kv (free_prefix_kv_payload (kv_payload x)) ;; free_prefix_recurrent_payload (recurrent_payload x)).

(** ** Capacity *)

(** [_live_recurrent_bytes] *)
Definition live_recurrent_bytes : CoAct Z :=
  require_prefix_cache ;;
  os ← on_prefix (read (fun ix => values (blocks ix)));
  xs ← payloads_of os;
  mret (sumZ (recurrent_bytes <$> xs)).

(** The loop of [_evict_for_insert]: a round removes a block or ends it. *)
Fixpoint evict_bytes (fuel : nat) (incoming : Z) : CoAct bool :=
  live ← live_recurrent_bytes;
  s ← read id;
  if live + pending_recurrent_bytes s + incoming <=? max_recurrent_bytes s then mret true
  else
    match fuel with
    | O => throw LoopFuel
    | S fuel' =>
        evicted ← on_prefix (evict_until_freeable 1);
        if bool_decide (evicted = []) then mret false else free_blocks evicted ;; evict_bytes fuel' incoming
    end.
(** The limit on the number of blocks. *)
Definition evict_over (over : Z) : CoAct bool :=
  if over <=? 0 then mret true
  else
    evicted ← on_prefix (evict_until_freeable over);
    free_blocks evicted ;;
    mret (Z.of_nat (length evicted) =? over).
Definition evict_for_insert (needed_blocks incoming : Z) : CoAct bool :=
  s ← read id;
  guard_not (incoming <? 0) (ValueError "incoming_recurrent_bytes must be >= 0") ;;
  guard_not (max_recurrent_bytes s <? incoming)
    (RuntimeError "Mixed prefix recurrent payload exceeds the configured byte budget") ;;
  require_prefix_cache ;;
  over ← on_prefix (read (fun ix => match max_blocks (PrefixIndex.config ix) with
    | None => 0
    | Some m => live ix + Z.of_nat (size (pending_block_ids s)) + needed_blocks - m
    end));
  room ← evict_over over;
  if negb room then mret false
  else fuel ← on_prefix (read (fun ix => S (len (blocks ix)))); evict_bytes fuel incoming.

(** [_reserve_pending_block] *)
Definition reserve_pending_block (id : bytes) (bytes_needed : Z) : CoAct bool :=
  s ← read Datatypes.id;
  if bool_decide (id ∈ pending_block_ids s) then mret false
  else
    room ← evict_for_insert 1 bytes_needed;
    if negb room then mret false
    else
      modify (fun s => s <| pending_block_ids ::= fun x => {[id]} ∪ x |>
                         <| pending_recurrent_bytes ::= fun n => n + bytes_needed |>) ;;
      mret true.
(** [_release_pending_reservation] *)
Definition release_pending_reservation (id : bytes) (bytes_held : Z) : CoAct unit :=
  s ← read Datatypes.id;
  guard_not (negb (bool_decide (id ∈ pending_block_ids s)))
    (RuntimeError "Mixed prefix pending reservation is missing during release.") ;;
  modify (fun s => s <| pending_block_ids ::= fun x => x ∖ {[id]} |>
                     <| pending_recurrent_bytes ::= fun n => n - bytes_held |>) ;;
  s ← read Datatypes.id;
  guard_not (pending_recurrent_bytes s <? 0) (RuntimeError "Mixed prefix pending recurrent byte count became negative.").
Definition release_pending (p : PendingMixedPrefixBlock) : CoAct unit :=
  free_prefix_recurrent_payload (recurrent_payload (pending_payload p)) ;;
  release_pending_reservation (pending_block_id p) (recurrent_bytes (pending_payload p)).

Definition evict_for_slots (needed_slots : Z) : CoAct unit :=
  s ← read id;
  when (bool_decide (is_Some (prefix_cache s)) && (0 <? needed_slots))
    (let needed := (needed_slots + co_block_size s - 1) / co_block_size s in
     evicted ← on_prefix (evict_until_freeable needed);
     free_blocks evicted ;;
     guard_not (negb (Z.of_nat (length evicted) =? needed))
       (RuntimeError "Mixed prefix cache could not evict enough blocks for KV allocation")).

(** [evictable_slots]; without offload [step_reclaimable_slots] and
    [admission_reclaimable_slots] are the same. *)
Definition evictable_slots : CoAct Z :=
  s ← read id;
  if bool_decide (prefix_cache s = None) then mret 0
  else n ← on_prefix freeable_blocks; mret (n * co_block_size s).
Definition step_reclaimable_slots : CoAct Z :=
  s ← read id;
  if bool_decide (prefix_cache s = None) then mret 0
  else n ← on_prefix freeable_blocks; mret (n * co_block_size s).
Definition admission_reclaimable_slots : CoAct Z :=
  s ← read id;
  if bool_decide (prefix_cache s = None) then mret 0
  else n ← on_prefix freeable_blocks; mret (n * co_block_size s).
Definition prefix_hit_evictable_slots q : CoAct Z :=
  s ← read id;
  if bool_decide (prefix_cache s = None) || (prefix_cache_hit_len (prefix_hit q) <=? 0) then mret 0
  else
    n ← on_cached (prefix_hit_capacity_counts q false);
    mret ((n.1 + n.2) * co_block_size s).

(** ** Hits *)

(** The hit that [refresh_prefix_cache_hit] leaves on the sequence. *)
Definition refresh_prefix_cache_hit q : CoAct PrefixHit :=
  s ← read id;
  if bool_decide (prefix_cache s = None) then mret no_prefix_hit
  else on_cached (coordinator_refresh_hit (cc_sparse_method (co_config s)) q).

(** The checks of a block of the chain that is attached. *)
Definition check_attach o : CoAct unit :=
  payload_of o ;;
  b ← on_prefix (deref o);
  lift (residency_validate (residency b)) ;;
  guard_not (negb (device_present (residency b)))
    (RuntimeError "Mixed prefix lookup returned a non-device block that cannot be promoted.") ;;
  guard_not (bool_decide (transfer (residency b) = Some H2D)) (AssertionError "").
(** The payloads attached and how the loop over them ended. *)
Fixpoint attach_payloads q (os : list ObjRef) (attached : list K) : CoAct (exc unit * list K) :=
  match os with
  | [] => mret (Ok tt, attached)
  | o :: os' =>
      r ← attempt (x ← payload_of o; on_kv (attach_prefix_kv_payload q (kv_payload x)) ;; mret (kv_payload x));
      match (r : exc K) with Ok k => attach_payloads q os' (attached ++ [k]) | Raise e => mret (Raise e, attached) end
  end.
Definition attach_recurrent q (chain : list ObjRef) : CoAct unit :=
  match last chain with
  | None => throw (IndexError "list index out of range")
  | Some o => x ← payload_of o; on_rows (attach_prefix_recurrent_payload q (Some (recurrent_payload x)) None)
  end.
(** The [except] clause. *)
Definition undo_attach q (chain : list ObjRef) (attached : list K) (row_preexisted : bool) (e : PyExn) : CoAct unit :=
  undone ← match attached with
           | [] => mret (Ok tt)
           | _ => attempt (on_kv (rollback_prefix_kv_attach q attached row_preexisted))
           end;
  for_each chain (fun o => on_prefix (release_block_ref o negative_ref)) ;;
  match (undone : exc unit) with
  | Raise _ => throw (RuntimeError "Mixed prefix attach rollback failed after")
  | Ok _ => throw e
  end.
Definition attach_chain q (chain : list ObjRef) (row_preexisted : bool) : CoAct unit :=
  ra ← attach_payloads q chain [];
  r ← match (ra.1 : exc unit) with Ok _ => attempt (attach_recurrent q chain) | Raise e => mret (Raise e) end;
  match (r : exc unit) with Ok _ => mret tt | Raise e => undo_attach q chain ra.2 row_preexisted e end.
(** [_attach_seq] *)
Definition attach_seq q : CoAct unit :=
  s ← read id;
  let hit := prefix_hit q in
  let hit_len := prefix_cache_hit_len hit in
  if (hit_len <=? 0) || bool_decide (is_Some (seq_id_to_prefix_blocks s !! seq_id q)) then mret tt
  else
    match prefix_cache_hit_last_block_id hit with
    | None => throw (RuntimeError "mixed prefix hit length but no last block id.")
    | Some last =>
        let bs := co_block_size s in
        guard_not (negb (hit_len mod bs =? 0)) (RuntimeError "mixed prefix hit length is not block aligned") ;;
        require_prefix_cache ;;
        chain ← on_prefix (ask (fun ix => get_chain ix last (prefix_cache_hit_block_count hit)));
        guard_not (negb (Z.of_nat (length chain) * bs =? hit_len))
          (RuntimeError "Mixed prefix cache chain length does not match scheduler metadata") ;;
        for_each chain check_attach ;;
        row_preexisted ← on_kv (validate_prefix_kv_attach q);
        for_each chain (fun o => on_prefix (acquire_block_ref o)) ;;
        attach_chain q chain row_preexisted ;;
        modify (fun s => s <| seq_id_to_prefix_blocks ::= <[seq_id q := chain]> |>) ;;
        on_prefix (touch_chain chain)
    end.
Definition attach_prefix_cache_hits (qs : list Sequence) : CoAct unit :=
  s ← read id;
  when (bool_decide (is_Some (prefix_cache s))) (for_each qs attach_seq).

(** ** Recording full blocks *)

(** The blocks a request holds. *)
Definition held_blocks s sid : list ObjRef :=
  default [] (seq_id_to_prefix_blocks s !! sid) ++ default [] (seq_id_to_materialized_blocks s !! sid).
Fixpoint held_ids (ix : Index) (os : list ObjRef) : exc (list bytes) :=
  match os with
  | [] => Ok []
  | o :: os' =>
      match store ix !! o with
      | None => Raise (AttributeError "block")
      | Some b => rest ← held_ids ix os'; Ok (stable_block_id b :: rest)
      end
  end.
(** [_hold_materialized_ref] *)
Definition hold_materialized_ref sid o : CoAct unit :=
  s ← read id;
  b ← on_prefix (deref o);
  ids ← on_prefix (ask (fun ix => held_ids ix (held_blocks s sid)));
  when (negb (bool_decide (stable_block_id b ∈ ids)))
    (require_prefix_cache ;;
     on_prefix (acquire_block_ref o) ;;
     modify (fun s => s <| seq_id_to_materialized_blocks ::= fun m => <[sid := default [] (m !! sid) ++ [o]]> m |>)).

Definition set_state sid (st : MixedPrefixRuntimeState) : CoAct unit :=
  modify (fun s => s <| runtime_states ::= <[sid := st]> |>).
(** [state.parent_block_id = id] and [state.next_logical_block_idx += 1] *)
Definition advanced (st : MixedPrefixRuntimeState) (id : bytes) : MixedPrefixRuntimeState :=
  st <| state_parent_block_id := Some id |> <| next_logical_block_idx ::= Z.succ |>.

(** The [try] body of [add_block]: the payload of a reserved block. *)
Definition build_pending q (st : MixedPrefixRuntimeState) (id : bytes) (toks : list Z) (declared : Z) : CoAct unit :=
  s ← read Datatypes.id;
  let bs := co_block_size s in
  let start := next_logical_block_idx st * bs in
  kv ← on_kv (build_prefix_kv_payload q start (start + bs));
  r ← on_rows (build_prefix_recurrent_payload q (start + bs));
  on_error
    (guard_not (negb (prefix_recurrent_payload_nbytes (Some r) =? declared))
       (RuntimeError "Mixed prefix recurrent snapshot bytes differ from the model declaration") ;;
     n ← on_kv (prefix_kv_payload_nbytes kv);
     let p := mkPendingMixed id (state_parent_block_id st) (next_logical_block_idx st) toks
                (mkMixedPayload kv r bs (n + declared) declared) in
     modify (fun s => s <| pending_blocks ::= fun m => <[seq_id q := default [] (m !! seq_id q) ++ [p]]> m |>))
    (free_prefix_recurrent_payload r).
(** [add_block] *)
Definition add_block q (toks : list Z) : CoAct unit :=
  s ← read id;
  let sid := seq_id q in
  match runtime_states s !! sid with
  | None => throw (KeyError "")
  | Some st =>
      id ← on_prefix (ask (fun ix => stable_block_id_of (block_size (PrefixIndex.config ix)) (fingerprint (PrefixIndex.config ix)) toks
                                       (state_parent_block_id st)));
      existing ← on_prefix (read (fun ix => get_block ix id));
      match (existing : option (ObjRef * PrefixCacheBlock)) with
      | Some (o, _) => hold_materialized_ref sid o ;; set_state sid (advanced st id)
      | None =>
          if bool_decide (id ∈ pending_block_ids s) then
            modify (fun s => s <| pending_duplicate_refs ::= fun m =>
              let l := default [] (m !! sid) in <[sid := if bool_decide (id ∈ l) then l else l ++ [id]]> m |>) ;;
            set_state sid (advanced st id)
          else
            let declared := prefix_recurrent_snapshot_nbytes (recurrent_state_manager s) in
            reserved ← reserve_pending_block id declared;
            if negb reserved then
              modify (fun s => s <| capacity_limited_seq_ids ::= fun x => {[sid]} ∪ x |>
                                 <| skipped_capacity_blocks ::= Z.succ |>)
            else
              on_error (build_pending q st id toks declared) (release_pending_reservation id declared) ;;
              set_state sid (advanced st id)
      end
  end.

(** [for block_start in range(offset, end_full, block_size)], [n] blocks. *)
Fixpoint add_full_blocks q (n : nat) (bs : Z) (toks : list Z) : CoAct unit :=
  match n with
  | O => mret tt
  | S n' => add_block q (take (Z.to_nat bs) toks) ;; add_full_blocks q n' bs (drop (Z.to_nat bs) toks)
  end.
Definition set_pending_tokens sid (toks : list Z) : CoAct unit :=
  modify (fun s => s <| runtime_states ::= alter (fun st => st <| pending_tokens := toks |>) sid |>).
(** The blocks that the tokens complete on their own and what is left over. *)
Definition record_rest q (bs : Z) (toks : list Z) : CoAct unit :=
  let n := Z.of_nat (length toks) / bs in
  add_full_blocks q (Z.to_nat n) bs toks ;;
  set_pending_tokens (seq_id q) (drop (Z.to_nat (n * bs)) toks).

(** The state a request starts from: after its hit. *)
Definition first_state q : MixedPrefixRuntimeState :=
  mkMixedState (prefix_cache_hit_last_block_id (prefix_hit q)) (prefix_cache_hit_block_count (prefix_hit q)) [].
(** [_record_tokens] *)
Definition record_tokens q (toks : list Z) : CoAct unit :=
  s ← read id;
  let sid := seq_id q in
  let bs := co_block_size s in
  if bool_decide (is_Some (multimodal_digest (tags q))) || bool_decide (toks = []) then mret tt
  else
    let st := default (first_state q) (runtime_states s !! sid) in
    set_state sid st ;;
    modify (fun s => s <| pending_blocks ::= fun m => <[sid := default [] (m !! sid)]> m |>) ;;
    if bool_decide (pending_tokens st = []) then record_rest q bs toks
    else
      let n := Z.to_nat (Z.min (bs - Z.of_nat (length (pending_tokens st))) (Z.of_nat (length toks))) in
      let filled := pending_tokens st ++ take n toks in
      set_pending_tokens sid filled ;;
      if negb (Z.of_nat (length filled) =? bs) then mret tt
      else
        add_block q filled ;;
        set_pending_tokens sid [] ;;
        record_rest q bs (drop n toks).

(** The tokens of a prefill step. *)
Definition chunk_tokens q (chunk : Z) : list Z :=
  let toks := token_ids q in
  if chunk <? Z.of_nat (length toks) then slice (num_prefilled_tokens q) (num_prefilled_tokens q + chunk) toks else toks.
Definition record_seq (is_prefill : bool) q : CoAct unit :=
  s ← read id;
  let bs := co_block_size s in
  if bool_decide (seq_id q ∈ capacity_limited_seq_ids s) then mret tt
  else if is_prefill then
    let chunk := default 0 (current_chunk_size q) in
    if chunk <=? 0 then mret tt
    else
      let start := num_prefilled_tokens q in
      guard_not (start + (bs - start mod bs) <? start + chunk)
        (RuntimeError "Mixed prefix prefill chunks must not cross recurrent snapshot boundaries") ;;
      record_tokens q (chunk_tokens q chunk)
  else
    t ← lift (decode_input_token q);
    record_tokens q [t].
Definition record_step_tokens (qs : list Sequence) (is_prefill : bool) : CoAct unit :=
  s ← read id;
  when (bool_decide (is_Some (prefix_cache s))) (for_each qs (record_seq is_prefill)).

(** ** Committing blocks *)

(** [PrefixCacheBlock(...)]: a new object, referenced once, on the device, whose
    payload is the pending block's. *)
Definition co_new_block (bs : Z) (p : PendingMixedPrefixBlock) (x : ObjRef) : PrefixCacheBlock :=
  mkBlock (pending_block_id p) (pending_parent_id p) bs (pending_logical_idx p) x
    (pending_token_ids p) 1 0 0 (mkResidency true false None) None.
Definition construct_block (p : PendingMixedPrefixBlock) : CoAct ObjRef :=
  s ← read id;
  let x := fresh (dom (payloads s)) in
  modify (fun s => s <| payloads ::= <[x := pending_payload p]> |>) ;;
  on_prefix (fun ix => let o := fresh (dom (store ix)) in (Ok o, ix <| store ::= <[o := co_new_block (co_block_size s) p x]> |>)).

(** Marking failed: the block leaves the index again. *)
Definition unmark sid q (p : PendingMixedPrefixBlock) o : CoAct unit :=
  on_kv (rollback_materialized_prefix_kv_payload q (kv_payload (pending_payload p))) ;;
  modify (fun s => s <| seq_id_to_materialized_blocks ::= alter (remove_first o) sid |>) ;;
  on_prefix (set_block_ref_count o 0 negative_ref) ;;
  on_prefix (rollback_inserted_leaf o) ;;
  free_prefix_recurrent_payload (recurrent_payload (pending_payload p)).
(** The body of the [try]. *)
Definition commit_block q (p : PendingMixedPrefixBlock) : CoAct unit :=
  let sid := seq_id q in
  known ← on_prefix (read (fun ix => has_block ix (pending_block_id p)));
  guard_not known (RuntimeError "Mixed prefix block became duplicate after unique pending reservation.") ;;
  o ← construct_block p;
  inserted ← on_prefix (insert_block o);
  guard_not (negb (bool_decide (inserted = o)))
    (RuntimeError "Mixed prefix insertion returned an unexpected duplicate block.") ;;
  modify (fun s => s <| seq_id_to_materialized_blocks ::= fun m => <[sid := default [] (m !! sid) ++ [inserted]]> m |>) ;;
  on_error (on_kv (mark_materialized_prefix_kv_payload q (kv_payload (pending_payload p)))) (unmark sid q p inserted).
(** Its [except] clause; the flags it tests only decide whether the recurrent
    payload of the failed block is freed here, which does nothing. *)
Definition abandon_commit sid (unprocessed : list PendingMixedPrefixBlock) : CoAct unit :=
  for_each unprocessed release_pending ;;
  modify (fun s => s <| pending_duplicate_refs ::= delete sid |>) ;;
  s ← read id;
  when (bool_decide (default [] (seq_id_to_materialized_blocks s !! sid) = []))
    (modify (fun s => s <| seq_id_to_materialized_blocks ::= delete sid |>)).
Fixpoint commit_blocks q (ps : list PendingMixedPrefixBlock) : CoAct unit :=
  match ps with
  | [] => mret tt
  | p :: ps' =>
      finally (on_error (commit_block q p) (abandon_commit (seq_id q) ps'))
        (release_pending_reservation (pending_block_id p) (recurrent_bytes (pending_payload p))) ;;
      commit_blocks q ps'
  end.
Definition hold_duplicate sid (id : bytes) : CoAct unit :=
  found ← on_prefix (read (fun ix => get_block ix id));
  match (found : option (ObjRef * PrefixCacheBlock)) with
  | None => throw (RuntimeError "Mixed prefix duplicate reservation was not committed by its owner.")
  | Some (o, _) => hold_materialized_ref sid o
  end.
Definition commit_seq q : CoAct unit :=
  s ← read id;
  let sid := seq_id q in
  modify (fun s => s <| pending_blocks ::= delete sid |>) ;;
  modify (fun s => s <| seq_id_to_materialized_blocks ::= fun m => <[sid := default [] (m !! sid)]> m |>) ;;
  commit_blocks q (default [] (pending_blocks s !! sid)) ;;
  s ← read id;
  modify (fun s => s <| pending_duplicate_refs ::= delete sid |>) ;;
  for_each (default [] (pending_duplicate_refs s !! sid)) (hold_duplicate sid).
Definition commit_pending_blocks (qs : list Sequence) : CoAct unit :=
  s ← read id;
  when (bool_decide (is_Some (prefix_cache s))) (for_each qs commit_seq).

(** [finish_step]: without offload there are no transfers to forget. *)
Definition finish_step : CoAct unit := mret tt.
(** What [RuntimeState.on_forward_end] asks at the end of a step. *)
Definition end_step (qs : list Sequence) (is_prefill : bool) : CoAct unit :=
  finally (record_step_tokens qs is_prefill ;; commit_pending_blocks qs) finish_step.

(** ** Leaving and resetting *)

Definition release_seq sid : CoAct unit :=
  s ← read id;
  modify (fun s => s <| seq_id_to_prefix_blocks ::= delete sid |> <| seq_id_to_materialized_blocks ::= delete sid |>) ;;
  require_prefix_cache ;;
  for_each (held_blocks s sid) (fun o => on_prefix (release_block_ref o "Mixed prefix cache block ref_count became negative.")) ;;
  modify (fun s => s <| runtime_states ::= delete sid |> <| pending_blocks ::= delete sid |>) ;;
  for_each (default [] (pending_blocks s !! sid)) release_pending ;;
  modify (fun s => s <| pending_duplicate_refs ::= delete sid |> <| capacity_limited_seq_ids ::= fun x => x ∖ {[sid]} |>).

(** [[block for block in blocks if int(block.ref_count) != 0]] *)
Definition any_referenced (ix : Index) : bool :=
  existsb (fun o => match store ix !! o with Some b => negb (ref_count b =? 0) | None => false end) (values (blocks ix)).
Definition reset_after_warmup : CoAct unit :=
  s ← read id;
  when (bool_decide (is_Some (prefix_cache s)))
    (guard_not (negb (bool_decide (seq_id_to_prefix_blocks s = ∅)) || negb (bool_decide (seq_id_to_materialized_blocks s = ∅)))
       (RuntimeError "Cannot reset mixed prefix cache while sequences still reference blocks.") ;;
     for_each (concat (map_to_list (pending_blocks s)).*2) release_pending ;;
     os ← on_prefix (read (fun ix => values (blocks ix)));
     referenced ← on_prefix (read any_referenced);
     guard_not referenced (RuntimeError "Cannot reset mixed prefix cache while blocks are referenced") ;;
     free_blocks os ;;
     c ← lift (co_new_index (co_config s));
     modify (fun s => s <| prefix_cache := Some c |> <| runtime_states := ∅ |> <| pending_blocks := ∅ |>
                        <| pending_duplicate_refs := ∅ |> <| pending_block_ids := ∅ |> <| pending_recurrent_bytes := 0 |>
                        <| capacity_limited_seq_ids := ∅ |> <| skipped_capacity_blocks := 0 |>)).

(** ** Control *)

Definition delete_subtree (toks : list Z) : CoAct DeleteResult :=
  require_prefix_cache ;;
  plan ← on_prefix (preview_delete_subtree toks);
  on_kv (synchronize_prefix_cache_delete_plan plan) ;;
  result ← on_prefix (safe_delete_subtree toks);
  free_blocks (deleted result) ;;
  mret result.
Definition set_eviction_priority (toks : list Z) (priority : Z) : CoAct PriorityReport :=
  require_prefix_cache ;;
  on_prefix (set_subtree_eviction_priority toks priority).
End coordinator.
