(* ===== verification/CoordinatorInvariant.v ===== *)
(** * The prefix cache coordinator: invariant

    What holds of a coordinator between its calls: references on blocks are the
    ones requests hold, reservations are the blocks that wait, and blocks and
    snapshot bytes stay within their limits.  During a call some of this is in
    flight: references not yet written down, reservations whose block is in no
    list. *)

From stdpp Require Import base gmap list strings.
From Stdlib Require Import ZArith Lia.
From S2P Require Import Prelude PyDict PyBytes Sha256 RoutingMembership RadixTree RadixForest PrefixHash.
From S2P Require Import PrefixIndex PrefixIndexFacts PrefixCapacity PrefixEviction PrefixFreeable SlotRanges PrefixClient PrefixRefs.
From S2P Require Import SamplingParams Sequence PrefixLookup RecurrentRows PrefixCoordinator.

Definition device_only : PrefixBlockResidency := mkResidency true false None.
Definition Reservation : Type := bytes * Z.

(** References that no request holds, reservations whose block is not yet in the
    index and in no list, and reservations whose block just entered it. *)
Record Flight := mkFlight {
  extra_refs : list nat;
  reserved : list Reservation;
  entered : list Reservation;
}.
Definition rest : Flight := mkFlight [] [] [].

Section invariant.
Context {DType Device Content Event : Type} `{TorchTypes DType Device Content Event}.
Context {M K : Type} `{PrefixKV M K} `{Digest}.
#[local] Abbreviation Co := (@PrefixCacheCoordinator DType Device Content Event M K).
#[local] Abbreviation CoAct := (Act PyExn Co).
#[local] Abbreviation Index := (RadixPrefixIndex RadixTreeBackend).
#[local] Abbreviation Pending := (@PendingMixedPrefixBlock DType Device Content K).
#[local] Abbreviation Payload := (@MixedPrefixBlockPayload DType Device Content K).
Implicit Types (s : Co) (q : Sequence) (sid : Z) (o : nat) (fl : Flight) (p : Pending).

Definition blk s : gmap bytes Entry := match prefix_cache s with Some c => seen (the_index c) | None => ∅ end.
Definition holders s : list nat := flat (seq_id_to_prefix_blocks s) ++ flat (seq_id_to_materialized_blocks s).
Definition reservation_of p : Reservation := (pending_block_id p, recurrent_bytes (pending_payload p)).
Definition waiting s : list Reservation := reservation_of <$> flat (pending_blocks s).
Definition bytes_of (pl : gmap nat Payload) (x : nat) : Z := match pl !! x with Some y => recurrent_bytes y | None => 0 end.
Definition block_bytes (bl : gmap bytes Entry) (pl : gmap nat Payload) : Z :=
  sumZ (flat ((fun en => [bytes_of pl (e_payload en)]) <$> bl)).
Definition live_bytes s : Z := block_bytes (blk s) (payloads s).
Definition total (l : list Reservation) : Z := sumZ l.*2.

Definition index_ok s : Prop := match prefix_cache s with
  | Some c => cc_enable_prefix_caching (co_config s) = true /\ index_inv (the_index c) /\ PrefixIndex.config (the_index c) =
      mkIndexConfig (co_block_size s) (cc_fingerprint (co_config s)) (cc_max_blocks (co_config s))
  | None => cc_enable_prefix_caching (co_config s) = false
  end.
Definition entry_ok (pl : gmap nat Payload) (en : Entry) : Prop :=
  e_residency en = device_only /\ is_Some (pl !! e_payload en) /\ 0 <= bytes_of pl (e_payload en).
(** The reservations are those of the blocks in [l], each once. *)
Record ledger (l : list Reservation) s : Prop := {
  ld_nodup : NoDup l.*1;
  ld_ids : forall id, id ∈ pending_block_ids s <-> id ∈ l.*1;
  ld_sum : pending_recurrent_bytes s = total l;
  ld_nonneg : Forall (fun r => 0 <= r.2) l;
}.
(** [l] and the blocks of the index fit. *)
Record roomy (l : list Reservation) s : Prop := {
  rm_outside : forall id, id ∈ l.*1 -> blk s !! id = None;
  rm_blocks : forall m, prefix_cache s <> None -> cc_max_blocks (co_config s) = Some m -> Z.of_nat (size (blk s)) + Z.of_nat (length l) <= m;
  rm_bytes : live_bytes s + total l <= Z.max 0 (max_recurrent_bytes s);
}.
Record co_ok fl s : Prop := {
  co_index : index_ok s;
  co_blocks : forall id en, blk s !! id = Some en -> entry_ok (payloads s) en;
  co_refs : counted (blk s) (extra_refs fl ++ holders s);
  co_ledger : ledger (entered fl ++ reserved fl ++ waiting s) s;
  co_room : roomy (reserved fl ++ waiting s) s;
}.

(** ** What the invariant does not read *)

Lemma co_ok_ext fl s s' : co_config s' = co_config s -> prefix_cache s' = prefix_cache s -> payloads s' = payloads s ->
  holders s' = holders s -> waiting s' = waiting s -> pending_block_ids s' = pending_block_ids s ->
  pending_recurrent_bytes s' = pending_recurrent_bytes s -> co_ok fl s -> co_ok fl s'.
Proof.
  intros E1 E2 E3 E4 E5 E6 E7 [Hix Hb Hr [L1 L2 L3 L4] [R1 R2 R3]].
  unfold index_ok, blk, live_bytes, co_block_size, max_recurrent_bytes in *.
  split; unfold index_ok, blk, co_block_size; rewrite ?E1, ?E2, ?E3, ?E4, ?E5; try done.
  - split; rewrite ?E6, ?E7; done.
  - split; unfold live_bytes, blk, max_recurrent_bytes; rewrite ?E1, ?E2, ?E3; done.
Qed.
Lemma ok_kv fl s x : co_ok fl s -> co_ok fl (s <| cache_manager := x |>).
Proof. by apply co_ok_ext. Qed.
Lemma ok_rows fl s x : co_ok fl s -> co_ok fl (s <| recurrent_state_manager := x |>).
Proof. by apply co_ok_ext. Qed.
Lemma ok_states fl s f : co_ok fl s -> co_ok fl (s <| runtime_states ::= f |>).
Proof. by apply co_ok_ext. Qed.
Lemma ok_duplicates fl s f : co_ok fl s -> co_ok fl (s <| pending_duplicate_refs ::= f |>).
Proof. by apply co_ok_ext. Qed.
Lemma ok_limited fl s f : co_ok fl s -> co_ok fl (s <| capacity_limited_seq_ids ::= f |>).
Proof. by apply co_ok_ext. Qed.

(** A list of a request given an entry it did not have. *)
Lemma flat_known {A} (m : gmap Z (list A)) sid : flat (<[sid := default [] (m !! sid)]> m) ≡ₚ flat m.
Proof. by rewrite flat_insert_delete, (flat_default m sid). Qed.
Lemma flat_push {A} (m : gmap Z (list A)) sid (x : A) : flat (<[sid := default [] (m !! sid) ++ [x]]> m) ≡ₚ x :: flat m.
Proof. rewrite flat_insert_delete, (flat_default m sid). solve_Permutation. Qed.

(** ** Calls into the parts *)

Definition with_index s (c : CachedIndex RadixTreeBackend) (ix : Index) : Co := s <| prefix_cache := Some (c <| the_index := ix |>) |>.

Lemma with_index_same s c : prefix_cache s = Some c -> with_index s c (the_index c) = s.
Proof. intros Hc. unfold with_index. destruct s, c; cbn in *. by subst. Qed.
Lemma co_wp_on_prefix {A} (m : Act PyExn Index A) (Q : exc A -> Co -> Prop) s c :
  prefix_cache s = Some c -> wp m (fun x ix' => Q x (with_index s c ix')) (the_index c) -> wp (on_prefix m) Q s.
Proof. intros Hc. unfold wp, on_prefix, on_cached, on_index. rewrite Hc. by destruct (m (the_index c)) as [a ix']. Qed.
Lemma wp_prefix {A} (m : Act PyExn Index A) (Q : exc A -> Co -> Prop) s :
  (forall c, prefix_cache s = Some c -> wp m (fun x ix' => Q x (with_index s c ix')) (the_index c)) ->
  (prefix_cache s = None -> Q (Raise (AttributeError "prefix_cache")) s) -> wp (on_prefix m) Q s.
Proof.
  intros Hs Hn. destruct (prefix_cache s) as [c|] eqn:Hc; [eapply co_wp_on_prefix; eauto|].
  unfold wp, on_prefix, on_cached. rewrite Hc. by apply Hn.
Qed.
(** Reading the index. *)
Lemma wp_prefix_get {A} (f : Index -> exc A) (Q : exc A -> Co -> Prop) s :
  (forall c, prefix_cache s = Some c -> Q (f (the_index c)) s) ->
  (prefix_cache s = None -> Q (Raise (AttributeError "prefix_cache")) s) -> wp (on_prefix (ask f)) Q s.
Proof. intros Hs Hn. apply wp_prefix; [|done]. intros c Hc. unfold wp, ask. cbn. rewrite with_index_same by done. by apply Hs. Qed.
Lemma wp_prefix_read {A} (f : Index -> A) (Q : exc A -> Co -> Prop) s :
  (forall c, prefix_cache s = Some c -> Q (Ok (f (the_index c))) s) ->
  (prefix_cache s = None -> Q (Raise (AttributeError "prefix_cache")) s) -> wp (on_prefix (read f)) Q s.
Proof. apply (wp_prefix_get (fun ix => Ok (f ix))). Qed.
Lemma wp_prefix_deref o (Q : exc PrefixCacheBlock -> Co -> Prop) s :
  (forall c b, prefix_cache s = Some c -> store (the_index c) !! o = Some b -> Q (Ok b) s) ->
  (forall e, Q (Raise e) s) -> wp (on_prefix (deref o)) Q s.
Proof.
  intros Hs Hn. apply wp_prefix; [|intros; apply Hn]. intros c Hc. unfold wp, deref.
  destruct (store (the_index c) !! o) eqn:Ho; cbn; rewrite with_index_same by done; eauto.
Qed.
Lemma wp_on_kv {A} (m : Act PyExn M A) (Q : exc A -> Co -> Prop) s :
  wp m (fun r x => Q r (s <| cache_manager := x |>)) (cache_manager s) -> wp (on_kv m) Q s.
Proof. unfold wp, on_kv. by destruct (m (cache_manager s)). Qed.
Lemma wp_any_kv {A} (m : Act PyExn M A) (Q : exc A -> Co -> Prop) s :
  (forall r x, Q r (s <| cache_manager := x |>)) -> wp (on_kv m) Q s.
Proof. intros HQ. apply wp_on_kv. unfold wp. apply HQ. Qed.
Lemma wp_on_rows {A} (m : Act PyExn (@RecurrentStateManager DType Device Content Event) A) (Q : exc A -> Co -> Prop) s :
  wp m (fun r x => Q r (s <| recurrent_state_manager := x |>)) (recurrent_state_manager s) -> wp (on_rows m) Q s.
Proof. unfold wp, on_rows. by destruct (m (recurrent_state_manager s)). Qed.
Lemma wp_any_rows {A} (m : Act PyExn (@RecurrentStateManager DType Device Content Event) A) (Q : exc A -> Co -> Prop) s :
  (forall r x, Q r (s <| recurrent_state_manager := x |>)) -> wp (on_rows m) Q s.
Proof. intros HQ. apply wp_on_rows. unfold wp. apply HQ. Qed.
Lemma wp_require (Q : exc unit -> Co -> Prop) s : (prefix_cache s = None -> Q (Raise (RuntimeError "prefix cache is not enabled for this runtime.")) s) ->
  (is_Some (prefix_cache s) -> Q (Ok tt) s) -> wp require_prefix_cache Q s.
Proof.
  intros Hn Hs. unfold require_prefix_cache. apply wp_bind, wp_read. cbv beta iota. unfold id.
  apply wp_guard; intros Hg; bool_to_prop; [by apply Hn|]. apply Hs. destruct (prefix_cache s); [eauto|done].
Qed.

Lemma co_blk_with_index s c ix : blk (with_index s c ix) = seen ix.
Proof. done. Qed.
Lemma co_blk_index s c : prefix_cache s = Some c -> blk s = seen (the_index c).
Proof. unfold blk. by intros ->. Qed.
Lemma co_index_of fl s c : co_ok fl s -> prefix_cache s = Some c ->
  index_inv (the_index c) /\ PrefixIndex.config (the_index c) =
    mkIndexConfig (co_block_size s) (cc_fingerprint (co_config s)) (cc_max_blocks (co_config s)) /\ 0 < co_block_size s.
Proof.
  intros Hok Hc. pose proof (co_index _ _ Hok) as Hix. unfold index_ok in Hix. rewrite Hc in Hix. destruct Hix as (_ & Hinv & Hcf).
  split_and!; [done|done|]. pose proof (iwf_block_size _ (proj1 Hinv)) as Hb. by rewrite Hcf in Hb.
Qed.

(** ** The index changes *)

Lemma co_index_moved s c ix' refs refs' res ent : co_ok (mkFlight refs res ent) s -> prefix_cache s = Some c ->
  client_step (the_index c) ix' ->
  (forall id en', seen ix' !! id = Some en' -> exists en, blk s !! id = Some en /\ e_payload en' = e_payload en /\ e_residency en' = e_residency en) ->
  counted (seen ix') (refs' ++ holders s) ->
  (size (seen ix') <= size (blk s))%nat -> block_bytes (seen ix') (payloads s) <= live_bytes s ->
  co_ok (mkFlight refs' res ent) (with_index s c ix').
Proof.
  intros [Hix Hb Hr [L1 L2 L3 L4] [R1 R2 R3]] Hc [Hinv Hcf] Hold Hcnt Hsz Hby.
  cbn [extra_refs reserved entered] in *. change (waiting s) with (waiting (with_index s c ix')) in *. split; cbn [extra_refs reserved entered]; try done.
  - unfold index_ok in *. rewrite Hc in Hix. cbn. rewrite Hcf. by destruct Hix as (? & _ & ?).
  - intros id en' Hen'. change (seen ix' !! id = Some en') in Hen'. destruct (Hold id en' Hen') as (en & Hen & Hp & Hre).
    destruct (Hb id en Hen) as (? & ? & ?). unfold entry_ok. by rewrite Hp, Hre.
  - split; rewrite ?co_blk_with_index.
    + intros id Hid. specialize (R1 id Hid). destruct (seen ix' !! id) as [en'|] eqn:Hen'; [|done].
      destruct (Hold id en' Hen') as (en & Hen & _). congruence.
    + intros m _ Hm. specialize (R2 m ltac:(by rewrite Hc) Hm). lia.
    + unfold live_bytes at 1. rewrite co_blk_with_index. change (payloads (with_index s c ix')) with (payloads s).
      change (max_recurrent_bytes (with_index s c ix')) with (max_recurrent_bytes s). lia.
Qed.
Lemma co_index_same s c ix' fl : co_ok fl s -> prefix_cache s = Some c -> client_step (the_index c) ix' ->
  seen ix' = seen (the_index c) -> co_ok fl (with_index s c ix').
Proof.
  intros Hok Hc Hst Hs. pose proof (co_refs _ _ Hok) as Hr. rewrite (co_blk_index s c Hc) in Hr. destruct fl as [refs res ent].
  apply (co_index_moved s c ix' refs refs); try done; rewrite Hs, ?(co_blk_index s c Hc); try done.
  - by eauto.
  - unfold live_bytes. by rewrite (co_blk_index s c Hc).
Qed.
Lemma block_bytes_refs bl pl id en en' : bl !! id = Some en -> e_payload en' = e_payload en -> block_bytes (<[id := en']> bl) pl = block_bytes bl pl.
Proof. intros Hen Hp. unfold block_bytes. rewrite fmap_insert, Hp. do 2 f_equal. apply insert_id. by rewrite lookup_fmap, Hen. Qed.
Lemma refs_moved s c ix' id en n refs refs' res ent : co_ok (mkFlight refs res ent) s -> prefix_cache s = Some c ->
  client_step (the_index c) ix' -> blk s !! id = Some en -> seen ix' = <[id := en <| e_refs := n |>]> (seen (the_index c)) ->
  counted (seen ix') (refs' ++ holders s) -> co_ok (mkFlight refs' res ent) (with_index s c ix').
Proof.
  intros Hok Hc Hst Hen Hs Hcnt. rewrite (co_blk_index s c Hc) in Hen.
  apply (co_index_moved s c ix' refs refs'); try done; rewrite Hs, ?(co_blk_index s c Hc).
  - intros id' en' H'. apply lookup_insert_Some in H' as [[<- <-]|[Hne H']]; eauto.
  - rewrite map_size_insert_Some by eauto. done.
  - unfold live_bytes. rewrite (co_blk_index s c Hc). by erewrite block_bytes_refs.
Qed.
Lemma same_but_refs_size bl bl' : same_but_refs bl bl' -> size bl' = size bl.
Proof.
  intros Hs. rewrite <- (map_size_fmap but_refs bl'), <- (map_size_fmap but_refs bl). f_equal.
  apply map_eq. intros id. by rewrite !lookup_fmap, (Hs id).
Qed.
Lemma same_but_refs_bytes bl bl' pl : same_but_refs bl bl' -> block_bytes bl' pl = block_bytes bl pl.
Proof.
  intros Hs. unfold block_bytes. do 2 f_equal. apply map_eq. intros id. rewrite !lookup_fmap. specialize (Hs id).
  destruct (bl !! id), (bl' !! id); cbn in *; [|done..]. unfold but_refs in Hs. by injection Hs as _ -> _ _ _.
Qed.
Lemma same_refs_moved s c ix' refs refs' res ent : co_ok (mkFlight refs res ent) s -> prefix_cache s = Some c ->
  refs_result (the_index c) ix' (refs' ++ holders s) -> co_ok (mkFlight refs' res ent) (with_index s c ix').
Proof.
  intros Hok Hc (Hst & Hsame & Hcnt). apply (co_index_moved s c ix' refs refs'); try done; rewrite ?(co_blk_index s c Hc).
  - intros id en' Hen'. destruct (same_but_refs_elem _ _ _ _ (same_but_refs_sym _ _ Hsame) Hen') as (en & ? & ? & ? & ?). eauto.
  - by rewrite (same_but_refs_size _ _ Hsame).
  - unfold live_bytes. by rewrite (co_blk_index s c Hc), (same_but_refs_bytes _ _ _ Hsame).
Qed.
End invariant.
