(* ===== verification/CoordinatorMoves.v ===== *)
(** * The prefix cache coordinator: room and reservations

    Eviction with the payloads it frees, the limits on blocks and bytes, and
    reservations taken and given back. *)

From stdpp Require Import base gmap list strings.
From Stdlib Require Import ZArith Lia.
From S2P Require Import Prelude PyDict PyBytes Sha256 RoutingMembership RadixTree RadixForest PrefixHash.
From S2P Require Import PrefixIndex PrefixIndexFacts PrefixCapacity PrefixEviction PrefixFreeable SlotRanges PrefixClient PrefixRefs.
From S2P Require Import SamplingParams Sequence PrefixLookup RecurrentRows PrefixCoordinator CoordinatorInvariant.

Section moves.
Context {DType Device Content Event : Type} `{TorchTypes DType Device Content Event}.
Context {M K : Type} `{PrefixKV M K} `{Digest}.
#[local] Abbreviation Co := (@PrefixCacheCoordinator DType Device Content Event M K).
#[local] Abbreviation CoAct := (Act PyExn Co).
#[local] Abbreviation Index := (RadixPrefixIndex RadixTreeBackend).
#[local] Abbreviation Pending := (@PendingMixedPrefixBlock DType Device Content K).
#[local] Abbreviation Payload := (@MixedPrefixBlockPayload DType Device Content K).
Implicit Types (s : Co) (q : Sequence) (sid : Z) (o : nat) (fl : Flight) (p : Pending) (x : Payload).

(** A cache manager whose freeing does not raise. *)
Definition frees_return : Prop := forall (k : K) (m : M), (free_prefix_kv_payload k m).1 = Ok tt.

(** ** Payloads *)

(** [o] is a block object whose payload object is [x]. *)
Definition has_payload s o x : Prop := exists c b, prefix_cache s = Some c /\ store (the_index c) !! o = Some b /\ payloads s !! payload b = Some x.

Lemma co_wp_payload_of o (Q : exc Payload -> Co -> Prop) s :
  (forall x, has_payload s o x -> Q (Ok x) s) -> (forall e, Q (Raise e) s) -> wp (payload_of o) Q s.
Proof.
  intros Hs Hn. unfold payload_of. apply wp_bind, wp_prefix_deref; [|done]. intros c b Hc Ho. apply wp_bind, wp_read. cbv beta iota. unfold id.
  destruct (payloads s !! payload b) as [x|] eqn:Hx; [|by apply wp_throw]. apply wp_ret, Hs. by exists c, b.
Qed.
Lemma payload_of_run o x s : has_payload s o x -> payload_of o s = (Ok x, s).
Proof.
  intros (c & b & Hc & Ho & Hx). unfold payload_of, on_prefix, on_cached, on_index, deref, mbind, Act_bind, read. rewrite Hc, Ho.
  cbv beta iota zeta. fold (with_index s c (the_index c)). rewrite with_index_same by done. unfold id. by rewrite Hx.
Qed.
Lemma payloads_of_run os xs s : Forall2 (has_payload s) os xs -> payloads_of os s = (Ok xs, s).
Proof.
  induction 1 as [|o x os xs Hx _ IH]; [done|]. cbn [payloads_of]. unfold mbind, Act_bind. rewrite (payload_of_run _ x) by done.
  by rewrite IH.
Qed.
Lemma wp_payloads_of os (Q : exc (list Payload) -> Co -> Prop) s :
  (forall xs, Forall2 (has_payload s) os xs -> Q (Ok xs) s) -> (forall e, Q (Raise e) s) -> wp (payloads_of os) Q s.
Proof.
  revert Q. induction os as [|o os IH]; intros Q Hs Hn; cbn [payloads_of]; [apply wp_ret, Hs; constructor|].
  apply wp_bind, co_wp_payload_of; [|done]. intros x Hx. apply wp_bind, IH; [|done]. intros xs Hxs. apply wp_ret, Hs. by constructor.
Qed.

(** Freeing reaches only the cache manager. *)
Lemma free_blocks_frame os s : wp (free_blocks os) (fun _ s' => exists m, s' = s <| cache_manager := m |>) s.
Proof.
  assert (s = s <| cache_manager := cache_manager s |>) as Hid by (by destruct s).
  unfold free_blocks. apply wp_bind, wp_payloads_of; [|eauto]. intros xs _. clear os.
  enough (forall m, wp (for_each xs (fun x => on_kv (free_prefix_kv_payload (kv_payload x)) ;; free_prefix_recurrent_payload (recurrent_payload x)))
    (fun _ s' => exists m, s' = s <| cache_manager := m |>) (s <| cache_manager := m |>)) as Hm.
  { pose proof (Hm (cache_manager s)) as HQ. by rewrite <- Hid in HQ. }
  induction xs as [|x xs IH]; intros m; cbn [for_each]; [apply wp_ret; eauto|].
  apply wp_bind, wp_bind, wp_any_kv. intros [[]|e] m'; [|eauto]. apply wp_ret, (IH m').
Qed.
Lemma free_blocks_returns os xs s : frees_return -> Forall2 (has_payload s) os xs -> (free_blocks os s).1 = Ok tt.
Proof.
  intros Hf Hxs. unfold free_blocks, mbind, Act_bind. rewrite (payloads_of_run _ _ _ Hxs). clear os Hxs. revert s.
  induction xs as [|x xs IH]; intros s; cbn [for_each]; [done|]. unfold mbind, Act_bind, on_kv, free_prefix_recurrent_payload, mret, Act_ret.
  destruct (free_prefix_kv_payload (kv_payload x) (cache_manager s)) as [r m] eqn:E. pose proof (Hf (kv_payload x) (cache_manager s)) as Hr.
  rewrite E in Hr. cbn in Hr. subst r. apply IH.
Qed.
Lemma entry_payload fl s c id en : co_ok fl s -> prefix_cache s = Some c -> blk s !! id = Some en ->
  exists x, has_payload s (e_obj en) x /\ recurrent_bytes x = bytes_of (payloads s) (e_payload en).
Proof.
  intros Hok Hc Hen. destruct (co_blocks _ _ Hok id en Hen) as (_ & [x Hx] & _). rewrite (co_blk_index s c Hc) in Hen.
  destruct (co_index_of _ _ _ Hok Hc) as ([Hwf _] & _). destruct (seen_store _ _ _ Hwf Hen) as (b & _ & Ho & _ & Hp & _).
  exists x. split; [|unfold bytes_of; by rewrite Hx]. exists c, b. rewrite Hp. done.
Qed.

(** ** Eviction *)

(** Only the index and the cache manager changed, and only by losing blocks. *)
Record thinner s s' : Prop := {
  th_frame : s' = s <| prefix_cache := prefix_cache s' |> <| cache_manager := cache_manager s' |>;
  th_cache : is_Some (prefix_cache s') <-> is_Some (prefix_cache s);
  th_sub : blk s' ⊆ blk s;
}.
#[global] Instance thinner_refl : Reflexive thinner.
Proof. intros s. split; [by destruct s|done|done]. Qed.
#[global] Instance thinner_trans : Transitive thinner.
Proof. intros s1 s2 s3 [F1 C1 S1] [F2 C2 S2]. split; [by rewrite F2, F1|by rewrite C2|by etrans]. Qed.
Lemma thinner_kv s s' m : thinner s s' -> thinner s (s' <| cache_manager := m |>).
Proof. intros [F C S]. split; [by rewrite F|done|done]. Qed.
Lemma thinner_size s s' : thinner s s' -> (size (blk s') <= size (blk s))%nat.
Proof. intros Ht. apply map_subseteq_size, Ht. Qed.

(** What evicting [n] blocks did. *)
Definition evicted_blocks fl s n (lb : list (nat * PrefixCacheBlock)) (r : exc (list nat)) s' : Prop :=
  co_ok fl s' /\ thinner s s' /\ size (blk s) = (length lb + size (blk s'))%nat /\
  exists c ix', prefix_cache s = Some c /\ s' = with_index s c ix' /\ evict_post unheld (fun _ => 1) n 0 (the_index c) [] r ix'.

Lemma gone_thinner s c ix' lb : prefix_cache s = Some c -> gone (the_index c) lb ix' -> thinner s (with_index s c ix').
Proof.
  intros Hc [_ _ Hsub _]. split; [by destruct s|cbn; split; eauto|]. by rewrite (co_blk_index s c Hc).
Qed.
Lemma gone_ok fl s c ix' lb : co_ok fl s -> prefix_cache s = Some c -> client_step (the_index c) ix' -> gone (the_index c) lb ix' ->
  co_ok fl (with_index s c ix').
Proof.
  intros Hok Hc Hst Hg. pose proof (co_refs _ _ Hok) as Hr. destruct fl as [refs res ent]. cbn in Hr.
  pose proof (gone_sub _ _ _ Hg) as Hsub. rewrite (co_blk_index s c Hc) in Hr.
  apply (co_index_moved s c ix' refs refs res ent); try done; rewrite ?(co_blk_index s c Hc).
  - intros id en' Hen'. exists en'. split; [by eapply lookup_weaken|done].
  - split.
    + intros id en Hen. apply (proj1 Hr id). by eapply lookup_weaken.
    + rewrite Forall_forall. intros o Ho. destruct (proj1 (Forall_forall _ _) (proj2 Hr) o Ho) as (id & en & Hen & <-).
      exists id, en. split; [|done]. eapply gone_rest; [done..|]. rewrite (proj1 Hr id en Hen).
      apply list_elem_of_In, (count_occ_In Nat.eq_dec) in Ho. lia.
  - by apply map_subseteq_size.
  - unfold live_bytes, block_bytes. rewrite (co_blk_index s c Hc), (gone_sum _ _ _ (fun en => bytes_of (payloads s) (e_payload en)) Hg).
    enough (0 <= sumZ ((fun ob => bytes_of (payloads s) (e_payload (entry_of ob))) <$> lb)) by lia.
    apply sumZ_nonneg, Forall_fmap, Forall_forall. intros [o b] Hob. destruct (gone_each _ _ _ Hg o b Hob) as [Hgb _].
    apply (co_blocks _ _ Hok (stable_block_id b)). by rewrite (co_blk_index s c Hc), lookup_seen, Hgb.
Qed.
Lemma evict_until_ok fl s n : co_ok fl s -> is_Some (prefix_cache s) ->
  wp (on_prefix (evict_until_freeable n)) (fun r s' => exists lb, r = Ok lb.*1 /\ evicted_blocks fl s n lb r s' /\
    exists xs, Forall2 (has_payload s') lb.*1 xs) s.
Proof.
  intros Hok [c Hc]. destruct (co_index_of _ _ _ Hok Hc) as (Hinv & _). eapply co_wp_on_prefix; [done|].
  eapply wp_mono; [apply evict_until_weight_seen; [done|intros; lia]|]. cbv beta.
  intros r ix' (lb & -> & (Hst & Hstore & Hg) & Hpost). exists lb. split; [done|]. split.
  - split_and!; [by eapply gone_ok|by eapply gone_thinner| |by exists c, ix'].
    rewrite (co_blk_index s c Hc), co_blk_with_index. by apply gone_size.
  - assert (forall o b, (o, b) ∈ lb -> exists x, has_payload (with_index s c ix') o x) as Hall.
    { intros o b Hob. destruct (gone_each _ _ _ Hg o b Hob) as [Hgb _].
      assert (blk s !! stable_block_id b = Some (entry_of (o, b))) as Hen by (by rewrite (co_blk_index s c Hc), lookup_seen, Hgb).
      destruct (entry_payload _ _ _ _ _ Hok Hc Hen) as (x & (c' & b' & Hc' & Hb' & Hx) & _). assert (c' = c) as -> by congruence.
      exists x, (c <| the_index := ix' |>), b'. split_and!; [done|cbn; by rewrite Hstore|done]. }
    clear -Hall. induction lb as [|[o b] lb IH]; [exists []; constructor|].
    destruct (Hall o b ltac:(by left)) as [x Hx]. destruct IH as [xs Hxs]; [intros o' b' Hin; apply (Hall o' b'); by right|].
    exists (x :: xs). by constructor.
Qed.
(** Evicting and freeing what was evicted. *)
Lemma evict_free_ok fl s n : co_ok fl s -> is_Some (prefix_cache s) ->
  wp (os ← on_prefix (evict_until_freeable n); free_blocks os ;; mret os) (fun r s' => co_ok fl s' /\ thinner s s' /\
    exists os, (r = Ok os \/ ~ frees_return /\ exists e, r = Raise e) /\ size (blk s) = (length os + size (blk s'))%nat) s.
Proof.
  intros Hok Hc. apply wp_bind. eapply wp_mono; [by apply evict_until_ok|]. cbv beta.
  intros r s1 (lb & -> & (Hok1 & Hth & Hsz & _) & xs & Hxs). apply wp_bind.
  pose proof (free_blocks_frame lb.*1 s1) as Hfr. pose proof (fun Hf => free_blocks_returns lb.*1 xs s1 Hf Hxs) as Hret. unfold wp in *.
  destruct (free_blocks lb.*1 s1) as [r s2]. destruct Hfr as [m Hm]. cbn in *. subst s2.
  assert (co_ok fl (s1 <| cache_manager := m |>) /\ thinner s (s1 <| cache_manager := m |>)) as [Hok2 Hth2].
  { split; [by apply ok_kv|by apply thinner_kv]. }
  destruct r as [[]|e]; cbn; (split; [done|]; split; [done|]; exists lb.*1; rewrite length_fmap; split; [|exact Hsz]); [by left|].
  right. split; [|eauto]. intros Hf. by discriminate (Hret Hf).
Qed.

(** ** The limits *)

Lemma values_payloads fl s c : co_ok fl s -> prefix_cache s = Some c -> exists xs,
  Forall2 (has_payload s) (values (blocks (the_index c))) xs /\ sumZ (recurrent_bytes <$> xs) = live_bytes s.
Proof.
  intros Hok Hc. destruct (co_index_of _ _ _ Hok Hc) as ([Hwf _] & _). set (ix := the_index c) in *.
  set (g := fun o => match store ix !! o with Some b => bytes_of (payloads s) (payload b) | None => 0 end).
  assert (forall id en, seen ix !! id = Some en -> g (e_obj en) = bytes_of (payloads s) (e_payload en)) as Hg.
  { intros id en Hen. destruct (seen_store _ _ _ Hwf Hen) as (b & _ & Ho & _ & Hp & _). unfold g. by rewrite Ho, Hp. }
  assert (forall o, o ∈ values (blocks ix) -> exists x, has_payload s o x /\ recurrent_bytes x = g o) as Hall.
  { intros o Ho. unfold values in Ho. apply list_elem_of_fmap in Ho as ([id o'] & -> & Hio). cbn.
    apply (dict_elem_of_items _ _ _ (iwf_dict ix Hwf)) in Hio. destruct (iwf_store ix Hwf id o' Hio) as (b & Hb & Hid).
    assert (blk s !! id = Some (entry_of (o', b))) as Hen by (rewrite (co_blk_index s c Hc), lookup_seen; unfold get_block; fold ix; by rewrite Hio, Hb).
    destruct (entry_payload _ _ _ _ _ Hok Hc Hen) as (x & Hx & Hbx). exists x. split; [done|]. rewrite Hbx. unfold g. by rewrite Hb. }
  assert (exists xs, Forall2 (has_payload s) (values (blocks ix)) xs /\ recurrent_bytes <$> xs = g <$> values (blocks ix)) as (xs & Hxs & Hsum).
  { clear -Hall. induction (values (blocks ix)) as [|o os IH]; [exists []; split; [constructor|done]|].
    destruct (Hall o ltac:(by left)) as (x & Hx & Hb). destruct IH as (xs & Hxs & Hs); [intros; apply Hall; by right|].
    exists (x :: xs). split; [by constructor|]. cbn. by rewrite Hb, Hs. }
  exists xs. split; [done|]. rewrite Hsum, (values_seen ix (fun en => bytes_of (payloads s) (e_payload en)) g Hwf Hg).
  unfold live_bytes. by rewrite (co_blk_index s c Hc).
Qed.
Lemma live_bytes_run fl s : co_ok fl s -> is_Some (prefix_cache s) -> live_recurrent_bytes s = (Ok (live_bytes s), s).
Proof.
  intros Hok [c Hc]. destruct (values_payloads _ _ _ Hok Hc) as (xs & Hxs & Hsum). pose proof (payloads_of_run _ _ _ Hxs) as Hrun.
  assert (wp live_recurrent_bytes (fun r s' => r = Ok (live_bytes s) /\ s' = s) s) as Hw.
  { unfold live_recurrent_bytes. apply wp_bind, wp_require; [by rewrite Hc|]. intros _. apply wp_bind, wp_prefix_read; [|by rewrite Hc].
    intros c' Hc'. assert (c' = c) as -> by congruence. apply wp_bind. unfold wp at 1. rewrite Hrun. cbn. apply wp_ret. by rewrite Hsum. }
  unfold wp in Hw. destruct (live_recurrent_bytes s) as [r s']. cbn in Hw. by destruct Hw as [-> ->].
Qed.

(** What making room for a block ends in. *)
Definition made_room fl s (enough : Co -> Prop) (r : exc bool) s' : Prop :=
  co_ok fl s' /\ thinner s s' /\ (r = Ok true -> enough s') /\ (frees_return -> is_ok r = true).

Lemma evict_bytes_ok fl fuel n s : co_ok fl s -> is_Some (prefix_cache s) -> (size (blk s) < fuel)%nat ->
  wp (evict_bytes fuel n) (made_room fl s (fun s' => live_bytes s' + pending_recurrent_bytes s' + n <= max_recurrent_bytes s')) s.
Proof.
  revert s. induction fuel as [|fuel IH]; intros s Hok Hc Hf; [lia|]. cbn [evict_bytes].
  apply wp_bind. unfold wp at 1. rewrite (live_bytes_run _ _ Hok Hc). cbn [fst snd]. apply wp_bind, wp_read. cbv beta iota. unfold id.
  apply wp_if; intros Hroom; bool_to_prop; [by apply wp_ret|].
  pose proof (evict_free_ok fl s 1 Hok Hc) as Hev. apply wp_bind_inv in Hev. apply wp_bind.
  pose proof (evict_until_ok fl s 1 Hok Hc) as Hun. eapply wp_mono; [exact (wp_and _ _ _ _ Hev Hun)|]. cbv beta.
  intros r s1 [Hw (lb & -> & (Hok1 & Hth1 & Hsz1 & _) & _)]. apply wp_if; intros Hemp; bool_to_prop.
  { apply wp_ret. split_and!; done. }
  apply wp_bind. apply wp_bind_inv in Hw. eapply wp_mono; [exact Hw|]. cbv beta.
  intros [[]|e] s2.
  - intros (Hok2 & Hth2 & os & Heq & Hsz). unfold mret, Act_ret in *. cbn in Hok2, Hth2, Heq, Hsz.
    destruct Heq as [[= <-]|(_ & e & [=])]. rewrite length_fmap in Hsz. assert (length lb <> 0%nat) by (destruct lb; [done|cbn; lia]).
    eapply wp_mono; [apply IH; [done|by apply Hth2|]|].
    + lia.
    + cbv beta. intros r s' (Hok' & Hth' & He & Hr). split_and!; [done|by etrans|done|done].
  - intros (Hok2 & Hth2 & os & Hr & _). split_and!; [done|done|done|]. intros Hfr. by destruct Hr as [?|[? _]].
Qed.

(** Below a limit on blocks of [over] blocks more. *)
Lemma evict_over_ok fl over s : co_ok fl s -> is_Some (prefix_cache s) ->
  wp (evict_over over) (made_room fl s (fun s' => Z.of_nat (size (blk s')) <= Z.of_nat (size (blk s)) - Z.max 0 over)) s.
Proof.
  intros Hok Hc. unfold evict_over. apply wp_if; intros Hov; bool_to_prop.
  { apply wp_ret. split_and!; [done|done|intros _; lia|done]. }
  pose proof (evict_free_ok fl s over Hok Hc) as Hev. apply wp_bind_inv in Hev. apply wp_bind.
  eapply wp_mono; [exact Hev|]. cbv beta. intros [os|e] s1.
  2:{ intros (? & ? & os & Hr & _). split_and!; [done|done|done|]. intros Hf. by destruct Hr as [?|[? _]]. }
  intros Hw. apply wp_bind_inv in Hw. apply wp_bind. eapply wp_mono; [exact Hw|]. cbv beta. intros [[]|e] s2.
  - intros (Hok2 & Hth2 & os' & Heq & Hsz). cbn in Hok2, Hth2, Heq, Hsz. destruct Heq as [[= <-]|(_ & e & [=])].
    apply wp_ret. split_and!; [done|done| |done]. intros [= E]. bool_to_prop. lia.
  - intros (? & ? & os' & Hr & _). split_and!; [done|done|done|]. intros Hf. by destruct Hr as [?|[? _]].
Qed.

Lemma ledger_size l s : ledger l s -> size (pending_block_ids s) = length l.
Proof.
  intros [Hnd Hids _ _]. replace (pending_block_ids s) with (list_to_set (C := gset bytes) l.*1).
  - by rewrite size_list_to_set, length_fmap by done.
  - apply leibniz_equiv. intros id. by rewrite elem_of_list_to_set, Hids.
Qed.

(** There is room for one block more, with a snapshot of [n] bytes. *)
Definition room_for fl n s : Prop := 0 <= n /\
  (forall m, cc_max_blocks (co_config s) = Some m -> Z.of_nat (size (blk s)) + Z.of_nat (length (reserved fl ++ waiting s)) + 1 <= m) /\
  live_bytes s + total (reserved fl ++ waiting s) + n <= Z.max 0 (max_recurrent_bytes s).
(** The guards of [_evict_for_insert]. *)
Definition fits s n : Prop := 0 <= n <= max_recurrent_bytes s.

Lemma total_cons (r : Reservation) l : total (r :: l) = r.2 + total l.
Proof. done. Qed.
Lemma total_app l1 l2 : total (l1 ++ l2) = total l1 + total l2.
Proof. unfold total. by rewrite fmap_app, sumZ_app. Qed.
Lemma total_nonneg l : Forall (fun r : Reservation => 0 <= r.2) l -> 0 <= total l.
Proof. intros Hl. unfold total. by apply sumZ_nonneg, Forall_fmap. Qed.
Lemma thinner_parts s s' : thinner s s' -> waiting s' = waiting s /\ co_config s' = co_config s /\ runtime_states s' = runtime_states s /\
  pending_block_ids s' = pending_block_ids s /\ pending_recurrent_bytes s' = pending_recurrent_bytes s /\ holders s' = holders s.
Proof. intros [-> _ _]. done. Qed.

Lemma co_evict_for_insert_ok fl n s : co_ok fl s -> is_Some (prefix_cache s) ->
  wp (evict_for_insert 1 n) (fun r s' => co_ok fl s' /\ thinner s s' /\ (r = Ok true -> room_for fl n s') /\
    (frees_return -> fits s n -> is_ok r = true)) s.
Proof.
  intros Hok [c Hc]. destruct (co_index_of _ _ _ Hok Hc) as (Hinv & Hcf & _). unfold evict_for_insert, fits. apply wp_bind, wp_read. cbv beta iota.
  apply wp_bind, wp_guard; intros Hn0; bool_to_prop; [split_and!; [done..|]; unfold id in *; lia|].
  apply wp_bind, wp_guard; intros Hn1; bool_to_prop; [split_and!; [done..|]; unfold id in *; lia|].
  apply wp_bind, wp_require; [by rewrite Hc|]. intros _. apply wp_bind, wp_prefix_read; [|by rewrite Hc].
  intros c' Hc'. assert (c' = c) as -> by congruence. clear Hc'. unfold id in *.
  rewrite Hcf, (live_seen _ (proj1 Hinv)), <- (co_blk_index s c Hc), (ledger_size _ _ (co_ledger _ _ Hok)). cbn [max_blocks].
  apply wp_bind. eapply wp_mono; [apply (evict_over_ok fl); eauto|]. cbv beta. intros [ok|e] s1 (Hok1 & Hth1 & Hroom1 & Hret1); [|split_and!; [done..|intros [=]|auto]].
  apply wp_if; intros Hng; bool_to_prop; subst ok.
  { apply wp_ret. split_and!; [done|done|done|done]. }
  specialize (Hroom1 eq_refl). destruct (th_cache _ _ Hth1) as [_ Hc1]. destruct (Hc1 ltac:(eauto)) as [c1 Hc1'].
  destruct (co_index_of _ _ _ Hok1 Hc1') as (Hinv1 & _).
  apply wp_bind, wp_prefix_read; [|by rewrite Hc1']. intros c' Hc'. assert (c' = c1) as -> by congruence.
  eapply wp_mono; [apply (evict_bytes_ok fl); [done|eauto|]|].
  { pose proof (live_seen _ (proj1 Hinv1)) as Hl. unfold live in Hl. rewrite (co_blk_index s1 c1 Hc1'). lia. }
  cbv beta. intros r s2 (Hok2 & Hth2 & Hb & Hret2). split_and!; [done|by etrans| |auto].
  intros Hr. specialize (Hb Hr). split; [lia|]. destruct (thinner_parts _ _ Hth2) as (Hw2 & Hcf2 & _). destruct (thinner_parts _ _ Hth1) as (Hw1 & Hcf1 & _).
  split.
  - intros m Hm. rewrite Hcf2, Hcf1 in Hm. rewrite Hm in Hroom1. pose proof (thinner_size _ _ Hth2). rewrite Hw2, Hw1. rewrite !length_app in Hroom1. rewrite length_app. lia.
  - pose proof (co_ledger _ _ Hok2) as [_ _ Hsum Hnn]. rewrite Hsum, total_app in Hb.
    apply Forall_app in Hnn as [Hnn _]. pose proof (total_nonneg _ Hnn). lia.
Qed.

(** ** Reservations *)

Lemma ledger_perm l l' s : l ≡ₚ l' -> ledger l s -> ledger l' s.
Proof.
  intros Hp [Hnd Hids Hsum Hnn]. split.
  - by rewrite <- Hp.
  - intros id. by rewrite <- Hp.
  - rewrite Hsum. unfold total. by rewrite Hp.
  - by rewrite <- Hp.
Qed.
Lemma roomy_perm l l' s : l ≡ₚ l' -> roomy l s -> roomy l' s.
Proof.
  intros Hp [R1 R2 R3]. split.
  - intros id Hid. apply R1. by rewrite Hp.
  - intros m. rewrite <- Hp. apply R2.
  - unfold total in *. by rewrite <- Hp.
Qed.

Definition reserving s s' : Prop :=
  s' = s <| prefix_cache := prefix_cache s' |> <| cache_manager := cache_manager s' |>
         <| pending_block_ids := pending_block_ids s' |> <| pending_recurrent_bytes := pending_recurrent_bytes s' |> /\
  (is_Some (prefix_cache s') <-> is_Some (prefix_cache s)) /\ blk s' ⊆ blk s.

Lemma thinner_reserving s s' : thinner s s' -> reserving s s'.
Proof. intros Hth. destruct (thinner_parts _ _ Hth) as (_ & _ & _ & Hi & Hb & _). destruct Hth as [F C S]. split_and!; [|done|done]. rewrite Hi, Hb. rewrite F at 1. by destruct s. Qed.

Lemma reserve_ok refs res ent s id n : co_ok (mkFlight refs res ent) s -> is_Some (prefix_cache s) -> blk s !! id = None ->
  wp (reserve_pending_block id n) (fun r s' => reserving s s' /\
    match r with Ok true => co_ok (mkFlight refs ((id, n) :: res) ent) s' | _ => co_ok (mkFlight refs res ent) s' end /\
    (frees_return -> fits s n -> is_ok r = true)) s.
Proof.
  intros Hok Hc Hid. unfold reserve_pending_block. apply wp_bind, wp_read. cbv beta iota. unfold Datatypes.id.
  apply wp_if; intros Hin; bool_to_prop.
  { apply wp_ret. split_and!; [apply thinner_reserving; reflexivity|done|done]. }
  apply wp_bind. eapply wp_mono; [by apply (co_evict_for_insert_ok (mkFlight refs res ent))|]. cbv beta. intros [ok|e] s1 (Hok1 & Hth & Hroom & Hret).
  2:{ split_and!; [by apply thinner_reserving|done|done]. }
  apply wp_if; intros Hng; bool_to_prop; subst ok.
  { apply wp_ret. split_and!; [by apply thinner_reserving|done|done]. }
  destruct (Hroom eq_refl) as (Hn & Hm & Hby). destruct (thinner_parts _ _ Hth) as (_ & _ & _ & Hids & _).
  assert (blk s1 !! id = None) as Hid1 by (by eapply lookup_weaken_None; [|apply Hth]).
  apply wp_bind, wp_modify, wp_ret. set (s2 := s1 <| pending_block_ids ::= _ |> <| pending_recurrent_bytes ::= _ |>).
  split_and!; [|destruct Hok1 as [Hix Hb Hr [L1 L2 L3 L4] [R1 R2 R3]]|done].
  - destruct (thinner_reserving _ _ Hth) as (F & C & S). split_and!; [|done|done]. unfold s2. rewrite F at 1. by destruct s.
  - cbn [extra_refs reserved entered] in *. assert (id ∉ (ent ++ res ++ waiting s1).*1) as Hnew by (by rewrite <- L2, Hids).
    split; cbn [extra_refs reserved entered]; try done.
    + apply (ledger_perm ((id, n) :: ent ++ res ++ waiting s1)); [change (waiting s2) with (waiting s1); solve_Permutation|]. split.
      * cbn. by constructor.
      * intros id'. cbn. rewrite elem_of_union, elem_of_singleton, L2, elem_of_cons. done.
      * rewrite total_cons. cbn. rewrite L3. lia.
      * by constructor.
    + change (waiting s2) with (waiting s1). split.
      * intros id' Hid'. apply elem_of_cons in Hid' as [->|Hid']; [done|]. by apply R1.
      * intros m _ Hm'. specialize (Hm m Hm'). cbn in *. change (blk s2) with (blk s1). lia.
      * change (live_bytes s2) with (live_bytes s1). change (max_recurrent_bytes s2) with (max_recurrent_bytes s1).
        change (((id, n) :: res) ++ waiting s1) with ((id, n) :: (res ++ waiting s1)). rewrite total_cons. cbn [snd]. lia.
Qed.

(** Giving a reservation back. *)
Definition unreserved s s' : Prop :=
  s' = s <| pending_block_ids := pending_block_ids s' |> <| pending_recurrent_bytes := pending_recurrent_bytes s' |>.
Lemma release_ledger l s id n : ledger ((id, n) :: l) s ->
  wp (release_pending_reservation id n) (fun r s' => r = Ok tt /\ unreserved s s' /\ ledger l s') s.
Proof.
  intros [Hnd Hids Hsum Hnn]. apply NoDup_cons in Hnd as [Hni Hnd]. apply Forall_cons in Hnn as [Hn Hnn]. rewrite total_cons in Hsum. cbn in *.
  unfold release_pending_reservation. apply wp_bind, wp_read. cbv beta iota. unfold Datatypes.id.
  apply wp_bind, wp_guard; intros Hg; bool_to_prop; [destruct Hg; apply Hids; by left|].
  apply wp_bind, wp_modify. cbv beta iota. apply wp_bind, wp_read. cbv beta iota. pose proof (total_nonneg _ Hnn).
  apply wp_guard; intros Hneg; cbn in Hneg; bool_to_prop; [lia|]. split; [done|]. split; [by destruct s|]. split; cbn; try done; [|lia].
  intros id'. rewrite elem_of_difference, elem_of_singleton, Hids, elem_of_cons. split; [by intros [[?|?] ?]|].
  intros Hin. split; [by right|]. by intros ->.
Qed.
Lemma unreserved_parts s s' : unreserved s s' -> index_ok s' = index_ok s /\ blk s' = blk s /\ payloads s' = payloads s /\
  holders s' = holders s /\ waiting s' = waiting s /\ live_bytes s' = live_bytes s /\ max_recurrent_bytes s' = max_recurrent_bytes s /\
  co_config s' = co_config s /\ prefix_cache s' = prefix_cache s.
Proof. by intros ->. Qed.
Lemma unreserved_room l s s' : unreserved s s' -> roomy l s -> roomy l s'.
Proof. intros Hu [R1 R2 R3]. rewrite Hu. by split. Qed.
Lemma roomy_less r l s : 0 <= r.2 -> roomy (r :: l) s -> roomy l s.
Proof.
  intros Hr [R1 R2 R3]. split.
  - intros id Hid. apply R1. by right.
  - intros m Hc Hm. specialize (R2 m Hc Hm). cbn in R2. lia.
  - rewrite total_cons in R3. lia.
Qed.
Lemma unreserve_ok refs res ent s id n : co_ok (mkFlight refs ((id, n) :: res) ent) s ->
  wp (release_pending_reservation id n) (fun r s' => r = Ok tt /\ unreserved s s' /\ co_ok (mkFlight refs res ent) s') s.
Proof.
  intros [Hix Hb Hr L R]. cbn in *.
  apply (ledger_perm _ ((id, n) :: ent ++ res ++ waiting s)) in L; [|solve_Permutation]. pose proof (ld_nonneg _ _ L) as Hnn.
  apply Forall_cons in Hnn as [Hn _]. eapply wp_mono; [by apply release_ledger|]. cbv beta. intros r s' (-> & Hu & L'). split; [done|]. split; [done|].
  destruct (unreserved_parts _ _ Hu) as (E1 & E2 & E3 & E4 & E5 & _). split; cbn; rewrite ?E1, ?E2, ?E3, ?E4, ?E5; try done.
  eapply unreserved_room; [done|]. by eapply (roomy_less (id, n)).
Qed.
Lemma unenter_ok refs res ent s id n : co_ok (mkFlight refs res ((id, n) :: ent)) s ->
  wp (release_pending_reservation id n) (fun r s' => r = Ok tt /\ unreserved s s' /\ co_ok (mkFlight refs res ent) s') s.
Proof.
  intros [Hix Hb Hr L R]. cbn in *. eapply wp_mono; [by apply release_ledger|]. cbv beta. intros r s' (-> & Hu & L'). split; [done|]. split; [done|].
  destruct (unreserved_parts _ _ Hu) as (E1 & E2 & E3 & E4 & E5 & _). split; cbn; rewrite ?E1, ?E2, ?E3, ?E4, ?E5; try done. by eapply unreserved_room.
Qed.

(** Giving back the reservations of blocks that will not be committed. *)
Lemma release_pending_all refs res ent s (ps : list Pending) : co_ok (mkFlight refs ((reservation_of <$> ps) ++ res) ent) s ->
  wp (for_each ps release_pending) (fun r s' => r = Ok tt /\ unreserved s s' /\ co_ok (mkFlight refs res ent) s') s.
Proof.
  revert s. induction ps as [|p ps IH]; intros s Hok; cbn [for_each].
  - apply wp_ret. split; [done|]. split; [by destruct s|done].
  - apply wp_bind. unfold release_pending, free_prefix_recurrent_payload. apply wp_bind, wp_ret. eapply wp_mono; [apply unreserve_ok, Hok|].
    cbv beta. intros r s1 (-> & Hu & Hok1). eapply wp_mono; [by apply IH|]. cbv beta. intros r s2 (-> & Hu2 & Hok2). split; [done|]. split; [|done].
    unfold unreserved in *. by rewrite Hu2, Hu.
Qed.

(** The order of what is in flight does not matter. *)
Lemma co_ok_perm refs res ent refs' res' ent' s : refs ≡ₚ refs' -> res ≡ₚ res' -> ent ≡ₚ ent' ->
  co_ok (mkFlight refs res ent) s -> co_ok (mkFlight refs' res' ent') s.
Proof.
  intros Hp1 Hp2 Hp3 [Hix Hb Hr L R]. split; cbn in *; try done.
  - eapply counted_perm; [|exact Hr]. by rewrite Hp1.
  - eapply ledger_perm; [|exact L]. by rewrite Hp2, Hp3.
  - eapply roomy_perm; [|exact R]. by rewrite Hp2.
Qed.

(** ** References *)

Lemma co_acquire_ok refs res ent s o : co_ok (mkFlight refs res ent) s -> indexed_object (blk s) o ->
  wp (on_prefix (acquire_block_ref o)) (fun r s' => r = Ok tt /\ co_ok (mkFlight (o :: refs) res ent) s' /\
    exists c ix', prefix_cache s = Some c /\ s' = with_index s c ix' /\ same_but_refs (blk s) (blk s')) s.
Proof.
  intros Hok Ho. destruct (prefix_cache s) as [c|] eqn:Hc; [|destruct Ho as (? & ? & Hen & _); unfold blk in Hen; by rewrite Hc in Hen].
  destruct (co_index_of _ _ _ Hok Hc) as (Hinv & _). pose proof (co_refs _ _ Hok) as Hr. rewrite (co_blk_index s c Hc) in *.
  eapply co_wp_on_prefix; [done|].
  pose proof (acquire_all_index [o] _ (the_index c) Hinv Hr ltac:(by constructor)) as Hw. cbn [for_each] in Hw.
  apply wp_bind_inv in Hw. eapply wp_mono; [exact Hw|]. cbv beta. intros [[]|e] ix'; [|by intros [? _]].
  intros [_ Hres]. cbn in Hres. split; [done|]. split; [eapply same_refs_moved; [exact Hok|done|exact Hres]|].
  exists c, ix'. split_and!; [done..|]. apply Hres.
Qed.
Lemma release_refs_ok refs res ent s msg os : co_ok (mkFlight (os ++ refs) res ent) s -> is_Some (prefix_cache s) ->
  wp (for_each os (fun o => on_prefix (release_block_ref o msg))) (fun r s' => r = Ok tt /\ co_ok (mkFlight refs res ent) s' /\
    exists c ix', prefix_cache s = Some c /\ s' = with_index s c ix' /\ same_but_refs (blk s) (blk s')) s.
Proof.
  revert s. induction os as [|o os IH]; intros s Hok [c Hc]; cbn [for_each].
  - apply wp_ret. split; [done|]. split; [done|]. exists c, (the_index c). rewrite with_index_same by done. done.
  - destruct (co_index_of _ _ _ Hok Hc) as (Hinv & _). pose proof (co_refs _ _ Hok) as Hr. cbn in Hr. rewrite (co_blk_index s c Hc) in *.
    apply wp_bind. eapply co_wp_on_prefix; [done|].
    pose proof (release_all_index msg [o] _ (the_index c) Hinv Hr) as Hw. cbn [for_each] in Hw. apply wp_bind_inv in Hw.
    eapply wp_mono; [exact Hw|]. cbv beta. intros [[]|e] ix'; [|by intros [? _]]. intros [_ Hres]. cbn in Hres. rewrite <- app_assoc in Hres.
    assert (co_ok (mkFlight (os ++ refs) res ent) (with_index s c ix')) as Hok1.
    { eapply same_refs_moved; [exact Hok|done|]. cbn. by rewrite <- app_assoc. }
    eapply wp_mono; [apply IH; [exact Hok1|eauto]|]. cbv beta. intros r s' (-> & Hok' & c' & ix2 & [= <-] & -> & Hsame).
    split; [done|]. split; [done|]. exists c, ix2. split_and!; [done..|]. rewrite co_blk_with_index in *. etrans; [apply Hres|done].
Qed.
Lemma acquire_refs_ok refs res ent s os : co_ok (mkFlight refs res ent) s -> is_Some (prefix_cache s) -> Forall (indexed_object (blk s)) os ->
  wp (for_each os (fun o => on_prefix (acquire_block_ref o))) (fun r s' => r = Ok tt /\ co_ok (mkFlight (os ++ refs) res ent) s' /\
    exists c ix', prefix_cache s = Some c /\ s' = with_index s c ix' /\ same_but_refs (blk s) (blk s')) s.
Proof.
  revert refs s. induction os as [|o os IH]; intros refs s Hok [c Hc] Hf; cbn [for_each].
  - apply wp_ret. split; [done|]. split; [done|]. exists c, (the_index c). rewrite with_index_same by done. done.
  - apply Forall_cons in Hf as [Ho Hf]. apply wp_bind. eapply wp_mono; [by apply co_acquire_ok|]. cbv beta.
    intros r s1 (-> & Hok1 & c' & ix' & Hc' & -> & Hsame). assert (c' = c) as -> by congruence.
    eapply wp_mono; [apply (IH (o :: refs)); [exact Hok1|eauto|]|].
    + eapply Forall_impl; [exact Hf|]. intros o'. by apply same_but_refs_indexed.
    + cbv beta. intros r s' (-> & Hok' & c2 & ix2 & [= <-] & -> & Hsame2). split; [done|]. split.
      * eapply co_ok_perm; [..|exact Hok']; [solve_Permutation|done..].
      * exists c, ix2. split_and!; [done..|]. by etrans.
Qed.
End moves.
