(* ===== verification/CoordinatorRecord.v ===== *)
(** * The prefix cache coordinator: recording full blocks

    [record_step_tokens]: the tokens of a step cut into blocks, each found in
    the index, reserved for this request, noted as reserved by another, or
    refused, which none is while there is room. *)

From stdpp Require Import base gmap list strings.
From Stdlib Require Import ZArith Lia.
From S2P Require Import Prelude PyDict PyBytes Sha256 RoutingMembership RadixTree RadixForest PrefixHash.
From S2P Require Import PrefixIndex PrefixIndexFacts PrefixCapacity PrefixTransfer PrefixEviction PrefixFreeable SlotRanges PrefixClient PrefixRefs.
From S2P Require Import SamplingParams Sequence PrefixLookup RecurrentRows PrefixCoordinator CoordinatorInvariant CoordinatorMoves.

Section record.
Context {DType Device Content Event : Type} `{TorchTypes DType Device Content Event}.
Context {M K : Type} `{PrefixKV M K} `{Digest}.
#[local] Abbreviation Co := (@PrefixCacheCoordinator DType Device Content Event M K).
#[local] Abbreviation CoAct := (Act PyExn Co).
#[local] Abbreviation Index := (RadixPrefixIndex RadixTreeBackend).
#[local] Abbreviation Pending := (@PendingMixedPrefixBlock DType Device Content K).
#[local] Abbreviation Payload := (@MixedPrefixBlockPayload DType Device Content K).
Implicit Types (s : Co) (q : Sequence) (sid : Z) (o : nat) (fl : Flight) (p : Pending) (st : MixedPrefixRuntimeState).

(** ** Holding a block *)

(** The request holds the block [id]. *)
Definition held_id s sid (id : bytes) : Prop := exists en, blk s !! id = Some en /\ e_obj en ∈ held_blocks s sid.
Definition keeps_held s s' : Prop := forall sid id, held_id s sid id -> held_id s' sid id.
#[global] Instance keeps_held_refl : Reflexive keeps_held.
Proof. by intros s sid id. Qed.
#[global] Instance keeps_held_trans : Transitive keeps_held.
Proof. intros s1 s2 s3 H1' H2' sid id Hh. by apply H2', H1'. Qed.

Lemma held_holder s sid o : o ∈ held_blocks s sid -> o ∈ holders s.
Proof. unfold held_blocks, holders. rewrite !elem_of_app. intros [Ho|Ho]; [left|right]; by eapply flat_elem. Qed.
Lemma held_indexed fl s sid o : co_ok fl s -> o ∈ held_blocks s sid -> indexed_object (blk s) o.
Proof.
  intros Hok Ho. apply (proj1 (Forall_forall _ _) (proj2 (co_refs _ _ Hok))). apply elem_of_app. right. by eapply held_holder.
Qed.
Lemma blk_apart fl s : co_ok fl s -> objects_apart (blk s).
Proof.
  intros Hok. destruct (prefix_cache s) as [c|] eqn:Hc; [|by unfold blk; rewrite Hc].
  rewrite (co_blk_index s c Hc). apply seen_apart. by destruct (co_index_of _ _ _ Hok Hc).
Qed.
Lemma held_refs fl s sid id en : co_ok fl s -> blk s !! id = Some en -> e_obj en ∈ held_blocks s sid -> e_refs en <> 0.
Proof.
  intros Hok Hen Ho. rewrite (proj1 (co_refs _ _ Hok) id en Hen). apply held_holder in Ho.
  assert (e_obj en ∈ extra_refs fl ++ holders s) as Hin by (apply elem_of_app; by right).
  apply list_elem_of_In, (count_occ_In Nat.eq_dec) in Hin. lia.
Qed.
(** Blocks leave the index, none that is held. *)
Lemma keeps_held_sub fl fl' s s' : co_ok fl s -> co_ok fl' s' -> blk s' ⊆ blk s -> (forall sid, held_blocks s sid ⊆ held_blocks s' sid) -> keeps_held s s'.
Proof.
  intros Hok Hok' Hsub Hh sid id (en & Hen & Ho). apply Hh in Ho.
  destruct (held_indexed _ _ _ _ Hok' Ho) as (id' & en' & Hen' & E). pose proof (lookup_weaken _ _ _ _ Hen' Hsub) as H'.
  assert (id' = id) as -> by (by apply (blk_apart _ _ Hok id' id en' en)). exists en'. split; [done|]. by rewrite E.
Qed.
Lemma keeps_held_same s s' : same_but_refs (blk s) (blk s') -> (forall sid, held_blocks s sid ⊆ held_blocks s' sid) -> keeps_held s s'.
Proof.
  intros Hs Hh sid id (en & Hen & Ho). destruct (same_but_refs_elem _ _ _ _ Hs Hen) as (en' & Hen' & E & _).
  exists en'. split; [done|]. rewrite E. by apply Hh.
Qed.

Definition holding s s' : Prop :=
  s' = s <| prefix_cache := prefix_cache s' |> <| seq_id_to_materialized_blocks := seq_id_to_materialized_blocks s' |> /\
  (is_Some (prefix_cache s') <-> is_Some (prefix_cache s)) /\ same_but_refs (blk s) (blk s') /\
  (forall sid, held_blocks s sid ⊆ held_blocks s' sid).

#[global] Instance holding_refl : Reflexive holding.
Proof. intros s. split_and!; [by destruct s|done|done|done]. Qed.
#[global] Instance holding_trans : Transitive holding.
Proof. intros s1 s2 s3 (F1 & C1 & B1 & O1) (F2 & C2 & B2 & O2). split_and!; [by rewrite F2, F1|by rewrite C2|by etrans|]. intros sid x Hx. by apply O2, O1. Qed.

Lemma held_ids_run fl s c os : co_ok fl s -> prefix_cache s = Some c -> Forall (indexed_object (blk s)) os ->
  exists ids, held_ids (the_index c) os = Ok ids /\
    forall id en, blk s !! id = Some en -> id ∈ ids -> e_obj en ∈ os.
Proof.
  intros Hok Hc. destruct (co_index_of _ _ _ Hok Hc) as ([Hwf _] & _). rewrite (co_blk_index s c Hc).
  induction os as [|o os IH]; intros Hf; cbn [held_ids]; [exists []; split; [done|]; by intros ? ? _ ?%elem_of_nil|].
  apply Forall_cons in Hf as [(id & en & Hen & <-) Hf]. destruct (IH Hf) as (ids & -> & Hids).
  destruct (seen_store _ _ _ Hwf Hen) as (b & _ & -> & Hid & _). eexists. split; [reflexivity|]. cbn. rewrite Hid.
  intros id' en' Hen' [->|Hin]%elem_of_cons; [|right; by eapply Hids]. assert (en' = en) as -> by congruence. by left.
Qed.

Lemma co_hold_ok refs res ent s sid id en : co_ok (mkFlight refs res ent) s -> blk s !! id = Some en ->
  wp (hold_materialized_ref sid (e_obj en)) (fun r s' => r = Ok tt /\ co_ok (mkFlight refs res ent) s' /\ holding s s' /\ held_id s' sid id) s.
Proof.
  intros Hok Hen. destruct (prefix_cache s) as [c|] eqn:Hc; [|unfold blk in Hen; by rewrite Hc in Hen].
  destruct (co_index_of _ _ _ Hok Hc) as ([Hwf _] & _). pose proof Hen as Hen0. rewrite (co_blk_index s c Hc) in Hen0.
  destruct (seen_store _ _ _ Hwf Hen0) as (b & Hgb & Ho & Hid & _).
  unfold hold_materialized_ref. apply wp_bind, wp_read. cbv beta iota. apply wp_bind.
  assert (on_prefix (deref (e_obj en)) s = (Ok b, s)) as Hd.
  { unfold on_prefix, on_cached, on_index, deref. rewrite Hc, Ho. cbv beta iota zeta. fold (with_index s c (the_index c)). by rewrite with_index_same. }
  unfold wp at 1. rewrite Hd. cbn [fst snd]. destruct (held_ids_run _ s c (held_blocks s sid) Hok Hc) as (ids & Hids & Hin).
  { apply Forall_forall. intros o. by apply (held_indexed _ _ _ _ Hok). }
  apply wp_bind, wp_prefix_get; [|by rewrite Hc]. intros c' Hc'. assert (c' = c) as -> by congruence. unfold Datatypes.id. rewrite Hids, Hid.
  apply wp_when; intros Hm; bool_to_prop.
  - apply wp_bind, wp_require; [by rewrite Hc|]. intros _. apply wp_bind. eapply wp_mono; [apply co_acquire_ok; [exact Hok|by exists id, en]|].
    cbv beta. intros r s1 (-> & Hok1 & c1 & ix1 & Hc1 & -> & Hsame). apply wp_modify. set (s1 := with_index s c1 ix1) in *.
    set (s2 := s1 <| seq_id_to_materialized_blocks ::= _ |>).
    assert (forall sid', held_blocks s sid' ⊆ held_blocks s2 sid') as Hmono.
    { intros sid' o. unfold held_blocks, s2. cbn. rewrite !elem_of_app. intros [?|Hx]; [by left|]. right.
      destruct (decide (sid' = sid)) as [->|Hne]; [rewrite lookup_insert_eq; cbn; apply elem_of_app; by left|by rewrite lookup_insert_ne]. }
    split; [done|]. split; [|split; [split_and!; [by destruct s|cbn; split; eauto|done|done]|]].
    + destruct Hok1 as [Hix Hb Hr [L1 L2 L3 L4] [R1 R2 R3]]. split; [exact Hix|exact Hb| |by split|by split].
      eapply counted_perm; [|exact Hr]. unfold holders, s2. cbn. rewrite flat_push. solve_Permutation.
    + destruct (same_but_refs_elem _ _ _ _ Hsame Hen) as (en' & Hen' & E & _). exists en'. split; [done|]. rewrite E.
      unfold held_blocks, s2. cbn. rewrite lookup_insert_eq. cbn. rewrite !elem_of_app. right. right. by left.
  - split; [done|]. split; [done|]. assert (id ∈ ids) as Hin' by (destruct (bool_decide_reflect (id ∈ ids)); done).
    split; [split_and!; [by destruct s|done|done|done]|]. exists en. split; [done|]. by apply (Hin id).
Qed.

(** ** Adding a block *)

Definition pend s sid : list Pending := default [] (pending_blocks s !! sid).
Definition dups s sid : list bytes := default [] (pending_duplicate_refs s !! sid).

(** A cache manager none of whose calls raises. *)
Record kv_total : Prop := {
  kt_build : forall q a b (m : M), is_ok (build_prefix_kv_payload q a b m).1 = true;
  kt_nbytes : forall (k : K) m, is_ok (prefix_kv_payload_nbytes k m).1 = true;
  kt_mark : forall q (k : K) m, (mark_materialized_prefix_kv_payload q k m).1 = Ok tt;
  kt_free : frees_return;
}.
(** The request's recurrent state can be snapshot at a block boundary, with the
    declared size. *)
Definition snapshots_ok s q : Prop := forall n, 0 < n -> n mod co_block_size s = 0 ->
  exists r, (build_prefix_recurrent_payload q n (recurrent_state_manager s)).1 = Ok r /\
    prefix_recurrent_payload_nbytes (Some r) = prefix_recurrent_snapshot_nbytes (recurrent_state_manager s).
Definition declared s : Z := prefix_recurrent_snapshot_nbytes (recurrent_state_manager s).

Lemma snapshot_reads q n (m : @RecurrentStateManager DType Device Content Event) : (build_prefix_recurrent_payload q n m).2 = m.
Proof.
  unfold build_prefix_recurrent_payload. act_unfold. repeat (case_match; simplify_eq/=; try done).
Qed.

(** What recording leaves alone. *)
Record kept s s' : Prop := {
  kp_config : co_config s' = co_config s;
  kp_payloads : payloads s' = payloads s;
  kp_attached : seq_id_to_prefix_blocks s' = seq_id_to_prefix_blocks s;
  kp_rows : recurrent_state_manager s' = recurrent_state_manager s;
  kp_cache : is_Some (prefix_cache s') <-> is_Some (prefix_cache s);
  kp_held : keeps_held s s';
}.
#[global] Instance kept_refl : Reflexive kept.
Proof. by split. Qed.
#[global] Instance kept_trans : Transitive kept.
Proof. intros s1 s2 s3 [] []. split; try congruence; [by etransitivity|by etransitivity]. Qed.
Lemma kept_kv s s' m : kept s s' -> kept s (s' <| cache_manager := m |>).
Proof. by intros []. Qed.

(** The entries of other requests. *)
Definition others_same sid s s' : Prop := forall sid', sid' <> sid ->
  pend s' sid' = pend s sid' /\ dups s' sid' = dups s sid' /\ runtime_states s' !! sid' = runtime_states s !! sid'.
#[global] Instance others_same_refl sid : Reflexive (others_same sid).
Proof. by intros s sid' _. Qed.
#[global] Instance others_same_trans sid : Transitive (others_same sid).
Proof. intros s1 s2 s3 H1' H2' sid' Hne. destruct (H1' sid' Hne) as (? & ? & ?), (H2' sid' Hne) as (? & ? & ?). split_and!; congruence. Qed.

Lemma build_ok refs res ent s q st id toks n : co_ok (mkFlight refs ((id, n) :: res) ent) s ->
  wp (build_pending q st id toks n) (fun r s' => kept s s' /\ others_same (seq_id q) s s' /\
    runtime_states s' = runtime_states s /\ capacity_limited_seq_ids s' = capacity_limited_seq_ids s /\
    pending_duplicate_refs s' = pending_duplicate_refs s /\
    match r with
    | Ok _ => co_ok (mkFlight refs res ent) s' /\ exists p, pending_block_id p = id /\ pending_parent_id p = state_parent_block_id st /\
        pending_logical_idx p = next_logical_block_idx st /\ pending_token_ids p = toks /\ recurrent_bytes (pending_payload p) = n /\
        pend s' (seq_id q) = pend s (seq_id q) ++ [p]
    | Raise _ => co_ok (mkFlight refs ((id, n) :: res) ent) s' /\ pending_blocks s' = pending_blocks s
    end /\ (kv_total -> snapshots_ok s q -> 0 <= next_logical_block_idx st -> 0 < co_block_size s -> n = declared s -> is_ok r = true)) s.
Proof.
  intros Hok. unfold build_pending. apply wp_bind, wp_read. cbv beta iota. unfold Datatypes.id. cbv zeta.
  set (start := next_logical_block_idx st * co_block_size s). apply wp_bind, wp_on_kv. unfold wp at 1.
  pose proof (fun Hk : kv_total => kt_build Hk q start (start + co_block_size s) (cache_manager s)) as Hb.
  destruct (build_prefix_kv_payload q start (start + co_block_size s) (cache_manager s)) as [[kv|e] m]; cbn [fst snd] in *.
  2:{ split_and!; [by apply kept_kv|done..|by apply ok_kv|done|]. intros Hk. by specialize (Hb Hk). }
  apply wp_bind, wp_on_rows. unfold wp at 1. set (s1 := s <| cache_manager := m |>).
  pose proof (snapshot_reads q (start + co_block_size s) (recurrent_state_manager s)) as Hsame.
  assert (forall r0, kv_total -> snapshots_ok s q -> 0 <= next_logical_block_idx st -> 0 < co_block_size s -> n = declared s ->
    (build_prefix_recurrent_payload q (start + co_block_size s) (recurrent_state_manager s)).1 = r0 ->
    exists r, r0 = Ok r /\ prefix_recurrent_payload_nbytes (Some r) = n) as Hsnap.
  { intros r0 _ Hsn Hi Hbs -> <-. destruct (Hsn (start + co_block_size s)) as (r & Hr & Hby); [unfold start; nia| |by exists r].
    unfold start. rewrite <- (Z.mul_1_l (co_block_size s)) at 2. rewrite <- Z.mul_add_distr_r. by apply Z_mod_mult. }
  change (recurrent_state_manager s1) with (recurrent_state_manager s).
  destruct (build_prefix_recurrent_payload q (start + co_block_size s) (recurrent_state_manager s)) as [r rows]. cbn [fst snd] in *. subst rows.
  assert (s1 <| recurrent_state_manager := recurrent_state_manager s |> = s1) as -> by (by destruct s).
  assert (co_ok (mkFlight refs ((id, n) :: res) ent) s1) as Hok1 by (by apply ok_kv).
  destruct r as [r|e]; cbn [fst snd].
  2:{ split_and!; [by apply kept_kv|done..|]. intros Hk Hs Hi Hbs Hn. by destruct (Hsnap _ Hk Hs Hi Hbs Hn eq_refl) as (? & ? & _). }
  apply wp_on_error. apply wp_bind, wp_guard; intros Hby.
  { unfold free_prefix_recurrent_payload. apply wp_ret. split_and!; [by apply kept_kv|done..|]. intros Hk Hs Hi Hbs Hn.
    destruct (Hsnap _ Hk Hs Hi Hbs Hn eq_refl) as (? & [= <-] & E). rewrite E, Z.eqb_refl in Hby. done. }
  apply wp_bind, wp_on_kv. unfold wp at 1. pose proof (fun Hk : kv_total => kt_nbytes Hk kv (cache_manager s1)) as Hnb.
  destruct (prefix_kv_payload_nbytes kv (cache_manager s1)) as [[k|e] m2]; cbn [fst snd] in *.
  2:{ unfold free_prefix_recurrent_payload. apply wp_ret. split_and!; [by do 2 apply kept_kv|done..|by apply ok_kv|done|].
      intros Hk. by specialize (Hnb Hk). }
  set (s2 := s1 <| cache_manager := m2 |>). apply wp_modify. set (p := mkPendingMixed _ _ _ _ _). set (s3 := s2 <| pending_blocks ::= _ |>).
  split_and!; [split; try done; by intros sid id'| |done..| | |done].
  - intros sid' Hne. unfold pend, s3. cbn. by rewrite lookup_insert_ne.
  - apply (ok_kv _ _ m2) in Hok1. fold s2 in Hok1. destruct Hok1 as [Hix Hbl Hr L R].
    assert (waiting s3 ≡ₚ (id, n) :: waiting s2) as Hw.
    { unfold waiting, s3. cbn. by rewrite flat_push. }
    split; [exact Hix|exact Hbl|exact Hr| |].
    + eapply (ledger_perm (ent ++ ((id, n) :: res) ++ waiting s2)); [cbn [reserved entered]; rewrite Hw; solve_Permutation|]. destruct L. by split.
    + eapply (roomy_perm (((id, n) :: res) ++ waiting s2)); [cbn [reserved entered]; rewrite Hw; solve_Permutation|]. destruct R. by split.
  - exists p. split_and!; [done..|]. unfold pend, s3. cbn. by rewrite lookup_insert_eq.
Qed.

Definition block_id s st (toks : list Z) : exc bytes :=
  stable_block_id_of (co_block_size s) (cc_fingerprint (co_config s)) toks (state_parent_block_id st).
Definition moved_on sid st id s s' : Prop :=
  runtime_states s' = <[sid := advanced st id]> (runtime_states s) /\ capacity_limited_seq_ids s' = capacity_limited_seq_ids s.

(** What became of a block: found in the index and held, noted as another
    request's, refused, or reserved. *)
Inductive added sid st (id : bytes) s s' : Prop :=
| added_found : held_id s' sid id -> moved_on sid st id s s' -> pend s' sid = pend s sid -> dups s' sid = dups s sid -> added sid st id s s'
| added_noted : id ∈ pending_block_ids s -> moved_on sid st id s s' -> pend s' sid = pend s sid ->
    (forall x, x ∈ dups s' sid <-> x = id \/ x ∈ dups s sid) -> added sid st id s s'
| added_refused : runtime_states s' = runtime_states s -> capacity_limited_seq_ids s' = {[sid]} ∪ capacity_limited_seq_ids s ->
    pend s' sid = pend s sid -> dups s' sid = dups s sid -> added sid st id s s'
| added_waiting p : pending_block_id p = id -> pending_parent_id p = state_parent_block_id st -> moved_on sid st id s s' ->
    pend s' sid = pend s sid ++ [p] -> dups s' sid = dups s sid -> added sid st id s s'.

(** When adding a block cannot raise. *)
Record block_ready s q st (toks : list Z) : Prop := {
  br_kv : kv_total;
  br_fits : fits s (declared s);
  br_snapshots : snapshots_ok s q;
  br_index : 0 <= next_logical_block_idx st;
  br_int64 : int64s toks = true;
  br_length : Z.of_nat (length toks) = co_block_size s;
}.

Lemma holding_kept s s' : holding s s' -> kept s s'.
Proof.
  intros (F & C & Hs & Hh). split; try by rewrite F. by apply keeps_held_same.
Qed.
Lemma holding_others s s' sid : holding s s' -> others_same sid s s' /\ pend s' sid = pend s sid /\ dups s' sid = dups s sid /\
  runtime_states s' = runtime_states s /\ capacity_limited_seq_ids s' = capacity_limited_seq_ids s.
Proof. intros (F & _). unfold others_same, pend, dups. by rewrite F. Qed.
Lemma reserving_kept fl fl' s s' : co_ok fl s -> co_ok fl' s' -> reserving s s' -> kept s s'.
Proof.
  intros Hok Hok' (F & C & Hs). split; try by rewrite F. apply (keeps_held_sub fl fl'); try done. intros sid. by rewrite F.
Qed.
Lemma reserving_others s s' sid : reserving s s' -> others_same sid s s' /\ pend s' sid = pend s sid /\ dups s' sid = dups s sid /\
  runtime_states s' = runtime_states s /\ capacity_limited_seq_ids s' = capacity_limited_seq_ids s /\ pending_blocks s' = pending_blocks s.
Proof. intros (F & _). unfold others_same, pend, dups. by rewrite F. Qed.
Lemma unreserved_kept s s' : unreserved s s' -> kept s s'.
Proof. intros F. rewrite F. split; try done. by intros sid id. Qed.
Lemma unreserved_others s s' sid : unreserved s s' -> others_same sid s s' /\ pend s' sid = pend s sid /\ dups s' sid = dups s sid /\
  runtime_states s' = runtime_states s /\ capacity_limited_seq_ids s' = capacity_limited_seq_ids s.
Proof. intros F. unfold others_same, pend, dups. by rewrite F. Qed.

Lemma set_state_kept s s' sid st : kept s s' -> kept s (s' <| runtime_states ::= <[sid := st]> |>).
Proof. intros []. by split. Qed.
Lemma set_state_others s s' sid st : others_same sid s s' -> others_same sid s (s' <| runtime_states ::= <[sid := st]> |>).
Proof. intros Ho sid' Hne. destruct (Ho sid' Hne) as (? & ? & ?). split_and!; try done. cbn. by rewrite lookup_insert_ne. Qed.

Definition block_added refs res ent s q st toks (r : exc unit) s' : Prop :=
  co_ok (mkFlight refs res ent) s' /\ kept s s' /\ others_same (seq_id q) s s' /\
  match r with
  | Ok _ => exists id, block_id s st toks = Ok id /\ added (seq_id q) st id s s'
  | Raise _ => runtime_states s' = runtime_states s /\ capacity_limited_seq_ids s' = capacity_limited_seq_ids s
  end /\ (block_ready s q st toks -> is_ok r = true).

Lemma reserve_block_ok refs res ent s q st toks id : co_ok (mkFlight refs res ent) s -> is_Some (prefix_cache s) ->
  block_id s st toks = Ok id -> blk s !! id = None ->
  wp (reserved ← reserve_pending_block id (declared s);
      if negb reserved then
        modify (fun s => s <| capacity_limited_seq_ids ::= fun x => {[seq_id q]} ∪ x |> <| skipped_capacity_blocks ::= Z.succ |>)
      else
        on_error (build_pending q st id toks (declared s)) (release_pending_reservation id (declared s)) ;;
        set_state (seq_id q) (advanced st id)) (block_added refs res ent s q st toks) s.
Proof.
  intros Hok Hc Hid Hnew. apply wp_bind. eapply wp_mono; [by apply (reserve_ok refs res ent)|]. cbv beta.
  intros [[]|e] s1 (Hrs & Hok1 & Hret); pose proof (reserving_kept _ _ _ _ Hok Hok1 Hrs) as Hk1;
    destruct (reserving_others s s1 (seq_id q) Hrs) as (Ho1 & Hp1 & Hd1 & Hst1 & Hl1 & Hpb1).
  - apply wp_if; [done|]. intros _. apply wp_bind, wp_on_error. eapply wp_mono; [exact (build_ok refs res ent s1 q st id toks _ Hok1)|]. cbv beta.
    intros r s2 (Hk2 & Ho2 & Hst2 & Hl2 & Hd2 & Hcase & Hret2).
    assert (block_ready s q st toks -> is_ok r = true) as Hready.
    { intros [R1 R2 R3 R4 R5 R6]. destruct Hc as [c Hc]. destruct (co_index_of _ _ _ Hok Hc) as (_ & _ & Hbs).
      apply Hret2; try done; unfold declared, snapshots_ok, co_block_size in *; by rewrite ?(kp_rows _ _ Hk1), ?(kp_config _ _ Hk1). }
    destruct r as [[]|e].
    + destruct Hcase as (Hok2 & p & Hpi & Hpp & _ & _ & _ & Hpend). apply wp_modify. split_and!.
      * by apply ok_states.
      * apply set_state_kept. by etrans.
      * apply set_state_others. by etrans.
      * exists id. split; [done|]. apply (added_waiting _ _ _ _ _ p); try done.
        -- split; cbn; congruence.
        -- change (pend s2 (seq_id q) = pend s (seq_id q) ++ [p]). congruence.
        -- unfold dups in *. cbn. congruence.
      * done.
    + destruct Hcase as (Hok2 & Hpb2). eapply wp_mono; [apply unreserve_ok, Hok2|]. cbv beta.
      intros r s3 (-> & Hu & Hok3). destruct (unreserved_others _ _ (seq_id q) Hu) as (Ho3 & _ & _ & Hst3 & Hl3).
      split_and!; [done| | |congruence|congruence|].
      * etrans; [exact Hk1|]. etrans; [exact Hk2|]. by apply unreserved_kept.
      * etrans; [exact Ho1|]. by etrans.
      * intros Hr. by specialize (Hready Hr).
  - apply wp_if; [|done]. intros _. apply wp_modify. split_and!.
    + eapply co_ok_ext; [..|exact Hok1]; done.
    + destruct Hk1. by split.
    + exact Ho1.
    + exists id. split; [done|]. apply added_refused; try done. cbn. by rewrite Hl1.
    + done.
  - split_and!; [done..|]. intros [R1 R2 _ _ _ _]. exact (Hret (kt_free R1) R2).
Qed.

Lemma add_block_ok refs res ent s q toks st : co_ok (mkFlight refs res ent) s -> is_Some (prefix_cache s) ->
  runtime_states s !! seq_id q = Some st -> wp (add_block q toks) (block_added refs res ent s q st toks) s.
Proof.
  intros Hok [c Hc] Hst. destruct (co_index_of _ _ _ Hok Hc) as ([Hwf _] & Hcf & _). unfold add_block. apply wp_bind, wp_read. cbv beta iota zeta. unfold Datatypes.id.
  rewrite Hst. apply wp_bind, wp_prefix_get; [|by rewrite Hc]. intros c' Hc'. assert (c' = c) as -> by congruence. clear Hc'.
  rewrite Hcf. cbn [block_size fingerprint]. fold (block_id s st toks). destruct (block_id s st toks) as [id|e] eqn:Hid.
  2:{ split_and!; [done..|]. intros [R1 R2 R3 R4 R5 R6]. destruct (stable_block_id_ok _ (cc_fingerprint (co_config s)) toks (state_parent_block_id st) R5 R6) as (m & _ & E).
      unfold block_id in Hid. rewrite E in Hid. done. }
  apply wp_bind, wp_prefix_read; [|by rewrite Hc]. intros c' Hc'. assert (c' = c) as -> by congruence. clear Hc'.
  assert (blk s !! id = entry_of <$> get_block (the_index c) id) as Hlk by (by rewrite (co_blk_index s c Hc), lookup_seen).
  destruct (get_block (the_index c) id) as [[o b]|]; cbn in Hlk.
  - apply wp_bind. eapply wp_mono; [exact (co_hold_ok refs res ent s (seq_id q) id _ Hok Hlk)|]. cbv beta.
    intros r s1 (-> & Hok1 & Hh & Hheld). destruct (holding_others _ _ (seq_id q) Hh) as (Ho1 & Hp1 & Hd1 & Hst1 & Hl1).
    apply wp_modify. split_and!; [by apply ok_states|by apply set_state_kept, holding_kept|by apply set_state_others| |done].
    exists id. split; [done|]. apply added_found; try done. split; cbn; congruence.
  - apply wp_if; intros Hin; bool_to_prop.
    + apply wp_bind, wp_modify. cbv beta iota. apply wp_modify. cbv zeta. split_and!; [| | | |done].
      * eapply co_ok_ext; [..|exact Hok]; done.
      * split; try done. by intros sid' id'.
      * intros sid' Hne. unfold pend, dups. cbn. by rewrite !lookup_insert_ne.
      * exists id. split; [done|]. apply added_noted; try done. intros x. unfold dups. cbn. rewrite lookup_insert_eq. cbn.
        case_bool_decide; [|rewrite elem_of_app, list_elem_of_singleton; tauto]. split; [by right|]. by intros [->|?].
    + apply (reserve_block_ok refs res ent s q st toks id); eauto.
Qed.

(** ** Recording when there is room *)

(** [k] blocks more fit, each with the declared snapshot, and nothing has to be
    evicted for them. *)
Record spare (k : Z) s : Prop := {
  sb_blocks : forall m, cc_max_blocks (co_config s) = Some m -> Z.of_nat (size (blk s)) + Z.of_nat (size (pending_block_ids s)) + k <= m;
  sb_bytes : live_bytes s + pending_recurrent_bytes s + k * declared s <= max_recurrent_bytes s;
}.

Lemma spare_less k k' s : k <= k' -> 0 <= declared s -> spare k' s -> spare k s.
Proof. intros Hk Hd [S1 S2]. split; [intros m Hm; specialize (S1 m Hm); lia|nia]. Qed.
Lemma spare_kept k s s' : kept s s' -> size (blk s') = size (blk s) -> live_bytes s' = live_bytes s ->
  pending_block_ids s' = pending_block_ids s -> pending_recurrent_bytes s' = pending_recurrent_bytes s -> spare k s -> spare k s'.
Proof.
  intros Hk E1 E2 E3 E4 [S1 S2]. split; unfold declared, max_recurrent_bytes in *; by rewrite ?(kp_config _ _ Hk), ?(kp_rows _ _ Hk), ?E1, ?E2, ?E3, ?E4.
Qed.

Lemma insert_spare fl n s : co_ok fl s -> is_Some (prefix_cache s) -> fits s n ->
  (forall m, cc_max_blocks (co_config s) = Some m -> Z.of_nat (size (blk s)) + Z.of_nat (size (pending_block_ids s)) + 1 <= m) ->
  live_bytes s + pending_recurrent_bytes s + n <= max_recurrent_bytes s ->
  wp (evict_for_insert 1 n) (fun r s' => r = Ok true /\ s' = s) s.
Proof.
  intros Hok [c Hc] [Hn0 Hn1] Hm Hby. destruct (co_index_of _ _ _ Hok Hc) as (Hinv & Hcf & _). unfold evict_for_insert. apply wp_bind, wp_read. cbv beta iota.
  unfold id. apply wp_bind, wp_guard; intros Hg; bool_to_prop; [lia|]. clear Hg. apply wp_bind, wp_guard; intros Hg; bool_to_prop; [lia|].
  apply wp_bind, wp_require; [by rewrite Hc|]. intros _. apply wp_bind, wp_prefix_read; [|by rewrite Hc].
  intros c' Hc'. assert (c' = c) as -> by congruence. clear Hc'. rewrite Hcf, (live_seen _ (proj1 Hinv)), <- (co_blk_index s c Hc). cbn [max_blocks].
  apply wp_bind. unfold evict_over. apply wp_if; intros Hov; bool_to_prop.
  2:{ destruct (cc_max_blocks (co_config s)) as [m|]; [specialize (Hm m eq_refl)|]; lia. }
  apply wp_ret, wp_bind, wp_prefix_read; [|by rewrite Hc]. intros c' _. cbn [evict_bytes].
  apply wp_bind. unfold wp at 1. rewrite (live_bytes_run _ _ Hok ltac:(by eexists)). cbn [fst snd]. apply wp_bind, wp_read. cbv beta iota. unfold id.
  apply wp_if; intros Hb; bool_to_prop; [by apply wp_ret|lia].
Qed.
Lemma reserve_spare fl id n s : co_ok fl s -> is_Some (prefix_cache s) -> fits s n -> id ∉ pending_block_ids s ->
  (forall m, cc_max_blocks (co_config s) = Some m -> Z.of_nat (size (blk s)) + Z.of_nat (size (pending_block_ids s)) + 1 <= m) ->
  live_bytes s + pending_recurrent_bytes s + n <= max_recurrent_bytes s ->
  wp (reserve_pending_block id n) (fun r s' => r = Ok true /\
    s' = s <| pending_block_ids ::= fun x => {[id]} ∪ x |> <| pending_recurrent_bytes ::= fun k => k + n |>) s.
Proof.
  intros Hok Hc Hf Hni Hm Hby. unfold reserve_pending_block. apply wp_bind, wp_read. cbv beta iota. unfold Datatypes.id.
  apply wp_if; intros Hin; bool_to_prop; [done|]. apply wp_bind. eapply wp_mono; [by apply (insert_spare fl)|]. cbv beta. intros r s' [-> ->]. cbn [negb].
  apply wp_bind, wp_modify, wp_ret. done.
Qed.
Lemma build_frame q st id toks n s :
  wp (build_pending q st id toks n) (fun _ s' => exists m pb, s' = s <| cache_manager := m |> <| pending_blocks := pb |>) s.
Proof.
  assert (s = s <| cache_manager := cache_manager s |> <| pending_blocks := pending_blocks s |>) as Hid by (by destruct s).
  unfold build_pending. apply wp_bind, wp_read. cbv beta iota. unfold Datatypes.id. cbv zeta. set (start := next_logical_block_idx st * co_block_size s).
  apply wp_bind, wp_on_kv. unfold wp at 1. destruct (build_prefix_kv_payload q start (start + co_block_size s) (cache_manager s)) as [[kv|e] m]; cbn [fst snd].
  2:{ exists m, (pending_blocks s). by destruct s. }
  apply wp_bind, wp_on_rows. unfold wp at 1. set (s1 := s <| cache_manager := m |>). pose proof (snapshot_reads q (start + co_block_size s) (recurrent_state_manager s1)) as Hsame.
  destruct (build_prefix_recurrent_payload q (start + co_block_size s) (recurrent_state_manager s1)) as [r rows]. cbn [fst snd] in *. subst rows.
  assert (s1 <| recurrent_state_manager := recurrent_state_manager s1 |> = s1) as -> by (by destruct s).
  destruct r as [r|e]; cbn [fst snd]; [|exists m, (pending_blocks s); by destruct s].
  apply wp_on_error, wp_bind, wp_guard; intros _; [apply wp_ret; exists m, (pending_blocks s); by destruct s|].
  apply wp_bind, wp_on_kv. unfold wp at 1. destruct (prefix_kv_payload_nbytes kv (cache_manager s1)) as [[k|e] m2]; cbn [fst snd].
  - apply wp_modify. exists m2. eexists. by destruct s.
  - apply wp_ret. exists m2, (pending_blocks s). by destruct s.
Qed.

Lemma add_block_spare q toks st k s : co_ok rest s -> is_Some (prefix_cache s) -> runtime_states s !! seq_id q = Some st ->
  fits s (declared s) -> 0 <= k -> spare (k + 1) s ->
  wp (add_block q toks) (fun r s' => is_ok r = true -> spare k s' /\ capacity_limited_seq_ids s' = capacity_limited_seq_ids s) s.
Proof.
  intros Hok [c Hc] Hst Hf Hk Hsp. pose proof (proj1 Hf) as Hd. pose proof (spare_less k (k + 1) s ltac:(lia) Hd Hsp) as Hsp0.
  unfold add_block. apply wp_bind, wp_read. cbv beta iota zeta. unfold Datatypes.id.
  rewrite Hst. apply wp_bind, wp_prefix_get; [|by rewrite Hc]. intros c' Hc'. assert (c' = c) as -> by congruence. clear Hc'.
  destruct (stable_block_id_of _ _ toks _) as [id|e]; [|done].
  apply wp_bind, wp_prefix_read; [|by rewrite Hc]. intros c' Hc'. assert (c' = c) as -> by congruence. clear Hc'.
  assert (blk s !! id = entry_of <$> get_block (the_index c) id) as Hlk by (by rewrite (co_blk_index s c Hc), lookup_seen).
  destruct (get_block (the_index c) id) as [[o b]|]; cbn in Hlk.
  - apply wp_bind. eapply wp_mono; [exact (co_hold_ok [] [] [] s (seq_id q) id _ Hok Hlk)|]. cbv beta.
    intros r s1 (-> & Hok1 & Hh & _). destruct (holding_others _ _ (seq_id q) Hh) as (_ & _ & _ & _ & Hl1).
    apply wp_modify. intros _. split; [|exact Hl1]. apply (spare_kept k s); [by apply set_state_kept, holding_kept|..|done].
    + apply same_but_refs_size, Hh.
    + change (live_bytes s1 = live_bytes s). destruct Hh as (F & _ & Hs & _). unfold live_bytes. rewrite (same_but_refs_bytes _ _ _ Hs). by rewrite F.
    + cbn. destruct Hh as (F & _). by rewrite F.
    + cbn. destruct Hh as (F & _). by rewrite F.
  - apply wp_if; intros Hin; bool_to_prop.
    + apply wp_bind, wp_modify. cbv beta iota. apply wp_modify. intros _. split; [|done]. destruct Hsp0. by split.
    + destruct Hsp as [S1 S2]. apply wp_bind. eapply wp_mono; [apply (reserve_spare rest id (declared s) s Hok ltac:(by eexists) Hf Hin)|].
      { intros m Hm. specialize (S1 m Hm). lia. }
      { nia. }
      cbv beta. intros r s1 [-> ->]. cbn [negb]. apply wp_bind, wp_on_error. eapply wp_mono; [apply build_frame|]. cbv beta.
      intros [[]|e] s2 (m & pb & ->); [|eapply wp_mono with (Q := fun _ _ => True); [done|]; by intros [[]|?] ? _].
      apply wp_modify. intros _. split; [|done]. split; cbn.
      * intros mx Hmx. specialize (S1 mx Hmx). unfold blk in *. cbn. rewrite size_union by set_solver. rewrite size_singleton. lia.
      * change (live_bytes s + (pending_recurrent_bytes s + declared s) + k * declared s <= max_recurrent_bytes s). lia.
Qed.
End record.
