(* ===== verification/CoordinatorPlan.v ===== *)
(** * The prefix cache coordinator: what a step records

    The blocks that wait during a step form a plan: taken in the order of the
    batch, the parent of each is held by its request or waits before it, and so
    does every block noted as another request's.  Recording the tokens of a
    request extends the plan and leaves the state that the tokens determine. *)

From stdpp Require Import base gmap list strings.
From Stdlib Require Import ZArith Lia.
From S2P Require Import Prelude PyDict PyBytes Sha256 RoutingMembership RadixTree RadixForest PrefixHash.
From S2P Require Import PrefixIndex PrefixIndexFacts PrefixCapacity PrefixTransfer PrefixEviction PrefixFreeable SlotRanges PrefixClient PrefixRefs.
From S2P Require Import SamplingParams Sequence PrefixLookup RecurrentRows PrefixCoordinator CoordinatorInvariant CoordinatorMoves CoordinatorRecord.

Section plan.
Context {DType Device Content Event : Type} `{TorchTypes DType Device Content Event}.
Context {M K : Type} `{PrefixKV M K} `{Digest}.
#[local] Abbreviation Co := (@PrefixCacheCoordinator DType Device Content Event M K).
#[local] Abbreviation CoAct := (Act PyExn Co).
#[local] Abbreviation Pending := (@PendingMixedPrefixBlock DType Device Content K).
Implicit Types (s : Co) (q : Sequence) (sid : Z) (o : nat) (p : Pending) (st : MixedPrefixRuntimeState) (ds : list Z) (L : list (Z * Pending)).

(** ** Plans *)

Definition pids L : list bytes := (fun xp => pending_block_id xp.2) <$> L.
(** The blocks that wait, with their requests. *)
Definition tagged s ds : list (Z * Pending) := ds ≫= fun x => (fun p => (x, p)) <$> pend s x.

(** A block that cannot leave the index, or is committed [before]. *)
Definition secure s (before : list bytes) (id : bytes) : Prop := (exists x, held_id s x id) \/ id ∈ before.
Definition parent_ready s (before : list bytes) (parent : option bytes) : Prop :=
  match parent with None => True | Some id => secure s before id end.
Fixpoint rooted s (before : list bytes) L : Prop :=
  match L with
  | [] => True
  | (_, p) :: L' => parent_ready s before (pending_parent_id p) /\ rooted s (before ++ [pending_block_id p]) L'
  end.
Definition anchored s x (parent : option bytes) : Prop :=
  match parent with
  | None => True
  | Some id => held_id s x id \/ id ∈ dups s x \/ id ∈ pending_block_id <$> pend s x
  end.
Record plan ds s : Prop := {
  pl_out : forall x, x ∉ ds -> pend s x = [] /\ dups s x = [];
  pl_rooted : rooted s [] (tagged s ds);
  pl_dups : forall i x, ds !! i = Some x -> Forall (secure s (pids (tagged s (take (S i) ds)))) (dups s x);
  pl_states : forall x st, runtime_states s !! x = Some st -> 0 <= next_logical_block_idx st /\ anchored s x (state_parent_block_id st);
}.

Lemma pids_app L1 L2 : pids (L1 ++ L2) = pids L1 ++ pids L2.
Proof. apply fmap_app. Qed.
Lemma tagged_app s ds1 ds2 : tagged s (ds1 ++ ds2) = tagged s ds1 ++ tagged s ds2.
Proof. unfold tagged. apply bind_app. Qed.
Lemma tagged_same s s' ds : (forall x, x ∈ ds -> pend s' x = pend s x) -> tagged s' ds = tagged s ds.
Proof.
  induction ds as [|x ds IH]; intros Hp; [done|]. unfold tagged in *. cbn. rewrite Hp by (by left). f_equal. apply IH. intros y Hy. apply Hp. by right.
Qed.
Lemma tagged_one s x : tagged s [x] = (fun p => (x, p)) <$> pend s x.
Proof. unfold tagged. cbn. by rewrite app_nil_r. Qed.
Lemma secure_mono s s' before before' id : keeps_held s s' -> before ⊆ before' -> secure s before id -> secure s' before' id.
Proof. intros Hk Hb [[x Hx]|Hin]; [left; exists x; by apply Hk|right; by apply Hb]. Qed.
Lemma all_secure_mono s s' before before' ids : keeps_held s s' -> before ⊆ before' -> Forall (secure s before) ids -> Forall (secure s' before') ids.
Proof. intros Hk Hb Hf. eapply Forall_impl; [exact Hf|]. intros id. by apply secure_mono. Qed.
Lemma rooted_mono s s' before L : keeps_held s s' -> rooted s before L -> rooted s' before L.
Proof.
  intros Hk. revert before. induction L as [|[x p] L IH]; intros before; [done|]. intros [Hp Hr]. split; [|by apply IH].
  unfold parent_ready in *. destruct (pending_parent_id p); [|done]. by eapply secure_mono.
Qed.
Lemma rooted_snoc s before L x p : rooted s before L -> parent_ready s (before ++ pids L) (pending_parent_id p) -> rooted s before (L ++ [(x, p)]).
Proof.
  revert before. induction L as [|[y r] L IH]; intros before; cbn [rooted app].
  - intros _ Hp. split; [|done]. unfold pids in Hp. cbn in Hp. by rewrite app_nil_r in Hp.
  - intros [Hy Hr] Hp. split; [done|]. apply IH; [done|]. unfold pids in *. cbn in Hp. by rewrite <- app_assoc.
Qed.
Lemma pids_tagged s ds x : x ∈ ds -> pending_block_id <$> pend s x ⊆ pids (tagged s ds).
Proof.
  intros Hx id Hid. apply list_elem_of_fmap in Hid as (p & -> & Hp). unfold pids. apply list_elem_of_fmap. exists (x, p). split; [done|].
  unfold tagged. apply list_elem_of_bind. exists x. split; [|done]. apply list_elem_of_fmap. eauto.
Qed.
Lemma tagged_take s ds i : pids (tagged s (take i ds)) ⊆ pids (tagged s ds).
Proof. rewrite <- (take_drop i ds) at 2. rewrite tagged_app, pids_app. intros id. rewrite elem_of_app. by left. Qed.

(** Every reserved block waits in the plan. *)
Lemma waiting_planned s ds id : co_ok rest s -> plan ds s -> id ∈ pending_block_ids s -> id ∈ pids (tagged s ds).
Proof.
  intros Hok Hpl Hid. apply (ld_ids _ _ (co_ledger _ _ Hok)) in Hid. cbn in Hid. unfold waiting in Hid. rewrite <- list_fmap_compose in Hid.
  apply list_elem_of_fmap in Hid as (p & -> & Hp). apply elem_of_flat in Hp as (x & l & Hl & Hp). cbn.
  assert (p ∈ pend s x) as Hpx by (unfold pend; by rewrite Hl). destruct (decide (x ∈ ds)) as [Hx|Hx].
  - apply (pids_tagged s ds x Hx). apply list_elem_of_fmap. eauto.
  - destruct (pl_out _ _ Hpl x Hx) as [E _]. rewrite E in Hpx. by apply elem_of_nil in Hpx.
Qed.
Lemma anchored_planned s ds sid before parent : plan (ds ++ [sid]) s -> before = pids (tagged s (ds ++ [sid])) ->
  anchored s sid parent -> parent_ready s before parent.
Proof.
  intros Hpl -> Ha. unfold anchored, parent_ready in *. destruct parent as [id|]; [|done]. destruct Ha as [?|[Hd|Hp]]; [left; by exists sid| |right].
  - pose proof (pl_dups _ _ Hpl (length ds) sid) as Hs. rewrite list_lookup_middle in Hs by done. specialize (Hs eq_refl).
    rewrite Forall_forall in Hs. eapply secure_mono; [..|exact (Hs id Hd)]; [by intros ? ?|apply tagged_take].
  - apply (pids_tagged s _ sid); [apply elem_of_app; right; by left|done].
Qed.

(** The plan after a change to its last request. *)
Lemma plan_step ds sid s s' : plan (ds ++ [sid]) s -> sid ∉ ds -> keeps_held s s' -> others_same sid s s' ->
  rooted s' [] (tagged s' (ds ++ [sid])) -> Forall (secure s' (pids (tagged s' (ds ++ [sid])))) (dups s' sid) ->
  (forall st, runtime_states s' !! sid = Some st -> 0 <= next_logical_block_idx st /\ anchored s' sid (state_parent_block_id st)) ->
  plan (ds ++ [sid]) s'.
Proof.
  intros Hpl Hn Hk Ho Hr Hd Hs. split.
  - intros x Hx. assert (x <> sid) as Hne by (intros ->; apply Hx, elem_of_app; right; by left).
    destruct (Ho x Hne) as (-> & -> & _). by apply (pl_out _ _ Hpl).
  - exact Hr.
  - intros i x Hi. destruct (decide (x = sid)) as [->|Hne].
    + assert (i = length ds) as ->.
      { apply lookup_app_Some in Hi as [Hi|[Hle Hi]]; [destruct Hn; by eapply list_elem_of_lookup_2|].
        apply list_lookup_singleton_Some in Hi as [Hi _]. lia. }
      rewrite take_ge by (rewrite length_app; cbn; lia). exact Hd.
    + destruct (Ho x Hne) as (_ & -> & _). rewrite (tagged_same s s'); [eapply all_secure_mono; [exact Hk|done|by apply (pl_dups _ _ Hpl i)]|].
      assert (i < length ds)%nat as Hlt.
      { apply lookup_app_Some in Hi as [Hi|[Hle Hi]]; [by apply lookup_lt_Some in Hi|].
        apply list_lookup_singleton_Some in Hi as [_ <-]. done. }
      rewrite take_app_le by lia. intros y Hy. apply Ho. intros ->. apply Hn. rewrite <- (take_drop (S i) ds). apply elem_of_app. by left.
  - intros x st Hst. destruct (decide (x = sid)) as [->|Hne]; [by apply Hs|]. destruct (Ho x Hne) as (E1 & E2 & E3). rewrite E3 in Hst.
    destruct (pl_states _ _ Hpl x st Hst) as [? Ha]. split; [done|]. unfold anchored in *. rewrite E1, E2. destruct (state_parent_block_id st); [|done].
    destruct Ha as [Ha|Ha]; [left; by apply Hk|by right].
Qed.

Lemma anchored_mono s s' x parent : keeps_held s s' -> dups s x ⊆ dups s' x -> pend s x ⊆ pend s' x -> anchored s x parent -> anchored s' x parent.
Proof.
  intros Hk Hd Hp. unfold anchored. destruct parent as [id|]; [|done]. intros [Ha|[Ha|Ha]]; [left; by apply Hk|right; left; by apply Hd|right; right].
  apply list_elem_of_fmap in Ha as (p & -> & Ha). apply list_elem_of_fmap. exists p. split; [done|]. by apply Hp.
Qed.
Lemma added_plan ds sid st id s s' : co_ok rest s -> plan (ds ++ [sid]) s -> sid ∉ ds -> runtime_states s !! sid = Some st ->
  kept s s' -> others_same sid s s' -> added sid st id s s' -> plan (ds ++ [sid]) s'.
Proof.
  intros Hok Hpl Hn Hst Hk Ho Ha. pose proof (kp_held _ _ Hk) as Hh. destruct (pl_states _ _ Hpl sid st Hst) as [Hi0 Hanc].
  pose proof (pl_dups _ _ Hpl (length ds) sid ltac:(by apply list_lookup_middle)) as Hdp. rewrite take_ge in Hdp by (rewrite length_app; cbn; lia).
  assert (pend s' sid = pend s sid -> tagged s' (ds ++ [sid]) = tagged s (ds ++ [sid])) as Htag.
  { intros E. apply tagged_same. intros x Hx. destruct (decide (x = sid)) as [->|Hne]; [done|]. by apply Ho. }
  assert (forall p, pend s' sid = pend s sid ++ [p] -> tagged s' (ds ++ [sid]) = tagged s (ds ++ [sid]) ++ [(sid, p)]) as Htag2.
  { intros p E. rewrite !tagged_app, !tagged_one, E, fmap_app, app_assoc. f_equal. f_equal. apply tagged_same.
    intros x Hx. apply Ho. by intros ->. }
  assert (forall x st', moved_on sid st x s s' -> runtime_states s' !! sid = Some st' -> st' = advanced st x) as Hadv.
  { intros x st' [E _] Hs'. rewrite E, lookup_insert_eq in Hs'. by injection Hs' as <-. }
  destruct Ha as [Hheld Hmv Hp Hd|Hin Hmv Hp Hd|Hs Hl Hp Hd|p Hpi Hpp Hmv Hp Hd]; (eapply plan_step; [exact Hpl|done|done|done|..]).
  - rewrite Htag by done. eapply rooted_mono; [done|apply Hpl].
  - rewrite Htag, Hd by done. by eapply all_secure_mono.
  - intros st' Hs'. rewrite (Hadv _ _ Hmv Hs'). split; [cbn; lia|]. by left.
  - rewrite Htag by done. eapply rooted_mono; [done|apply Hpl].
  - rewrite Htag by done. apply Forall_forall. intros x Hx. apply Hd in Hx as [->|Hx]; [right; by apply waiting_planned|].
    rewrite Forall_forall in Hdp. eapply secure_mono; [done|done|by apply Hdp].
  - intros st' Hs'. rewrite (Hadv _ _ Hmv Hs'). split; [cbn; lia|]. right. left. apply Hd. by left.
  - rewrite Htag by done. eapply rooted_mono; [done|apply Hpl].
  - rewrite Htag, Hd by done. by eapply all_secure_mono.
  - intros st' Hs'. rewrite Hs, Hst in Hs'. injection Hs' as <-. split; [done|]. eapply anchored_mono; [done|by rewrite Hd|by rewrite Hp|done].
  - rewrite (Htag2 p Hp). apply rooted_snoc; [eapply rooted_mono; [done|apply Hpl]|]. rewrite Hpp. cbn [app].
    pose proof (anchored_planned s ds sid _ _ Hpl eq_refl Hanc) as Hpr. unfold parent_ready in *.
    destruct (state_parent_block_id st); [|done]. by eapply secure_mono.
  - rewrite (Htag2 p Hp), pids_app, Hd. eapply all_secure_mono; [exact Hh| |exact Hdp]. intros x Hx. apply elem_of_app. by left.
  - intros st' Hs'. rewrite (Hadv _ _ Hmv Hs'). split; [cbn; lia|]. right. right. cbn. rewrite Hp.
    apply list_elem_of_fmap. exists p. split; [done|]. apply elem_of_app. right. by left.
Qed.

(** ** The state that tokens determine *)

Definition next_state (cf : CoordinatorConfig) st (toks : list Z) : exc MixedPrefixRuntimeState :=
  id ← stable_block_id_of (cc_block_size cf) (cc_fingerprint cf) toks (state_parent_block_id st);
  Ok (advanced st id).
Fixpoint full_states (cf : CoordinatorConfig) (n : nat) st (toks : list Z) : exc MixedPrefixRuntimeState :=
  match n with
  | O => Ok st
  | S n' => st' ← next_state cf st (take (Z.to_nat (cc_block_size cf)) toks); full_states cf n' st' (drop (Z.to_nat (cc_block_size cf)) toks)
  end.
(** The state after [toks]: the full blocks of the tokens that waited and these
    are chained, the rest waits. *)
Definition recorded (cf : CoordinatorConfig) st (toks : list Z) : exc MixedPrefixRuntimeState :=
  let all := pending_tokens st ++ toks in
  let n := Z.of_nat (length all) / cc_block_size cf in
  st' ← full_states cf (Z.to_nat n) st all;
  Ok (st' <| pending_tokens := drop (Z.to_nat (n * cc_block_size cf)) all |>).

Lemma full_states_tokens cf n st toks l st' : full_states cf n st toks = Ok st' ->
  full_states cf n (st <| pending_tokens := l |>) toks = Ok (st' <| pending_tokens := l |>).
Proof.
  revert st toks. induction n as [|n IH]; intros st toks; cbn [full_states]; [by intros [= <-]|].
  unfold next_state, mbind, outcome_bind. cbn. destruct (stable_block_id_of _ _ _ _) as [id|e]; [|done]. apply (IH (advanced st id)).
Qed.
Lemma full_states_pending cf n st toks st' : full_states cf n st toks = Ok st' -> pending_tokens st' = pending_tokens st.
Proof.
  revert st toks. induction n as [|n IH]; intros st toks; cbn [full_states]; [by intros [= <-]|].
  unfold next_state, mbind, outcome_bind. destruct (stable_block_id_of _ _ _ _) as [id|e]; [|done]. intros E. by rewrite (IH _ _ E).
Qed.

Lemma full_states_plus cf n1 n2 st toks : full_states cf (n1 + n2) st toks =
  (st' ← full_states cf n1 st toks; full_states cf n2 st' (drop (n1 * Z.to_nat (cc_block_size cf)) toks)).
Proof.
  revert st toks. induction n1 as [|n1 IH]; intros st toks; cbn [full_states Nat.add]; [by rewrite Nat.mul_0_l, drop_0|].
  destruct (next_state cf st _) as [st1|e]; [|done]. cbn [mbind outcome_bind]. rewrite IH.
  destruct (full_states cf n1 st1 _) as [st2|e]; [|done]. cbn [mbind outcome_bind]. by rewrite drop_drop.
Qed.
Lemma full_states_longer cf n st l1 l2 : (n * Z.to_nat (cc_block_size cf) <= length l1)%nat -> full_states cf n st (l1 ++ l2) = full_states cf n st l1.
Proof.
  revert st l1. induction n as [|n IH]; intros st l1 Hle; cbn [full_states]; [done|]. rewrite take_app_le, drop_app_le by lia.
  destruct (next_state cf st _) as [st1|e]; [|done]. cbn [mbind outcome_bind]. apply IH. rewrite length_drop. lia.
Qed.
(** Recording in two parts is recording at once. *)
Lemma co_recorded_app cf st t1 t2 st1 st2 : 0 < cc_block_size cf -> recorded cf st t1 = Ok st1 -> recorded cf st1 t2 = Ok st2 ->
  recorded cf st (t1 ++ t2) = Ok st2.
Proof.
  intros Hbs. unfold recorded. set (all := pending_tokens st ++ t1). set (bs := cc_block_size cf) in *. set (n1 := Z.of_nat (length all) / bs).
  assert (0 <= n1) by (apply Z.div_pos; lia). assert (n1 * bs <= Z.of_nat (length all)) as Hle by (unfold n1; rewrite Z.mul_comm; apply Z.mul_div_le; lia).
  destruct (full_states cf (Z.to_nat n1) st all) as [x1|e] eqn:E1; [|done]. cbn [mbind outcome_bind]. intros [= <-]. cbn [pending_tokens update_with].
  set (left := drop (Z.to_nat (n1 * bs)) all). change (pending_tokens (x1 <| pending_tokens := left |>)) with left. set (n2 := Z.of_nat (length (left ++ t2)) / bs).
  assert (0 <= n2) by (apply Z.div_pos; lia).
  assert (Z.of_nat (length (pending_tokens st ++ t1 ++ t2)) / bs = n1 + n2) as ->.
  { rewrite app_assoc. fold all. unfold n2, left. rewrite !length_app, length_drop.
    replace (Z.of_nat (length all - Z.to_nat (n1 * bs) + length t2)) with (Z.of_nat (length all + length t2) + (- n1) * bs); [|rewrite Z.mul_opp_l; assert (0 <= n1 * bs) by nia; lia].
    rewrite Z.div_add by lia. unfold n1. lia. }
  rewrite app_assoc. fold all. assert (Z.to_nat n1 * Z.to_nat bs = Z.to_nat (n1 * bs))%nat as Hm by (rewrite Z2Nat.inj_mul; lia).
  replace (Z.to_nat (n1 + n2)) with (Z.to_nat n1 + Z.to_nat n2)%nat by lia. rewrite full_states_plus, (full_states_longer cf (Z.to_nat n1) st all t2) by (fold bs; lia).
  rewrite E1. cbn [mbind outcome_bind]. fold bs. rewrite Hm, (drop_app_le all t2 (Z.to_nat (n1 * bs))) by lia. fold left.
  destruct (full_states cf (Z.to_nat n2) (mkMixedState (state_parent_block_id x1) (next_logical_block_idx x1) left) (left ++ t2)) as [x2|e] eqn:E2; [|done].
  cbn [mbind outcome_bind]. intros [= <-].
  apply (full_states_tokens _ _ _ _ (pending_tokens x1)) in E2.
  replace ((mkMixedState (state_parent_block_id x1) (next_logical_block_idx x1) left) <| pending_tokens := pending_tokens x1 |>) with x1 in E2 by (by destruct x1). rewrite E2. cbn [mbind outcome_bind].
  f_equal. replace (Z.to_nat ((n1 + n2) * bs)) with (Z.to_nat (n1 * bs) + Z.to_nat (n2 * bs))%nat by nia. rewrite <- drop_drop.
  rewrite (drop_app_le all t2 (Z.to_nat (n1 * bs))) by lia. by destruct x2.
Qed.

(** ** Recording *)

Record stepped sid s s' : Prop := {
  sp_ok : co_ok rest s';
  sp_kept : kept s s';
  sp_others : others_same sid s s';
  sp_limited : capacity_limited_seq_ids s ⊆ capacity_limited_seq_ids s' ⊆ {[sid]} ∪ capacity_limited_seq_ids s;
}.
Lemma stepped_trans sid s1 s2 s3 : stepped sid s1 s2 -> stepped sid s2 s3 -> stepped sid s1 s3.
Proof. intros [O1 K1 T1 [L1 L1']] [O2 K2 T2 [L2 L2']]. split; [done|by etrans|by etrans|set_solver]. Qed.
Lemma stepped_refl sid s : co_ok rest s -> stepped sid s s.
Proof. intros Hok. split; [done|done|done|set_solver]. Qed.
Definition keeps_plan sid s s' : Prop := forall ds, sid ∉ ds -> plan (ds ++ [sid]) s -> plan (ds ++ [sid]) s'.

(** Setting the tokens that wait. *)
Definition put_tokens sid (l : list Z) s : Co := s <| runtime_states ::= alter (fun st => st <| pending_tokens := l |>) sid |>.
Lemma put_stepped sid l s : co_ok rest s -> stepped sid s (put_tokens sid l s).
Proof.
  intros Hok. split; [by apply ok_states|split; try done; by intros ? ?| |set_solver].
  intros sid' Hne. unfold put_tokens. cbn. by rewrite lookup_alter_ne.
Qed.
Lemma put_lookup sid l s st : runtime_states s !! sid = Some st -> runtime_states (put_tokens sid l s) !! sid = Some (st <| pending_tokens := l |>).
Proof. intros Hst. unfold put_tokens. cbn. by rewrite lookup_alter_eq, Hst. Qed.
Lemma put_plan sid l s : keeps_plan sid s (put_tokens sid l s).
Proof.
  intros ds Hn [Hout Hr Hd Hs]. split; [exact Hout|eapply rooted_mono; [|exact Hr]; by intros ? ?|exact Hd|]. intros x st Hst. unfold put_tokens in Hst. cbn in Hst.
  destruct (decide (x = sid)) as [->|Hne]; [|rewrite lookup_alter_ne in Hst by done; exact (Hs x st Hst)].
  rewrite lookup_alter_eq in Hst. destruct (runtime_states s !! sid) as [st0|] eqn:E; [|done]. injection Hst as <-. exact (Hs sid st0 E).
Qed.

(** What adding [n] blocks to the state [st] ends in. *)
Definition blocks_added q n st (toks : list Z) s (r : exc unit) s' : Prop :=
  stepped (seq_id q) s s' /\ (is_ok r = true -> keeps_plan (seq_id q) s s' /\ exists st', runtime_states s' !! seq_id q = Some st' /\
    pending_tokens st' = pending_tokens st /\
    (seq_id q ∉ capacity_limited_seq_ids s' -> full_states (co_config s) n st toks = Ok st')).
Record blocks_ready s q n st (toks : list Z) : Prop := {
  by_kv : kv_total;
  by_fits : fits s (declared s);
  by_snapshots : snapshots_ok s q;
  by_index : 0 <= next_logical_block_idx st;
  by_int64 : int64s toks = true;
  by_length : Z.of_nat n * co_block_size s <= Z.of_nat (length toks);
}.

Lemma kept_ready s s' q : kept s s' -> fits s (declared s) -> snapshots_ok s q -> fits s' (declared s') /\ snapshots_ok s' q.
Proof. intros Hk. unfold fits, declared, max_recurrent_bytes, snapshots_ok, co_block_size. by rewrite (kp_rows _ _ Hk), (kp_config _ _ Hk). Qed.
Lemma one_block_ok q st toks s : co_ok rest s -> is_Some (prefix_cache s) -> runtime_states s !! seq_id q = Some st ->
  wp (add_block q toks) (fun r s' => stepped (seq_id q) s s' /\
    (is_ok r = true -> keeps_plan (seq_id q) s s' /\ exists st', runtime_states s' !! seq_id q = Some st' /\ pending_tokens st' = pending_tokens st /\
      (0 <= next_logical_block_idx st -> 0 <= next_logical_block_idx st') /\
      (seq_id q ∉ capacity_limited_seq_ids s' -> next_state (co_config s) st toks = Ok st')) /\
    (block_ready s q st toks -> is_ok r = true)) s.
Proof.
  intros Hok Hc Hst. eapply wp_mono; [exact (add_block_ok [] [] [] s q toks st Hok Hc Hst)|]. cbv beta.
  intros r s' (Hok' & Hk & Ho & Hr & Hready). fold rest in *. set (sid := seq_id q) in *.
  assert (capacity_limited_seq_ids s ⊆ capacity_limited_seq_ids s' ⊆ {[sid]} ∪ capacity_limited_seq_ids s) as Hl.
  { destruct r; [|destruct Hr as [_ ->]; set_solver]. destruct Hr as (id & _ & [? [_ ->]|? [_ ->]|? -> |? ? ? [_ ->]]); set_solver. }
  split; [by split|]. split; [|done]. intros Hr'. destruct r as [[]|]; [|done]. destruct Hr as (id & Hid & Ha). split.
  - intros ds Hn Hpl. by apply (added_plan ds sid st id s s').
  - assert (forall x, moved_on sid st x s s' -> runtime_states s' !! sid = Some (advanced st x)) as Hadv.
    { intros x [-> _]. by rewrite lookup_insert_eq. }
    assert (next_state (co_config s) st toks = Ok (advanced st id)) as Hnx.
    { unfold next_state, block_id in *. unfold co_block_size in Hid. by rewrite Hid. }
    destruct Ha as [_ Hmv _ _|_ Hmv _ _|Hs Hl' _ _|p _ _ Hmv _ _]; [exists (advanced st id)..|exists st|exists (advanced st id)].
    1, 2, 4: split_and!; [by apply Hadv|done|cbn; lia|done].
    split_and!; [by rewrite Hs|done|done|]. intros Hno. destruct Hno. rewrite Hl'. set_solver.
Qed.

Lemma add_full_ok q n bs st toks s : co_ok rest s -> is_Some (prefix_cache s) -> bs = co_block_size s -> runtime_states s !! seq_id q = Some st ->
  wp (add_full_blocks q n bs toks) (fun r s' => blocks_added q n st toks s r s' /\ (blocks_ready s q n st toks -> is_ok r = true)) s.
Proof.
  intros Hok Hc ->. revert st toks s Hok Hc. induction n as [|n IH]; intros st toks s Hok Hc Hst; cbn [add_full_blocks].
  { apply wp_ret. split; [|done]. split; [by apply stepped_refl|]. intros _. split; [by intros ? ?|]. by exists st. }
  apply wp_bind. eapply wp_mono; [by apply (one_block_ok q st)|]. cbv beta. intros [[]|e] s1 (Hsp1 & H1' & Hready1).
  - destruct (H1' eq_refl) as (Hpl1 & st1 & Hst1 & Hpt1 & Hi1 & Hn1). pose proof (sp_kept _ _ _ Hsp1) as Hk1.
    assert (co_block_size s1 = co_block_size s) as Hbs by (unfold co_block_size; by rewrite (kp_config _ _ Hk1)).
    rewrite <- Hbs. eapply wp_mono; [apply (IH st1); [apply Hsp1|by apply (kp_cache _ _ Hk1)|done]|]. cbv beta. rewrite Hbs.
    intros r s2 [[Hsp2 H2'] Hready2]. split.
    + split; [by eapply stepped_trans|]. intros Hr. destruct (H2' Hr) as (Hpl2 & st2 & Hst2 & Hpt2 & Hf2).
      split; [intros ds Hn Hpl; by apply Hpl2, Hpl1|]. exists st2. split_and!; [done|congruence|]. intros Hno. cbn [full_states].
      unfold co_block_size in *. rewrite Hn1 by (intros Hin; apply Hno; by apply (sp_limited _ _ _ Hsp2)). cbn.
      rewrite (kp_config _ _ Hk1) in Hf2. by apply Hf2.
    + intros [R1 R2 R3 R4 R5 R6]. destruct (kept_ready _ _ q Hk1 R2 R3). apply Hready2. unfold co_block_size in *.
      split; [done..|by apply Hi1|by apply int64s_drop|]. unfold co_block_size. rewrite length_drop, Hbs. lia.
  - split; [split; [done|done]|]. intros [R1 R2 R3 R4 R5 R6]. apply Hready1. split; try done; [by apply int64s_take|].
    rewrite length_take. destruct Hc as [c Hc]. destruct (co_index_of _ _ _ Hok Hc) as (_ & _ & Hbs). lia.
Qed.

(** A full first block is recorded on its own, then the rest. *)
Lemma recorded_split cf st toks filled rst st1 st' : 0 < cc_block_size cf -> pending_tokens st ++ toks = filled ++ rst ->
  Z.of_nat (length filled) = cc_block_size cf -> next_state cf (st <| pending_tokens := filled |>) filled = Ok st1 ->
  recorded cf (st1 <| pending_tokens := [] |>) rst = Ok st' -> recorded cf st toks = Ok st'.
Proof.
  intros Hbs Hall Hlen Hnx. unfold recorded. rewrite Hall. cbn [pending_tokens app]. set (bs := cc_block_size cf) in *.
  change (pending_tokens (st1 <| pending_tokens := [] |>) ++ rst) with rst. 
  assert (Z.of_nat (length (filled ++ rst)) / bs = 1 + Z.of_nat (length rst) / bs) as ->.
  { rewrite length_app, Nat2Z.inj_add, Hlen. replace (bs + Z.of_nat (length rst)) with (1 * bs + Z.of_nat (length rst)) by lia. by rewrite Z.div_add_l by lia. }
  assert (0 <= Z.of_nat (length rst) / bs) by (apply Z.div_pos; lia).
  replace (Z.to_nat (1 + Z.of_nat (length rst) / bs)) with (S (Z.to_nat (Z.of_nat (length rst) / bs))) by lia. cbn [full_states]. fold bs.
  assert (Z.to_nat bs = length filled) as -> by lia. rewrite take_app_length, drop_app_length.
  assert (next_state cf st filled = Ok (st1 <| pending_tokens := pending_tokens st |>)) as ->.
  { unfold next_state, mbind, outcome_bind in *. cbn in Hnx. destruct (stable_block_id_of _ _ _ _) as [id|e]; [|done].
    injection Hnx as <-. destruct st. done. }
  cbn [mbind outcome_bind]. destruct (full_states cf _ (st1 <| pending_tokens := [] |>) rst) as [st2|e] eqn:E; [|done]. intros [= <-].
  apply (full_states_tokens _ _ _ _ (pending_tokens st)) in E.
  change (st1 <| pending_tokens := [] |> <| pending_tokens := pending_tokens st |>) with (st1 <| pending_tokens := pending_tokens st |>) in E.
  rewrite E. cbn [mbind outcome_bind]. f_equal. destruct st2. unfold update_with. cbn. f_equal.
  replace (Z.to_nat ((1 + Z.of_nat (length rst) / bs) * bs)) with (length filled + Z.to_nat (Z.of_nat (length rst) / bs * bs))%nat by nia.
  by rewrite drop_app_add.
Qed.

Definition start_state s q : MixedPrefixRuntimeState := default (first_state q) (runtime_states s !! seq_id q).
(** The state of a request that starts recording is that after the hit it holds. *)
Definition prepared s q : Prop := runtime_states s !! seq_id q = None ->
  0 <= prefix_cache_hit_block_count (prefix_hit q) /\ anchored s (seq_id q) (prefix_cache_hit_last_block_id (prefix_hit q)).
Record tokens_ready s q (toks : list Z) : Prop := {
  tr_kv : kv_total;
  tr_fits : fits s (declared s);
  tr_snapshots : snapshots_ok s q;
  tr_index : 0 <= next_logical_block_idx (start_state s q);
  tr_int64 : int64s (pending_tokens (start_state s q) ++ toks) = true;
  tr_length : Z.of_nat (length (pending_tokens (start_state s q))) <= co_block_size s;
}.

Definition tokens_recorded q st (toks : list Z) s (r : exc unit) s' : Prop :=
  stepped (seq_id q) s s' /\ (is_ok r = true -> keeps_plan (seq_id q) s s' /\ exists st', runtime_states s' !! seq_id q = Some st' /\
    Z.of_nat (length (pending_tokens st')) < co_block_size s /\ (int64s toks = true -> int64s (pending_tokens st') = true) /\
    (seq_id q ∉ capacity_limited_seq_ids s' -> recorded (co_config s) st toks = Ok st')).

Lemma co_record_rest_ok q bs st toks s : co_ok rest s -> is_Some (prefix_cache s) -> bs = co_block_size s ->
  runtime_states s !! seq_id q = Some st -> pending_tokens st = [] ->
  wp (record_rest q bs toks) (fun r s' => tokens_recorded q st toks s r s' /\
    (kv_total -> fits s (declared s) -> snapshots_ok s q -> 0 <= next_logical_block_idx st -> int64s toks = true -> is_ok r = true)) s.
Proof.
  intros Hok Hc -> Hst Hpt. destruct Hc as [c Hc]. destruct (co_index_of _ _ _ Hok Hc) as (_ & _ & Hbs). unfold record_rest. cbv zeta.
  set (n := Z.of_nat (length toks) / co_block_size s).
  assert (0 <= n) by (apply Z.div_pos; lia).
  assert (n * co_block_size s <= Z.of_nat (length toks) < n * co_block_size s + co_block_size s) as Hn.
  { pose proof (Z.div_mod (Z.of_nat (length toks)) (co_block_size s) ltac:(lia)). pose proof (Z.mod_pos_bound (Z.of_nat (length toks)) (co_block_size s) Hbs).
    unfold n. lia. }
  apply wp_bind. eapply wp_mono; [apply (add_full_ok q (Z.to_nat n) _ st); eauto|]. cbv beta. intros [[]|e] s1 [[Hsp H1'] Hready].
  - destruct (H1' eq_refl) as (Hpl & st1 & Hst1 & Hpt1 & Hf). unfold set_pending_tokens. apply wp_modify. fold (put_tokens (seq_id q) (drop (Z.to_nat (n * co_block_size s)) toks) s1).
    split; [|done]. split; [eapply stepped_trans; [exact Hsp|apply put_stepped, Hsp]|]. intros _. split.
    + intros ds Hni Hp. by apply put_plan, Hpl.
    + eexists. split; [by apply put_lookup|]. split; [cbn; rewrite length_drop; lia|]. split; [apply int64s_drop|]. intros Hno. unfold recorded. rewrite Hpt. cbn [app].
      fold (co_block_size s). fold n. by rewrite (Hf Hno).
  - split; [split; [done|done]|]. intros R1 R2 R3 R4 R5. apply Hready. split; try done. lia.
Qed.

(** The request's state and list of waiting blocks exist. *)
Definition opened sid st s : Co := s <| runtime_states ::= <[sid := st]> |> <| pending_blocks ::= fun m => <[sid := default [] (m !! sid)]> m |>.
Lemma opened_stepped sid st s : co_ok rest s -> stepped sid s (opened sid st s).
Proof.
  intros [Hix Hb Hr L R]. assert (waiting (opened sid st s) ≡ₚ waiting s) as Hw.
  { unfold waiting, opened. cbn. by rewrite flat_known. }
  split.
  - split; [exact Hix|exact Hb|exact Hr| |].
    + eapply ledger_perm; [cbn [reserved entered rest app]; symmetry; exact Hw|]. destruct L. by split.
    + eapply roomy_perm; [cbn [reserved entered rest app]; symmetry; exact Hw|]. destruct R. by split.
  - split; try done. by intros ? ?.
  - intros sid' Hne. unfold pend, dups, opened. cbn. by rewrite !lookup_insert_ne.
  - set_solver.
Qed.
Lemma opened_pend sid st s x : pend (opened sid st s) x = pend s x.
Proof. unfold pend, opened. cbn. destruct (decide (x = sid)) as [->|Hne]; [by rewrite lookup_insert_eq|by rewrite lookup_insert_ne]. Qed.
Lemma opened_plan q s : prepared s q -> keeps_plan (seq_id q) s (opened (seq_id q) (start_state s q) s).
Proof.
  intros Hp ds Hn Hpl. set (s' := opened _ _ _).
  assert (forall l, tagged s' l = tagged s l) as Htag by (intros l; apply tagged_same; intros; apply opened_pend).
  eapply plan_step; [exact Hpl|done|by intros ? ?| | | |].
  - intros sid' Hne. unfold s'. rewrite opened_pend. split_and!; [done..|]. unfold opened. cbn. by rewrite lookup_insert_ne.
  - rewrite Htag. eapply rooted_mono; [|apply Hpl]. by intros ? ?.
  - rewrite Htag. pose proof (pl_dups _ _ Hpl (length ds) (seq_id q) ltac:(by apply list_lookup_middle)) as Hdp.
    rewrite take_ge in Hdp by (rewrite length_app; cbn; lia). exact Hdp.
  - intros st Hst. unfold s', opened in Hst. cbn in Hst. rewrite lookup_insert_eq in Hst. injection Hst as <-.
    assert (forall par, anchored s (seq_id q) par -> anchored s' (seq_id q) par) as Ha.
    { intros par Hanc. eapply anchored_mono; [..|exact Hanc]; [by intros ? ?|done|]. unfold s'. by rewrite opened_pend. }
    unfold start_state. destruct (runtime_states s !! seq_id q) as [st|] eqn:E; cbn.
    + destruct (pl_states _ _ Hpl _ _ E) as [? ?]. auto.
    + destruct (Hp E) as [? ?]. auto.
Qed.

Lemma record_tokens_ok q toks s : co_ok rest s -> is_Some (prefix_cache s) ->
  wp (record_tokens q toks) (fun r s' => stepped (seq_id q) s s' /\
    (is_ok r = true -> (prepared s q -> keeps_plan (seq_id q) s s') /\
      if bool_decide (is_Some (multimodal_digest (tags q))) || bool_decide (toks = []) then s' = s
      else exists st', runtime_states s' !! seq_id q = Some st' /\
        (int64s (pending_tokens (start_state s q) ++ toks) = true -> int64s (pending_tokens st') = true) /\
        (Z.of_nat (length (pending_tokens (start_state s q))) <= co_block_size s -> Z.of_nat (length (pending_tokens st')) < co_block_size s /\
          (seq_id q ∉ capacity_limited_seq_ids s' -> recorded (co_config s) (start_state s q) toks = Ok st'))) /\
    (tokens_ready s q toks -> is_ok r = true)) s.
Proof.
  intros Hok Hc. unfold record_tokens. apply wp_bind, wp_read. cbv beta iota zeta. unfold Datatypes.id.
  apply wp_if; intros Hskip; rewrite Hskip.
  { apply wp_ret. split; [by apply stepped_refl|]. split; [|done]. intros _. split; [|done]. by intros _ ? ?. }
  change (from_option (fun x => x) (first_state q) (runtime_states s !! seq_id q)) with (start_state s q). set (st := start_state s q). unfold set_state. apply wp_bind, wp_modify. cbv beta iota. apply wp_bind, wp_modify. cbv beta iota.
  match goal with |- wp _ _ ?y => change y with (opened (seq_id q) st s) end.
  set (s1 := opened (seq_id q) st s). pose proof (opened_stepped (seq_id q) st s Hok) as Hsp1. fold s1 in Hsp1.
  assert (runtime_states s1 !! seq_id q = Some st) as Hst1 by (unfold s1, opened; cbn; by rewrite lookup_insert_eq).
  assert (is_Some (prefix_cache s1)) as Hc1 by done. pose proof (sp_ok _ _ _ Hsp1) as Hok1.
  destruct (prefix_cache s) as [c|] eqn:Hpc; [|by destruct Hc]. destruct (co_index_of _ _ _ Hok Hpc) as (_ & _ & Hbs).
  clear Hskip. destruct (bool_decide_reflect (pending_tokens st = [])) as [Hpt|Hpt].
  { eapply wp_mono; [by apply (co_record_rest_ok q _ st toks s1)|]. cbv beta. intros r s' [[Hsp' Hr'] Hready]. split; [by eapply stepped_trans|]. split.
    - intros Hr. destruct (Hr' Hr) as (Hpl & st' & Hst' & Hlen & Hint & Hrec). split.
      + intros Hprep ds Hn Hp. by apply Hpl, opened_plan.
      + exists st'. split; [done|]. fold st. rewrite Hpt. split; [done|]. intros _. by split.
    - intros [R1 R2 R3 R4 R5 R6]. apply Hready; try done. fold st in R5. by rewrite Hpt in R5. }
  set (n := Z.to_nat (Z.min (co_block_size s - Z.of_nat (length (pending_tokens st))) (Z.of_nat (length toks)))).
  set (filled := pending_tokens st ++ take n toks). unfold set_pending_tokens. apply wp_bind, wp_modify. cbv beta iota.
  fold (put_tokens (seq_id q) filled s1). set (s2 := put_tokens (seq_id q) filled s1).
  pose proof (stepped_trans _ _ _ _ Hsp1 (put_stepped (seq_id q) filled s1 Hok1)) as Hsp2. fold s2 in Hsp2.
  pose proof (put_lookup (seq_id q) filled s1 st Hst1) as Hst2. fold s2 in Hst2.
  assert (prepared s q -> keeps_plan (seq_id q) s s2) as Hpl2 by (intros Hprep ds Hn Hp; by apply put_plan, opened_plan).
  assert (pending_tokens st ++ toks = filled ++ drop n toks) as Hall by (unfold filled; by rewrite <- app_assoc, take_drop).
  apply wp_if; intros Hfull; bool_to_prop.
  { apply wp_ret. split; [done|]. split; [|done]. intros _. split; [done|]. eexists. split; [exact Hst2|]. cbn.
    split; [fold st; rewrite Hall; unfold int64s; rewrite forallb_app; by intros [? _]%andb_true_iff|]. intros Hle.
    assert (Z.of_nat (length filled) < co_block_size s /\ drop n toks = []) as [Hlt Hnil].
    { unfold filled in *. rewrite length_app, length_take in *. split; [lia|]. apply drop_ge. lia. }
    split; [exact Hlt|]. intros _. unfold recorded. rewrite Hall, Hnil, app_nil_r. fold (co_block_size s). rewrite Z.div_small by lia. cbn. by rewrite drop_0. }
  apply wp_bind. eapply wp_mono; [by apply (one_block_ok q (st <| pending_tokens := filled |>) filled s2); [apply Hsp2|..]|]. cbv beta.
  intros [[]|e] s3 (Hsp3 & H3 & Hready3).
  - destruct (H3 eq_refl) as (Hpl3 & st3 & Hst3 & Hpt3 & Hi3 & Hn3). apply wp_bind, wp_modify. cbv beta iota. fold (put_tokens (seq_id q) [] s3).
    set (s4 := put_tokens (seq_id q) [] s3). pose proof (put_stepped (seq_id q) [] s3 (sp_ok _ _ _ Hsp3)) as Hsp4. fold s4 in Hsp4.
    pose proof (stepped_trans _ _ _ _ Hsp2 (stepped_trans _ _ _ _ Hsp3 Hsp4)) as Hsp. pose proof (sp_kept _ _ _ Hsp) as Hk.
    eapply wp_mono; [apply (co_record_rest_ok q _ (st3 <| pending_tokens := [] |>) (drop n toks) s4)|]; [apply Hsp4|by apply (kp_cache _ _ Hk); rewrite Hpc|..]; [|by apply put_lookup|done|].
    { unfold co_block_size. by rewrite (kp_config _ _ Hk). }
    cbv beta. intros r s' [[Hsp' Hr'] Hready]. split; [by eapply stepped_trans|]. split.
    + intros Hr. destruct (Hr' Hr) as (Hpl & st' & Hst' & Hlen & Hint & Hrec). split.
      * intros Hprep ds Hn Hp. by apply Hpl, put_plan, Hpl3, Hpl2.
      * exists st'. split; [done|]. split.
        { fold st. rewrite Hall. unfold int64s in *. rewrite forallb_app. by intros [_ ?]%andb_true_iff; apply Hint. }
        intros _. unfold co_block_size in Hlen |- *. rewrite (kp_config _ _ Hk) in Hlen, Hrec. split; [exact Hlen|]. intros Hno.
        eapply recorded_split; [exact Hbs|exact Hall|exact Hfull| |by apply Hrec].
        apply Hn3. intros Hin. apply Hno. apply (sp_limited _ _ _ Hsp'). exact Hin.
    + intros [R1 R2 R3 R4 R5 R6]. destruct (kept_ready _ _ q Hk R2 R3). apply Hready; try done; [by apply Hi3|].
      fold st in R5. rewrite Hall in R5. unfold int64s in *. rewrite forallb_app in R5. by apply andb_true_iff in R5 as [_ ?].
  - split; [by eapply stepped_trans|]. split; [done|]. intros [R1 R2 R3 R4 R5 R6]. apply Hready3. split; try done.
    fold st in R5. rewrite Hall in R5. unfold int64s in *. rewrite forallb_app in R5. by apply andb_true_iff in R5 as [? _].
Qed.

(** ** A batch *)

(** The tokens a step gives a request. *)
Definition input_tokens (pf : bool) q : exc (list Z) :=
  if pf then Ok (let chunk := default 0 (current_chunk_size q) in if chunk <=? 0 then [] else chunk_tokens q chunk)
  else t ← decode_input_token q; Ok [t].
(** A chunk ends at the next block boundary at the latest. *)
Definition within_block s (pf : bool) q : Prop := pf = true -> 0 < default 0 (current_chunk_size q) ->
  default 0 (current_chunk_size q) <= co_block_size s - num_prefilled_tokens q mod co_block_size s.
Definition tokens_fine s : Prop := forall x st, runtime_states s !! x = Some st ->
  Z.of_nat (length (pending_tokens st)) < co_block_size s /\ int64s (pending_tokens st) = true.
(** The hit a request starts from is one it holds. *)
Definition hit_held s q : Prop := runtime_states s !! seq_id q = None ->
  0 <= prefix_cache_hit_block_count (prefix_hit q) /\
  match prefix_cache_hit_last_block_id (prefix_hit q) with None => True | Some id => held_id s (seq_id q) id end.
(** When the step of a request cannot raise. *)
Record seq_ready s (pf : bool) q : Prop := {
  sr_snapshots : snapshots_ok s q;
  sr_within : within_block s pf q;
  sr_tokens : exists toks, input_tokens pf q = Ok toks /\ int64s toks = true;
}.

Lemma hit_held_step s s' q sid : seq_id q <> sid -> stepped sid s s' -> hit_held s q -> hit_held s' q.
Proof.
  intros Hne Hsp Hh Hn. destruct (sp_others _ _ _ Hsp _ Hne) as (_ & _ & E). rewrite E in Hn. destruct (Hh Hn) as [? Hl]. split; [done|].
  destruct (prefix_cache_hit_last_block_id (prefix_hit q)); [|done]. by apply (kp_held _ _ (sp_kept _ _ _ Hsp)).
Qed.
Lemma hit_held_prepared s q : hit_held s q -> prepared s q.
Proof.
  intros Hh Hn. destruct (Hh Hn) as [? Hl]. split; [done|]. unfold anchored. destruct (prefix_cache_hit_last_block_id (prefix_hit q)); [by left|done].
Qed.
Lemma seq_ready_step s s' pf q : kept s s' -> seq_ready s pf q -> seq_ready s' pf q.
Proof.
  intros Hk [R1 R2 R3]. split; [..|done]; unfold snapshots_ok, within_block, co_block_size in *; by rewrite ?(kp_rows _ _ Hk), ?(kp_config _ _ Hk).
Qed.
Lemma plan_extend ds sid s : sid ∉ ds -> plan ds s -> plan (ds ++ [sid]) s.
Proof.
  intros Hn [Hout Hr Hd Hs]. destruct (Hout sid Hn) as [Hp0 Hd0].
  assert (tagged s (ds ++ [sid]) = tagged s ds) as Ht by (by rewrite tagged_app, tagged_one, Hp0, app_nil_r). split.
  - intros x Hx. apply Hout. intros Hin. apply Hx, elem_of_app. by left.
  - by rewrite Ht.
  - intros i x Hi. apply lookup_app_Some in Hi as [Hi|[_ Hi]].
    + rewrite take_app_le by (apply lookup_lt_Some in Hi; lia). by apply (Hd i).
    + apply list_lookup_singleton_Some in Hi as [_ <-]. by rewrite Hd0.
  - exact Hs.
Qed.

Lemma skip_ok sid s : co_ok rest s -> stepped sid s s /\ keeps_plan sid s s.
Proof. intros Hok. split; [by apply stepped_refl|by intros ? ?]. Qed.
Lemma tokens_fine_step sid s s' : stepped sid s s' -> tokens_fine s ->
  (forall st', runtime_states s' !! sid = Some st' -> Z.of_nat (length (pending_tokens st')) < co_block_size s /\ int64s (pending_tokens st') = true) ->
  tokens_fine s'.
Proof.
  intros Hsp Ht Hs x st Hst. unfold co_block_size. rewrite (kp_config _ _ (sp_kept _ _ _ Hsp)). destruct (decide (x = sid)) as [->|Hne]; [by apply Hs|].
  destruct (sp_others _ _ _ Hsp x Hne) as (_ & _ & E). rewrite E in Hst. by apply (Ht x).
Qed.

(** What recording a request's tokens ends in. *)
Definition seq_recorded (pf : bool) q s (r : exc unit) s' : Prop := stepped (seq_id q) s s' /\
  (is_ok r = true -> (hit_held s q -> keeps_plan (seq_id q) s s') /\
    (forall toks, input_tokens pf q = Ok toks -> int64s toks = true -> tokens_fine s -> 0 < co_block_size s -> tokens_fine s' /\
      (seq_id q ∉ capacity_limited_seq_ids s' -> multimodal_digest (tags q) = None -> toks <> [] ->
        exists st', runtime_states s' !! seq_id q = Some st' /\ recorded (co_config s) (start_state s q) toks = Ok st'))) /\
  (kv_total -> fits s (declared s) -> seq_ready s pf q -> hit_held s q -> tokens_fine s ->
    (forall st, runtime_states s !! seq_id q = Some st -> 0 <= next_logical_block_idx st) -> is_ok r = true).

Lemma start_fine s q : tokens_fine s -> 0 < co_block_size s ->
  Z.of_nat (length (pending_tokens (start_state s q))) < co_block_size s /\ int64s (pending_tokens (start_state s q)) = true.
Proof. intros Ht Hbs. unfold start_state. destruct (runtime_states s !! seq_id q) as [st|] eqn:E; cbn; [by apply (Ht (seq_id q))|done]. Qed.
Lemma int64s_app l1 l2 : int64s (l1 ++ l2) = int64s l1 && int64s l2.
Proof. apply forallb_app. Qed.

Lemma record_input_ok pf q toks s : co_ok rest s -> is_Some (prefix_cache s) -> input_tokens pf q = Ok toks ->
  wp (record_tokens q toks) (seq_recorded pf q s) s.
Proof.
  intros Hok Hc Hin. eapply wp_mono; [by apply record_tokens_ok|]. cbv beta. intros r s' (Hsp & Hr' & Hready). split; [done|]. split.
  - intros Hr. destruct (Hr' Hr) as [Hpl Hst']. split; [intros Hh; by apply Hpl, hit_held_prepared|].
    intros toks' Hin' Hi Ht Hbs. assert (toks' = toks) as -> by congruence. destruct (start_fine s q Ht Hbs) as [Hlen Hi0].
    assert (int64s (pending_tokens (start_state s q) ++ toks) = true) as Hi1 by (by rewrite int64s_app, Hi0, Hi).
    destruct (bool_decide (is_Some (multimodal_digest (tags q))) || bool_decide (toks = [])) eqn:Hskip.
    + subst s'. split; [done|]. intros _ Hm Hne. rewrite Hm in Hskip. apply orb_true_iff in Hskip as [Hs|Hs]; bool_to_prop; [by destruct Hs|done].
    + destruct Hst' as (st' & Hst' & Hi' & Hrec). destruct (Hrec ltac:(lia)) as [Hlen' Hrec']. split.
      * apply (tokens_fine_step _ _ _ Hsp Ht). intros st2 Hst2. assert (st2 = st') as -> by congruence. split; [done|by apply Hi'].
      * intros Hno _ _. exists st'. split; [done|by apply Hrec'].
  - intros R1 R2 [R3 _ (toks' & Hin' & Hi)] Hh Ht Hidx. assert (toks' = toks) as -> by congruence. apply Hready.
    destruct Hc as [c Hc]. destruct (co_index_of _ _ _ Hok Hc) as (_ & _ & Hbs). destruct (start_fine s q Ht Hbs) as [Hlen Hi0].
    split; [done..| |by rewrite int64s_app, Hi0, Hi|lia]. unfold start_state. destruct (runtime_states s !! seq_id q) as [st|] eqn:E; cbn; [by apply Hidx|].
    by apply Hh.
Qed.
Lemma record_seq_ok pf q s : co_ok rest s -> is_Some (prefix_cache s) -> wp (record_seq pf q) (seq_recorded pf q s) s.
Proof.
  intros Hok Hc. destruct (skip_ok (seq_id q) s Hok) as [Hsp0 Hpl0]. unfold record_seq. apply wp_bind, wp_read. cbv beta iota zeta. unfold id.
  apply wp_if; intros Hl; bool_to_prop.
  { apply wp_ret. split; [done|]. split; [|done]. intros _. split; [done|]. intros toks Hin Hi Ht Hbs. split; [done|]. intros Hno. done. }
  destruct pf.
  - apply wp_if; intros Hch; bool_to_prop.
    + apply wp_ret. split; [done|]. split; [|done]. intros _. split; [done|]. intros toks Hin Hi Ht Hbs. split; [done|]. intros _ _ Hne.
      unfold input_tokens in Hin. cbv zeta in Hin. rewrite (proj2 (Z.leb_le _ 0)) in Hin by done. congruence.
    + apply wp_bind, wp_guard; intros Hg; bool_to_prop.
      { split; [done|]. split; [done|]. intros _ _ [_ R _] _ _ _. specialize (R eq_refl Hch). unfold id in R. lia. }
      apply record_input_ok; [done..|]. unfold input_tokens, id in *. cbv zeta. by rewrite (proj2 (Z.leb_gt _ 0) Hch).
  - apply wp_bind, wp_lift. destruct (decode_input_token q) as [t|e] eqn:Hd.
    + apply record_input_ok; [done..|]. unfold input_tokens. by rewrite Hd.
    + split; [done|]. split; [done|]. intros _ _ [_ _ (toks & Hin & _)] _ _ _. unfold input_tokens in Hin. by rewrite Hd in Hin.
Qed.

(** The batch: every request's state is given by its tokens, and what waits is a
    plan in the order of the batch. *)
Definition inputs_fine (pf : bool) (qs : list Sequence) : Prop := Forall (fun q => exists toks, input_tokens pf q = Ok toks /\ int64s toks = true) qs.
Lemma co_record_all_ok pf qs ds s : co_ok rest s -> is_Some (prefix_cache s) ->
  wp (for_each qs (record_seq pf)) (fun r s' => co_ok rest s' /\ kept s s' /\
    (NoDup (ds ++ (seq_id <$> qs)) -> plan ds s -> tokens_fine s -> Forall (hit_held s) qs -> inputs_fine pf qs ->
      (is_ok r = true -> plan (ds ++ (seq_id <$> qs)) s' /\ tokens_fine s') /\
      (kv_total -> fits s (declared s) -> Forall (seq_ready s pf) qs -> is_ok r = true))) s.
Proof.
  revert ds s. induction qs as [|q qs IH]; intros ds s Hok Hc; cbn [for_each].
  { apply wp_ret. split; [done|]. split; [done|]. intros _ Hpl Ht _ _. cbn. by rewrite app_nil_r. }
  apply wp_bind. eapply wp_mono; [by apply record_seq_ok|]. cbv beta. intros r1 s1 (Hsp1 & Hr1 & Hready1). pose proof (sp_kept _ _ _ Hsp1) as Hk1.
  destruct (prefix_cache s) as [c|] eqn:Hpc; [|by destruct Hc]. destruct (co_index_of _ _ _ Hok Hpc) as (_ & _ & Hbs).
  assert (NoDup (ds ++ (seq_id <$> q :: qs)) -> seq_id q ∉ ds) as Hni.
  { intros (_ & Hdis & _)%NoDup_app Hin. apply (Hdis (seq_id q) Hin). by left. }
  assert (plan ds s -> tokens_fine s -> Forall (hit_held s) (q :: qs) -> kv_total -> fits s (declared s) -> Forall (seq_ready s pf) (q :: qs) -> is_ok r1 = true) as Hok1.
  { intros Hpl Ht Hh R1 R2 R3. apply Forall_cons in Hh as [Hh _]. apply Forall_cons in R3 as [R3 _]. apply Hready1; try done.
    intros st Hst. by apply (pl_states _ _ Hpl (seq_id q)). }
  destruct r1 as [[]|e].
  - destruct (Hr1 eq_refl) as [Hpl1 Hfine1]. eapply wp_mono; [apply (IH (ds ++ [seq_id q])); [apply Hsp1|apply (kp_cache _ _ Hk1); by rewrite Hpc]|]. cbv beta.
    intros r s' (Hok' & Hk' & Hrest). split; [done|]. split; [by etrans|]. intros Hnd Hpl Ht Hh Hin.
    pose proof Hin as (Hq & Hqs)%Forall_cons. destruct Hq as (toks & Htk & Hi). pose proof Hh as [Hhq Hhqs]%Forall_cons.
    specialize (Hni Hnd). cbn [fmap list_fmap] in *. rewrite app_cons_snoc in Hnd |- *.
    destruct Hrest as [Hres Hrd]; [exact Hnd|apply Hpl1; [done|done|by apply plan_extend]|by eapply Hfine1| |exact Hqs|].
    { rewrite Forall_forall in *. intros q' Hq'. eapply hit_held_step; [|exact Hsp1|by apply Hhqs]. intros E.
      apply NoDup_app in Hnd as (_ & Hdis & _). apply (Hdis (seq_id q)); [apply elem_of_app; right; by left|]. rewrite <- E. by apply list_elem_of_fmap_2. }
    split; [exact Hres|]. intros R1 R2 R3. pose proof R3 as [R3q R3qs]%Forall_cons. destruct (kept_ready _ _ q Hk1 R2 (sr_snapshots _ _ _ R3q)) as [? _].
    apply Hrd; try done. eapply Forall_impl; [exact R3qs|]. intros q'. by apply seq_ready_step.
  - split; [apply Hsp1|]. split; [done|]. intros Hnd Hpl Ht Hh Hin. split; [done|]. intros R1 R2 R3. by specialize (Hok1 Hpl Ht Hh R1 R2 R3).
Qed.

(** ** A batch with room *)

(** [m], with room for [n] blocks more than the [k] it leaves room for, refuses
    none. *)
Definition refuses_none {A} (m : CoAct A) (n k : Z) s : Prop := spare (k + n) s ->
  wp m (fun r s' => is_ok r = true -> spare k s' /\ capacity_limited_seq_ids s' = capacity_limited_seq_ids s) s.

Lemma add_full_spare q n bs toks st k s : co_ok rest s -> is_Some (prefix_cache s) -> runtime_states s !! seq_id q = Some st ->
  fits s (declared s) -> 0 <= k -> refuses_none (add_full_blocks q n bs toks) (Z.of_nat n) k s.
Proof.
  intros Hok Hc Hst Hf Hk Hsp. revert st toks s Hok Hc Hst Hf Hsp. induction n as [|n IH]; intros st toks s Hok Hc Hst Hf Hsp; cbn [add_full_blocks].
  { apply wp_ret. intros _. by rewrite Z.add_0_r in Hsp. }
  replace (k + Z.of_nat (S n)) with (k + Z.of_nat n + 1) in Hsp by lia.
  apply wp_bind. eapply wp_mono; [apply wp_and; [by apply (one_block_ok q st)|by apply (add_block_spare q _ st (k + Z.of_nat n) s Hok Hc Hst Hf ltac:(lia))]|].
  cbv beta. intros [[]|e] s1 [(Hst1 & Hr1 & _) Hs1]; [|done]. destruct (Hr1 eq_refl) as (_ & st1 & Hl1 & _). destruct (Hs1 eq_refl) as [Hsp1 Hcap1].
  pose proof (sp_kept _ _ _ Hst1) as Hk1. eapply wp_mono; [apply (IH st1); try done; [apply Hst1|by apply (kp_cache _ _ Hk1)|]|].
  - unfold fits, declared, max_recurrent_bytes in *. by rewrite (kp_rows _ _ Hk1), (kp_config _ _ Hk1).
  - cbv beta. intros r s2 Hr Hok2. destruct (Hr Hok2). split; [done|congruence].
Qed.
Lemma record_rest_spare q bs toks st k s : co_ok rest s -> is_Some (prefix_cache s) -> runtime_states s !! seq_id q = Some st ->
  fits s (declared s) -> 0 <= k -> 0 < bs -> refuses_none (record_rest q bs toks) (Z.of_nat (length toks) / bs) k s.
Proof.
  intros Hok Hc Hst Hf Hk Hbs Hsp. assert (0 <= Z.of_nat (length toks) / bs) by (apply Z.div_pos; lia).
  unfold record_rest. cbv zeta. apply wp_bind. eapply wp_mono; [apply (add_full_spare q _ bs toks st k s Hok Hc Hst Hf Hk); by rewrite Z2Nat.id|].
  cbv beta. intros [[]|e] s1 Hr; [|done]. destruct (Hr eq_refl) as [[S1 S2] Hcap]. apply wp_modify. intros _. split; [by split|done].
Qed.

(** The blocks that the tokens of a request complete. *)
Definition full_count s q (toks : list Z) : Z :=
  Z.of_nat (length (pending_tokens (start_state s q)) + length toks) / co_block_size s.
Definition completed s (pf : bool) q : Z := match input_tokens pf q with Ok toks => full_count s q toks | Raise _ => 0 end.

Lemma full_count_nonneg s q toks : 0 < co_block_size s -> 0 <= full_count s q toks.
Proof. intros Hbs. apply Z.div_pos; lia. Qed.
Lemma completed_nonneg s pf q : 0 < co_block_size s -> 0 <= completed s pf q.
Proof. intros Hbs. unfold completed. destruct (input_tokens pf q); [by apply full_count_nonneg|done]. Qed.

Lemma record_tokens_spare q toks k s : co_ok rest s -> is_Some (prefix_cache s) -> fits s (declared s) -> 0 <= k ->
  refuses_none (record_tokens q toks) (full_count s q toks) k s.
Proof.
  intros Hok Hc Hf Hk Hsp. destruct (prefix_cache s) as [c|] eqn:Hpc; [|by destruct Hc]. destruct (co_index_of _ _ _ Hok Hpc) as (_ & _ & Hbs).
  pose proof (full_count_nonneg s q toks Hbs) as Hcount. pose proof (spare_less k (k + full_count s q toks) s ltac:(lia) (proj1 Hf) Hsp) as Hsp0.
  unfold record_tokens. apply wp_bind, wp_read. cbv beta iota zeta. unfold Datatypes.id.
  apply wp_if; intros _; [by apply wp_ret|].
  change (from_option (fun x => x) (first_state q) (runtime_states s !! seq_id q)) with (start_state s q). unfold full_count in *. set (st := start_state s q) in *.
  unfold set_state. apply wp_bind, wp_modify. cbv beta iota. apply wp_bind, wp_modify. cbv beta iota.
  match goal with |- wp _ _ ?y => change y with (opened (seq_id q) st s) end.
  pose proof (sp_ok _ _ _ (opened_stepped (seq_id q) st s Hok)) as Hok1. set (s1 := opened (seq_id q) st s) in *.
  assert (runtime_states s1 !! seq_id q = Some st) as Hst1 by (unfold s1, opened; cbn; by rewrite lookup_insert_eq).
  assert (forall n, spare n s -> spare n s1) as Hsame by (by intros n []).
  apply wp_if; intros Hpt; bool_to_prop.
  { apply (record_rest_spare q _ toks st k s1 Hok1 ltac:(by exists c) Hst1 Hf Hk Hbs). rewrite Hpt in Hsp. by apply Hsame. }
  set (n := Z.to_nat _). set (filled := pending_tokens st ++ take n toks). apply wp_bind. unfold set_pending_tokens at 1. apply wp_modify. cbv beta iota.
  fold (put_tokens (seq_id q) filled s1). pose proof (sp_ok _ _ _ (put_stepped (seq_id q) filled s1 Hok1)) as Hok2.
  pose proof (put_lookup (seq_id q) filled s1 st Hst1) as Hst2. set (s2 := put_tokens (seq_id q) filled s1) in *.
  assert (forall n, spare n s -> spare n s2) as Hsame2 by (by intros m []).
  apply wp_if; intros Hfull; bool_to_prop; [apply wp_ret; intros _; split; [by apply Hsame2|done]|].
  assert (Z.of_nat (length (pending_tokens st) + length toks) / co_block_size s = 1 + Z.of_nat (length (drop n toks)) / co_block_size s) as Hdiv.
  { assert (Z.of_nat (length (pending_tokens st) + length toks) = 1 * co_block_size s + Z.of_nat (length (drop n toks))) as ->.
    { rewrite <- Hfull. unfold filled. rewrite length_app, length_take, length_drop. lia. }
    by rewrite Z.div_add_l by lia. }
  rewrite Hdiv in Hsp. assert (0 <= Z.of_nat (length (drop n toks)) / co_block_size s) as Hrest by (apply Z.div_pos; lia). set (m := Z.of_nat (length (drop n toks)) / co_block_size s) in *.
  apply wp_bind. eapply wp_mono; [apply wp_and; [by apply (one_block_ok q _ filled s2 Hok2 ltac:(by exists c) Hst2)|
    apply (add_block_spare q filled _ (k + m) s2 Hok2 ltac:(by exists c) Hst2 Hf ltac:(lia)); apply Hsame2; by replace (k + m + 1) with (k + (1 + m)) by lia]|].
  cbv beta. intros [[]|e] s3 [(Hst3 & Hr3 & _) Hs3]; [|done]. destruct (Hr3 eq_refl) as (_ & st3 & Hl3 & _). destruct (Hs3 eq_refl) as [[S1 S2] Hcap3].
  pose proof (sp_kept _ _ _ Hst3) as Hk3. apply wp_bind. unfold set_pending_tokens at 1. apply wp_modify. cbv beta iota. fold (put_tokens (seq_id q) [] s3).
  pose proof (sp_ok _ _ _ (put_stepped (seq_id q) [] s3 (sp_ok _ _ _ Hst3))) as Hok4.
  eapply wp_mono; [apply (record_rest_spare q _ (drop n toks) _ k _ Hok4 ltac:(by apply (kp_cache _ _ Hk3); exists c) (put_lookup (seq_id q) [] s3 st3 Hl3))|].
  - change (fits s3 (declared s3)). unfold fits, declared, max_recurrent_bytes in *. by rewrite (kp_rows _ _ Hk3), (kp_config _ _ Hk3).
  - done.
  - done.
  - by split.
  - cbv beta. intros r s4 Hr Hok'. destruct (Hr Hok') as [? E]. split; [done|]. rewrite E. exact Hcap3.
Qed.
Lemma record_seq_spare pf q k s : co_ok rest s -> is_Some (prefix_cache s) -> fits s (declared s) -> 0 <= k ->
  refuses_none (record_seq pf q) (completed s pf q) k s.
Proof.
  intros Hok Hc Hf Hk Hsp. destruct (prefix_cache s) as [c|] eqn:Hpc; [|by destruct Hc]. destruct (co_index_of _ _ _ Hok Hpc) as (_ & _ & Hbs).
  pose proof (completed_nonneg s pf q Hbs) as Hcount. pose proof (spare_less k (k + completed s pf q) s ltac:(lia) (proj1 Hf) Hsp) as Hsp0.
  unfold record_seq. apply wp_bind, wp_read. cbv beta iota zeta. unfold id.
  apply wp_if; intros _; [by apply wp_ret|]. unfold completed, input_tokens, id in Hsp. destruct pf.
  - apply wp_if; intros Hch; [by apply wp_ret|]. cbv zeta in Hsp. rewrite Hch in Hsp.
    apply wp_bind, wp_guard; intros _; [done|]. by apply record_tokens_spare.
  - apply wp_bind, wp_lift. destruct (decode_input_token q) as [t|e]; [|done]. by apply record_tokens_spare.
Qed.

Lemma start_state_step s s' sid q : seq_id q <> sid -> stepped sid s s' -> start_state s' q = start_state s q.
Proof. intros Hne Hsp. destruct (sp_others _ _ _ Hsp _ Hne) as (_ & _ & E). unfold start_state. by rewrite E. Qed.
Lemma completed_step s s' sid pf q : seq_id q <> sid -> stepped sid s s' -> completed s' pf q = completed s pf q.
Proof.
  intros Hne Hsp. unfold completed, full_count, co_block_size. by rewrite (start_state_step s s' sid q Hne Hsp), (kp_config _ _ (sp_kept _ _ _ Hsp)).
Qed.
(** The other requests of a batch are unaffected by a step of its first. *)
Lemma batch_others q qs q' : NoDup (seq_id <$> q :: qs) -> q' ∈ qs -> seq_id q' <> seq_id q.
Proof. cbn. intros [Hn _]%NoDup_cons Hin E. apply Hn. rewrite <- E. by apply list_elem_of_fmap_2. Qed.

Lemma record_all_spare pf qs k s : co_ok rest s -> is_Some (prefix_cache s) -> fits s (declared s) -> 0 <= k -> NoDup (seq_id <$> qs) ->
  refuses_none (for_each qs (record_seq pf)) (sumZ (completed s pf <$> qs)) k s.
Proof.
  intros Hok Hc Hf Hk Hnd Hsp. revert s Hok Hc Hf Hsp. induction qs as [|q qs IH]; intros s Hok Hc Hf Hsp; cbn [for_each].
  { apply wp_ret. intros _. cbn in Hsp. by rewrite Z.add_0_r in Hsp. }
  assert (exists c, prefix_cache s = Some c) as [c Hpc] by (destruct Hc; eauto). destruct (co_index_of _ _ _ Hok Hpc) as (_ & _ & Hbs).
  assert (0 <= sumZ (completed s pf <$> qs)) as Hrest by (apply sumZ_nonneg, Forall_fmap, Forall_forall; intros q' _; by apply completed_nonneg).
  change (sumZ (completed s pf <$> q :: qs)) with (completed s pf q + sumZ (completed s pf <$> qs)) in Hsp. rewrite (Z.add_comm (completed s pf q)), Z.add_assoc in Hsp.
  pose proof (record_seq_spare pf q (k + sumZ (completed s pf <$> qs)) s Hok Hc Hf ltac:(apply Z.add_nonneg_nonneg; done) Hsp) as Hw1.
  apply wp_bind. eapply wp_mono; [apply wp_and; [by apply (record_seq_ok pf q)|exact Hw1]|].
  cbv beta. intros [[]|e] s1 [(Hst1 & _) Hs1]; [|done]. destruct (Hs1 eq_refl) as [Hsp1 Hcap1]. pose proof (sp_kept _ _ _ Hst1) as Hk1.
  pose proof (fun q' => batch_others q qs q' Hnd) as Hother. cbn in Hnd. apply NoDup_cons in Hnd as [_ Hnd].
  replace (completed s pf <$> qs) with (completed s1 pf <$> qs) in Hsp1.
  2:{ apply list_fmap_ext. intros i q' Hq'. eapply completed_step; [|exact Hst1]. eapply Hother, list_elem_of_lookup_2, Hq'. }
  eapply wp_mono; [apply (IH Hnd s1); [apply Hst1|by apply (kp_cache _ _ Hk1)| |exact Hsp1]|].
  - unfold fits, declared, max_recurrent_bytes in *. by rewrite (kp_rows _ _ Hk1), (kp_config _ _ Hk1).
  - cbv beta. intros r s2 Hr Hok2. destruct (Hr Hok2). split; [done|congruence].
Qed.

(** In [s'] the request is marked as refused for lack of room, or its state is
    the one that the tokens of the step determine. *)
Definition takes_record s (pf : bool) q s' : Prop := seq_id q ∈ capacity_limited_seq_ids s' \/
  forall toks, input_tokens pf q = Ok toks -> multimodal_digest (tags q) = None -> toks <> [] ->
    exists st', runtime_states s' !! seq_id q = Some st' /\ recorded (co_config s) (start_state s q) toks = Ok st'.

Lemma record_all_taken pf qs s : co_ok rest s -> is_Some (prefix_cache s) -> NoDup (seq_id <$> qs) -> tokens_fine s -> inputs_fine pf qs ->
  wp (for_each qs (record_seq pf)) (fun r s' => is_ok r = true ->
    Forall (fun q => takes_record s pf q s') qs /\ capacity_limited_seq_ids s ⊆ capacity_limited_seq_ids s' /\
    forall x, x ∉ seq_id <$> qs -> runtime_states s' !! x = runtime_states s !! x) s.
Proof.
  intros Hok Hc Hnd Ht Hin. revert s Hok Hc Ht. induction qs as [|q qs IH]; intros s Hok Hc Ht; cbn [for_each]; [by apply wp_ret|].
  assert (exists c, prefix_cache s = Some c) as [c Hpc] by (destruct Hc; eauto). destruct (co_index_of _ _ _ Hok Hpc) as (_ & _ & Hbs).
  apply wp_bind. eapply wp_mono; [by apply (record_seq_ok pf q)|]. cbv beta. intros [[]|e] s1 (Hst1 & Hr1 & _); [|done].
  destruct (Hr1 eq_refl) as [_ Hrec]. pose proof (sp_kept _ _ _ Hst1) as Hk1. pose proof (fun q' => batch_others q qs q' Hnd) as Hother.
  cbn in Hnd. apply NoDup_cons in Hnd as [Hn Hnd]. apply Forall_cons in Hin as [(toks & Htk & Hi) Hin]. destruct (Hrec toks Htk Hi Ht Hbs) as [Ht1 Hst].
  eapply wp_mono; [apply (IH Hnd Hin s1); [apply Hst1|by apply (kp_cache _ _ Hk1)|done]|]. cbv beta.
  intros r s2 Hr Hok2. destruct (Hr Hok2) as (Hall & Hcap & Hsame). split_and!.
  - constructor.
    + destruct (decide (seq_id q ∈ capacity_limited_seq_ids s2)) as [Hl|Hl]; [by left|right]. intros toks' Htk' Hm Hne. assert (toks' = toks) as -> by congruence.
      destruct Hst as (st' & E & ?); [intros Hl1; by apply Hl, Hcap|done|done|]. exists st'. by rewrite Hsame.
    + apply Forall_forall. intros q' Hq'. rewrite Forall_forall in Hall. destruct (Hall q' Hq') as [?|Hst']; [by left|right].
      rewrite (start_state_step _ _ _ q' (Hother q' Hq') Hst1), (kp_config _ _ Hk1) in Hst'. exact Hst'.
  - etrans; [apply Hst1|exact Hcap].
  - intros x Hx. cbn in Hx. apply not_elem_of_cons in Hx as [Hx Hxs]. rewrite (Hsame x Hxs). by apply Hst1.
Qed.
End plan.
