(* ===== verification/CoordinatorCommit.v ===== *)
(** * The prefix cache coordinator: committing blocks

    [commit_pending_blocks]: waiting blocks enter the index held by their
    request, and a block another request waited for is held as well.  A failure
    gives back what was reserved and leaves every block counted; when what waits
    is a plan and the cache manager does not raise, nothing fails and nothing
    waits afterwards. *)

From stdpp Require Import base gmap list strings.
From Stdlib Require Import ZArith Lia.
From S2P Require Import Prelude PyDict PyBytes Sha256 RoutingMembership RadixTree RadixForest PrefixHash.
From S2P Require Import PrefixIndex PrefixIndexFacts PrefixCapacity PrefixTransfer PrefixCommit PrefixEviction PrefixFreeable PrefixContract PrefixEpochs.
From S2P Require Import SlotRanges PrefixClient PrefixRefs SamplingParams Sequence PrefixLookup RecurrentRows.
From S2P Require Import PrefixCoordinator CoordinatorInvariant CoordinatorMoves CoordinatorRecord CoordinatorPlan.

(** ** What the index does *)

Section index.
Context `{Digest}.
#[local] Abbreviation Index := (RadixPrefixIndex RadixTreeBackend).
Implicit Types (ix : Index) (o : nat) (b : PrefixCacheBlock).

Lemma insert_returns ix o b : index_inv ix -> store ix !! o = Some b -> 0 <= ref_count b -> residency_validate (residency b) = Ok tt ->
  get_block ix (stable_block_id b) = None -> (forall m, max_blocks (PrefixIndex.config ix) = Some m -> live ix < m) ->
  match parent_block_id b with
  | None => True
  | Some x => exists o' pb, get_block ix x = Some (o', pb) /\ parent_covers (residency b) (residency pb)
  end -> wp (insert_block o) (fun r _ => r = Ok o) ix.
Proof.
  intros Hinv Ho Href Hv Hnew Hmax Hpar. pose proof (proj1 Hinv) as Hwf. apply (get_block_None ix _ Hwf) in Hnew.
  assert (wp (access ← tick; insert_commit o b (stable_block_id b) access) (fun r _ => r = Ok o) ix) as Hgo.
  { apply wp_bind, wp_tick. intros c. cbv beta iota. eapply wp_mono.
    - apply insert_commit_spec; [by apply clock_inv|done|done|done|done|done|exact Hpar|exact Hmax].
    - by intros r ix' (_ & -> & _). }
  unfold insert_block. apply wp_bind, wp_deref; [intros b0 Hb0|congruence]. assert (b0 = b) as -> by congruence.
  apply wp_bind, wp_lift. rewrite Hv. apply wp_bind, wp_read. cbv beta iota. rewrite Hnew.
  apply wp_bind, wp_read. cbv beta iota. apply wp_bind, wp_when; intros Hfull.
  { destruct (max_blocks (PrefixIndex.config ix)) as [m|]; [|done]. specialize (Hmax m eq_refl). bool_to_prop. lia. }
  apply wp_bind, wp_read. cbv beta iota. apply wp_bind. unfold insert_commit in Hgo. revert Hpar Hgo.
  destruct (parent_block_id b) as [x|] eqn:Hx.
  - intros (op & pb & -> & Hd & Hh) Hgo.
    apply wp_bind, wp_guard; intros E; [apply andb_prop in E as [E1 E2]; rewrite (Hd E1) in E2; done|].
    apply wp_guard; intros E'; [apply andb_prop in E' as [E1 E2]; rewrite (Hh E1) in E2; done|]. exact Hgo.
  - intros _ Hgo. by apply wp_ret.
Qed.

Lemma rollback_seen ix o : index_inv ix -> wp (rollback_inserted_leaf o) (fun r ix' => client_step ix ix' /\
  match r with
  | Ok _ => exists id en, seen ix !! id = Some en /\ e_obj en = o /\ seen ix' = delete id (seen ix)
  | Raise _ => seen ix' = seen ix
  end) ix.
Proof.
  intros Hinv. pose proof (proj1 (run_op_later ix (Rollback o) Hinv I)) as Hc. cbn [run_op] in Hc.
  pose proof (rollback_inserted_leaf_spec ix o Hinv) as Hs. unfold wp in *.
  destruct (rollback_inserted_leaf o ix) as [r ix']. cbn in *. destruct Hs as [Hinv' Hr]. split; [by split|].
  destruct r as [[]|e]; [|by subst]. destruct Hr as (b & Hg & _ & Hg'). exists (stable_block_id b), (entry_of (o, b)).
  split_and!; [by rewrite lookup_seen, Hg|done|]. apply map_eq. intros id. rewrite lookup_seen, Hg'.
  case_decide; [subst; by rewrite lookup_delete_eq|]. by rewrite lookup_delete_ne, lookup_seen.
Qed.
End index.

Section commit.
Context {DType Device Content Event : Type} `{TorchTypes DType Device Content Event}.
Context {M K : Type} `{PrefixKV M K} `{Digest}.
#[local] Abbreviation Co := (@PrefixCacheCoordinator DType Device Content Event M K).
#[local] Abbreviation CoAct := (Act PyExn Co).
#[local] Abbreviation Index := (RadixPrefixIndex RadixTreeBackend).
#[local] Abbreviation Pending := (@PendingMixedPrefixBlock DType Device Content K).
#[local] Abbreviation Payload := (@MixedPrefixBlockPayload DType Device Content K).
Implicit Types (s : Co) (q : Sequence) (sid : Z) (o : nat) (fl : Flight) (p : Pending).

(** ** A new block object *)

Lemma ok_payload fl s x (y : Payload) : co_ok fl s -> payloads s !! x = None -> co_ok fl (s <| payloads ::= <[x := y]> |>).
Proof.
  intros [Hix Hb Hr [L1 L2 L3 L4] [R1 R2 R3]] Hx. set (s' := s <| payloads ::= _ |>).
  assert (forall id en, blk s !! id = Some en -> payloads s' !! e_payload en = payloads s !! e_payload en) as Hsame.
  { intros id en Hen. destruct (Hb id en Hen) as (_ & [z Hz] & _). unfold s'. cbn. rewrite lookup_insert_ne; [done|]. congruence. }
  split; [exact Hix| |exact Hr|by split|].
  - intros id en Hen. destruct (Hb id en Hen) as (? & ? & ?). unfold entry_ok, bytes_of. rewrite (Hsame id en) by done. done.
  - split; [exact R1|exact R2|]. unfold live_bytes, block_bytes.
    replace ((fun en => [bytes_of (payloads s') (e_payload en)]) <$> blk s') with ((fun en => [bytes_of (payloads s) (e_payload en)]) <$> blk s); [exact R3|].
    change (blk s') with (blk s). apply map_eq. intros id. rewrite !lookup_fmap. destruct (blk s !! id) as [en|] eqn:Hen; [|done].
    pose proof (Hsame id en Hen) as E. unfold s' in E |- *. cbn in E |- *. unfold bytes_of. by rewrite E.
Qed.

(** The new object of a waiting block: nothing else refers to it. *)
Definition constructed s p o s' : Prop := exists c ix', prefix_cache s = Some c /\ index_inv ix' /\
  PrefixIndex.config ix' = PrefixIndex.config (the_index c) /\ seen ix' = seen (the_index c) /\
  let x := fresh (dom (payloads s)) in
  s' = with_index (s <| payloads ::= <[x := pending_payload p]> |>) c ix' /\ store ix' !! o = Some (co_new_block (co_block_size s) p x) /\
  payloads s' !! x = Some (pending_payload p) /\ forall id en, blk s !! id = Some en -> e_obj en <> o.
Lemma construct_ok fl s p : co_ok fl s -> is_Some (prefix_cache s) ->
  wp (construct_block p) (fun r s' => exists o, r = Ok o /\ co_ok fl s' /\ constructed s p o s') s.
Proof.
  intros Hok [c Hc]. destruct (co_index_of _ _ _ Hok Hc) as (Hinv & _). unfold construct_block.
  apply wp_bind, wp_read. cbv beta iota zeta. unfold id. apply wp_bind, wp_modify. cbv beta iota.
  set (x := fresh (dom (payloads s))). set (s1 := s <| payloads ::= _ |>). assert (payloads s !! x = None) as Hx by (apply not_elem_of_dom, is_fresh).
  pose proof (ok_payload fl s x (pending_payload p) Hok Hx) as Hok1. fold s1 in Hok1.
  eapply (co_wp_on_prefix _ _ s1 c); [done|]. unfold wp. cbn [fst snd].
  destruct (construct_seen (the_index c) (co_new_block (co_block_size s) p x) Hinv) as ([Hinv' Hcf] & Hs & Ho & Hfresh).
  exists (fresh (dom (store (the_index c)))). split; [done|]. split; [by apply co_index_same|]. eexists c, _.
  split; [done|]. split; [exact Hinv'|]. split; [exact Hcf|]. split; [exact Hs|]. cbv zeta. split; [done|]. split; [exact Ho|]. split.
  - unfold s1. cbn. by rewrite lookup_insert_eq.
  - intros id en Hen. rewrite (co_blk_index s c Hc) in Hen. by apply (Hfresh id).
Qed.

(** ** The block enters the index *)

Lemma block_bytes_insert bl (pl : gmap nat Payload) id en : bl !! id = None -> block_bytes (<[id := en]> bl) pl = bytes_of pl (e_payload en) + block_bytes bl pl.
Proof.
  intros Hn. unfold block_bytes. rewrite fmap_insert, flat_insert, sumZ_app by (by rewrite lookup_fmap, Hn). cbn. lia.
Qed.
Lemma counted_new bl held id en : bl !! id = None -> (forall id' en', bl !! id' = Some en' -> e_obj en' <> e_obj en) -> e_refs en = 1 ->
  counted bl held -> counted (<[id := en]> bl) (e_obj en :: held).
Proof.
  intros Hn Hfresh Hone [Hc Hf]. split.
  - intros id' en' Hen'. apply lookup_insert_Some in Hen' as [[<- <-]|[Hne Hen']].
    + rewrite count_occ_cons_eq by done. rewrite (proj1 (count_occ_not_In Nat.eq_dec held (e_obj en))); [done|].
      intros Hin. apply list_elem_of_In in Hin. rewrite Forall_forall in Hf. destruct (Hf _ Hin) as (id' & en' & Hen' & E). by apply (Hfresh id' en').
    + rewrite count_occ_cons_neq by (by apply not_eq_sym, (Hfresh id')). by apply (Hc id').
  - constructor; [exists id, en; by rewrite lookup_insert_eq|]. eapply Forall_impl; [exact Hf|].
    intros o (id' & en' & Hen' & <-). exists id', en'. split; [|done]. rewrite lookup_insert_ne; [done|congruence].
Qed.

Definition held_by sid o s : Co := s <| seq_id_to_materialized_blocks ::= fun m => <[sid := default [] (m !! sid) ++ [o]]> m |>.
Lemma held_by_held s sid sid' o : held_blocks s sid ⊆ held_blocks (held_by sid' o s) sid.
Proof.
  intros x. unfold held_blocks, held_by. cbn. rewrite !elem_of_app. intros [?|Hx]; [by left|]. right. destruct (decide (sid = sid')) as [->|Hne].
  - rewrite lookup_insert_eq. cbn. apply elem_of_app. by left.
  - by rewrite lookup_insert_ne.
Qed.
Lemma entered_ok refs res ent s s1 p o ix2 c1 sid b' : co_ok (mkFlight refs (reservation_of p :: res) ent) s -> constructed s p o s1 ->
  co_ok (mkFlight refs (reservation_of p :: res) ent) s1 -> prefix_cache s1 = Some c1 -> client_step (the_index c1) ix2 ->
  seen ix2 = <[pending_block_id p := entry_of (o, b')]> (blk s) -> b' = co_new_block (co_block_size s) p (fresh (dom (payloads s))) ->
  co_ok (mkFlight refs res (reservation_of p :: ent)) (held_by sid o (with_index s1 c1 ix2)).
Proof.
  intros Hok0 (c & ix1 & Hc & Hinv1 & Hcf1 & Hs1 & E1 & Ho & Hpl & Hfresh) Hok Hc1 [Hinv2 Hcf2] Hs2 ->.
  set (id := pending_block_id p) in *. set (x := fresh (dom (payloads s))) in *. set (en := entry_of (o, co_new_block (co_block_size s) p x)) in *.
  assert (blk s1 = blk s) as Hb1 by (rewrite E1, co_blk_with_index, Hs1; by rewrite (co_blk_index s c Hc)).
  set (s2 := held_by sid o (with_index s1 c1 ix2)). assert (blk s2 = <[id := en]> (blk s1)) as Hb2 by (by rewrite Hb1).
  assert (holders s2 ≡ₚ o :: holders s1) as Hh2.
  { unfold holders, s2, held_by. cbn. rewrite flat_push. solve_Permutation. }
  destruct Hok as [Hix Hb Hr L R]. cbn [extra_refs reserved entered] in *.
  assert (blk s1 !! id = None) as Hnew by (apply (rm_outside _ _ R); by left).
  assert (bytes_of (payloads s1) x = recurrent_bytes (pending_payload p)) as Hby by (unfold bytes_of; by rewrite Hpl).
  assert (0 <= recurrent_bytes (pending_payload p)) as Hnn.
  { pose proof (ld_nonneg _ _ L) as Hn. apply Forall_app in Hn as [_ Hn]. by apply Forall_cons in Hn as [Hn _]. }
  split; cbn [extra_refs reserved entered].
  - unfold index_ok in *. rewrite Hc1 in Hix. cbn. rewrite Hcf2. destruct Hix as (? & _ & ?). done.
  - intros id' en' Hen'. rewrite Hb2 in Hen'. change (payloads s2) with (payloads s1). apply lookup_insert_Some in Hen' as [[<- <-]|[_ Hen']]; [|by apply (Hb id')].
    split; [done|]. change (e_payload en) with x. rewrite Hby, Hpl. by split; [eexists|].
  - rewrite Hb2. eapply counted_perm; [|apply (counted_new (blk s1) (refs ++ holders s1) id en)]; [change (e_obj en) with o; rewrite Hh2; solve_Permutation|done| |done|exact Hr].
    rewrite Hb1. exact Hfresh.
  - eapply (ledger_perm (ent ++ (reservation_of p :: res) ++ waiting s1)); [change (waiting s2) with (waiting s1); solve_Permutation|]. destruct L. by split.
  - change (waiting s2) with (waiting s1). destruct R as [R1 R2 R3]. destruct L as [Hnd _ _ _]. split.
    + intros id' Hid'. rewrite Hb2, lookup_insert_ne; [apply R1; by right|]. intros <-. rewrite fmap_app in Hnd. apply NoDup_app in Hnd as (_ & _ & Hnd).
      cbn in Hnd. apply NoDup_cons in Hnd as [Hni _]. by apply Hni.
    + intros m Hm1 Hm2. specialize (R2 m ltac:(by rewrite Hc1) Hm2). rewrite Hb2, map_size_insert_None by done. cbn in R2 |- *. lia.
    + unfold live_bytes. rewrite Hb2. change (payloads s2) with (payloads s1). rewrite block_bytes_insert by done. change (e_payload en) with x. rewrite Hby.
      change ((reservation_of p :: res) ++ waiting s1) with (reservation_of p :: (res ++ waiting s1)) in R3. rewrite total_cons in R3.
      change (reservation_of p).2 with (recurrent_bytes (pending_payload p)) in R3.
      change (max_recurrent_bytes s2) with (max_recurrent_bytes s1). unfold live_bytes in R3. lia.
Qed.

(** ** The block leaves again *)

Lemma co_remove_first_perm o l : o ∈ l -> l ≡ₚ o :: remove_first o l.
Proof.
  induction l as [|y l IH]; [by intros ?%elem_of_nil|]. intros Hin. cbn. destruct (Nat.eqb_spec y o) as [->|Hne]; [done|].
  apply elem_of_cons in Hin as [->|Hin]; [done|]. rewrite (IH Hin) at 1. constructor.
Qed.
Lemma flat_remove (m : gmap Z (list nat)) sid o : o ∈ default [] (m !! sid) -> flat m ≡ₚ o :: flat (alter (remove_first o) sid m).
Proof.
  destruct (m !! sid) as [l|] eqn:Hl; cbn; [|by intros ?%elem_of_nil]. intros Hin.
  replace (alter (remove_first o) sid m) with (<[sid := remove_first o l]> m).
  - rewrite flat_insert_delete, (flat_delete m sid l) by done. rewrite (co_remove_first_perm o l Hin) at 1. done.
  - apply map_eq. intros x. destruct (decide (x = sid)) as [->|Hne]; [by rewrite lookup_insert_eq, lookup_alter_eq, Hl|by rewrite lookup_insert_ne, lookup_alter_ne].
Qed.

Lemma counted_delete bl held id en : bl !! id = Some en -> e_refs en = 0 -> counted bl held -> counted (delete id bl) held.
Proof.
  intros Hen Hz [Hc Hf]. split.
  - intros id' en' Hen'. apply lookup_delete_Some in Hen' as [_ Hen']. by apply (Hc id').
  - rewrite Forall_forall in *. intros o Ho. destruct (Hf o Ho) as (id' & en' & Hen' & <-). exists id', en'. split; [|done].
    rewrite lookup_delete_ne; [done|]. intros <-. assert (en' = en) as -> by congruence. rewrite (Hc id en Hen) in Hz.
    apply list_elem_of_In, (count_occ_In Nat.eq_dec) in Ho. lia.
Qed.
Lemma left_ok refs res ent s c ix' p en : co_ok (mkFlight refs res (reservation_of p :: ent)) s -> prefix_cache s = Some c ->
  client_step (the_index c) ix' -> blk s !! pending_block_id p = Some en -> e_refs en = 0 ->
  recurrent_bytes (pending_payload p) = bytes_of (payloads s) (e_payload en) ->
  seen ix' = delete (pending_block_id p) (seen (the_index c)) -> co_ok (mkFlight refs (reservation_of p :: res) ent) (with_index s c ix').
Proof.
  intros [Hix Hb Hr L R] Hc [Hinv Hcf] Hen Hz Hby Hs. rewrite <- (co_blk_index s c Hc) in Hs. cbn [extra_refs reserved entered] in *.
  set (id := pending_block_id p) in *. set (s' := with_index s c ix'). assert (blk s' = delete id (blk s)) as Hb' by done.
  split; cbn [extra_refs reserved entered].
  - unfold index_ok in *. rewrite Hc in Hix. cbn. rewrite Hcf. by destruct Hix as (? & _ & ?).
  - intros id' en' Hen'. rewrite Hb' in Hen'. apply lookup_delete_Some in Hen' as [_ Hen']. by apply (Hb id').
  - rewrite Hb'. by eapply counted_delete.
  - eapply (ledger_perm ((reservation_of p :: ent) ++ res ++ waiting s)); [change (waiting s') with (waiting s); solve_Permutation|]. destruct L. by split.
  - destruct R as [R1 R2 R3]. change (waiting s') with (waiting s). split.
    + intros id' Hid'. rewrite Hb'. apply elem_of_cons in Hid' as [->|Hid']; [apply lookup_delete_eq|].
      destruct (decide (id' = id)) as [->|Hne]; [apply lookup_delete_eq|]. rewrite lookup_delete_ne by done. by apply R1.
    + intros m _ Hm. specialize (R2 m ltac:(by rewrite Hc) Hm). rewrite Hb'. cbn.
      pose proof (map_size_delete_Some id (blk s) ltac:(eauto)) as Hsz. rewrite Hsz. assert (size (blk s) <> 0)%nat; [|lia].
      intros E. apply map_size_empty_iff in E. rewrite E in Hen. by rewrite lookup_empty in Hen.
    + change ((reservation_of p :: res) ++ waiting s) with (reservation_of p :: (res ++ waiting s)). rewrite total_cons.
      change (reservation_of p).2 with (recurrent_bytes (pending_payload p)). change (max_recurrent_bytes s') with (max_recurrent_bytes s).
      unfold live_bytes in *. rewrite Hb'. change (payloads s') with (payloads s).
      rewrite <- (insert_delete_id _ _ _ Hen) in R3. rewrite block_bytes_insert in R3 by apply lookup_delete_eq. lia.
Qed.

(** What committing leaves alone. *)
Record committing s s' : Prop := {
  cm_config : co_config s' = co_config s;
  cm_attached : seq_id_to_prefix_blocks s' = seq_id_to_prefix_blocks s;
  cm_rows : recurrent_state_manager s' = recurrent_state_manager s;
  cm_cache : is_Some (prefix_cache s') <-> is_Some (prefix_cache s);
  cm_states : runtime_states s' = runtime_states s;
  cm_waiting : pending_blocks s' = pending_blocks s;
  cm_limited : capacity_limited_seq_ids s' = capacity_limited_seq_ids s;
}.
#[global] Instance committing_refl : Reflexive committing.
Proof. by split. Qed.
#[global] Instance committing_trans : Transitive committing.
Proof. intros s1 s2 s3 [] []. split; try congruence. by etransitivity. Qed.

(** Either way every reservation is accounted for. *)
Definition unsure refs res ent p s : Prop :=
  co_ok (mkFlight refs res (reservation_of p :: ent)) s \/ co_ok (mkFlight refs (reservation_of p :: res) ent) s.
Lemma unmark_ok refs res ent s q p sid en : co_ok (mkFlight refs res (reservation_of p :: ent)) s -> is_Some (prefix_cache s) ->
  blk s !! pending_block_id p = Some en -> e_refs en = 1 -> e_obj en ∈ default [] (seq_id_to_materialized_blocks s !! sid) ->
  recurrent_bytes (pending_payload p) = bytes_of (payloads s) (e_payload en) ->
  wp (unmark sid q p (e_obj en)) (fun _ s' => unsure refs res ent p s' /\ committing s s') s.
Proof.
  intros Hok Hc Hen Hone Hin Hby. unfold unmark. apply wp_bind, wp_any_kv. intros r m. pose proof (ok_kv _ _ m Hok) as Hok1.
  destruct r as [[]|e]; [|split; [by left|by split]]. set (s1 := s <| cache_manager := m |>) in *. apply wp_bind, wp_modify. cbv beta iota.
  set (s2 := s1 <| seq_id_to_materialized_blocks ::= _ |>).
  assert (co_ok (mkFlight (e_obj en :: refs) res (reservation_of p :: ent)) s2) as Hok2.
  { destruct Hok1 as [Hix Hb Hr L R]. split; [exact Hix|exact Hb| |destruct L; by split|destruct R; by split].
    eapply counted_perm; [|exact Hr]. cbn [extra_refs]. unfold holders, s2. cbn. rewrite (flat_remove (seq_id_to_materialized_blocks s) sid _ Hin). solve_Permutation. }
  destruct Hc as [c Hc]. assert (prefix_cache s2 = Some c) as Hc2 by done. destruct (co_index_of _ _ _ Hok2 Hc2) as (Hinv & _).
  assert (blk s2 !! pending_block_id p = Some en) as Hen2 by exact Hen. pose proof Hen2 as Hen3. rewrite (co_blk_index s2 c Hc2) in Hen3.
  apply wp_bind. eapply co_wp_on_prefix; [done|]. eapply wp_mono; [apply (set_ref_seen _ _ en 0 negative_ref Hinv Hen3); done|]. cbv beta.
  intros r ix' (-> & Hst & Hs). set (s3 := with_index s2 c ix').
  assert (co_ok (mkFlight refs res (reservation_of p :: ent)) s3) as Hok3.
  { eapply (refs_moved s2 c ix' (pending_block_id p) en 0); [exact Hok2|done|done|done|exact Hs|]. rewrite Hs, <- (co_blk_index s2 c Hc2).
    pose proof (co_refs _ _ Hok2) as Hr. cbn in Hr. destruct (counted_release _ _ _ _ (blk_apart _ _ Hok2) Hen2 Hr) as [_ Hcnt].
    replace (en <| e_refs := 0 |>) with (en <| e_refs ::= fun n => n - 1 |>); [exact Hcnt|]. destruct en. cbn in Hone. subst. done. }
  assert (forall ix, committing s (with_index s3 (c <| the_index := ix' |>) ix)) as Hcm by (intros ix; by split).
  set (c3 := c <| the_index := ix' |>) in *. assert (prefix_cache s3 = Some c3) as Hc3 by done. destruct (co_index_of _ _ _ Hok3 Hc3) as (Hinv3 & _).
  apply wp_bind. eapply co_wp_on_prefix; [exact Hc3|]. eapply wp_mono; [by apply rollback_seen|]. cbv beta. intros r ix4 [Hst4 Hr4].
  destruct r as [[]|e]; unfold free_prefix_recurrent_payload; cbv beta iota.
  - apply wp_ret. split; [|done]. right. destruct Hr4 as (id & en4 & Hen4 & Ho & Hs4).
    assert (seen (the_index c3) !! pending_block_id p = Some (en <| e_refs := 0 |>)) as Hen5 by (cbn; rewrite Hs; apply lookup_insert_eq).
    assert (id = pending_block_id p) as -> by (apply (seen_apart _ Hinv3 id (pending_block_id p) en4 (en <| e_refs := 0 |>) Hen4 Hen5 Ho)).
    by apply (left_ok refs res ent s3 c3 ix4 p (en <| e_refs := 0 |>)).
  - split; [|done]. left. by apply co_index_same.
Qed.

(** ** One block *)

Lemma commit_inserts refs res ent s s1 p o c ix1 x : co_ok (mkFlight refs (reservation_of p :: res) ent) s -> prefix_cache s = Some c ->
  seen ix1 = seen (the_index c) -> PrefixIndex.config ix1 = PrefixIndex.config (the_index c) -> index_inv ix1 ->
  store ix1 !! o = Some (co_new_block (co_block_size s) p x) ->
  wp (insert_block o) (fun r _ => parent_ready s [] (pending_parent_id p) -> r = Ok o) ix1.
Proof.
  intros Hok Hc Hs1 Hcf1 Hinv1 Ho1. unfold wp. intros Hp. destruct (co_index_of _ _ _ Hok Hc) as (_ & Hcf & _).
  rewrite <- (co_blk_index s c Hc) in Hs1. pose proof (co_room _ _ Hok) as [R1 R2 _]. cbn [reserved] in *.
  apply (insert_returns ix1 o _ Hinv1 Ho1); [done|done| | |].
  - specialize (R1 (pending_block_id p) ltac:(by left)). rewrite <- Hs1, lookup_seen in R1. by apply fmap_None in R1.
  - intros m Hm. rewrite Hcf1, Hcf in Hm. rewrite (live_seen _ (proj1 Hinv1)), Hs1.
    specialize (R2 m ltac:(by rewrite Hc) Hm). cbn in R2. lia.
  - change (parent_block_id (co_new_block (co_block_size s) p x)) with (pending_parent_id p).
    destruct (pending_parent_id p) as [y|]; [|done]. destruct Hp as [(z & en & Hen & _)|[]%elem_of_nil].
    destruct (co_blocks _ _ Hok y en Hen) as (Hdev & _). rewrite <- Hs1, lookup_seen in Hen.
    apply fmap_Some in Hen as ([o' pb] & Hg & ->). exists o', pb. split; [done|]. cbn in Hdev. rewrite Hdev. by split.
Qed.
Lemma commit_block_ok refs res ent s q p : co_ok (mkFlight refs (reservation_of p :: res) ent) s -> is_Some (prefix_cache s) ->
  wp (commit_block q p) (fun r s' => committing s s' /\
    match r with
    | Ok _ => pending_duplicate_refs s' = pending_duplicate_refs s /\ co_ok (mkFlight refs res (reservation_of p :: ent)) s' /\ held_id s' (seq_id q) (pending_block_id p) /\ keeps_held s s'
    | Raise _ => unsure refs res ent p s'
    end /\ (kv_total -> parent_ready s [] (pending_parent_id p) -> is_ok r = true)) s.
Proof.
  intros Hok [c Hc]. destruct (co_index_of _ _ _ Hok Hc) as (Hinv & Hcf & _).
  assert (blk s !! pending_block_id p = None) as Hnew by (apply (rm_outside _ _ (co_room _ _ Hok)); by left).
  assert (blocks (the_index c) !! pending_block_id p = None) as Hnb.
  { apply (get_block_None _ _ (proj1 Hinv)). pose proof Hnew as Hn. rewrite (co_blk_index s c Hc), lookup_seen in Hn. by apply fmap_None in Hn. }
  unfold commit_block. apply wp_bind, wp_prefix_read; [|by rewrite Hc]. intros c' Hc'. assert (c' = c) as -> by congruence. clear Hc'.
  apply wp_bind, wp_guard; intros Hg; [unfold has_block, has_key in Hg; by rewrite Hnb in Hg|].
  apply wp_bind. eapply wp_mono; [apply (construct_ok _ s p Hok); eauto|]. cbv beta. intros r s1 (o & -> & Hok1 & Hcon).
  pose proof Hcon as (c1 & ix1 & Hc1 & Hinv1 & Hcf1 & Hs1 & Hx). cbv zeta in Hx. set (x := fresh (dom (payloads s))) in *.
  destruct Hx as (Hs1' & Ho1 & Hpl & Hfresh). assert (c1 = c) as -> by congruence.
  set (ci := c <| the_index := ix1 |>). assert (prefix_cache s1 = Some ci) as Hci by (by rewrite Hs1').
  set (b := co_new_block (co_block_size s) p x) in *.
  assert (blk s1 = blk s) as Hb1 by (rewrite Hs1', co_blk_with_index, Hs1; by rewrite (co_blk_index s c Hc)).
  assert (committing s s1 /\ pending_duplicate_refs s1 = pending_duplicate_refs s) as [Hcm1 Hd1].
  { rewrite Hs1'. split; [by split|done]. }
  apply wp_bind. eapply co_wp_on_prefix; [exact Hci|]. change (the_index ci) with ix1.
  eapply wp_mono; [apply wp_and; [exact (insert_seen ix1 o b Hinv1 Ho1 ltac:(done))|]|].
  { exact (commit_inserts refs res ent s s1 p o c ix1 x Hok Hc Hs1 Hcf1 Hinv1 Ho1). }
  cbv beta. intros r ix2 [[Hst2 Hins] Hret]. rewrite Hs1, <- (co_blk_index s c Hc) in Hins.
  assert (forall y, committing s (with_index s1 ci y)) as Hcm2 by (intros y; etrans; [exact Hcm1|]; by split).
  destruct r as [o'|e].
  2:{ split_and!; [done| |intros _ Hp; by specialize (Hret Hp)]. right. apply co_index_same; [done|done|done|].
      change (the_index ci) with ix1. by rewrite Hins, Hs1, (co_blk_index s c Hc). }
  change (stable_block_id b) with (pending_block_id p) in Hins. rewrite Hnew in Hins. destruct Hins as (-> & Hs2 & _).
  apply wp_bind, wp_guard; intros Hg2; bool_to_prop; [done|]. apply wp_bind, wp_modify. cbv beta iota.
  fold (held_by (seq_id q) o (with_index s1 ci ix2)). set (s2 := held_by (seq_id q) o (with_index s1 ci ix2)).
  assert (co_ok (mkFlight refs res (reservation_of p :: ent)) s2) as Hok2 by (by eapply (entered_ok refs res ent s s1 p o ix2 ci (seq_id q) b)).
  assert (committing s s2 /\ pending_duplicate_refs s2 = pending_duplicate_refs s) as [Hcm3 Hd3].
  { split; [|exact Hd1]. etrans; [apply (Hcm2 ix2)|]. by split. }
  set (en := entry_of (o, b)). assert (blk s2 !! pending_block_id p = Some en) as Hen2 by (change (blk s2) with (seen ix2); rewrite Hs2; apply lookup_insert_eq).
  assert (o ∈ default [] (seq_id_to_materialized_blocks s2 !! seq_id q)) as Hin2.
  { unfold s2, held_by. cbn. rewrite lookup_insert_eq. cbn. apply elem_of_app. right. by left. }
  apply wp_on_error, wp_on_kv. unfold wp at 1. pose proof (fun Hk : kv_total => kt_mark Hk q (kv_payload (pending_payload p)) (cache_manager s2)) as Hmk.
  destruct (mark_materialized_prefix_kv_payload q (kv_payload (pending_payload p)) (cache_manager s2)) as [[[]|e] m]; cbn [fst snd] in *.
  - split_and!; [etrans; [exact Hcm3|by split]|exact Hd3|by apply ok_kv| | |done].
    + exists en. split; [exact Hen2|]. apply elem_of_app. by right.
    + intros sid id (en' & Hen' & Ho'). exists en'. split.
      * change (seen ix2 !! id = Some en'). rewrite Hs2, lookup_insert_ne; [done|]. intros <-. congruence.
      * apply (held_by_held (with_index s1 ci ix2)). unfold held_blocks in *. by rewrite Hs1'.
  - set (s3 := s2 <| cache_manager := m |>). eapply wp_mono.
    + apply (unmark_ok refs res ent s3 q p (seq_id q) en); try done; [by apply ok_kv|].
      change (bytes_of (payloads s3) (e_payload en)) with (bytes_of (payloads s1) x). unfold bytes_of. by rewrite Hpl.
    + cbv beta. intros r s4 [Hun Hcm4]. assert (committing s s4) as Hcm by (etrans; [exact Hcm3|]; etrans; [|exact Hcm4]; by split).
      destruct r; (split_and!; [done|done|intros Hk; by specialize (Hmk Hk)]).
Qed.
End commit.

(** ** A batch *)

Section batch.
Context {DType Device Content Event : Type} `{TorchTypes DType Device Content Event}.
Context {M K : Type} `{PrefixKV M K} `{Digest}.
#[local] Abbreviation Co := (@PrefixCacheCoordinator DType Device Content Event M K).
#[local] Abbreviation Pending := (@PendingMixedPrefixBlock DType Device Content K).
Implicit Types (s : Co) (q : Sequence) (sid : Z) (o : nat) (p : Pending) (ps : list Pending) (ds : list Z) (L : list (Z * Pending)).

(** ** The blocks of a request *)

Lemma committing_unreserved s s' : unreserved s s' -> committing s s' /\ pending_duplicate_refs s' = pending_duplicate_refs s /\ keeps_held s s'.
Proof. intros ->. split; [by split|]. split; [done|]. by intros ? ?. Qed.

Lemma ok_materialized_none fl s sid : default [] (seq_id_to_materialized_blocks s !! sid) = [] -> co_ok fl s ->
  co_ok fl (s <| seq_id_to_materialized_blocks ::= delete sid |>).
Proof.
  intros Hn [Hix Hb Hr L R]. split; [exact Hix|exact Hb| |destruct L; by split|destruct R; by split].
  eapply counted_perm; [|exact Hr]. unfold holders. cbn. rewrite (flat_default (seq_id_to_materialized_blocks s) sid), Hn. done.
Qed.
Lemma unsure_release refs res ent p s ps : unsure refs ((reservation_of <$> ps) ++ res) ent p s ->
  wp (for_each ps release_pending) (fun r s' => r = Ok tt /\ unreserved s s' /\ unsure refs res ent p s') s.
Proof.
  intros [Hok|Hok].
  - eapply wp_mono; [by apply (release_pending_all refs res (reservation_of p :: ent))|]. cbv beta. intros r s' (-> & Hu & Hok'). split_and!; [done|done|by left].
  - eapply wp_mono; [apply (release_pending_all refs (reservation_of p :: res) ent); eapply co_ok_perm; [..|exact Hok]; [done|solve_Permutation|done]|].
    cbv beta. intros r s' (-> & Hu & Hok'). split_and!; [done|done|by right].
Qed.
Lemma abandon_ok refs res ent p s sid ps : unsure refs ((reservation_of <$> ps) ++ res) ent p s ->
  wp (abandon_commit sid ps) (fun r s' => r = Ok tt /\ committing s s' /\ unsure refs res ent p s') s.
Proof.
  intros Hun. unfold abandon_commit. apply wp_bind. eapply wp_mono; [by apply unsure_release|]. cbv beta. intros r s1 (-> & Hu & Hun1).
  destruct (committing_unreserved _ _ Hu) as (Hcm & _). apply wp_bind, wp_modify. cbv beta iota. set (s2 := s1 <| pending_duplicate_refs ::= _ |>).
  assert (unsure refs res ent p s2) as Hun2 by (destruct Hun1; [left|right]; by apply ok_duplicates).
  assert (committing s s2) as Hcm2 by (etrans; [exact Hcm|by split]).
  apply wp_bind, wp_read. cbv beta iota. unfold id. apply wp_when; intros Hn; bool_to_prop; [|done].
  apply wp_modify. split_and!; [done|etrans; [exact Hcm2|by split]|].
  destruct Hun2; [left|right]; by apply ok_materialized_none.
Qed.
Lemma settle_ok refs res ent p s : unsure refs res ent p s ->
  wp (release_pending_reservation (pending_block_id p) (recurrent_bytes (pending_payload p)))
    (fun r s' => r = Ok tt /\ unreserved s s' /\ co_ok (mkFlight refs res ent) s') s.
Proof. intros [Hok|Hok]; [by apply unenter_ok|by apply unreserve_ok]. Qed.

Lemma rooted_secured s s' before before' L : keeps_held s s' -> (forall id, id ∈ before -> secure s' before' id) ->
  rooted s before L -> rooted s' before' L.
Proof.
  intros Hk. revert before before'. induction L as [|[x p] L IH]; intros before before' Hb; [done|]. intros [Hp Hr]. split.
  - unfold parent_ready in *. destruct (pending_parent_id p); [|done]. destruct Hp as [[y Hy]|Hin]; [left; exists y; by apply Hk|by apply Hb].
  - eapply IH; [|exact Hr]. intros id [Hin|Hin]%elem_of_app; [|right; by apply elem_of_app; right].
    eapply secure_mono; [..|by apply Hb]; [by intros ? ?|]. intros y Hy. apply elem_of_app. by left.
Qed.

Lemma commit_blocks_ok refs res ent q ps s : co_ok (mkFlight refs ((reservation_of <$> ps) ++ res) ent) s -> is_Some (prefix_cache s) ->
  wp (commit_blocks q ps) (fun r s' => co_ok (mkFlight refs res ent) s' /\ committing s s' /\
    (is_ok r = true -> pending_duplicate_refs s' = pending_duplicate_refs s /\ keeps_held s s' /\
      Forall (fun p => held_id s' (seq_id q) (pending_block_id p)) ps) /\
    (kv_total -> rooted s [] ((fun p => (seq_id q, p)) <$> ps) -> is_ok r = true)) s.
Proof.
  revert s. induction ps as [|p ps IH]; intros s Hok Hc; cbn [commit_blocks].
  { apply wp_ret. split_and!; [done|done| |done]. intros _. split_and!; [done|by intros ? ?|done]. }
  apply wp_bind, wp_finally, wp_on_error. eapply wp_mono; [apply (commit_block_ok refs (fmap (M:=list) reservation_of ps ++ res) ent s q p); [exact Hok|exact Hc]|].
  cbv beta. intros [[]|e] s1 (Hcm1 & Hr1 & Hgo1).
  - destruct Hr1 as (Hd1 & Hok1 & Hh1 & Hk1). eapply wp_mono; [exact (unenter_ok _ _ _ _ _ _ Hok1)|]. cbv beta. intros r s2 (-> & Hu & Hok2).
    destruct (committing_unreserved _ _ Hu) as (Hcm2 & Hd2 & Hk2). pose proof (committing_trans _ _ _ Hcm1 Hcm2) as Hcm.
    eapply wp_mono; [apply IH; [exact Hok2|by apply (cm_cache _ _ Hcm)]|]. cbv beta. intros r s' (Hok' & Hcm' & Hr' & Hgo').
    split_and!; [done|by etrans| |].
    + intros Hr. destruct (Hr' Hr) as (Hd' & Hk' & Hh'). split_and!; [congruence|by etrans; [|etrans]|]. constructor; [by apply Hk', Hk2|done].
    + intros Hkv [_ Hroot]. apply Hgo'; [done|]. eapply (rooted_secured s); [by etrans| |exact Hroot].
      intros id ->%list_elem_of_singleton. left. exists (seq_id q). by apply Hk2.
  - eapply wp_mono; [by apply abandon_ok|]. cbv beta. intros r s2 (-> & Hcm2 & Hun). eapply wp_mono; [by apply settle_ok|].
    cbv beta. intros r s3 (-> & Hu & Hok3). destruct (committing_unreserved _ _ Hu) as (Hcm3 & _). split_and!; [done|by etrans; [|etrans]|done|].
    intros Hkv [Hp _]. exact (Hgo1 Hkv Hp).
Qed.

(** ** The blocks it waited for *)

Lemma hold_duplicate_ok fl s sid id : co_ok fl s -> is_Some (prefix_cache s) ->
  wp (hold_duplicate sid id) (fun r s' => co_ok fl s' /\ holding s s' /\
    (is_ok r = true -> held_id s' sid id) /\ (forall x, held_id s x id -> is_ok r = true)) s.
Proof.
  destruct fl as [refs res ent]. intros Hok [c Hc]. unfold hold_duplicate. apply wp_bind, wp_prefix_read; [|by rewrite Hc].
  intros c' Hc'. assert (c' = c) as -> by congruence. pose proof (lookup_seen (the_index c) id) as Hl. rewrite <- (co_blk_index s c Hc) in Hl.
  destruct (get_block (the_index c) id) as [[o b]|]; cbn in Hl.
  - eapply wp_mono; [exact (co_hold_ok refs res ent s sid id _ Hok Hl)|]. cbv beta. intros r s' (-> & Hok' & Hh & Hheld). done.
  - apply wp_throw. split_and!; [done|done|done|]. intros x (en & Hen & _). congruence.
Qed.
Lemma hold_duplicates_ok fl s sid ids : co_ok fl s -> is_Some (prefix_cache s) ->
  wp (for_each ids (hold_duplicate sid)) (fun r s' => co_ok fl s' /\ holding s s' /\
    (is_ok r = true -> Forall (held_id s' sid) ids) /\ (Forall (fun id => exists x, held_id s x id) ids -> is_ok r = true)) s.
Proof.
  revert s. induction ids as [|id ids IH]; intros s Hok Hc; cbn [for_each]; [by apply wp_ret|].
  apply wp_bind. eapply wp_mono; [by apply hold_duplicate_ok|]. cbv beta. intros [[]|e] s1 (Hok1 & Hh1 & Hr1 & Hgo1).
  - pose proof (kp_held _ _ (holding_kept _ _ Hh1)) as Hk1. eapply wp_mono; [apply IH; [done|by apply Hh1]|]. cbv beta.
    intros r s' (Hok' & Hh' & Hr' & Hgo'). pose proof (kp_held _ _ (holding_kept _ _ Hh')) as Hk'. split_and!; [done|by etrans| |].
    + intros Hr. constructor; [by apply Hk', Hr1|by apply Hr'].
    + intros [_ Hf]%Forall_cons. apply Hgo'. eapply Forall_impl; [exact Hf|]. intros id' [x Hx]. exists x. by apply Hk1.
  - split_and!; [done|done|done|]. intros [[x Hx] _]%Forall_cons. by apply (Hgo1 x).
Qed.

(** ** One request *)

(** Nothing of the request waits any more. *)
Record closing sid s s' : Prop := {
  cl_held : keeps_held s s';
  cl_states : runtime_states s' = runtime_states s;
  cl_others : forall x, x <> sid -> pend s' x = pend s x /\ dups s' x = dups s x;
  cl_mine : pend s' sid = [] /\ dups s' sid = [];
  cl_pend : forall p, p ∈ pend s sid -> held_id s' sid (pending_block_id p);
  cl_dups : forall id, id ∈ dups s sid -> held_id s' sid id;
}.

Lemma rooted_app s before L1 L2 : rooted s before (L1 ++ L2) -> rooted s before L1 /\ rooted s (before ++ pids L1) L2.
Proof.
  revert before. induction L1 as [|[x p] L1 IH]; intros before; cbn [rooted app].
  - unfold pids. cbn. by rewrite app_nil_r.
  - intros [Hp Hr]. destruct (IH _ Hr) as [H1' H2']. split; [done|]. unfold pids in *. cbn. by rewrite <- app_assoc in H2'.
Qed.
Lemma tagged_cons s x ds : tagged s (x :: ds) = ((fun p => (x, p)) <$> pend s x) ++ tagged s ds.
Proof. done. Qed.
Lemma pids_pend s x id : id ∈ pids ((fun p => (x, p)) <$> pend s x) -> exists p, p ∈ pend s x /\ pending_block_id p = id.
Proof. unfold pids. intros ([y p] & -> & (p' & [= -> ->] & Hp)%list_elem_of_fmap)%list_elem_of_fmap. by exists p'. Qed.

Lemma closing_plan sid ds s s' : closing sid s s' -> sid ∉ ds -> plan (sid :: ds) s -> plan ds s'.
Proof.
  intros [Hk Hst Ho [Hm1 Hm2] Hp Hd] Hn [Pout Pr Pd Ps].
  assert (forall l, sid ∉ l -> tagged s' l = tagged s l) as Htag.
  { intros l Hl. apply tagged_same. intros x Hx. apply Ho. by intros ->. }
  assert (forall id, id ∈ pids ((fun p => (sid, p)) <$> pend s sid) -> exists x, held_id s' x id) as Hsec.
  { intros id (p & Hin & <-)%pids_pend. exists sid. by apply Hp. }
  split.
  - intros x Hx. destruct (decide (x = sid)) as [->|Hne]; [done|]. destruct (Ho x Hne) as [-> ->]. apply Pout. by intros [?|?]%elem_of_cons.
  - rewrite Htag by done. rewrite tagged_cons in Pr. apply rooted_app in Pr as [_ Pr]. eapply (rooted_secured s); [exact Hk| |exact Pr].
    intros id Hid. left. by apply Hsec.
  - intros i x Hi. destruct (Ho x) as [_ ->]; [intros ->; by apply list_elem_of_lookup_2 in Hi|].
    specialize (Pd (S i) x Hi). rewrite Htag; [|intros Hin; apply Hn; rewrite <- (take_drop (S i) ds); apply elem_of_app; by left].
    eapply Forall_impl; [exact Pd|]. intros id [[y Hy]|Hin]; [left; exists y; by apply Hk|].
    cbn [take] in Hin. rewrite tagged_cons, pids_app in Hin. apply elem_of_app in Hin as [Hin|Hin]; [left; by apply Hsec|by right].
  - intros x st Hx. rewrite Hst in Hx. destruct (Ps x st Hx) as [? Ha]. split; [done|]. unfold anchored in *.
    destruct (state_parent_block_id st) as [id|]; [|done]. destruct Ha as [Ha|Ha]; [left; by apply Hk|]. destruct (decide (x = sid)) as [->|Hne].
    + left. destruct Ha as [Ha|(p & -> & Ha)%list_elem_of_fmap]; [by apply Hd|by apply Hp].
    + right. by destruct (Ho x Hne) as [-> ->].
Qed.

(** The request's waiting blocks are taken from it. *)
Definition taken sid s : Co :=
  s <| pending_blocks ::= delete sid |> <| seq_id_to_materialized_blocks ::= fun m => <[sid := default [] (m !! sid)]> m |>.
Lemma taken_ok sid s : co_ok rest s -> co_ok (mkFlight [] ((reservation_of <$> pend s sid) ++ []) []) (taken sid s).
Proof.
  intros [Hix Hb Hr L R]. assert (waiting s ≡ₚ ((reservation_of <$> pend s sid) ++ []) ++ waiting (taken sid s)) as Hw.
  { unfold waiting, taken. cbn. by rewrite (flat_default (pending_blocks s) sid), fmap_app, app_nil_r. }
  split; [exact Hix|exact Hb| | |]; cbn [extra_refs reserved entered rest app] in *.
  - eapply counted_perm; [|exact Hr]. unfold holders, taken. cbn. by rewrite flat_known.
  - apply (ledger_perm _ _ s Hw) in L. destruct L. by split.
  - apply (roomy_perm _ _ s Hw) in R. destruct R. by split.
Qed.

Lemma commit_seq_ok q s : co_ok rest s -> is_Some (prefix_cache s) ->
  wp (commit_seq q) (fun r s' => co_ok rest s' /\ committing s (s' <| pending_blocks := pending_blocks s |>) /\
    (is_ok r = true -> closing (seq_id q) s s') /\
    (kv_total -> (exists ds, plan (seq_id q :: ds) s) -> is_ok r = true)) s.
Proof.
  intros Hok Hc. unfold commit_seq. apply wp_bind, wp_read. cbv beta iota zeta. unfold id. set (sid := seq_id q).
  apply wp_bind, wp_modify. cbv beta iota. apply wp_bind, wp_modify. cbv beta iota. fold (taken sid s). fold (pend s sid).
  pose proof (taken_ok sid s Hok) as Hok1. set (s1 := taken sid s) in *.
  assert (keeps_held s s1) as Hk1.
  { intros y id (en & Hen & Ho). exists en. split; [exact Hen|]. unfold held_blocks, s1, taken in *. cbn.
    destruct (decide (y = sid)) as [->|Hne]; [by rewrite lookup_insert_eq|by rewrite lookup_insert_ne]. }
  assert (committing s (s1 <| pending_blocks := pending_blocks s |>)) as Hcm1 by (by split).
  apply wp_bind. eapply wp_mono; [exact (commit_blocks_ok [] [] [] q (pend s sid) s1 Hok1 Hc)|]. cbv beta. intros r s2 (Hok2 & Hcm2 & Hr2 & Hgo2).
  assert (committing s (s2 <| pending_blocks := pending_blocks s |>)) as Hcm by (destruct Hcm1, Hcm2; split; cbn in *; try congruence; by etransitivity).
  destruct r as [[]|e].
  2:{ split_and!; [done|done|done|]. intros Hkv [ds Hpl]. apply Hgo2; [done|]. pose proof (pl_rooted _ _ Hpl) as Hr.
      rewrite tagged_cons in Hr. apply rooted_app in Hr as [Hr _]. by eapply rooted_mono. }
  destruct (Hr2 eq_refl) as (Hd2 & Hk2 & Hh2). apply wp_bind, wp_read. cbv beta iota. apply wp_bind, wp_modify. cbv beta iota. unfold id.
  set (s3 := s2 <| pending_duplicate_refs ::= _ |>). assert (co_ok rest s3) as Hok3 by (by apply ok_duplicates).
  match goal with |- wp (for_each ?l _) _ _ => change l with (dups s2 sid) end.
  assert (dups s2 sid = dups s sid) as Hds by (unfold dups; by rewrite Hd2). rewrite Hds.
  eapply wp_mono; [apply (hold_duplicates_ok rest s3 sid (dups s sid) Hok3)|]; [by apply (cm_cache _ _ Hcm)|]. cbv beta.
  intros r s' (Hok' & Hh & Hr' & Hgo'). pose proof (kp_held _ _ (holding_kept _ _ Hh)) as Hk'.
  assert (keeps_held s2 s3) as Hk3 by (by intros ? ?). split_and!; [done| | |].
  - destruct Hh as (F & C & _). destruct Hcm. rewrite F. split; cbn in *; try congruence. by etransitivity.
  - intros Hr. destruct Hh as (F & C & _). assert (pending_blocks s' = delete sid (pending_blocks s)) as Hpb by (rewrite F; exact (cm_waiting _ _ Hcm2)).
    assert (pending_duplicate_refs s' = delete sid (pending_duplicate_refs s)) as Hdb by (rewrite F; cbn; by rewrite Hd2).
    split; unfold pend, dups; rewrite ?Hpb, ?Hdb.
    + intros y id Hy. by apply Hk', Hk3, Hk2, Hk1.
    + rewrite F. exact (cm_states _ _ Hcm).
    + intros x Hx. by rewrite !lookup_delete_ne.
    + by rewrite !lookup_delete_eq.
    + intros p Hp. apply Hk', Hk3. by apply (proj1 (Forall_forall _ _) Hh2).
    + intros id Hid. specialize (Hr' Hr). by apply (proj1 (Forall_forall _ _) Hr').
  - intros Hkv [ds Hpl]. apply Hgo'. pose proof (pl_dups _ _ Hpl 0 sid eq_refl) as Hd. eapply Forall_impl; [exact Hd|].
    intros id [[x Hx]|Hin]; [exists x; by apply Hk3, Hk2, Hk1|]. cbn [take] in Hin. rewrite tagged_one in Hin.
    apply pids_pend in Hin as (p & Hp & <-). exists sid. apply Hk3. by apply (proj1 (Forall_forall _ _) Hh2).
Qed.

(** ** The batch *)

Lemma commit_all_ok qs s : co_ok rest s -> is_Some (prefix_cache s) ->
  wp (for_each qs commit_seq) (fun r s' => co_ok rest s' /\ committing s (s' <| pending_blocks := pending_blocks s |>) /\
    (NoDup (seq_id <$> qs) -> plan (seq_id <$> qs) s -> (is_ok r = true -> plan [] s' /\ keeps_held s s') /\ (kv_total -> is_ok r = true))) s.
Proof.
  revert s. induction qs as [|q qs IH]; intros s Hok Hc; cbn [for_each].
  { apply wp_ret. split_and!; [done|by split|]. intros _ Hpl. split; [|done]. intros _. split; [exact Hpl|by intros ? ?]. }
  apply wp_bind. eapply wp_mono; [by apply commit_seq_ok|]. cbv beta. intros [[]|e] s1 (Hok1 & Hcm1 & Hr1 & Hgo1).
  - specialize (Hr1 eq_refl). eapply wp_mono; [apply IH; [done|by apply (cm_cache _ _ Hcm1)]|]. cbv beta. intros r s' (Hok' & Hcm' & Hrest). split_and!; [done| |].
    + destruct Hcm1, Hcm'. split; cbn in *; try congruence. by etransitivity.
    + intros Hnd Hpl. cbn in Hnd. apply NoDup_cons in Hnd as [Hn Hnd]. destruct (Hrest Hnd ltac:(by eapply closing_plan)) as [Hres Hgo]. split; [|done].
      intros Hr. destruct (Hres Hr) as [? Hk]. split; [done|]. by etrans; [apply Hr1|].
  - split_and!; [done|done|]. intros Hnd Hpl. split; [done|]. intros Hkv. apply Hgo1; [done|]. by exists (seq_id <$> qs).
Qed.
End batch.
