(* ===== verification/CoordinatorAttach.v ===== *)
(** * The prefix cache coordinator: attaching a hit

    [_attach_seq]: all blocks of a request's hit become held by it, their
    payloads are attached to its row and the recurrent state after them is
    restored; when anything fails, no block is held and the index is as it was. *)

From stdpp Require Import base gmap list strings.
From Stdlib Require Import ZArith Lia.
From S2P Require Import Prelude PyDict PyBytes Sha256 RoutingMembership RadixTree RadixForest PrefixHash.
From S2P Require Import PrefixIndex PrefixIndexFacts PrefixCapacity PrefixControl SlotRanges PrefixClient PrefixRefs PrefixHits.
From S2P Require Import SamplingParams Sequence PrefixLookup RecurrentRows.
From S2P Require Import PrefixCoordinator CoordinatorInvariant CoordinatorMoves CoordinatorRecord CoordinatorPlan.

(** ** The chain of a hit *)

Section chain.
Context `{Digest}.
#[local] Abbreviation Index := (RadixPrefixIndex RadixTreeBackend).

Lemma counted_same bl bl' held : same_but_refs bl bl' -> counted bl held -> counted bl' held -> bl' = bl.
Proof.
  intros Hs [Hc _] [Hc' _]. apply map_eq. intros id. destruct (bl !! id) as [en|] eqn:Hen.
  - destruct (same_but_refs_elem _ _ _ _ Hs Hen) as (en' & Hen' & Ho & _). rewrite Hen'. f_equal.
    pose proof (Hs id) as E. rewrite Hen, Hen' in E. cbn in E. injection E as E. unfold but_refs in E.
    pose proof (Hc id en Hen) as R. pose proof (Hc' id en' Hen') as R'. rewrite Ho, <- R in R'.
    destruct en, en'. cbn in *. congruence.
  - pose proof (Hs id) as E. rewrite Hen in E. by destruct (bl' !! id).
Qed.

(** The last block of a chain is the one asked for. *)
Lemma get_chain_last (ix : Index) x n os : index_wf ix -> get_chain ix x n = Ok os ->
  exists o b, last os = Some o /\ get_block ix x = Some (o, b).
Proof.
  intros Hwf Hc. destruct (get_chain_present ix x n os Hwf Hc) as [Hp Hn].
  destruct (get_chain_spec ix x n Hwf Hp Hn) as (path & Hlast & _ & Hspec). rewrite Hc in Hspec. case_match eqn:E; [done|]. bool_to_prop.
  destruct Hspec as (os' & [= <-] & Hlen & Hf). 
  assert (path = take (length path - Z.to_nat n) path ++ drop (length path - Z.to_nat n) path) as Hsplit by (by rewrite take_drop).
  set (l := drop (length path - Z.to_nat n) path) in *. assert (last l = Some x) as Hl.
  { rewrite Hsplit, last_app in Hlast. destruct (last l) eqn:El; [done|]. apply last_None in El.
    apply Forall2_length in Hf. rewrite El in Hf. cbn in Hf. lia. }
  clearbody l. destruct l as [|y l _] using rev_ind; [done|]. rewrite last_snoc in Hl. injection Hl as ->.
  apply Forall2_app_inv_r in Hf as (os1 & os2 & Hf1 & Hf2 & ->). apply Forall2_cons_inv_r in Hf2 as (o & os3 & (b & Hb) & Hf3 & ->).
  apply Forall2_nil_inv_r in Hf3 as ->. exists o, b. by rewrite last_snoc.
Qed.
End chain.

Section attach.
Context {DType Device Content Event : Type} `{TorchTypes DType Device Content Event}.
Context {M K : Type} `{PrefixKV M K} `{Digest}.
#[local] Abbreviation Co := (@PrefixCacheCoordinator DType Device Content Event M K).
#[local] Abbreviation Payload := (@MixedPrefixBlockPayload DType Device Content K).
Implicit Types (s : Co) (q : Sequence) (sid : Z) (o : nat).

(** Only the cache manager and the rows changed. *)
Definition outside s s' : Prop :=
  s' = s <| cache_manager := cache_manager s' |> <| recurrent_state_manager := recurrent_state_manager s' |>.
Lemma outside_refl s : outside s s.
Proof. by destruct s. Qed.
Lemma outside_trans s1 s2 s3 : outside s1 s2 -> outside s2 s3 -> outside s1 s3.
Proof. unfold outside. intros E1 E2. by rewrite E2, E1. Qed.
Lemma outside_ok fl s s' : outside s s' -> co_ok fl s -> co_ok fl s'.
Proof. intros ->. apply co_ok_ext; done. Qed.

Lemma check_reads o s : wp (check_attach o) (fun _ s' => s' = s) s.
Proof.
  unfold check_attach. apply wp_bind, co_wp_payload_of; [intros x _|done]. apply wp_bind, wp_prefix_deref; [intros c b _ _|done].
  apply wp_bind, wp_lift. destruct (residency_validate (residency b)); [|done]. apply wp_bind, wp_guard; intros _; [done|]. by apply wp_guard.
Qed.
Lemma checks_read os s : wp (for_each os check_attach) (fun _ s' => s' = s) s.
Proof.
  induction os as [|o os IH]; cbn [for_each]; [by apply wp_ret|]. apply wp_bind. eapply wp_mono; [apply check_reads|]. cbv beta.
  intros [[]|e] s' ->; [exact IH|done].
Qed.
Lemma attach_payloads_outside q os acc s : wp (attach_payloads q os acc) (fun r s' => is_ok r = true /\ outside s s') s.
Proof.
  revert acc s. induction os as [|o os IH]; intros acc s; cbn [attach_payloads]; [apply wp_ret; split; [done|apply outside_refl]|].
  apply wp_bind, wp_attempt. apply wp_bind, co_wp_payload_of.
  - intros x _. apply wp_bind, wp_any_kv. intros r m.
    assert (outside s (s <| cache_manager := m |>)) as Ho by (by destruct s).
    destruct r as [[]|e]; [|by apply wp_ret]. apply wp_ret. eapply wp_mono; [apply IH|]. cbv beta. intros r s' [? Ho']. split; [done|]. by eapply outside_trans.
  - intros e. apply wp_ret. split; [done|apply outside_refl].
Qed.
Lemma attach_recurrent_outside q os s : wp (attach_recurrent q os) (fun _ s' => outside s s') s.
Proof.
  unfold attach_recurrent. destruct (last os) as [o|]; [|apply wp_throw, outside_refl]. apply wp_bind, co_wp_payload_of; [|intros; apply outside_refl].
  intros x _. apply wp_any_rows. intros r m. by destruct s.
Qed.

(** The blocks are held in flight when the payloads are attached; a failure
    gives them back. *)
Lemma attach_chain_ok q os b s : co_ok (mkFlight os [] []) s -> is_Some (prefix_cache s) ->
  wp (attach_chain q os b) (fun r s' => match r with
    | Ok _ => outside s s'
    | Raise _ => co_ok rest s' /\ exists c ix' m rm, prefix_cache s = Some c /\
        s' = (with_index s c ix') <| cache_manager := m |> <| recurrent_state_manager := rm |> /\ same_but_refs (blk s) (blk s')
    end) s.
Proof.
  intros Hok Hc. assert (forall e acc s1, outside s s1 -> wp (undo_attach q os acc b e) (fun r s' => match r with
    | Ok _ => outside s s'
    | Raise _ => co_ok rest s' /\ exists c ix' m rm, prefix_cache s = Some c /\
        s' = (with_index s c ix') <| cache_manager := m |> <| recurrent_state_manager := rm |> /\ same_but_refs (blk s) (blk s')
    end) s1) as Hundo.
  { intros e acc s1 Ho. unfold undo_attach. apply wp_bind.
    assert (wp (match acc with [] => mret (Ok tt) | _ => attempt (on_kv (rollback_prefix_kv_attach q acc b)) end)
      (fun r s' => is_ok r = true /\ outside s s') s1) as Hroll.
    { destruct acc; [by apply wp_ret|]. apply wp_attempt, wp_any_kv. intros r m. split; [done|]. eapply outside_trans; [exact Ho|]. by destruct s1. }
    eapply wp_mono; [exact Hroll|]. cbv beta. intros [undone|e'] s2 [Hr2 Ho2]; [|done].
    apply wp_bind. eapply wp_mono; [apply (release_refs_ok [] [] [] s2 negative_ref os)|].
    - rewrite app_nil_r. by eapply outside_ok.
    - by rewrite Ho2.
    - cbv beta. intros r s3 (-> & Hok3 & c & ix' & Hc2 & -> & Hsame).
      assert (exists m rm, s2 = s <| cache_manager := m |> <| recurrent_state_manager := rm |>) as (m & rm & ->) by (eexists _, _; exact Ho2).
      destruct undone; apply wp_throw; (split; [exact Hok3|]); exists c, ix', m, rm; done. }
  unfold attach_chain. apply wp_bind. eapply wp_mono; [apply attach_payloads_outside|]. cbv beta. intros [[r acc]|e] s1 [Hr Ho1]; [|done]. cbn [fst snd].
  apply wp_bind. destruct r as [[]|e]; [|by apply wp_ret, Hundo].
  apply wp_attempt. eapply wp_mono; [apply attach_recurrent_outside|]. cbv beta. intros r s2 Ho2.
  pose proof (outside_trans _ _ _ Ho1 Ho2) as Ho. destruct r as [[]|e]; [by apply wp_ret|by apply Hundo].
Qed.

(** Requests, waiting blocks and reservations are as before, and so is the
    index up to the counts of its blocks. *)
Record attaching s s' : Prop := {
  at_frame : s' = s <| prefix_cache := prefix_cache s' |> <| cache_manager := cache_manager s' |>
    <| recurrent_state_manager := recurrent_state_manager s' |> <| seq_id_to_prefix_blocks := seq_id_to_prefix_blocks s' |>;
  at_cache : is_Some (prefix_cache s') <-> is_Some (prefix_cache s);
  at_same : same_but_refs (blk s) (blk s');
}.
(** The chain of the request's hit. *)
Definition hit_chain s q (os : list nat) : Prop := exists c last, prefix_cache s = Some c /\
  prefix_cache_hit_last_block_id (prefix_hit q) = Some last /\
  get_chain (the_index c) last (prefix_cache_hit_block_count (prefix_hit q)) = Ok os /\
  Z.of_nat (length os) * co_block_size s = prefix_cache_hit_len (prefix_hit q).
Definition attach_result q s (r : exc unit) s' : Prop := co_ok rest s' /\ attaching s s' /\
  match r with
  | Raise _ => blk s' = blk s /\ seq_id_to_prefix_blocks s' = seq_id_to_prefix_blocks s
  | Ok _ => s' = s /\ (prefix_cache_hit_len (prefix_hit q) <= 0 \/ is_Some (seq_id_to_prefix_blocks s !! seq_id q)) \/
      exists os, hit_chain s q os /\ NoDup os /\ seq_id_to_prefix_blocks s !! seq_id q = None /\
        seq_id_to_prefix_blocks s' = <[seq_id q := os]> (seq_id_to_prefix_blocks s)
  end.

Lemma attaching_refl s : attaching s s.
Proof. split; [by destruct s|done|done]. Qed.
Lemma attach_nothing q s e : co_ok rest s -> attach_result q s (Raise e) s.
Proof. intros Hok. split; [done|]. split; [apply attaching_refl|done]. Qed.

Lemma attach_seq_ok q s : co_ok rest s -> wp (attach_seq q) (attach_result q s) s.
Proof.
  intros Hok. pose proof (fun e => attach_nothing q s e Hok) as Hno. unfold attach_seq. apply wp_bind, wp_read. cbv beta iota zeta. unfold id.
  apply wp_if; intros Hskip.
  { apply wp_ret. split; [done|]. split; [apply attaching_refl|]. left. split; [done|].
    apply orb_true_iff in Hskip as [E|E]; bool_to_prop; [by left|by right]. }
  apply orb_false_iff in Hskip as [Hpos Hfree]. bool_to_prop.
  assert (seq_id_to_prefix_blocks s !! seq_id q = None) as Hnone by (by apply eq_None_not_Some).
  destruct (prefix_cache_hit_last_block_id (prefix_hit q)) as [x|] eqn:Hlast; [|by apply wp_throw].
  apply wp_bind, wp_guard; intros _; [done|]. apply wp_bind, wp_require; [done|]. intros [c Hc].
  apply wp_bind, wp_prefix_get; [|done]. intros c' Hc'. assert (c' = c) as -> by congruence.
  destruct (get_chain (the_index c) x (prefix_cache_hit_block_count (prefix_hit q))) as [os|e] eqn:Hch; [|done].
  apply wp_bind, wp_guard; intros Hlen; [done|]. bool_to_prop. apply wp_bind. eapply wp_mono; [apply checks_read|]. cbv beta. intros [[]|e] s1 ->; [|done].
  assert (hit_chain s q os) as Hhit by (by exists c, x). destruct (co_index_of _ _ _ Hok Hc) as (Hinv & _).
  destruct (get_chain_present _ _ _ _ (proj1 Hinv) Hch) as [Hpres _].
  destruct (get_chain_seen _ _ _ _ (proj1 Hinv) Hpres Hch) as (Hnd & _ & Hidx). rewrite <- (co_blk_index s c Hc) in Hidx.
  apply wp_bind, wp_any_kv. intros r m. set (s1 := s <| cache_manager := m |>). assert (co_ok rest s1) as Hok1 by (by apply ok_kv).
  assert (attaching s s1) as Hat1 by (split; [by destruct s|done|done]).
  destruct r as [b|e]; [|by split]. apply wp_bind. eapply wp_mono; [apply (acquire_refs_ok [] [] [] s1 os Hok1); [by exists c|exact Hidx]|]. cbv beta.
  intros r s2 (-> & Hok2 & c1 & ix2 & Hc1 & -> & Hsame2). rewrite app_nil_r in Hok2. assert (c1 = c) as -> by (cbn in Hc1; congruence).
  set (s2 := with_index s1 c ix2) in *. apply wp_bind. eapply wp_mono; [apply (attach_chain_ok q os b s2 Hok2); by eexists|]. cbv beta.
  intros [[]|e] s3.
  - intros Ho. pose proof (outside_ok _ _ _ Ho Hok2) as Hok3. apply wp_bind, wp_modify. cbv beta iota.
    set (s4 := s3 <| seq_id_to_prefix_blocks ::= _ |>).
    assert (co_ok rest s4) as Hok4.
    { destruct Hok3 as [Hix Hb Hr L R]. split; [exact Hix|exact Hb| |destruct L; by split|destruct R; by split].
      eapply counted_perm; [|exact Hr]. cbn [extra_refs rest]. unfold holders, s4. cbn. rewrite Ho. cbn.
      rewrite flat_insert_delete, delete_id by done. solve_Permutation. }
    assert (prefix_cache s4 = Some (c <| the_index := ix2 |>)) as Hc4 by (unfold s4; by rewrite Ho).
    destruct (co_index_of _ _ _ Hok4 Hc4) as (Hinv4 & _). eapply co_wp_on_prefix; [exact Hc4|].
    eapply wp_mono; [by apply touch_chain_seen|]. cbv beta. intros r ix5 (-> & Hst5 & Hs5). split; [by apply co_index_same|].
    split; [split; [unfold s4; rewrite Ho; by destruct s|split; intros _; [by exists c|by eexists]|]|].
    + rewrite co_blk_with_index, Hs5. exact Hsame2.
    + right. exists os. split_and!; [done..|]. unfold s4. cbn. by rewrite Ho.
  - intros (Hok3 & c2 & ix3 & m3 & rm3 & Hc2 & E3 & Hsame3). split; [done|].
    assert (same_but_refs (blk s) (blk s3)) as Hsame by (etrans; [exact Hsame2|exact Hsame3]). split; [|split].
    + split; [rewrite E3; by destruct s|rewrite E3; cbn; rewrite Hc; by split|done].
    + apply (counted_same _ _ (holders s) Hsame); [exact (co_refs _ _ Hok)|]. pose proof (co_refs _ _ Hok3) as Hr. cbn in Hr.
      assert (holders s3 = holders s) as <-; [by rewrite E3|exact Hr].
    + by rewrite E3.
Qed.

(** An attached request holds the block its hit ends with. *)
Lemma attached_hit q s s' os : co_ok rest s -> attaching s s' -> hit_chain s q os ->
  seq_id_to_prefix_blocks s' = <[seq_id q := os]> (seq_id_to_prefix_blocks s) ->
  exists last, prefix_cache_hit_last_block_id (prefix_hit q) = Some last /\ held_id s' (seq_id q) last.
Proof.
  intros Hok Ha (c & x & Hc & Hl & Hch & _) Hp. exists x. split; [done|]. destruct (co_index_of _ _ _ Hok Hc) as ([Hwf _] & _).
  destruct (get_chain_last _ _ _ _ Hwf Hch) as (o & b & Hlo & Hg).
  assert (blk s !! x = Some (entry_of (o, b))) as Hx by (by rewrite (co_blk_index s c Hc), lookup_seen, Hg).
  destruct (same_but_refs_elem _ _ _ _ (at_same _ _ Ha) Hx) as (en & Hen & Ho & _). exists en. split; [done|]. rewrite Ho.
  unfold held_blocks. rewrite Hp, lookup_insert_eq. cbn. apply elem_of_app. left. by apply last_Some_elem_of.
Qed.
End attach.
