(* ===== verification/CoordinatorSteps.v ===== *)
(** * The prefix cache coordinator: the other operations

    Making room for slots, questions about hits, deleting a subtree, changing
    priorities, releasing a request and resetting keep the invariant; and the
    states of requests stay anchored in blocks they hold. *)

From stdpp Require Import base gmap list strings.
From Stdlib Require Import ZArith Lia.
From S2P Require Import Prelude PyDict PyBytes Sha256 RoutingMembership RadixTree RadixForest PrefixHash.
From S2P Require Import PrefixIndex PrefixIndexFacts PrefixCapacity PrefixControl PrefixSubtree PrefixEviction PrefixFreeable PrefixContract PrefixEpochs.
From S2P Require Import SlotRanges PrefixClient PrefixRefs PrefixHits SamplingParams Sequence PrefixLookup RecurrentRows.
From S2P Require Import PrefixCoordinator CoordinatorInvariant CoordinatorMoves CoordinatorRecord CoordinatorPlan CoordinatorCommit CoordinatorAttach.

Section steps.
Context {DType Device Content Event : Type} `{TorchTypes DType Device Content Event}.
Context {M K : Type} `{PrefixKV M K} `{Digest}.
#[local] Abbreviation Co := (@PrefixCacheCoordinator DType Device Content Event M K).
#[local] Abbreviation CoAct := (Act PyExn Co).
#[local] Abbreviation Index := (RadixPrefixIndex RadixTreeBackend).
#[local] Abbreviation Cached := (CachedIndex RadixTreeBackend).
#[local] Abbreviation Pending := (@PendingMixedPrefixBlock DType Device Content K).
Implicit Types (s : Co) (q : Sequence) (sid : Z) (o : nat) (p : Pending) (fl : Flight) (ds : list Z).

(** ** Nothing waits *)

Definition settled s : Prop := plan [] s /\ tokens_fine s.

(** What settles requests is left alone. *)
Record undisturbed s s' : Prop := {
  ud_config : co_config s' = co_config s;
  ud_cache : is_Some (prefix_cache s') <-> is_Some (prefix_cache s);
  ud_states : runtime_states s' = runtime_states s;
  ud_pending : pending_blocks s' = pending_blocks s;
  ud_dups : pending_duplicate_refs s' = pending_duplicate_refs s;
  ud_held : keeps_held s s';
}.
#[global] Instance undisturbed_refl : Reflexive undisturbed.
Proof. by split. Qed.
#[global] Instance undisturbed_trans : Transitive undisturbed.
Proof. intros s1 s2 s3 [] []. split; try congruence; by etransitivity. Qed.
Lemma undisturbed_kv s s' m : undisturbed s s' -> undisturbed s (s' <| cache_manager := m |>).
Proof. by intros []. Qed.
Lemma undisturbed_settled s s' : undisturbed s s' -> settled s -> settled s'.
Proof.
  intros [Hcf _ Hst Hp Hd Hk] [[Pout Pr Pd Ps] Ht]. split; [split|].
  - intros x Hx. unfold pend, dups. rewrite Hp, Hd. by apply Pout.
  - exact I.
  - intros i x Hi. by rewrite lookup_nil in Hi.
  - intros x st Hx. rewrite Hst in Hx. destruct (Ps x st Hx) as [? Ha]. split; [done|]. eapply anchored_mono; [exact Hk|..|exact Ha]; unfold pend, dups; by rewrite ?Hp, ?Hd.
  - intros x st Hx. rewrite Hst in Hx. unfold co_block_size. rewrite Hcf. by apply (Ht x).
Qed.
Lemma thinner_undisturbed fl s s' : co_ok fl s -> co_ok fl s' -> thinner s s' -> undisturbed s s'.
Proof.
  intros Hok Hok' Hth. pose proof (reserving_kept _ _ _ _ Hok Hok' (thinner_reserving _ _ Hth)) as Hk.
  destruct Hth as [F C S]. split; [by rewrite F|exact C|by rewrite F|by rewrite F|by rewrite F|apply Hk].
Qed.
Lemma attach_undisturbed q s r s' : attach_result q s r s' -> undisturbed s s'.
Proof.
  intros (_ & [F C Hs] & Hr). split; [by rewrite F|exact C|by rewrite F..|]. apply keeps_held_same; [exact Hs|].
  assert (seq_id_to_materialized_blocks s' = seq_id_to_materialized_blocks s) as Hm by (by rewrite F).
  assert (forall sid, default [] (seq_id_to_prefix_blocks s !! sid) ⊆ default [] (seq_id_to_prefix_blocks s' !! sid)) as Hp.
  { intros sid. destruct r as [[]|e]; [|by destruct Hr as [_ ->]]. destruct Hr as [[-> _]|(os & _ & _ & Hn & ->)]; [done|].
    destruct (decide (sid = seq_id q)) as [->|Hne]; [rewrite Hn; by intros ? ?%elem_of_nil|by rewrite lookup_insert_ne]. }
  intros sid x. unfold held_blocks. rewrite Hm, !elem_of_app. intros [Hx|Hx]; [left; by apply Hp|by right].
Qed.

(** ** Questions *)

Definition step_kept s s' : Prop := co_ok rest s' /\ undisturbed s s'.

Lemma with_core s (c c' : Cached) : prefix_cache s = Some c -> co_ok rest s -> index_inv (the_index c') -> core (the_index c') = core (the_index c) ->
  step_kept s (s <| prefix_cache := Some c' |>).
Proof.
  intros Hc Hok Hinv Hcore. assert (seen (the_index c') = seen (the_index c)) as Hs by (apply seen_ext; intros id; by rewrite (core_get_block _ _ id Hcore)).
  assert (blk (s <| prefix_cache := Some c' |>) = blk s) as Hb by (unfold blk; cbn; by rewrite Hc).
  split.
  - assert (co_ok rest (with_index s c (the_index c'))) as Hok' by (apply co_index_same; [done|done|split; [done|by injection Hcore]|done]).
    destruct Hok' as [Hix Hbl Hr [L1 L2 L3 L4] [R1 R2 R3]]. split; [exact Hix|exact Hbl|exact Hr|by split|split; [exact R1|intros m _; by apply R2|exact R3]].
  - split; [done|cbn; rewrite Hc; split; eauto|done..|]. apply keeps_held_same; [by rewrite Hb|done].
Qed.

(** An action on the index and its caches that leaves the blocks as they are. *)
Definition quietly {A} (m : Act PyExn Cached A) : Prop := forall C, keep (fun c : Cached => index_inv (the_index c) /\ core (the_index c) = C) m.
Lemma on_cached_kept {A} (m : Act PyExn Cached A) s : quietly m -> co_ok rest s -> wp (on_cached m) (fun _ s' => step_kept s s') s.
Proof.
  intros Hm Hok. destruct (prefix_cache s) as [c|] eqn:Hc; [|unfold wp, on_cached; rewrite Hc; by split].
  destruct (co_index_of _ _ _ Hok Hc) as (Hinv & _). unfold wp, on_cached. rewrite Hc. pose proof (Hm (core (the_index c)) c (conj Hinv eq_refl)) as Hw.
  unfold wp in Hw. destruct (m c) as [r c']. destruct Hw as [? ?]. by apply (with_core s c).
Qed.
Lemma quiet_index {A} (m : Act PyExn Index A) : (forall ix, index_inv ix -> wp m (fun _ ix' => index_inv ix' /\ core ix' = core ix) ix) -> quietly (on_index m).
Proof.
  intros Hm C c [Hinv Hc]. apply wp_on_index. eapply wp_mono; [by apply Hm|]. cbv beta. intros r ix' [? E]. split; [done|]. cbn. by rewrite E.
Qed.
Lemma quiet_framed {A} (m : Act PyExn Index A) P : (forall ix, index_inv ix -> wp m (fun r ix' => frame ix ix' /\ P ix r ix') ix) -> quietly (on_index m).
Proof.
  intros Hm. apply quiet_index. intros ix Hinv. eapply wp_mono; [by apply Hm|]. cbv beta. intros r ix' [Hf _]. split; [by apply (frame_inv ix)|by apply frame_core].
Qed.
Lemma quiet_freeable : quietly (on_index freeable_block_ids).
Proof. apply quiet_index. intros ix Hinv. eapply wp_mono; [by apply freeable_block_ids_spec|]. cbv beta. by intros r ix' (? & ? & _). Qed.
Lemma quiet_ask {A} (f : Index -> exc A) : quietly (on_index (ask f)).
Proof. apply quiet_index. intros ix Hinv. done. Qed.
Lemma quiet_ids toks n : quietly (on_index (block_ids_for_tokens toks n)).
Proof. eapply quiet_framed. intros ix Hinv. exact (block_ids_for_tokens_spec toks n ix). Qed.
Lemma quiet_longest ids : quietly (on_index (lookup_longest_block_ids ids)).
Proof. eapply quiet_framed. intros ix Hinv. exact (lookup_longest_block_ids_spec ix ids (proj1 Hinv)). Qed.
#[local] Hint Resolve quiet_freeable quiet_ask quiet_ids quiet_longest : keep.
Lemma quiet_store (f : Cached -> Cached) : (forall c, the_index (f c) = the_index c) -> quietly (modify f).
Proof. intros Hf C. apply keep_modify. intros c. by rewrite Hf. Qed.
Lemma quiet_counts q : quietly (prefix_hit_capacity_counts q false).
Proof.
  unfold prefix_hit_capacity_counts. cbv zeta. intros C. destruct (_ <=? 0); [apply keep_ret|]. destruct (prefix_cache_hit_last_block_id (prefix_hit q)); [|apply keep_throw].
  apply keep_bind; [apply keep_read|intros c]. destruct (match _ with Some _ => _ | None => None end) as [e|].
  - destruct (same_capacity c false e); [apply keep_ret|]. apply keep_bind; [apply keep_ret|intros os]. apply keep_bind; [apply quiet_freeable|intros ids].
    apply keep_bind; [apply quiet_ask|intros n]. apply keep_bind; [apply keep_ret|intros n']. apply keep_bind; [by apply quiet_store|intros _; apply keep_ret].
  - apply keep_bind; [apply quiet_ask|intros os]. apply keep_bind; [apply quiet_freeable|intros ids].
    apply keep_bind; [apply quiet_ask|intros n]. apply keep_bind; [apply keep_ret|intros n']. apply keep_bind; [by apply quiet_store|intros _; apply keep_ret].
Qed.
Lemma quiet_lookup q u : quietly (lookup_prefix_cache_hit q u).
Proof.
  unfold lookup_prefix_cache_hit. intros C. apply keep_bind; [apply keep_read|intros c]. cbv zeta.
  assert (forall ids, keep (fun c : Cached => index_inv (the_index c) /\ core (the_index c) = C) (lookup_and_store q u ids)) as Hls.
  { intros ids. unfold lookup_and_store. apply keep_bind; [apply quiet_longest|intros res]. apply keep_bind; [apply keep_read|intros ep].
    apply keep_bind; [by apply quiet_store|intros _; apply keep_ret]. }
  destruct (lookup_cache c !! seq_id q) as [e|]; [|cbn [andb]; apply keep_bind; [apply quiet_ids|exact Hls]].
  destruct (same_request e q u), (lookup_is_current (the_index c) e); cbn [andb];
    first [apply keep_ret|apply keep_bind; [first [apply keep_ret|apply quiet_ids]|exact Hls]].
Qed.
Lemma quiet_refresh m q : quietly (coordinator_refresh_hit m q).
Proof.
  unfold coordinator_refresh_hit. intros C. apply keep_bind; [apply keep_read|intros bs]. destruct (_ || _); [apply keep_ret|].
  apply keep_bind; [apply keep_lift|intros u]. destruct (u <=? 0); [apply keep_ret|]. apply keep_bind; [apply quiet_lookup|intros [[a b] n]].
  destruct (a <=? 0); [apply keep_ret|]. apply keep_bind; [apply keep_guard|intros _]. apply keep_bind; [apply keep_guard|intros _; apply keep_ret].
Qed.

Lemma refresh_ok q s : co_ok rest s -> wp (refresh_prefix_cache_hit q) (fun _ s' => step_kept s s') s.
Proof.
  intros Hok. unfold refresh_prefix_cache_hit. apply wp_bind, wp_read. cbv beta iota. unfold id. apply wp_if; intros _; [by apply wp_ret|].
  apply on_cached_kept; [apply quiet_refresh|done].
Qed.
Lemma hit_slots_ok q s : co_ok rest s -> wp (prefix_hit_evictable_slots q) (fun _ s' => step_kept s s') s.
Proof.
  intros Hok. unfold prefix_hit_evictable_slots. apply wp_bind, wp_read. cbv beta iota. unfold id. apply wp_if; intros _; [by apply wp_ret|].
  apply wp_bind. eapply wp_mono; [apply on_cached_kept; [apply quiet_counts|done]|]. cbv beta. intros [[a b]|e] s' Hk; [by apply wp_ret|done].
Qed.

(** ** Room for slots *)

(** The blocks that can be evicted. *)
Definition reclaimable s : gset bytes := match prefix_cache s with Some c => freeable_set (the_index c) | None => ∅ end.

Lemma co_evict_count fl s n lb s' : evicted_blocks fl s n lb (Ok lb.*1) s' ->
  Z.of_nat (length lb) = Z.max 0 (Z.min n (Z.of_nat (size (reclaimable s)))) /\
  Z.of_nat (size (reclaimable s)) = Z.of_nat (length lb) + Z.of_nat (size (reclaimable s')).
Proof.
  intros (_ & _ & _ & c & ix' & Hc & -> & (l & Hl & Htr & Hstop & Hecon)). rewrite app_nil_l in Hl. injection Hl as Hl.
  assert (length l = length lb) as Hlen by (rewrite <- (length_fmap fst l), <- (length_fmap fst lb); congruence).
  pose proof (freeable_set_evicted _ _ _ Htr) as Hsz. destruct (evict_trace_inv _ _ _ _ Htr) as [_ Hinv'].
  unfold reclaimable. rewrite Hc. cbn [with_index]. change (the_index (c <| the_index := ix' |>)) with ix'. rewrite Hlen in Hsz. split; [|exact Hsz].
  assert (Z.of_nat (length lb) <= Z.max 0 n) as Hup.
  { rewrite <- Hlen. destruct l as [|x l1 _] using rev_ind; [cbn; lia|]. specialize (Hecon l1 x eq_refl).
    rewrite weight_of_one in Hecon. rewrite length_app. cbn [length]. lia. }
  destruct Hstop as [Hw|Hw]; [rewrite weight_of_one in Hw; lia|].
  pose proof (no_leaf_freeable ix' Hinv' Hw) as E. rewrite E, size_empty in Hsz. lia.
Qed.

Lemma freeable_answer s : co_ok rest s -> is_Some (prefix_cache s) ->
  wp (on_prefix freeable_blocks) (fun r s' => r = Ok (Z.of_nat (size (reclaimable s))) /\ step_kept s s') s.
Proof.
  intros Hok [c Hc]. destruct (co_index_of _ _ _ Hok Hc) as (Hinv & _). eapply co_wp_on_prefix; [done|]. unfold freeable_blocks. apply wp_bind.
  unfold wp at 1. pose proof (freeable_block_ids_spec (the_index c) Hinv) as Hs. unfold wp in Hs.
  assert (freeable_set (the_index c) = match (freeable_block_ids (the_index c)).1 with Ok ids => ids | Raise _ => ∅ end) as Hf by done.
  destruct (freeable_block_ids (the_index c)) as [r ix']. cbn [fst snd] in *. destruct Hs as (Hinv' & Hcore & _ & ids & -> & _).
  apply wp_ret. split; [unfold reclaimable; by rewrite Hc, Hf|]. by apply (with_core s c).
Qed.

Definition reclaimable_slots s : Z := Z.of_nat (size (reclaimable s)) * co_block_size s.
Lemma slots_answer s : co_ok rest s -> Forall (fun m : CoAct Z => wp m (fun r s' => r = Ok (reclaimable_slots s) /\ step_kept s s') s)
  [evictable_slots; step_reclaimable_slots; admission_reclaimable_slots].
Proof.
  intros Hok. assert (wp evictable_slots (fun r s' => r = Ok (reclaimable_slots s) /\ step_kept s s') s) as Hw; [|constructor; [exact Hw|constructor; [exact Hw|constructor; [exact Hw|constructor]]]].
  unfold evictable_slots. apply wp_bind, wp_read. cbv beta iota. unfold id. apply wp_if; intros Hn; bool_to_prop.
  - apply wp_ret. split; [|done]. unfold reclaimable_slots, reclaimable. by rewrite Hn, size_empty.
  - apply wp_bind. eapply wp_mono; [apply freeable_answer; [done|by apply not_eq_None_Some]|]. cbv beta. intros r s' [-> Hk]. by apply wp_ret.
Qed.

Lemma ceil_le n b k : 0 < b -> (n + b - 1) / b <= k <-> n <= k * b.
Proof.
  intros Hb. pose proof (Z.div_mod (n + b - 1) b ltac:(lia)) as E. pose proof (Z.mod_pos_bound (n + b - 1) b Hb) as Hm. nia.
Qed.
Lemma evict_for_slots_ok n s : co_ok rest s -> wp (evict_for_slots n) (fun r s' => step_kept s s' /\ thinner s s' /\
  (frees_return -> is_ok r = true <-> prefix_cache s = None \/ n <= reclaimable_slots s)) s.
Proof.
  intros Hok. unfold evict_for_slots. apply wp_bind, wp_read. cbv beta iota. unfold id. apply wp_when; intros Hgo.
  2:{ split_and!; [done|done|]. intros _. split; [|done]. intros _. apply andb_false_iff in Hgo as [Hg|Hg]; bool_to_prop; [left; by apply eq_None_not_Some|].
      right. destruct (prefix_cache s) as [c|] eqn:Hc; unfold reclaimable_slots, reclaimable; rewrite Hc.
      - destruct (co_index_of _ _ _ Hok Hc) as (_ & _ & Hbs). nia.
      - by rewrite size_empty. }
  apply andb_true_iff in Hgo as [[c Hc]%bool_decide_eq_true Hn]. bool_to_prop. destruct (co_index_of _ _ _ Hok Hc) as (_ & _ & Hbs).
  set (needed := (n + co_block_size s - 1) / co_block_size s). assert (0 < needed) as Hpos.
  { assert (~ needed <= 0) as Hx; [|lia]. unfold needed. rewrite (ceil_le n _ 0 Hbs). lia. }
  apply wp_bind. eapply wp_mono; [apply (evict_until_ok rest s needed Hok); eauto|]. cbv beta.
  intros r s1 (lb & -> & Hev & xs & Hxs). destruct (co_evict_count _ _ _ _ _ Hev) as [Hlen _]. destruct Hev as (Hok1 & Hth1 & _).
  apply wp_bind. pose proof (free_blocks_frame lb.*1 s1) as Hfr. pose proof (fun Hf => free_blocks_returns lb.*1 xs s1 Hf Hxs) as Hret. unfold wp in Hfr. unfold wp at 1.
  destruct (free_blocks lb.*1 s1) as [r s2]. destruct Hfr as [m Hm]. cbn [fst snd] in *. subst s2.
  assert (co_ok rest (s1 <| cache_manager := m |>) /\ thinner s (s1 <| cache_manager := m |>)) as [Hok2 Hth2] by (split; [by apply ok_kv|by apply thinner_kv]).
  assert (step_kept s (s1 <| cache_manager := m |>)) as Hk2 by (split; [done|by eapply thinner_undisturbed]).
  pose proof (ceil_le n _ (Z.of_nat (size (reclaimable s))) Hbs) as Hceil. fold needed in Hceil. fold (reclaimable_slots s) in Hceil.
  destruct r as [[]|e]; [|split_and!; [done|done|]; intros Hf; by discriminate (Hret Hf)].
  apply wp_guard; rewrite length_fmap; intros Hg; bool_to_prop; (split_and!; [done|done|intros _]).
  - split; [done|]. intros [?|Hle]; [congruence|]. apply Hceil in Hle. lia.
  - split; [|done]. intros _. right. apply Hceil. lia.
Qed.
End steps.
