(* ===== verification/CoordinatorControl.v ===== *)
(** * The prefix cache coordinator: deletion, priorities, release and reset

    Deleting the freeable blocks of a subtree, writing priorities, releasing
    what a request holds and has waiting, and dropping the index after warmup. *)

From stdpp Require Import base gmap list strings.
From Stdlib Require Import ZArith Lia.
From S2P Require Import Prelude PyDict PyBytes Sha256 RoutingMembership RadixTree RadixForest PrefixHash.
From S2P Require Import PrefixIndex PrefixIndexFacts PrefixCapacity PrefixTransfer PrefixControl PrefixSubtree PrefixEviction PrefixFreeable PrefixContract PrefixEpochs.
From S2P Require Import SlotRanges PrefixClient PrefixRefs PrefixHits SamplingParams Sequence PrefixLookup RecurrentRows.
From S2P Require Import PrefixCoordinator CoordinatorInvariant CoordinatorMoves CoordinatorRecord CoordinatorPlan CoordinatorCommit CoordinatorAttach CoordinatorSteps.

(** ** What the index does *)

Lemma flat_without {A} (m m' : gmap bytes (list A)) ids : NoDup ids -> (forall x, x ∈ ids -> is_Some (m !! x)) ->
  (forall x, m' !! x = if decide (x ∈ ids) then None else m !! x) ->
  flat m ≡ₚ (ids ≫= fun x => default [] (m !! x)) ++ flat m'.
Proof.
  revert m. induction ids as [|x ids IH]; intros m Hnd Hin Hm.
  - cbn. assert (m' = m) as -> by (apply map_eq; intros x; by rewrite Hm, decide_False by (by intros ?%elem_of_nil)). done.
  - apply NoDup_cons in Hnd as [Hx Hnd]. destruct (Hin x ltac:(by left)) as [l Hl]. rewrite (flat_delete m x l Hl), (IH (delete x m) Hnd).
    + cbn. rewrite Hl. cbn. rewrite <- app_assoc. do 2 f_equiv. apply reflexive_eq. clear -Hx.
      induction ids as [|y ids IH]; [done|]. cbn. rewrite lookup_delete_ne by (intros ->; apply Hx; by left). f_equal. apply IH. intros ?. apply Hx. by right.
    + intros y Hy. rewrite lookup_delete_ne by (by intros ->). apply Hin. by right.
    + intros y. rewrite Hm. destruct (decide (y = x)) as [->|Hne].
      * rewrite decide_True by (by left). by rewrite decide_False, lookup_delete_eq by done.
      * rewrite lookup_delete_ne by done. destruct (decide (y ∈ ids)) as [Hy|Hy]; [by rewrite decide_True by (by right)|].
        rewrite decide_False; [done|]. by intros [?|?]%elem_of_cons.
Qed.

Section index.
Context `{Digest}.
#[local] Abbreviation Index := (RadixPrefixIndex RadixTreeBackend).
Implicit Types (ix : Index) (id : bytes) (o : nat).

Lemma gone_named ix ix' os ids : index_wf ix -> named ix os ids -> NoDup ids ->
  (forall x, get_block ix' x = if decide (x ∈ ids) then None else get_block ix x) ->
  (forall x o b, x ∈ ids -> get_block ix x = Some (o, b) -> ref_count b = 0) ->
  exists lb, lb.*1 = os /\ gone ix lb ix'.
Proof.
  intros Hwf Hn Hnd Hg Hz.
  assert (exists lb : list (nat * PrefixCacheBlock), lb.*1 = os /\ (stable_block_id ∘ snd <$> lb) = ids /\
    Forall (fun ob => get_block ix (stable_block_id ob.2) = Some ob) lb) as (lb & Ho & Hids & Hf).
  { clear Hnd Hg Hz. induction Hn as [|o x os ids (b & Hb) _ (lb & <- & <- & Hf)]; [by exists []|].
    pose proof (get_block_id ix x o b Hwf Hb) as Hid. exists ((o, b) :: lb). split_and!; [done|cbn; by rewrite Hid|].
    constructor; [cbn; by rewrite Hid|done]. }
  exists lb. split; [done|].
  assert (forall x, seen ix' !! x = if decide (x ∈ ids) then None else seen ix !! x) as Hs by (intros x; rewrite !lookup_seen, Hg; by case_decide).
  assert (forall o b, (o, b) ∈ lb -> get_block ix (stable_block_id b) = Some (o, b) /\ stable_block_id b ∈ ids) as Hel.
  { intros o b Hob. split; [exact (proj1 (Forall_forall _ _) Hf _ Hob)|]. rewrite <- Hids. apply list_elem_of_fmap. by exists (o, b). }
  split.
  - intros A f. rewrite (flat_without (f <$> seen ix) (f <$> seen ix') ids Hnd).
    + f_equiv. apply reflexive_eq. rewrite <- Hids. clear -Hf. induction Hf as [|[o b] lb Hob _ IH]; [done|]. cbn. rewrite lookup_fmap, lookup_seen. cbn in Hob.
      rewrite Hob. cbn. f_equal. exact IH.
    + intros x Hx. rewrite <- Hids in Hx. apply list_elem_of_fmap in Hx as ([o b] & -> & Hob). rewrite lookup_fmap, lookup_seen.
      destruct (Hel o b Hob) as [Hgb _]. cbn. rewrite Hgb. by eexists.
    + intros x. rewrite !lookup_fmap, Hs. by case_decide.
  - intros x en Hen. rewrite Hs. case_decide as Hx; [|by left]. right. rewrite <- Hids in Hx. apply list_elem_of_fmap in Hx as ([o b] & -> & Hob).
    destruct (Hel o b Hob) as [Hgb _]. rewrite lookup_seen in Hen. cbn in Hen. rewrite Hgb in Hen. injection Hen as <-. by exists b.
  - apply map_subseteq_spec. intros x en. rewrite Hs. by case_decide.
  - intros o b Hob. destruct (Hel o b Hob) as [Hgb Hin]. split; [done|]. by eapply Hz.
Qed.
Lemma delete_seen ix toks : index_inv ix -> wp (safe_delete_subtree toks) (fun r ix' => client_step ix ix' /\
  exists lb, gone ix lb ix' /\ match r with Ok d => deleted d = lb.*1 | Raise _ => lb = [] end) ix.
Proof.
  intros Hinv. pose proof (proj1 (run_op_later ix (SafeDelete toks) Hinv I)) as Hc. cbn [run_op] in Hc. rewrite discard_state in Hc.
  pose proof (safe_delete_spec toks ix Hinv) as Hs. unfold wp in *. destruct (safe_delete_subtree toks ix) as [r ix']. cbn in *.
  destruct Hs as [Hinv' Hr]. split; [by split|].
  assert ((forall x, get_block ix' x = get_block ix x) -> gone ix [] ix') as Hnil.
  { intros Hg. assert (seen ix' = seen ix) as E by (apply seen_ext; intros x; by rewrite Hg). split; rewrite ?E; [done|by left|done|by intros ? ? ?%elem_of_nil]. }
  destruct r as [d|e]; [|destruct Hr as [Hg _]; exists []; auto]. destruct Hr as [[-> Hg]|(root & dids & _ & Hn & Hnd & Hd & Hg & _)]; [exists []; auto|].
  destruct (gone_named ix ix' (deleted d) dids (proj1 Hinv) Hn Hnd Hg) as (lb & Ho & Hgone); [|by exists lb].
  intros x o b Hx Hgb. apply Hd in Hx as [_ [_ Hc']]. apply unheld_refs. exact (Hc' x (rtc_refl _ _) o b Hgb).
Qed.

(** An entry without its priority. *)
Definition but_priority (en : Entry) : Entry := en <| e_priority := 0 |>.
Definition faces ix id : option Entry := but_priority <$> (entry_of <$> get_block ix id).
Definition same_faces ix0 ix : Prop := config ix = config ix0 /\ forall id, faces ix id = faces ix0 id.
Lemma priority_faces ix0 toks n : keep (same_faces ix0) (set_subtree_eviction_priority toks n : Act PyExn Index _).
Proof.
  assert (forall ids k a b, keep (same_faces ix0) (update_priorities ids n k a b : Act PyExn Index _)) as Hup.
  { induction ids as [|x ids IH]; intros k a b; cbn [update_priorities]; [apply keep_ret|]. apply keep_bind; [apply keep_read|].
    intros [[o bk]|]; [|apply IH]. destruct (_ =? _); [apply IH|]. apply keep_bind; [|intros _; apply IH].
    intros ix [Hc Hf]. apply wp_update_block. split; [done|]. intros y. rewrite <- Hf. unfold faces. rewrite updated_get_block.
    destruct (get_block ix y) as [[o' b']|]; [|done]. by case_decide. }
  unfold set_subtree_eviction_priority. apply keep_bind; [by apply keep_modify|intros _].
  apply keep_bind; [intros ix [Hc Hf]; by unfold block_ids_for_tokens; apply wp_bind, wp_modify|intros ids].
  destruct ids as [|i0 ids0]; [apply keep_ret|]. apply keep_bind; [by intros ix Hi|intros r]. destruct (last_block_id r) as [root|]; [|apply keep_ret].
  destruct (_ =? _); [|apply keep_ret]. apply keep_bind; [by intros ix Hi|intros l]. apply keep_bind; [apply Hup|intros [[k a] b]].
  apply keep_bind; [|intros _; apply keep_ret]. destruct b; [intros ix Hi; by apply wp_mark_capacity|].
  apply keep_when. intros ix Hi. by apply wp_mark_mutated.
Qed.
End index.

Section control.
Context {DType Device Content Event : Type} `{TorchTypes DType Device Content Event}.
Context {M K : Type} `{PrefixKV M K} `{Digest}.
#[local] Abbreviation Co := (@PrefixCacheCoordinator DType Device Content Event M K).
#[local] Abbreviation Pending := (@PendingMixedPrefixBlock DType Device Content K).
Implicit Types (s : Co) (q : Sequence) (sid : Z) (o : nat) (p : Pending) (ds : list Z).

(** ** Deletion and priorities *)

Lemma delete_subtree_ok toks s : co_ok rest s -> wp (delete_subtree toks) (fun _ s' => step_kept s s' /\ blk s' ⊆ blk s) s.
Proof.
  intros Hok. unfold delete_subtree. apply wp_bind, wp_require; [done|]. intros [c Hc]. destruct (co_index_of _ _ _ Hok Hc) as (Hinv & _).
  apply wp_bind. eapply co_wp_on_prefix; [exact Hc|]. eapply wp_mono; [apply (preview_delete_spec toks _ (proj1 Hinv))|]. cbv beta.
  intros r ix1 [Hf _]. pose proof (frame_core _ _ Hf) as Hcore. pose proof (frame_inv _ _ Hf Hinv) as Hinv1.
  pose proof (with_core s c (c <| the_index := ix1 |>) Hc Hok Hinv1 Hcore) as Hk1. fold (with_index s c ix1) in Hk1. set (s1 := with_index s c ix1) in *.
  assert (seen ix1 = seen (the_index c)) as Hs1 by (apply seen_ext; intros id; by rewrite (core_get_block _ _ id Hcore)).
  assert (blk s1 ⊆ blk s) as Hb1 by (unfold s1; by rewrite co_blk_with_index, Hs1, (co_blk_index s c Hc)).
  destruct r as [d|e]; [|done]. apply wp_bind, wp_any_kv. intros r m. set (s2 := s1 <| cache_manager := m |>). destruct Hk1 as [Hok1 Hu1].
  assert (co_ok rest s2 /\ undisturbed s s2) as [Hok2 Hu2] by (split; [by apply ok_kv|by apply undisturbed_kv]).
  destruct r as [[]|e]; [|done]. apply wp_bind. eapply (co_wp_on_prefix _ _ s2 (c <| the_index := ix1 |>)); [done|].
  eapply wp_mono; [by apply delete_seen|]. cbv beta. intros r ix3 (Hst & lb & Hg & Hr). change (the_index (c <| the_index := ix1 |>)) with ix1 in Hg.
  set (c2 := c <| the_index := ix1 |>) in *. assert (prefix_cache s2 = Some c2) as Hc2 by done. set (s3 := with_index s2 c2 ix3).
  assert (co_ok rest s3) as Hok3 by (by apply (gone_ok rest s2 c2 ix3 lb)). pose proof (gone_thinner s2 c2 ix3 lb Hc2 Hg) as Hth. fold s3 in Hth.
  assert (step_kept s s3 /\ blk s3 ⊆ blk s) as [Hk3 Hb3].
  { split; [|etrans; [apply Hth|exact Hb1]]. split; [done|]. etrans; [exact Hu2|]. by apply (thinner_undisturbed rest). }
  destruct r as [res|e]; [|done]. apply wp_bind. eapply wp_mono; [apply free_blocks_frame|]. cbv beta. intros r s4 [m4 ->].
  assert (step_kept s (s3 <| cache_manager := m4 |>)) as Hk4 by (destruct Hk3; split; [by apply ok_kv|by apply undisturbed_kv]).
  destruct r as [[]|e]; [by apply wp_ret|done].
Qed.


Lemma faced (ix0 ix : RadixPrefixIndex RadixTreeBackend) id : same_faces ix0 ix ->
  match seen ix !! id with
  | Some en => exists en0, seen ix0 !! id = Some en0 /\ e_obj en = e_obj en0 /\ e_payload en = e_payload en0 /\ e_refs en = e_refs en0 /\
      e_residency en = e_residency en0
  | None => seen ix0 !! id = None
  end.
Proof.
  intros [_ Hf]. specialize (Hf id). unfold faces in Hf. rewrite <- !lookup_seen in Hf.
  destruct (seen ix !! id) as [en|], (seen ix0 !! id) as [en0|]; cbn in Hf; try done. injection Hf as E1 E2 E3 E4 _. by exists en0.
Qed.
Lemma set_priority_ok toks n s : co_ok rest s -> wp (set_eviction_priority toks n) (fun _ s' => step_kept s s') s.
Proof.
  intros Hok. unfold set_eviction_priority. apply wp_bind, wp_require; [done|]. intros [c Hc]. destruct (co_index_of _ _ _ Hok Hc) as (Hinv & _).
  eapply co_wp_on_prefix; [exact Hc|]. eapply wp_mono; [apply wp_and; [by apply set_priority_inv|exact (priority_faces (the_index c) toks n _ (conj eq_refl (fun _ => eq_refl)))]|].
  cbv beta. intros _ ix' [Hinv' Hf]. pose proof (fun id => faced _ _ id Hf) as Hs. rewrite <- (co_blk_index s c Hc) in Hs.
  assert (forall id en, blk s !! id = Some en -> exists en', seen ix' !! id = Some en' /\ e_obj en' = e_obj en) as Hback.
  { intros id en Hen. specialize (Hs id). destruct (seen ix' !! id) as [en'|]; [|congruence]. destruct Hs as (en0 & Hen0 & Ho & _).
    exists en'. split; [done|]. congruence. }
  assert (dom (seen ix') = dom (blk s)) as Hdom.
  { apply leibniz_equiv. intros id. rewrite !elem_of_dom. specialize (Hs id). destruct (seen ix' !! id) as [en|]; split; intros [x Hx]; try done.
    - destruct Hs as (en0 & -> & _). eauto.
    - congruence. }
  split.
  - apply (co_index_moved s c ix' [] [] [] []); [exact Hok|exact Hc|split; [done|apply Hf]| | | |].
    + intros id en Hen. specialize (Hs id). rewrite Hen in Hs. destruct Hs as (en0 & ? & ? & ? & ? & ?). by exists en0.
    + pose proof (co_refs _ _ Hok) as [Hcnt Hidx]. split.
      * intros id en Hen. specialize (Hs id). rewrite Hen in Hs. destruct Hs as (en0 & Hen0 & -> & _ & -> & _). by apply (Hcnt id).
      * eapply Forall_impl; [exact Hidx|]. intros o (id & en & Hen & <-). destruct (Hback id en Hen) as (en' & ? & ?). by exists id, en'.
    + rewrite <- !size_dom, Hdom. done.
    + unfold live_bytes, block_bytes. replace ((fun en => [bytes_of (payloads s) (e_payload en)]) <$> seen ix')
        with ((fun en => [bytes_of (payloads s) (e_payload en)]) <$> blk s); [done|].
      apply map_eq. intros id. rewrite !lookup_fmap. specialize (Hs id). destruct (seen ix' !! id) as [en|]; [|by rewrite Hs].
      destruct Hs as (en0 & -> & _ & E & _). cbn. by rewrite E.
  - split; [done|cbn; rewrite Hc; split; eauto|done..|]. intros sid id (en & Hen & Ho). destruct (Hback id en Hen) as (en' & Hen' & E).
    exists en'. split; [exact Hen'|]. by rewrite E.
Qed.

(** ** Release *)

(** What is left of a request. *)
Record released sid s s' : Prop := {
  rl_config : co_config s' = co_config s;
  rl_cache : is_Some (prefix_cache s') <-> is_Some (prefix_cache s);
  rl_attached : seq_id_to_prefix_blocks s' = delete sid (seq_id_to_prefix_blocks s);
  rl_materialized : seq_id_to_materialized_blocks s' = delete sid (seq_id_to_materialized_blocks s);
  rl_states : runtime_states s' = delete sid (runtime_states s);
  rl_pending : pending_blocks s' = delete sid (pending_blocks s);
  rl_dups : pending_duplicate_refs s' = delete sid (pending_duplicate_refs s);
  rl_limited : capacity_limited_seq_ids s' = capacity_limited_seq_ids s ∖ {[sid]};
  rl_same : same_but_refs (blk s) (blk s');
}.
Lemma released_settled sid s s' : released sid s s' -> settled s -> settled s'.
Proof.
  intros [Hcf _ Ha Hm Hst Hp Hd _ Hs] [[Pout Pr Pd Ps] Ht]. split; [split|].
  - intros x _. destruct (Pout x ltac:(by intros ?%elem_of_nil)) as [E1 E2]. unfold pend, dups in *. rewrite Hp, Hd.
    destruct (decide (x = sid)) as [->|Hne]; [by rewrite !lookup_delete_eq|by rewrite !lookup_delete_ne].
  - exact I.
  - intros i x Hi. by rewrite lookup_nil in Hi.
  - intros x st Hx. rewrite Hst in Hx. apply lookup_delete_Some in Hx as [Hne Hx]. destruct (Ps x st Hx) as [? Hanc]. split; [done|].
    unfold anchored in *. destruct (state_parent_block_id st) as [id|]; [|done]. destruct (Pout x ltac:(by intros ?%elem_of_nil)) as [E1 E2].
    rewrite E1, E2 in Hanc. destruct Hanc as [(en & Hen & Ho)|[[]%elem_of_nil|[]%elem_of_nil]]. left.
    destruct (same_but_refs_elem _ _ _ _ Hs Hen) as (en' & Hen' & E & _). exists en'. split; [done|]. rewrite E. unfold held_blocks in *.
    by rewrite Ha, Hm, !lookup_delete_ne.
  - intros x st Hx. rewrite Hst in Hx. apply lookup_delete_Some in Hx as [_ Hx]. unfold co_block_size. rewrite Hcf. by apply (Ht x).
Qed.

Definition unheld_seq sid s : Co := s <| seq_id_to_prefix_blocks ::= delete sid |> <| seq_id_to_materialized_blocks ::= delete sid |>.
Lemma unheld_ok sid s : co_ok rest s -> co_ok (mkFlight (held_blocks s sid ++ []) [] []) (unheld_seq sid s).
Proof.
  intros [Hix Hb Hr L R]. split; [exact Hix|exact Hb| |destruct L; by split|destruct R; by split]. eapply counted_perm; [|exact Hr].
  unfold holders, unheld_seq, held_blocks. cbn. rewrite (flat_default (seq_id_to_prefix_blocks s) sid), (flat_default (seq_id_to_materialized_blocks s) sid). solve_Permutation.
Qed.
Lemma release_seq_ok sid s : co_ok rest s -> is_Some (prefix_cache s) ->
  wp (release_seq sid) (fun r s' => r = Ok tt /\ co_ok rest s' /\ released sid s s') s.
Proof.
  intros Hok Hc. unfold release_seq. apply wp_bind, wp_read. cbv beta iota. unfold id. apply wp_bind, wp_modify. cbv beta iota. fold (unheld_seq sid s).
  pose proof (unheld_ok sid s Hok) as Hok1. set (s1 := unheld_seq sid s) in *. apply wp_bind, wp_require; [intros E; change (prefix_cache s1) with (prefix_cache s) in E; rewrite E in Hc; by destruct Hc|]. intros Hc1.
  apply wp_bind. eapply wp_mono; [apply (release_refs_ok [] [] [] s1 _ (held_blocks s sid) Hok1 Hc1)|]. cbv beta.
  intros r s2 (-> & Hok2 & c & ix2 & Hcs & -> & Hsame). apply wp_bind, wp_modify. cbv beta iota. set (s2 := with_index s1 c ix2) in *.
  set (s3 := s2 <| runtime_states ::= _ |> <| pending_blocks ::= _ |>).
  assert (co_ok (mkFlight [] ((reservation_of <$> pend s sid) ++ []) []) s3) as Hok3.
  { apply taken_ok with (sid := sid) in Hok2. destruct Hok2 as [Hix Hb Hr L R].
    assert (holders (taken sid s2) ≡ₚ holders s3) as Hh by (unfold holders, taken, s3; cbn; by rewrite flat_known).
    split; [exact Hix|exact Hb|eapply counted_perm; [|exact Hr]; cbn; by rewrite Hh|destruct L; by split|destruct R; by split]. }
  apply wp_bind. change (from_option (fun x => x) [] (pending_blocks s !! sid)) with (pend s sid).
  eapply wp_mono; [apply (release_pending_all [] [] [] s3 (pend s sid) Hok3)|]. cbv beta. intros r s4 (-> & Hu & Hok4).
  apply wp_modify. cbv beta iota. split; [done|]. split; [apply ok_limited; by apply ok_duplicates|].
  assert (is_Some (prefix_cache s3) <-> is_Some (prefix_cache s)) as Hcc by (split; [done|by eexists]).
  rewrite Hu. by split.
Qed.

(** ** Reset *)

Lemma release_ledger_all l s (ps : list Pending) : ledger ((reservation_of <$> ps) ++ l) s ->
  wp (for_each ps release_pending) (fun r s' => r = Ok tt /\ unreserved s s' /\ ledger l s') s.
Proof.
  revert s. induction ps as [|p ps IH]; intros s L; cbn [for_each]; [apply wp_ret; split_and!; [done|by destruct s|done]|].
  apply wp_bind. unfold release_pending, free_prefix_recurrent_payload. apply wp_bind, wp_ret. eapply wp_mono; [exact (release_ledger _ _ _ _ L)|].
  cbv beta. intros r s1 (-> & Hu & L1). eapply wp_mono; [by apply IH|]. cbv beta. intros r s2 (-> & Hu2 & L2). split_and!; [done| |done].
  unfold unreserved in *. by rewrite Hu2, Hu.
Qed.
Lemma unreserved_ok s s' : unreserved s s' -> ledger (waiting s) s' -> co_ok rest s -> co_ok rest s'.
Proof.
  intros Hu L [Hix Hb Hr _ R]. destruct (unreserved_parts _ _ Hu) as (E1 & E2 & E3 & E4 & E5 & _).
  split; cbn [extra_refs reserved entered rest app] in *; rewrite ?E1, ?E2, ?E3, ?E4, ?E5; try done. by eapply unreserved_room.
Qed.

(** Nothing is cached, held or waiting. *)
Record emptied s : Prop := {
  em_blocks : blk s = ∅;
  em_attached : seq_id_to_prefix_blocks s = ∅;
  em_materialized : seq_id_to_materialized_blocks s = ∅;
  em_states : runtime_states s = ∅;
  em_pending : pending_blocks s = ∅;
  em_dups : pending_duplicate_refs s = ∅;
  em_ids : pending_block_ids s = ∅;
  em_bytes : pending_recurrent_bytes s = 0;
}.
Lemma emptied_settled s : emptied s -> settled s.
Proof.
  intros []. split; [split|].
  - intros x _. unfold pend, dups. rewrite em_pending0, em_dups0. done.
  - exact I.
  - intros i x Hi. by rewrite lookup_nil in Hi.
  - intros x st. by rewrite em_states0, lookup_empty.
  - intros x st. by rewrite em_states0, lookup_empty.
Qed.
Lemma emptied_ok s : index_ok s -> (forall m, prefix_cache s <> None -> cc_max_blocks (co_config s) = Some m -> 0 <= m) -> emptied s -> co_ok rest s.
Proof.
  intros Hix Hm []. assert (waiting s = []) as Hw by (unfold waiting; by rewrite em_pending0).
  assert (holders s = []) as Hh by (unfold holders; by rewrite em_attached0, em_materialized0).
  split; cbn [extra_refs reserved entered rest app]; rewrite ?Hw, ?Hh.
  - exact Hix.
  - intros id en. by rewrite em_blocks0, lookup_empty.
  - rewrite em_blocks0. split; [intros id en; by rewrite lookup_empty|done].
  - split; [constructor| |exact em_bytes0|done]. intros id. rewrite em_ids0. cbn. set_solver.
  - split; [by intros id ?%elem_of_nil| |].
    + intros m Hc Hmx. rewrite em_blocks0, map_size_empty. by apply Hm.
    + unfold live_bytes, block_bytes. rewrite em_blocks0. rewrite fmap_empty. unfold flat. rewrite map_to_list_empty. unfold total. cbn. lia.
Qed.

Lemma unreferenced s c : co_ok rest s -> prefix_cache s = Some c -> holders s = [] -> any_referenced (the_index c) = false.
Proof.
  intros Hok Hc Hh. destruct (co_index_of _ _ _ Hok Hc) as ([Hwf _] & _). unfold any_referenced.
  rewrite <- not_true_iff_false, existsb_exists. intros (o & Ho & Hr). apply list_elem_of_In in Ho. unfold values in Ho.
  apply list_elem_of_fmap in Ho as ([id o'] & -> & Hio). cbn in Hr. apply (dict_elem_of_items _ _ _ (iwf_dict _ Hwf)) in Hio.
  destruct (iwf_store _ Hwf id o' Hio) as (b & Hb & _). rewrite Hb in Hr.
  assert (blk s !! id = Some (entry_of (o', b))) as Hen by (rewrite (co_blk_index s c Hc), lookup_seen; unfold get_block; by rewrite Hio, Hb).
  pose proof (proj1 (co_refs _ _ Hok) id _ Hen) as Hz. rewrite Hh in Hz. cbn in Hz. rewrite Hz in Hr. done.
Qed.

Lemma reset_ok s : co_ok rest s -> wp reset_after_warmup (fun r s' => co_config s' = co_config s /\
  (is_ok r = true \/ waiting s = [] -> co_ok rest s') /\
  (is_ok r = true -> prefix_cache s = None /\ s' = s \/ emptied s' /\ is_Some (prefix_cache s')) /\
  (frees_return -> is_ok (co_new_index (co_config s)) = true -> seq_id_to_prefix_blocks s = ∅ -> seq_id_to_materialized_blocks s = ∅ -> is_ok r = true)) s.
Proof.
  intros Hok. unfold reset_after_warmup. apply wp_bind, wp_read. cbv beta iota. unfold id. apply wp_when; intros Hsome; bool_to_prop.
  2:{ split_and!; [done|done|left; split; [by apply eq_None_not_Some|done]|done]. }
  apply wp_bind, wp_guard; intros Hheld.
  { split_and!; [done|done|done|]. intros _ _ E1 E2. rewrite E1, E2 in Hheld. done. }
  apply orb_false_iff in Hheld as [E1 E2]. apply negb_false_iff, bool_decide_eq_true in E1, E2.
  assert (holders s = []) as Hh by (unfold holders; by rewrite E1, E2). destruct Hsome as [c Hc].
  fold (flat (pending_blocks s)). apply wp_bind. eapply wp_mono; [apply (release_ledger_all [] s (flat (pending_blocks s)))|].
  { rewrite app_nil_r. exact (co_ledger _ _ Hok). }
  cbv beta. intros r s1 (-> & Hu & L1). destruct (unreserved_parts _ _ Hu) as (_ & _ & _ & _ & _ & _ & _ & Hcf & Hpc).
  assert (waiting s = [] -> co_ok rest s1) as Hok1 by (intros Hw; apply (unreserved_ok s); [done|by rewrite Hw|done]). rewrite Hc in Hpc.
  apply wp_bind, wp_prefix_read; [|by rewrite Hpc]. intros c' Hc'. assert (c' = c) as -> by congruence. clear Hc'.
  apply wp_bind, wp_prefix_read; [|by rewrite Hpc]. intros c' Hc'. assert (c' = c) as -> by congruence. clear Hc'.
  apply wp_bind, wp_guard; intros Hr; [by rewrite (unreferenced s c Hok Hc Hh) in Hr|].
  destruct (values_payloads _ _ _ Hok Hc) as (xs & Hxs & _).
  assert (Forall2 (has_payload s1) (values (blocks (the_index c))) xs) as Hxs1.
  { eapply Forall2_impl; [exact Hxs|]. intros o x (c' & b & Hc' & Ho & Hx). exists c', b. split_and!; [congruence|done|]. by rewrite Hu. }
  apply wp_bind. pose proof (free_blocks_frame (values (blocks (the_index c))) s1) as Hfr. pose proof (fun Hf => free_blocks_returns _ xs s1 Hf Hxs1) as Hret.
  unfold wp in Hfr. unfold wp at 1. destruct (free_blocks (values (blocks (the_index c))) s1) as [r s2]. destruct Hfr as [m Hm]. cbn [fst snd] in *. subst s2.
  destruct r as [[]|e].
  2:{ split_and!; [done|intros [?|Hw]; [done|by apply ok_kv, Hok1]|done|]. intros Hf. by discriminate (Hret Hf). }
  apply wp_bind, wp_lift. destruct (co_new_index (co_config s)) as [c2|e] eqn:Hnew.
  2:{ split_and!; [done|intros [?|Hw]; [done|by apply ok_kv, Hok1]|done|done]. }
  apply wp_modify. set (s3 := s1 <| cache_manager := m |> <| prefix_cache := _ |> <| runtime_states := _ |> <| pending_blocks := _ |>
    <| pending_duplicate_refs := _ |> <| pending_block_ids := _ |> <| pending_recurrent_bytes := _ |> <| capacity_limited_seq_ids := _ |> <| skipped_capacity_blocks := _ |>).
  unfold co_new_index in Hnew. destruct (new_index _ _ _) as [ix|e] eqn:Hix; [|done]. cbn in Hnew. injection Hnew as <-.
  destruct (new_index_empty _ _ _ _ Hix) as (Hs0 & Hcf0 & Hmx).
  assert (emptied s3) as Hem by (split; try done; [by unfold s3; rewrite Hu|by unfold s3; rewrite Hu]).
  split_and!; [exact Hcf| |intros _; right; split; [done|by eexists]|done]. intros _. apply emptied_ok; [|intros mx _; unfold s3; cbn; rewrite Hcf; apply Hmx|done].
  pose proof (co_index _ _ Hok) as Hixo. unfold index_ok in *. rewrite Hc in Hixo. destruct Hixo as (? & _ & _). unfold s3, co_block_size. cbn.
  rewrite Hcf. split_and!; [done|by eapply new_index_inv|exact Hcf0].
Qed.
End control.
