(* ===== verification/CoordinatorGuarantees.v ===== *)
(** * The prefix cache coordinator: guarantees

    In every reachable coordinator references and reservations are accounted for
    and the limits on blocks and snapshot bytes hold; a hit is attached entirely
    or not at all; what a request records does not depend on how its tokens are
    split over steps; a step over a settled coordinator succeeds, records and
    commits the tokens of its batch and settles the coordinator again; a reset
    that fails while blocks wait loses their reservations. *)

From stdpp Require Import base gmap list strings.
From Stdlib Require Import ZArith Lia.
From S2P Require Import Prelude PyDict PyBytes Sha256 RoutingMembership RadixTree RadixForest PrefixHash.
From S2P Require Import PrefixIndex PrefixIndexFacts PrefixCapacity PrefixFreeable PrefixContract.
From S2P Require Import SlotRanges PrefixClient PrefixRefs SamplingParams Sequence PrefixLookup RecurrentRows RecurrentFacts RecurrentGuarantees RecurrentBytes.
From S2P Require Import PrefixCoordinator CoordinatorInvariant CoordinatorMoves CoordinatorRecord CoordinatorPlan CoordinatorCommit.
From S2P Require Import CoordinatorAttach CoordinatorSteps CoordinatorControl.

(** What is asked of a coordinator. *)
Inductive CoOp :=
| CoRefresh (q : Sequence)
| CoHitSlots (q : Sequence)
| CoReclaimable
| CoAttach (qs : list Sequence)
| CoEvict (needed_slots : Z)
| CoRecord (qs : list Sequence) (is_prefill : bool)
| CoCommit (qs : list Sequence)
| CoRelease (seq_id : Z)
| CoDelete (toks : list Z)
| CoPriority (toks : list Z) (priority : Z)
| CoReset.

Section guarantees.
Context {DType Device Content Event : Type} `{TorchTypes DType Device Content Event}.
Context {M K : Type} `{PrefixKV M K} `{Digest}.
#[local] Abbreviation Co := (@PrefixCacheCoordinator DType Device Content Event M K).
#[local] Abbreviation CoAct := (Act PyExn Co).
#[local] Abbreviation Rows := (@RecurrentStateManager DType Device Content Event).
Implicit Types (s : Co) (q : Sequence) (sid : Z) (cf : CoordinatorConfig).

(** ** Reachable coordinators *)

Definition run_co_op (op : CoOp) : CoAct unit :=
  match op with
  | CoRefresh q => refresh_prefix_cache_hit q ;; mret tt
  | CoHitSlots q => prefix_hit_evictable_slots q ;; mret tt
  | CoReclaimable => evictable_slots ;; mret tt
  | CoAttach qs => attach_prefix_cache_hits qs
  | CoEvict n => evict_for_slots n
  | CoRecord qs pf => record_step_tokens qs pf
  | CoCommit qs => commit_pending_blocks qs
  | CoRelease sid => release_seq sid
  | CoDelete toks => delete_subtree toks ;; mret tt
  | CoPriority toks n => set_eviction_priority toks n ;; mret tt
  | CoReset => reset_after_warmup
  end.
(** Every operation may raise but one: a reset while blocks wait.  It drops the
    reservations before it frees the blocks, so that when freeing raises, waiting
    blocks are left without reservations ([failed_reset_loses_reservations]). *)
Definition co_op_ok (op : CoOp) s : Prop :=
  match op with CoReset => is_ok (reset_after_warmup s).1 = true \/ waiting s = [] | _ => True end.

(** Operations may raise, and the cache manager and the rows change on their own. *)
Inductive co_reachable cf : Co -> Prop :=
| co_reach_new m r s : new_coordinator cf m r = Ok s -> co_reachable cf s
| co_reach_op op s : co_reachable cf s -> co_op_ok op s -> co_reachable cf (run_co_op op s).2
| co_reach_outside m r s : co_reachable cf s -> co_reachable cf (s <| cache_manager := m |> <| recurrent_state_manager := r |>).

Lemma new_coordinator_ok cf m r s : new_coordinator cf m r = Ok s -> co_ok rest s /\ emptied s /\ co_config s = cf.
Proof.
  unfold new_coordinator, co_new_index. intros Hnew.
  assert (exists c, s = mkCoordinator cf c ∅ ∅ ∅ ∅ ∅ ∅ ∅ 0 ∅ 0 m r /\ match c with
    | Some c => cc_enable_prefix_caching cf = true /\ index_inv (the_index c) /\ seen (the_index c) = ∅ /\
        PrefixIndex.config (the_index c) = mkIndexConfig (cc_block_size cf) (cc_fingerprint cf) (cc_max_blocks cf) /\
        forall mx, cc_max_blocks cf = Some mx -> 0 <= mx
    | None => cc_enable_prefix_caching cf = false
    end) as (c & -> & Hc).
  { destruct (cc_enable_prefix_caching cf); [|by injection Hnew as <-; eexists].
    destruct (new_index _ _ _) as [ix|e] eqn:Hix; [|done]. cbn in Hnew. injection Hnew as <-. eexists. split; [done|]. cbn.
    destruct (new_index_empty _ _ _ _ Hix) as (? & ? & ?). split_and!; try done. by eapply new_index_inv. }
  set (s := mkCoordinator _ _ _ _ _ _ _ _ _ _ _ _ _ _). assert (emptied s) as Hem by (split; try done; unfold blk; cbn; destruct c as [c|]; [apply Hc|done]).
  split_and!; [|done|done]. apply emptied_ok; [| |done]; unfold index_ok; cbn; destruct c as [c|]; try done.
  - by destruct Hc as (? & ? & _ & ? & _).
  - intros mx _. apply Hc.
Qed.

Definition sound s s' : Prop := co_ok rest s' /\ co_config s' = co_config s.
Lemma kept_sound s s' : step_kept s s' -> sound s s'.
Proof. intros [Hok [Hc _]]. by split. Qed.
Lemma attach_all_sound qs s : co_ok rest s -> wp (for_each qs attach_seq) (fun _ s' => step_kept s s') s.
Proof.
  revert s. induction qs as [|q qs IH]; intros s Hok; cbn [for_each]; [by apply wp_ret|].
  apply wp_bind. eapply wp_mono; [by apply attach_seq_ok|]. cbv beta. intros r s1 Hr. pose proof (attach_undisturbed _ _ _ _ Hr) as Hu. destruct Hr as (Hok1 & _).
  destruct r as [[]|e]; [|done]. eapply wp_mono; [by apply IH|]. cbv beta. intros r s2 [Hok2 Hu2]. split; [done|by etrans].
Qed.
(** Without an index nothing is held. *)
Lemma nothing_held s sid : co_ok rest s -> prefix_cache s = None -> held_blocks s sid = [].
Proof.
  intros Hok Hn. destruct (held_blocks s sid) as [|o os] eqn:Hh; [done|]. assert (o ∈ held_blocks s sid) as Ho by (rewrite Hh; by left).
  destruct (held_indexed _ _ _ _ Hok Ho) as (id & en & Hen & _). unfold blk in Hen. by rewrite Hn in Hen.
Qed.
Lemma release_sound sid s : co_ok rest s -> wp (release_seq sid) (fun _ s' => sound s s') s.
Proof.
  intros Hok. destruct (prefix_cache s) as [c|] eqn:Hc.
  - eapply wp_mono; [apply release_seq_ok; [done|by exists c]|]. cbv beta. intros r s' (_ & Hok' & Hr). split; [done|apply Hr].
  - unfold release_seq. apply wp_bind, wp_read. cbv beta iota. apply wp_bind, wp_modify. cbv beta iota. fold (unheld_seq sid s).
    pose proof (unheld_ok sid s Hok) as Hok1. rewrite (nothing_held s sid Hok Hc) in Hok1.
    apply wp_bind, wp_require; [done|]. intros [c Hc']. cbn in Hc'. congruence.
Qed.

Lemma co_op_sound op s : co_ok rest s -> co_op_ok op s -> wp (run_co_op op) (fun _ s' => sound s s') s.
Proof.
  intros Hok Hop. assert (sound s s) as Hsame by done.
  assert (forall A (m : CoAct A), wp m (fun _ s' => step_kept s s') s -> wp (m ;; mret tt) (fun _ s' => sound s s') s) as Hask.
  { intros A m Hm. apply wp_bind. eapply wp_mono; [exact Hm|]. cbv beta. intros [x|e] s' Hk; [apply wp_ret|]; by apply kept_sound. }
  destruct op as [q|q| |qs|n|qs pf|qs|sid|toks|toks n|]; cbn [run_co_op].
  - by apply Hask, refresh_ok.
  - by apply Hask, hit_slots_ok.
  - apply Hask. pose proof (slots_answer s Hok) as Ha. apply Forall_cons in Ha as [Ha _]. eapply wp_mono; [exact Ha|]. cbv beta. by intros r s' [_ Hk].
  - unfold attach_prefix_cache_hits. apply wp_bind, wp_read. cbv beta iota. apply wp_when; intros _; [|done].
    eapply wp_mono; [by apply attach_all_sound|]. intros r s' Hk. by apply kept_sound.
  - eapply wp_mono; [by apply evict_for_slots_ok|]. cbv beta. intros r s' (Hk & _). by apply kept_sound.
  - unfold record_step_tokens. apply wp_bind, wp_read. cbv beta iota. unfold id. apply wp_when; intros Hc; bool_to_prop; [|done].
    eapply wp_mono; [by apply (co_record_all_ok pf qs [])|]. cbv beta. intros r s' (Hok' & Hk & _). split; [done|apply Hk].
  - unfold commit_pending_blocks. apply wp_bind, wp_read. cbv beta iota. unfold id. apply wp_when; intros Hc; bool_to_prop; [|done].
    eapply wp_mono; [by apply commit_all_ok|]. cbv beta. intros r s' (Hok' & [Hcf _] & _). by split.
  - by apply release_sound.
  - apply Hask. eapply wp_mono; [by apply delete_subtree_ok|]. cbv beta. by intros r s' [Hk _].
  - by apply Hask, set_priority_ok.
  - pose proof (reset_ok s Hok) as Hr. unfold wp in *. cbn [co_op_ok] in Hop. destruct (reset_after_warmup s) as [r s'].
    destruct Hr as (Hcf & Hok' & _). split; [by apply Hok'|done].
Qed.
Lemma co_reachable_ok cf s : co_reachable cf s -> co_ok rest s /\ co_config s = cf.
Proof.
  induction 1 as [m r s Hnew|op s _ [Hok Hcf] Hop|m r s _ [Hok Hcf]].
  - by destruct (new_coordinator_ok _ _ _ _ Hnew) as (? & _ & ?).
  - destruct (co_op_sound op s Hok Hop) as [? E]. split; [done|congruence].
  - split; [by apply ok_rows, ok_kv|done].
Qed.

(** ** Accounting *)

(** C9: In every reachable coordinator, whatever was asked and whichever calls
    raised (except a reset that raises while blocks wait, after which the
    reservations are lost: [failed_reset_loses_reservations]), an indexed block
    carries exactly the references the requests hold, what a request holds is
    indexed, and the reservations are exactly the blocks that wait, each once,
    none of them indexed, with their bytes added up. *)
Theorem held_and_reserved_exactly cf s : co_reachable cf s ->
  (forall id en, blk s !! id = Some en -> e_refs en = Z.of_nat (count_occ Nat.eq_dec (holders s) (e_obj en))) /\
  (forall sid o, o ∈ held_blocks s sid -> exists id en, blk s !! id = Some en /\ e_obj en = o) /\
  NoDup (waiting s).*1 /\ (forall id, id ∈ pending_block_ids s <-> id ∈ (waiting s).*1) /\
  pending_recurrent_bytes s = total (waiting s) /\ (forall id, id ∈ pending_block_ids s -> blk s !! id = None).
Proof.
  intros [Hok _]%co_reachable_ok. pose proof (co_ledger _ _ Hok) as [L1 L2 L3 _]. cbn in *. split_and!.
  - exact (proj1 (co_refs _ _ Hok)).
  - intros sid o Ho. exact (held_indexed _ _ _ _ Hok Ho).
  - exact L1.
  - exact L2.
  - exact L3.
  - intros id Hid. apply (rm_outside _ _ (co_room _ _ Hok)). by apply L2.
Qed.

(** C12: The blocks of the index and those that wait never exceed the limit on
    blocks, and their snapshots, as the coordinator adds them up, never exceed
    the byte budget. *)
Theorem blocks_and_bytes_within_limits cf s : co_reachable cf s -> is_Some (prefix_cache s) ->
  (forall n, cc_max_blocks cf = Some n -> Z.of_nat (size (blk s)) + Z.of_nat (size (pending_block_ids s)) <= n) /\
  exists bytes, live_recurrent_bytes s = (Ok bytes, s) /\
    bytes + pending_recurrent_bytes s <= Z.max 0 (cc_recurrent_capacity_bytes cf).
Proof.
  intros [Hok <-]%co_reachable_ok Hc. pose proof (co_ledger _ _ Hok) as L. pose proof (co_room _ _ Hok) as [_ R2 R3]. cbn in *. split.
  - intros n Hn. rewrite (ledger_size _ _ L). apply R2; [by apply not_eq_None_Some|done].
  - exists (live_bytes s). split; [by eapply live_bytes_run|]. by rewrite (ld_sum _ _ L).
Qed.

(** ** Hits *)

(** C11: Attaching a hit is all or nothing.  When it fails, at whichever block,
    payload or row, every block is as it was, counts included, and no request
    holds anything new; when it succeeds for a request with a hit that was not
    attached before, the request holds exactly the chain of the hit, whose last
    block is the hit's. *)
Theorem attach_all_or_nothing cf s q : co_reachable cf s ->
  match attach_seq q s with
  | (Raise _, s') => blk s' = blk s /\ forall sid, held_blocks s' sid = held_blocks s sid
  | (Ok _, s') => prefix_cache_hit_len (prefix_hit q) <= 0 \/ is_Some (seq_id_to_prefix_blocks s !! seq_id q) \/
      exists os last, hit_chain s q os /\ NoDup os /\ seq_id_to_prefix_blocks s' = <[seq_id q := os]> (seq_id_to_prefix_blocks s) /\
        prefix_cache_hit_last_block_id (prefix_hit q) = Some last /\ held_id s' (seq_id q) last
  end.
Proof.
  intros [Hok _]%co_reachable_ok. pose proof (attach_seq_ok q s Hok) as Ha. unfold wp in Ha. destruct (attach_seq q s) as [r s'].
  cbn in Ha. destruct Ha as (Hok' & Hat & Hr). destruct r as [[]|e].
  - destruct Hr as [[-> [Hp|Hp]]|(os & Hch & Hnd & _ & Hp)]; [by left|right; by left|right; right].
    destruct (attached_hit q s s' os Hok Hat Hch Hp) as (x & Hx & Hh). by exists os, x.
  - destruct Hr as [Hb Hp]. split; [done|]. intros sid. unfold held_blocks. rewrite Hp. by rewrite (at_frame _ _ Hat).
Qed.

(** ** Recording *)

(** C31: What a request records does not depend on how its tokens are split over
    steps: recording them in two calls, with anything in between that leaves its
    state alone, ends in the same state as recording them at once, and that
    state is the chain of content addresses of all the full blocks.  It may only
    differ when a block was refused for lack of room. *)
Theorem recording_ignores_chunking cf q t1 t2 s s1 s2 s3 sA :
  co_reachable cf s -> co_reachable cf s2 -> is_Some (prefix_cache s) -> is_Some (prefix_cache s2) ->
  multimodal_digest (tags q) = None -> t1 <> [] -> t2 <> [] ->
  Z.of_nat (length (pending_tokens (start_state s q))) <= cc_block_size cf ->
  record_tokens q t1 s = (Ok tt, s1) -> runtime_states s2 !! seq_id q = runtime_states s1 !! seq_id q ->
  record_tokens q t2 s2 = (Ok tt, s3) -> record_tokens q (t1 ++ t2) s = (Ok tt, sA) ->
  seq_id q ∉ capacity_limited_seq_ids s1 ∪ capacity_limited_seq_ids s3 ∪ capacity_limited_seq_ids sA ->
  exists st, recorded cf (start_state s q) (t1 ++ t2) = Ok st /\
    runtime_states s3 !! seq_id q = Some st /\ runtime_states sA !! seq_id q = Some st.
Proof.
  intros [Hok Hcf]%co_reachable_ok [Hok2 Hcf2]%co_reachable_ok Hc Hc2 Hm Hn1 Hn2 Hlen E1 Hsame E2 EA Hno.
  assert (forall s t s', co_ok rest s -> co_config s = cf -> is_Some (prefix_cache s) -> t <> [] -> Z.of_nat (length (pending_tokens (start_state s q))) <= cc_block_size cf ->
    record_tokens q t s = (Ok tt, s') -> seq_id q ∉ capacity_limited_seq_ids s' ->
    exists st, recorded cf (start_state s q) t = Ok st /\ runtime_states s' !! seq_id q = Some st /\ Z.of_nat (length (pending_tokens st)) < cc_block_size cf) as Hrec.
  { clear -Hm. intros s t s' Hok Hcf Hc Hn Hlen E Hno. subst. pose proof (record_tokens_ok q t s Hok Hc) as Hw. unfold wp in Hw. rewrite E in Hw.
    destruct Hw as (_ & Hw & _). destruct (Hw eq_refl) as [_ Hst].
    rewrite Hm, (bool_decide_eq_false_2 (is_Some None)), (bool_decide_eq_false_2 (t = [])) in Hst by (done || by intros []).
    destruct Hst as (st & Hst & _ & Hr). destruct (Hr Hlen) as [? Hr']. exists st. split_and!; [by apply Hr'|done|done]. }
  rewrite !elem_of_union in Hno. destruct (Hrec s t1 s1) as (st1 & R1 & S1 & L1); [tauto..|].
  destruct (Hrec s (t1 ++ t2) sA) as (stA & RA & SA & _); [try tauto..|]; [by destruct t1|].
  assert (start_state s2 q = st1) as Hst2 by (unfold start_state; by rewrite Hsame, S1).
  destruct (Hrec s2 t2 s3) as (st3 & R3 & S3 & _); [try tauto..|]; [rewrite Hst2; lia|]. rewrite Hst2 in R3.
  destruct Hc as [c Hc]. destruct (co_index_of _ _ _ Hok Hc) as (_ & _ & Hbs). unfold co_block_size in Hbs. rewrite Hcf in Hbs.
  pose proof (co_recorded_app _ _ _ _ _ _ Hbs R1 R3) as R. assert (stA = st3) as -> by congruence. by exists st3.
Qed.

(** ** Whole steps *)

(** Rows that operations reach from a new pool with blocks of [bs] tokens. *)
Definition rows_reached (r : Rows) (bs : Z) : Prop := exists c d spec r0 ops, layout_ok c /\ NoDup (state_names spec) /\
  new_manager c d spec = Ok r0 /\ rc_prefix_cache_block_size c = bs /\ r = run_row_ops ops r0.
(** A batch whose step can be recorded: distinct requests, each with a row and a
    chunk that ends at the next block boundary at the latest; a request that
    starts with a hit holds it, and one snapshot fits the byte budget. *)
Record batch_ready s (is_prefill : bool) (qs : list Sequence) : Prop := {
  rb_once : NoDup (seq_id <$> qs);
  rb_hits : Forall (hit_held s) qs;
  rb_rows : rows_reached (recurrent_state_manager s) (co_block_size s);
  rb_resident : Forall (fun q => is_Some (seq_id_to_row (recurrent_state_manager s) !! seq_id q)) qs;
  rb_within : Forall (within_block s is_prefill) qs;
  rb_inputs : inputs_fine is_prefill qs;
  rb_fits : fits s (declared s);
}.
(** Coordinators between whole steps. *)
Inductive served cf : Co -> Prop :=
| served_new m r s : new_coordinator cf m r = Ok s -> served cf s
| served_op op s : served cf s -> match op with CoRecord _ _ | CoCommit _ => False | CoReset => is_ok (reset_after_warmup s).1 = true | _ => True end ->
    served cf (run_co_op op s).2
| served_step qs pf s : served cf s -> batch_ready s pf qs -> served cf (end_step qs pf s).2
| served_outside m r s : served cf s -> served cf (s <| cache_manager := m |> <| recurrent_state_manager := r |>).

Lemma batch_seqs s pf qs : batch_ready s pf qs -> Forall (seq_ready s pf) qs.
Proof.
  intros [_ _ (c & d & spec & r0 & ops & Hlay & Hn & Hnew & Hbs & Hr) Hres Hw Hin _]. rewrite Forall_forall in *. intros q Hq. split.
  - intros n Hpos Hmod. rewrite <- Hbs in Hmod. specialize (Hres q Hq). rewrite Hr in Hres |- *. by apply (reached_snapshot c d spec).
  - by apply Hw.
  - unfold inputs_fine in Hin. rewrite Forall_forall in Hin. by apply Hin.
Qed.
(** What a step did for its batch: every request took what its tokens
    determine, none refused while there is room for the blocks they complete. *)
Definition batch_taken s pf qs s' : Prop :=
  (is_Some (prefix_cache s) -> Forall (fun q => takes_record s pf q s') qs) /\
  (spare (sumZ (completed s pf <$> qs)) s -> capacity_limited_seq_ids s' = capacity_limited_seq_ids s).
Lemma recorded_batch s pf qs : co_ok rest s -> tokens_fine s -> batch_ready s pf qs -> is_Some (prefix_cache s) ->
  wp (for_each qs (record_seq pf)) (fun r s' => is_ok r = true -> batch_taken s pf qs s') s.
Proof.
  intros Hok Ht Hb Hc. pose proof (record_all_taken pf qs s Hok Hc (rb_once _ _ _ Hb) Ht (rb_inputs _ _ _ Hb)) as Htk.
  pose proof (record_all_spare pf qs 0 s Hok Hc (rb_fits _ _ _ Hb) ltac:(done) (rb_once _ _ _ Hb)) as Hsp.
  unfold refuses_none, wp in *. intros Hr. split; [intros _; by apply Htk|]. intros Hs. by apply Hsp.
Qed.
Lemma end_step_ok cf qs pf s : co_ok rest s -> settled s -> batch_ready s pf qs -> kv_total ->
  wp (end_step qs pf) (fun r s' => r = Ok tt /\ sound s s' /\ settled s' /\ batch_taken s pf qs s') s.
Proof.
  intros Hok [Hpl Ht] Hb Hkv. pose proof (batch_seqs s pf qs Hb) as R3. pose proof (recorded_batch s pf qs Hok Ht Hb) as Htk.
  destruct Hb as [R1 R2 _ _ _ Hin R4]. unfold end_step, finish_step. apply wp_finally.
  enough (wp (record_step_tokens qs pf ;; commit_pending_blocks qs) (fun r s' => r = Ok tt /\ sound s s' /\ settled s' /\ batch_taken s pf qs s') s) as Hw.
  { eapply wp_mono; [exact Hw|]. cbv beta. intros r s' Hr. by apply wp_ret. }
  apply wp_bind. unfold record_step_tokens. apply wp_bind, wp_read. cbv beta iota. unfold id. apply wp_when; intros Hc; bool_to_prop.
  2:{ unfold commit_pending_blocks. apply wp_bind, wp_read. cbv beta iota. unfold id. apply wp_when; intros Hc'; bool_to_prop; [done|]. by split_and!. }
  eapply wp_mono; [apply wp_and; [by apply (co_record_all_ok pf qs [])|exact (Htk Hc)]|]. cbv beta. intros r s1 [(Hok1 & Hk1 & Hrec) Htk1].
  destruct (Hrec R1 Hpl Ht R2 Hin) as [Hres Hgo].
  specialize (Hgo Hkv R4 R3). destruct r as [[]|e]; [|done]. destruct (Hres eq_refl) as [Hpl1 Ht1]. cbn [app] in Hpl1. destruct (Htk1 eq_refl) as [Htk1' Hcap1].
  unfold commit_pending_blocks. apply wp_bind, wp_read. cbv beta iota. unfold id. apply (kp_cache _ _ Hk1) in Hc as Hc1.
  apply wp_when; intros Hc'; bool_to_prop; [|done]. eapply wp_mono; [by apply commit_all_ok|]. cbv beta. intros r s2 (Hok2 & Hcm & Hcom).
  destruct (Hcom R1 Hpl1) as [Hres2 Hgo2]. specialize (Hgo2 Hkv). destruct r as [[]|e]; [|done]. destruct (Hres2 eq_refl) as [Hpl2 _]. split; [done|].
  pose proof (cm_states _ _ Hcm) as Est. pose proof (cm_limited _ _ Hcm) as Elm. cbn in Est, Elm.
  split; [split; [done|]|split; [split; [done|]|split]].
  - etrans; [exact (cm_config _ _ Hcm)|]. apply (kp_config _ _ Hk1).
  - intros x st Hst. pose proof (cm_config _ _ Hcm) as Ecf. cbn in Ecf. unfold co_block_size. rewrite Ecf. rewrite Est in Hst. by apply (Ht1 x).
  - intros _. eapply Forall_impl; [exact (Htk1' Hc)|]. intros q. unfold takes_record. by rewrite Est, Elm.
  - rewrite Elm. exact Hcap1.
Qed.
Lemma op_settled op s : co_ok rest s -> settled s ->
  match op with CoRecord _ _ | CoCommit _ => False | CoReset => is_ok (reset_after_warmup s).1 = true | _ => True end -> settled (run_co_op op s).2.
Proof.
  intros Hok Hst Hop. assert (forall A (m : CoAct A), wp m (fun _ s' => step_kept s s') s -> settled ((m ;; mret tt) s).2) as Hask.
  { intros A m Hm. unfold wp in Hm. unfold mbind, Act_bind, mret, Act_ret. destruct (m s) as [[x|e] s']; eapply undisturbed_settled; [apply Hm|done|apply Hm|done]. }
  assert (forall A (m : CoAct A), wp m (fun _ s' => step_kept s s') s -> settled (m s).2) as Hrun.
  { intros A m Hm. unfold wp in Hm. eapply undisturbed_settled; [apply Hm|done]. }
  destruct op as [q|q| |qs|n|qs pf|qs|sid|toks|toks n|]; cbn [run_co_op]; try done.
  - by apply Hask, refresh_ok.
  - by apply Hask, hit_slots_ok.
  - apply Hask. pose proof (slots_answer s Hok) as Ha. apply Forall_cons in Ha as [Ha _]. eapply wp_mono; [exact Ha|]. cbv beta. by intros r s' [_ Hk].
  - apply Hrun. unfold attach_prefix_cache_hits. apply wp_bind, wp_read. cbv beta iota. apply wp_when; intros _; [|done]. by apply attach_all_sound.
  - apply Hrun. eapply wp_mono; [by apply evict_for_slots_ok|]. cbv beta. by intros r s' (Hk & _).
  - destruct (prefix_cache s) as [c|] eqn:Hc.
    + pose proof (release_seq_ok sid s Hok ltac:(by exists c)) as Hr. unfold wp in Hr. destruct Hr as (_ & _ & Hr). by eapply released_settled.
    + enough (wp (release_seq sid) (fun _ s' => undisturbed s s') s) as Hw by (unfold wp in Hw; by eapply undisturbed_settled).
      unfold release_seq. apply wp_bind, wp_read. cbv beta iota. apply wp_bind, wp_modify. cbv beta iota.
      apply wp_bind, wp_require; [|intros [c Hc']; cbn in Hc'; congruence]. intros _. split; try done.
      intros x id (en & Hen & _). unfold blk in Hen. by rewrite Hc in Hen.
  - apply Hask. eapply wp_mono; [by apply delete_subtree_ok|]. cbv beta. by intros r s' [Hk _].
  - by apply Hask, set_priority_ok.
  - pose proof (reset_ok s Hok) as Hr. unfold wp in Hr. destruct (reset_after_warmup s) as [r s']. cbn in Hop, Hr. destruct Hr as (_ & _ & Hr & _).
    destruct (Hr Hop) as [[_ ->]|[Hem _]]; [done|by apply emptied_settled].
Qed.
Lemma served_settled cf s : kv_total -> served cf s -> co_ok rest s /\ settled s /\ co_config s = cf.
Proof.
  intros Hkv. induction 1 as [m r s Hnew|op s _ (Hok & Hst & Hcf) Hop|qs pf s _ (Hok & Hst & Hcf) Hb|m r s _ (Hok & Hst & Hcf)].
  - destruct (new_coordinator_ok _ _ _ _ Hnew) as (? & ? & ?). split_and!; [done|by apply emptied_settled|done].
  - destruct (co_op_sound op s Hok) as [? E]; [destruct op; try done; by left|]. split_and!; [done|by apply op_settled|congruence].
  - pose proof (end_step_ok cf qs pf s Hok Hst Hb Hkv) as Hw. unfold wp in Hw. destruct Hw as (_ & [? E] & ? & _). split_and!; [done|done|congruence].
  - split_and!; [by apply ok_rows, ok_kv| |done]. destruct Hst as [[P1 P2 P3 P4] Ht]. split; [by split|exact Ht].
Qed.
Lemma settled_waits s : settled s -> waiting s = [].
Proof.
  intros [[Pout _ _ _] _]. destruct (waiting s) as [|w l] eqn:Hw; [done|]. unfold waiting in Hw.
  destruct (flat (pending_blocks s)) as [|p ps] eqn:Hp; [done|]. assert (p ∈ flat (pending_blocks s)) as Hin by (rewrite Hp; by left).
  apply elem_of_flat in Hin as (x & l' & Hl & Hin). destruct (Pout x ltac:(by intros ?%elem_of_nil)) as [E _]. unfold pend in E. rewrite Hl in E.
  cbn in E. subst. by apply elem_of_nil in Hin.
Qed.

(** C10: After any sequence of whole steps and other operations, a step whose
    batch is ready ends without an exception when the cache manager does not
    raise.  Every request of the batch that was given tokens and has no
    multimodal digest is then in the state its tokens determine (the chain of
    the content addresses of its full blocks, the tokens of a partial block kept
    for the next step), unless it is marked as refused for lack of room; and no
    request is newly marked when the blocks that the batch completes fit, with
    their snapshots, next to those of the index and those that wait.  What was recorded is committed:
    nothing waits and nothing is reserved any more, and every request holds, in
    the index, the last block of the prefix it has recorded. *)
Theorem ready_step_completes cf s qs pf : kv_total -> served cf s -> batch_ready s pf qs ->
  exists s', end_step qs pf s = (Ok tt, s') /\
    (is_Some (prefix_cache s) -> Forall (fun q => takes_record s pf q s') qs) /\
    (spare (sumZ (completed s pf <$> qs)) s -> capacity_limited_seq_ids s' = capacity_limited_seq_ids s) /\
    waiting s' = [] /\ pending_block_ids s' = ∅ /\ pending_recurrent_bytes s' = 0 /\
    forall sid st id, runtime_states s' !! sid = Some st -> state_parent_block_id st = Some id -> held_id s' sid id.
Proof.
  intros Hkv Hs Hb. destruct (served_settled cf s Hkv Hs) as (Hok & Hst & _). pose proof (end_step_ok cf qs pf s Hok Hst Hb Hkv) as Hw.
  unfold wp in Hw. destruct (end_step qs pf s) as [r s']. cbn [fst snd] in Hw. destruct Hw as (-> & [Hok' _] & Hst' & Htk1 & Htk2). exists s'.
  pose proof (settled_waits s' Hst') as E. pose proof (co_ledger _ _ Hok') as [_ L2 L3 _]. cbn in L2, L3. rewrite E in L2, L3. split_and!; [done|done|done|done| |done|].
  - apply leibniz_equiv. intros id. rewrite L2. cbn. set_solver.
  - intros sid st id Hx Hpar. destruct Hst' as [[Pout _ _ Ps] _]. destruct (Ps sid st Hx) as [_ Ha]. rewrite Hpar in Ha. cbn in Ha.
    destruct (Pout sid ltac:(by intros ?%elem_of_nil)) as [E1 E2]. rewrite E1, E2 in Ha. destruct Ha as [Ha|[[]%elem_of_nil|[]%elem_of_nil]]. exact Ha.
Qed.

(** ** Room and reset *)

(** C30: [evictable_slots], [step_reclaimable_slots] and
    [admission_reclaimable_slots] answer the same number, and, with a cache
    manager whose freeing does not raise, [evict_for_slots] succeeds exactly when
    it is asked for no more than that; either way no block a request holds leaves
    the index. *)
Theorem evict_for_slots_exact cf s n : co_reachable cf s -> is_Some (prefix_cache s) -> frees_return ->
  exists slots, (evictable_slots s).1 = Ok slots /\ (step_reclaimable_slots s).1 = Ok slots /\ (admission_reclaimable_slots s).1 = Ok slots /\
    (is_ok (evict_for_slots n s).1 = true <-> n <= slots) /\ keeps_held s (evict_for_slots n s).2.
Proof.
  intros [Hok _]%co_reachable_ok Hc Hf. pose proof (slots_answer s Hok) as Ha. rewrite !Forall_cons in Ha. destruct Ha as ([A1 _] & [A2 _] & [A3 _] & _).
  pose proof (evict_for_slots_ok n s Hok) as He. unfold wp in He. destruct He as ([_ Hk] & _ & He). exists (reclaimable_slots s). split_and!; [done..| |apply Hk].
  rewrite (He Hf). split; [|by right]. intros [E|?]; [|done]. rewrite E in Hc. by destruct Hc.
Qed.

Lemma reachable_config cf s : co_reachable cf s -> cc_enable_prefix_caching cf = true -> is_ok (co_new_index cf) = true.
Proof.
  induction 1 as [m r s Hnew|op s _ IH _|m r s _ IH]; [|done..]. intros He. unfold new_coordinator in Hnew. rewrite He in Hnew.
  destruct (co_new_index cf); [done|by destruct He].
Qed.
(** [reset_after_warmup] succeeds exactly when no request has blocks, and
    then the coordinator is as a new one: nothing cached, recorded, waiting or
    reserved. *)
Theorem reset_exact cf s : co_reachable cf s -> is_Some (prefix_cache s) -> frees_return ->
  (is_ok (reset_after_warmup s).1 = true <-> seq_id_to_prefix_blocks s = ∅ /\ seq_id_to_materialized_blocks s = ∅) /\
  (is_ok (reset_after_warmup s).1 = true -> emptied (reset_after_warmup s).2).
Proof.
  intros Hr Hc Hf. pose proof (co_reachable_ok _ _ Hr) as [Hok Hcf]. pose proof (reset_ok s Hok) as Hw. unfold wp in Hw.
  assert (is_ok (co_new_index (co_config s)) = true) as Hnew.
  { rewrite Hcf. apply (reachable_config cf s Hr). pose proof (co_index _ _ Hok) as Hix. unfold index_ok in Hix. destruct (prefix_cache s); [|by destruct Hc].
    rewrite <- Hcf. apply Hix. }
  assert (is_ok (reset_after_warmup s).1 = true -> seq_id_to_prefix_blocks s = ∅ /\ seq_id_to_materialized_blocks s = ∅) as Hempty.
  { enough (wp reset_after_warmup (fun r _ => is_ok r = true -> seq_id_to_prefix_blocks s = ∅ /\ seq_id_to_materialized_blocks s = ∅) s) as Hx by exact Hx.
    unfold reset_after_warmup. apply wp_bind, wp_read. cbv beta iota. unfold id. apply wp_when; intros Hc'; bool_to_prop; [|done].
    apply wp_bind, wp_guard; intros Hg; [done|]. apply orb_false_iff in Hg as [E1 E2]. apply negb_false_iff, bool_decide_eq_true in E1, E2. by unfold wp. }
  destruct (reset_after_warmup s) as [r s']. cbn in *. destruct Hw as (_ & _ & Hem & Hgo). split; [split; [done|intros [E1 E2]; by apply Hgo]|].
  intros Hr'. destruct (Hem Hr') as [[E _]|[? _]]; [rewrite E in Hc; by destruct Hc|done].
Qed.
End guarantees.

(** ** A concrete run

    The pool of [RecurrentGuarantees], whose snapshots have eighty bytes, and a
    cache manager that notes which blocks were marked. *)

#[local] Existing Instance one_device.
#[local] Instance noting_kv : PrefixKV (list Z) Z := {|
  build_prefix_kv_payload := fun _ start _ => mret start;
  prefix_kv_payload_nbytes := fun _ => mret 8;
  validate_prefix_kv_attach := fun _ => mret false;
  attach_prefix_kv_payload := fun _ _ => mret tt;
  rollback_prefix_kv_attach := fun _ _ _ => mret tt;
  mark_materialized_prefix_kv_payload := fun _ k => modify (fun m => k :: m);
  rollback_materialized_prefix_kv_payload := fun _ _ => modify (fun m => tail m);
  free_prefix_kv_payload := fun _ => mret tt;
  synchronize_prefix_cache_delete_plan := fun _ => mret tt;
|}.
Lemma noting_total : kv_total.
Proof. by split. Qed.

Definition sample_limits : CoordinatorConfig := mkCoordinatorConfig true 4 200 (Some 2) [] "".
Definition sample_co : @PrefixCacheCoordinator unit unit Z unit (list Z) Z :=
  match new_coordinator sample_limits [] (run_row_ops sample_before sample_manager) with
  | Ok s => s
  | Raise _ => mkCoordinator sample_limits None ∅ ∅ ∅ ∅ ∅ ∅ ∅ 0 ∅ 0 [] sample_manager
  end.
(** Two requests with the same prompt, prefilled in one chunk of one block. *)
Definition sample_chunk (id : Z) : Sequence := (sample_seq id) <| current_chunk_size := Some 4 |>.
Definition sample_batch : list Sequence := [sample_chunk 7; sample_chunk 8].

Lemma sample_co_new : new_coordinator sample_limits [] (run_row_ops sample_before sample_manager) = Ok sample_co.
Proof. vm_compute. reflexivity. Qed.
Lemma sample_co_reachable : co_reachable sample_limits sample_co.
Proof. eapply co_reach_new, sample_co_new. Qed.
Lemma sample_co_ready : batch_ready sample_co true sample_batch.
Proof.
  split.
  - apply (bool_decide_unpack _). vm_compute. exact I.
  - repeat constructor; done.
  - exists sample_config, tt, sample_spec, sample_manager, sample_before. split; [exact sample_layout|].
    split; [apply (bool_decide_unpack _); vm_compute; exact I|]. split; [exact sample_new|]. split; vm_compute; reflexivity.
  - repeat constructor; vm_compute; by eexists.
  - repeat constructor; intros _ _; vm_compute; done.
  - repeat constructor; eexists; (split; [reflexivity|vm_compute; reflexivity]).
  - split; vm_compute; done.
Qed.
Definition sample_stepped : @PrefixCacheCoordinator unit unit Z unit (list Z) Z := (end_step sample_batch true sample_co).2.

Lemma ready_step_completes_witness :
  exists s', end_step sample_batch true sample_co = (Ok tt, s') /\ waiting s' = [] /\ size (blk s') = 1%nat /\ cache_manager s' = [0] /\
    exists st, runtime_states s' !! 8 = Some st /\ recorded sample_limits (first_state (sample_seq 8)) [11; 12; 13; 14] = Ok st.
Proof.
  destruct (ready_step_completes sample_limits sample_co sample_batch true noting_total (served_new _ _ _ _ sample_co_new) sample_co_ready)
    as (s' & E & Htk & Hsp & Hw & _ & _ & _).
  assert (s' = sample_stepped) as Es by (unfold sample_stepped; by rewrite E).
  exists s'. split; [exact E|]. split; [exact Hw|]. split; [rewrite Es; vm_compute; reflexivity|]. split; [rewrite Es; vm_compute; reflexivity|].
  assert (capacity_limited_seq_ids s' = ∅) as Hnone.
  { rewrite Hsp; [vm_compute; reflexivity|]. split; [intros m [= <-]|]; vm_compute; discriminate. }
  specialize (Htk ltac:(by eexists)). unfold sample_batch in Htk. apply Forall_cons in Htk as [_ Htk]. apply Forall_cons in Htk as [[Hl|Hst] _].
  - rewrite Hnone in Hl. destruct (not_elem_of_empty _ Hl).
  - exact (Hst [11; 12; 13; 14] ltac:(vm_compute; reflexivity) ltac:(vm_compute; reflexivity) ltac:(discriminate)).
Defined.

Definition sample_recorded : @PrefixCacheCoordinator unit unit Z unit (list Z) Z := (run_co_op (CoRecord sample_batch true) sample_co).2.
Definition sample_committed : @PrefixCacheCoordinator unit unit Z unit (list Z) Z := (run_co_op (CoCommit sample_batch) sample_recorded).2.
Definition sample_released : @PrefixCacheCoordinator unit unit Z unit (list Z) Z :=
  (run_co_op (CoRelease 8) (run_co_op (CoRelease 7) sample_committed).2).2.
Lemma sample_recorded_reachable : co_reachable sample_limits sample_recorded.
Proof. apply co_reach_op; [exact sample_co_reachable|exact I]. Qed.
Lemma sample_committed_reachable : co_reachable sample_limits sample_committed.
Proof. apply co_reach_op; [exact sample_recorded_reachable|exact I]. Qed.
Lemma sample_released_reachable : co_reachable sample_limits sample_released.
Proof. do 2 (apply co_reach_op; [|exact I]). exact sample_committed_reachable. Qed.

(** Request 8 waits for the block that request 7 reserved. *)
Lemma held_and_reserved_exactly_witness :
  pending_recurrent_bytes sample_recorded = 80 /\ total (waiting sample_recorded) = 80 /\
  (forall id, id ∈ pending_block_ids sample_recorded -> blk sample_recorded !! id = None).
Proof.
  destruct (held_and_reserved_exactly sample_limits sample_recorded sample_recorded_reachable) as (_ & _ & _ & _ & E & Hout).
  split; [vm_compute; reflexivity|]. split; [|exact Hout]. rewrite <- E. vm_compute. reflexivity.
Defined.
Lemma blocks_and_bytes_within_limits_witness :
  (Z.of_nat (size (blk sample_committed)) + Z.of_nat (size (pending_block_ids sample_committed)) <= 2) /\
  exists bytes, live_recurrent_bytes sample_committed = (Ok bytes, sample_committed) /\ bytes + pending_recurrent_bytes sample_committed <= 200.
Proof.
  destruct (blocks_and_bytes_within_limits sample_limits sample_committed sample_committed_reachable) as [Hn Hb].
  - apply (bool_decide_unpack _). vm_compute. exact I.
  - split; [by apply Hn|exact Hb].
Defined.

(** Both rows of the pool are taken, so the hit of a third request is not attached. *)
Definition sample_last : option bytes := runtime_states sample_committed !! 7 ≫= state_parent_block_id.
Definition sample_hit : Sequence := (new_sequence 9 [11; 12; 13; 14; 15] default_sampling) <| prefix_hit := mkPrefixHit true 4 1 sample_last 4 "" |>.
Lemma attach_all_or_nothing_witness : exists s', attach_seq sample_hit sample_committed =
    (Raise (RuntimeError "Recurrent state row capacity exhausted"), s') /\ blk s' = blk sample_committed /\ held_blocks s' 9 = [].
Proof.
  pose proof (attach_all_or_nothing sample_limits sample_committed sample_hit sample_committed_reachable) as Ha.
  assert ((attach_seq sample_hit sample_committed).1 = Raise (RuntimeError "Recurrent state row capacity exhausted")) as Hr by (vm_compute; reflexivity).
  destruct (attach_seq sample_hit sample_committed) as [r s']. cbn [fst] in Hr. subst r. destruct Ha as [Hb Hh]. exists s'.
  split; [done|]. split; [done|]. rewrite Hh. vm_compute. reflexivity.
Defined.

(** One token first, the other three after a step. *)
Definition sample_part : Sequence := (sample_seq 7) <| current_chunk_size := Some 1 |>.
Definition sample_parted : @PrefixCacheCoordinator unit unit Z unit (list Z) Z := (run_co_op (CoRecord [sample_part] true) sample_co).2.
Lemma recording_ignores_chunking_witness : exists st, recorded sample_limits (first_state (sample_seq 7)) [11; 12; 13; 14] = Ok st /\
  runtime_states (record_tokens (sample_seq 7) [12; 13; 14] sample_parted).2 !! 7 = Some st /\
  runtime_states (record_tokens (sample_seq 7) [11; 12; 13; 14] sample_co).2 !! 7 = Some st.
Proof.
  apply (recording_ignores_chunking sample_limits (sample_seq 7) [11] [12; 13; 14] sample_co (record_tokens (sample_seq 7) [11] sample_co).2
    sample_parted (record_tokens (sample_seq 7) [12; 13; 14] sample_parted).2 (record_tokens (sample_seq 7) [11; 12; 13; 14] sample_co).2).
  - exact sample_co_reachable.
  - apply co_reach_op; [exact sample_co_reachable|exact I].
  - apply (bool_decide_unpack _). vm_compute. exact I.
  - apply (bool_decide_unpack _). vm_compute. exact I.
  - reflexivity.
  - discriminate.
  - discriminate.
  - vm_compute. discriminate.
  - vm_compute. reflexivity.
  - vm_compute. reflexivity.
  - vm_compute. reflexivity.
  - vm_compute. reflexivity.
  - apply (bool_decide_unpack _). vm_compute. exact I.
Defined.

Lemma evict_for_slots_exact_witness :
  (evictable_slots sample_released).1 = Ok 4 /\ (is_ok (evict_for_slots 5 sample_released).1 = true <-> 5 <= 4).
Proof.
  destruct (evict_for_slots_exact sample_limits sample_released 5 sample_released_reachable) as (n & E & _ & _ & H1 & _).
  - apply (bool_decide_unpack _). vm_compute. exact I.
  - apply noting_total.
  - assert ((evictable_slots sample_released).1 = Ok 4) as E4 by (vm_compute; reflexivity). split; [exact E4|].
    assert (n = 4) as -> by congruence. exact H1.
Defined.
Lemma reset_exact_witness :
  is_ok (reset_after_warmup sample_released).1 = true /\ emptied (reset_after_warmup sample_released).2 /\ is_ok (reset_after_warmup sample_committed).1 = false.
Proof.
  assert (is_ok (reset_after_warmup sample_released).1 = true) as Hr by (vm_compute; reflexivity). split; [exact Hr|]. split; [|vm_compute; reflexivity].
  apply (reset_exact sample_limits sample_released sample_released_reachable).
  - apply (bool_decide_unpack _). vm_compute. exact I.
  - apply noting_total.
  - exact Hr.
Defined.

(** ** A reset that fails

    The same run with a cache manager whose freeing raises: the block of request
    7 is in the index, held by nobody, and that of request 8 waits. *)

#[local] Instance stuck_kv : PrefixKV (list Z) Z := {|
  build_prefix_kv_payload := @build_prefix_kv_payload _ _ noting_kv;
  prefix_kv_payload_nbytes := @prefix_kv_payload_nbytes _ _ noting_kv;
  validate_prefix_kv_attach := @validate_prefix_kv_attach _ _ noting_kv;
  attach_prefix_kv_payload := @attach_prefix_kv_payload _ _ noting_kv;
  rollback_prefix_kv_attach := @rollback_prefix_kv_attach _ _ noting_kv;
  mark_materialized_prefix_kv_payload := @mark_materialized_prefix_kv_payload _ _ noting_kv;
  rollback_materialized_prefix_kv_payload := @rollback_materialized_prefix_kv_payload _ _ noting_kv;
  free_prefix_kv_payload := fun _ => throw (RuntimeError "stuck");
  synchronize_prefix_cache_delete_plan := @synchronize_prefix_cache_delete_plan _ _ noting_kv;
|}.
Definition sample_other : Sequence := (new_sequence 8 [21; 22; 23; 24] default_sampling) <| current_chunk_size := Some 4 |>.
Definition sample_stuck_ops : list CoOp :=
  [CoRecord [sample_chunk 7] true; CoCommit [sample_chunk 7]; CoRelease 7; CoRecord [sample_other] true].
Definition sample_stuck : @PrefixCacheCoordinator unit unit Z unit (list Z) Z :=
  foldl (fun s op => (run_co_op op s).2) sample_co sample_stuck_ops.
Lemma sample_stuck_reachable : co_reachable sample_limits sample_stuck.
Proof.
  unfold sample_stuck, sample_stuck_ops. cbn [foldl]. do 4 (apply co_reach_op; [|exact I]). eapply co_reach_new. vm_compute. reflexivity.
Qed.

(** [reset_after_warmup] gives the reservations back before it frees the blocks:
    when freeing raises, a block that still waits has lost its reservation. *)
Theorem failed_reset_loses_reservations :
  exists s, co_reachable sample_limits s /\ length (waiting s) = 1%nat /\ size (pending_block_ids s) = 1%nat /\
    is_ok (reset_after_warmup s).1 = false /\
    length (waiting (reset_after_warmup s).2) = 1%nat /\ pending_block_ids (reset_after_warmup s).2 = ∅.
Proof. exists sample_stuck. split; [exact sample_stuck_reachable|]. split_and!; vm_compute; reflexivity. Qed.
