(* ===== verification/PyStrings.v ===== *)
(** * ASCII strings

    The [str] methods the control plane normalises option values with, on
    ASCII text. *)

From stdpp Require Import base list strings.
From Stdlib Require Import Ascii String NArith Lia.
From S2P Require Import Prelude.

(** [c.isspace()]: tab to carriage return, the four separators, and space. *)
Definition is_space (c : ascii) : bool :=
  let n := N_of_ascii c in
  ((9 <=? n) && (n <=? 13) || (28 <=? n) && (n <=? 32))%N.

Definition lower_ascii (c : ascii) : ascii :=
  let n := N_of_ascii c in
  if ((65 <=? n) && (n <=? 90))%N then ascii_of_N (n + 32) else c.

Definition chars (s : string) : list ascii := list_ascii_of_string s.
Definition of_chars (l : list ascii) : string := string_of_list_ascii l.

Fixpoint drop_while {A} (f : A -> bool) (l : list A) : list A :=
  match l with
  | [] => []
  | x :: l' => if f x then drop_while f l' else l
  end.

(** [s.strip()] *)
Definition strip_chars (l : list ascii) : list ascii :=
  reverse (drop_while is_space (reverse (drop_while is_space l))).
(** [s.strip().lower()] *)
Definition normal_chars (l : list ascii) : list ascii := lower_ascii <$> strip_chars l.
Definition strip_lower (s : string) : string := of_chars (normal_chars (chars s)).

(** [s.replace(a, b)] for single characters *)
Definition replace_char (a b : ascii) (s : string) : string :=
  of_chars ((fun c => if decide (c = a) then b else c) <$> chars s).

(** ** Facts *)

Lemma chars_of_chars l : chars (of_chars l) = l.
Proof. apply list_ascii_of_string_of_list_ascii. Qed.
Lemma of_chars_chars s : of_chars (chars s) = s.
Proof. apply string_of_list_ascii_of_string. Qed.

Lemma forall_ascii (P : ascii -> bool) :
  forallb P (ascii_of_N <$> map N.of_nat (seq 0 256)) = true -> forall c, P c = true.
Proof.
  intros H c. rewrite forallb_forall in H. apply H. apply list_elem_of_In, list_elem_of_fmap.
  exists (N_of_ascii c). split; [by rewrite ascii_N_embedding|].
  apply list_elem_of_In, in_map_iff. exists (N.to_nat (N_of_ascii c)). split; [lia|].
  apply in_seq. pose proof (N_ascii_bounded c). lia.
Qed.

Lemma lower_space c : is_space (lower_ascii c) = is_space c.
Proof.
  apply eqb_prop. revert c.
  refine (forall_ascii (fun c => Bool.eqb (is_space (lower_ascii c)) (is_space c)) _). vm_compute. reflexivity.
Qed.

Lemma lower_idem c : lower_ascii (lower_ascii c) = lower_ascii c.
Proof.
  apply Ascii.eqb_eq. revert c.
  refine (forall_ascii (fun c => Ascii.eqb (lower_ascii (lower_ascii c)) (lower_ascii c)) _). vm_compute. reflexivity.
Qed.

Lemma drop_while_stop {A} (f : A -> bool) l : drop_while f l = [] \/ exists x l', drop_while f l = x :: l' /\ f x = false.
Proof. induction l as [|x l IH]; cbn; [by left|]. destruct (f x) eqn:Hx; [done|]. right. eauto. Qed.

Lemma drop_while_fmap {A} (f : A -> bool) (g : A -> A) l :
  (forall x, f (g x) = f x) -> drop_while f (g <$> l) = g <$> drop_while f l.
Proof. intros H. induction l as [|x l IH]; cbn; [done|]. rewrite H. destruct (f x); [done|]. done. Qed.

Lemma strip_fmap l : strip_chars (lower_ascii <$> l) = lower_ascii <$> strip_chars l.
Proof.
  unfold strip_chars. rewrite drop_while_fmap by apply lower_space.
  rewrite <- fmap_reverse, drop_while_fmap by apply lower_space. by rewrite fmap_reverse.
Qed.

Lemma drop_while_suffix {A} (f : A -> bool) l : exists l', l = l' ++ drop_while f l.
Proof.
  induction l as [|x l [l' IH]]; cbn; [by exists []|]. destruct (f x); [|by exists []].
  exists (x :: l'). cbn. by rewrite <- IH.
Qed.

Lemma strip_idem l : strip_chars (strip_chars l) = strip_chars l.
Proof.
  unfold strip_chars. set (m := drop_while is_space l). set (n := drop_while is_space (reverse m)).
  assert (drop_while is_space (reverse n) = reverse n) as ->.
  { destruct (drop_while_suffix is_space (reverse m)) as [l' Hl']. fold n in Hl'.
    assert (m = reverse n ++ reverse l') as Hm by (by rewrite <- reverse_app, <- Hl', reverse_involutive).
    destruct (reverse n) as [|x n'] eqn:Hn; [done|]. cbn [drop_while].
    destruct (drop_while_stop is_space l) as [E|(y & l2 & E & Hy)]; fold m in E; rewrite Hm in E; simplify_eq/=.
    by rewrite Hy. }
  rewrite reverse_involutive. destruct (drop_while_stop is_space (reverse m)) as [E|(y & l2 & E & Hy)];
    fold n in E; rewrite E; [done|]. cbn [drop_while]. by rewrite Hy.
Qed.

Lemma strip_lower_idem s : strip_lower (strip_lower s) = strip_lower s.
Proof.
  unfold strip_lower, normal_chars. rewrite chars_of_chars, strip_fmap, strip_idem. f_equal.
  rewrite <- list_fmap_compose. apply list_fmap_ext. intros i c _. apply lower_idem.
Qed.
