(* ===== verification/MethodRegistry.v ===== *)
(** * The method registry

    [method_registry.py]: the names of the sparse-attention methods, their
    aliases, and the compatibility and policy tables every other part of the
    engine consults. *)

From stdpp Require Import base gmap list strings.
From Stdlib Require Import Ascii ZArith Lia.
From S2P Require Import Prelude PyStrings.

#[local] Open Scope string_scope.
#[local] Open Scope Z_scope.

(** [operators/attention_capabilities.py], [distributed/topology.py] *)
Inductive AttentionScoreKind := ScoreNone | RawQkPerHead | RawQkReduced | AttentionProbabilityReduced.
Inductive ParallelMode := Standard | OuterTpMoe.
#[export] Instance score_kind_eq_dec : EqDecision AttentionScoreKind.
Proof. solve_decision. Defined.
#[export] Instance parallel_mode_eq_dec : EqDecision ParallelMode.
Proof. solve_decision. Defined.

(** ** Names *)

Definition PREFILL_POLICY_ALL_CHUNKED := "all_chunked".
Definition PREFILL_POLICY_LONG_BS1FULL_SHORT_BATCH := "long_bs1full_short_batch".
Definition PREFILL_POLICY_AUTO := "auto".
Definition SUPPORTED_PREFILL_POLICIES : list string :=
  [PREFILL_POLICY_ALL_CHUNKED; PREFILL_POLICY_LONG_BS1FULL_SHORT_BATCH].

(** The string keys; [None] is handled where the tables are read. *)
Definition METHOD_ALIASES : list (string * string) :=
  [("", ""); ("vanilla", ""); ("attention-sink", "streamingllm"); ("attention_sink", "streamingllm");
   ("r-kv", "rkv"); ("r_kv", "rkv"); ("skip-kv", "skipkv"); ("skip_kv", "skipkv");
   ("shadow-kv", "shadowkv"); ("shadow_kv", "shadowkv");
   ("deltakv-less-memory", "deltakv"); ("deltakv_less_memory", "deltakv");
   ("deltakv-less-memory-cudagraph", "deltakv"); ("deltakv_less_memory_cudagraph", "deltakv")].

Definition CANONICAL_SPARSE_METHODS : list string :=
  [""; "streamingllm"; "snapkv"; "h2o"; "pyramidkv"; "omnikv"; "quest"; "rkv"; "skipkv"; "deltakv"; "shadowkv"].

Definition PREFILL_SPARSE_METHOD_ALIASES : list (string * string) :=
  [("", ""); ("dense", ""); ("h2o-prefill", "h2o_prefill"); ("h2o_prefill", "h2o_prefill");
   ("flash-prefill-v2", "flashprefill_v2"); ("flash_prefill_v2", "flashprefill_v2");
   ("flashprefill-v2", "flashprefill_v2"); ("flashprefill_v2", "flashprefill_v2")].
Definition CANONICAL_PREFILL_SPARSE_METHODS : list string := [""; "h2o_prefill"; "flashprefill_v2"].

Fixpoint table_get {A} (t : list (string * A)) (k : string) : option A :=
  match t with
  | [] => None
  | (k', v) :: t' => if String.eqb k' k then Some v else table_get t' k
  end.

Definition normalize_sparse_method (method : option string) : string :=
  match method with
  | None => ""
  | Some m => let normalized := strip_lower m in default normalized (table_get METHOD_ALIASES normalized)
  end.

Definition normalize_prefill_sparse_method (method : option string) : string :=
  match method with
  | None => ""
  | Some m =>
      match table_get PREFILL_SPARSE_METHOD_ALIASES m with
      | Some v => v
      | None => replace_char "-"%char "_"%char (strip_lower m)
      end
  end.

Definition resolve_prefill_sparse_method (method sparse_method : option string) : string :=
  let normalized := normalize_prefill_sparse_method method in
  if String.eqb normalized "" && String.eqb (normalize_sparse_method sparse_method) "h2o"
  then "h2o_prefill" else normalized.

(** ** Attention contracts *)

Inductive PrefillScoreCollectionKind := CollectNone | MethodOwnedPosthocReduced | MainAttentionReduced.

Record SparsePrefillAttentionContract := mkContract {
  main_score_kind : AttentionScoreKind;
  score_collection : PrefillScoreCollectionKind;
  layer_varying_page_table : bool;
}.

Definition PREFILL_POSTHOC_SCORE_METHODS : list string := ["snapkv"; "pyramidkv"; "h2o"; "rkv"].
Definition PREFILL_LAYER_VARYING_PAGE_TABLE : list (string * bool) :=
  [("", false); ("streamingllm", true); ("snapkv", true); ("h2o", true); ("pyramidkv", true);
   ("omnikv", false); ("quest", false); ("rkv", true); ("skipkv", true); ("deltakv", true); ("shadowkv", false)].
Definition DECODE_ATTENTION_SCORE_KINDS : list (string * AttentionScoreKind) :=
  [("pyramidkv", RawQkReduced); ("omnikv", RawQkPerHead); ("skipkv", RawQkPerHead); ("deltakv", RawQkPerHead)].

Definition resolve_sparse_prefill_score_mode (method configured_mode : option string) : string :=
  match configured_mode with
  | None => if String.eqb (normalize_sparse_method method) "snapkv" then "logits" else "probability"
  | Some m => strip_lower m
  end.

Definition sparse_prefill_attention_contract (method prefill_sparse_method sparse_prefill_score_mode : option string)
    (h2o_prefill_score_window : Z) : exc SparsePrefillAttentionContract :=
  let normalized := normalize_sparse_method method in
  if negb (bool_decide (normalized ∈ CANONICAL_SPARSE_METHODS)) then Raise (ValueError "Unknown sparse method")
  else
    let resolved := resolve_prefill_sparse_method prefill_sparse_method (Some normalized) in
    let h2o_prefill := String.eqb normalized "h2o" && String.eqb resolved "h2o_prefill" in
    match table_get PREFILL_LAYER_VARYING_PAGE_TABLE normalized with
    | None => Raise (KeyError normalized)
    | Some varying =>
        let fused_h2o_score :=
          h2o_prefill
          && String.eqb (resolve_sparse_prefill_score_mode (Some normalized) sparse_prefill_score_mode) "logits"
          && (h2o_prefill_score_window =? 0) in
        if fused_h2o_score then Ok (mkContract RawQkReduced MainAttentionReduced varying)
        else
          Ok (mkContract ScoreNone
                (if bool_decide (normalized ∈ PREFILL_POSTHOC_SCORE_METHODS)
                 then MethodOwnedPosthocReduced else CollectNone) varying)
    end.

(** The configuration fields [h2o_uses_fused_prefill_score] reads. *)
Record ScoreConfig := mkScoreConfig {
  cfg_sparse_method : option string;
  cfg_prefill_sparse_method : option string;
  cfg_sparse_prefill_score_mode : option string;
  cfg_h2o_prefill_score_window : Z;
}.
Definition h2o_uses_fused_prefill_score (c : ScoreConfig) : bool :=
  String.eqb (normalize_sparse_method (cfg_sparse_method c)) "h2o"
  && String.eqb (resolve_prefill_sparse_method (cfg_prefill_sparse_method c) (Some "h2o")) "h2o_prefill"
  && String.eqb (resolve_sparse_prefill_score_mode (Some "h2o") (cfg_sparse_prefill_score_mode c)) "logits"
  && (cfg_h2o_prefill_score_window c =? 0).

Definition sparse_decode_attention_score_kind (method : option string) : exc AttentionScoreKind :=
  let normalized := normalize_sparse_method method in
  if negb (bool_decide (normalized ∈ CANONICAL_SPARSE_METHODS)) then Raise (ValueError "Unknown sparse method")
  else Ok (default ScoreNone (table_get DECODE_ATTENTION_SCORE_KINDS normalized)).
Definition sparse_decode_attention_requires_scores (method : option string) : exc bool :=
  k ← sparse_decode_attention_score_kind method; Ok (negb (bool_decide (k = ScoreNone))).

(** ** Model compatibility *)

Record ModelRuntimeCompatibility := mkCompat {
  sparse_methods : list string;
  prefix_cache_methods : list string;
  decode_graph_methods : list string;
}.

Definition PREFIX_CACHE_SUPPORTED_METHODS : list string :=
  [""; "streamingllm"; "omnikv"; "quest"; "snapkv"; "h2o"; "pyramidkv"; "rkv"; "skipkv"].
Definition MOE_SPARSE_METHODS : list string :=
  [""; "streamingllm"; "snapkv"; "h2o"; "pyramidkv"; "omnikv"; "quest"; "rkv"].
Definition DENSE_SPARSE_METHODS : list string :=
  List.filter (fun m => negb (String.eqb m "shadowkv")) CANONICAL_SPARSE_METHODS.

Definition DENSE_MODEL_COMPATIBILITY := mkCompat DENSE_SPARSE_METHODS PREFIX_CACHE_SUPPORTED_METHODS DENSE_SPARSE_METHODS.
Definition LLAMA_COMPATIBILITY :=
  mkCompat (DENSE_SPARSE_METHODS ++ ["shadowkv"]) PREFIX_CACHE_SUPPORTED_METHODS (DENSE_SPARSE_METHODS ++ ["shadowkv"]).
Definition QWEN3_MOE_EP_COMPATIBILITY :=
  mkCompat MOE_SPARSE_METHODS [""; "omnikv"; "quest"; "snapkv"; "h2o"; "pyramidkv"; "rkv"] MOE_SPARSE_METHODS.
Definition QWEN3_MOE_TP_EP_COMPATIBILITY := mkCompat MOE_SPARSE_METHODS [""; "snapkv"] MOE_SPARSE_METHODS.
Definition QWEN35_MOE_COMPATIBILITY :=
  mkCompat (sparse_methods QWEN3_MOE_TP_EP_COMPATIBILITY) [""] (decode_graph_methods QWEN3_MOE_TP_EP_COMPATIBILITY).
Definition MINIMAX_M2_EP_COMPATIBILITY :=
  mkCompat MOE_SPARSE_METHODS [""; "omnikv"; "quest"; "snapkv"] MOE_SPARSE_METHODS.
Definition MINIMAX_M2_TP_EP_COMPATIBILITY :=
  mkCompat (sparse_methods MINIMAX_M2_EP_COMPATIBILITY) (prefix_cache_methods MINIMAX_M2_EP_COMPATIBILITY)
    (decode_graph_methods MINIMAX_M2_EP_COMPATIBILITY).
Definition GLM4_MOE_LITE_EP_COMPATIBILITY :=
  mkCompat [""; "streamingllm"; "snapkv"; "h2o"; "omnikv"; "quest"; "rkv"]
    [""; "streamingllm"; "snapkv"; "h2o"; "omnikv"; "rkv"]
    [""; "streamingllm"; "snapkv"; "h2o"; "omnikv"; "quest"; "rkv"].
Definition GEMMA4_COMPATIBILITY :=
  mkCompat [""; "streamingllm"; "omnikv"] [""; "streamingllm"; "omnikv"] [""; "streamingllm"; "omnikv"].

Definition MODEL_RUNTIME_COMPATIBILITY : list (string * ParallelMode * ModelRuntimeCompatibility) :=
  [("qwen2", Standard, DENSE_MODEL_COMPATIBILITY); ("qwen3", Standard, DENSE_MODEL_COMPATIBILITY);
   ("qwen3_5", Standard, DENSE_MODEL_COMPATIBILITY); ("llama", Standard, LLAMA_COMPATIBILITY);
   ("qwen3_moe", Standard, QWEN3_MOE_EP_COMPATIBILITY); ("qwen3_moe", OuterTpMoe, QWEN3_MOE_TP_EP_COMPATIBILITY);
   ("qwen3_5_moe", Standard, QWEN35_MOE_COMPATIBILITY); ("qwen3_5_moe", OuterTpMoe, QWEN35_MOE_COMPATIBILITY);
   ("minimax_m2", Standard, MINIMAX_M2_EP_COMPATIBILITY); ("minimax_m2", OuterTpMoe, MINIMAX_M2_TP_EP_COMPATIBILITY);
   ("glm4_moe_lite", Standard, GLM4_MOE_LITE_EP_COMPATIBILITY);
   ("glm4_moe_lite", OuterTpMoe, GLM4_MOE_LITE_EP_COMPATIBILITY);
   ("gemma4", Standard, GEMMA4_COMPATIBILITY); ("gemma4", OuterTpMoe, GEMMA4_COMPATIBILITY)].

Fixpoint compat_get (t : list (string * ParallelMode * ModelRuntimeCompatibility)) (m : string) (mode : ParallelMode) :
    option ModelRuntimeCompatibility :=
  match t with
  | [] => None
  | (m', mode', c) :: t' => if String.eqb m' m && bool_decide (mode' = mode) then Some c else compat_get t' m mode
  end.

Definition validate_model_runtime_compatibility (model_type : option string) (sparse_method : option string)
    (mode : ParallelMode) (decode_graph enable_prefix_caching : bool) : exc ModelRuntimeCompatibility :=
  let model_type := strip_lower (default "" model_type) in
  let method := normalize_sparse_method sparse_method in
  match compat_get MODEL_RUNTIME_COMPATIBILITY model_type mode with
  | None => Raise (NotImplementedError "Unsupported Sparse-vLLM model_type")
  | Some compatibility =>
      if decode_graph && negb (bool_decide (method ∈ decode_graph_methods compatibility))
      then Raise (ValueError "decode_graph is validated only for")
      else if negb (bool_decide (method ∈ sparse_methods compatibility))
      then Raise (ValueError "Unsupported sparse method")
      else if enable_prefix_caching && negb (bool_decide (method ∈ prefix_cache_methods compatibility))
      then Raise (ValueError "prefix caching is validated only for")
      else Ok compatibility
  end.

Definition SKIPKV_ASSET_MODEL_NAMES : list string :=
  ["DeepSeek-R1-Distill-Llama-8B"; "DeepSeek-R1-Distill-Qwen-7B"; "DeepSeek-R1-Distill-Qwen-14B"].
Definition is_slash (c : Ascii.ascii) : bool := bool_decide (c = "/"%char).
Fixpoint until_slash (l : list Ascii.ascii) : list Ascii.ascii :=
  match l with
  | [] => []
  | c :: l' => if is_slash c then [] else c :: until_slash l'
  end.
(** [path.rstrip("/").split("/")[-1]] *)
Definition base_name (path : string) : string :=
  of_chars (reverse (until_slash (drop_while is_slash (reverse (chars path))))).
Definition validate_sparse_method_assets (method : option string) (model_path : string) : exc unit :=
  if negb (String.eqb (normalize_sparse_method method) "skipkv") then Ok tt
  else if negb (bool_decide (base_name model_path ∈ SKIPKV_ASSET_MODEL_NAMES))
  then Raise (ValueError "SkipKV is supported only for models with released steering assets")
  else Ok tt.

(** ** Decode graphs and policies *)

Definition DECODE_CUDA_GRAPH_SUPPORTED_METHODS : list string := CANONICAL_SPARSE_METHODS.
Definition TP_DECODE_CUDA_GRAPH_SUPPORTED_METHODS : list string :=
  [""; "streamingllm"; "snapkv"; "h2o"; "pyramidkv"; "omnikv"; "quest"; "rkv"; "skipkv"].
Definition is_decode_cuda_graph_supported (method : option string) : bool :=
  bool_decide (normalize_sparse_method method ∈ DECODE_CUDA_GRAPH_SUPPORTED_METHODS).
Definition is_tp_decode_cuda_graph_supported (method : option string) : bool :=
  bool_decide (normalize_sparse_method method ∈ TP_DECODE_CUDA_GRAPH_SUPPORTED_METHODS).
Definition is_deltakv_method (method : option string) : bool := String.eqb (normalize_sparse_method method) "deltakv".

Definition decode_sparse_long_text_threshold (method : string)
    (num_sink_tokens decode_keep_tokens num_recent_tokens : Z) : Z :=
  if String.eqb method "" then 0
  else if bool_decide (method ∈ ["streamingllm"; "attention-sink"; "attention_sink"])
  then num_sink_tokens + num_recent_tokens
  else num_sink_tokens + decode_keep_tokens + num_recent_tokens.

Definition decode_graph_path_id (method : string) (is_long_text : bool) : string :=
  if String.eqb method "shadowkv" then "shadowkv"
  else if String.eqb method "" then "dense"
  else if is_long_text then "long" else "short".

Definition DEFAULT_PREFILL_POLICY_BY_METHOD : list (string * string) :=
  [("", PREFILL_POLICY_ALL_CHUNKED); ("streamingllm", PREFILL_POLICY_ALL_CHUNKED);
   ("snapkv", PREFILL_POLICY_ALL_CHUNKED); ("h2o", PREFILL_POLICY_ALL_CHUNKED);
   ("pyramidkv", PREFILL_POLICY_LONG_BS1FULL_SHORT_BATCH); ("omnikv", PREFILL_POLICY_ALL_CHUNKED);
   ("quest", PREFILL_POLICY_ALL_CHUNKED); ("rkv", PREFILL_POLICY_ALL_CHUNKED);
   ("skipkv", PREFILL_POLICY_ALL_CHUNKED); ("deltakv", PREFILL_POLICY_LONG_BS1FULL_SHORT_BATCH);
   ("shadowkv", PREFILL_POLICY_ALL_CHUNKED)].

Definition PREFILL_POLICY_BY_METHOD : list (string * string) :=
  DEFAULT_PREFILL_POLICY_BY_METHOD ++
  [("vanilla", PREFILL_POLICY_ALL_CHUNKED); ("attention-sink", PREFILL_POLICY_ALL_CHUNKED);
   ("attention_sink", PREFILL_POLICY_ALL_CHUNKED); ("r-kv", PREFILL_POLICY_ALL_CHUNKED);
   ("r_kv", PREFILL_POLICY_ALL_CHUNKED); ("skip-kv", PREFILL_POLICY_ALL_CHUNKED);
   ("skip_kv", PREFILL_POLICY_ALL_CHUNKED);
   ("deltakv-less-memory", PREFILL_POLICY_LONG_BS1FULL_SHORT_BATCH);
   ("deltakv_less_memory", PREFILL_POLICY_LONG_BS1FULL_SHORT_BATCH);
   ("deltakv-less-memory-cudagraph", PREFILL_POLICY_LONG_BS1FULL_SHORT_BATCH);
   ("deltakv_less_memory_cudagraph", PREFILL_POLICY_LONG_BS1FULL_SHORT_BATCH)].

Definition get_default_prefill_schedule_policy (method : option string) : exc string :=
  match table_get DEFAULT_PREFILL_POLICY_BY_METHOD (normalize_sparse_method method) with
  | Some p => Ok p
  | None => Raise (ValueError "Unsupported sparse_method")
  end.

Definition resolve_prefill_schedule_policy (method policy : option string) : exc string :=
  default_policy ← get_default_prefill_schedule_policy method;
  match policy with
  | None => Ok default_policy
  | Some p =>
      let requested := strip_lower p in
      if bool_decide (requested ∈ [""; PREFILL_POLICY_AUTO]) then Ok default_policy
      else if negb (bool_decide (requested ∈ SUPPORTED_PREFILL_POLICIES))
      then Raise (ValueError "Unsupported prefill_schedule_policy")
      else if negb (String.eqb requested default_policy)
      then Raise (ValueError "prefill_schedule_policy must match the registry default for reproducibility.")
      else Ok requested
  end.

(** ** Facts *)

Lemma table_get_in {A} (t : list (string * A)) k v : table_get t k = Some v -> (k, v) ∈ t.
Proof.
  induction t as [|[k' v'] t IH]; cbn; [done|]. destruct (String.eqb_spec k' k) as [->|]; [|by right; apply IH].
  intros [= ->]. by left.
Qed.

(** Every alias stands for a canonical name, and canonical names are normal. *)
Lemma alias_targets : forallb (fun kv =>
    String.eqb (strip_lower kv.2) kv.2 && String.eqb (default kv.2 (table_get METHOD_ALIASES kv.2)) kv.2
    && bool_decide (kv.2 ∈ CANONICAL_SPARSE_METHODS)) METHOD_ALIASES = true.
Proof. vm_compute. reflexivity. Qed.

Lemma alias_target k v : table_get METHOD_ALIASES k = Some v ->
  strip_lower v = v /\ default v (table_get METHOD_ALIASES v) = v /\ v ∈ CANONICAL_SPARSE_METHODS.
Proof.
  intros H%table_get_in%list_elem_of_In. pose proof alias_targets as Ha. rewrite forallb_forall in Ha.
  specialize (Ha _ H). cbn in Ha. apply andb_true_iff in Ha as [Ha Hc]. apply andb_true_iff in Ha as [Hs Hn].
  split_and!; [by apply String.eqb_eq|by apply String.eqb_eq|by apply bool_decide_eq_true in Hc].
Qed.

Lemma normalize_fixed m : normalize_sparse_method (Some (normalize_sparse_method m)) = normalize_sparse_method m.
Proof.
  destruct m as [m|]; [|vm_compute; reflexivity]. unfold normalize_sparse_method. cbv zeta. set (n := strip_lower m).
  destruct (table_get METHOD_ALIASES n) as [v|] eqn:Hn; cbn [default from_option]; unfold id.
  - destruct (alias_target n v Hn) as (-> & Hd & _). exact Hd.
  - assert (strip_lower n = n) as -> by apply strip_lower_idem. by rewrite Hn.
Qed.

(** Normalising a method name is idempotent on every string: aliases
    resolve in one step and a normal name is left alone. *)
Theorem normalize_idempotent m :
  normalize_sparse_method (Some (normalize_sparse_method m)) = normalize_sparse_method m.
Proof. apply normalize_fixed. Qed.

Lemma layer_table_total m : m ∈ CANONICAL_SPARSE_METHODS -> is_Some (table_get PREFILL_LAYER_VARYING_PAGE_TABLE m).
Proof.
  intros H. assert (forallb (fun m => bool_decide (is_Some (table_get PREFILL_LAYER_VARYING_PAGE_TABLE m)))
    CANONICAL_SPARSE_METHODS = true) as Ht by (vm_compute; reflexivity).
  rewrite forallb_forall in Ht. apply list_elem_of_In in H. specialize (Ht m H). by apply bool_decide_eq_true in Ht.
Qed.

(** The prefill attention contract exists exactly for the canonical
    methods (under any alias), no table lookup can fail, and its main
    attention collects fused scores exactly when
    [h2o_uses_fused_prefill_score] says so, in which case the kernel returns
    reduced raw scores. *)
Theorem prefill_contract_agrees m p mode w :
  let c := mkScoreConfig m p mode w in
  match sparse_prefill_attention_contract m p mode w with
  | Ok k => normalize_sparse_method m ∈ CANONICAL_SPARSE_METHODS /\
      (score_collection k = MainAttentionReduced <-> h2o_uses_fused_prefill_score c = true) /\
      (main_score_kind k = RawQkReduced <-> score_collection k = MainAttentionReduced) /\
      (score_collection k = MethodOwnedPosthocReduced -> normalize_sparse_method m ∈ PREFILL_POSTHOC_SCORE_METHODS)
  | Raise e => ~ normalize_sparse_method m ∈ CANONICAL_SPARSE_METHODS /\ exists msg, e = ValueError msg
  end.
Proof.
  cbv zeta. unfold sparse_prefill_attention_contract, h2o_uses_fused_prefill_score. cbn [cfg_sparse_method
    cfg_prefill_sparse_method cfg_sparse_prefill_score_mode cfg_h2o_prefill_score_window].
  destruct (bool_decide (normalize_sparse_method m ∈ CANONICAL_SPARSE_METHODS)) eqn:Hc; bool_to_prop; cbn [negb];
    [|by eauto].
  destruct (layer_table_total _ Hc) as [v Hv]. rewrite Hv.
  destruct (String.eqb_spec (normalize_sparse_method m) "h2o") as [Hm|Hm]; cbn [andb].
  - rewrite Hm. destruct (_ && _ && _) eqn:Hf.
    + cbn. split_and!; [by rewrite <- Hm|tauto|done|done].
    + cbn. split_and!; [by rewrite <- Hm|by split|by split|]. intros _. set_solver.
  - cbn. split_and!; [done| |by split; case_bool_decide|].
    + split; [by case_bool_decide|done].
    + case_bool_decide; [done|discriminate].
Qed.

(** The compatibility check accepts exactly the registered models with a
    method their entry allows, for the graph and prefix-cache features that are
    switched on; every registered entry allows only canonical methods, and its
    prefix-cache and graph methods are among its sparse methods. *)
Theorem compatibility_validated mt m mode graph prefix :
  let entry := compat_get MODEL_RUNTIME_COMPATIBILITY (strip_lower (default "" mt)) mode in
  let n := normalize_sparse_method m in
  match validate_model_runtime_compatibility mt m mode graph prefix with
  | Ok c => entry = Some c /\ n ∈ sparse_methods c /\ n ∈ CANONICAL_SPARSE_METHODS /\
      (graph = true -> n ∈ decode_graph_methods c) /\ (prefix = true -> n ∈ prefix_cache_methods c) /\
      (forall x, x ∈ prefix_cache_methods c \/ x ∈ decode_graph_methods c -> x ∈ sparse_methods c)
  | Raise (NotImplementedError _) => entry = None
  | Raise e => exists c, entry = Some c /\ ~ (n ∈ sparse_methods c /\
      (graph = true -> n ∈ decode_graph_methods c) /\ (prefix = true -> n ∈ prefix_cache_methods c))
  end.
Proof.
  cbv zeta. unfold validate_model_runtime_compatibility.
  assert (forall c, compat_get MODEL_RUNTIME_COMPATIBILITY (strip_lower (default "" mt)) mode = Some c ->
    (forall x, x ∈ sparse_methods c -> x ∈ CANONICAL_SPARSE_METHODS) /\
    (forall x, x ∈ prefix_cache_methods c \/ x ∈ decode_graph_methods c -> x ∈ sparse_methods c)) as Hreg.
  { generalize (strip_lower (default "" mt)). intros name c Hc.
    assert (forallb (fun e =>
      forallb (fun x => bool_decide (x ∈ CANONICAL_SPARSE_METHODS)) (sparse_methods e.2)
      && forallb (fun x => bool_decide (x ∈ sparse_methods e.2)) (prefix_cache_methods e.2 ++ decode_graph_methods e.2))
      MODEL_RUNTIME_COMPATIBILITY = true) as Hall by (vm_compute; reflexivity).
    assert (exists k, (k, c) ∈ MODEL_RUNTIME_COMPATIBILITY) as [k Hk].
    { clear Hall. induction MODEL_RUNTIME_COMPATIBILITY as [|[[m' mode'] c'] t IH]; cbn in Hc; [done|].
      destruct (_ && _); [injection Hc as ->; eexists; by left|]. destruct (IH Hc) as [k ?]. exists k. by right. }
    apply list_elem_of_In in Hk. rewrite forallb_forall in Hall. specialize (Hall _ Hk). cbn in Hall.
    apply andb_true_iff in Hall as [H1 H2]. rewrite forallb_forall in H1. rewrite forallb_forall in H2. split.
    - intros x Hx%list_elem_of_In. specialize (H1 x Hx). by apply bool_decide_eq_true in H1.
    - intros x Hx%elem_of_app%list_elem_of_In. specialize (H2 x Hx). by apply bool_decide_eq_true in H2. }
  destruct (compat_get _ _ _) as [c|]; [|done]. destruct (Hreg c eq_refl) as [Hcanon Hsub].
  destruct (graph && negb (bool_decide (normalize_sparse_method m ∈ decode_graph_methods c))) eqn:Hg.
  { apply andb_true_iff in Hg as [-> Hg]. bool_to_prop. exists c. split; [done|]. intros (_ & H & _). by apply Hg, H. }
  destruct (negb (bool_decide (normalize_sparse_method m ∈ sparse_methods c))) eqn:Hs; bool_to_prop.
  { exists c. split; [done|]. by intros [? _]. }
  destruct (prefix && negb (bool_decide (normalize_sparse_method m ∈ prefix_cache_methods c))) eqn:Hp.
  { apply andb_true_iff in Hp as [-> Hp]. bool_to_prop. exists c. split; [done|]. intros (_ & _ & H). by apply Hp, H. }
  split_and!; [done|done|by apply Hcanon| | |done].
  - intros ->. cbn in Hg. by bool_to_prop.
  - intros ->. cbn in Hp. by bool_to_prop.
Qed.

(** The prefill schedule policy is the registry's and nothing else: a
    request either leaves it to the registry or names the default, and the
    redundant table over aliases agrees with the default of the method each
    alias stands for. *)
Theorem prefill_policy_is_default m p :
  (forall r, resolve_prefill_schedule_policy m p = Ok r -> get_default_prefill_schedule_policy m = Ok r) /\
  (normalize_sparse_method m ∈ CANONICAL_SPARSE_METHODS <-> exists r, resolve_prefill_schedule_policy m None = Ok r) /\
  (forall k r, table_get PREFILL_POLICY_BY_METHOD k = Some r -> get_default_prefill_schedule_policy (Some k) = Ok r).
Proof.
  assert (normalize_sparse_method m ∈ CANONICAL_SPARSE_METHODS <->
          is_Some (table_get DEFAULT_PREFILL_POLICY_BY_METHOD (normalize_sparse_method m))) as Hdom.
  { generalize (normalize_sparse_method m). intros n. split.
    - intros H%list_elem_of_In. assert (forallb (fun m => bool_decide (is_Some (table_get DEFAULT_PREFILL_POLICY_BY_METHOD m)))
        CANONICAL_SPARSE_METHODS = true) as Ht by (vm_compute; reflexivity).
      rewrite forallb_forall in Ht. specialize (Ht n H). by apply bool_decide_eq_true in Ht.
    - intros [v Hv%table_get_in%list_elem_of_In].
      assert (forallb (fun e => bool_decide (e.1 ∈ CANONICAL_SPARSE_METHODS)) DEFAULT_PREFILL_POLICY_BY_METHOD = true)
        as Ht by (vm_compute; reflexivity).
      rewrite forallb_forall in Ht. specialize (Ht _ Hv). by apply bool_decide_eq_true in Ht. }
  unfold resolve_prefill_schedule_policy. split_and!.
  - intros r. destruct (get_default_prefill_schedule_policy m) as [d|e]; [|done]. bind_simpl.
    destruct p as [p|]; [|done]. case_bool_decide; [done|]. destruct (negb _); [done|].
    destruct (String.eqb_spec (strip_lower p) d); cbn; [|done]. congruence.
  - rewrite Hdom. unfold get_default_prefill_schedule_policy.
    destruct (table_get _ _) as [d|]; bind_simpl; split; eauto; by intros [? ?].
  - intros k r Hk%table_get_in%list_elem_of_In.
    assert (forallb (fun e => match get_default_prefill_schedule_policy (Some e.1) with
                              | Ok r => String.eqb r e.2 | Raise _ => false end) PREFILL_POLICY_BY_METHOD = true)
      as Ht by (vm_compute; reflexivity).
    rewrite forallb_forall in Ht. specialize (Ht _ Hk). cbn [fst snd] in Ht.
    destruct (get_default_prefill_schedule_policy (Some k)); [|done]. apply String.eqb_eq in Ht. congruence.
Qed.

(** Normalising a prefill method name is not idempotent, because aliases
    are looked up before the name is lower-cased: ["Dense"] normalises to
    ["dense"], which is an alias and not a canonical name. *)
Theorem prefill_normalization_not_idempotent :
  normalize_prefill_sparse_method (Some "Dense") = "dense" /\
  normalize_prefill_sparse_method (Some "dense") = "" /\
  "dense" ∉ CANONICAL_PREFILL_SPARSE_METHODS.
Proof. split_and!; [vm_compute; reflexivity|vm_compute; reflexivity|]. apply (bool_decide_eq_false_1 _). vm_compute. reflexivity. Qed.
