(* ===== verification/Scheduler.v ===== *)
(** * The scheduler

    [engine/scheduler.py] and [engine/prefill.py]: the queues of waiting and
    decoding requests, one scheduling round (chunked prefill, admission,
    decode batches, preemption) and the processing of a model step.

    Requests are mutable objects shared by the queues, the batches and the
    caller; the model keeps them in a store and names them by [seq_id], which
    the class counter makes unique.  The memory oracle is the [MemoryOracle]
    protocol of [engine/runtime_state.py]: every method may read and change the
    oracle's own state and may raise; of a sequence it only writes the prefix
    hit, which is what its two prefix methods return here. *)

From stdpp Require Import base gmap list strings.
From Stdlib Require Import ZArith Lia.
From S2P Require Import Prelude PyDict PyBytes SamplingParams Sequence MethodRegistry.

(** ** Prefill execution modes *)

Definition PREFILL_EXECUTION_CHUNKED : string := "chunked".
Definition PREFILL_EXECUTION_FULL : string := "full".
Definition PREFILL_EXECUTION_RAW_OFFLOAD : string := "raw_offload".
Definition SUPPORTED_PREFILL_EXECUTION_MODES : list string :=
  [PREFILL_EXECUTION_CHUNKED; PREFILL_EXECUTION_FULL; PREFILL_EXECUTION_RAW_OFFLOAD].
Definition validate_prefill_execution_mode (mode : string) : exc string :=
  if bool_decide (mode ∈ SUPPORTED_PREFILL_EXECUTION_MODES) then Ok mode
  else Raise (ValueError "Unsupported prefill execution mode").

(** ** The oracle *)

Class MemoryOracle (M K : Type) := {
  num_free_slots : Act PyExn M Z;
  prefill_batched_tokens_margin : Act PyExn M Z;
  remaining_prefill_tokens : Sequence -> Act PyExn M Z;
  prefill_execution_mode : Sequence -> Act PyExn M string;
  prefill_batch_compatibility_key : Sequence -> Act PyExn M K;
  reset_prefill_execution_state : Z -> Act PyExn M unit;
  complete_prefill_execution : Sequence -> Act PyExn M unit;
  reserved_prefill_slots : list Sequence -> Z -> Act PyExn M Z;
  should_schedule_full_prefill : Sequence -> Act PyExn M bool;
  prefill_step_free_slots : Act PyExn M Z;
  prefill_step_free_slots_for : Sequence -> Act PyExn M Z;
  min_final_prefill_chunk_size : Sequence -> Act PyExn M Z;
  prefill_step_reservation_cost : Sequence -> Z -> Act PyExn M Z;
  decode_step_free_slots : Act PyExn M Z;
  decode_step_free_slots_for : Sequence -> Act PyExn M Z;
  decode_step_reservation_cost : Sequence -> Act PyExn M Z;
  prompt_admission_free_slots : Act PyExn M Z;
  prompt_admission_budgets : list Sequence -> Z -> Act PyExn M (PyDict string Z);
  prompt_admission_costs : Sequence -> Act PyExn M (PyDict string Z);
  prompt_logical_reservation_cost : Sequence -> Act PyExn M Z;
  prompt_admission_failure_action : Act PyExn M string;
  on_prompt_admitted : Sequence -> PyDict string Z -> Act PyExn M unit;
  refresh_prefix_cache_hit : Sequence -> Act PyExn M PrefixHit;
  oracle_clear_prefix_cache_hit : Sequence -> Act PyExn M PrefixHit;
  hashable : K -> bool;
}.

(** ** State *)

Record SchedulerConfig := mkSchedConfig {
  sparse_method : string;
  max_num_seqs_in_batch : Z;
  max_num_batched_tokens : Z;
  max_decoding_seqs : Z;
  engine_prefill_chunk_size : Z;
  engine_eos_token_ids : gset Z;
  sink_keep_tokens : Z;
  recent_keep_tokens : Z;
  decode_keep_tokens : Z;
}.

Record Scheduler (M : Type) := mkScheduler {
  sched_config : SchedulerConfig;
  oracle : M;
  objects : gmap Z Sequence;
  waiting : list Z;
  decoding : list Z;
  admission_defer_warned : gset Z;
  total_preemptions : Z;
  total_recompute_replays : Z;
}.
Arguments mkScheduler {M}.
Arguments sched_config {M}. Arguments oracle {M}. Arguments objects {M}. Arguments waiting {M}.
Arguments decoding {M}. Arguments admission_defer_warned {M}. Arguments total_preemptions {M}.
Arguments total_recompute_replays {M}.
#[export] Instance eta_scheduler M : Eta (Scheduler M) := fun r =>
  mkScheduler (sched_config r) (oracle r) (objects r) (waiting r) (decoding r)
    (admission_defer_warned r) (total_preemptions r) (total_recompute_replays r).

(** [Scheduler.__init__]; [eos] and [eos_ids] are the configuration's fields. *)
Definition new_scheduler {M} (c : SchedulerConfig) (eos : option Z) (eos_ids : EosArg) (m : M) : Scheduler M :=
  mkScheduler
    (mkSchedConfig (sparse_method c) (max_num_seqs_in_batch c) (max_num_batched_tokens c) (max_decoding_seqs c)
       (engine_prefill_chunk_size c) (resolve_eos_token_ids EosNone eos_ids eos)
       (sink_keep_tokens c) (recent_keep_tokens c) (decode_keep_tokens c))
    m ∅ [] [] ∅ 0 0.

(** ** Deques *)

(** [deque.rotate(k)]: to the right for positive [k]. *)
Definition rotate {A} (k : Z) (l : list A) : list A :=
  let n := Z.of_nat (length l) in
  if n =? 0 then l
  else let j := Z.to_nat (n - k mod n) in drop j l ++ take j l.

(** [_pop_waiting_at], [_pop_decoding_at] *)
Definition pop_at {A} (idx : nat) (l : list A) : option (A * list A) :=
  match idx with
  | O => match l with [] => None | x :: l' => Some (x, l') end
  | S _ =>
      match rotate (- Z.of_nat idx) l with
      | [] => None
      | x :: l' => Some (x, rotate (Z.of_nat idx) l')
      end
  end.

(** [deque.remove(x)]: the first occurrence; [None] is [ValueError]. *)
Fixpoint deque_remove (x : Z) (l : list Z) : option (list Z) :=
  match l with
  | [] => None
  | y :: l' => if decide (y = x) then Some l' else (cons y) <$> deque_remove x l'
  end.

Section scheduler.
Context {M K : Type} `{EqDecision K} `{MemoryOracle M K}.
#[local] Abbreviation Sched := (Scheduler M).
#[local] Abbreviation SchedAct := (Act PyExn (Scheduler M)).

Definition on_oracle {A} (m : Act PyExn M A) : SchedAct A := fun s =>
  let '(r, m') := m (oracle s) in (r, s <| oracle := m' |>).

Definition get_seq (id : Z) : SchedAct Sequence := fun s =>
  match objects s !! id with
  | Some q => (Ok q, s)
  | None => (Raise (AttributeError "seq"), s)
  end.
Definition set_seq (id : Z) (f : Sequence -> Sequence) : SchedAct unit :=
  modify (fun s => s <| objects ::= alter f id |>).
(** Calling a method of a sequence. *)
Definition call_seq {A} (id : Z) (m : SeqAct A) : SchedAct A :=
  q ← get_seq id;
  let '(r, q') := m q in
  set_seq id (fun _ => q') ;; lift r.
(** The objects a queue refers to. *)
Definition seqs_of (s : Sched) (ids : list Z) : list Sequence := omap (fun id => objects s !! id) ids.
Definition any_replay (s : Sched) (ids : list Z) : bool := existsb is_recompute_replay (seqs_of s ids).

(** ** Long texts *)

Definition long_text_threshold (c : SchedulerConfig) : Z :=
  decode_sparse_long_text_threshold (sparse_method c) (sink_keep_tokens c) (decode_keep_tokens c) (recent_keep_tokens c).
Definition is_long_text (c : SchedulerConfig) (q : Sequence) (is_prefill : bool) : exc bool :=
  if String.eqb (sparse_method c) "" then Ok false
  else if is_prefill then Raise (ValueError "Prefill must use prefill_execution_mode(), not decode long-text partitioning.")
  else Ok (long_text_threshold c <? num_tokens q).

(** ** Prefill buckets *)

Definition prefill_mode_of (id : Z) : SchedAct string :=
  q ← get_seq id;
  mode ← on_oracle (prefill_execution_mode q);
  lift (validate_prefill_execution_mode mode).

Definition prefill_batch_key (id : Z) : SchedAct (string * K) :=
  mode ← prefill_mode_of id;
  q ← get_seq id;
  compatibility ← on_oracle (prefill_batch_compatibility_key q);
  guard_not (negb (hashable compatibility)) (TypeError "prefill_batch_compatibility_key must be hashable") ;;
  mret (mode, compatibility).

Definition refresh_prefill_metadata (id : Z) : SchedAct unit :=
  q ← get_seq id;
  if (num_prefilled_tokens q =? 0) && (num_completion_tokens q =? 0) then
    hit ← on_oracle (refresh_prefix_cache_hit q);
    set_seq id (fun q => q <| prefix_hit := hit |>)
  else mret tt.

(** [prefill_execution_mode_counts] *)
Fixpoint count_modes (ids : list Z) (counts : PyDict string Z) : SchedAct (PyDict string Z) :=
  match ids with
  | [] => mret counts
  | id :: ids' =>
      refresh_prefill_metadata id ;;
      mode ← prefill_mode_of id;
      count_modes ids' (<[mode := default 0 (counts !! mode) + 1]> counts)
  end.
Definition prefill_execution_mode_counts : SchedAct (PyDict string Z) :=
  ids ← read waiting;
  count_modes ids (<[PREFILL_EXECUTION_RAW_OFFLOAD := 0]> (<[PREFILL_EXECUTION_FULL := 0]>
    (<[PREFILL_EXECUTION_CHUNKED := 0]> ∅))).

(** [prefill_execution_mode_for_batch] *)
Fixpoint batch_keys (ids : list Z) (keys : list (string * K)) : SchedAct (list (string * K)) :=
  match ids with
  | [] => mret keys
  | id :: ids' =>
      key ← prefill_batch_key id;
      batch_keys ids' (if bool_decide (key ∈ keys) then keys else keys ++ [key])
  end.
Definition prefill_execution_mode_for_batch (ids : list Z) : SchedAct string :=
  keys ← batch_keys ids [];
  match keys with
  | [(mode, _)] => mret mode
  | _ => throw (RuntimeError "Scheduler produced an incompatible prefill batch")
  end.

Fixpoint mode_order_loop (replay_pending : bool) (ids : list Z) (modes : list (string * K)) :
    SchedAct (list (string * K)) :=
  match ids with
  | [] => mret modes
  | id :: ids' =>
      q ← get_seq id;
      if replay_pending && negb (is_recompute_replay q) then mode_order_loop replay_pending ids' modes
      else
        refresh_prefill_metadata id ;;
        key ← prefill_batch_key id;
        mode_order_loop replay_pending ids' (if bool_decide (key ∈ modes) then modes else modes ++ [key])
  end.
Definition prefill_mode_order : SchedAct (list (string * K)) :=
  s ← read (fun s => s);
  mode_order_loop (any_replay s (waiting s)) (waiting s) [].

(** The index of the first waiting request of the bucket. *)
Fixpoint find_prefill (replay_pending : bool) (target : string * K) (idx : nat) (ids : list Z) : SchedAct (option nat) :=
  match ids with
  | [] => mret None
  | id :: ids' =>
      q ← get_seq id;
      if replay_pending && negb (is_recompute_replay q) then find_prefill replay_pending target (S idx) ids'
      else
        key ← prefill_batch_key id;
        if decide (key = target) then mret (Some idx) else find_prefill replay_pending target (S idx) ids'
  end.
Definition pop_waiting_at (idx : nat) : SchedAct Z := fun s =>
  match pop_at idx (waiting s) with
  | Some (id, l) => (Ok id, s <| waiting := l |>)
  | None => (Raise (IndexError "pop from an empty deque"), s)
  end.
Definition pop_next_prefill_seq (target : string * K) : SchedAct (option Z) :=
  s ← read (fun s => s);
  found ← find_prefill (any_replay s (waiting s)) target 0 (waiting s);
  match found with
  | None => mret None
  | Some idx => id ← pop_waiting_at idx; mret (Some id)
  end.

(** The index of the first decoding request of the wanted length class. *)
Fixpoint find_decoding (target_is_long : bool) (idx : nat) (ids : list Z) : SchedAct (option nat) :=
  match ids with
  | [] => mret None
  | id :: ids' =>
      q ← get_seq id;
      s ← read (fun s => s);
      long ← lift (is_long_text (sched_config s) q false);
      if Bool.eqb long target_is_long then mret (Some idx) else find_decoding target_is_long (S idx) ids'
  end.
Definition pop_decoding_at (idx : nat) : SchedAct Z := fun s =>
  match pop_at idx (decoding s) with
  | Some (id, l) => (Ok id, s <| decoding := l |>)
  | None => (Raise (IndexError "pop from an empty deque"), s)
  end.
Definition pop_next_decoding_seq (target_is_long : bool) : SchedAct (option Z) :=
  ids ← read decoding;
  found ← find_decoding target_is_long 0 ids;
  match found with
  | None => mret None
  | Some idx => id ← pop_decoding_at idx; mret (Some id)
  end.

(** ** Queues *)

Definition is_idle (s : Sched) : bool := bool_decide (waiting s = []) && bool_decide (decoding s = []).
Definition add_request (q : Sequence) : SchedAct unit :=
  modify (fun s => s <| objects ::= <[seq_id q := q]> |> <| waiting ::= fun l => l ++ [seq_id q] |>).

(** [queue.remove(seq)] as [abort] and [postprocess] call it. *)
Definition remove_waiting (id : Z) : SchedAct unit := fun s =>
  match deque_remove id (waiting s) with
  | Some l => (Ok tt, s <| waiting := l |>)
  | None => (Raise (ValueError "deque.remove(x): x not in deque"), s)
  end.
Definition remove_decoding (id : Z) : SchedAct unit := fun s =>
  match deque_remove id (decoding s) with
  | Some l => (Ok tt, s <| decoding := l |>)
  | None => (Raise (ValueError "deque.remove(x): x not in deque"), s)
  end.

Definition abort (id : Z) : SchedAct bool :=
  s ← read (fun s => s);
  let in_waiting := bool_decide (id ∈ waiting s) in
  if in_waiting || bool_decide (id ∈ decoding s) then
    (if in_waiting then remove_waiting id else remove_decoding id) ;;
    set_seq id (fun q => q <| status := FINISHED |>) ;;
    modify (fun s => s <| admission_defer_warned ::= fun w => w ∖ {[id]} |>) ;;
    on_oracle (reset_prefill_execution_state id) ;;
    q ← get_seq id;
    mret ((0 <? num_prefilled_tokens q) || negb in_waiting)
  else mret false.

(** ** Prefill: the size of a step *)

Definition prefill_step_tokens (c : SchedulerConfig) (mode : string)
    (remaining num_batched_tokens step_free_count : Z) : exc Z :=
  if String.eqb mode PREFILL_EXECUTION_FULL then
    let available := Z.min (max_num_batched_tokens c - num_batched_tokens) step_free_count in
    Ok (if remaining <=? available then remaining else 0)
  else if bool_decide (mode ∈ [PREFILL_EXECUTION_CHUNKED; PREFILL_EXECUTION_RAW_OFFLOAD]) then
    Ok (Z.min remaining (Z.min (engine_prefill_chunk_size c)
          (Z.min (max_num_batched_tokens c - num_batched_tokens) step_free_count)))
  else Raise (ValueError "Unknown prefill execution mode").

Definition respect_min_final_prefill_chunk (id : Z) (remaining proposed : Z) : SchedAct Z :=
  q ← get_seq id;
  min_final ← on_oracle (min_final_prefill_chunk_size q);
  guard_not (min_final <? 0) (ValueError "min_final_prefill_chunk_size must be non-negative") ;;
  let remaining_after := remaining - proposed in
  mret (if (min_final =? 0) || (remaining_after <=? 0) || (min_final <=? remaining_after)
        then proposed else Z.max 0 (remaining - min_final)).

(** ** Prefill: one round *)

(** The local variables of [_schedule_impl] that its prefill phase updates. *)
Record Round := mkRound {
  scheduled : list Z;
  batched_seqs : Z;
  batched_tokens : Z;
  step_free : Z;
  prompt_logical_free : Z;
  budgets : PyDict string Z;
  deferred_failure : option (Z * string * Z * Z);
  step_failure : option (Z * Z * Z);
  capacity_failure : option (Z * Z * Z * Z);
}.
#[export] Instance eta_round : Eta Round := fun r =>
  mkRound (scheduled r) (batched_seqs r) (batched_tokens r) (step_free r) (prompt_logical_free r)
    (budgets r) (deferred_failure r) (step_failure r) (capacity_failure r).

Definition can_continue_prefill_batch (s : Sched) (mode : string) (margin : Z) (r : Round) : bool :=
  if bool_decide (waiting s = []) then false
  else if any_replay s (scheduled r) then false
  else if max_decoding_seqs (sched_config s) <=? Z.of_nat (length (decoding s)) then false
  else if String.eqb mode PREFILL_EXECUTION_RAW_OFFLOAD
  then bool_decide (scheduled r = []) && (0 <? step_free r)
  else (0 <? step_free r) && (batched_tokens r <=? max_num_batched_tokens (sched_config s) - margin)
       && (batched_seqs r <? max_num_seqs_in_batch (sched_config s)).

(** The first budget that cannot pay. *)
Fixpoint failing_budget (budgets : PyDict string Z) (costs : list (string * Z)) : option (string * Z * Z) :=
  match costs with
  | [] => None
  | (name, need) :: costs' =>
      let free := default 0 (budgets !! name) in
      if free <? need then Some (name, need, free) else failing_budget budgets costs'
  end.
Definition pay_budgets (costs : list (string * Z)) (budgets : PyDict string Z) : PyDict string Z :=
  foldl (fun b kv => <[kv.1 := default 0 (b !! kv.1) - kv.2]> b) budgets costs.

Definition requeue_waiting (id : Z) : SchedAct unit := modify (fun s => s <| waiting ::= fun l => l ++ [id] |>).

(** The admission of a request that starts its prompt: [false] when it was
    deferred and requeued. *)
Definition admit_prompt (id : Z) (r : Round) : SchedAct (bool * Round) :=
  q ← get_seq id;
  costs ← on_oracle (prompt_admission_costs q);
  match failing_budget (budgets r) (items costs) with
  | Some (name, need, free) =>
      action ← on_oracle prompt_admission_failure_action;
      if String.eqb action "defer" then
        modify (fun s => s <| admission_defer_warned ::= fun w => {[id]} ∪ w |>) ;;
        requeue_waiting id ;;
        mret (false, match deferred_failure r with
                     | None => r <| deferred_failure := Some (id, name, need, free) |>
                     | Some _ => r
                     end)
      else throw (RuntimeError "Insufficient KV cache slots to admit prompt.")
  | None =>
      modify (fun s => s <| admission_defer_warned ::= fun w => w ∖ {[id]} |>) ;;
      on_oracle (on_prompt_admitted q costs) ;;
      let hit := prefix_cache_hit_len (prefix_hit q) in
      when (0 <? hit) (set_seq id (fun q => q <| num_prefilled_tokens := hit |>)) ;;
      q ← get_seq id;
      logical_need ← on_oracle (prompt_logical_reservation_cost q);
      guard_not (prompt_logical_free r <? logical_need)
        (RuntimeError "Prompt admission budget mismatch after reservation check.") ;;
      mret (true, r <| budgets ::= pay_budgets (items costs) |>
                    <| prompt_logical_free ::= fun n => n - logical_need |>)
  end.

(** Setting the chunk and counting it. *)
Definition schedule_chunk (id : Z) (tokens : Z) (r : Round) : SchedAct Round :=
  set_seq id (fun q => q <| current_chunk_size := Some tokens |>) ;;
  q ← get_seq id;
  cost ← on_oracle (prefill_step_reservation_cost q tokens);
  set_seq id (fun q => q <| status := RUNNING |>) ;;
  mret (r <| batched_seqs ::= Z.succ |> <| batched_tokens ::= Z.add tokens |>
          <| step_free ::= fun n => Z.max 0 (n - cost) |> <| scheduled ::= fun l => l ++ [id] |>).

(** The failures recorded when a candidate cannot run in this step. *)
Definition note_blocked (c : SchedulerConfig) (mode : string) (id remaining candidate_free : Z) (r : Round) : Round :=
  let r1 :=
    if (candidate_free <=? 0) && (0 <? step_free r) && bool_decide (capacity_failure r = None)
    then r <| capacity_failure := Some (id, remaining, candidate_free, step_free r) |> else r in
  if String.eqb mode PREFILL_EXECUTION_FULL
  then r1 <| step_failure := Some (id, remaining, Z.min (max_num_batched_tokens c - batched_tokens r) candidate_free) |>
  else r1.

(** One turn of the inner loop after the pop; the flag asks to leave it. *)
Definition prefill_candidate (mode : string) (id : Z) (r : Round) : SchedAct (bool * Round) :=
  q ← get_seq id;
  remaining ← on_oracle (remaining_prefill_tokens q);
  candidate_free0 ← on_oracle (prefill_step_free_slots_for q);
  staging ← on_oracle (should_schedule_full_prefill q);
  let candidate_free :=
    if negb (String.eqb mode PREFILL_EXECUTION_RAW_OFFLOAD) && negb staging
    then Z.min (step_free r) candidate_free0 else candidate_free0 in
  guard_not (remaining <=? 0) (ValueError "a prefilled request is waiting") ;;
  c ← read sched_config;
  proposed ← lift (prefill_step_tokens c mode remaining (batched_tokens r) candidate_free);
  tokens ← respect_min_final_prefill_chunk id remaining proposed;
  if tokens <=? 0 then
    requeue_waiting id ;;
    mret (false, note_blocked c mode id remaining candidate_free r)
  else
    q ← get_seq id;
    admitted ← (if num_prefilled_tokens q =? 0 then admit_prompt id r else mret (true, r));
    let '(ok, r1) := admitted in
    if negb ok then mret (false, r1)
    else
      r2 ← schedule_chunk id tokens r1;
      mret (String.eqb mode PREFILL_EXECUTION_RAW_OFFLOAD, r2).

(** The [while] loop over one bucket; [budget] is [bucket_scan_budget]. *)
Fixpoint bucket_loop (budget : nat) (target : string * K) (margin : Z) (r : Round) : SchedAct Round :=
  match budget with
  | O => mret r
  | S budget' =>
      s ← read (fun s => s);
      if negb (can_continue_prefill_batch s target.1 margin r) then mret r
      else
        next ← pop_next_prefill_seq target;
        match next with
        | None => mret r
        | Some id =>
            step ← prefill_candidate target.1 id r;
            let '(stop, r') := step in
            if (stop : bool) then mret r' else bucket_loop budget' target margin r'
        end
  end.

(** The [for] loop over the buckets. *)
Fixpoint prefill_buckets (order : list (string * K)) (margin : Z) (r : Round) : SchedAct Round :=
  match order with
  | [] => mret r
  | target :: order' =>
      if negb (bool_decide (scheduled r = [])) then mret r
      else
        n ← read (fun s => length (waiting s));
        r' ← bucket_loop n target margin r;
        prefill_buckets order' margin r'
  end.

(** ** Preemption *)

Definition reset_checkpoint (id : Z) : SchedAct unit :=
  set_seq id (fun q => q <| decode_progress_checkpoint := num_completion_tokens q |>).

Definition preempt_decode_victim (victim : Z) (scheduled preempted : list Z) :
    SchedAct (list Z * bool * list Z) :=
  s ← read (fun s => s);
  q ← get_seq victim;
  let has_waiting_replay := any_replay s (waiting s) in
  let made_progress := decode_progress_checkpoint q <? num_completion_tokens q in
  guard_not ((0 <? num_completion_tokens q) && bool_decide (decoding s = [])
             && negb (has_waiting_replay && made_progress))
    (RuntimeError "KV cache is too small for the sole remaining decode request to make forward progress.") ;;
  set_seq victim (fun q => q <| status := WAITING |>) ;;
  (if 0 <? num_completion_tokens q then
     call_seq victim start_recompute_replay ;;
     modify (fun s => s <| total_recompute_replays ::= Z.succ |>)
   else set_seq victim (fun q => q <| num_prefilled_tokens := 0 |>)) ;;
  survivors ← read decoding;
  for_each survivors reset_checkpoint ;;
  q ← get_seq victim;
  hit ← on_oracle (oracle_clear_prefix_cache_hit q);
  set_seq victim (fun q => q <| prefix_hit := hit |>) ;;
  on_oracle (reset_prefill_execution_state victim) ;;
  requeue_waiting victim ;;
  modify (fun s => s <| decoding ::= fun l => scheduled ++ l |>) ;;
  modify (fun s => s <| total_preemptions ::= Z.succ |>) ;;
  mret ([], false, preempted ++ [victim]).

(** ** Decode *)

Inductive DecodeEnd :=
| Preempt (victim : Z)
| DecodeBatch (scheduled : list Z) (blocked : option Z).

Definition requeue_decoding (id : Z) : SchedAct unit := modify (fun s => s <| decoding ::= fun l => l ++ [id] |>).
(** [if blocked_decode_victim is None: blocked_decode_victim = seq] *)
Definition first_blocked (blocked : option Z) (id : Z) : option Z :=
  match blocked with None => Some id | Some _ => blocked end.

(** The decode loop; [budget] is [decode_scan_budget], [n] the batch size so far. *)
Fixpoint decode_loop (budget : nat) (target_is_long : bool) (n logical_free : Z)
    (scheduled : list Z) (blocked : option Z) : SchedAct DecodeEnd :=
  match budget with
  | O => mret (DecodeBatch scheduled blocked)
  | S budget' =>
      s ← read (fun s => s);
      if bool_decide (decoding s = []) || (max_decoding_seqs (sched_config s) <=? n)
      then mret (DecodeBatch scheduled blocked)
      else
        next ← pop_next_decoding_seq target_is_long;
        match next with
        | None => mret (DecodeBatch scheduled blocked)
        | Some id =>
            q ← get_seq id;
            own ← on_oracle (decode_step_free_slots_for q);
            cost ← on_oracle (decode_step_reservation_cost q);
            if Z.min logical_free own <? cost then
              if 0 <? logical_free then
                requeue_decoding id ;;
                decode_loop budget' target_is_long n logical_free scheduled (first_blocked blocked id)
              else if negb (bool_decide (scheduled = [])) then
                requeue_decoding id ;;
                mret (DecodeBatch scheduled (first_blocked blocked id))
              else mret (Preempt id)
            else decode_loop budget' target_is_long (n + 1) (logical_free - cost) (scheduled ++ [id]) blocked
        end
  end.

(** [decoding.remove(victim)] with [ValueError] ignored. *)
Definition drop_decoding (id : Z) : SchedAct unit :=
  modify (fun s => s <| decoding ::= fun l => default l (deque_remove id l) |>).

Fixpoint has_short (c : SchedulerConfig) (qs : list Sequence) : exc bool :=
  match qs with
  | [] => Ok false
  | q :: qs' => long ← is_long_text c q false; if negb long then Ok true else has_short c qs'
  end.

(** The end of a round in which nothing was scheduled. *)
Definition no_work (r : Round) : SchedAct (list Z * bool * list Z) :=
  s ← read (fun s => s);
  let none_decoding := bool_decide (decoding s = []) in
  guard_not (negb (bool_decide (step_failure r = None)) && none_decoding)
    (RuntimeError "Prefill candidate requires an atomic prefill step but cannot fit.") ;;
  guard_not (negb (bool_decide (capacity_failure r = None)) && none_decoding)
    (RuntimeError "No prefill candidate can use the remaining cache capacity.") ;;
  guard_not (negb (bool_decide (deferred_failure r = None)) && none_decoding)
    (RuntimeError "All prompt admissions were deferred and no runnable work remains.") ;;
  mret ([], false, []).

Definition decode_phase (logical_free : Z) (r : Round) : SchedAct (list Z * bool * list Z) :=
  s ← read (fun s => s);
  short ← lift (has_short (sched_config s) (seqs_of s (decoding s)));
  let target_is_long := if bool_decide (decoding s = []) then false else negb short in
  result ← decode_loop (length (decoding s)) target_is_long (batched_seqs r) logical_free [] None;
  match result with
  | Preempt victim => preempt_decode_victim victim [] []
  | DecodeBatch [] (Some victim) =>
      drop_decoding victim ;;
      preempt_decode_victim victim [] []
  | DecodeBatch [] None => no_work r
  | DecodeBatch scheduled blocked =>
      modify (fun s => s <| decoding ::= fun l => scheduled ++ l |>) ;;
      (match blocked with
       | None => mret tt
       | Some victim =>
           drop_decoding victim ;;
           modify (fun s => s <| decoding ::= cons victim |>)
       end) ;;
      mret (scheduled, false, [])
  end.

(** ** A scheduling round *)

(** The counters read at the start: the round, the margin and the decode slots. *)
Definition start_round : SchedAct (Round * Z * Z) :=
  physical_free ← on_oracle num_free_slots;
  s ← read (fun s => s);
  prefill ← (if bool_decide (waiting s = []) then mret (0, physical_free, ∅ : PyDict string Z, 0)
             else
               let chunk := engine_prefill_chunk_size (sched_config s) in
               reserved ← on_oracle (reserved_prefill_slots (seqs_of s (waiting s)) chunk);
               admission_free ← on_oracle prompt_admission_free_slots;
               step_free ← on_oracle prefill_step_free_slots;
               budgets ← on_oracle (prompt_admission_budgets (seqs_of s (waiting s)) chunk);
               margin ← on_oracle prefill_batched_tokens_margin;
               mret (Z.max 0 (admission_free - reserved), step_free, budgets, margin));
  let '(logical_free, step_free, budgets, margin) := prefill in
  decode_free ← on_oracle decode_step_free_slots;
  mret (mkRound [] 0 0 step_free logical_free budgets None None None, margin, Z.max 0 decode_free).

(** [_schedule_impl]: the batch, whether it is a prefill, and who was preempted. *)
Definition schedule : SchedAct (list Z * bool * list Z) :=
  start ← start_round;
  let '(r0, margin, decode_free) := start in
  s ← read (fun s => s);
  order ← (if bool_decide (waiting s = []) || (any_replay s (waiting s) && negb (bool_decide (decoding s = [])))
           then mret [] else prefill_mode_order);
  r ← prefill_buckets order margin r0;
  if negb (bool_decide (scheduled r = [])) then mret (scheduled r, true, [])
  else decode_phase decode_free r.

(** ** After the model step *)

(** One row of the zipped arguments: the request, its sampled token and logprobs. *)
Definition StepRow : Type := Z * Z * option PyFloat * option TopLogprobs.
Fixpoint zip_rows (ids tokens : list Z) (lps : list (option PyFloat)) (tops : list (option TopLogprobs)) : list StepRow :=
  match ids, tokens, lps, tops with
  | id :: ids', t :: tokens', lp :: lps', top :: tops' => (id, t, lp, top) :: zip_rows ids' tokens' lps' tops'
  | _, _, _, _ => []
  end.

(** Whether the appended token ends the generation. *)
Definition hits_end (c : SchedulerConfig) (q : Sequence) (token : Z) : bool :=
  (negb (ignore_eos (sampling q))
   && bool_decide (token ∈ resolve_eos_token_ids (eos_token_ids (sampling q)) (EosList (elements (engine_eos_token_ids c))) (Some (-1))))
  || (num_completion_tokens q =? max_tokens (sampling q)).

Definition postprocess_prefill (row : StepRow) : SchedAct unit :=
  let '(id, token, lp, top) := row in
  q ← get_seq id;
  match current_chunk_size q with
  | None => throw (TypeError "unsupported operand type(s) for +=: 'int' and 'NoneType'")
  | Some chunk =>
      set_seq id (fun q => q <| num_prefilled_tokens ::= fun n => n + chunk |>) ;;
      q ← get_seq id;
      if num_prefilled_tokens q <? num_prompt_tokens q then
        set_seq id (fun q => q <| status := WAITING |>) ;;
        modify (fun s => s <| waiting ::= cons id |>)
      else
        on_oracle (complete_prefill_execution q) ;;
        set_seq id (fun q => q <| status := RUNNING |>) ;;
        requeue_decoding id ;;
        if is_recompute_replay q then
          when (replay_decode_token_count q =? 0) (call_seq id finish_recompute_replay)
        else
          set_seq id (append_token token lp top) ;;
          q ← get_seq id;
          c ← read sched_config;
          when (hits_end c q token)
            (set_seq id (fun q => q <| status := FINISHED |>) ;; remove_decoding id)
  end.

Definition postprocess_decode (row : StepRow) : SchedAct unit :=
  let '(id, token, lp, top) := row in
  q ← get_seq id;
  if is_recompute_decode q then call_seq id advance_recompute_replay
  else
    set_seq id (append_token token lp top) ;;
    q ← get_seq id;
    c ← read sched_config;
    when (hits_end c q token)
      (set_seq id (fun q => q <| status := FINISHED |>) ;;
       queued ← read (fun s => bool_decide (id ∈ decoding s));
       when queued (remove_decoding id)).

(** [postprocess]; an absent or empty logprob list stands for [None]s. *)
Definition postprocess (ids tokens : list Z) (is_prefill : bool)
    (lps : list (option PyFloat)) (tops : list (option TopLogprobs)) : SchedAct unit :=
  let or_none {A} (l : list (option A)) := match l with [] => replicate (length ids) None | _ => l end in
  for_each (zip_rows ids tokens (or_none lps) (or_none tops))
    (if is_prefill then postprocess_prefill else postprocess_decode).
End scheduler.
