(* ===== verification/SchedulerFacts.v ===== *)
(** * The scheduler: queues and prefill batches

    What the deque helpers compute, which part of the scheduler an oracle call
    can change, and the invariant of the prefill phase of a round. *)

From stdpp Require Import base gmap list strings.
From Stdlib Require Import ZArith Lia.
From S2P Require Import Prelude PyDict PyBytes SamplingParams Sequence MethodRegistry Scheduler.

Lemma Forall2_impl_in {A B} (P Q : A -> B -> Prop) l k :
  Forall2 P l k -> (forall x y, x ∈ l -> P x y -> Q x y) -> Forall2 Q l k.
Proof.
  induction 1 as [|x y l k Hxy _ IH]; intros HPQ; [constructor|]. constructor.
  - apply HPQ; [by left|done].
  - apply IH. intros. apply HPQ; [by right|done].
Qed.

(** ** Deques *)

Lemma rotate_left {A} (l : list A) i : (0 < i < length l)%nat -> rotate (- Z.of_nat i) l = drop i l ++ take i l.
Proof.
  intros Hi. unfold rotate. destruct (Z.eqb_spec (Z.of_nat (length l)) 0); [lia|].
  assert ((- Z.of_nat i) mod Z.of_nat (length l) = Z.of_nat (length l) - Z.of_nat i) as ->.
  { symmetry. apply (Z.mod_unique_pos _ _ (-1)); lia. }
  replace (Z.to_nat (Z.of_nat (length l) - (Z.of_nat (length l) - Z.of_nat i))) with i by lia. done.
Qed.

Lemma rotate_back {A} (l1 l2 : list A) : l1 ++ l2 <> [] -> rotate (Z.of_nat (length l1)) (l2 ++ l1) = l1 ++ l2.
Proof.
  intros Hne. unfold rotate. rewrite length_app.
  destruct (Z.eqb_spec (Z.of_nat (length l2 + length l1)) 0).
  { destruct l1, l2; cbn in *; [done|lia..]. }
  destruct l2 as [|x l2].
  - cbn [length app Nat.add]. rewrite Z.mod_same by (cbn in *; lia). rewrite Z.sub_0_r, Nat2Z.id.
    by rewrite drop_ge, take_ge, app_nil_r by lia.
  - rewrite Z.mod_small by (cbn; lia).
    replace (Z.to_nat (Z.of_nat (length (x :: l2) + length l1) - Z.of_nat (length l1))) with (length (x :: l2)) by lia.
    by rewrite drop_app_length, take_app_length.
Qed.

(** Popping at an index removes exactly that element. *)
Lemma pop_at_spec {A} (l : list A) i x : l !! i = Some x -> pop_at i l = Some (x, take i l ++ drop (S i) l).
Proof.
  intros Hx. pose proof (lookup_lt_Some _ _ _ Hx). destruct i as [|i]; [by destruct l; simplify_eq/=|].
  unfold pop_at. rewrite rotate_left by lia. rewrite (drop_S _ _ _ Hx). cbn [app]. do 2 f_equal.
  destruct (decide (take (S i) l ++ drop (S (S i)) l = [])) as [E|Hne].
  - apply app_nil in E as [E _]. destruct l; [simpl in *; lia|]. done.
  - rewrite <- (rotate_back (take (S i) l) (drop (S (S i)) l) Hne). rewrite length_take. f_equal. lia.
Qed.

Lemma deque_remove_spec x l : x ∈ l -> exists l', deque_remove x l = Some l' /\ l ≡ₚ x :: l'.
Proof.
  induction l as [|y l IH]; intros Hx; [by apply elem_of_nil in Hx|]. cbn. case_decide as Hd.
  - subst. eauto.
  - apply elem_of_cons in Hx as [->|Hx]; [done|]. destruct (IH Hx) as (l' & -> & Hp).
    exists (y :: l'). split; [done|]. rewrite Hp. apply perm_swap.
Qed.

Section facts.
Context {M K : Type} `{EqDecision K} `{MemoryOracle M K}.
#[local] Abbreviation Sched := (Scheduler M).
#[local] Abbreviation SchedAct := (Act PyExn (Scheduler M)).
Implicit Types (s : Sched) (id : Z) (q : Sequence) (r : Round).

(** ** What an oracle call leaves alone *)

(** A request that has not finished. *)
Definition alive q : bool := negb (bool_decide (status q = FINISHED)).
Definition alive_at s id : Prop := exists q, objects s !! id = Some q /\ alive q = true.
(** What the prefill phase never changes of a request. *)
Definition ident q :=
  (seq_id q, token_ids q, num_tokens q, num_prompt_tokens q, recompute_replay_cursor q,
   decode_progress_checkpoint q, sampling q, alive q).
Definition idents s := ident <$> objects s.
Definition chunk_of s id : option (option Z) := current_chunk_size <$> objects s !! id.

Definition view s := (sched_config s, waiting s, decoding s, idents s, current_chunk_size <$> objects s).
Definition quiet s s' : Prop := view s' = view s.

Lemma quiet_trans s1 s2 s3 : quiet s1 s2 -> quiet s2 s3 -> quiet s1 s3.
Proof. unfold quiet. congruence. Qed.

Lemma quiet_fields s s' : quiet s s' ->
  sched_config s' = sched_config s /\ waiting s' = waiting s /\ decoding s' = decoding s /\
  idents s' = idents s /\ forall id, chunk_of s' id = chunk_of s id.
Proof.
  unfold quiet, view. intros [= E1 E2 E3 E4 E5]. split_and!; try done. intros id. unfold chunk_of.
  rewrite <- !lookup_fmap. by rewrite E5.
Qed.

Lemma fmap_alter_same {A} (g : Sequence -> A) f (m : gmap Z Sequence) id :
  (forall q, m !! id = Some q -> g (f q) = g q) -> g <$> alter f id m = g <$> m.
Proof.
  intros Hg. apply map_eq. intros i. rewrite !lookup_fmap, lookup_alter.
  case_decide; [|done]. subst. destruct (m !! i) as [q|] eqn:E; cbn; [|done]. by rewrite Hg.
Qed.

Lemma set_seq_quiet s id f :
  (forall q, objects s !! id = Some q -> ident (f q) = ident q) ->
  (forall q, current_chunk_size (f q) = current_chunk_size q) ->
  quiet s (s <| objects ::= alter f id |>).
Proof.
  intros H1 H2. unfold quiet, view, idents. cbn. rewrite (fmap_alter_same ident f _ id H1).
  by rewrite (fmap_alter_same current_chunk_size f _ id (fun q _ => H2 q)).
Qed.
Lemma alive_at_ext s s' id : idents s' = idents s -> alive_at s id -> alive_at s' id.
Proof.
  intros E (q & Hq & Ha). assert (idents s' !! id = idents s !! id) as Hl by (by rewrite E). unfold idents in Hl.
  rewrite !lookup_fmap, Hq in Hl. destruct (objects s' !! id) as [q'|] eqn:Hq'; cbn in Hl; [|done].
  exists q'. split; [done|]. injection Hl as _ _ _ _ _ _ _ Hl. by rewrite Hl.
Qed.

Lemma wpo_oracle {A} (m : Act PyExn M A) (P : A -> Sched -> Prop) s :
  (forall a m', P a (s <| oracle := m' |>)) -> wpo (on_oracle m) P s.
Proof. intros HP. unfold wpo, wp, on_oracle. destruct (m (oracle s)) as [[a|e] m']; cbn; [apply HP|done]. Qed.

Lemma wpo_get_seq id (P : Sequence -> Sched -> Prop) s :
  (forall q, objects s !! id = Some q -> P q s) -> wpo (get_seq id) P s.
Proof. intros HP. unfold wpo, wp, get_seq. destruct (objects s !! id) as [q|]; cbn; [by apply HP|done]. Qed.

Lemma wpo_set_seq id f (P : unit -> Sched -> Prop) s :
  P tt (s <| objects ::= alter f id |>) -> wpo (set_seq id f) P s.
Proof. done. Qed.

Lemma refresh_quiet id s : wpo (refresh_prefill_metadata id) (fun _ s' => quiet s s') s.
Proof.
  unfold refresh_prefill_metadata. apply wpo_bind, wpo_get_seq. intros q _.
  repeat wpo_step; [|done]. apply wpo_oracle. intros hit m. apply wpo_set_seq.
  apply (quiet_trans s (s <| oracle := m |>)); [done|]. by apply set_seq_quiet.
Qed.

Lemma prefill_mode_quiet id s : wpo (prefill_mode_of id) (fun _ s' => quiet s s') s.
Proof.
  unfold prefill_mode_of. apply wpo_bind, wpo_get_seq. intros q _.
  apply wpo_bind, wpo_oracle. intros mode m. by wpo_step.
Qed.

Lemma batch_key_quiet id s : wpo (prefill_batch_key id) (fun _ s' => quiet s s') s.
Proof.
  unfold prefill_batch_key. apply wpo_bind. eapply wpo_mono; [apply prefill_mode_quiet|]. cbv beta.
  intros mode s1 Hq. apply wpo_bind, wpo_get_seq. intros q _. apply wpo_bind, wpo_oracle. intros k m.
  by repeat wpo_step.
Qed.

Lemma mode_order_quiet pending ids modes s : wpo (mode_order_loop pending ids modes) (fun _ s' => quiet s s') s.
Proof.
  revert modes s. induction ids as [|id ids IH]; intros modes s; cbn [mode_order_loop]; [by wpo_step|].
  apply wpo_bind, wpo_get_seq. intros q _. wpo_step; [apply IH|].
  apply wpo_bind. eapply wpo_mono; [apply refresh_quiet|]. cbv beta. intros [] s1 H1.
  apply wpo_bind. eapply wpo_mono; [apply batch_key_quiet|]. cbv beta. intros key s2 H2.
  eapply wpo_mono; [apply IH|]. cbv beta. intros l s3 H3. by eapply quiet_trans; [|eapply quiet_trans].
Qed.

(** ** Replays *)

Definition is_replay s id : bool :=
  match objects s !! id with Some q => is_recompute_replay q | None => false end.

Lemma any_replay_existsb s ids : any_replay s ids = existsb (is_replay s) ids.
Proof.
  unfold any_replay, seqs_of, is_replay. induction ids as [|id ids IH]; cbn; [done|].
  destruct (objects s !! id); cbn; [by rewrite IH|done].
Qed.

Lemma is_replay_ext s s' id : idents s' = idents s -> is_replay s' id = is_replay s id.
Proof.
  intros E. assert (idents s' !! id = idents s !! id) as Hl by (by rewrite E). unfold idents in Hl.
  rewrite !lookup_fmap in Hl. unfold is_replay.
  destruct (objects s' !! id) as [q'|], (objects s !! id) as [q|]; cbn in Hl; try done.
  unfold is_recompute_replay. by injection Hl as _ _ _ _ -> _ _ _.
Qed.

Lemma any_replay_ext s s' ids : idents s' = idents s -> any_replay s' ids = any_replay s ids.
Proof.
  intros E. rewrite !any_replay_existsb. induction ids as [|id ids IH]; cbn; [done|].
  by rewrite IH, (is_replay_ext s s').
Qed.

Lemma any_replay_true s ids : any_replay s ids = true <-> exists id, id ∈ ids /\ is_replay s id = true.
Proof. rewrite any_replay_existsb, existsb_exists. by setoid_rewrite list_elem_of_In. Qed.

Lemma any_replay_false s ids : any_replay s ids = false <-> forall id, id ∈ ids -> is_replay s id = false.
Proof.
  rewrite <- not_true_iff_false, any_replay_true. split.
  - intros Hn id Hid. apply not_true_iff_false. intros Hr. apply Hn. eauto.
  - intros Hall (id & Hid & Hr). by rewrite Hall in Hr.
Qed.

Lemma any_replay_perm s l l' : l ≡ₚ l' -> any_replay s l = any_replay s l'.
Proof.
  intros Hp. destruct (any_replay s l') eqn:E.
  - apply any_replay_true in E as (id & Hid & Hr). apply any_replay_true. exists id. by rewrite Hp.
  - apply any_replay_false. intros id. rewrite Hp. by apply any_replay_false.
Qed.

(** ** Popping from the queues *)

Lemma find_prefill_spec pending target i ids s :
  wpo (find_prefill pending target i ids) (fun found s' => quiet s s' /\
    forall k, found = Some k -> (i <= k)%nat /\ exists id, ids !! (k - i)%nat = Some id /\
      (pending = true -> is_replay s id = true)) s.
Proof.
  revert i s. induction ids as [|id ids IH]; intros i s; cbn [find_prefill]; [by wpo_step|].
  apply wpo_bind, wpo_get_seq. intros q Hq.
  assert (forall s1, quiet s s1 -> wpo (find_prefill pending target (S i) ids) (fun found s' => quiet s s' /\
    forall k, found = Some k -> (i <= k)%nat /\ exists id', (id :: ids) !! (k - i)%nat = Some id' /\
      (pending = true -> is_replay s id' = true)) s1) as Hrest.
  { intros s1 H1. eapply wpo_mono; [apply IH|]. cbv beta. intros found s2 [H2 Hf].
    split; [by eapply quiet_trans|]. intros k Hk. destruct (Hf k Hk) as (Hle & id' & Hid & Hr).
    split; [lia|]. exists id'. replace (k - i)%nat with (S (k - S i)) by lia. split; [done|].
    intros Hp. rewrite <- (Hr Hp). symmetry. apply is_replay_ext. by apply quiet_fields in H1 as (_ & _ & _ & ? & _). }
  wpo_step; [by apply Hrest|]. bool_to_prop.
  apply wpo_bind. eapply wpo_mono; [apply batch_key_quiet|]. cbv beta. intros key s1 H1.
  case_decide; [|by apply Hrest]. apply wpo_ret. split; [done|]. intros k [= <-]. split; [lia|].
  exists id. rewrite Nat.sub_diag. split; [done|]. intros Hp. unfold is_replay. rewrite Hq.
  destruct (is_recompute_replay q); [done|]. by rewrite Hp in *.
Qed.

(** [id] was taken out of the waiting queue and nothing else changed. *)
Definition popped s id s' : Prop :=
  exists s1 l1 l2, quiet s s1 /\ waiting s = l1 ++ id :: l2 /\ s' = s1 <| waiting := l1 ++ l2 |>.

Lemma pop_next_prefill_spec target s :
  wpo (pop_next_prefill_seq target) (fun found s' =>
    match found with
    | None => quiet s s'
    | Some id => popped s id s' /\ (any_replay s (waiting s) = true -> is_replay s id = true)
    end) s.
Proof.
  unfold pop_next_prefill_seq. apply wpo_bind, wpo_read. cbv beta iota.
  apply wpo_bind. eapply wpo_mono; [apply find_prefill_spec|]. cbv beta. intros [k|] s1 [H1 Hf]; [|by wpo_step].
  destruct (Hf k eq_refl) as (_ & id & Hid & Hr). rewrite Nat.sub_0_r in Hid.
  destruct (quiet_fields _ _ H1) as (_ & Hw & _). apply wpo_bind. unfold wpo, wp, pop_waiting_at.
  rewrite Hw, (pop_at_spec _ _ _ Hid). cbn. split; [|done].
  exists s1, (take k (waiting s)), (drop (S k) (waiting s)). split_and!; [done| |done].
  by rewrite <- (drop_S _ _ _ Hid), take_drop.
Qed.

(** ** The prefill phase *)

(** [extra] is a request that was popped and not yet placed. *)
Record prefill_inv (s0 s : Sched) (extra : list Z) (r : Round) : Prop := {
  pi_config : sched_config s = sched_config s0;
  pi_decoding : decoding s = decoding s0;
  pi_idents : idents s = idents s0;
  pi_perm : waiting s ++ extra ++ scheduled r ≡ₚ waiting s0;
  pi_count : batched_seqs r = Z.of_nat (length (scheduled r));
  pi_chunks : exists cs, Forall2 (fun id c => chunk_of s id = Some (Some c) /\ 0 < c) (scheduled r) cs /\
    batched_tokens r = sumZ cs;
  pi_limits : scheduled r <> [] ->
    batched_tokens r <= max_num_batched_tokens (sched_config s0) /\
    batched_seqs r <= Z.max 1 (max_num_seqs_in_batch (sched_config s0)) /\
    Z.of_nat (length (decoding s0)) < max_decoding_seqs (sched_config s0);
  pi_replay : any_replay s0 (waiting s0) = true ->
    (length (scheduled r) <= 1)%nat /\ forall id, id ∈ scheduled r -> is_replay s0 id = true;
}.

Lemma prefill_inv_quiet s0 s s' extra r : prefill_inv s0 s extra r -> quiet s s' -> prefill_inv s0 s' extra r.
Proof.
  intros [H1 H2 H3 H4 H5 H6 H7 H8] (E1 & E2 & E3 & E4 & E5)%quiet_fields. split; try congruence; try done.
  destruct H6 as (cs & Hcs & Hsum). exists cs. split; [|done].
  eapply Forall2_impl; [exact Hcs|]. cbn. intros id c. by rewrite E5.
Qed.

(** The failures a round records are not part of the invariant. *)
Definition same_round r r' : Prop :=
  scheduled r' = scheduled r /\ batched_seqs r' = batched_seqs r /\ batched_tokens r' = batched_tokens r.
Lemma prefill_inv_round s0 s extra r r' : prefill_inv s0 s extra r -> same_round r r' -> prefill_inv s0 s extra r'.
Proof.
  intros [H1 H2 H3 H4 H5 H6 H7 H8] (E1 & E2 & E3). split; rewrite ?E1, ?E2, ?E3; done.
Qed.

Lemma prefill_inv_pop s0 s id s' r : prefill_inv s0 s [] r -> popped s id s' -> prefill_inv s0 s' [id] r.
Proof.
  intros Hi (s1 & l1 & l2 & Hq & Hw & ->). pose proof (prefill_inv_quiet s0 s s1 [] r Hi Hq) as [H1 H2 H3 H4 H5 H6 H7 H8].
  split; try done. cbn. rewrite <- H4. destruct (quiet_fields _ _ Hq) as (_ & -> & _). rewrite Hw. cbn.
  rewrite <- !app_assoc. cbn. f_equiv. by rewrite Permutation_middle.
Qed.

Lemma prefill_inv_requeue s0 s id r : prefill_inv s0 s [id] r ->
  prefill_inv s0 (s <| waiting ::= fun l => l ++ [id] |>) [] r.
Proof.
  intros [H1 H2 H3 H4 H5 H6 H7 H8]. split; try done. cbn. rewrite <- H4. by rewrite <- app_assoc.
Qed.

(** *** One candidate *)

Lemma respect_min_final_spec id remaining proposed s :
  wpo (respect_min_final_prefill_chunk id remaining proposed) (fun t s' => quiet s s' /\ t <= Z.max 0 proposed) s.
Proof.
  unfold respect_min_final_prefill_chunk. apply wpo_bind, wpo_get_seq. intros q _.
  apply wpo_bind, wpo_oracle. intros n m. repeat wpo_step. split; [done|].
  destruct ((n =? 0) || (remaining - proposed <=? 0) || (n <=? remaining - proposed)) eqn:E; [lia|].
  bool_to_prop. lia.
Qed.

Lemma prefill_step_tokens_le c mode remaining batched free t :
  prefill_step_tokens c mode remaining batched free = Ok t -> t <= Z.max 0 (max_num_batched_tokens c - batched).
Proof.
  unfold prefill_step_tokens. destruct (String.eqb mode _).
  - intros [= <-]. destruct (Z.leb_spec remaining (Z.min (max_num_batched_tokens c - batched) free)); lia.
  - destruct (bool_decide _); [|done]. intros [= <-]. lia.
Qed.

Lemma admit_prompt_inv s0 s id r : prefill_inv s0 s [id] r ->
  wpo (admit_prompt id r) (fun a s' => same_round r a.2 /\ prefill_inv s0 s' (if a.1 then [id] else []) a.2) s.
Proof.
  intros Hi. unfold admit_prompt. apply wpo_bind, wpo_get_seq. intros q _.
  apply wpo_bind, wpo_oracle. intros costs m. destruct (failing_budget _ _) as [[[name need] free]|].
  - apply wpo_bind, wpo_oracle. intros action m'. wpo_step; [|by wpo_step].
    repeat wpo_step. unfold requeue_waiting. repeat wpo_step. cbn [fst snd].
    assert (same_round r (match deferred_failure r with
      | Some _ => r | None => r <| deferred_failure := Some (id, name, need, free) |> end)) as Hs by (by destruct (deferred_failure r)).
    split; [done|]. eapply prefill_inv_round; [|exact Hs]. apply prefill_inv_requeue.
    by apply (prefill_inv_quiet s0 s).
  - wpo_step. wpo_step. apply wpo_bind, wpo_oracle. intros [] m'. apply wpo_bind.
    match goal with |- wpo _ _ ?x => set (s1 := x) end.
    assert (quiet s s1) as Hq1 by done.
    eapply (wpo_mono _ (fun _ s' => quiet s s')).
    { wpo_step; [|done]. apply wpo_set_seq. eapply quiet_trans; [exact Hq1|]. by apply set_seq_quiet. }
    cbv beta. intros [] s2 Hq2. apply wpo_bind, wpo_get_seq. intros q2 _.
    apply wpo_bind, wpo_oracle. intros n m2. repeat wpo_step. cbn [fst snd].
    split; [done|]. apply (prefill_inv_round s0 _ _ r); [|by split_and!]. apply (prefill_inv_quiet s0 s); [exact Hi|exact Hq2].
Qed.

(** The tests the loop made before it popped the candidate. *)
Definition room s0 r : Prop :=
  (forall id, id ∈ scheduled r -> is_replay s0 id = false) /\
  Z.of_nat (length (decoding s0)) < max_decoding_seqs (sched_config s0) /\
  (scheduled r = [] \/ batched_seqs r < max_num_seqs_in_batch (sched_config s0)).

Lemma chunk_of_alter s f id id' :
  chunk_of (s <| objects ::= alter f id |>) id' =
    if decide (id = id') then (fun q => current_chunk_size (f q)) <$> objects s !! id' else chunk_of s id'.
Proof.
  unfold chunk_of. cbn. rewrite lookup_alter. case_decide; [|done]. subst.
  by destruct (objects s !! id').
Qed.

Lemma schedule_chunk_inv s0 s id tokens r :
  NoDup (waiting s0) -> Forall (alive_at s0) (waiting s0) -> prefill_inv s0 s [id] r -> room s0 r ->
  (any_replay s0 (waiting s0) = true -> is_replay s0 id = true) ->
  0 < tokens -> tokens <= max_num_batched_tokens (sched_config s0) - batched_tokens r ->
  wpo (schedule_chunk id tokens r) (fun r' s' => prefill_inv s0 s' [] r') s.
Proof.
  intros Hnd Hal Hi (Hroom1 & Hroom2 & Hroom3) Hrep Htok Hmax. unfold schedule_chunk.
  apply wpo_bind, wpo_set_seq. set (s1 := s <| objects ::= _ |>).
  apply wpo_bind, wpo_get_seq. intros q Hq. apply wpo_bind, wpo_oracle. intros cost m.
  apply wpo_bind, wpo_set_seq, wpo_ret.
  match goal with |- prefill_inv _ ?x _ _ => set (s2 := x) end.
  assert (alive q = true) as Haq.
  { assert (id ∈ waiting s0) as Hin by (rewrite <- (pi_perm s0 s [id] r Hi); set_solver).
    apply (proj1 (Forall_forall _ _) Hal) in Hin. apply (alive_at_ext s0 s) in Hin; [|apply Hi].
    destruct Hin as (q0 & Hq0 & Ha). unfold s1 in Hq. cbn in Hq. rewrite lookup_alter, decide_True, Hq0 in Hq by done.
    by injection Hq as <-. }
  assert (quiet s1 s2) as Hq2.
  { apply (quiet_trans s1 (s1 <| oracle := m |>)); [done|]. apply set_seq_quiet; [|done]. cbn. intros q' Hq'.
    change (objects s1 !! id = Some q') in Hq'. rewrite Hq in Hq'. injection Hq' as <-. unfold ident, alive in *. cbn. by rewrite Haq. }
  apply (prefill_inv_quiet s0 s1); [|done]. clear s2 Hq2.
  destruct Hi as [H1 H2 H3 H4 H5 H6 H7 H8].
  assert (id ∉ scheduled r) as Hid.
  { rewrite <- H4 in Hnd. apply NoDup_app in Hnd as (_ & _ & Hnd). cbn in Hnd. by apply NoDup_cons in Hnd as [? _]. }
  split; cbn; try done.
  - rewrite <- H3. unfold idents, s1. cbn. by apply fmap_alter_same.
  - rewrite <- H4. cbn. by rewrite <- Permutation_cons_append.
  - rewrite H5, length_app. cbn. lia.
  - destruct H6 as (cs & Hcs & Hsum). exists (cs ++ [tokens]). split.
    + apply Forall2_app; [|apply Forall2_cons; split; [|constructor]].
      * eapply Forall2_impl_in; [exact Hcs|]. intros id' c Hin [Hc ?]. split; [|done].
        unfold s1. rewrite chunk_of_alter. by case_decide; [subst|].
      * split; [|done]. unfold s1. rewrite chunk_of_alter, decide_True by done.
        unfold s1 in Hq. cbn in Hq. rewrite lookup_alter, decide_True in Hq by done.
        by destruct (objects s !! id).
    + rewrite sumZ_app, Hsum. cbn. lia.
  - intros _. split_and!; [lia| |done]. destruct Hroom3 as [E|?]; [rewrite H5, E; cbn; lia|lia].
  - intros Hany. destruct (H8 Hany) as [_ Hall].
    assert (scheduled r = []) as ->.
    { destruct (scheduled r) as [|x l]; [done|]. specialize (Hall x ltac:(by left)).
      by rewrite Hroom1 in Hall by (by left). }
    split; [done|]. intros id' ->%list_elem_of_singleton. by apply Hrep.
Qed.

Lemma prefill_candidate_inv s0 s mode id r :
  NoDup (waiting s0) -> Forall (alive_at s0) (waiting s0) -> prefill_inv s0 s [id] r -> room s0 r ->
  (any_replay s0 (waiting s0) = true -> is_replay s0 id = true) ->
  wpo (prefill_candidate mode id r) (fun a s' => prefill_inv s0 s' [] a.2) s.
Proof.
  intros Hnd Hal Hi Hroom Hrep. unfold prefill_candidate. apply wpo_bind, wpo_get_seq. intros q _.
  apply wpo_bind, wpo_oracle. intros remaining m1. apply wpo_bind, wpo_oracle. intros cf m2.
  apply wpo_bind, wpo_oracle. intros staging m3. cbv zeta.
  do 2 wpo_step. do 2 wpo_step.
  match goal with |- wpo _ _ ?x => set (s1 := x) end. assert (quiet s s1) as Hq1 by done. clearbody s1.
  apply wpo_bind, wpo_lift. intros proposed Hp. apply wpo_bind.
  eapply wpo_mono; [apply respect_min_final_spec|]. cbv beta. intros tokens s2 [Hq2 Hle].
  assert (prefill_inv s0 s2 [id] r) as Hi2 by (apply (prefill_inv_quiet s0 s); [done|by eapply quiet_trans]).
  destruct (quiet_fields _ _ Hq1) as (Ecfg & _). wpo_step.
  - unfold requeue_waiting. repeat wpo_step. eapply prefill_inv_round; [by apply prefill_inv_requeue|].
    cbn [snd]. unfold note_blocked. repeat (case_match; cbn); by split_and!.
  - bool_to_prop. apply wpo_bind, wpo_get_seq. intros q2 _. apply wpo_bind.
    eapply (wpo_mono _ (fun (a : bool * Round) s' => same_round r a.2 /\ prefill_inv s0 s' (if a.1 then [id] else []) a.2)).
    { wpo_step; [by apply admit_prompt_inv|]. wpo_step. by split. }
    cbv beta. intros [ok r1] s3 [Hsame Hi3]. cbn [fst snd] in *.
    destruct ok; cbn [negb]; [|by wpo_step]. destruct Hsame as (E1 & E2 & E3).
    apply wpo_bind. eapply wpo_mono; [apply (schedule_chunk_inv s0)|].
    + done. + done. + done. + destruct Hroom as (R1 & R2 & R3). split_and!; rewrite ?E1, ?E2; done. + done. + lia.
    + apply prefill_step_tokens_le in Hp. rewrite E3, <- (pi_config s0 s [id] r Hi), <- Ecfg. lia.
    + cbv beta. intros r2 s4 Hi4. by wpo_step.
Qed.

Lemma can_continue_room s0 s mode margin r : prefill_inv s0 s [] r ->
  can_continue_prefill_batch s mode margin r = true -> room s0 r.
Proof.
  intros [H1 H2 H3 H4 H5 H6 H7 H8]. unfold can_continue_prefill_batch. case_bool_decide; [done|].
  destruct (any_replay s (scheduled r)) eqn:Hr; [done|]. rewrite H1, H2.
  destruct (Z.leb_spec (max_decoding_seqs (sched_config s0)) (Z.of_nat (length (decoding s0)))); [done|].
  intros Hm. split_and!; [|lia|].
  - intros id Hid. rewrite <- (is_replay_ext s0 s id H3). by apply (proj1 (any_replay_false s _) Hr).
  - destruct (String.eqb mode _); bool_to_prop; [by left|right; lia].
Qed.

Lemma bucket_loop_inv s0 budget target margin r s :
  NoDup (waiting s0) -> Forall (alive_at s0) (waiting s0) -> prefill_inv s0 s [] r ->
  wpo (bucket_loop budget target margin r) (fun r' s' => prefill_inv s0 s' [] r') s.
Proof.
  intros Hnd Hal. revert r s. induction budget as [|budget IH]; intros r s Hi; cbn [bucket_loop]; [by wpo_step|].
  do 2 wpo_step. apply wpo_if; intros Hcan; [by wpo_step|]. apply negb_false_iff in Hcan.
  pose proof (can_continue_room s0 s _ _ _ Hi Hcan) as Hroom.
  apply wpo_bind. eapply wpo_mono; [apply pop_next_prefill_spec|]. cbv beta. intros [id|] s1; [|by intros Hq; apply wpo_ret, (prefill_inv_quiet s0 s)].
  intros [Hpop Hrep]. pose proof (prefill_inv_pop s0 s id s1 r Hi Hpop) as Hi1.
  apply wpo_bind. eapply wpo_mono; [apply (prefill_candidate_inv s0)|].
  - done. - done. - done. - done.
  - intros Hany. rewrite <- (is_replay_ext s0 s id (pi_idents s0 s [] r Hi)). apply Hrep.
    rewrite (any_replay_ext s0 s _ (pi_idents s0 s [] r Hi)), <- Hany.
    destruct (pi_replay s0 s [] r Hi Hany) as [_ Hall]. destruct Hroom as (R1 & _ & _).
    assert (scheduled r = []) as E.
    { destruct (scheduled r) as [|x l]; [done|]. specialize (Hall x ltac:(by left)). by rewrite R1 in Hall by (by left). }
    apply any_replay_perm. pose proof (pi_perm s0 s [] r Hi) as Hp. rewrite E, !app_nil_r in Hp. exact Hp.
  - cbv beta. intros [stop r'] s2 Hi2. cbn [snd] in Hi2. wpo_step; [by wpo_step|]. by apply IH.
Qed.

Lemma prefill_buckets_inv s0 order margin r s :
  NoDup (waiting s0) -> Forall (alive_at s0) (waiting s0) -> prefill_inv s0 s [] r ->
  wpo (prefill_buckets order margin r) (fun r' s' => prefill_inv s0 s' [] r') s.
Proof.
  intros Hnd Hal. revert r s. induction order as [|target order IH]; intros r s Hi; cbn [prefill_buckets]; [by wpo_step|].
  wpo_step; [by wpo_step|]. do 2 wpo_step. apply wpo_bind.
  eapply wpo_mono; [by apply (bucket_loop_inv s0)|]. cbv beta. intros r' s' Hi'. by apply IH.
Qed.
End facts.
