(* ===== verification/SchedulerDecode.v ===== *)
(** * The scheduler: decode batches and preemption

    Who owns the live requests, what the decode loop and a preemption do with
    the queues, and when they make progress. *)

From stdpp Require Import base gmap list strings.
From Stdlib Require Import ZArith Lia.
From S2P Require Import Prelude PyDict PyBytes SamplingParams Sequence MethodRegistry Scheduler SchedulerFacts.

Definition sole_decode_error : PyExn :=
  RuntimeError "KV cache is too small for the sole remaining decode request to make forward progress.".

Section decode.
Context {M K : Type} `{EqDecision K} `{MemoryOracle M K}.
#[local] Abbreviation Sched := (Scheduler M).
#[local] Abbreviation SchedAct := (Act PyExn (Scheduler M)).
Implicit Types (s : Sched) (id : Z) (q : Sequence).

(** The oracle methods a decode round calls return. *)
Definition returns {A} (m : Act PyExn M A) : Prop := forall x e y, m x <> (Raise e, y).
Record decode_total : Prop := {
  dt_free : returns num_free_slots;
  dt_decode : returns decode_step_free_slots;
  dt_own q : returns (decode_step_free_slots_for q);
  dt_cost q : returns (decode_step_reservation_cost q);
  dt_clear q : returns (oracle_clear_prefix_cache_hit q);
  dt_reset id : returns (reset_prefill_execution_state id);
}.

(** Exceptions other than those of a partial oracle. *)
Definition only (X : PyExn -> Prop) (e : PyExn) : Prop := decode_total -> X e.

Lemma wpe_oracle {A} X (m : Act PyExn M A) (P : A -> Sched -> Prop) s :
  (decode_total -> returns m) -> (forall a m', P a (s <| oracle := m' |>)) -> wpe (only X) (on_oracle m) P s.
Proof.
  intros Ht HP. unfold wpe, wp, on_oracle. destruct (m (oracle s)) as [[a|e] m'] eqn:E; cbn; [apply HP|].
  intros Hd. by apply Ht in E.
Qed.
Lemma wpe_get_seq (X : PyExn -> Prop) id (P : Sequence -> Sched -> Prop) s :
  is_Some (objects s !! id) -> (forall q, objects s !! id = Some q -> P q s) -> wpe X (get_seq id) P s.
Proof. intros [q Hq] HP. unfold wpe, wp, get_seq. rewrite Hq. cbn. by apply HP. Qed.
Lemma wpe_set_seq (X : PyExn -> Prop) id f (P : unit -> Sched -> Prop) s :
  P tt (s <| objects ::= alter f id |>) -> wpe X (set_seq id f) P s.
Proof. done. Qed.

(** ** Ownership *)

Definition alives s : gmap Z bool := alive <$> objects s.

(** [l] lists every unfinished request once. *)
Definition owns s (l : list Z) : Prop := NoDup l /\ forall id, id ∈ l <-> alives s !! id = Some true.

Lemma owns_perm s l l' : l ≡ₚ l' -> owns s l -> owns s l'.
Proof. intros Hp [Hnd Ho]. split; [by rewrite <- Hp|]. intros id. by rewrite <- Hp. Qed.
Lemma owns_alives s s' l : alives s' = alives s -> owns s l -> owns s' l.
Proof. unfold owns. by intros ->. Qed.
Lemma owns_alive s l id : owns s l -> id ∈ l -> exists q, objects s !! id = Some q /\ alive q = true.
Proof. intros [_ Ho] Hid. apply Ho in Hid. unfold alives in Hid. by apply lookup_fmap_Some in Hid as (q & ? & ?); eauto. Qed.
Lemma owns_stored s l id : owns s l -> id ∈ l -> is_Some (objects s !! id).
Proof. intros Ho Hid. destruct (owns_alive s l id Ho Hid) as (q & Hq & _). eauto. Qed.

Lemma alives_idents s s' : idents s' = idents s -> alives s' = alives s.
Proof.
  intros E. apply map_eq. intros id. assert (idents s' !! id = idents s !! id) as Hl by (by rewrite E).
  unfold idents in Hl. unfold alives. rewrite !lookup_fmap in *.
  destruct (objects s' !! id), (objects s !! id); cbn in *; try done. by injection Hl as _ _ _ _ _ _ _ ->.
Qed.

Lemma alives_alter s id f :
  (forall q, objects s !! id = Some q -> alive (f q) = alive q) -> alives (s <| objects ::= alter f id |>) = alives s.
Proof. intros Hf. unfold alives. cbn. by apply fmap_alter_same. Qed.

(** ** Choosing the next decode request *)

Definition is_long s id : option bool :=
  q ← objects s !! id;
  match is_long_text (sched_config s) q false with Ok b => Some b | Raise _ => None end.

Lemma is_long_text_decode c q : exists b, is_long_text c q false = Ok b.
Proof. unfold is_long_text. destruct (String.eqb _ _); eauto. Qed.

Lemma find_decoding_spec X target i ids s :
  (forall id, id ∈ ids -> is_Some (objects s !! id)) ->
  wpe X (find_decoding target i ids) (fun found s' => s' = s /\
    match found with
    | Some k => (i <= k)%nat /\ exists id, ids !! (k - i)%nat = Some id
    | None => forall id, id ∈ ids -> is_long s id <> Some target
    end) s.
Proof.
  revert i. induction ids as [|id ids IH]; intros i Hst; cbn [find_decoding].
  { wpe_step. split; [done|]. by intros id ?%elem_of_nil. }
  apply wpe_bind, wpe_get_seq; [apply Hst; by left|]. intros q Hq. do 2 wpe_step.
  apply wpe_bind, wpe_lift; [|by destruct (is_long_text_decode (sched_config s) q) as [? ->]].
  intros b Hb. wpe_step.
  - wpe_step. split; [done|]. split; [lia|]. rewrite Nat.sub_diag. by exists id.
  - eapply wpe_mono; [apply IH; intros; apply Hst; by right|]. cbv beta. intros [k|] s' [-> Hf].
    + destruct Hf as (Hle & id' & Hid'). split; [done|]. split; [lia|]. exists id'.
      by replace (k - i)%nat with (S (k - S i)) by lia.
    + split; [done|]. intros id' [->|Hin]%elem_of_cons; [|by apply Hf].
      unfold is_long. rewrite Hq. cbn. rewrite Hb. intros [= ->]. by rewrite eqb_reflx in *.
Qed.

Lemma pop_next_decoding_spec X target s :
  (forall id, id ∈ decoding s -> is_Some (objects s !! id)) ->
  wpe X (pop_next_decoding_seq target) (fun found s' =>
    match found with
    | Some id => exists l1 l2, decoding s = l1 ++ id :: l2 /\ s' = s <| decoding := l1 ++ l2 |>
    | None => s' = s /\ forall id, id ∈ decoding s -> is_long s id <> Some target
    end) s.
Proof.
  intros Hst. unfold pop_next_decoding_seq. do 2 wpe_step. apply wpe_bind.
  eapply wpe_mono; [by apply find_decoding_spec|]. cbv beta. intros [k|] s1 [-> Hf]; [|by wpe_step].
  destruct Hf as (_ & id & Hid). rewrite Nat.sub_0_r in Hid. apply wpe_bind.
  unfold wpe, wp, pop_decoding_at. rewrite (pop_at_spec _ _ _ Hid). cbn.
  exists (take k (decoding s)), (drop (S k) (decoding s)). split; [|done].
  by rewrite <- (drop_S _ _ _ Hid), take_drop.
Qed.

(** The class of the batch: long only when every decoding request is long. *)
Lemma has_short_spec s ids : (forall id, id ∈ ids -> is_Some (objects s !! id)) ->
  exists b, has_short (sched_config s) (seqs_of s ids) = Ok b /\
    (b = true -> exists id, id ∈ ids /\ is_long s id = Some false) /\
    (b = false -> forall id, id ∈ ids -> is_long s id = Some true).
Proof.
  induction ids as [|id ids IH]; intros Hst; cbn.
  { exists false. split_and!; try done. by intros _ id ?%elem_of_nil. }
  destruct (Hst id ltac:(by left)) as [q Hq]. rewrite Hq.
  change (omap (fun id => objects s !! id) ids) with (seqs_of s ids). cbn [has_short].
  destruct (is_long_text_decode (sched_config s) q) as [b Hb].
  assert (is_long s id = Some b) as Hlong by (unfold is_long; rewrite Hq; cbn; by rewrite Hb).
  rewrite Hb. cbn. destruct b; cbn.
  - destruct IH as (b & -> & H1 & H2); [intros; apply Hst; by right|]. exists b. split_and!; [done| |].
    + intros Hb'. destruct (H1 Hb') as (id' & ? & ?). exists id'. split; [by right|done].
    + intros Hb' id' [->|Hin]%elem_of_cons; [done|]. by apply H2.
  - exists true. split_and!; [done| |done]. intros _. exists id. split; [by left|done].
Qed.

(** ** The decode loop *)

Definition frame s0 s : Prop :=
  objects s = objects s0 /\ sched_config s = sched_config s0 /\ waiting s = waiting s0.

Lemma is_long_frame s0 s id : frame s0 s -> is_long s id = is_long s0 id.
Proof. intros (E1 & E2 & _). unfold is_long. by rewrite E1, E2. Qed.

Definition loop_result s0 s (e : DecodeEnd) : Prop :=
  frame s0 s /\
  match e with
  | Preempt v => decoding s ++ [v] ≡ₚ decoding s0
  | DecodeBatch sch blocked =>
      decoding s ++ sch ≡ₚ decoding s0 /\
      Z.of_nat (length sch) <= Z.max 0 (max_decoding_seqs (sched_config s0)) /\
      forall v, blocked = Some v -> v ∈ decoding s0
  end.
Definition productive (e : DecodeEnd) : Prop := e <> DecodeBatch [] None.

(** [n] counts the batch; the loop cannot end empty-handed once it has a
    request or a victim, nor when there is room and a request of the class. *)
Lemma decode_loop_spec X s0 budget target n logical sch blocked s :
  (forall id, id ∈ decoding s0 -> is_Some (objects s0 !! id)) ->
  frame s0 s -> decoding s ++ sch ≡ₚ decoding s0 -> n = Z.of_nat (length sch) ->
  n <= Z.max 0 (max_decoding_seqs (sched_config s0)) -> (forall v, blocked = Some v -> v ∈ decoding s0) ->
  wpe (only X) (decode_loop budget target n logical sch blocked) (fun e s' => loop_result s0 s' e /\
    (sch <> [] \/ blocked <> None \/
     ((0 < budget)%nat /\ n < max_decoding_seqs (sched_config s0) /\
      exists id, id ∈ decoding s /\ is_long s0 id = Some target) -> productive e)) s.
Proof.
  intros Hst. revert n logical sch blocked s.
  induction budget as [|budget IH]; intros n logical sch blocked s Hf Hp Hn Hmax Hbl; cbn [decode_loop].
  { wpe_step. split; [|intros [?|[?|[? _]]]; [congruence..|lia]]. split; [done|]. split_and!; [done|lia|done]. }
  do 2 wpe_step. destruct (Hf) as (E1 & E2 & E3).
  assert (forall id, id ∈ decoding s -> id ∈ decoding s0) as Hsub by (intros id ?; rewrite <- Hp; set_solver).
  apply wpe_if; intros Hend.
  { wpe_step. split; [split; [done|]; split_and!; [done|lia|done]|]. rewrite E2 in Hend.
    intros [?|[?|(_ & Hlt & id & Hid & _)]]; [congruence..|]. exfalso. apply orb_true_iff in Hend as [Hd|Hm].
    - apply bool_decide_eq_true in Hd. rewrite Hd in Hid. by apply elem_of_nil in Hid.
    - bool_to_prop. lia. }
  bool_to_prop. rewrite E2 in *. apply wpe_bind.
  eapply wpe_mono; [apply pop_next_decoding_spec|].
  { intros id Hid. rewrite E1. by apply Hst, Hsub. }
  cbv beta. intros [id|] s1.
  2:{ intros [-> Hnone]. wpe_step. split; [split; [done|]; split_and!; [done|lia|done]|].
      intros [?|[?|(_ & _ & id & Hid & Hl)]]; [congruence..|]. exfalso. apply (Hnone id Hid).
      by rewrite (is_long_frame s0 s). }
  intros (l1 & l2 & Hd & ->). assert (id ∈ decoding s0) as Hid by (apply Hsub; rewrite Hd; set_solver).
  assert ((l1 ++ l2) ++ id :: sch ≡ₚ decoding s0) as Hp1.
  { rewrite <- Hp, Hd. rewrite <- !app_assoc. cbn. f_equiv. by rewrite Permutation_middle. }
  apply wpe_bind, wpe_get_seq; [cbn; rewrite E1; by apply Hst|]. intros q Hq.
  apply wpe_bind, wpe_oracle; [intros Ht; apply (dt_own Ht)|]. intros own m1.
  apply wpe_bind, wpe_oracle; [intros Ht; apply (dt_cost Ht)|]. intros cost m2.
  apply wpe_if; intros Hcost; [apply wpe_if; intros Hfree|].
  - unfold requeue_decoding. do 2 wpe_step. eapply wpe_mono; [apply IH|]; cbn.
    + done.
    + rewrite <- Hp1. rewrite <- !app_assoc. cbn. done.
    + done. + lia.
    + intros v. unfold first_blocked. destruct blocked; [apply Hbl|]. by intros [= <-].
    + intros e s' [Hr Hprod]. split; [done|]. intros _. apply Hprod. right. left. by destruct blocked.
  - apply wpe_if; intros Hsch.
    + unfold requeue_decoding. do 2 wpe_step. wpe_step. split.
      * split; [done|]. cbn. split_and!; [|lia|].
        -- rewrite <- Hp1. rewrite <- !app_assoc. done.
        -- intros v. unfold first_blocked. destruct blocked; [apply Hbl|]. by intros [= <-].
      * intros _. unfold productive. by destruct blocked.
    + wpe_step. split; [|done]. split; [done|]. bool_to_prop. subst sch. cbn. by rewrite Hp1.
  - bool_to_prop. eapply wpe_mono; [apply IH|]; cbn.
    + done.
    + rewrite <- Hp1. f_equiv. by rewrite <- Permutation_cons_append.
    + rewrite length_app. cbn. lia.
    + lia.
    + done.
    + intros e s' [Hr Hprod]. split; [done|]. intros _. apply Hprod. left. by destruct sch.
Qed.

(** ** Preemption *)

(** Every request still lives and the queues are unchanged. *)
Definition calm s s' : Prop :=
  alives s' = alives s /\ sched_config s' = sched_config s /\ waiting s' = waiting s /\ decoding s' = decoding s.

(** [id] waits for its prompt to be processed again; what it generated is kept
    and will be replayed. *)
Definition restarted (q0 : Sequence) s id : Prop :=
  exists q, objects s !! id = Some q /\ status q = WAITING /\ num_prefilled_tokens q = 0 /\
    token_ids q = token_ids q0 /\ num_tokens q = num_tokens q0 /\ num_prompt_tokens q = num_prompt_tokens q0 /\
    (0 < num_completion_tokens q0 -> recompute_replay_cursor q = Some 0).

Lemma restarted_alter q0 s id id' f : restarted q0 s id ->
  (forall q, (status (f q), num_prefilled_tokens (f q), token_ids (f q), num_tokens (f q), num_prompt_tokens (f q),
    recompute_replay_cursor (f q)) =
    (status q, num_prefilled_tokens q, token_ids q, num_tokens q, num_prompt_tokens q, recompute_replay_cursor q)) ->
  restarted q0 (s <| objects ::= alter f id' |>) id.
Proof.
  intros (q & Hq & Hrest) Hf. unfold restarted. cbn. rewrite lookup_alter. case_decide as Hd; [subst id'; rewrite Hq; cbn|rewrite Hq; by eauto].
  exists (f q). specialize (Hf q). injection Hf as E1 E2 E3 E4 E5 E6.
  split; [done|]. rewrite E1, E2, E3, E4, E5, E6. exact Hrest.
Qed.

Lemma restarted_now q0 s id f q : objects s !! id = Some q ->
  status (f q) = WAITING /\ num_prefilled_tokens (f q) = 0 /\ token_ids (f q) = token_ids q0 /\
  num_tokens (f q) = num_tokens q0 /\ num_prompt_tokens (f q) = num_prompt_tokens q0 /\
  (0 < num_completion_tokens q0 -> recompute_replay_cursor (f q) = Some 0) ->
  restarted q0 (s <| objects ::= alter f id |>) id.
Proof. intros Hq. intros. unfold restarted. cbn. rewrite lookup_alter, decide_True, Hq by done. cbn. by eexists. Qed.

Lemma calm_alter s s' id f : calm s s' ->
  (forall q, objects s' !! id = Some q -> alive (f q) = alive q) -> calm s (s' <| objects ::= alter f id |>).
Proof. intros (E1 & E2 & E3 & E4) Hf. unfold calm. rewrite alives_alter by done. by split_and!. Qed.

(** Calling a method of a sequence that does not end it. *)
Lemma wpe_call_seq {A} (X : PyExn -> Prop) id (m : SeqAct A) (P : A -> Sched -> Prop) s q :
  objects s !! id = Some q -> (forall e, (m q).1 = Raise e -> X e) ->
  (forall a, (m q).1 = Ok a -> P a (s <| objects ::= alter (fun _ => (m q).2) id |>)) ->
  wpe X (call_seq id m) P s.
Proof.
  intros Hq Hr HP. unfold call_seq. apply wpe_bind, wpe_get_seq; [by eauto|]. intros q' Hq'.
  rewrite Hq in Hq'. injection Hq' as <-. destruct (m q) as [r q1] eqn:E. cbn [fst snd] in *.
  apply wpe_bind, wpe_set_seq. destruct r; unfold wpe, wp; cbn; auto.
Qed.

Lemma start_replay_spec q : 0 < num_completion_tokens q ->
  start_recompute_replay q = (Ok tt, clear_prefix_cache_hit
    (q <| recompute_replay_cursor := Some 0 |> <| decode_progress_checkpoint := num_completion_tokens q |>
       <| num_prefilled_tokens := 0 |> <| current_chunk_size := None |> <| status := WAITING |>)).
Proof. intros Hk. unfold start_recompute_replay. act_unfold. destruct (Z.leb_spec (num_completion_tokens q) 0); [lia|done]. Qed.

Lemma preempt_spec s0 v q0 : objects s0 !! v = Some q0 -> alive q0 = true ->
  wpe (only (fun e => e = sole_decode_error /\ decoding s0 = [])) (preempt_decode_victim v [] [])
    (fun r s' => r = ([], false, [v]) /\ alives s' = alives s0 /\ sched_config s' = sched_config s0 /\
      waiting s' = waiting s0 ++ [v] /\ decoding s' = decoding s0 /\ restarted q0 s' v /\
      total_preemptions s' = total_preemptions s0 + 1) s0.
Proof.
  intros Hv Ha. unfold preempt_decode_victim. do 2 wpe_step.
  apply wpe_bind, wpe_get_seq; [by eauto|]. intros q. rewrite Hv. intros [= <-].
  apply wpe_bind, wpe_guard; intros Hg.
  { intros _. bool_to_prop. done. }
  apply wpe_bind, wpe_set_seq. set (s1 := s0 <| objects ::= _ |>).
  assert (objects s1 !! v = Some (q0 <| status := WAITING |>)) as Hv1.
  { unfold s1. cbn. by rewrite lookup_alter, decide_True, Hv by done. }
  assert (calm s0 s1) as Hc1.
  { apply calm_alter; [done|]. cbn. intros q'. rewrite Hv. intros [= <-]. unfold alive in *. cbn. by rewrite Ha. }
  assert (total_preemptions s1 = total_preemptions s0) as Ht1 by done. clearbody s1.
  apply wpe_bind. eapply (wpe_mono _ _ (fun _ s' => calm s0 s' /\ restarted q0 s' v /\ total_preemptions s' = total_preemptions s0)).
  { apply wpe_if; intros Hk; bool_to_prop.
    - apply wpe_bind. eapply wpe_call_seq; [exact Hv1| |]; rewrite start_replay_spec by done; [done|].
      intros a _. wpe_step. cbn. split_and!; [|by eapply restarted_now; [exact Hv1|]|done].
      apply calm_alter; [done|]. intros q'. rewrite Hv1. by intros [= <-].
    - apply wpe_set_seq. split_and!; [| |done].
      + by apply calm_alter.
      + eapply restarted_now; [exact Hv1|]. cbn. split_and!; try done. lia. }
  cbv beta. intros [] s2 (Hc2 & Hr2 & Ht2). do 2 wpe_step. apply wpe_bind.
  eapply wpe_mono; [apply (wpe_for_each _ _ _ (fun _ s' => calm s0 s' /\ restarted q0 s' v /\ total_preemptions s' = total_preemptions s0))|].
  { done. }
  { intros id _ s (Hc & Hr & Ht). unfold reset_checkpoint. apply wpe_set_seq.
    split_and!; [by apply calm_alter|by apply restarted_alter|done]. }
  cbv beta. intros [] s3 (Hc3 & Hr3 & Ht3).
  apply wpe_bind, wpe_get_seq; [destruct Hr3 as (? & ? & _); by eauto|]. intros q3 _.
  apply wpe_bind, wpe_oracle; [intros Ht; apply (dt_clear Ht)|]. intros hit m1.
  apply wpe_bind, wpe_set_seq. match goal with |- wpe _ _ _ ?x => set (s4 := x) end.
  assert (calm s0 s4) as Hc4 by (by apply calm_alter).
  assert (restarted q0 s4 v) as Hr4 by (by apply restarted_alter).
  assert (total_preemptions s4 = total_preemptions s0) as Ht4 by done. clearbody s4.
  apply wpe_bind, wpe_oracle; [intros Ht; apply (dt_reset Ht)|]. intros [] m2.
  unfold requeue_waiting. repeat wpe_step. destruct Hc4 as (E1 & E2 & E3 & E4).
  split_and!; try done; cbn; [by rewrite E3|by rewrite Ht4, Z.add_1_r].
Qed.
End decode.
