(* ===== verification/SchedulerGuarantees.v ===== *)
(** * The scheduler: guarantees

    One round from end to end, the processing of a model step, and the
    invariant of every run of the scheduler. *)

From stdpp Require Import base gmap list strings relations.
From Stdlib Require Import ZArith Lia.
From S2P Require Import Prelude PyDict PyBytes SamplingParams Sequence SequenceFacts.
From S2P Require Import MethodRegistry Scheduler SchedulerFacts SchedulerDecode.

Section guarantees.
Context {M K : Type} `{EqDecision K} `{MemoryOracle M K}.
#[local] Abbreviation Sched := (Scheduler M).
#[local] Abbreviation SchedAct := (Act PyExn (Scheduler M)).
Implicit Types (s : Sched) (id : Z) (q : Sequence) (r : Round).

(** What a scheduling round returns: the batch, whether it is a prefill, and
    the preempted requests. *)
Definition Plan : Type := list Z * bool * list Z.

(** Every request is unfinished exactly when one of the queues holds it, once. *)
Definition sched_ok s : Prop := owns s (waiting s ++ decoding s).

(** ** A decode round *)

Definition decode_plan s (p : Plan) s' : Prop :=
  let '(batch, is_prefill, preempted) := p in
  is_prefill = false /\ alives s' = alives s /\ sched_config s' = sched_config s /\
  waiting s' = waiting s ++ preempted /\ decoding s' ++ preempted ≡ₚ decoding s /\
  (exists rest, decoding s' ≡ₚ batch ++ rest) /\
  Z.of_nat (length batch) <= Z.max 0 (max_decoding_seqs (sched_config s)) /\
  (preempted = [] \/
   exists v q0, batch = [] /\ preempted = [v] /\ objects s !! v = Some q0 /\ restarted q0 s' v).

Definition progress s (p : Plan) : Prop :=
  decoding s <> [] -> 0 < max_decoding_seqs (sched_config s) -> p.1.1 <> [] \/ p.2 <> [].

(** The ways a decode round can fail. *)
Definition stuck s (e : PyExn) : Prop :=
  (e = sole_decode_error /\ exists v, decoding s = [v]) \/ decoding s = [].

Lemma preempt_plan s s1 v :
  sched_ok s -> frame s s1 -> decoding s1 ++ [v] ≡ₚ decoding s ->
  wpe (only (stuck s)) (preempt_decode_victim v [] []) (fun p s' => decode_plan s p s' /\ progress s p) s1.
Proof.
  intros Hok (E1 & E2 & E3) Hp.
  destruct (owns_alive s _ v Hok) as (q0 & Hq0 & Ha).
  { rewrite <- Hp. set_solver. }
  unfold wpe. eapply wp_mono; [apply (preempt_spec s1 v q0); [by rewrite E1|done]|]. cbv beta.
  intros [p|e] s'.
  - intros (-> & Hal & Hc & Hw & Hd & Hr & _). split; [|right; by cbn].
    unfold decode_plan. split_and!; try done.
    + rewrite Hal. unfold alives. by rewrite E1.
    + by rewrite Hc.
    + by rewrite Hw, E3.
    + by rewrite Hd.
    + by exists (decoding s').
    + cbn. lia.
    + right. by exists v, q0.
  - intros Hx Ht. destruct (Hx Ht) as [-> Hnil]. left. split; [done|]. exists v.
    rewrite Hnil in Hp. cbn in Hp. by apply Permutation_singleton_l in Hp.
Qed.

Lemma no_work_plan s s1 r :
  frame s s1 -> decoding s1 ≡ₚ decoding s -> (decoding s <> [] -> ~ 0 < max_decoding_seqs (sched_config s)) ->
  wpe (only (stuck s)) (no_work r) (fun p s' => decode_plan s p s' /\ progress s p) s1.
Proof.
  intros (E1 & E2 & E3) Hp Hno. unfold no_work. do 2 wpe_step.
  assert (forall e, bool_decide (decoding s1 = []) = true -> only (stuck s) e) as Hstuck.
  { intros e Hd _. apply bool_decide_eq_true in Hd. rewrite Hd in Hp. right. symmetry. by apply (proj1 (Permutation_nil_l _)). }
  do 3 (apply wpe_bind, wpe_guard; [intros [_ Hg]%andb_true_iff; by apply Hstuck|intros _]).

  wpe_step. split; [|intros ? ?; by destruct Hno]. unfold decode_plan, alives. rewrite E1. split_and!; try done.
  - by rewrite E3, app_nil_r.
  - by rewrite app_nil_r.
  - by exists (decoding s1).
  - cbn. lia.
  - by left.
Qed.

Lemma decode_phase_spec s logical r :
  sched_ok s -> batched_seqs r = 0 ->
  wpe (only (stuck s)) (decode_phase logical r) (fun p s' => decode_plan s p s' /\ progress s p) s.
Proof.
  intros Hok Hr. unfold decode_phase. do 2 wpe_step.
  assert (forall id, id ∈ decoding s -> is_Some (objects s !! id)) as Hst.
  { intros id Hid. eapply owns_stored; [exact Hok|]. set_solver. }
  destruct (has_short_spec s (decoding s) Hst) as (short & Hsh & Hs1 & Hs2). rewrite Hsh.
  apply wpe_bind, wpe_lift; [|done]. intros b [= <-]. rewrite Hr. apply wpe_bind.
  eapply wpe_mono; [apply (decode_loop_spec (stuck s) s)|]; try done.
  { by rewrite app_nil_r. } { cbn. lia. }
  cbv beta. intros e s1 [[Hf Hres] Hprod].
  assert (decoding s <> [] -> 0 < max_decoding_seqs (sched_config s) -> productive e) as Hpr.
  { intros Hne Hmax. apply Hprod. right. right. split_and!; [destruct (decoding s); [done|cbn; lia]|done|].
    rewrite bool_decide_eq_false_2 by done. destruct short; cbn.
    - apply Hs1; done.
    - destruct (decoding s) as [|id l] eqn:E; [done|]. exists id. split; [by left|]. apply Hs2; [done|by left]. }
  clear Hprod. destruct e as [v|[|x sch] blocked].
  - by apply preempt_plan.
  - destruct Hres as (Hp & _ & Hbl). rewrite app_nil_r in Hp. destruct blocked as [v|].
    + unfold drop_decoding. do 2 wpe_step. apply preempt_plan; [done|by destruct Hf as (? & ? & ?)|].
      destruct (deque_remove_spec v (decoding s1)) as (l' & Hl & Hpl); [rewrite Hp; by apply Hbl|].
      cbn. rewrite Hl. cbn. rewrite <- Hp, Hpl. by rewrite Permutation_app_comm.
    + apply no_work_plan; [done|done|]. intros Hne Hmax. by destruct (Hpr Hne Hmax).
  - destruct Hres as (Hp & Hlen & Hbl). destruct Hf as (E1 & E2 & E3). do 2 wpe_step. apply wpe_bind.
    eapply (wpe_mono _ _ (fun _ s' => frame s s' /\ decoding s' ≡ₚ decoding s)).
    { destruct blocked as [v|]; [|by wpe_step; split_and!; cbn; rewrite <- ?Hp, ?(Permutation_app_comm (decoding s1))].
      unfold drop_decoding. repeat wpe_step. split; [by split_and!|].
      destruct (deque_remove_spec v ((x :: sch) ++ decoding s1)) as (l' & Hl & Hpl).
      { rewrite Permutation_app_comm, Hp. by apply Hbl. }
      cbn [decoding update_with app] in *. cbn in Hl |- *. rewrite Hl. cbn. rewrite <- Hpl, <- Hp.
      by rewrite (Permutation_app_comm (decoding s1)). }
    cbv beta. intros [] s2 [(F1 & F2 & F3) Hp2]. wpe_step. split; [|by left].
    unfold decode_plan, alives. rewrite F1. split_and!; try done.
    + by rewrite F3, app_nil_r.
    + by rewrite app_nil_r.
    + exists (decoding s1). rewrite Hp2, <- Hp. by rewrite Permutation_app_comm.
    + by left.
Qed.

(** ** A round *)

Definition plan_ok s (p : Plan) s' : Prop :=
  let '(batch, is_prefill, preempted) := p in
  alives s' = alives s /\ sched_config s' = sched_config s /\
  if (is_prefill : bool) then
    preempted = [] /\ batch <> [] /\ waiting s' ++ batch ≡ₚ waiting s /\ decoding s' = decoding s
  else
    waiting s' ≡ₚ waiting s ++ preempted /\ decoding s' ++ preempted ≡ₚ decoding s /\
    (exists rest, decoding s' ≡ₚ batch ++ rest) /\
    (preempted = [] \/
     exists v q0, batch = [] /\ preempted = [v] /\ objects s !! v = Some q0 /\ restarted q0 s' v).

(** Each member of a prefill batch has a positive chunk, and the chunks fit. *)
Definition prefill_limits s (batch : list Z) s' : Prop :=
  (exists cs, Forall2 (fun id c => chunk_of s' id = Some (Some c) /\ 0 < c) batch cs /\
     sumZ cs <= max_num_batched_tokens (sched_config s)) /\
  Z.of_nat (length batch) <= Z.max 1 (max_num_seqs_in_batch (sched_config s)) /\
  Z.of_nat (length (decoding s)) < max_decoding_seqs (sched_config s) /\
  (any_replay s (waiting s) = true -> exists id, batch = [id] /\ is_replay s id = true).

Definition limits_ok s (p : Plan) s' : Prop :=
  let '(batch, is_prefill, _) := p in
  if (is_prefill : bool) then prefill_limits s batch s'
  else Z.of_nat (length batch) <= Z.max 0 (max_decoding_seqs (sched_config s)).

Lemma start_round_spec s :
  wpo start_round (fun a s' => quiet s s' /\ scheduled a.1.1 = [] /\ batched_seqs a.1.1 = 0 /\ batched_tokens a.1.1 = 0) s.
Proof.
  unfold start_round. apply wpo_bind, wpo_oracle. intros physical m. do 2 wpo_step. apply wpo_bind.
  eapply (wpo_mono _ (fun _ s' => quiet s s')).
  { wpo_step; [by wpo_step|]. cbv zeta. do 5 (apply wpo_bind, wpo_oracle; intros ? ?). by wpo_step. }
  cbv beta. intros [[[logical step] buds] margin] s1 Hq. apply wpo_bind, wpo_oracle. intros free m'. by wpo_step.
Qed.

Lemma prefill_inv_start s0 s r : quiet s0 s -> scheduled r = [] -> batched_seqs r = 0 -> batched_tokens r = 0 ->
  prefill_inv s0 s [] r.
Proof.
  intros (E1 & E2 & E3 & E4 & E5)%quiet_fields Hs Hn Ht. split; rewrite ?Hs; try done.
  - by rewrite E2, app_nil_r.
  - exists []. by split.
  - intros _. split; [by cbn; lia|]. by intros id ?%elem_of_nil.
Qed.

Lemma sched_ok_waiting s : sched_ok s -> NoDup (waiting s) /\ Forall (alive_at s) (waiting s).
Proof.
  intros Hok. split; [by destruct Hok as [(? & _)%NoDup_app _]|]. apply Forall_forall. intros id Hid.
  apply (owns_alive s _ id Hok). set_solver.
Qed.

(** A decode round seen from before the prefill phase that scheduled nothing. *)
Lemma decode_plan_from s s1 p s' :
  idents s1 = idents s -> sched_config s1 = sched_config s -> waiting s1 ≡ₚ waiting s -> decoding s1 = decoding s ->
  decode_plan s1 p s' -> plan_ok s p s' /\ limits_ok s p s'.
Proof.
  destruct p as [[batch is_prefill] preempted]. intros E1 E2 E3 E4 (-> & Hal & Hc & Hw & Hd & Hb & Hlen & Hpre).
  cbn. rewrite <- E2. split; [|done]. split_and!; try done.
  - by rewrite Hal, (alives_idents s s1).
  - by rewrite Hw, E3.
  - by rewrite Hd, E4.
  - destruct Hpre as [?|(v & q1 & -> & -> & Hq1 & Hr)]; [by left|]. right.
    assert (idents s1 !! v = idents s !! v) as Hl by (by rewrite E1). unfold idents in Hl.
    rewrite !lookup_fmap, Hq1 in Hl. destruct (objects s !! v) as [q0|] eqn:Hq0; cbn in Hl; [|done].
    injection Hl as _ T1 T2 T3 _ _ _ _. exists v, q0. split_and!; try done.
    destruct Hr as (q & Hq & R1 & R2 & R3 & R4 & R5 & R6). exists q.
    unfold num_completion_tokens in *. rewrite T1, T2, T3 in *. by split_and!.
Qed.

Lemma schedule_spec s :
  sched_ok s -> wpo schedule (fun p s' => plan_ok s p s' /\ limits_ok s p s' /\ progress s p) s.
Proof.
  intros Hok. destruct (sched_ok_waiting s Hok) as [Hnd Hal]. unfold schedule.
  apply wpo_bind. eapply wpo_mono; [apply start_round_spec|]. cbv beta.
  intros [[r0 margin] free] s1 (Hq1 & Hs & Hn & Ht). cbn [fst snd] in *. do 2 wpo_step. apply wpo_bind.
  eapply (wpo_mono _ (fun _ s' => quiet s s')).
  { wpo_step; [by wpo_step|]. unfold prefill_mode_order. do 2 wpo_step.
    eapply wpo_mono; [apply mode_order_quiet|]. cbv beta. intros l s' Hq. by eapply quiet_trans. }
  cbv beta. intros order s2 Hq2. apply wpo_bind.
  eapply wpo_mono; [apply (prefill_buckets_inv s); [done|done|by apply prefill_inv_start]|]. cbv beta.
  intros r s3 Hi. apply wpo_if; intros Hb.
  - bool_to_prop. destruct Hi as [H1 H2 H3 H4 H5 H6 H7 H8]. wpo_step. destruct (H7 ltac:(done)) as (L1 & L2 & L3).
    split_and!; [|split_and!; try done|by left].
    + split_and!; try done. by apply alives_idents.
    + destruct H6 as (cs & Hcs & Hsum). exists cs. split; [done|lia].
    + lia.
    + intros Hany. destruct (H8 Hany) as [Hl Hall]. destruct (scheduled r) as [|id [|]]; [done| |cbn in Hl; lia].
      exists id. split; [done|]. apply Hall. by left.
  - bool_to_prop. destruct Hi as [I1 I2 I3 I4 I5 I6 I7 I8]. rewrite Hb, app_nil_r in *. cbn in *.
    eapply (wpo_mono _ (fun p s' => decode_plan s3 p s' /\ progress s3 p)).
    { eapply wpe_wpo, decode_phase_spec; [|by rewrite I5].
      unfold sched_ok. rewrite I2. eapply owns_perm; [|eapply owns_alives; [by apply alives_idents|exact Hok]].
      by rewrite I4. }
    cbv beta. intros p s' [Hp Hpr]. destruct (decode_plan_from s s3 p s') as [? ?]; try done.
    split_and!; try done. unfold progress in *. by rewrite <- I1, <- I2.
Qed.

(** ** After the model step *)

Lemma owns_alter s l id f : owns s l -> (forall q, objects s !! id = Some q -> alive (f q) = alive q) ->
  owns (s <| objects ::= alter f id |>) l.
Proof. intros Ho Hf. eapply owns_alives; [by apply alives_alter|done]. Qed.

Lemma owns_keep s l id f : owns s l -> id ∈ l -> (forall q, alive q = true -> alive (f q) = true) ->
  owns (s <| objects ::= alter f id |>) l.
Proof.
  intros Ho Hid Hf. apply owns_alter; [done|]. intros q Hq.
  destruct (owns_alive s l id Ho Hid) as (q' & Hq' & Ha). rewrite Hq in Hq'. injection Hq' as <-. rewrite Ha. by apply Hf.
Qed.

(** A request that finishes leaves its queue. *)
Lemma owns_finish s l id f : owns s (id :: l) -> (forall q, status (f q) = FINISHED) ->
  owns (s <| objects ::= alter f id |>) l.
Proof.
  intros [Hnd Ho] Hf. apply NoDup_cons in Hnd as [Hid Hnd]. split; [done|]. intros id'.
  unfold alives in *. cbn. rewrite lookup_fmap, lookup_alter. case_decide; [subst|].
  - split; [done|]. destruct (objects s !! id') as [q|]; cbn; [|done]. unfold alive. by rewrite Hf.
  - rewrite <- lookup_fmap, <- Ho. set_solver.
Qed.

Lemma append_token_alive t lp top q : alive (append_token t lp top q) = alive q.
Proof. unfold append_token, track_sampling_penalty_token, alive. by repeat case_match. Qed.
Lemma finish_replay_alive q a : (finish_recompute_replay q).1 = Ok a -> alive (finish_recompute_replay q).2 = alive q.
Proof. unfold finish_recompute_replay. act_unfold. by destruct (is_recompute_replay q). Qed.
Lemma advance_replay_alive q a : (advance_recompute_replay q).1 = Ok a -> alive (advance_recompute_replay q).2 = alive q.
Proof.
  unfold advance_recompute_replay. act_unfold. destruct (is_recompute_decode q); cbn; [|done].
  case_match; [|done]. intros Ha. by rewrite (finish_replay_alive _ a Ha).
Qed.

Lemma wpo_call_seq {A} id (m : SeqAct A) (P : A -> Sched -> Prop) s :
  (forall q a, objects s !! id = Some q -> (m q).1 = Ok a -> P a (s <| objects ::= alter (fun _ => (m q).2) id |>)) ->
  wpo (call_seq id m) P s.
Proof.
  intros HP. unfold call_seq. apply wpo_bind, wpo_get_seq. intros q Hq.
  specialize (HP q). destruct (m q) as [r q1]. apply wpo_bind, wpo_set_seq. destruct r; [|done].
  apply wpo_lift. intros a' [= <-]. by apply HP.
Qed.

Lemma wpo_remove_decoding id (P : unit -> Sched -> Prop) s :
  (forall l, decoding s ≡ₚ id :: l -> P tt (s <| decoding := l |>)) -> wpo (remove_decoding id) P s.
Proof.
  intros HP. unfold wpo, wp, remove_decoding. destruct (deque_remove id (decoding s)) as [l|] eqn:E; cbn; [|done].
  apply HP. revert l E. clear HP. induction (decoding s) as [|y d IH]; cbn; intros l E; [done|]. case_decide.
  - injection E as <-. by subst.
  - apply fmap_Some in E as (l' & E & ->). rewrite (IH l' E). apply perm_swap.
Qed.

(** The requests a prefill batch took out of the queues. *)
Definition in_flight (batch : list Z) s : Prop := owns s (batch ++ waiting s ++ decoding s).

Lemma postprocess_prefill_spec row ids s :
  in_flight (row.1.1.1 :: ids) s -> wpo (postprocess_prefill row) (fun _ s' => in_flight ids s') s.
Proof.
  destruct row as [[[id token] lp] top]. cbn. unfold in_flight. intros Ho.
  assert (forall s', owns s' (id :: ids ++ waiting s' ++ decoding s') ->
    owns (s' <| decoding ::= fun l => l ++ [id] |>) (ids ++ waiting s' ++ decoding s' ++ [id])) as Hq.
  { intros s' Ho'. eapply owns_perm; [|exact Ho']. rewrite !app_assoc. apply Permutation_cons_append. }
  unfold postprocess_prefill. apply wpo_bind, wpo_get_seq. intros q _.
  destruct (current_chunk_size q) as [chunk|]; [|by wpo_step].
  apply wpo_bind, wpo_set_seq. apply wpo_bind, wpo_get_seq. intros q1 _.
  match goal with |- wpo _ _ ?x => assert (owns x (id :: ids ++ waiting x ++ decoding x)) as Ho1 by (by apply owns_alter); set (s1 := x) in * end.
  clearbody s1. apply wpo_if; intros Hlt.
  - apply wpo_bind, wpo_set_seq, wpo_modify. cbn.
    eapply (owns_perm _ (id :: ids ++ waiting s1 ++ decoding s1)); [by rewrite Permutation_middle|].
    by apply (owns_keep s1); [|left|].
  - apply wpo_bind, wpo_oracle. intros [] m. apply wpo_bind, wpo_set_seq. unfold requeue_decoding.
    do 2 wpo_step. match goal with |- wpo _ _ ?x => assert (in_flight ids x) as Ho2; [|set (s2 := x) in *] end.
    { apply Hq. by apply (owns_keep s1); [|left|]. }
    assert (id ∈ ids ++ waiting s2 ++ decoding s2) as Hin by (subst s2; cbn; set_solver).
    clearbody s2. clear Hq Ho Ho1. apply wpo_if; intros Hrep.
    + apply wpo_when; intros _; [|done]. apply wpo_call_seq. intros q2 a Hq2 Ha. apply owns_alter; [done|].
      intros q3. rewrite Hq2. intros [= <-]. by eapply finish_replay_alive.
    + apply wpo_bind, wpo_set_seq. apply wpo_bind, wpo_get_seq. intros q2 _. do 2 wpo_step.
      match goal with |- wpo _ _ ?x => assert (in_flight ids x) as Ho3; [|set (s3 := x) in *] end.
      { apply owns_alter; [done|]. intros. apply append_token_alive. }
      clearbody s3. apply wpo_when; intros _; [|done].
      apply wpo_bind, wpo_set_seq, wpo_remove_decoding. cbn. intros l Hl.
      apply (owns_finish s3); [|done]. eapply owns_perm; [|exact Ho3]. rewrite Hl.
      by rewrite !Permutation_middle.
Qed.

Lemma postprocess_decode_spec row ids s :
  sched_ok s -> NoDup (row.1.1.1 :: ids) -> (forall id, id ∈ row.1.1.1 :: ids -> id ∈ decoding s) ->
  wpo (postprocess_decode row) (fun _ s' => sched_ok s' /\ forall id, id ∈ ids -> id ∈ decoding s') s.
Proof.
  destruct row as [[[id token] lp] top]. cbn. intros Hok [Hid Hnd]%NoDup_cons Hsub.
  assert (forall id', id' ∈ ids -> id' ∈ decoding s) as Hrest by (intros; apply Hsub; by right).
  unfold postprocess_decode. apply wpo_bind, wpo_get_seq. intros q _. apply wpo_if; intros Hrep.
  - apply wpo_call_seq. intros q2 a Hq2 Ha. split; [|done]. apply owns_alter; [done|].
    intros q3. rewrite Hq2. intros [= <-]. by eapply advance_replay_alive.
  - apply wpo_bind, wpo_set_seq. apply wpo_bind, wpo_get_seq. intros q2 _. do 2 wpo_step.
    match goal with |- wpo _ _ ?x => assert (sched_ok x) as Ho3; [|set (s3 := x) in *] end.
    { apply owns_alter; [done|]. intros. apply append_token_alive. }
    assert (decoding s3 = decoding s) as Hd3 by done. clearbody s3.
    apply wpo_when; intros _; [|by split; [|rewrite Hd3]].
    apply wpo_bind, wpo_set_seq. do 2 wpo_step. cbn. rewrite Hd3, bool_decide_eq_true_2 by (apply Hsub; by left).
    apply wpo_when; [intros _|done]. apply wpo_remove_decoding. cbn. intros l Hl. split.
    + unfold sched_ok. cbn. apply (owns_finish s3); [|done]. eapply owns_perm; [|exact Ho3]. rewrite Hd3, Hl.
      by rewrite Permutation_middle.
    + intros id' Hin. specialize (Hrest id' Hin). rewrite Hl in Hrest. apply elem_of_cons in Hrest as [->|]; done.
Qed.

Definition row_id (row : StepRow) : Z := row.1.1.1.
Definition row_lists_ok (ids : list Z) (tokens : list Z) (lps : list (option PyFloat)) (tops : list (option TopLogprobs)) : Prop :=
  length tokens = length ids /\ (lps = [] \/ length lps = length ids) /\ (tops = [] \/ length tops = length ids).

Lemma zip_rows_ids ids tokens lps tops :
  length tokens = length ids -> length lps = length ids -> length tops = length ids ->
  row_id <$> zip_rows ids tokens lps tops = ids.
Proof.
  revert tokens lps tops. induction ids as [|id ids IH]; intros [|t tokens] [|lp lps] [|top tops] H1 H2 H3; try done.
  cbn in *. f_equal. apply IH; lia.
Qed.

Lemma postprocess_spec batch tokens (is_prefill : bool) lps tops s :
  row_lists_ok batch tokens lps tops ->
  (if is_prefill then in_flight batch s else sched_ok s /\ exists rest, decoding s ≡ₚ batch ++ rest) ->
  wpo (postprocess batch tokens is_prefill lps tops) (fun _ s' => sched_ok s') s.
Proof.
  intros (H1 & H2 & H3) Ho. unfold postprocess.
  set (lps' := match lps with [] => _ | _ => _ end). set (tops' := match tops with [] => _ | _ => _ end).
  assert (length lps' = length batch) as L1 by (subst lps'; destruct H2 as [->|]; [by rewrite length_replicate|by destruct lps; [rewrite length_replicate|]]).
  assert (length tops' = length batch) as L2 by (subst tops'; destruct H3 as [->|]; [by rewrite length_replicate|by destruct tops; [rewrite length_replicate|]]).
  pose proof (zip_rows_ids batch tokens lps' tops' H1 L1 L2) as Hids. set (rows := zip_rows _ _ _ _) in *.
  destruct is_prefill.
  - eapply wpo_mono; [apply (wpo_for_each _ _ (fun rows s => in_flight (row_id <$> rows) s))|].
    + by rewrite Hids.
    + intros row rows' s' Hin. by apply postprocess_prefill_spec.
    + done.
  - destruct Ho as [Hok [rest Hp]].
    eapply wpo_mono; [apply (wpo_for_each _ _ (fun rows s => sched_ok s /\ NoDup (row_id <$> rows) /\
      forall id, id ∈ row_id <$> rows -> id ∈ decoding s))|].
    + rewrite Hids. split_and!; [done| |intros; rewrite Hp; set_solver].
      destruct Hok as [Hnd _]. rewrite Hp in Hnd. apply NoDup_app in Hnd as (_ & _ & Hnd). by apply NoDup_app in Hnd as (? & _).
    + intros row rows' s' (Hok' & Hnd & Hsub). eapply wpo_mono; [by apply (postprocess_decode_spec row (row_id <$> rows'))|].
      cbv beta. intros _ s'' [? ?]. split_and!; [done| |done]. by apply NoDup_cons in Hnd as [_ ?].
    + by intros _ s' [? _].
Qed.

(** ** Runs of the scheduler *)

Lemma wpo_remove_waiting id (P : unit -> Sched -> Prop) s :
  (forall l, waiting s ≡ₚ id :: l -> P tt (s <| waiting := l |>)) -> wpo (remove_waiting id) P s.
Proof.
  intros HP. unfold wpo, wp, remove_waiting. destruct (deque_remove id (waiting s)) as [l|] eqn:E; cbn; [|done].
  apply HP. destruct (decide (id ∈ waiting s)) as [Hin|Hin].
  - destruct (deque_remove_spec id (waiting s) Hin) as (l' & E' & Hp). congruence.
  - exfalso. revert l E Hin. clear HP. induction (waiting s) as [|y d IH]; cbn; intros l E Hin; [done|]. case_decide.
    + subst. apply Hin. by left.
    + apply fmap_Some in E as (l' & E & ->). apply (IH l' E). intros ?. apply Hin. by right.
Qed.

Lemma abort_ok id s : sched_ok s -> wpo (abort id) (fun found s' => sched_ok s' /\
  (id ∈ waiting s ++ decoding s -> id ∉ waiting s' ++ decoding s')) s.
Proof.
  intros Hok. unfold abort. do 2 wpo_step.
  assert (forall s' m, owns s' (id :: waiting s' ++ decoding s') ->
    let s1 := s' <| objects ::= alter (fun q => q <| status := FINISHED |>) id |>
                 <| admission_defer_warned ::= fun w => w ∖ {[id]} |> <| oracle := m |> in
    sched_ok s1 /\ id ∉ waiting s1 ++ decoding s1) as Hfin.
  { intros s' m Ho. split; [by apply (owns_finish s')|]. destruct Ho as [[? _]%NoDup_cons _]. done. }
  apply wpo_if; intros Hq.
  - apply wpo_bind.
    eapply (wpo_mono _ (fun _ s' => owns s' (id :: waiting s' ++ decoding s'))).
    { apply wpo_if; intros Hw.
      - apply wpo_remove_waiting. intros l Hl. eapply owns_perm; [|exact Hok]. cbn. by rewrite Hl.
      - apply wpo_remove_decoding. intros l Hl. eapply owns_perm; [|exact Hok]. cbn. rewrite Hl. by rewrite Permutation_middle. }
    cbv beta. intros [] s1 Ho. apply wpo_bind, wpo_set_seq. do 2 wpo_step. apply wpo_bind, wpo_oracle. intros [] m.
    apply wpo_bind, wpo_get_seq. intros q _. wpo_step. destruct (Hfin s1 m Ho) as [H1 H2]. by split.
  - wpo_step. split; [done|]. intros [Hin|Hin]%elem_of_app; bool_to_prop; done.
Qed.

(** One action of the engine's main loop. *)
Inductive sched_step : Sched -> Sched -> Prop :=
| StepAdd q s s' :
    objects s !! seq_id q = None -> alive q = true -> add_request q s = (Ok tt, s') -> sched_step s s'
| StepAbort id found s s' : abort id s = (Ok found, s') -> sched_step s s'
| StepRound batch is_prefill preempted tokens lps tops s s1 s' :
    schedule s = (Ok (batch, is_prefill, preempted), s1) ->
    row_lists_ok batch tokens lps tops ->
    postprocess batch tokens is_prefill lps tops s1 = (Ok tt, s') -> sched_step s s'.

Lemma add_request_ok q s s' : objects s !! seq_id q = None -> alive q = true ->
  add_request q s = (Ok tt, s') -> sched_ok s -> sched_ok s'.
Proof.
  intros Hnew Ha [= <-] [Hnd Ho]. unfold sched_ok, owns. cbn.
  assert (seq_id q ∉ waiting s ++ decoding s) as Hni.
  { rewrite Ho. unfold alives. by rewrite lookup_fmap, Hnew. }
  split.
  - rewrite <- Permutation_cons_append. cbn. by apply NoDup_cons.
  - intros id. rewrite <- Permutation_cons_append. unfold alives. cbn. rewrite elem_of_cons, Ho. unfold alives.
    rewrite !lookup_fmap, lookup_insert. case_decide; [subst; cbn; rewrite Ha; naive_solver|naive_solver].
Qed.

Lemma round_in_flight s batch is_prefill preempted s' :
  sched_ok s -> plan_ok s (batch, is_prefill, preempted) s' ->
  if is_prefill then in_flight batch s' else sched_ok s' /\ exists rest, decoding s' ≡ₚ batch ++ rest.
Proof.
  intros Hok (Hal & _ & Hp). apply (owns_alives s s') in Hok; [|done]. destruct is_prefill.
  - destruct Hp as (_ & _ & Hw & Hd). eapply owns_perm; [|exact Hok]. rewrite Hd, <- Hw.
    rewrite (app_assoc batch). f_equiv. apply Permutation_app_comm.
  - destruct Hp as (Hw & Hd & Hb & _). split; [|done]. eapply owns_perm; [|exact Hok]. rewrite Hw, <- Hd.
    rewrite <- app_assoc. f_equiv. apply Permutation_app_comm.
Qed.

Lemma sched_step_ok s s' : sched_step s s' -> sched_ok s -> sched_ok s'.
Proof.
  intros [q x x' Hn Ha E|id found x x' E|batch pf pre tokens lps tops x x1 x' E Hl E'] Hok.
  - by eapply add_request_ok.
  - by apply (wpo_run _ _ _ _ _ (abort_ok id x Hok)) in E as [? _].
  - pose proof (wpo_run _ _ _ _ _ (schedule_spec x Hok) E) as (Hp & _ & _).
    eapply (wpo_run _ (fun _ s => sched_ok s)); [|exact E'].
    apply postprocess_spec; [done|]. by eapply round_in_flight.
Qed.

Lemma new_scheduler_ok c eos eos_ids (m : M) : sched_ok (new_scheduler c eos eos_ids m).
Proof. split; [constructor|]. intros id. cbn. unfold alives. cbn. rewrite fmap_empty, lookup_empty. by split; [intros ?%elem_of_nil|]. Qed.

Lemma reachable_ok s s' : rtc sched_step s s' -> sched_ok s -> sched_ok s'.
Proof. induction 1; [done|]. intros Hok. eauto using sched_step_ok. Qed.

Lemma wpe_start_round X s : waiting s = [] ->
  wpe (only X) start_round (fun a s' => (exists m, s' = s <| oracle := m |>) /\ scheduled a.1.1 = [] /\ batched_seqs a.1.1 = 0) s.
Proof.
  intros Hw. unfold start_round. apply wpe_bind, wpe_oracle; [intros Ht; apply (dt_free Ht)|]. intros physical m.
  do 2 wpe_step. cbn. rewrite Hw. apply wpe_bind, wpe_if; intros Hb; [|done]. wpe_step.
  apply wpe_bind, wpe_oracle; [intros Ht; apply (dt_decode Ht)|]. intros free m'. wpe_step. split_and!; [by exists m'|done..].
Qed.

(** A round in which nothing waits is a decode round. *)
Lemma idle_queue_round s : sched_ok s -> waiting s = [] ->
  wpe (only (stuck s)) schedule (fun p _ => progress s p) s.
Proof.
  intros Hok Hw. unfold schedule. apply wpe_bind. eapply wpe_mono; [by apply wpe_start_round|]. cbv beta.
  intros [[r margin] free] s1 ([m Hm] & Hs & Hn). cbn [fst snd] in *. do 2 wpe_step.
  assert (waiting s1 = waiting s /\ sched_config s1 = sched_config s /\ decoding s1 = decoding s /\ sched_ok s1)
    as (E1 & E2 & E3 & Hok1) by (by subst s1). clear Hm. rewrite E1, Hw.
  apply wpe_bind, wpe_if; intros Hb; [|done]. wpe_step. apply wpe_bind. cbn [prefill_buckets]. wpe_step.
  rewrite Hs. apply wpe_if; intros Hb'; [done|].
  unfold progress, stuck. rewrite <- E2, <- E3.
  eapply wpe_mono; [by apply decode_phase_spec|]. cbv beta. by intros p s' [_ ?].
Qed.

(** C2: in every state the engine's loop reaches (requests added, aborted,
    scheduled and post-processed in any order), the waiting and decoding queues
    together hold every unfinished request exactly once and no finished one. *)
Theorem requests_queued_once c eos eos_ids (m : M) s :
  rtc sched_step (new_scheduler c eos eos_ids m) s ->
  NoDup (waiting s ++ decoding s) /\
  forall id, id ∈ waiting s ++ decoding s <-> exists q, objects s !! id = Some q /\ status q <> FINISHED.
Proof.
  intros Hr. destruct (reachable_ok _ _ Hr (new_scheduler_ok c eos eos_ids m)) as [Hnd Ho]. split; [done|].
  intros id. rewrite Ho. unfold alives. rewrite lookup_fmap_Some. unfold alive.
  split; intros (q & H1 & H2); exists q; split; try done.
  - apply negb_true_iff, bool_decide_eq_false in H1. done.
  - by apply negb_true_iff, bool_decide_eq_false.
Qed.

(** C5: a scheduling round neither loses nor duplicates a request.  A prefill
    batch is taken out of the waiting queue; a decode batch stays in the decoding
    queue; a preempted request moves from the decoding to the waiting queue with
    its tokens kept, its prefill progress reset and, if it had generated tokens,
    its replay cursor at the start. *)
Theorem schedule_conserves_requests s p s' :
  sched_ok s -> schedule s = (Ok p, s') -> plan_ok s p s'.
Proof. intros Hok E. by destruct (wpo_run _ _ _ _ _ (schedule_spec s Hok) E) as (? & _ & _). Qed.

(** C14: a prefill batch stays within the token budget and the sequence limit,
    gives every member a positive chunk, is only formed while there is room to
    decode, and is a single replay whenever a replay waits; a decode batch has at
    most [max_decoding_seqs] requests. *)
Theorem schedule_within_limits s p s' :
  sched_ok s -> schedule s = (Ok p, s') -> limits_ok s p s'.
Proof. intros Hok E. by destruct (wpo_run _ _ _ _ _ (schedule_spec s Hok) E) as (_ & ? & _). Qed.

(** C23: while requests decode, a round that returns schedules or preempts one.
    With an empty waiting queue and an oracle whose decode methods return, the
    round does return, unless the only decoding request cannot run: then it
    raises the out-of-cache error. *)
Theorem decode_round_progress s :
  sched_ok s -> decoding s <> [] -> 0 < max_decoding_seqs (sched_config s) ->
  (forall p s', schedule s = (Ok p, s') -> p.1.1 <> [] \/ p.2 <> []) /\
  (waiting s = [] -> decode_total ->
   (exists p s', schedule s = (Ok p, s')) \/
   (exists s', schedule s = (Raise sole_decode_error, s') /\ exists v, decoding s = [v])).
Proof.
  intros Hok Hne Hmax. split.
  - intros p s' E. destruct (wpo_run _ _ _ _ _ (schedule_spec s Hok) E) as (_ & _ & Hp). by apply Hp.
  - intros Hw Ht. pose proof (wpe_run _ _ _ _ (idle_queue_round s Hok Hw)) as Hr.
    destruct (schedule s) as [[p|e] s'] eqn:E; [left; by exists p, s'|]. right. exists s'.
    destruct (Hr Ht) as [[-> Hv]|Hd]; done.
Qed.
End guarantees.

(** ** Concrete runs *)

(** An oracle over a number of free slots; a decode step costs one slot. *)
#[local] Instance slot_oracle : MemoryOracle Z unit := {
  num_free_slots := read id;
  prefill_batched_tokens_margin := mret 0;
  remaining_prefill_tokens q := mret (num_prompt_tokens q - num_prefilled_tokens q);
  prefill_execution_mode _ := mret PREFILL_EXECUTION_CHUNKED;
  prefill_batch_compatibility_key _ := mret tt;
  reset_prefill_execution_state _ := mret tt;
  complete_prefill_execution _ := mret tt;
  reserved_prefill_slots _ _ := mret 0;
  should_schedule_full_prefill _ := mret false;
  prefill_step_free_slots := read id;
  prefill_step_free_slots_for _ := read id;
  min_final_prefill_chunk_size _ := mret 0;
  prefill_step_reservation_cost _ n := mret n;
  decode_step_free_slots := read id;
  decode_step_free_slots_for _ := read id;
  decode_step_reservation_cost _ := mret 1;
  prompt_admission_free_slots := read id;
  prompt_admission_budgets _ _ := mret ∅;
  prompt_admission_costs _ := mret ∅;
  prompt_logical_reservation_cost _ := mret 0;
  prompt_admission_failure_action := mret "defer"%string;
  on_prompt_admitted _ _ := mret tt;
  refresh_prefix_cache_hit _ := mret no_prefix_hit;
  oracle_clear_prefix_cache_hit _ := mret no_prefix_hit;
  hashable _ := true;
}.

Definition small_config : SchedulerConfig := mkSchedConfig "" 4 16 2 8 ∅ 0 0 0.
Definition request (id : Z) : Sequence := new_sequence id [11; 12; 13] default_sampling.
Definition empty_sched (free : Z) : Scheduler Z := new_scheduler small_config None EosNone free.
(** Two requests wait. *)
Definition two_waiting (free : Z) : Scheduler Z := (add_request (request 2) (add_request (request 1) (empty_sched free)).2).2.
(** Their prompts were processed in one batch; both decode. *)
Definition two_decoding (free : Z) : Scheduler Z :=
  (postprocess [1; 2] [21; 22] true [] [] (schedule (two_waiting free)).2).2.

Lemma two_waiting_run free : rtc sched_step (empty_sched free) (two_waiting free).
Proof.
  eapply rtc_l; [by apply (StepAdd (request 1))|]. eapply rtc_l; [by apply (StepAdd (request 2))|]. apply rtc_refl.
Qed.
Lemma two_decoding_run : rtc sched_step (empty_sched 8) (two_decoding 8).
Proof.
  eapply rtc_r; [apply two_waiting_run|].
  apply (StepRound [1; 2] true [] [21; 22] [] [] _ (schedule (two_waiting 8)).2); [by vm_compute| |by vm_compute].
  split_and!; [done|by left..].
Qed.

Lemma empty_sched_ok free : sched_ok (empty_sched free).
Proof. apply new_scheduler_ok. Qed.
Lemma two_waiting_ok free : sched_ok (two_waiting free).
Proof. eapply reachable_ok; [apply two_waiting_run|apply empty_sched_ok]. Qed.

(** The cache is full when the two requests want to decode. *)
Definition two_decoding_full : Scheduler Z := (two_decoding 8) <| oracle := 0 |>.
Lemma sched_ok_oracle (s : Scheduler Z) m : sched_ok s -> sched_ok (s <| oracle := m |>).
Proof. done. Qed.
Lemma two_decoding_full_ok : sched_ok two_decoding_full.
Proof. apply (sched_ok_oracle (two_decoding 8)), (reachable_ok _ _ two_decoding_run), empty_sched_ok. Qed.
Lemma slot_oracle_total : decode_total (M := Z) (K := unit).
Proof. by split. Qed.

Lemma requests_queued_once_witness :
  decoding (two_decoding 8) = [1; 2] /\ NoDup (waiting (two_decoding 8) ++ decoding (two_decoding 8)).
Proof.
  split; [by vm_compute|]. by destruct (requests_queued_once small_config None EosNone 8 (two_decoding 8) two_decoding_run).
Defined.

Lemma schedule_conserves_requests_witness :
  exists s', schedule two_decoding_full = (Ok ([], false, [1]), s') /\ plan_ok two_decoding_full ([], false, [1]) s'.
Proof.
  exists (schedule two_decoding_full).2.
  assert (schedule two_decoding_full = (Ok ([], false, [1]), (schedule two_decoding_full).2)) as E by (by vm_compute).
  split; [exact E|]. exact (schedule_conserves_requests _ _ _ two_decoding_full_ok E).
Defined.

Lemma schedule_within_limits_witness :
  exists s', schedule (two_waiting 8) = (Ok ([1; 2], true, []), s') /\ prefill_limits (two_waiting 8) [1; 2] s'.
Proof.
  exists (schedule (two_waiting 8)).2.
  assert (schedule (two_waiting 8) = (Ok ([1; 2], true, []), (schedule (two_waiting 8)).2)) as E by (by vm_compute).
  split; [exact E|]. exact (schedule_within_limits _ _ _ (two_waiting_ok 8) E).
Defined.

Lemma decode_round_progress_witness :
  exists r s', schedule two_decoding_full = (r, s') /\ (r = Raise sole_decode_error -> exists v, decoding two_decoding_full = [v]).
Proof.
  destruct (decode_round_progress two_decoding_full two_decoding_full_ok ltac:(by vm_compute) ltac:(by vm_compute)) as [_ Hr].
  destruct (Hr ltac:(by vm_compute) slot_oracle_total) as [(p & s' & E)|(s' & E & Hv)]; eexists _, _; (split; [exact E|]); [done|intros _; exact Hv].
Defined.
