(* ===== verification/ChainCache.v ===== *)
(** * The chain cache index

    [engine/chain_cache.py]: the lifecycle of non-branching resident KV chains.
    A chain is a [ChainRecord] named by its [chain_id]; a record is mutable and
    shared between the index and its callers, so the model keeps the records in
    the index's dictionary and the operations update them there.  The
    dictionaries keep Python's insertion order. *)

From stdpp Require Import base gmap list strings sorting.
From Stdlib Require Import ZArith Lia.
From S2P Require Import Prelude PyDict PyBytes Sha256 PrefixHash PyStrings.

(** ** Errors *)

Inductive ChainErrorKind :=
| ChainCacheError | ChainNotFoundError | ChainBusyError | ChainPrefixMismatchError
| ChainFingerprintMismatchError | ChainGoneError | ChainCapacityError | ChainOwnerMismatchError | ChainModeError.
#[export] Instance chain_kind_eq_dec : EqDecision ChainErrorKind.
Proof. solve_decision. Defined.

Definition status_code (k : ChainErrorKind) : Z :=
  match k with
  | ChainCacheError => 500 | ChainNotFoundError => 404 | ChainBusyError => 409 | ChainPrefixMismatchError => 409
  | ChainFingerprintMismatchError => 409 | ChainGoneError => 410 | ChainCapacityError => 503
  | ChainOwnerMismatchError => 500 | ChainModeError => 400
  end.
Definition error_code (k : ChainErrorKind) : string :=
  match k with
  | ChainCacheError => "chain_cache_error" | ChainNotFoundError => "chain_not_found" | ChainBusyError => "chain_busy"
  | ChainPrefixMismatchError => "chain_prefix_mismatch"
  | ChainFingerprintMismatchError => "chain_fingerprint_mismatch" | ChainGoneError => "chain_gone"
  | ChainCapacityError => "chain_capacity_unavailable" | ChainOwnerMismatchError => "chain_owner_mismatch"
  | ChainModeError => "chain_mode_disabled"
  end.

(** A chain error with the chain it names, or an exception of Python's own. *)
Inductive ChainExn :=
| ChainError (kind : ChainErrorKind) (chain_id : option string)
| Plain (e : PyExn).
#[export] Instance chain_exn_eq_dec : EqDecision ChainExn.
Proof. solve_decision. Defined.

Definition plain {A} (m : exc A) : outcome ChainExn A :=
  match m with Ok a => Ok a | Raise e => Raise (Plain e) end.

(** ** Modes *)

Definition CHAIN_PREFIX_METHODS : list string := ["streamingllm"; "snapkv"; "h2o"; "pyramidkv"; "rkv"; "skipkv"].
Definition RADIX_PREFIX_METHODS : list string := [""; "omnikv"; "quest"].
Definition PREFIX_CACHE_MODES : list string := ["auto"; "radix"; "chain"].

Definition normalize_prefix_cache_mode (requested : option string) (enabled : bool) (method : string) : exc string :=
  let mode := strip_lower (match requested with None | Some EmptyString => "auto" | Some r => r end) in
  if negb (bool_decide (mode ∈ PREFIX_CACHE_MODES)) then Raise (ValueError "prefix_cache_mode must be one of")
  else if negb enabled then Ok "disabled"
  else
    let expected :=
      if bool_decide (method ∈ RADIX_PREFIX_METHODS) then Some "radix"
      else if bool_decide (method ∈ CHAIN_PREFIX_METHODS) then Some "chain" else None in
    match expected with
    | None => Raise (ValueError "prefix caching is not supported for")
    | Some x =>
        if String.eqb mode "auto" then Ok x
        else if negb (String.eqb mode x) then Raise (ValueError "prefix_cache_mode is incompatible with")
        else Ok mode
    end.

(** ** Records and plans *)

Inductive ChainState := ACTIVE | IDLE.
#[export] Instance chain_state_eq_dec : EqDecision ChainState.
Proof. solve_decision. Defined.

Record ChainRecord := mkChain {
  chain_id : string;
  chain_seq_id : Z;
  fingerprint : bytes;
  chain_state : ChainState;
  processed_token_count : Z;
  processed_token_digest : bytes;
  history : list Z;
  last_input_token_count : Z;
  last_access : Z;
  physical_slots_by_layer : list Z;
  resident_rows : Z;
  reserved_slots_by_layer : list Z;
  reserved_rows : Z;
}.
#[export] Instance eta_chain : Eta ChainRecord := fun r =>
  mkChain (chain_id r) (chain_seq_id r) (fingerprint r) (chain_state r) (processed_token_count r)
    (processed_token_digest r) (history r) (last_input_token_count r) (last_access r)
    (physical_slots_by_layer r) (resident_rows r) (reserved_slots_by_layer r) (reserved_rows r).

Inductive PlanStatus := Created | Resumed.
#[export] Instance plan_status_eq_dec : EqDecision PlanStatus.
Proof. solve_decision. Defined.

Record ChainAdmissionPlan := mkPlan {
  plan_chain_id : string;
  plan_seq_id : Z;
  plan_status : PlanStatus;
  reused_tokens : Z;
  input_token_count : Z;
  victim_chain_ids : list string;
  plan_reserved_slots : list Z;
  plan_reserved_rows : Z;
}.
#[export] Instance plan_eq_dec : EqDecision ChainAdmissionPlan.
Proof. solve_decision. Defined.

(** [_stats] *)
Record ChainStats := mkChainStats {
  stat_created : Z; stat_resumed : Z; stat_finished : Z; stat_evicted : Z; stat_invalidated : Z;
  stat_prefix_mismatch : Z; stat_busy : Z;
}.
#[export] Instance eta_chain_stats : Eta ChainStats := fun r =>
  mkChainStats (stat_created r) (stat_resumed r) (stat_finished r) (stat_evicted r) (stat_invalidated r)
    (stat_prefix_mismatch r) (stat_busy r).
Definition no_stats : ChainStats := mkChainStats 0 0 0 0 0 0 0.

Record ChainCacheIndex := mkChainIndex {
  max_tombstones : Z;
  max_token_history_tokens : option Z;
  token_history_tokens : Z;
  chain_records : PyDict string ChainRecord;
  seq_id_to_chain_id : gmap Z string;
  tombstones : PyDict string Z;
  chain_clock : Z;
  chain_stats : ChainStats;
}.
#[export] Instance eta_chain_index : Eta ChainCacheIndex := fun r =>
  mkChainIndex (max_tombstones r) (max_token_history_tokens r) (token_history_tokens r) (chain_records r)
    (seq_id_to_chain_id r) (tombstones r) (chain_clock r) (chain_stats r).

(** [ChainCacheIndex.__init__] *)
Definition new_chain_index (max_tomb : Z) (max_history : option Z) : exc ChainCacheIndex :=
  if max_tomb <=? 0 then Raise (ValueError "chain_cache_max_tombstones must be > 0")
  else
    match max_history with
    | Some n => if n <=? 0 then Raise (ValueError "max_token_history_tokens must be > 0 when set")
                else Ok (mkChainIndex max_tomb max_history 0 ∅ ∅ ∅ 0 no_stats)
    | None => Ok (mkChainIndex max_tomb max_history 0 ∅ ∅ ∅ 0 no_stats)
    end.

Abbreviation ChainAct := (Act ChainExn ChainCacheIndex).

(** ** Bookkeeping *)

Definition tick : ChainAct Z :=
  modify (fun s => s <| chain_clock ::= Z.succ |>) ;; read chain_clock.

(** The [while] loop that drops the oldest tombstones. *)
Fixpoint trim_tombstones (fuel : nat) (limit : Z) (d : PyDict string Z) : PyDict string Z :=
  match fuel with
  | O => d
  | S fuel' => if limit <? Z.of_nat (len d) then trim_tombstones fuel' limit (pop_first d) else d
  end.

Definition add_tombstone (id : string) : ChainAct unit :=
  modify (fun s => s <| tombstones ::= delete id |>) ;;
  t ← tick;
  modify (fun s => s <| tombstones ::= <[id := t]> |>) ;;
  modify (fun s => s <| tombstones ::= fun d => trim_tombstones (len d) (max_tombstones s) d |>).

(** Updating a record in place. *)
Definition set_record (id : string) (f : ChainRecord -> ChainRecord) : ChainAct unit :=
  modify (fun s => match chain_records s !! id with
                   | Some r => s <| chain_records ::= <[id := f r]> |>
                   | None => s
                   end).

Definition is_u32 (t : Z) : bool := (0 <=? t) && (t <=? 4294967295).

Definition prepare_token_history (r : ChainRecord) (token_ids : list Z) (processed : Z) : ChainAct (list Z) :=
  guard_not (processed <? 0) (Plain (ValueError "processed_token_count must be >= 0")) ;;
  guard_not (negb (forallb is_u32 token_ids)) (ChainError ChainOwnerMismatchError (Some (chain_id r))) ;;
  guard_not (Z.of_nat (length token_ids) <? processed) (ChainError ChainOwnerMismatchError (Some (chain_id r))) ;;
  s ← read (fun s => s);
  let next_total := token_history_tokens s - Z.of_nat (length (history r)) + Z.of_nat (length token_ids) in
  guard_not (match max_token_history_tokens s with Some n => n <? next_total | None => false end)
    (ChainError ChainCapacityError (Some (chain_id r))) ;;
  mret token_ids.

(** [_store_token_history], [_drop_token_history]: of the record named [id]. *)
Definition store_token_history (id : string) (tokens : list Z) : ChainAct unit :=
  s ← read (fun s => s);
  match chain_records s !! id with
  | None => mret tt
  | Some r =>
      modify (fun s => s <| token_history_tokens ::= fun n => n - Z.of_nat (length (history r)) |>) ;;
      set_record id (fun r => r <| history := tokens |>) ;;
      modify (fun s => s <| token_history_tokens ::= fun n => n + Z.of_nat (length tokens) |>)
  end.
Definition drop_token_history (id : string) : ChainAct unit :=
  s ← read (fun s => s);
  match chain_records s !! id with
  | None => mret tt
  | Some r =>
      modify (fun s => s <| token_history_tokens ::= fun n => n - Z.of_nat (length (history r)) |>) ;;
      set_record id (fun r => r <| history := [] |>)
  end.

Definition lookup_record (id : string) : ChainAct ChainRecord := fun s =>
  match chain_records s !! id with
  | Some r => (Ok r, s)
  | None =>
      if has_key id (tombstones s) then (Raise (ChainError ChainGoneError (Some id)), s)
      else (Raise (ChainError ChainNotFoundError (Some id)), s)
  end.

Definition bump (f : ChainStats -> ChainStats) : ChainAct unit := modify (fun s => s <| chain_stats ::= f |>).

(** The end of a chain: its history, its entries and a tombstone. *)
Definition retire (r : ChainRecord) (id : string) : ChainAct ChainRecord :=
  drop_token_history id ;;
  modify (fun s => s <| chain_records ::= delete id |>) ;;
  modify (fun s => s <| seq_id_to_chain_id ::= delete (chain_seq_id r) |>) ;;
  add_tombstone id ;;
  mret (r <| history := [] |>).

Definition invalidate (id : string) : ChainAct ChainRecord :=
  r ← lookup_record id;
  r' ← retire r id;
  bump (fun c => c <| stat_invalidated ::= Z.succ |>) ;;
  mret r'.

Definition evict (id : string) : ChainAct ChainRecord :=
  r ← lookup_record id;
  guard_not (bool_decide (chain_state r = ACTIVE)) (ChainError ChainBusyError (Some id)) ;;
  r' ← retire r id;
  bump (fun c => c <| stat_evicted ::= Z.succ |>) ;;
  mret r'.

(** ** Planning an admission *)

(** The input is given by its tokens or, to a worker, by the digest of its
    processed prefix. *)
Inductive PlanInput :=
| InputTokens (l : list Z)
| InputDigest (count : Z) (d : bytes).
Definition input_count (i : PlanInput) : Z :=
  match i with InputTokens l => Z.of_nat (length l) | InputDigest n _ => n end.

(** The idle chains in the order in which they are evicted. *)
Definition older (a b : ChainRecord) : bool :=
  (last_access a <? last_access b) || ((last_access a =? last_access b) && String.leb (chain_id a) (chain_id b)).
#[export] Instance older_dec a b : Decision (older a b = true) := decide (older a b = true).
Definition idle_others (id : string) (s : ChainCacheIndex) : list ChainRecord :=
  filter (fun r => chain_state r = IDLE /\ chain_id r <> id) (values (chain_records s)).
Definition candidates (id : string) (s : ChainCacheIndex) : list ChainRecord :=
  merge_sort (fun a b => older a b = true) (idle_others id s).

(** What is missing: rows and slots per layer. *)
Definition Deficit : Type := Z * list Z.
Definition unmet (d : Deficit) : bool := (0 <? d.1) || existsb (fun v => negb (v =? 0)) d.2.
Definition pay (v : ChainRecord) (d : Deficit) : Deficit :=
  (Z.max 0 (d.1 - resident_rows v),
   imap (fun i n => Z.max 0 (n - default 0 (physical_slots_by_layer v !! i))) d.2).

Fixpoint choose_victims (cs : list ChainRecord) (d : Deficit) (victims : list string) : list string * Deficit :=
  match cs with
  | [] => (victims, d)
  | v :: cs' => if negb (unmet d) then (victims, d) else choose_victims cs' (pay v d) (victims ++ [chain_id v])
  end.

Section digest.
Context `{Digest}.

Definition stable_token_digest (token_ids : list Z) (count : option Z) : outcome ChainExn bytes :=
  let used := match count with Some c => take (Z.to_nat c) token_ids | None => token_ids end in
  packed ← plain (pack_token_ids used);
  match count with
  | Some c => if Z.of_nat (length used) =? c then Ok (digest packed)
              else Raise (ChainError ChainPrefixMismatchError None)
  | None => Ok (digest packed)
  end.

(** The digest of the prefix that the record has processed. *)
Definition prefix_digest (id : string) (r : ChainRecord) (input : PlanInput) : outcome ChainExn bytes :=
  match input with
  | InputTokens l => stable_token_digest l (Some (processed_token_count r))
  | InputDigest n d =>
      if n <? processed_token_count r then Raise (ChainError ChainPrefixMismatchError (Some id)) else Ok d
  end.

(** The checks on a resident chain; the answer is what it can reuse. *)
Definition resume_check (id : string) (seq_id : Z) (fp : bytes) (input : PlanInput) (r : ChainRecord) : ChainAct Z :=
  (if bool_decide (chain_state r = ACTIVE) then
     bump (fun c => c <| stat_busy ::= Z.succ |>) ;; throw (ChainError ChainBusyError (Some id))
   else mret tt) ;;
  guard_not (negb (bool_decide (fingerprint r = fp))) (ChainError ChainFingerprintMismatchError (Some id)) ;;
  guard_not (negb (chain_seq_id r =? seq_id)) (ChainError ChainOwnerMismatchError (Some id)) ;;
  d ← (match prefix_digest id r input with
       | Raise (ChainError ChainPrefixMismatchError c) =>
           bump (fun c => c <| stat_prefix_mismatch ::= Z.succ |>) ;;
           throw (ChainError ChainPrefixMismatchError (Some (default id c)))
       | m => lift m
       end);
  (if negb (bool_decide (d = processed_token_digest r)) then
     bump (fun c => c <| stat_prefix_mismatch ::= Z.succ |>) ;; throw (ChainError ChainPrefixMismatchError (Some id))
   else mret tt) ;;
  mret (processed_token_count r).

Definition plan_admission_core (id : string) (seq_id : Z) (input : PlanInput) (fp : bytes)
    (required : list Z) (row_deficit : Z) (reserved : list Z) (rows : Z) : ChainAct ChainAdmissionPlan :=
  s ← read (fun s => s);
  found ← (match chain_records s !! id with
           | None =>
               when (has_key id (tombstones s)) (lookup_record id ;; mret tt) ;;
               mret (Created, 0)
           | Some r => n ← resume_check id seq_id fp input r; mret (Resumed, n)
           end);
  let '(status, reused) := found in
  s ← read (fun s => s);
  let '(victims, missing) := choose_victims (candidates id s) (Z.max 0 row_deficit, Z.max 0 <$> required) [] in
  guard_not (unmet missing) (ChainError ChainCapacityError (Some id)) ;;
  mret (mkPlan id seq_id status reused (input_count input) victims (Z.max 0 <$> reserved) (Z.max 0 rows)).

Definition plan_admission (id : string) (seq_id : Z) (token_ids : list Z) :=
  plan_admission_core id seq_id (InputTokens token_ids).
Definition plan_admission_digest (id : string) (seq_id count : Z) (d : bytes) :=
  plan_admission_core id seq_id (InputDigest count d).

(** ** Applying a plan *)

Definition new_record (p : ChainAdmissionPlan) (fp : bytes) (now : Z) : ChainRecord :=
  mkChain (plan_chain_id p) (plan_seq_id p) fp ACTIVE 0 [] [] (input_token_count p) now [] 1 [] 0.

(** The record of [id], read back after an update. *)
Definition get_record (id : string) : ChainAct ChainRecord := fun s =>
  match chain_records s !! id with
  | Some r => (Ok r, s)
  | None => (Raise (Plain (KeyError "record")), s)
  end.

Definition apply_admission (p : ChainAdmissionPlan) (fp : bytes) : ChainAct ChainRecord :=
  for_each (victim_chain_ids p) (fun v => evict v ;; mret tt) ;;
  match plan_status p with
  | Created =>
      s ← read (fun s => s);
      guard_not (has_key (plan_chain_id p) (chain_records s)) (ChainError ChainOwnerMismatchError (Some (plan_chain_id p))) ;;
      guard_not (bool_decide (is_Some (seq_id_to_chain_id s !! plan_seq_id p)))
        (ChainError ChainOwnerMismatchError (Some (plan_chain_id p))) ;;
      now ← tick;
      modify (fun s => s <| chain_records ::= <[plan_chain_id p := new_record p fp now]> |>) ;;
      modify (fun s => s <| seq_id_to_chain_id ::= <[plan_seq_id p := plan_chain_id p]> |>) ;;
      set_record (plan_chain_id p) (fun r => r <| reserved_slots_by_layer := plan_reserved_slots p |>
                                               <| reserved_rows := plan_reserved_rows p |>) ;;
      bump (fun c => c <| stat_created ::= Z.succ |>) ;;
      get_record (plan_chain_id p)
  | Resumed =>
      r ← lookup_record (plan_chain_id p);
      guard_not (negb (bool_decide (chain_state r = IDLE))) (ChainError ChainBusyError (Some (plan_chain_id p))) ;;
      now ← tick;
      set_record (plan_chain_id p) (fun r =>
        r <| chain_state := ACTIVE |> <| last_input_token_count := input_token_count p |> <| last_access := now |>
          <| reserved_slots_by_layer := plan_reserved_slots p |> <| reserved_rows := plan_reserved_rows p |>) ;;
      bump (fun c => c <| stat_resumed ::= Z.succ |>) ;;
      get_record (plan_chain_id p)
  end.

(** ** Finishing a request *)

Definition finish_digest (id : string) (d : bytes) (processed : Z) (slots : list Z) (rows : Z) : ChainAct ChainRecord :=
  r ← lookup_record id;
  guard_not (negb (bool_decide (chain_state r = ACTIVE))) (ChainError ChainOwnerMismatchError (Some id)) ;;
  guard_not (processed <? processed_token_count r) (ChainError ChainOwnerMismatchError (Some id)) ;;
  guard_not (negb (Z.of_nat (length d) =? 32)) (Plain (ValueError "processed_token_digest must be a SHA-256 digest")) ;;
  set_record id (fun r =>
    r <| processed_token_digest := d |> <| processed_token_count := processed |>
      <| physical_slots_by_layer := slots |> <| resident_rows := rows |>
      <| reserved_slots_by_layer := [] |> <| reserved_rows := 0 |> <| chain_state := IDLE |>) ;;
  now ← tick;
  set_record id (fun r => r <| last_access := now |>) ;;
  bump (fun c => c <| stat_finished ::= Z.succ |>) ;;
  get_record id.

Definition finish (id : string) (token_ids : list Z) (processed : Z) (slots : list Z) (rows : Z) : ChainAct ChainRecord :=
  existing ← lookup_record id;
  tokens ← prepare_token_history existing token_ids processed;
  d ← lift (stable_token_digest token_ids (Some processed));
  finish_digest id d processed slots rows ;;
  store_token_history id tokens ;;
  get_record id.
End digest.

(** ** Routing and maintenance *)

(** [{"present", "state", "tombstone"}] *)
Definition routing_match (id : string) (s : ChainCacheIndex) : bool * option ChainState * bool :=
  match chain_records s !! id with
  | Some r => (true, Some (chain_state r), false)
  | None => (false, None, has_key id (tombstones s))
  end.

Record ChainRoutingSnapshot := mkChainSnapshot {
  snapshot_enabled : bool;
  active_chain_ids : gset string;
  idle_chain_ids : gset string;
  tombstone_chain_ids : gset string;
}.
Definition ids_in_state (st : ChainState) (s : ChainCacheIndex) : gset string :=
  list_to_set (chain_id <$> filter (fun r => chain_state r = st) (values (chain_records s))).
Definition chain_routing_snapshot (s : ChainCacheIndex) : ChainRoutingSnapshot :=
  mkChainSnapshot true (ids_in_state ACTIVE s) (ids_in_state IDLE s) (list_to_set (keys (tombstones s))).
Definition chain_snapshot_match (n : ChainRoutingSnapshot) (id : string) : bool * bool * option ChainState * bool :=
  if bool_decide (id ∈ active_chain_ids n) then (snapshot_enabled n, true, Some ACTIVE, false)
  else if bool_decide (id ∈ idle_chain_ids n) then (snapshot_enabled n, true, Some IDLE, false)
  else (snapshot_enabled n, false, None, bool_decide (id ∈ tombstone_chain_ids n)).

Definition reset_index : ChainAct unit :=
  modify (fun s => s <| chain_records := ∅ |> <| seq_id_to_chain_id := ∅ |> <| tombstones := ∅ |>
                     <| chain_clock := 0 |> <| token_history_tokens := 0 |> <| chain_stats := no_stats |>).

(** [stats] *)
Definition count_state (st : ChainState) (s : ChainCacheIndex) : Z :=
  Z.of_nat (length (filter (fun r => chain_state r = st) (values (chain_records s)))).
Definition index_stats (s : ChainCacheIndex) : list (string * Z) :=
  let c := chain_stats s in
  [("chain_cache_created", stat_created c); ("chain_cache_resumed", stat_resumed c);
   ("chain_cache_finished", stat_finished c); ("chain_cache_evicted", stat_evicted c);
   ("chain_cache_invalidated", stat_invalidated c); ("chain_cache_prefix_mismatch", stat_prefix_mismatch c);
   ("chain_cache_busy", stat_busy c); ("chain_cache_entries", Z.of_nat (len (chain_records s)));
   ("chain_cache_active", count_state ACTIVE s); ("chain_cache_idle", count_state IDLE s);
   ("chain_cache_tombstones", Z.of_nat (len (tombstones s))); ("chain_cache_tombstone_capacity", max_tombstones s);
   ("chain_cache_token_history_tokens", token_history_tokens s);
   ("chain_cache_token_history_capacity", default (-1) (max_token_history_tokens s));
   ("chain_cache_token_history_bytes", token_history_tokens s * 4);
   ("chain_cache_token_history_byte_capacity",
     match max_token_history_tokens s with None => -1 | Some n => n * 4 end)]%string.
