(* ===== verification/ChainCoordinator.v ===== *)
(** * The chain cache coordinator

    [ChainCacheCoordinator] of [engine/chain_cache.py]: what an engine rank does
    with the chain index when a request is admitted and when it finishes.  The
    cache manager is an interface of optional hooks, each of which may raise;
    the fingerprint is computed once from the configuration. *)

From stdpp Require Import base gmap list strings.
From Stdlib Require Import ZArith Lia.
From S2P Require Import Prelude PyDict PyBytes Sha256 SamplingParams Sequence ChainCache.

(** What a chain admission asks of the cache manager. *)
Record DeficitQuery := mkQuery {
  suffix_tokens : Z;
  generation_tokens : Z;
  existing_slots_by_layer : list Z;
  outstanding_reserved_slots : list Z;
  outstanding_reserved_rows : Z;
  needs_resident_row : bool;
}.
Record DeficitReply := mkReply {
  required_slots : list Z;
  required_rows : Z;
  slot_deficits : list Z;
  row_deficit_of : Z;
}.
(** The hooks; [None] is a manager without the method. *)
Record ChainCacheManager := mkManager {
  chain_capacity_deficits : option (DeficitQuery -> exc DeficitReply);
  chain_has_residency : option (Z -> exc bool);
  chain_physical_residency : option (Z -> exc (list Z));
}.

(** The fields of the configuration [__init__] reads. *)
Record ChainConfig := mkChainConfig {
  chain_cache_max_tombstones : Z;
  max_model_len : Z;
  max_num_seqs_in_gpu : Z;
}.
Definition coordinator_index (c : ChainConfig) : exc ChainCacheIndex :=
  new_chain_index (chain_cache_max_tombstones c)
    (Some (max_model_len c * (if max_num_seqs_in_gpu c =? 0 then 1 else max_num_seqs_in_gpu c))).

Section coordinator.
Context `{Digest} (config_fingerprint : bytes) (manager : ChainCacheManager).

Definition owner_seq_id (id : string) : ChainAct Z := r ← lookup_record id; mret (chain_seq_id r).

(** [l[i] if i < len(l) else 0] *)
Definition layer (l : list Z) (i : nat) : Z := default 0 (l !! i).

Definition is_resident (r : ChainRecord) : exc bool :=
  match chain_has_residency manager with None => Ok false | Some f => f (chain_seq_id r) end.
Definition current_slots (r : ChainRecord) (resident : bool) : exc (list Z) :=
  match chain_physical_residency manager with
  | Some f => if resident then f (chain_seq_id r) else Ok (physical_slots_by_layer r)
  | None => Ok (physical_slots_by_layer r)
  end.
(** What [r] reserved and has not yet written, per layer, added to [outstanding]. *)
Definition add_outstanding (r : ChainRecord) (current : list Z) (outstanding : list Z) : list Z :=
  let reserved := reserved_slots_by_layer r in
  let padded := outstanding ++ replicate (length reserved - length outstanding) 0 in
  imap (fun i n =>
    match reserved !! i with
    | Some want => n + Z.max 0 (want - Z.max 0 (layer current i - layer (physical_slots_by_layer r) i))
    | None => n
    end) padded.

Fixpoint outstanding_loop (rs : list ChainRecord) (slots : list Z) (rows : Z) : exc (list Z * Z) :=
  match rs with
  | [] => Ok (slots, rows)
  | r :: rs' =>
      if negb (bool_decide (chain_state r = ACTIVE)) then outstanding_loop rs' slots rows
      else
        resident ← is_resident r;
        current ← current_slots r resident;
        outstanding_loop rs' (add_outstanding r current slots)
          (rows + Z.max 0 (reserved_rows r - (if (resident : bool) then 1 else 0)))
  end.
Definition outstanding_active_reservations (s : ChainCacheIndex) : exc (list Z * Z) :=
  outstanding_loop (values (chain_records s)) [] 0.

Definition admission_requirements (id : string) (token_count gen_tokens : Z) (s : ChainCacheIndex) : exc DeficitReply :=
  let record := chain_records s !! id in
  let reused := match record with None => 0 | Some r => processed_token_count r end in
  let existing := match record with None => [] | Some r => physical_slots_by_layer r end in
  match chain_capacity_deficits manager with
  | None => Ok (mkReply [] 0 [] 0)
  | Some hook =>
      outstanding ← outstanding_active_reservations s;
      hook (mkQuery (Z.max 0 (token_count - reused)) (Z.max 0 gen_tokens) existing
              outstanding.1 outstanding.2 (bool_decide (record = None)))
  end.

Definition requirements (id : string) (token_count gen_tokens : Z) : ChainAct DeficitReply := fun s =>
  (plain (admission_requirements id token_count gen_tokens s), s).

Definition coordinator_plan (id : string) (seq_id : Z) (token_ids : list Z) (gen_tokens : Z) : ChainAct ChainAdmissionPlan :=
  q ← requirements id (Z.of_nat (length token_ids)) gen_tokens;
  plan_admission id seq_id token_ids config_fingerprint (slot_deficits q) (row_deficit_of q) (required_slots q) (required_rows q).

Definition validate_admission_plan (expected : ChainAdmissionPlan) (count : Z) (d : bytes) (gen_tokens : Z) :
    ChainAct ChainAdmissionPlan :=
  q ← requirements (plan_chain_id expected) count gen_tokens;
  plan ← plan_admission_digest (plan_chain_id expected) (plan_seq_id expected) count d config_fingerprint
           (slot_deficits q) (row_deficit_of q) (required_slots q) (required_rows q);
  guard_not (negb (bool_decide (plan = expected)))
    (Plain (RuntimeError "Chain-cache admission plan diverged from the rank-0 plan")) ;;
  mret plan.

Definition coordinator_apply (p : ChainAdmissionPlan) : ChainAct ChainRecord := apply_admission p config_fingerprint.

Definition residency_of (seq_id : Z) : exc (list Z) :=
  match chain_physical_residency manager with None => Ok [] | Some f => f seq_id end.

Definition coordinator_finish (q : Sequence) : ChainAct ChainRecord :=
  let id := default ""%string (Sequence.chain_id (tags q)) in
  guard_not (String.eqb id "") (ChainError ChainOwnerMismatchError None) ;;
  slots ← lift (plain (residency_of (seq_id q)));
  finish id (token_ids q) (Z.max 0 (num_tokens q - 1)) slots 1.

Definition finish_values (id : string) (seq_id : Z) (d : bytes) (processed : Z) : ChainAct ChainRecord :=
  r ← lookup_record id;
  guard_not (negb (chain_seq_id r =? seq_id)) (ChainError ChainOwnerMismatchError (Some id)) ;;
  slots ← lift (plain (residency_of seq_id));
  finish_digest id d processed slots 1.

Definition remember_processed_tokens (id : string) (seq_id : Z) (token_ids : list Z) (processed : Z) : ChainAct ChainRecord :=
  r ← lookup_record id;
  guard_not (negb (chain_seq_id r =? seq_id)) (ChainError ChainOwnerMismatchError (Some id)) ;;
  guard_not (negb (bool_decide (chain_state r = IDLE))) (ChainError ChainOwnerMismatchError (Some id)) ;;
  tokens ← prepare_token_history r token_ids processed;
  d ← lift (stable_token_digest tokens (Some processed));
  guard_not (negb (processed =? processed_token_count r) || negb (bool_decide (d = processed_token_digest r)))
    (ChainError ChainOwnerMismatchError (Some id)) ;;
  store_token_history id tokens ;;
  get_record id.

(** [invalidate], [routing_match], [stats] and [reset] are the index's own. *)

(** ** One engine action *)

(** What an engine asks of its coordinator; an action may raise. *)
Inductive ChainOp :=
| OpAdmit (id : string) (seq_id : Z) (token_ids : list Z) (gen_tokens : Z)
| OpFollow (plan : ChainAdmissionPlan) (count : Z) (d : bytes) (gen_tokens : Z)
| OpFinish (q : Sequence)
| OpFinishValues (id : string) (seq_id : Z) (d : bytes) (processed : Z)
| OpRemember (id : string) (seq_id : Z) (token_ids : list Z) (processed : Z)
| OpInvalidate (id : string)
| OpReset.

Definition run_chain_op (op : ChainOp) : ChainAct unit :=
  match op with
  | OpAdmit id seq_id tokens gen => p ← coordinator_plan id seq_id tokens gen; coordinator_apply p ;; mret tt
  | OpFollow p n d gen => p' ← validate_admission_plan p n d gen; coordinator_apply p' ;; mret tt
  | OpFinish q => coordinator_finish q ;; mret tt
  | OpFinishValues id seq_id d n => finish_values id seq_id d n ;; mret tt
  | OpRemember id seq_id tokens n => remember_processed_tokens id seq_id tokens n ;; mret tt
  | OpInvalidate id => invalidate id ;; mret tt
  | OpReset => reset_index
  end.
(** The index after a list of actions, whether or not they raised. *)
Definition run_chain_ops (ops : list ChainOp) (s : ChainCacheIndex) : ChainCacheIndex :=
  foldl (fun s op => (run_chain_op op s).2) s ops.
End coordinator.
