(* ===== verification/ChainFacts.v ===== *)
(** * The chain cache: the index invariant

    The invariant of the index, and that every action of the coordinator keeps
    it, whether the action returns or raises. *)

From stdpp Require Import base gmap list strings sorting.
From Stdlib Require Import ZArith Lia.
From S2P Require Import Prelude PyDict PyBytes Sha256 SamplingParams Sequence ChainCache ChainCoordinator.

(** ** Sums over a dictionary *)

Section dict_sum.
Context {K V : Type} `{EqDecision K} (f : V -> Z).
Implicit Types d : PyDict K V.

Definition dict_sum d : Z := sumZ (f <$> values d).

Lemma dict_sum_delete d k v : dict_wf d -> d !! k = Some v -> dict_sum d = f v + dict_sum (delete k d).
Proof.
  intros Hwf Hk. unfold dict_sum, values. pose proof (dict_items_delete_Some d k v Hwf Hk) as Hp.
  rewrite Hp. done.
Qed.
Lemma dict_delete_insert d k v : delete k (<[k:=v]> d) = delete k d.
Proof.
  destruct d as [l]. unfold insert, dict_insert, delete, dict_delete. cbn. f_equal.
  induction l as [|[k' v'] l IH]; cbn; [by rewrite bool_decide_eq_true_2|].
  case_decide; cbn.
  - subst. rewrite !bool_decide_eq_true_2 by done. done.
  - rewrite bool_decide_eq_false_2 by done. cbn. by rewrite IH.
Qed.
Lemma dict_sum_insert_new d k v : d !! k = None -> dict_sum (<[k:=v]> d) = dict_sum d + f v.
Proof.
  intros Hk. unfold dict_sum, values. rewrite dict_items_insert_None by done.
  rewrite !fmap_app, sumZ_app. cbn. lia.
Qed.
Lemma dict_sum_insert d k v v' : dict_wf d -> d !! k = Some v -> dict_sum (<[k:=v']> d) = dict_sum d - f v + f v'.
Proof.
  intros Hwf Hk. rewrite (dict_sum_delete d k v Hwf Hk).
  rewrite (dict_sum_delete (<[k:=v']> d) k v'), dict_delete_insert; [lia|by apply dict_wf_insert|apply dict_lookup_insert_eq].
Qed.
End dict_sum.

Definition tokens_held (r : ChainRecord) : Z := Z.of_nat (length (history r)).

(** ** The invariant *)

Record record_ok (now : Z) (id : string) (r : ChainRecord) : Prop := {
  ro_id : chain_id r = id;
  ro_access : last_access r <= now;
  ro_processed : 0 <= processed_token_count r;
  ro_idle : chain_state r = IDLE ->
    reserved_slots_by_layer r = [] /\ reserved_rows r = 0 /\ length (processed_token_digest r) = 32%nat;
}.

Record chain_ok (s : ChainCacheIndex) : Prop := {
  ck_positive : 0 < max_tombstones s;
  ck_wf : dict_wf (chain_records s);
  ck_records : forall id r, chain_records s !! id = Some r -> record_ok (chain_clock s) id r;
  ck_owner : forall q id, seq_id_to_chain_id s !! q = Some id <->
    exists r, chain_records s !! id = Some r /\ chain_seq_id r = q;
  ck_history : token_history_tokens s = dict_sum tokens_held (chain_records s);
  ck_capacity : forall n, max_token_history_tokens s = Some n -> token_history_tokens s <= n;
  ck_tombstones : dict_wf (tombstones s) /\ Z.of_nat (len (tombstones s)) <= max_tombstones s;
  ck_disjoint : forall id, is_Some (chain_records s !! id) -> tombstones s !! id = None;
}.

Lemma record_ok_mono now now' id r : now <= now' -> record_ok now id r -> record_ok now' id r.
Proof. intros Hle [H1 H2 H3 H4]. split; [done|lia|done|done]. Qed.

(** Statistics do not matter. *)
Definition index_core (s : ChainCacheIndex) :=
  (max_tombstones s, max_token_history_tokens s, token_history_tokens s, chain_records s, seq_id_to_chain_id s,
   tombstones s, chain_clock s).
Lemma chain_ok_core s s' : chain_ok s -> index_core s' = index_core s -> chain_ok s'.
Proof.
  destruct s, s'. unfold index_core. cbn. intros [H1 H2 H3 H4 H5 H6 H7 H8] E. simplify_eq. by split.
Qed.
Lemma chain_ok_stats s f : chain_ok s -> chain_ok (s <| chain_stats ::= f |>).
Proof. by intros [H1 H2 H3 H4 H5 H6 H7 H8]. Qed.

Lemma chain_ok_tick s : chain_ok s -> chain_ok (s <| chain_clock ::= Z.succ |>).
Proof.
  intros [H1 H2 H3 H4 H5 H6 H7 H8]. split; try done. cbn. intros id r Hr.
  eapply record_ok_mono; [|by apply H3]. lia.
Qed.

(** Updating one record. *)
Lemma chain_ok_set s id r r' : chain_ok s -> chain_records s !! id = Some r ->
  record_ok (chain_clock s) id r' -> chain_seq_id r' = chain_seq_id r -> history r' = history r ->
  chain_ok (s <| chain_records ::= <[id := r']> |>).
Proof.
  intros [H1 H2 H3 H4 H5 H6 H7 H8] Hr Hok Hseq Hh. split; try done; cbn.
  - by apply dict_wf_insert.
  - intros id' x. rewrite dict_lookup_insert. case_decide; [|apply H3]. intros [= <-]. by subst.
  - intros q id'. rewrite H4. split; intros (x & Hx & Hq).
    + rewrite dict_lookup_insert. case_decide; [|by eauto]. subst. rewrite Hr in Hx. injection Hx as <-. eauto.
    + rewrite dict_lookup_insert in Hx. case_decide; [|by eauto]. subst. injection Hx as <-. eauto.
  - rewrite (dict_sum_insert _ _ _ r) by done. unfold tokens_held at 2 3. rewrite Hh. lia.
  - intros id'. rewrite dict_lookup_insert. case_decide; [|by apply H8]. subst. intros _. apply H8. eauto.
Qed.

Lemma chain_ok_store s id r tokens : chain_ok s -> chain_records s !! id = Some r ->
  (forall n, max_token_history_tokens s = Some n ->
     token_history_tokens s - tokens_held r + Z.of_nat (length tokens) <= n) ->
  chain_ok (s <| chain_records ::= <[id := r <| history := tokens |>]> |>
              <| token_history_tokens ::= fun n => n - tokens_held r + Z.of_nat (length tokens) |>).
Proof.
  intros [H1 H2 H3 H4 H5 H6 H7 H8] Hr Hcap. split; try done; cbn.
  - by apply dict_wf_insert.
  - intros id' x. rewrite dict_lookup_insert. case_decide; [|apply H3]. intros [= <-]. subst.
    destruct (H3 _ _ Hr) as [? ? ? ?]. by split.
  - intros q id'. rewrite H4. split; intros (x & Hx & Hq).
    + rewrite dict_lookup_insert. case_decide; [|by eauto]. subst. rewrite Hr in Hx. injection Hx as <-. eauto.
    + rewrite dict_lookup_insert in Hx. case_decide; [|by eauto]. subst. injection Hx as <-. eauto.
  - rewrite (dict_sum_insert _ _ _ r) by done. unfold tokens_held at 4. cbn. lia.
  - intros id'. rewrite dict_lookup_insert. case_decide; [|by apply H8]. subst. intros _. apply H8. eauto.
Qed.

(** ** Tombstones *)

Lemma dict_wf_pop_first {V} (d : PyDict string V) : dict_wf d -> dict_wf (pop_first d).
Proof. destruct d as [[|[k v] l]]; [done|]. unfold dict_wf, keys. cbn. by intros [_ ?]%NoDup_cons. Qed.
Lemma pop_first_None {V} (d : PyDict string V) k : d !! k = None -> pop_first d !! k = None.
Proof. destruct d as [[|[k' v] l]]; [done|]. unfold lookup, dict_lookup. cbn. by case_decide. Qed.

Lemma trim_tombstones_spec fuel limit d : 0 < limit -> dict_wf d -> (len d <= fuel)%nat ->
  dict_wf (trim_tombstones fuel limit d) /\ Z.of_nat (len (trim_tombstones fuel limit d)) <= limit /\
  forall k, d !! k = None -> trim_tombstones fuel limit d !! k = None.
Proof.
  intros Hl. revert d. induction fuel as [|fuel IH]; intros d Hwf Hlen; cbn.
  { split_and!; [done|lia|done]. }
  destruct (Z.ltb_spec limit (Z.of_nat (len d))); [|by split_and!].
  assert (len (pop_first d) <= fuel)%nat as Hlen'.
  { destruct d as [[|kv l]]; unfold len in *; cbn in *; lia. }
  destruct (IH (pop_first d) (dict_wf_pop_first _ Hwf) Hlen') as (? & ? & Hk). split_and!; [done|done|].
  intros k Hn. by apply Hk, pop_first_None.
Qed.

(** Tombstones of chains that are not resident. *)
Lemma chain_ok_tombstone s id : chain_ok s -> chain_records s !! id = None ->
  wp (add_tombstone id) (fun r s' => r = Ok tt /\ chain_ok s' /\
    chain_records s' = chain_records s /\ forall id', id' <> id -> tombstones s !! id' = None -> tombstones s' !! id' = None) s.
Proof.
  intros Hok Hid. unfold add_tombstone, tick. repeat wp_step. split; [done|].
  cbn. set (d := <[id:=Z.succ (chain_clock s)]> (delete id (tombstones s))).
  destruct (chain_ok_tick s Hok) as [H1 H2 H3 H4 H5 H6 [H7 H7'] H8]. cbn in *.
  assert (dict_wf d) as Hwf by (by apply dict_wf_insert, dict_wf_delete).
  destruct (trim_tombstones_spec (len d) (max_tombstones s) d) as (T1 & T2 & T3); [done|done|lia|].
  assert (forall id', id' <> id -> tombstones s !! id' = None -> d !! id' = None) as Hd.
  { intros id' Hne Hn. unfold d. rewrite dict_lookup_insert_ne, dict_lookup_delete_ne by done. done. }
  split_and!; [|done|intros; apply T3; by apply Hd].
  split; cbn; try done. intros id' Hs. apply T3, Hd; [|by apply H8]. intros ->. rewrite Hid in Hs. by destruct Hs.
Qed.

(** ** Operations *)

(** [m] keeps the invariant, whether it returns or raises. *)
Definition keeps {A} (m : ChainAct A) : Prop := forall s, chain_ok s -> wp m (fun _ s' => chain_ok s') s.

Lemma wp_lookup_record id (Q : outcome ChainExn ChainRecord -> ChainCacheIndex -> Prop) s :
  (forall r, chain_records s !! id = Some r -> Q (Ok r) s) ->
  (forall e, chain_records s !! id = None -> Q (Raise e) s) -> wp (lookup_record id) Q s.
Proof.
  intros H1 H2. unfold wp, lookup_record. destruct (chain_records s !! id) as [r|]; [by apply H1|].
  destruct (has_key _ _); by apply H2.
Qed.
Lemma wp_get_record id (Q : outcome ChainExn ChainRecord -> ChainCacheIndex -> Prop) s :
  (forall r, chain_records s !! id = Some r -> Q (Ok r) s) ->
  (forall e, chain_records s !! id = None -> Q (Raise e) s) -> wp (get_record id) Q s.
Proof. intros H1 H2. unfold wp, get_record. destruct (chain_records s !! id) as [r|]; [by apply H1|by apply H2]. Qed.
Lemma wp_set_record id f (Q : outcome ChainExn unit -> ChainCacheIndex -> Prop) s r :
  chain_records s !! id = Some r -> Q (Ok tt) (s <| chain_records ::= <[id := f r]> |>) -> wp (set_record id f) Q s.
Proof. intros Hr HQ. unfold wp, set_record, modify. cbn. by rewrite Hr. Qed.

Lemma retire_spec s id r r0 : chain_ok s -> chain_records s !! id = Some r -> r0 = r ->
  wp (retire r0 id) (fun x s' => (exists y, x = Ok y) /\ chain_ok s' /\ chain_records s' = delete id (chain_records s) /\
    forall id', id' <> id -> tombstones s !! id' = None -> tombstones s' !! id' = None) s.
Proof.
  intros Hok Hr ->. unfold retire, drop_token_history. apply wp_bind. do 2 wp_step. rewrite Hr. do 2 wp_step.
  eapply wp_set_record; [exact Hr|]. cbv beta iota. do 4 wp_step. cbn.
  match goal with |- wp _ _ ?x => set (s1 := x) end.
  assert (chain_records s1 = delete id (chain_records s)) as E by apply dict_delete_insert.
  assert (chain_ok s1) as Hok1.
  { destruct Hok as [H1 H2 H3 H4 H5 H6 H7 H8]. split; rewrite ?E; try done; cbn.
    - by apply dict_wf_delete.
    - intros id' x. rewrite dict_lookup_delete. case_decide; [done|]. apply H3.
    - intros q id'. rewrite lookup_delete_Some, H4. split.
      + intros (Hq & x & Hx & Hseq). exists x. rewrite dict_lookup_delete. case_decide; [|done]. subst. congruence.
      + intros (x & Hx & Hseq). rewrite dict_lookup_delete in Hx. case_decide; [done|]. split; [|by eauto].
        intros Heq. assert (seq_id_to_chain_id s !! q = Some id) as Hs1 by (apply H4; eauto).
        assert (seq_id_to_chain_id s !! q = Some id') as Hs2 by (apply H4; eauto). congruence.
    - rewrite H5, (dict_sum_delete _ _ id r) by done. unfold tokens_held at 1. lia.
    - intros n Hn. specialize (H6 n Hn). lia.
    - intros id' Hs. apply H8. rewrite dict_lookup_delete in Hs. case_decide; [by destruct Hs|done]. }
  assert (tombstones s1 = tombstones s) as Et by done. clearbody s1.
  apply wp_bind. eapply wp_mono; [apply (chain_ok_tombstone s1 id Hok1); rewrite E; apply dict_lookup_delete_eq|].
  cbv beta. intros x s' (-> & Hok' & E' & Ht). wp_step. split_and!; [by eexists|done|congruence|].
  intros id' Hne Hn. apply Ht; [done|congruence].
Qed.

Lemma keeps_invalidate id : keeps (invalidate id).
Proof.
  intros s Hok. unfold invalidate. apply wp_bind, wp_lookup_record; [|done]. intros r Hr.
  apply wp_bind. eapply wp_mono; [by eapply retire_spec|]. cbv beta. intros x s' ([y ->] & Hok' & _).
  unfold bump. repeat wp_step. by apply chain_ok_stats.
Qed.

(** What an eviction leaves alone. *)
Definition evicted_from (s s' : ChainCacheIndex) (id : string) : Prop :=
  (forall id', id' <> id -> chain_records s' !! id' = chain_records s !! id') /\
  (forall id', id' <> id -> tombstones s !! id' = None -> tombstones s' !! id' = None).

Lemma evict_spec id s : chain_ok s -> wp (evict id) (fun x s' => chain_ok s' /\ evicted_from s s' id) s.
Proof.
  intros Hok. unfold evict. apply wp_bind, wp_lookup_record; [|by intros]. intros r Hr. wp_step. wp_step; [by split|].
  apply wp_bind. eapply wp_mono; [by eapply retire_spec|]. cbv beta. intros x s' ([y ->] & Hok' & E & Ht).
  unfold bump. repeat wp_step. split; [by apply chain_ok_stats|]. split; [|done].
  intros id' Hne. cbn. rewrite E. by apply dict_lookup_delete_ne.
Qed.

Lemma keeps_bump f : keeps (bump f).
Proof. intros s Hok. unfold bump. wp_step. by apply chain_ok_stats. Qed.

Lemma prepare_spec r tokens n s :
  wp (prepare_token_history r tokens n) (fun x s' => s' = s /\ forall l, x = Ok l ->
    l = tokens /\ 0 <= n <= Z.of_nat (length tokens) /\ forallb is_u32 tokens = true /\
    forall m, max_token_history_tokens s = Some m -> token_history_tokens s - tokens_held r + Z.of_nat (length tokens) <= m) s.
Proof.
  unfold prepare_token_history. apply wp_bind, wp_guard; intros G1; [by split|].
  apply wp_bind, wp_guard; intros G2; [by split|]. apply wp_bind, wp_guard; intros G3; [by split|].
  do 2 wp_step. apply wp_bind, wp_guard; intros G4; [by split|]. wp_step. split; [done|]. intros l [= <-].
  apply negb_false_iff in G2. bool_to_prop. split_and!; [done|lia|lia|done|]. intros m Hm. rewrite Hm in G4. bool_to_prop.
  unfold tokens_held. lia.
Qed.

Section digest.
Context `{Digest}.

Lemma finish_digest_spec id d n slots rows s : chain_ok s ->
  wp (finish_digest id d n slots rows) (fun x s' => chain_ok s' /\
    match x with
    | Raise _ => True
    | Ok y => exists r, chain_records s !! id = Some r /\ chain_state r = ACTIVE /\ processed_token_count r <= n /\
        chain_records s' !! id = Some y /\ history y = history r /\ chain_seq_id y = chain_seq_id r /\
        fingerprint y = fingerprint r /\ chain_state y = IDLE /\
        processed_token_count y = n /\ processed_token_digest y = d /\ physical_slots_by_layer y = slots /\
        resident_rows y = rows /\
        token_history_tokens s' = token_history_tokens s /\ max_token_history_tokens s' = max_token_history_tokens s /\
        forall id', id' <> id -> chain_records s' !! id' = chain_records s !! id'
    end) s.
Proof.
  intros Hok. unfold finish_digest. apply wp_bind, wp_lookup_record; [|by split]. intros r Hr.
  apply wp_bind, wp_guard; intros G1; [by split|]. apply wp_bind, wp_guard; intros G2; [by split|].
  apply wp_bind, wp_guard; intros G3; [by split|]. bool_to_prop.
  apply wp_bind. eapply wp_set_record; [exact Hr|]. cbv beta iota. unfold tick, bump. do 4 wp_step.
  apply wp_bind. eapply wp_set_record; [cbn; apply dict_lookup_insert_eq|]. cbv beta iota. apply wp_bind. wp_step.
  apply wp_get_record; cbn; [|by rewrite dict_lookup_insert_eq]. intros y. rewrite dict_lookup_insert_eq. intros [= <-].
  destruct (ck_records s Hok id r Hr) as [R1 R2 R3 R4]. split.
  - match goal with |- chain_ok ?x => set (s' := x) end.
    pose proof (chain_ok_set (s <| chain_clock ::= Z.succ |>) id r) as Hset.
    set (r' := r <| processed_token_digest := d |> <| processed_token_count := n |>
      <| physical_slots_by_layer := slots |> <| resident_rows := rows |>
      <| reserved_slots_by_layer := [] |> <| reserved_rows := 0 |> <| chain_state := IDLE |>).
    assert (chain_ok (s <| chain_clock ::= Z.succ |> <| chain_records ::= <[id := r']> |>)) as Hok1.
    { apply (Hset r'); [by apply chain_ok_tick|done| |done|done]. split; cbn; [done|lia|lia|]. intros _. split_and!; [done..|lia]. }
    apply (chain_ok_set _ id r' (r' <| last_access := Z.succ (chain_clock s) |>)) in Hok1;
      [by eapply chain_ok_core| | |done|done].
    + cbn. apply dict_lookup_insert_eq.
    + split; cbn; [done|lia|lia|]. intros _. split_and!; [done..|lia].
  - exists r. split_and!; try done. intros id' Hne. by rewrite !dict_lookup_insert_ne.
Qed.

Lemma keeps_finish_digest id d n slots rows : keeps (finish_digest id d n slots rows).
Proof. intros s Hok. eapply wp_mono; [by apply finish_digest_spec|]. by cbv beta; intros x s' [? _]. Qed.

(** [store_token_history] after [prepare_token_history]. *)
Lemma store_spec id tokens r s : chain_ok s -> chain_records s !! id = Some r ->
  (forall n, max_token_history_tokens s = Some n -> token_history_tokens s - tokens_held r + Z.of_nat (length tokens) <= n) ->
  wp (store_token_history id tokens) (fun x s' => x = Ok tt /\ chain_ok s' /\
    chain_records s' = <[id := r <| history := tokens |>]> (chain_records s)) s.
Proof.
  intros Hok Hr Hcap. unfold store_token_history. do 2 wp_step. rewrite Hr. do 2 wp_step.
  apply wp_bind. eapply wp_set_record; [exact Hr|]. cbv beta iota. wp_step. split_and!; [done| |done].
  eapply chain_ok_core; [by apply (chain_ok_store s id r tokens)|done].
Qed.

Lemma finish_spec id tokens n slots rows s : chain_ok s ->
  wp (finish id tokens n slots rows) (fun x s' => chain_ok s' /\
    match x with
    | Raise _ => True
    | Ok y => exists r d, chain_records s !! id = Some r /\ chain_records s' !! id = Some y /\
        chain_seq_id y = chain_seq_id r /\ fingerprint y = fingerprint r /\ chain_state y = IDLE /\
        processed_token_count y = n /\ processed_token_digest y = d /\ history y = tokens /\
        0 <= n <= Z.of_nat (length tokens) /\ stable_token_digest tokens (Some n) = Ok d
    end) s.
Proof.
  intros Hok. unfold finish. apply wp_bind, wp_lookup_record; [|by split]. intros r Hr.
  apply wp_bind. eapply wp_mono; [apply prepare_spec|]. cbv beta. intros x s1 [-> Hx]. destruct x as [l|e]; [|by split].
  destruct (Hx l eq_refl) as (-> & Hn & _ & Hcap). apply wp_bind. wp_step.
  destruct (stable_token_digest tokens (Some n)) as [d|e] eqn:Hd; [|by split]. apply wp_bind.
  eapply wp_mono; [by apply finish_digest_spec|]. cbv beta. intros x s2 [Hok2 Hx2]. destruct x as [y|e]; [|by split].
  destruct Hx2 as (r' & Hr' & Hact & Hle & Hy & Hh & Hseq & Hfp & Hst & Hp & Hdg & Hsl & Hrw & Ht & Hm & Hoth).
  rewrite Hr in Hr'. injection Hr' as <-.
  apply wp_bind. eapply wp_mono; [apply (store_spec id tokens y s2)|].
  { done. } { done. }
  { intros m. rewrite Hm, Ht. unfold tokens_held. rewrite Hh. apply Hcap. }
  cbv beta. intros x s3 (-> & Hok3 & E3). apply wp_get_record; rewrite E3, dict_lookup_insert_eq; [|done].
  intros z [= <-]. split; [done|]. exists r, d. split_and!; try done; lia.
Qed.

(** ** Planning *)

Lemma resume_check_spec id q fp input r s :
  wp (resume_check id q fp input r) (fun x s' => exists f, s' = s <| chain_stats ::= f |>) s.
Proof.
  assert (exists f, s = s <| chain_stats ::= f |>) as Hid by (exists (fun c => c); by destruct s).
  unfold resume_check, bump. apply wp_bind.
  eapply (wp_mono _ (fun x s' => match x with Ok _ => s' = s | Raise _ => exists f, s' = s <| chain_stats ::= f |> end)).
  { repeat wp_step; [by eexists|done]. }
  cbv beta. intros [[]|e] s' Hs; [subst s'|done].
  apply wp_bind, wp_guard; intros G1; [done|]. apply wp_bind, wp_guard; intros G2; [done|].
  apply wp_bind.
  eapply (wp_mono _ (fun x s' => match x with Ok _ => s' = s | Raise _ => exists f, s' = s <| chain_stats ::= f |> end)).
  { repeat case_match; repeat wp_step; try done. by eexists. }
  cbv beta. intros [d|e] s' Hs; [subst s'|done]. apply wp_bind.
  eapply (wp_mono _ (fun x s' => match x with Ok _ => s' = s | Raise _ => exists f, s' = s <| chain_stats ::= f |> end)).
  { repeat wp_step; [by eexists|done]. }
  cbv beta. intros [[]|e] s' Hs; [subst s'|done]. by wp_step.
Qed.

Lemma choose_victims_in cs d vs v : v ∈ (choose_victims cs d vs).1 -> v ∈ vs \/ v ∈ chain_id <$> cs.
Proof.
  revert d vs. induction cs as [|c cs IH]; intros d vs; cbn; [by left|]. case_match; [by left|].
  intros [Hv|Hv]%IH; [|right; by right]. apply elem_of_app in Hv as [?|Hv]; [by left|].
  apply list_elem_of_singleton in Hv as ->. right. by left.
Qed.

(** A plan never names its own chain as a victim, and creates only a chain that
    has no tombstone. *)
Definition plan_fits (s : ChainCacheIndex) (p : ChainAdmissionPlan) : Prop :=
  plan_chain_id p ∉ victim_chain_ids p /\
  (plan_status p = Created -> chain_records s !! plan_chain_id p = None /\ tombstones s !! plan_chain_id p = None) /\
  (plan_status p = Resumed -> is_Some (chain_records s !! plan_chain_id p)).

Lemma plan_core_spec id q input fp req deficit reserved rows s : chain_ok s ->
  wp (plan_admission_core id q input fp req deficit reserved rows)
    (fun x s' => (exists f, s' = s <| chain_stats ::= f |>) /\
       forall p, x = Ok p -> plan_chain_id p = id /\ plan_fits s p) s.
Proof.
  intros Hok. unfold plan_admission_core. do 2 wp_step. apply wp_bind.
  eapply (wp_mono _ (fun x s' => (exists f, s' = s <| chain_stats ::= f |>) /\ forall st n, x = Ok (st, n) ->
    (st = Created -> chain_records s !! id = None /\ tombstones s !! id = None) /\
    (st = Resumed -> is_Some (chain_records s !! id)))).
  { destruct (chain_records s !! id) as [r|] eqn:Hr.
    - apply wp_bind. eapply wp_mono; [apply resume_check_spec|]. cbv beta. intros [n|e] s' Hs; [|done].
      wp_step. split; [done|]. intros st m [= <- <-]. by split.
    - apply wp_bind, wp_when; intros Ht.
      + apply wp_bind. unfold wp, lookup_record. rewrite Hr, Ht. cbn. split; [|done]. exists (fun c => c). by destruct s.
      + wp_step. split; [exists (fun c => c); by destruct s|]. intros st m [= <- <-].
        split; [|done]. intros _. split; [done|]. by apply dict_has_key_false. }
  cbv beta. intros [[st n]|e] s' [[f ->] Hst]; [|split; [by eexists|done]]. do 2 wp_step.
  destruct (choose_victims _ _ _) as [victims missing] eqn:Hv.
  apply wp_bind, wp_guard; intros G; [split; [by eexists|done]|]. wp_step. split; [by eexists|].
  intros p [= <-]. split; [done|]. split; cbn; [|exact (Hst st n eq_refl)].
  intros Hin. assert (id ∈ (choose_victims (candidates id (s <| chain_stats ::= f |>)) (Z.max 0 deficit, Z.max 0 <$> req) []).1) as Hin' by (by rewrite Hv).
  apply choose_victims_in in Hin' as [Hin'|Hin']; [by apply elem_of_nil in Hin'|].
  apply list_elem_of_fmap in Hin' as (c & Hc & Hin'). unfold candidates in Hin'.
  rewrite (merge_sort_Permutation _ _) in Hin'. unfold idle_others in Hin'. apply list_elem_of_filter in Hin' as [[_ Hne] _]. done.
Qed.

Lemma apply_spec p fp s : chain_ok s -> plan_fits s p -> wp (apply_admission p fp) (fun _ s' => chain_ok s') s.
Proof.
  intros Hok (Hv & Hcr & Hre). unfold apply_admission. apply wp_bind.
  eapply (wp_mono _ (fun _ s' => chain_ok s' /\ (plan_status p = Created -> tombstones s' !! plan_chain_id p = None))).
  { assert (plan_status p = Created -> tombstones s !! plan_chain_id p = None) as Ht by (intros; by apply Hcr).
    clear Hcr Hre. revert s Hok Ht. induction (victim_chain_ids p) as [|v vs IH]; intros s Hok Ht; cbn.
    { by wp_step. }
    apply wp_bind, wp_bind. eapply wp_mono; [by apply evict_spec|]. cbv beta.
    intros x s' [Hok' [He1 He2]].
    assert (plan_status p = Created -> tombstones s' !! plan_chain_id p = None) as Ht'.
    { intros E. apply He2; [|by apply Ht]. intros Heq. apply Hv. rewrite Heq. by left. }
    destruct x as [y|e]; [|done]. wp_step. apply IH; [|done|done]. intros ?. apply Hv. by right. }
  cbv beta. clear s Hok Hcr Hre. intros [[]|e] s [Hok Ht]; [|done]. destruct (plan_status p).
  - do 2 wp_step. apply wp_bind, wp_guard; intros G1; [done|]. apply wp_bind, wp_guard; intros G2; [done|].
    apply dict_has_key_false in G1. apply bool_decide_eq_false, eq_None_not_Some in G2.
    unfold tick, bump. do 4 wp_step. apply wp_bind. wp_step. apply wp_bind. wp_step. apply wp_bind.
    eapply wp_set_record; [cbn; apply dict_lookup_insert_eq|]. cbv beta iota. apply wp_bind. wp_step.
    match goal with |- wp _ _ ?x => set (s1 := x) end. assert (chain_ok s1) as Hok1.
    { destruct (chain_ok_tick s Hok) as [H1 H2 H3 H4 H5 H6 H7 H8]. cbn in *. split; try done; cbn.
      - by do 2 apply dict_wf_insert.
      - intros id' x. rewrite !dict_lookup_insert. case_decide as E; [|apply H3]. intros [= <-]. subst.
        split; cbn; [done|lia|done|done].
      - intros q id'. rewrite lookup_insert, !dict_lookup_insert. split.
        + case_decide as E1; [intros [= <-]; rewrite decide_True by done; subst; by eexists|]. intros Hq.
          case_decide as E2; [|by apply H4]. subst. apply H4 in Hq as (x & Hx & _). congruence.
        + intros (x & Hx & Hq). destruct (decide (plan_chain_id p = id')) as [E2|E2]; [injection Hx as <-; subst; cbn; by rewrite decide_True|].
          case_decide as E1; [|apply H4; eauto]. subst q. exfalso.
          assert (seq_id_to_chain_id s !! plan_seq_id p = Some id') by (rewrite E1; apply H4; eauto). congruence.
      - rewrite (dict_sum_insert _ _ _ (new_record p fp (Z.succ (chain_clock s)))); [| |apply dict_lookup_insert_eq].
        + rewrite dict_sum_insert_new by done. unfold tokens_held at 2 3 4. cbn. lia.
        + by apply dict_wf_insert.
      - intros id'. rewrite !dict_lookup_insert. case_decide; [|by apply H8]. subst. intros _. by apply Ht. }
    clearbody s1. by apply wp_get_record.
  - apply wp_bind, wp_lookup_record; [|done]. intros r Hr. apply wp_bind, wp_guard; intros G; [done|].
    unfold tick, bump. do 4 wp_step. apply wp_bind. eapply wp_set_record; [exact Hr|]. cbv beta iota.
    apply wp_bind. wp_step. match goal with |- wp _ _ ?x => assert (chain_ok x) as Hok1 end.
    { set (r' := r <| chain_state := ACTIVE |> <| last_input_token_count := input_token_count p |>
        <| last_access := Z.succ (chain_clock s) |> <| reserved_slots_by_layer := plan_reserved_slots p |>
        <| reserved_rows := plan_reserved_rows p |>).
      eapply chain_ok_core; [apply (chain_ok_set (s <| chain_clock ::= Z.succ |>) (plan_chain_id p) r r')|]; try done.
      - by apply chain_ok_tick.
      - destruct (ck_records s Hok _ _ Hr) as [R1 R2 R3 R4]. split; cbn; [done|lia|done|done]. }
    by apply wp_get_record.
Qed.
End digest.
