(* ===== verification/ChainGuarantees.v ===== *)
(** * The chain cache: guarantees

    The reachable indexes, what an admission evicts, how it is refused, that
    every rank decides as rank 0, and that a finished chain can be resumed. *)

From stdpp Require Import base gmap list strings sorting.
From Stdlib Require Import ZArith Lia.
From S2P Require Import Prelude PyDict PyBytes Sha256 PrefixHash SamplingParams Sequence.
From S2P Require Import ChainCache ChainCoordinator ChainFacts.

(** ** The eviction order *)

Lemma string_leb_trans a b c : String.leb a b = true -> String.leb b c = true -> String.leb a c = true.
Proof.
  revert b c. induction a as [|x a IH]; intros [|y b] [|z c]; unfold String.leb; cbn; try done.
  unfold Ascii.compare.
  destruct (N.compare_spec (Ascii.N_of_ascii x) (Ascii.N_of_ascii y)) as [E1|E1|E1]; [..|done];
    destruct (N.compare_spec (Ascii.N_of_ascii y) (Ascii.N_of_ascii z)) as [E2|E2|E2]; try done;
    destruct (N.compare_spec (Ascii.N_of_ascii x) (Ascii.N_of_ascii z)) as [E3|E3|E3]; try done; try (intros; lia).
  apply IH.
Qed.

Lemma older_total : Total (fun a b => older a b = true).
Proof.
  intros a b. unfold older.
  destruct (Z.ltb_spec (last_access a) (last_access b)), (Z.ltb_spec (last_access b) (last_access a)); [by left..|by right|].
  replace (last_access b) with (last_access a) by lia. rewrite !Z.eqb_refl. cbn. apply String.leb_total.
Qed.
Lemma older_trans : Transitive (fun a b => older a b = true).
Proof.
  intros a b c. unfold older. rewrite !orb_true_iff, !andb_true_iff, !Z.ltb_lt, !Z.eqb_eq.
  intros [?|[? H1]] [?|[? H2]]; [left; lia..|]. right. split; [lia|]. by eapply string_leb_trans.
Qed.

Lemma candidates_sorted id s : StronglySorted (fun a b => older a b = true) (candidates id s).
Proof. apply StronglySorted_merge_sort; [exact older_trans|exact older_total]. Qed.
Lemma candidates_perm id s : candidates id s ≡ₚ idle_others id s.
Proof. apply merge_sort_Permutation. Qed.

(** ** The victims *)

(** What is missing after evicting [cs]. *)
Definition pay_all (cs : list ChainRecord) (d : Deficit) : Deficit := foldl (fun d v => pay v d) d cs.

Lemma choose_victims_spec cs d vs :
  exists k, choose_victims cs d vs = (vs ++ (chain_id <$> take k cs), pay_all (take k cs) d) /\ (k <= length cs)%nat /\
    (forall j, (j < k)%nat -> unmet (pay_all (take j cs) d) = true) /\
    ((k < length cs)%nat -> unmet (pay_all (take k cs) d) = false).
Proof.
  revert d vs. induction cs as [|c cs IH]; intros d vs; cbn.
  { exists 0%nat. split_and!; [by rewrite app_nil_r|lia|lia|lia]. }
  destruct (unmet d) eqn:Hu; cbn.
  - destruct (IH (pay c d) (vs ++ [chain_id c])) as (k & Hk & Hle & Hlt & Hend). exists (S k).
    split_and!; [|lia| |].
    + rewrite Hk, <- app_assoc. done.
    + intros [|j] Hj; [done|]. cbn. apply Hlt. lia.
    + intros Hk'. cbn. apply Hend. lia.
  - exists 0%nat. split_and!; [by rewrite app_nil_r|lia|lia|done].
Qed.

(** What the request lacks before any eviction. *)
Definition lacks (required : list Z) (row_deficit : Z) : Deficit := (Z.max 0 row_deficit, Z.max 0 <$> required).

(** The victims are the oldest idle chains, as many as are needed. *)
Definition evicts_enough (id : string) (d : Deficit) (s : ChainCacheIndex) (victims : list string) : Prop :=
  exists k, victims = chain_id <$> take k (candidates id s) /\
    unmet (pay_all (take k (candidates id s)) d) = false /\
    forall j, (j < k)%nat -> unmet (pay_all (take j (candidates id s)) d) = true.

Definition chooses (id : string) (d : Deficit) (s : ChainCacheIndex) (victims : list string) : Prop :=
  exists missing, choose_victims (candidates id s) d [] = (victims, missing) /\ unmet missing = false.
Lemma chooses_enough id d s victims : chooses id d s victims -> evicts_enough id d s victims.
Proof.
  intros (missing & Hc & Hu). destruct (choose_victims_spec (candidates id s) d []) as (k & Hk & _ & Hlt & _).
  rewrite Hc in Hk. injection Hk as -> ->. by exists k.
Qed.

Section digest.
Context `{Digest}.

(** Why a resident chain cannot be resumed. *)
Definition refusal (id : string) (q : Z) (fp : bytes) (input : PlanInput) (r : ChainRecord) (e : ChainExn) : Prop :=
  match e with
  | ChainError k c =>
      c = Some id /\
      match k with
      | ChainBusyError => chain_state r = ACTIVE
      | ChainFingerprintMismatchError => chain_state r = IDLE /\ fingerprint r <> fp
      | ChainOwnerMismatchError => chain_state r = IDLE /\ chain_seq_id r <> q
      | ChainPrefixMismatchError => chain_state r = IDLE /\
          (input_count input < processed_token_count r \/
           exists d, prefix_digest id r input = Ok d /\ d <> processed_token_digest r)
      | _ => False
      end
  | Plain e => exists l, input = InputTokens l /\ pack_token_ids (take (Z.to_nat (processed_token_count r)) l) = Raise e
  end.
Definition resumes (id : string) (q : Z) (fp : bytes) (input : PlanInput) (r : ChainRecord) : Prop :=
  chain_state r = IDLE /\ fingerprint r = fp /\ chain_seq_id r = q /\
  prefix_digest id r input = Ok (processed_token_digest r).

Lemma stable_token_digest_spec l n : 0 <= n ->
  match stable_token_digest l (Some n) with
  | Ok d => n <= Z.of_nat (length l) /\ exists m, pack_token_ids (take (Z.to_nat n) l) = Ok m /\ d = digest m
  | Raise (Plain e) => pack_token_ids (take (Z.to_nat n) l) = Raise e
  | Raise (ChainError k c) => k = ChainPrefixMismatchError /\ c = None /\ Z.of_nat (length l) < n
  end.
Proof.
  intros Hn. unfold stable_token_digest. destruct (pack_token_ids (take (Z.to_nat n) l)) as [m|e]; cbn; [|done].
  rewrite length_take. destruct (Z.eqb_spec (Z.of_nat (Z.to_nat n `min` length l)) n).
  - split; [lia|]. eauto.
  - split_and!; [done|done|lia].
Qed.

Lemma prefix_digest_spec id r input : 0 <= processed_token_count r ->
  match prefix_digest id r input with
  | Ok _ => True
  | Raise (Plain e) => exists l, input = InputTokens l /\ pack_token_ids (take (Z.to_nat (processed_token_count r)) l) = Raise e
  | Raise (ChainError k c) => k = ChainPrefixMismatchError /\ default id c = id /\ input_count input < processed_token_count r
  end.
Proof.
  intros Hn. destruct input as [l|n d]; cbn.
  - pose proof (stable_token_digest_spec l _ Hn) as Hs. destruct (stable_token_digest l _) as [d|[k c|e]]; [done| |by eauto].
    destruct Hs as (-> & -> & ?). done.
  - destruct (Z.ltb_spec n (processed_token_count r)); [|done]. split_and!; [done|done|lia].
Qed.

Lemma chain_state_cases st : st <> ACTIVE -> st = IDLE.
Proof. by destruct st. Qed.

Lemma resume_check_decides id q fp input r s : 0 <= processed_token_count r ->
  wp (resume_check id q fp input r) (fun x s' => index_core s' = index_core s /\
    match x with
    | Ok n => s' = s /\ n = processed_token_count r /\ resumes id q fp input r
    | Raise e => refusal id q fp input r e
    end) s.
Proof.
  intros Hn. unfold resume_check, bump. apply wp_bind, wp_if; intros Hact; bool_to_prop.
  { apply wp_bind. do 2 wp_step. done. }
  apply chain_state_cases in Hact. wp_step. apply wp_bind, wp_guard; intros Hfp; bool_to_prop; [by split_and!|].
  apply wp_bind, wp_guard; intros Hq; bool_to_prop; [by split_and!|]. apply wp_bind.
  pose proof (prefix_digest_spec id r input Hn) as Hp.
  destruct (prefix_digest id r input) as [d|[k c|e]] eqn:Hd.
  - wp_step. apply wp_bind, wp_if; intros Hdd; bool_to_prop.
    + apply wp_bind. do 2 wp_step. split; [done|]. cbn. split_and!; [done..|]. right. by eexists.
    + wp_step. wp_step. split_and!; try done. unfold resumes. by subst.
  - destruct Hp as (-> & Hc & Hlt). apply wp_bind. do 2 wp_step. rewrite Hc. split; [done|]. cbn. split_and!; [done..|]. by left.
  - by wp_step.
Qed.

(** The whole decision of [_plan_admission]. *)
Lemma plan_core_decides id q input fp req deficit reserved rows s : chain_ok s ->
  wp (plan_admission_core id q input fp req deficit reserved rows) (fun x s' => index_core s' = index_core s /\
    match x with
    | Ok p =>
        p = mkPlan id q (plan_status p) (reused_tokens p) (input_count input) (victim_chain_ids p) (Z.max 0 <$> reserved) (Z.max 0 rows) /\
        s' = s /\ chooses id (lacks req deficit) s (victim_chain_ids p) /\
        match chain_records s !! id with
        | None => tombstones s !! id = None /\ plan_status p = Created /\ reused_tokens p = 0
        | Some r => resumes id q fp input r /\ plan_status p = Resumed /\ reused_tokens p = processed_token_count r
        end
    | Raise e =>
        (e = ChainError ChainCapacityError (Some id) /\ unmet (pay_all (candidates id s) (lacks req deficit)) = true) \/
        match chain_records s !! id with
        | None => e = ChainError ChainGoneError (Some id) /\ is_Some (tombstones s !! id)
        | Some r => refusal id q fp input r e
        end
    end) s.
Proof.
  intros Hok. unfold plan_admission_core. do 2 wp_step. apply wp_bind.
  eapply (wp_mono _ (fun x s' => index_core s' = index_core s /\ match x with
    | Ok (st, n) => s' = s /\
        match chain_records s !! id with
        | None => tombstones s !! id = None /\ st = Created /\ n = 0
        | Some r => resumes id q fp input r /\ st = Resumed /\ n = processed_token_count r
        end
    | Raise e =>
        match chain_records s !! id with
        | None => e = ChainError ChainGoneError (Some id) /\ is_Some (tombstones s !! id)
        | Some r => refusal id q fp input r e
        end end)).
  { destruct (chain_records s !! id) as [r|] eqn:Hr.
    - apply wp_bind. eapply wp_mono; [apply resume_check_decides; by apply (ck_records s Hok id r)|]. cbv beta.
      intros [n|e] s' [Hc Hx]; [|by split]. wp_step. split; [done|]. by destruct Hx as (-> & -> & ?).
    - apply wp_bind, wp_when; intros Ht.
      + apply wp_bind. unfold wp, lookup_record. rewrite Hr, Ht. cbn. split_and!; [done..|]. by apply dict_has_key_true.
      + wp_step. split_and!; try done. by apply dict_has_key_false. }
  cbv beta. intros [[st n]|e] s' [Hc Hx]; [|split; [done|by right]]. destruct Hx as [-> Hx]. do 2 wp_step.
  destruct (choose_victims_spec (candidates id s) (lacks req deficit) []) as (k & Hk & Hle & Hlt & Hend).
  unfold lacks in Hk. rewrite Hk. cbn [app].
  apply wp_bind, wp_guard; intros Hu; fold (lacks req deficit) in Hu.
  - split; [done|]. left. split; [done|]. destruct (decide (k < length (candidates id s))%nat) as [Hl|Hl].
    + by rewrite Hend in Hu.
    + rewrite take_ge in Hu by lia. done.
  - wp_step. cbn. split_and!; try done. exists (pay_all (take k (candidates id s)) (lacks req deficit)).
    split; [|done]. unfold lacks. by rewrite Hk.
Qed.

(** A decision that returns, computed. *)
Lemma plan_core_returns id q input fp req deficit reserved rows s victims :
  chooses id (lacks req deficit) s victims ->
  match chain_records s !! id with
  | None => tombstones s !! id = None
  | Some r => resumes id q fp input r
  end ->
  plan_admission_core id q input fp req deficit reserved rows s =
    (Ok (mkPlan id q (if chain_records s !! id then Resumed else Created)
           (match chain_records s !! id with Some r => processed_token_count r | None => 0 end)
           (input_count input) victims (Z.max 0 <$> reserved) (Z.max 0 rows)), s).
Proof.
  intros (missing & Hc & Hu) Hr. unfold plan_admission_core. act_unfold. unfold lacks in Hc.
  destruct (chain_records s !! id) as [r|] eqn:E.
  - destruct Hr as (R1 & R2 & R3 & R4). unfold resume_check, bump. act_unfold.
    rewrite bool_decide_eq_false_2 by (by rewrite R1). rewrite (bool_decide_eq_true_2 (fingerprint r = fp)) by done.
    rewrite R3, Z.eqb_refl. cbn. rewrite R4, bool_decide_eq_true_2 by done. cbn. by rewrite Hc, Hu.
  - assert (has_key id (tombstones s) = false) as -> by (by apply dict_has_key_false). by rewrite Hc, Hu.
Qed.

(** ** The coordinator *)

Section coordinator.
Context (fp : bytes) (mgr : ChainCacheManager).

Lemma wp_requirements id n gen (Q : outcome ChainExn DeficitReply -> ChainCacheIndex -> Prop) s :
  Q (plain (admission_requirements mgr id n gen s)) s -> wp (requirements mgr id n gen) Q s.
Proof. done. Qed.

Lemma keeps_admit id q tokens gen : keeps (run_chain_op fp mgr (OpAdmit id q tokens gen)).
Proof.
  intros s Hok. cbn. unfold coordinator_plan, coordinator_apply. apply wp_bind, wp_bind, wp_requirements.
  destruct (admission_requirements mgr id _ gen s) as [reply|e]; [|done]. cbn.
  eapply wp_mono; [by apply plan_core_spec|]. cbv beta. intros [p|e] s' [[f ->] Hp]; [|by apply chain_ok_stats].
  destruct (Hp p eq_refl) as [_ Hfits]. apply wp_bind.
  eapply wp_mono; [apply (apply_spec p fp); [by apply chain_ok_stats|exact Hfits]|].
  cbv beta. intros [y|e] s'' Hok'; [by wp_step|done].
Qed.

Lemma keeps_follow p n d gen : keeps (run_chain_op fp mgr (OpFollow p n d gen)).
Proof.
  intros s Hok. cbn. unfold validate_admission_plan, coordinator_apply. apply wp_bind, wp_bind, wp_requirements.
  destruct (admission_requirements mgr _ n gen s) as [reply|e]; [|done]. cbn. apply wp_bind.
  eapply wp_mono; [by apply plan_core_spec|]. cbv beta. intros [p'|e] s' [[f ->] Hp]; [|by apply chain_ok_stats].
  destruct (Hp p' eq_refl) as [_ Hfits]. apply wp_bind, wp_guard; intros G; [by apply chain_ok_stats|]. wp_step.
  apply wp_bind. eapply wp_mono; [apply (apply_spec p' fp); [by apply chain_ok_stats|exact Hfits]|].
  cbv beta. intros [y|e] s'' Hok'; [by wp_step|done].
Qed.

Lemma coordinator_finish_spec q s : chain_ok s ->
  wp (coordinator_finish mgr q) (fun x s' => chain_ok s' /\
    match x with
    | Raise _ => True
    | Ok y => exists id r d, Sequence.chain_id (tags q) = Some id /\
        chain_records s !! id = Some r /\ chain_records s' !! id = Some y /\
        chain_seq_id y = chain_seq_id r /\ fingerprint y = fingerprint r /\ chain_state y = IDLE /\
        processed_token_count y = Z.max 0 (num_tokens q - 1) /\ processed_token_digest y = d /\ history y = token_ids q /\
        0 <= Z.max 0 (num_tokens q - 1) <= Z.of_nat (length (token_ids q)) /\
        stable_token_digest (token_ids q) (Some (Z.max 0 (num_tokens q - 1))) = Ok d
    end) s.
Proof.
  intros Hok. unfold coordinator_finish. apply wp_bind, wp_guard; intros G; [by split|]. apply wp_bind. wp_step.
  destruct (residency_of mgr (seq_id q)) as [slots|e]; cbn; [|by split].
  eapply wp_mono; [by apply finish_spec|]. cbv beta. intros [y|e] s' [Hok' Hy]; [|by split]. split; [done|].
  destruct Hy as (r & d & Hy). exists (default "" (Sequence.chain_id (tags q)))%string, r, d. split; [|done].
  destruct (Sequence.chain_id (tags q)); [done|]. by cbn in G.
Qed.

Lemma keeps_op op : keeps (run_chain_op fp mgr op).
Proof.
  destruct op as [id q tokens gen|p n d gen|q|id q d n|id q tokens n|id|]; [apply keeps_admit|apply keeps_follow|..];
    intros s Hok; cbn.
  - apply wp_bind. eapply wp_mono; [by apply coordinator_finish_spec|]. cbv beta. intros [y|e] s' [? _]; [by wp_step|done].
  - unfold finish_values. apply wp_bind, wp_bind, wp_lookup_record; [intros r Hr|done].
    apply wp_bind, wp_guard; intros G; [done|]. apply wp_bind. wp_step.
    destruct (residency_of mgr q) as [slots|e]; cbn; [|done].
    eapply wp_mono; [by apply keeps_finish_digest|]. cbv beta. intros [y|e] s' ?; [by wp_step|done].
  - unfold remember_processed_tokens. apply wp_bind, wp_bind, wp_lookup_record; [intros r Hr|done].
    apply wp_bind, wp_guard; intros G1; [done|]. apply wp_bind, wp_guard; intros G2; [done|]. apply wp_bind.
    eapply wp_mono; [apply prepare_spec|]. cbv beta. intros [l|e] s1 [-> Hl]; [|done].
    destruct (Hl l eq_refl) as (-> & _ & _ & Hcap). apply wp_bind. wp_step.
    destruct (stable_token_digest tokens (Some n)) as [d|e]; [|done]. apply wp_bind, wp_guard; intros G3; [done|].
    apply wp_bind. eapply wp_mono; [by apply (store_spec id tokens r s)|]. cbv beta. intros x s' (-> & Hok' & _).
    apply wp_get_record; intros; [by wp_step|done].
  - apply wp_bind. eapply wp_mono; [by apply keeps_invalidate|]. cbv beta. intros [y|e] s' ?; [by wp_step|done].
  - unfold reset_index. wp_step. destruct Hok as [H1 H2 H3 H4 H5 H6 H7 H8]. split; cbn; try done.
    + constructor.
    + intros q id. rewrite lookup_empty. split; [done|]. by intros (r & ? & _).
    + intros n Hn. specialize (H6 n Hn). assert (0 <= dict_sum tokens_held (chain_records s)); [|lia].
      unfold dict_sum. apply sumZ_nonneg, Forall_fmap, Forall_true. intros r. cbn. unfold tokens_held. lia.
    + split; [constructor|lia].
Qed.

Lemma coordinator_index_ok c s : coordinator_index c = Ok s -> chain_ok s.
Proof.
  unfold coordinator_index, new_chain_index. destruct (Z.leb_spec (chain_cache_max_tombstones c) 0); [done|].
  match goal with |- context [?n <=? 0] => destruct (Z.leb_spec n 0); [done|] end. intros [= <-].
  split; cbn; try done.
  - constructor.
  - intros q id. rewrite lookup_empty. split; [done|]. by intros (r & ? & _).
  - intros n [= <-]. lia.
  - split; [constructor|lia].
Qed.

Lemma run_ops_ok ops s : chain_ok s -> chain_ok (run_chain_ops fp mgr ops s).
Proof.
  revert s. induction ops as [|op ops IH]; intros s Hok; [done|]. cbn. apply IH.
  exact (keeps_op op s Hok).
Qed.

(** ** The guarantees *)

(** C13: whatever a coordinator is asked to do, and whether or not its actions
    raise, its index stays consistent: records are filed under their id and owned
    by one sequence each, the token total is the sum of the stored histories and
    within its bound, tombstones are bounded and never name a resident chain, and
    an idle chain holds no reservation and has a full digest. *)
Theorem chain_index_consistent c s ops :
  coordinator_index c = Ok s -> chain_ok (run_chain_ops fp mgr ops s).
Proof. intros Hs. by apply run_ops_ok, (coordinator_index_ok c). Qed.

(** C35: an admission that is planned evicts the oldest idle chains and no more
    than it needs, never its own chain, and reuses exactly what its chain has
    processed; planning changes nothing. *)
Theorem admission_evicts_oldest id q tokens req deficit reserved rows s p s' :
  chain_ok s -> plan_admission id q tokens fp req deficit reserved rows s = (Ok p, s') ->
  s' = s /\ evicts_enough id (lacks req deficit) s (victim_chain_ids p) /\
  StronglySorted (fun a b => older a b = true) (candidates id s) /\ candidates id s ≡ₚ idle_others id s /\
  match chain_records s !! id with
  | None => tombstones s !! id = None /\ plan_status p = Created /\ reused_tokens p = 0
  | Some r => resumes id q fp (InputTokens tokens) r /\ plan_status p = Resumed /\ reused_tokens p = processed_token_count r
  end.
Proof.
  intros Hok E. pose proof (plan_core_decides id q (InputTokens tokens) fp req deficit reserved rows s Hok) as Hw.
  unfold wp in Hw. unfold plan_admission in E. rewrite E in Hw. cbn in Hw. destruct Hw as (_ & _ & -> & Hc & Hm).
  split_and!; [done|by apply chooses_enough|apply candidates_sorted|apply candidates_perm|done].
Qed.

(** a refused admission leaves the index as it was, statistics apart, and
    names its reason: the chain was retired, is busy, has another fingerprint or
    owner, was continued with other tokens, or all idle chains together would not
    make room. *)
Theorem refused_admission_explained id q tokens req deficit reserved rows s e s' :
  chain_ok s -> plan_admission id q tokens fp req deficit reserved rows s = (Raise e, s') ->
  index_core s' = index_core s /\
  ((e = ChainError ChainCapacityError (Some id) /\ unmet (pay_all (candidates id s) (lacks req deficit)) = true) \/
   match chain_records s !! id with
   | None => e = ChainError ChainGoneError (Some id) /\ is_Some (tombstones s !! id)
   | Some r => refusal id q fp (InputTokens tokens) r e
   end).
Proof.
  intros Hok E. pose proof (plan_core_decides id q (InputTokens tokens) fp req deficit reserved rows s Hok) as Hw.
  unfold wp in Hw. unfold plan_admission in E. rewrite E in Hw. exact Hw.
Qed.

(** A rank whose index agrees with rank 0's, statistics apart, accepts the
    plan rank 0 made, from the digest of the reused prefix alone. *)
Theorem ranks_agree id q tokens gen s p s1 s2 :
  chain_ok s -> coordinator_plan fp mgr id q tokens gen s = (Ok p, s1) -> index_core s2 = index_core s ->
  exists d, stable_token_digest tokens (Some (reused_tokens p)) = Ok d /\
    validate_admission_plan fp mgr p (Z.of_nat (length tokens)) d gen s2 = (Ok p, s2).
Proof.
  intros Hok Hp Hcore. unfold coordinator_plan, requirements, plan_admission in Hp. act_unfold.
  destruct (admission_requirements mgr id _ gen s) as [reply|e] eqn:Hreq; cbn in Hp; [|done].
  pose proof (plan_core_decides id q (InputTokens tokens) fp (slot_deficits reply) (row_deficit_of reply)
    (required_slots reply) (required_rows reply) s Hok) as Hw.
  unfold wp in Hw. rewrite Hp in Hw. cbn in Hw. destruct Hw as (_ & Hpe & -> & Hch & Hm).
  injection Hcore as C1 C2 C3 C4 C5 C6 C7.
  assert (chooses id (lacks (slot_deficits reply) (row_deficit_of reply)) s2 (victim_chain_ids p)) as Hch2.
  { unfold chooses, candidates, idle_others in *. by rewrite C4. }
  assert (exists d, stable_token_digest tokens (Some (reused_tokens p)) = Ok d /\
    match chain_records s2 !! id with
    | None => tombstones s2 !! id = None
    | Some r => resumes id q fp (InputDigest (Z.of_nat (length tokens)) d) r
    end) as (d & Hd & Hres).
  { rewrite C4, C6. destruct (chain_records s !! id) as [r|] eqn:Hr.
    - destruct Hm as ((R1 & R2 & R3 & R4) & _ & ->). exists (processed_token_digest r). split; [exact R4|].
      unfold resumes. split_and!; try done. cbn in R4 |- *.
      pose proof (stable_token_digest_spec tokens _ (ro_processed _ _ _ (ck_records s Hok _ _ Hr))) as Hs.
      rewrite R4 in Hs. destruct Hs as [Hle _].
      destruct (Z.ltb_spec (Z.of_nat (length tokens)) (processed_token_count r)); [lia|done].
    - destruct Hm as (Ht & _ & ->). exists (digest []). by split. }
  exists d. split; [done|]. unfold validate_admission_plan, requirements. act_unfold.
  assert (plan_chain_id p = id) as -> by (by rewrite Hpe). assert (plan_seq_id p = q) as -> by (by rewrite Hpe).
  assert (admission_requirements mgr id (Z.of_nat (length tokens)) gen s2 = Ok reply) as ->.
  { rewrite <- Hreq. unfold admission_requirements, outstanding_active_reservations. by rewrite C4. }
  cbn [plain]. unfold plan_admission_digest.
  rewrite (plan_core_returns id q _ fp _ _ _ _ s2 _ Hch2 Hres).
  rewrite C4 in *. match goal with |- context [bool_decide (?x = p)] => assert (x = p) as -> end.
  { rewrite Hpe. cbn. destruct (chain_records s !! id) as [r|].
    - by destruct Hm as (_ & -> & ->).
    - by destruct Hm as (_ & -> & ->). }
  by rewrite bool_decide_eq_true_2.
Qed.

(** C16: a request that continues a finished chain with the tokens it processed
    resumes it and reuses all of them, unless the cache has no room; a request
    that is admitted to it resumes it, reuses all of them and continues it with
    the same tokens, unless the bytes of the two token prefixes are different
    inputs of SHA-256 with one digest. *)
Theorem finished_chain_resumes q y s s1 tokens req deficit reserved rows r s2 :
  let n := Z.max 0 (num_tokens q - 1) in
  chain_ok s -> coordinator_finish mgr q s = (Ok y, s1) ->
  plan_admission (chain_id y) (chain_seq_id y) tokens (fingerprint y) req deficit reserved rows s1 = (r, s2) ->
  (n <= Z.of_nat (length tokens) -> take (Z.to_nat n) tokens = take (Z.to_nat n) (token_ids q) ->
     (exists p, r = Ok p /\ plan_status p = Resumed /\ reused_tokens p = n) \/
     r = Raise (ChainError ChainCapacityError (Some (chain_id y)))) /\
  (forall p, r = Ok p ->
     plan_status p = Resumed /\ reused_tokens p = n /\ n <= Z.of_nat (length tokens) /\
     (take (Z.to_nat n) tokens = take (Z.to_nat n) (token_ids q) \/
      exists m m', pack_token_ids (take (Z.to_nat n) (token_ids q)) = Ok m /\
        pack_token_ids (take (Z.to_nat n) tokens) = Ok m' /\ collide m' m)).
Proof.
  intros n Hok Hf Hp. pose proof (coordinator_finish_spec q s Hok) as Hw. unfold wp in Hw. rewrite Hf in Hw. cbn [fst snd] in Hw.
  destruct Hw as (Hok1 & id & r0 & d & _ & _ & Hy & _ & _ & Hst & Hn & Hdg & _ & Hrange & Hd). fold n in Hn, Hrange, Hd.
  assert (chain_id y = id) as Hid by apply (ck_records s1 Hok1 id y Hy). rewrite Hid in *.
  pose proof (plan_core_decides id (chain_seq_id y) (InputTokens tokens) (fingerprint y) req deficit reserved rows s1 Hok1) as Hw.
  unfold plan_admission in Hp. unfold wp in Hw. rewrite Hp, Hy in Hw. cbn [fst snd] in Hw. destruct Hw as [_ Hw].
  pose proof (stable_token_digest_spec (token_ids q) n ltac:(lia)) as Hs. rewrite Hd in Hs. destruct Hs as (_ & m & Hm & Hdm).
  split.
  - intros Hlen Htake.
    assert (stable_token_digest tokens (Some n) = Ok d) as Hd'.
    { unfold stable_token_digest. rewrite Htake, Hm. cbn. rewrite length_take.
      destruct (Z.eqb_spec (Z.of_nat (Z.to_nat n `min` length (token_ids q))) n); [by rewrite Hdm|lia]. }
    destruct r as [p|e]; [left; exists p|right].
    + by destruct Hw as (_ & _ & _ & _ & -> & ->).
    + destruct Hw as [[-> _]|Href]; [done|]. exfalso. destruct e as [k c|e].
      * destruct Href as [_ Href]. destruct k; try done.
        -- by rewrite Hst in Href.
        -- destruct Href as (_ & [Hlt|(d' & Hd'' & Hne)]); cbn in *; rewrite Hn in *; [lia|]. rewrite Hd' in Hd''. congruence.
        -- by destruct Href as [_ ?].
        -- by destruct Href as [_ ?].
      * destruct Href as (l & [= <-] & Hraise). rewrite Hn, Htake, Hm in Hraise. done.
  - intros p ->. destruct Hw as (_ & _ & _ & (_ & _ & _ & Hres) & -> & ->). cbn in Hres. rewrite Hn in Hres.
    pose proof (stable_token_digest_spec tokens n ltac:(lia)) as Hs. rewrite Hres in Hs. destruct Hs as (Hle & m' & Hm' & Hdm').
    split_and!; [done..|]. destruct (decide (m' = m)) as [->|Hne]; [left; by eapply pack_token_ids_inj|].
    right. exists m, m'. split_and!; [done..|]. split; [done|congruence].
Qed.
End coordinator.
End digest.

(** ** A concrete chain *)

Definition bare_manager : ChainCacheManager := mkManager None None None.
(** Each chain needs one row of the two that exist. *)
Definition row_manager : ChainCacheManager :=
  mkManager (Some (fun q => Ok (mkReply [4] 1 [if needs_resident_row q then 4 else 0] 0))) None (Some (fun _ => Ok [4])).
Definition small_chain_config : ChainConfig := mkChainConfig 2 16 4.
Definition empty_index : ChainCacheIndex := mkChainIndex 2 (Some 64) 0 ∅ ∅ ∅ 0 no_stats.
Definition chained (id : string) (q : Sequence) : Sequence := q <| tags ::= fun t => t <| Sequence.chain_id := Some id |> |>.
(** Request 7 of three prompt tokens, then one generated token. *)
Definition request7 : Sequence :=
  chained "c" (append_token 21 None None (new_sequence 7 [11; 12; 13] default_sampling)).
Definition admitted : ChainCacheIndex := run_chain_ops [] bare_manager [OpAdmit "c" 7 [11; 12; 13] 4] empty_index.
Definition finished : ChainCacheIndex := run_chain_ops [] bare_manager [OpFinish request7] admitted.

Lemma empty_index_made : coordinator_index small_chain_config = Ok empty_index.
Proof. reflexivity. Qed.
Lemma admitted_ok : chain_ok admitted.
Proof. apply run_ops_ok, (coordinator_index_ok small_chain_config), empty_index_made. Qed.
Lemma finished_ok : chain_ok finished.
Proof. apply run_ops_ok, admitted_ok. Qed.

Lemma chain_index_consistent_witness :
  chain_ok (run_chain_ops [] row_manager [OpAdmit "c" 7 [11; 12; 13] 4; OpFinish request7; OpAdmit "d" 8 [1] 4; OpInvalidate "c"; OpInvalidate "c"] empty_index).
Proof. apply (chain_index_consistent [] row_manager small_chain_config empty_index). reflexivity. Defined.

(** A second chain needs the row of the idle first one. *)
Lemma admission_evicts_oldest_witness :
  exists p, plan_admission "d" 8 [5; 6] [] [] 1 [] 1 finished = (Ok p, finished) /\
    evicts_enough "d" (lacks [] 1) finished (victim_chain_ids p) /\ victim_chain_ids p = ["c"%string].
Proof.
  assert (plan_admission "d" 8 [5; 6] [] [] 1 [] 1 finished = (Ok (mkPlan "d" 8 Created 0 2 ["c"%string] [] 1), finished)) as E by (vm_compute; reflexivity).
  exists (mkPlan "d" 8 Created 0 2 ["c"%string] [] 1). split; [exact E|].
  destruct (admission_evicts_oldest [] "d" 8 [5; 6] [] 1 [] 1 finished _ _ finished_ok E) as (_ & Hv & _). by split.
Defined.

(** Continuing the chain with another first token is refused. *)
Lemma refused_admission_explained_witness :
  exists s', plan_admission "c" 7 [10; 12; 13; 22] [] [] 0 [] 0 finished =
      (Raise (ChainError ChainPrefixMismatchError (Some "c"%string)), s') /\ index_core s' = index_core finished.
Proof.
  eexists. split; [vm_compute; reflexivity|].
  eapply (refused_admission_explained [] "c" 7 [10; 12; 13; 22] [] 0 [] 0 finished (ChainError ChainPrefixMismatchError (Some "c"%string))).
  - exact finished_ok.
  - vm_compute. reflexivity.
Defined.

(** Another rank counted the requests differently. *)
Definition finished_elsewhere : ChainCacheIndex := finished <| chain_stats := no_stats |>.
Lemma same_core_elsewhere : index_core finished_elsewhere = index_core finished.
Proof. unfold finished_elsewhere. by generalize finished. Qed.
Lemma ranks_agree_witness :
  exists p d, coordinator_plan [] bare_manager "c" 7 [11; 12; 13; 22] 4 finished = (Ok p, finished) /\ plan_status p = Resumed /\
    validate_admission_plan [] bare_manager p 4 d 4 finished_elsewhere = (Ok p, finished_elsewhere).
Proof.
  assert (coordinator_plan [] bare_manager "c" 7 [11; 12; 13; 22] 4 finished = (Ok (mkPlan "c" 7 Resumed 3 4 [] [] 0), finished)) as E by (vm_compute; reflexivity).
  destruct (ranks_agree [] bare_manager "c" 7 [11; 12; 13; 22] 4 finished _ _ finished_elsewhere finished_ok E same_core_elsewhere) as (d & _ & Hd).
  exists (mkPlan "c" 7 Resumed 3 4 [] [] 0), d. by split_and!.
Defined.

Lemma finished_chain_resumes_witness :
  exists y s1 r s2, coordinator_finish bare_manager request7 admitted = (Ok y, s1) /\
    plan_admission (chain_id y) (chain_seq_id y) [11; 12; 13; 22] (fingerprint y) [] 0 [] 0 s1 = (r, s2) /\
    ((exists p, r = Ok p /\ plan_status p = Resumed /\ reused_tokens p = 3) \/
     r = Raise (ChainError ChainCapacityError (Some (chain_id y)))).
Proof.
  destruct (coordinator_finish bare_manager request7 admitted) as [[y|e] s1] eqn:E; [|exfalso; vm_compute in E; discriminate E].
  destruct (plan_admission (chain_id y) (chain_seq_id y) [11; 12; 13; 22] (fingerprint y) [] 0 [] 0 s1) as [r s2] eqn:Ep.
  exists y, s1, r, s2. split; [reflexivity|]. split; [exact Ep|].
  apply (finished_chain_resumes bare_manager request7 y admitted s1 [11; 12; 13; 22] [] 0 [] 0 r s2 admitted_ok E Ep); vm_compute; done.
Defined.
