(* ===== verification/PrefixPrune.v ===== *)
(** * Prefix pruning: requests and the choice of the tokens to keep

    [engine/prefix_prune.py].  Scores are Python floats; the choice is the same
    on every layer, head and rank because it is a function of the scores and the
    positions alone.  Python's sort leaves the order of NaN keys open, so the
    theorem is about scores without NaN. *)

From stdpp Require Import base gmap list strings sorting list_numbers.
From Stdlib Require Import ZArith QArith Lia Lqa.
From S2P Require Import Prelude SamplingParams.

Open Scope Z_scope.

(** ** Jobs and records *)

Definition PRUNE_POLICIES : list string := ["snapkv_global"; "kvzip_global"].
Inductive PrefixPruneStatus := PruneQueued | PruneRunning | PruneCompleted | PruneBlocked | PruneFailed.

Record PrefixPruneRecord := mkPruneRecord {
  record_prune_id : string;
  record_policy : string;
  record_range : Z * Z;
  original_tokens : Z;
  retained_tokens : Z;
  record_created_at : PyFloat;
}.

Record PrefixPruneJob := mkPruneJob {
  prune_id : string;
  prune_token_ids : list Z;
  range_start : Z;
  range_end : Z;
  keep_tokens : Z;
  prune_policy : string;
  allow_recompress : bool;
  observation_tokens : Z;
  score_chunk_size : Z;
  prev_postfix_size : Z;
  prune_status : PrefixPruneStatus;
  created_at : PyFloat;
  started_at : option PyFloat;
  finished_at : option PyFloat;
}.
#[export] Instance eta_prune_job : Eta PrefixPruneJob := fun r =>
  mkPruneJob (prune_id r) (prune_token_ids r) (range_start r) (range_end r) (keep_tokens r) (prune_policy r)
    (allow_recompress r) (observation_tokens r) (score_chunk_size r) (prev_postfix_size r) (prune_status r)
    (created_at r) (started_at r) (finished_at r).
(** [__post_init__]; [now] is [time()]. *)
Definition job_post_init (now : PyFloat) (j : PrefixPruneJob) : PrefixPruneJob :=
  if float_eq (created_at j) (float_of 0) then j <| created_at := now |> else j.

Definition validate_prefix_prune_request (token_count range_start range_end keep_tokens block_size : Z)
    (policy : string) : exc string :=
  if negb (bool_decide (policy ∈ PRUNE_POLICIES)) then Raise (ValueError "prefix prune policy must be")
  else if block_size <=? 0 then Raise (ValueError "prefix prune block_size must be positive")
  else if (range_start <? 0) || (range_end <=? range_start) || (token_count <? range_end)
  then Raise (ValueError "prefix prune range must satisfy 0 <= L < R <= selector length")
  else if negb (range_start mod block_size =? 0) || negb (range_end mod block_size =? 0)
  then Raise (ValueError "prefix prune range must be block-aligned")
  else if (keep_tokens <? 0) || (range_end - range_start <=? keep_tokens)
  then Raise (ValueError "prefix prune keep_tokens must satisfy 0 <= keep_tokens < R-L")
  else Ok policy.

(** ** The tokens to keep *)

(** The score of a position; positions are in range where it is used. *)
Definition score_at (scores : list PyFloat) (i : Z) : PyFloat := default (float_of 0) (scores !! Z.to_nat i).

(** The sort key [(-score, index)]. *)
Definition ranked (scores : list PyFloat) (i j : Z) : bool :=
  float_lt (score_at scores j) (score_at scores i)
  || (float_eq (score_at scores i) (score_at scores j) && (i <=? j)).
#[export] Instance ranked_dec scores i j : Decision (ranked scores i j = true) := decide (ranked scores i j = true).

Fixpoint collect_protected (n : Z) (l : list Z) (acc : gset Z) : exc (gset Z) :=
  match l with
  | [] => Ok acc
  | i :: l' => if (i <? 0) || (n <=? i) then Raise (ValueError "protected token index is out of range")
               else collect_protected n l' ({[i]} ∪ acc)
  end.

Definition select_global_keep_indices (scores : list PyFloat) (keep_tokens : Z) (protected_indices : option (list Z)) :
    exc (list Z) :=
  let n := Z.of_nat (length scores) in
  if (keep_tokens <? 0) || (n <? keep_tokens) then Raise (ValueError "invalid global keep budget")
  else
    protected ← collect_protected n (default [] protected_indices) ∅;
    if keep_tokens <? Z.of_nat (size protected) then Raise (ValueError "protected prefix-prune tokens exceed keep budget")
    else
      let candidates := filter (fun i => i ∉ protected) (seqZ 0 n) in
      let sorted_candidates := merge_sort (fun i j => ranked scores i j = true) candidates in
      let chosen := take (Z.to_nat (keep_tokens - Z.of_nat (size protected))) sorted_candidates in
      Ok (merge_sort Z.le (elements (protected ∪ list_to_set chosen))).

(** ** The order *)

Definition not_nan (f : PyFloat) : Prop := f <> NaN.

Lemma float_lt_finite p q : float_lt (Finite p) (Finite q) = true <-> Qlt p q.
Proof.
  cbn. rewrite negb_true_iff. split; [|intros; apply not_true_iff_false; rewrite Qle_bool_iff; lra].
  intros H. apply Qnot_le_lt. intros Hle. apply Qle_bool_iff in Hle. congruence.
Qed.
Lemma float_eq_finite p q : float_eq (Finite p) (Finite q) = true <-> Qeq p q.
Proof. apply Qeq_bool_iff. Qed.
Lemma float_lt_trans x y z : float_lt x y = true -> float_lt y z = true -> float_lt x z = true.
Proof.
  destruct x as [p|[]|], y as [q|[]|], z as [r|[]|]; try done. rewrite !float_lt_finite. intros. lra.
Qed.
Lemma float_lt_eq x y z : float_lt x y = true -> float_eq y z = true -> float_lt x z = true.
Proof.
  destruct x as [p|[]|], y as [q|[]|], z as [r|[]|]; try done. rewrite !float_lt_finite, float_eq_finite. intros. lra.
Qed.
Lemma float_eq_lt x y z : float_eq x y = true -> float_lt y z = true -> float_lt x z = true.
Proof.
  destruct x as [p|[]|], y as [q|[]|], z as [r|[]|]; try done. rewrite !float_lt_finite, float_eq_finite. intros. lra.
Qed.
Lemma float_eq_sym x y : float_eq x y = true -> float_eq y x = true.
Proof. destruct x as [p|[]|], y as [q|[]|]; try done. rewrite !float_eq_finite. intros. lra. Qed.
Lemma float_eq_trans x y z : float_eq x y = true -> float_eq y z = true -> float_eq x z = true.
Proof. destruct x as [p|[]|], y as [q|[]|], z as [r|[]|]; try done. rewrite !float_eq_finite. intros. lra. Qed.
Lemma float_cases x y : not_nan x -> not_nan y -> float_lt x y = true \/ float_eq x y = true \/ float_lt y x = true.
Proof.
  destruct x as [p|[]|], y as [q|[]|]; try (by auto); try (by intros []). intros _ _.
  rewrite !float_lt_finite, float_eq_finite. destruct (Q_dec p q) as [[|]|]; auto.
Qed.

Section ranking.
Context (scores : list PyFloat) (Hnan : Forall not_nan scores).

Lemma score_not_nan i : not_nan (score_at scores i).
Proof.
  unfold score_at. destruct (scores !! Z.to_nat i) as [f|] eqn:E; cbn; [|done].
  by apply (proj1 (Forall_lookup _ _) Hnan _ _ E).
Qed.
Lemma ranked_total : Total (fun i j => ranked scores i j = true).
Proof.
  intros i j. unfold ranked.
  destruct (float_cases _ _ (score_not_nan i) (score_not_nan j)) as [H|[H|H]]; [right; by rewrite H| |left; by rewrite H].
  rewrite H, (float_eq_sym _ _ H), !orb_true_iff. cbn. rewrite !Z.leb_le. destruct (Z.le_ge_cases i j); [by left; right|by right; right].
Qed.
Lemma ranked_trans : Transitive (fun i j => ranked scores i j = true).
Proof.
  intros i j k. unfold ranked. rewrite !orb_true_iff, !andb_true_iff, !Z.leb_le.
  intros [?|[? ?]] [?|[? ?]].
  - left. by eapply float_lt_trans.
  - left. eapply float_eq_lt; [by apply float_eq_sym|done].
  - left. eapply float_lt_eq; [done|by apply float_eq_sym].
  - right. split; [by eapply float_eq_trans|lia].
Qed.
End ranking.

Lemma collect_protected_spec n l acc p : collect_protected n l acc = Ok p <->
  p = list_to_set l ∪ acc /\ Forall (fun i => 0 <= i < n) l.
Proof.
  revert acc. induction l as [|i l IH]; intros acc; cbn.
  { split; [intros [= <-]|intros [-> _]; f_equal]; [split; [set_solver|constructor]|set_solver]. }
  destruct (Z.ltb_spec i 0); cbn; [split; [done|intros [_ [? _]%Forall_cons]; lia]|].
  destruct (Z.leb_spec n i); [split; [done|intros [_ [? _]%Forall_cons]; lia]|].
  rewrite IH, Forall_cons. split; intros [-> ?]; split_and!; try done; try set_solver; lia.
Qed.

(** What a choice of [keep] positions out of [n] must satisfy. *)
Record good_choice (scores : list PyFloat) (keep : Z) (protected : list Z) (sel : list Z) : Prop := {
  gc_sorted : StronglySorted Z.lt sel;
  gc_size : Z.of_nat (length sel) = keep;
  gc_range : Forall (fun i => 0 <= i < Z.of_nat (length scores)) sel;
  gc_protected : forall i, i ∈ protected -> i ∈ sel;
  (** Nothing left out outranks an unprotected position that was kept: ties go
      to the earlier position. *)
  gc_best : forall i j, i ∈ sel -> i ∉ protected -> 0 <= j < Z.of_nat (length scores) -> j ∉ sel ->
    ranked scores i j = true;
}.

Lemma sorted_lt_of_le l : StronglySorted Z.le l -> NoDup l -> StronglySorted Z.lt l.
Proof.
  induction 1 as [|x l Hs IH Hx]; [constructor|]. intros [Hni Hnd]%NoDup_cons. constructor; [by apply IH|].
  apply Forall_forall. intros y Hy. apply (proj1 (Forall_forall _ _) Hx) in Hy as Hle.
  assert (x <> y) by (intros ->; done). lia.
Qed.

Lemma ranked_take_drop scores l k i j : StronglySorted (fun i j => ranked scores i j = true) l ->
  i ∈ take k l -> j ∈ drop k l -> ranked scores i j = true.
Proof.
  intros Hs. rewrite <- (take_drop k l) in Hs. apply StronglySorted_app in Hs as (Hx & _). eauto.
Qed.

Section selection.
Context (scores : list PyFloat) (Hnan : Forall not_nan scores).
Abbreviation n := (Z.of_nat (length scores)).

(** The unprotected positions and the ones chosen among them. *)
Definition unprotected (p : gset Z) : list Z := filter (fun i => i ∉ p) (seqZ 0 n).
Definition by_rank (p : gset Z) : list Z := merge_sort (fun i j => ranked scores i j = true) (unprotected p).

Lemma elem_of_unprotected p i : i ∈ unprotected p <-> i ∉ p /\ 0 <= i < n.
Proof. unfold unprotected. rewrite list_elem_of_filter, elem_of_seqZ. split; intros [? ?]; split; try done; lia. Qed.
Lemma NoDup_unprotected p : NoDup (unprotected p).
Proof. apply NoDup_filter, NoDup_seqZ. Qed.

Lemma unprotected_count p : (forall i, i ∈ p -> 0 <= i < n) -> Z.of_nat (length (unprotected p)) = n - Z.of_nat (size p).
Proof.
  intros Hp. assert (elements p ++ unprotected p ≡ₚ seqZ 0 n) as Hperm.
  { apply NoDup_Permutation.
    - apply NoDup_app. split_and!; [apply NoDup_elements| |apply NoDup_unprotected].
      intros i Hi%elem_of_elements [Hni _]%elem_of_unprotected. done.
    - apply NoDup_seqZ.
    - intros i. rewrite elem_of_app, elem_of_elements, elem_of_unprotected, elem_of_seqZ. split.
      + intros [Hi|[_ ?]]; [apply Hp in Hi|]; lia.
      + intros ?. destruct (decide (i ∈ p)); [by left|right; split; [done|lia]]. }
  apply Permutation_length in Hperm. rewrite length_app, length_seqZ in Hperm. unfold size, set_size. cbn. lia.
Qed.

Lemma chosen_good keep prot : let p : gset Z := list_to_set prot in
  0 <= keep <= n -> Forall (fun i => 0 <= i < n) prot -> Z.of_nat (size p) <= keep ->
  good_choice scores keep prot
    (merge_sort Z.le (elements (p ∪ list_to_set (take (Z.to_nat (keep - Z.of_nat (size p))) (by_rank p))))).
Proof.
  intros p Hkeep Hprot Hsize. set (k := Z.to_nat (keep - Z.of_nat (size p))). set (chosen := take k (by_rank p)).
  assert (forall i, i ∈ p -> 0 <= i < n) as Hp.
  { intros i Hi. unfold p in Hi. apply elem_of_list_to_set in Hi. by apply (proj1 (Forall_forall _ _) Hprot). }
  pose proof (merge_sort_Permutation (fun i j => ranked scores i j = true) (unprotected p)) as Hperm.
  fold (by_rank p) in Hperm.
  assert (NoDup chosen) as Hnd.
  { apply (sublist_NoDup _ (by_rank p)); [rewrite Hperm; apply NoDup_unprotected|apply sublist_take]. }
  assert (forall i, i ∈ chosen -> i ∉ p /\ 0 <= i < n) as Hch.
  { intros i Hi. apply elem_of_unprotected. rewrite <- Hperm. rewrite <- (take_drop k (by_rank p)). apply elem_of_app. by left. }
  assert (length chosen = k) as Hk.
  { unfold chosen. rewrite length_take, Hperm. pose proof (unprotected_count p Hp). lia. }
  set (u := p ∪ list_to_set chosen).
  pose proof (merge_sort_Permutation Z.le (elements u)) as Hu.
  assert (forall i, i ∈ merge_sort Z.le (elements u) <-> i ∈ p \/ i ∈ chosen) as Hin.
  { intros i. rewrite Hu, elem_of_elements. unfold u. by rewrite elem_of_union, elem_of_list_to_set. }
  split.
  - apply sorted_lt_of_le; [apply StronglySorted_merge_sort; [exact Z.le_trans|exact Z.le_total]|].
    rewrite Hu. apply NoDup_elements.
  - rewrite Hu. change (length (elements u)) with (size u). unfold u. rewrite size_union, size_list_to_set by set_solver. lia.
  - apply Forall_forall. intros i [Hi|Hi]%Hin; [by apply Hp|by apply Hch].
  - intros i Hi. apply Hin. left. unfold p. by apply elem_of_list_to_set.
  - intros i j Hi Hni Hj Hnj. apply Hin in Hi as [Hi|Hi]; [unfold p in Hi; by apply elem_of_list_to_set in Hi|].
    assert (j ∈ by_rank p) as Hjr.
    { rewrite Hperm. apply elem_of_unprotected. split; [|done]. intros ?. apply Hnj, Hin. by left. }
    apply (ranked_take_drop scores (by_rank p) k).
    + apply StronglySorted_merge_sort; [by apply ranked_trans|by apply ranked_total].
    + done.
    + rewrite <- (take_drop k (by_rank p)) in Hjr. apply elem_of_app in Hjr as [?|?]; [|done].
      exfalso. apply Hnj, Hin. by right.
Qed.
End selection.

(** The selection refuses exactly the requests that cannot be met (a budget
    out of range, a protected position out of range, more protected positions
    than the budget).  Otherwise it keeps exactly the budget, in increasing order
    and with every protected position, and no position left out outranks one that
    was kept: scores decide, and the earlier position wins a tie. *)
Theorem selection_is_best scores keep prot : Forall not_nan scores ->
  match select_global_keep_indices scores keep prot with
  | Ok sel => good_choice scores keep (default [] prot) sel
  | Raise e => (exists msg, e = ValueError msg) /\
      ~ (0 <= keep <= Z.of_nat (length scores) /\
         Forall (fun i => 0 <= i < Z.of_nat (length scores)) (default [] prot) /\
         Z.of_nat (size (list_to_set (default [] prot) : gset Z)) <= keep)
  end.
Proof.
  intros Hnan. unfold select_global_keep_indices.
  destruct (Z.ltb_spec keep 0); cbn; [split; [by eexists|lia]|].
  destruct (Z.ltb_spec (Z.of_nat (length scores)) keep); [split; [by eexists|lia]|].
  destruct (collect_protected (Z.of_nat (length scores)) (default [] prot) ∅) as [p|e] eqn:E; cbn.
  - apply collect_protected_spec in E as [-> Hprot]. rewrite union_empty_r_L.
    destruct (Z.ltb_spec keep (Z.of_nat (size (list_to_set (default [] prot) : gset Z)))); [split; [by eexists|lia]|].
    by apply chosen_good.
  - split.
    + revert E. generalize (∅ : gset Z). induction (default [] prot) as [|i l IH]; intros acc; cbn; [done|].
      case_match; [intros [= <-]; by eexists|apply IH].
    + intros (_ & Hprot & _). rewrite (proj2 (collect_protected_spec _ _ _ _) (conj eq_refl Hprot)) in E. done.
Qed.

Lemma selection_is_best_witness :
  select_global_keep_indices [float_of 3; float_of 5; float_of 3; float_of 1; float_of 5] 3 (Some [3]) = Ok [1; 3; 4] /\
  good_choice [float_of 3; float_of 5; float_of 3; float_of 1; float_of 5] 3 [3] [1; 3; 4].
Proof.
  assert (select_global_keep_indices [float_of 3; float_of 5; float_of 3; float_of 1; float_of 5] 3 (Some [3]) = Ok [1; 3; 4]) as E
    by (vm_compute; reflexivity).
  split; [exact E|].
  pose proof (selection_is_best [float_of 3; float_of 5; float_of 3; float_of 1; float_of 5] 3 (Some [3])
    ltac:(repeat constructor; discriminate)) as Hs.
  rewrite E in Hs. exact Hs.
Defined.
