(* ===== verification/RuntimeState.v ===== *)
(** * The runtime state

    [engine/runtime_state.py]: the one entry point through which the engine
    reaches the owners of memory (the cache manager, the mixed prefix cache
    coordinator, the recurrent rows and the chain cache), and the memory oracle
    the scheduler asks.

    The cache manager and the prefix coordinator hold references to each other
    and to the recurrent manager, so all three live in one state [M] that every
    hook of [MemoryOwners] may change; the recurrent rows are read from it and
    written back.  The chain index, which only the runtime changes, is its own. *)

From stdpp Require Import base gmap list strings sorting.
From Stdlib Require Import ZArith Lia.
From S2P Require Import Prelude PyDict PyBytes Sha256 SamplingParams Sequence Scheduler ChainCache ChainCoordinator RecurrentRows.

(** ** The owners of memory

    [cm_]: the cache manager; [pc_]: the mixed prefix coordinator; [op_]: the
    [i]-th decode graph participant.  [K] is a compatibility key, [Input] the
    tensors of a step, [G] a decode graph's contract and inputs, [CS] and [PS]
    what the manager and a participant keep per graph. *)
Class MemoryOwners (M K Input G CS PS DType Device Content Event : Type) := {
  cm_num_free_slots : Act PyExn M Z;
  cm_prefill_batched_tokens_margin : Act PyExn M Z;
  cm_remaining_prefill_tokens : Sequence -> Act PyExn M Z;
  cm_prefill_execution_mode : Sequence -> Act PyExn M string;
  cm_prefill_batch_compatibility_key : Sequence -> Act PyExn M K;
  cm_reset_prefill_execution_state : Z -> Act PyExn M unit;
  cm_complete_prefill_execution : Sequence -> Act PyExn M unit;
  cm_reserved_prefill_slots : list Sequence -> Z -> Act PyExn M Z;
  cm_should_schedule_full_prefill : Sequence -> Act PyExn M bool;
  cm_requires_full_prefill_step : Sequence -> Act PyExn M bool;
  cm_requires_long_prefill_offload : Sequence -> Act PyExn M bool;
  cm_prefill_step_free_slots : Act PyExn M Z;
  cm_prefill_step_free_slots_for : Sequence -> Act PyExn M Z;
  cm_min_final_prefill_chunk_size : Sequence -> Act PyExn M Z;
  cm_prefill_step_reservation_cost : Sequence -> Z -> Act PyExn M Z;
  cm_decode_step_free_slots : Act PyExn M Z;
  cm_decode_step_free_slots_for : Sequence -> Act PyExn M Z;
  cm_decode_step_reservation_cost : Sequence -> Act PyExn M Z;
  cm_prompt_admission_free_slots : Act PyExn M Z;
  cm_prompt_admission_budgets : list Sequence -> Z -> Act PyExn M (PyDict string Z);
  cm_prompt_admission_costs : Sequence -> Act PyExn M (PyDict string Z);
  cm_prompt_admission_cost : Sequence -> Act PyExn M Z;
  cm_prompt_logical_reservation_cost : Sequence -> Act PyExn M Z;
  cm_prompt_admission_failure_action : Act PyExn M string;
  cm_on_prompt_admitted : Sequence -> PyDict string Z -> Act PyExn M unit;
  cm_refresh_prefix_cache_hit : Sequence -> Act PyExn M PrefixHit;
  cm_clear_prefix_cache_hit : Sequence -> Act PyExn M PrefixHit;
  cm_prepare_step : list Sequence -> bool -> Act PyExn M Input;
  cm_prepare_decode_static : list Sequence -> option (Z * Device) -> Act PyExn M Input;
  cm_on_forward_end : list Sequence -> bool -> Act PyExn M unit;
  cm_free_seq : Z -> Act PyExn M unit;
  cm_on_chain_turn_finished : Z -> Z -> Act PyExn M unit;
  cm_chain_hooks : M -> ChainCacheManager;
  cm_reset_after_warmup : option (Act PyExn M unit);
  cm_reset_prefix_cache : option (Act PyExn M unit);
  cm_init_decode_graph_state : G -> Act PyExn M CS;
  cm_prepare_decode_graph_step : list Sequence -> CS -> Act PyExn M unit;
  cm_prepare_decode_graph_in : CS -> Act PyExn M unit;
  pc_step_reclaimable_slots : Act PyExn M Z;
  pc_admission_reclaimable_slots : Act PyExn M Z;
  pc_prefix_hit_evictable_slots : Sequence -> Act PyExn M Z;
  pc_evict_for_slots : Z -> Act PyExn M unit;
  pc_attach_prefix_cache_hits : list Sequence -> Act PyExn M unit;
  pc_record_step_tokens : list Sequence -> bool -> Act PyExn M unit;
  pc_commit_pending_blocks : list Sequence -> Act PyExn M unit;
  pc_finish_step : Act PyExn M unit;
  pc_release_seq : Z -> Act PyExn M unit;
  pc_refresh_prefix_cache_hit : Sequence -> Act PyExn M PrefixHit;
  pc_reset_after_warmup : Act PyExn M unit;
  op_init : nat -> G -> Act PyExn M PS;
  op_close : nat -> PS -> Act PyExn M unit;
  op_prepare_out : nat -> PS -> Act PyExn M unit;
  op_prepare_in : nat -> PS -> Act PyExn M unit;
  graph_capacity : G -> Z;
  graph_device : G -> Device;
  recurrent_of : M -> option (@RecurrentStateManager DType Device Content Event);
  set_recurrent : @RecurrentStateManager DType Device Content Event -> M -> M;
}.

(** ** State *)

Record RuntimeState (M : Type) := mkRuntime {
  rt_max_num_seqs_in_gpu : Z;
  rt_engine_prefill_chunk_size : Z;
  owners : M;
  coordinator_block_size : option Z;
  chain_index : option ChainCacheIndex;
  num_participants : nat;
  resident_seq_ids : gset Z;
}.
Arguments mkRuntime {M}. Arguments rt_max_num_seqs_in_gpu {M}. Arguments rt_engine_prefill_chunk_size {M}.
Arguments owners {M}. Arguments coordinator_block_size {M}. Arguments chain_index {M}.
Arguments num_participants {M}. Arguments resident_seq_ids {M}.
#[export] Instance eta_runtime M : Eta (RuntimeState M) := fun r =>
  mkRuntime (rt_max_num_seqs_in_gpu r) (rt_engine_prefill_chunk_size r) (owners r) (coordinator_block_size r)
    (chain_index r) (num_participants r) (resident_seq_ids r).
(** [__init__]; the last five arguments say which collaborators it was given. *)
Definition new_runtime {M} (max_seqs chunk : Z) (m : M) (block_size : option Z) (chain : option ChainCacheIndex)
    (participants : nat) : RuntimeState M :=
  mkRuntime max_seqs chunk m block_size chain participants ∅.

(** ** Exceptions and clean-up *)

Definition plainly {S A} (m : Act PyExn S A) : Act ChainExn S A := fun s => let '(r, s') := m s in (plain r, s').

Section runtime.
Context {M K Input G CS PS DType Device Content Event : Type}
  `{TorchTypes DType Device Content Event} `{MemoryOwners M K Input G CS PS DType Device Content Event}.
#[local] Abbreviation RtAct := (Act PyExn (RuntimeState M)).
#[local] Abbreviation ChainRtAct := (Act ChainExn (RuntimeState M)).

Definition on_owners {A} (m : Act PyExn M A) : RtAct A := fun s =>
  let '(r, m') := m (owners s) in (r, s <| owners := m' |>).
(** Calling a method of the prefix coordinator, if there is one. *)
Definition on_coordinator (m : Act PyExn M unit) : RtAct unit := fun s =>
  match coordinator_block_size s with None => (Ok tt, s) | Some _ => on_owners m s end.
(** Calling a method of the recurrent manager, if there is one. *)
Definition recurrently (a : Act PyExn (@RecurrentStateManager DType Device Content Event) unit) : Act PyExn M unit := fun m =>
  match recurrent_of m with
  | None => (Ok tt, m)
  | Some r => let '(x, r') := a r in (x, set_recurrent r' m)
  end.
Definition on_recurrent (a : Act PyExn (@RecurrentStateManager DType Device Content Event) unit) : RtAct unit :=
  on_owners (recurrently a).
(** Calling the chain coordinator, which must be enabled. *)
Definition on_chain {A} (f : ChainCacheManager -> ChainAct A) : ChainRtAct A := fun s =>
  match chain_index s with
  | None => (Raise (Plain (RuntimeError "Chain prefix cache is not enabled for this runtime.")), s)
  | Some ix => let '(r, ix') := f (cm_chain_hooks (owners s)) ix in (r, s <| chain_index := Some ix' |>)
  end.

(** ** Steps *)

Definition step_required_slots (seqs : list Sequence) (is_prefill : bool) : Z :=
  if is_prefill then sumZ ((fun q => default 0 (current_chunk_size q)) <$> seqs) else Z.of_nat (length seqs).
Definition coordinator_slots (slots : Act PyExn M Z) : RtAct Z := fun s =>
  match coordinator_block_size s with None => (Ok 0, s) | Some _ => on_owners slots s end.
Definition mixed_prefix_step_reclaimable_slots : RtAct Z := coordinator_slots pc_step_reclaimable_slots.
Definition mixed_prefix_admission_reclaimable_slots : RtAct Z := coordinator_slots pc_admission_reclaimable_slots.

(** [_mixed_prefix_boundary_limit] *)
Definition mixed_prefix_boundary_limit (block_size : option Z) (q : Sequence) : Z :=
  match block_size with
  | None => num_prompt_tokens q - num_prefilled_tokens q
  | Some bs =>
      if bs <=? 0 then num_prompt_tokens q - num_prefilled_tokens q
      else
        let start := Z.max (num_prefilled_tokens q) (prefix_cache_hit_len (prefix_hit q)) in
        let remaining := num_prompt_tokens q - start in
        if remaining <=? 0 then 0
        else
          let to_boundary := bs - start mod bs in
          Z.min remaining (if to_boundary =? 0 then bs else to_boundary)
  end.

Definition evict_mixed_prefix_for_step (seqs : list Sequence) (is_prefill : bool) : RtAct unit :=
  s ← read (fun s => s);
  let needed := step_required_slots seqs is_prefill in
  match coordinator_block_size s with
  | None => mret tt
  | Some _ =>
      when (0 <? needed)
        (free ← on_owners cm_num_free_slots;
         when (free <? needed) (on_owners (pc_evict_for_slots (needed - free))))
  end.

Definition rt_prepare_step (seqs : list Sequence) (is_prefill : bool) : RtAct Input :=
  when is_prefill (on_coordinator (pc_attach_prefix_cache_hits seqs)) ;;
  evict_mixed_prefix_for_step seqs is_prefill ;;
  result ← on_owners (cm_prepare_step seqs is_prefill);
  on_recurrent (prepare_step seqs) ;;
  mret result.

(** [args] is the capacity and the device of the first argument, when it is a tensor. *)
Definition rt_prepare_decode_static (seqs : list Sequence) (args : option (Z * Device)) : RtAct Input :=
  evict_mixed_prefix_for_step seqs false ;;
  result ← on_owners (cm_prepare_decode_static seqs args);
  on_recurrent (match args with
                | None => throw (RuntimeError "Static recurrent decode requires the graph input tensor.")
                | Some (n, d) => prepare_decode_static seqs n d
                end) ;;
  mret result.

Definition rt_on_forward_end (seqs : list Sequence) (is_prefill : bool) : RtAct unit :=
  on_owners (cm_on_forward_end seqs is_prefill) ;;
  s ← read (fun s => s);
  match coordinator_block_size s with
  | None => mret tt
  | Some _ =>
      on_owners (finally (pc_record_step_tokens seqs is_prefill ;; pc_commit_pending_blocks seqs) pc_finish_step)
  end.

(** [_free_seq_payload], and [free_seq] *)
Definition free_seq_payload (seq_id : Z) : RtAct unit :=
  on_owners (cm_free_seq seq_id) ;;
  on_coordinator (pc_release_seq seq_id) ;;
  on_recurrent (free_seq seq_id) ;;
  modify (fun s => s <| resident_seq_ids ::= fun r => r ∖ {[seq_id]} |>).

(** ** Decode graphs *)

Record RuntimeDecodeGraphState := mkGraphState {
  graph_cache : CS;
  operator_states : list (nat * PS);
}.
(** [DecodeGraphState]: a graph and the participant it was given. *)
Record DecodeGraph := mkDecodeGraph {
  graph : G;
  runtime_state : option RuntimeDecodeGraphState;
}.

(** [close]: the participants in reverse. *)
Definition close_states (states : list (nat * PS)) : RtAct unit :=
  for_each (rev states) (fun st => on_owners (op_close st.1 st.2)).

(** The loop of [init_decode_graph_state]; what was opened is closed when it fails. *)
Fixpoint init_participants (g : G) (ps : list nat) (opened : list (nat * PS)) : RtAct (list (nat * PS)) :=
  match ps with
  | [] => mret opened
  | p :: ps' =>
      st ← on_error (on_owners (op_init p g)) (close_states opened);
      init_participants g ps' (opened ++ [(p, st)])
  end.

Definition init_decode_graph_state (g : DecodeGraph) : RtAct (DecodeGraph * RuntimeDecodeGraphState) :=
  guard_not (bool_decide (is_Some (runtime_state g))) (RuntimeError "Decode graph runtime state was initialized twice.") ;;
  cache ← on_owners (cm_init_decode_graph_state (graph g));
  n ← read num_participants;
  states ← init_participants (graph g) (seq 0 n) [];
  let st := mkGraphState cache states in
  mret (mkDecodeGraph (graph g) (Some st), st).

(** [RuntimeDecodeGraphState.prepare_out_graph] *)
Definition prepare_out_graph (g : G) (seqs : list Sequence) (st : RuntimeDecodeGraphState) : RtAct unit :=
  evict_mixed_prefix_for_step seqs false ;;
  on_owners (cm_prepare_decode_graph_step seqs (graph_cache st)) ;;
  for_each (operator_states st) (fun p => on_owners (op_prepare_out p.1 p.2)) ;;
  on_recurrent (prepare_decode_static seqs (graph_capacity g) (graph_device g)).
Definition prepare_in_graph (st : RuntimeDecodeGraphState) : RtAct unit :=
  on_owners (cm_prepare_decode_graph_in (graph_cache st)) ;;
  for_each (operator_states st) (fun p => on_owners (op_prepare_in p.1 p.2)).
(** [RuntimeDecodeGraphState.close] *)
Definition close_graph_state (st : RuntimeDecodeGraphState) : RtAct unit := close_states (operator_states st).

Definition prepare_decode_graph_step (seqs : list Sequence) (g : DecodeGraph) : RtAct DecodeGraph :=
  opened ← match runtime_state g with
           | Some st => mret (g, st)
           | None => init_decode_graph_state g
           end;
  let '(g', st) := opened in
  prepare_out_graph (graph g) seqs st ;;
  mret g'.

(** ** Chains *)

Section chains.
Context `{Digest} (config_fingerprint : bytes).

Definition chain_admission_plan (id : string) (seq_id : Z) (token_ids : list Z) (gen_tokens : Z) : ChainRtAct ChainAdmissionPlan :=
  on_chain (fun hooks => coordinator_plan config_fingerprint hooks id seq_id token_ids gen_tokens).
Definition chain_validate_admission_plan (expected : ChainAdmissionPlan) (count : Z) (d : bytes) (gen_tokens : Z) :
    ChainRtAct ChainAdmissionPlan :=
  on_chain (fun hooks => validate_admission_plan config_fingerprint hooks expected count d gen_tokens).

Fixpoint local_victims (ids : list string) : ChainAct (list Z) :=
  match ids with
  | [] => mret []
  | id :: ids' => r ← lookup_record id; rest ← local_victims ids'; mret (chain_seq_id r :: rest)
  end.
Definition chain_apply_admission (p : ChainAdmissionPlan) : ChainRtAct ChainRecord :=
  victims ← on_chain (fun _ => local_victims (victim_chain_ids p));
  r ← on_chain (fun _ => coordinator_apply config_fingerprint p);
  for_each victims (fun q => plainly (free_seq_payload q)) ;;
  mret r.

Definition chain_finish (id : string) (seq_id : Z) (d : bytes) (processed : Z) : ChainRtAct ChainRecord :=
  on_chain (fun _ => mret tt) ;;
  plainly (on_owners (cm_on_chain_turn_finished seq_id processed)) ;;
  on_chain (fun hooks => finish_values hooks id seq_id d processed).

Definition chain_invalidate (id : string) (expected_seq_id : option Z) : ChainRtAct ChainRecord :=
  r ← on_chain (fun _ => lookup_record id);
  guard_not (match expected_seq_id with Some q => negb (chain_seq_id r =? q) | None => false end)
    (ChainError ChainOwnerMismatchError (Some id)) ;;
  r ← on_chain (fun _ => invalidate id);
  s ← read (fun s => s);
  resident ← lift (plain (is_resident (cm_chain_hooks (owners s)) r));
  (if (resident : bool) then plainly (free_seq_payload (chain_seq_id r))
   else modify (fun s => s <| resident_seq_ids ::= fun l => l ∖ {[chain_seq_id r]} |>)) ;;
  mret r.
End chains.

(** The routing answer of the chain index; [None] when chains are disabled. *)
Definition chain_routing_match (s : RuntimeState M) (id : string) : option (bool * option ChainState * bool) :=
  (fun ix => routing_match id ix) <$> chain_index s.

(** The resident owners of chains, [sorted]. *)
Definition resident_chain_seq_ids (s : RuntimeState M) : list Z :=
  match chain_index s with
  | None => []
  | Some ix => merge_sort Z.le (elements (list_to_set (chain_seq_id <$> values (chain_records ix)) ∩ resident_seq_ids s))
  end.
Definition rt_reset_after_warmup : ChainRtAct unit :=
  plainly (on_coordinator pc_reset_after_warmup) ;;
  s ← read (fun s => s);
  (match chain_index s with
   | None => mret tt
   | Some _ =>
       for_each (resident_chain_seq_ids s) (fun q => plainly (free_seq_payload q)) ;;
       on_chain (fun _ => reset_index)
   end) ;;
  plainly (on_owners (match cm_reset_after_warmup, cm_reset_prefix_cache with
                      | Some reset, _ => reset
                      | None, Some reset => reset
                      | None, None => mret tt
                      end)) ;;
  plainly (on_recurrent reset_after_warmup) ;;
  modify (fun s => s <| resident_seq_ids := ∅ |>).

(** ** The memory oracle *)

Definition rt_clear_prefix_cache_hit (q : Sequence) : RtAct PrefixHit := on_owners (cm_clear_prefix_cache_hit q).
Definition rt_refresh_prefix_cache_hit (q : Sequence) : RtAct PrefixHit :=
  s ← read (fun s => s);
  if bool_decide (is_Some (multimodal_digest (tags q))) then rt_clear_prefix_cache_hit q
  else match coordinator_block_size s with
       | Some _ => on_owners (pc_refresh_prefix_cache_hit q)
       | None => on_owners (cm_refresh_prefix_cache_hit q)
       end.

Definition rt_prefill_execution_mode (q : Sequence) : RtAct string :=
  if multimodal_full_prefill (tags q) then mret "full"%string else on_owners (cm_prefill_execution_mode q).

(** A number of the cache manager's plus what the coordinator can reclaim. *)
Definition plus_reclaimable (m : Act PyExn M Z) (reclaimable : RtAct Z) : RtAct Z :=
  n ← on_owners m; extra ← reclaimable; mret (n + extra).
Definition rt_prefill_step_free_slots : RtAct Z :=
  plus_reclaimable cm_prefill_step_free_slots mixed_prefix_step_reclaimable_slots.
Definition rt_prefill_step_free_slots_for (q : Sequence) : RtAct Z :=
  free ← plus_reclaimable (cm_prefill_step_free_slots_for q) mixed_prefix_step_reclaimable_slots;
  bs ← read coordinator_block_size;
  mret (match bs with None => free | Some _ => Z.min free (mixed_prefix_boundary_limit bs q) end).
Definition rt_decode_step_free_slots : RtAct Z :=
  plus_reclaimable cm_decode_step_free_slots mixed_prefix_step_reclaimable_slots.
Definition rt_decode_step_free_slots_for (q : Sequence) : RtAct Z :=
  plus_reclaimable (cm_decode_step_free_slots_for q) mixed_prefix_step_reclaimable_slots.
Definition rt_prompt_admission_free_slots : RtAct Z :=
  plus_reclaimable cm_prompt_admission_free_slots mixed_prefix_admission_reclaimable_slots.

(** Adding [extra] to the one budget or cost that counts slots. *)
Definition add_to_slots (msg : string) (extra : Z) (d : PyDict string Z) : exc (PyDict string Z) :=
  if extra <=? 0 then Ok d
  else match d !! "slots"%string with
       | Some n => Ok (<["slots"%string := n + extra]> d)
       | None =>
           if (len d =? 2)%nat && has_key "resident_seqs"%string d then
             match List.find (fun kv => negb (String.eqb kv.1 "resident_seqs")) (items d) with
             | Some (key, n) => Ok (<[key := n + extra]> d)
             | None => Raise (RuntimeError "StopIteration")
             end
           else Raise (RuntimeError msg)
       end.
Definition rt_prompt_admission_budgets (waiting_seqs : list Sequence) (chunk : Z) : RtAct (PyDict string Z) :=
  budgets ← on_owners (cm_prompt_admission_budgets waiting_seqs chunk);
  s ← read (fun s => s);
  extra ← mixed_prefix_admission_reclaimable_slots;
  lift (add_to_slots "Mixed prefix admission accounting cannot add evictable slots" extra
          (<["resident_seqs"%string := Z.max 0 (rt_max_num_seqs_in_gpu s - Z.of_nat (size (resident_seq_ids s)))]> budgets)).

Definition prefix_hit_evictable_slots (q : Sequence) : RtAct Z := coordinator_slots (pc_prefix_hit_evictable_slots q).
Definition rt_prompt_admission_cost (q : Sequence) : RtAct Z :=
  plus_reclaimable (cm_prompt_admission_cost q) (prefix_hit_evictable_slots q).
Definition rt_prompt_logical_reservation_cost (q : Sequence) : RtAct Z :=
  plus_reclaimable (cm_prompt_logical_reservation_cost q) (prefix_hit_evictable_slots q).
Definition rt_prompt_admission_costs (q : Sequence) : RtAct (PyDict string Z) :=
  costs ← on_owners (cm_prompt_admission_costs q);
  s ← read (fun s => s);
  let costs := <["resident_seqs"%string := if bool_decide (seq_id q ∈ resident_seq_ids s) then 0 else 1]> costs in
  extra ← prefix_hit_evictable_slots q;
  lift (add_to_slots "Mixed prefix admission accounting cannot add hit-evictable slots" extra costs).
Definition rt_on_prompt_admitted (q : Sequence) (costs : PyDict string Z) : RtAct unit :=
  on_owners (cm_on_prompt_admitted q costs) ;;
  when (0 <? default 0 (costs !! "resident_seqs"%string))
    (modify (fun s => s <| resident_seq_ids ::= fun r => {[seq_id q]} ∪ r |>)).

(** The oracle the scheduler is given. *)
Definition runtime_oracle (key_hashable : K -> bool) : MemoryOracle (RuntimeState M) K := {|
  num_free_slots := on_owners cm_num_free_slots;
  prefill_batched_tokens_margin := on_owners cm_prefill_batched_tokens_margin;
  remaining_prefill_tokens q := on_owners (cm_remaining_prefill_tokens q);
  prefill_execution_mode := rt_prefill_execution_mode;
  prefill_batch_compatibility_key q := on_owners (cm_prefill_batch_compatibility_key q);
  reset_prefill_execution_state id := on_owners (cm_reset_prefill_execution_state id);
  complete_prefill_execution q := on_owners (cm_complete_prefill_execution q);
  reserved_prefill_slots w chunk := on_owners (cm_reserved_prefill_slots w chunk);
  should_schedule_full_prefill q := on_owners (cm_should_schedule_full_prefill q);
  prefill_step_free_slots := rt_prefill_step_free_slots;
  prefill_step_free_slots_for := rt_prefill_step_free_slots_for;
  min_final_prefill_chunk_size q := on_owners (cm_min_final_prefill_chunk_size q);
  prefill_step_reservation_cost q n := on_owners (cm_prefill_step_reservation_cost q n);
  decode_step_free_slots := rt_decode_step_free_slots;
  decode_step_free_slots_for := rt_decode_step_free_slots_for;
  decode_step_reservation_cost q := on_owners (cm_decode_step_reservation_cost q);
  prompt_admission_free_slots := rt_prompt_admission_free_slots;
  prompt_admission_budgets := rt_prompt_admission_budgets;
  prompt_admission_costs := rt_prompt_admission_costs;
  prompt_logical_reservation_cost := rt_prompt_logical_reservation_cost;
  prompt_admission_failure_action := on_owners cm_prompt_admission_failure_action;
  on_prompt_admitted := rt_on_prompt_admitted;
  refresh_prefix_cache_hit := rt_refresh_prefix_cache_hit;
  oracle_clear_prefix_cache_hit := rt_clear_prefix_cache_hit;
  hashable := key_hashable;
|}.

(** ** The startup check *)

(** [Sequence([0] * n, sampling_params)] with consecutive ids from [id]. *)
Fixpoint startup_seqs (id : Z) (params : SamplingParams) (lengths : list Z) : list Sequence :=
  match lengths with
  | [] => []
  | n :: lengths' => new_sequence id (replicate (Z.to_nat n) 0) params :: startup_seqs (id + 1) params lengths'
  end.
Definition add_costs (costs : list (string * Z)) (total : PyDict string Z) : PyDict string Z :=
  foldl (fun t kv => <[kv.1 := default 0 (t !! kv.1) + kv.2]> t) total costs.
Fixpoint aggregate_costs (seqs : list Sequence) (total : PyDict string Z) (logical : Z) : RtAct (PyDict string Z * Z) :=
  match seqs with
  | [] => mret (total, logical)
  | q :: seqs' =>
      costs ← rt_prompt_admission_costs q;
      n ← rt_prompt_logical_reservation_cost q;
      aggregate_costs seqs' (add_costs (items costs) total) (logical + n)
  end.
(** [first_id] is the next value of the sequences' class counter. *)
Definition startup_batch_fits (first_id : Z) (prompt_lengths : list Z) (max_toks : Z) : RtAct bool :=
  guard_not (bool_decide (prompt_lengths = []) || existsb (fun n => n <=? 0) prompt_lengths)
    (ValueError "Startup prompt lengths must be positive") ;;
  params ← lift (post_init (default_sampling <| max_tokens := max_toks |> <| temperature := float_of 0 |> <| ignore_eos := true |>));
  let seqs := startup_seqs first_id params prompt_lengths in
  chunk ← read rt_engine_prefill_chunk_size;
  budgets ← rt_prompt_admission_budgets seqs chunk;
  totals ← aggregate_costs seqs ∅ 0;
  let '(total, logical) := totals in
  if existsb (fun kv => default 0 (budgets !! kv.1) <? kv.2) (items total) then mret false
  else free ← rt_prompt_admission_free_slots; mret (logical <=? free).
End runtime.
