(* ===== verification/RuntimeFacts.v ===== *)
(** * The runtime state: who is resident

    Which operations change the set of resident sequences, and how a scheduling
    round spends the budget the runtime gives it for new ones. *)

From stdpp Require Import base gmap list strings sorting.
From Stdlib Require Import ZArith Lia.
From S2P Require Import Prelude PyDict PyBytes Sha256 SamplingParams Sequence Scheduler SchedulerFacts ChainCache ChainCoordinator RecurrentRows RuntimeState.

(** ** Invariants of the clean-up combinators *)

Section keep.
Context {E S : Type} (I : S -> Prop).

Lemma keep_on_error {A} (a : Act E S A) h : keep I a -> keep I h -> keep I (on_error a h).
Proof.
  intros Ha Hh s Hs. specialize (Ha s Hs). unfold wp, on_error in *. destruct (a s) as [[x|e] s1]; [done|].
  specialize (Hh s1 Ha). unfold wp in Hh. by destruct (h s1) as [[?|?] ?].
Qed.
Lemma keep_plainly {A} (a : Act PyExn S A) : keep I a -> keep I (plainly a).
Proof. intros Ha s Hs. specialize (Ha s Hs). unfold wp, plainly in *. by destruct (a s). Qed.
End keep.
#[export] Hint Resolve keep_on_error keep_plainly : keep.

Section runtime.
Context {M K Input G CS PS DType Device Content Event : Type}
  `{TorchTypes DType Device Content Event} `{MemoryOwners M K Input G CS PS DType Device Content Event}.
#[local] Abbreviation Runtime := (RuntimeState M).
#[local] Abbreviation RtAct := (Act PyExn (RuntimeState M)).
Implicit Types (t : RuntimeState M) (b : Z).

Lemma wpo_on_owners {A} (a : Act PyExn M A) (P : A -> RuntimeState M -> Prop) t :
  (forall x m', a (owners t) = (Ok x, m') -> P x (t <| owners := m' |>)) -> wpo (on_owners a) P t.
Proof. intros HP. unfold wpo, wp, on_owners. destruct (a (owners t)) as [[x|e] m'] eqn:E; cbn; [by apply HP|done]. Qed.

Lemma wpo_any {A} (a : RtAct A) t : wpo a (fun _ _ => True) t.
Proof. unfold wpo, wp. by destruct (a t) as [[?|?] ?]. Qed.

(** ** Resident sequences *)

Definition residents t : Z := Z.of_nat (size (resident_seq_ids t)).
Definition resident_limit t : Z := Z.max 0 (rt_max_num_seqs_in_gpu t).
(** There is room for [b] more resident sequences below [limit]. *)
Definition has_room limit b t : Prop := resident_limit t = limit /\ residents t + b <= limit.

(** [I] depends on the residents and their limit alone, and holds of fewer. *)
Class Residency (I : Runtime -> Prop) := residency : forall t t',
  rt_max_num_seqs_in_gpu t' = rt_max_num_seqs_in_gpu t -> resident_seq_ids t' ⊆ resident_seq_ids t -> I t -> I t'.
#[export] Instance has_room_residency limit b : Residency (has_room limit b).
Proof.
  intros t t' E Hsub. unfold has_room, residents, resident_limit. rewrite E. pose proof (subseteq_size _ _ Hsub). lia.
Qed.

Section residency.
Context (I : Runtime -> Prop) `{!Residency I}.

Lemma keep_owners {A} (m : Act PyExn M A) : keep I (on_owners m).
Proof. intros t Ht. unfold wp, on_owners. destruct (m (owners t)). cbn. by apply (residency t). Qed.
Hint Resolve keep_owners : keep.
Lemma keep_on_coordinator m : keep I (on_coordinator m).
Proof. intros t Ht. unfold wp, on_coordinator. destruct (coordinator_block_size t); [by apply keep_owners|done]. Qed.
Lemma keep_coordinator_slots m : keep I (coordinator_slots m).
Proof. intros t Ht. unfold wp, coordinator_slots. destruct (coordinator_block_size t); [by apply keep_owners|done]. Qed.
Lemma keep_on_recurrent a : keep I (on_recurrent a).
Proof. apply keep_owners. Qed.
Lemma keep_on_chain {A} (f : ChainCacheManager -> ChainAct A) : keep I (on_chain f).
Proof.
  intros t Ht. unfold wp, on_chain. destruct (chain_index t); [|done]. destruct (f _ _). cbn. by apply (residency t).
Qed.
Lemma keep_discard {X} q : keep I (modify (fun s : Runtime => s <| resident_seq_ids ::= fun r => r ∖ {[q]} |>) : Act X Runtime unit).
Proof. apply keep_modify. intros t Ht. apply (residency t); [done| |done]. cbn. set_solver. Qed.
Hint Resolve keep_on_coordinator keep_coordinator_slots keep_on_recurrent keep_on_chain keep_discard : keep.

Lemma keep_evict seqs p : keep I (evict_mixed_prefix_for_step seqs p).
Proof. unfold evict_mixed_prefix_for_step. keep_auto. Qed.
Hint Resolve keep_evict : keep.
Lemma keep_prepare_step seqs p : keep I (rt_prepare_step seqs p).
Proof. unfold rt_prepare_step. keep_auto. Qed.
Lemma keep_prepare_static seqs a : keep I (rt_prepare_decode_static seqs a).
Proof. unfold rt_prepare_decode_static. keep_auto. Qed.
Lemma keep_forward_end seqs p : keep I (rt_on_forward_end seqs p).
Proof. unfold rt_on_forward_end. keep_auto. Qed.
Lemma keep_free q : keep I (free_seq_payload q).
Proof. unfold free_seq_payload. keep_auto. Qed.
Hint Resolve keep_free : keep.

Lemma keep_init_participants g ps opened : keep I (init_participants g ps opened).
Proof.
  revert opened. induction ps as [|p ps IH]; intros opened; cbn; [apply keep_ret|].
  unfold close_states. apply keep_bind; [apply keep_on_error; keep_auto|intros st; apply IH].
Qed.
Hint Resolve keep_init_participants : keep.
Lemma keep_graph_step seqs g : keep I (prepare_decode_graph_step seqs g).
Proof. unfold prepare_decode_graph_step, init_decode_graph_state, prepare_out_graph. keep_auto. Qed.

Lemma keep_chain_apply `{Digest} fp p : keep I (chain_apply_admission fp p).
Proof. unfold chain_apply_admission. keep_auto. Qed.
Lemma keep_chain_finish `{Digest} id q d n : keep I (chain_finish id q d n).
Proof. unfold chain_finish. keep_auto. Qed.
Lemma keep_chain_invalidate id e : keep I (chain_invalidate id e).
Proof. unfold chain_invalidate. keep_auto. Qed.
Lemma keep_reset : keep I rt_reset_after_warmup.
Proof.
  unfold rt_reset_after_warmup. keep_auto. apply keep_modify. intros t Ht. apply (residency t); [done| |done]. cbn. set_solver.
Qed.

(** *** The memory oracle *)

Lemma keep_refresh q : keep I (rt_refresh_prefix_cache_hit q).
Proof. unfold rt_refresh_prefix_cache_hit, rt_clear_prefix_cache_hit. keep_auto. Qed.
Lemma keep_mode q : keep I (rt_prefill_execution_mode q).
Proof. unfold rt_prefill_execution_mode. keep_auto. Qed.
Lemma keep_plus m r : keep I r -> keep I (plus_reclaimable m r).
Proof. intros. unfold plus_reclaimable. keep_auto. Qed.
Lemma keep_step_reclaimable : keep I mixed_prefix_step_reclaimable_slots.
Proof. apply keep_coordinator_slots. Qed.
Lemma keep_admission_reclaimable : keep I mixed_prefix_admission_reclaimable_slots.
Proof. apply keep_coordinator_slots. Qed.
Lemma keep_hit_evictable q : keep I (prefix_hit_evictable_slots q).
Proof. apply keep_coordinator_slots. Qed.
Hint Resolve keep_plus keep_step_reclaimable keep_admission_reclaimable keep_hit_evictable : keep.
Lemma keep_free_slots_for q : keep I (rt_prefill_step_free_slots_for q).
Proof. unfold rt_prefill_step_free_slots_for. keep_auto. Qed.
Lemma keep_budgets w c : keep I (rt_prompt_admission_budgets w c).
Proof. unfold rt_prompt_admission_budgets. keep_auto. Qed.
Lemma keep_costs q : keep I (rt_prompt_admission_costs q).
Proof. unfold rt_prompt_admission_costs. keep_auto. Qed.
Lemma keep_logical q : keep I (rt_prompt_logical_reservation_cost q).
Proof. unfold rt_prompt_logical_reservation_cost. keep_auto. Qed.
Lemma keep_admission_free : keep I rt_prompt_admission_free_slots.
Proof. unfold rt_prompt_admission_free_slots. keep_auto. Qed.
Hint Resolve keep_budgets keep_costs keep_logical keep_admission_free : keep.
Lemma keep_aggregate seqs total n : keep I (aggregate_costs seqs total n).
Proof. revert total n. induction seqs as [|q seqs IH]; intros; cbn; keep_auto. Qed.
Hint Resolve keep_aggregate : keep.
Lemma keep_startup id lengths n : keep I (startup_batch_fits id lengths n).
Proof. unfold startup_batch_fits. keep_auto. Qed.
End residency.
End runtime.
