(* ===== verification/RuntimeStartup.v ===== *)
(** * The runtime state: the startup check

    [startup_batch_fits] adds up what every prompt costs and compares the totals
    with the budgets; the scheduler admits prompts one after another, each
    against what its predecessors left.  The two agree. *)

From stdpp Require Import base gmap list strings sorting.
From Stdlib Require Import ZArith Lia.
From S2P Require Import Prelude PyDict PyBytes Sha256 SamplingParams Sequence Scheduler ChainCache ChainCoordinator RecurrentRows RecurrentGuarantees RuntimeState RuntimeFacts.

(** ** Totals and one-by-one payment *)

Definition cost (c : PyDict string Z) (k : string) : Z := default 0 (c !! k).
Definition total_of (cs : list (PyDict string Z)) (k : string) : Z := sumZ ((fun c => cost c k) <$> cs).
(** Admitting the prompts with these costs in turn, as the scheduler does. *)
Fixpoint admit_all (b : PyDict string Z) (cs : list (PyDict string Z)) : bool :=
  match cs with
  | [] => true
  | c :: cs' =>
      match failing_budget b (items c) with
      | Some _ => false
      | None => admit_all (pay_budgets (items c) b) cs'
      end
  end.
(** A dictionary of costs: each key once, nothing negative. *)
Definition fair (c : PyDict string Z) : Prop := dict_wf c /\ forall k n, c !! k = Some n -> 0 <= n.

Lemma fair_cost c k : fair c -> 0 <= cost c k.
Proof. intros [_ Hc]. unfold cost. destruct (c !! k) as [n|] eqn:E; cbn; [by eapply Hc|lia]. Qed.
Lemma fair_total cs k : Forall fair cs -> 0 <= total_of cs k.
Proof. intros Hcs. apply sumZ_nonneg, Forall_fmap. eapply Forall_impl; [exact Hcs|]. intros c Hc. by apply fair_cost. Qed.

Lemma failing_budget_spec (b : PyDict string Z) (l : list (string * Z)) :
  failing_budget b l = None <-> forall k n, (k, n) ∈ l -> n <= default 0 (b !! k).
Proof.
  induction l as [|[k n] l IH]; cbn; [by split; [intros _ ? ? ?%elem_of_nil|]|]. destruct (Z.ltb_spec (default 0 (b !! k)) n) as [Hlt|Hle].
  - split; [done|]. intros Hall. specialize (Hall k n ltac:(by left)). lia.
  - rewrite IH. split; [|intros Hall ? ? ?; apply Hall; by right].
    intros Hall k' n' [[= -> ->]|Hin]%elem_of_cons; [done|by apply Hall].
Qed.
Lemma cost_cons k' n (l : list (string * Z)) k : NoDup (k' :: l.*1) ->
  cost (mkDict ((k', n) :: l)) k = if decide (k' = k) then n else cost (mkDict l) k.
Proof.
  intros [Hni _]%NoDup_cons. unfold cost.
  change (mkDict ((k', n) :: l) !! k) with (if decide (k' = k) then Some n else mkDict l !! k). by case_decide.
Qed.
(** Adding or taking away every entry of [l]. *)
Lemma foldl_cost (f : Z -> Z -> Z) (l : list (string * Z)) (b : PyDict string Z) k : NoDup l.*1 -> (forall x, f x 0 = x) ->
  cost (foldl (fun t kv => <[kv.1 := f (default 0 (t !! kv.1)) kv.2]> t) b l) k = f (cost b k) (cost (mkDict l) k).
Proof.
  intros Hnd Hf. revert b Hnd. induction l as [|[k' n] l IH]; intros b Hnd; [by unfold cost at 3|].
  rewrite cost_cons by exact Hnd. cbn [foldl fst snd]. cbn in Hnd. apply NoDup_cons in Hnd as [Hni Hnd]. rewrite IH by done.
  unfold cost at 1. rewrite dict_lookup_insert. case_decide; [|done]. subst. cbn [default from_option id].
  assert (cost (mkDict l) k = 0) as ->; [|by rewrite Hf].
  unfold cost. by rewrite (proj1 (dict_not_elem_of_keys (mkDict l) k) Hni).
Qed.
Lemma pay_budgets_cost c (b : PyDict string Z) k : dict_wf c -> cost (pay_budgets (items c) b) k = cost b k - cost c k.
Proof. intros Hc. destruct c as [l]. apply (foldl_cost Z.sub l b k); [exact Hc|lia]. Qed.
Lemma add_costs_cost c (d : PyDict string Z) k : dict_wf c -> cost (add_costs (items c) d) k = cost d k + cost c k.
Proof. intros Hc. destruct c as [l]. apply (foldl_cost Z.add l d k); [exact Hc|lia]. Qed.
Lemma add_costs_keys c (d : PyDict string Z) k : k ∈ keys (add_costs (items c) d) <-> k ∈ keys d \/ k ∈ keys c.
Proof.
  destruct c as [l]. unfold add_costs, keys at 3. cbn [items]. revert d. induction l as [|[k' n] l IH]; intros d; cbn; [rewrite elem_of_nil; tauto|].
  rewrite IH, elem_of_cons, !dict_elem_of_keys, dict_lookup_insert. case_decide; [subst|]; naive_solver.
Qed.
Lemma add_costs_wf c (d : PyDict string Z) : dict_wf d -> dict_wf (add_costs (items c) d).
Proof. unfold add_costs. revert d. induction (items c) as [|kv l IH]; intros d Hd; cbn; [done|]. by apply IH, dict_wf_insert. Qed.

Lemma admit_all_spec cs b : Forall fair cs ->
  admit_all b cs = true <-> forall c k, c ∈ cs -> k ∈ keys c -> total_of cs k <= cost b k.
Proof.
  revert b. induction cs as [|c cs IH]; intros b; cbn [admit_all]; [by split; [intros _ ? ? ?%elem_of_nil|]|].
  intros [Hc Hcs]%Forall_cons. assert (forall k, total_of (c :: cs) k = cost c k + total_of cs k) as Htot by done.
  destruct (failing_budget b (items c)) as [x|] eqn:E.
  - split; [done|]. intros Hall. exfalso. enough (failing_budget b (items c) = None) by congruence.
    apply failing_budget_spec. intros k n Hin. apply dict_elem_of_items in Hin as Hl; [|apply Hc].
    specialize (Hall c k ltac:(by left)). rewrite dict_elem_of_keys in Hall. specialize (Hall ltac:(eauto)).
    rewrite Htot in Hall. pose proof (fair_total cs k Hcs). unfold cost in *. rewrite Hl in Hall. cbn in Hall. lia.
  - rewrite IH by done. rewrite failing_budget_spec in E. split.
    + intros Hall d k [->|Hd]%elem_of_cons Hk.
      * rewrite Htot. assert (cost c k <= cost b k) as Hle.
        { unfold cost. apply dict_elem_of_keys in Hk as [n Hn]. rewrite Hn. by apply E, dict_elem_of_items_1. }
        destruct (decide (Exists (fun d => k ∈ keys d) cs)) as [Hex|Hno].
        -- apply Exists_exists in Hex as (d & Hd & Hkd). specialize (Hall d k Hd Hkd). rewrite pay_budgets_cost in Hall by apply Hc. lia.
        -- enough (total_of cs k = 0) by lia. clear -Hno. induction cs as [|d cs IH]; [done|].
           change (total_of (d :: cs) k) with (cost d k + total_of cs k).
           rewrite Exists_cons in Hno. apply Decidable.not_or in Hno as [Hd Hno]. rewrite (IH Hno).
           apply dict_not_elem_of_keys in Hd. unfold cost. by rewrite Hd.
      * specialize (Hall d k Hd Hk). rewrite pay_budgets_cost in Hall by apply Hc. rewrite Htot. lia.
    + intros Hall d k Hd Hk. specialize (Hall d k ltac:(by right) Hk). rewrite pay_budgets_cost by apply Hc. rewrite Htot in Hall. lia.
Qed.

(** The dictionary of the totals. *)
Definition totals (cs : list (PyDict string Z)) (d : PyDict string Z) : PyDict string Z := foldl (fun t c => add_costs (items c) t) d cs.
Lemma totals_spec cs d : Forall fair cs -> dict_wf d -> dict_wf (totals cs d) /\
  (forall k, cost (totals cs d) k = cost d k + total_of cs k) /\
  forall k, k ∈ keys (totals cs d) <-> k ∈ keys d \/ exists c, c ∈ cs /\ k ∈ keys c.
Proof.
  unfold totals. revert d. induction cs as [|c cs IH]; intros d; cbn [foldl].
  { intros _ Hd. split_and!; [done|intros; unfold total_of; cbn; lia|]. intros k. split; [by left|]. by intros [?|(? & ?%elem_of_nil & _)]. }
  intros [Hc Hcs]%Forall_cons Hd. destruct (IH (add_costs (items c) d)) as (H1 & H2 & H3); [done|by apply add_costs_wf|].
  split_and!; [done| |].
  - intros k. rewrite H2, add_costs_cost by apply Hc. change (total_of (c :: cs) k) with (cost c k + total_of cs k). lia.
  - intros k. rewrite H3, add_costs_keys. setoid_rewrite elem_of_cons. naive_solver.
Qed.

Lemma cost_at (d : PyDict string Z) k n : d !! k = Some n -> cost d k = n.
Proof. intros E. unfold cost. by rewrite E. Qed.

Lemma existsb_false {A} (f : A -> bool) l : existsb f l = false -> forall x, x ∈ l -> f x = false.
Proof.
  intros Hf x Hx. apply not_true_iff_false. intros E. apply not_true_iff_false in Hf. apply Hf, existsb_exists.
  exists x. split; [by apply list_elem_of_In|done].
Qed.

Lemma totals_fit cs (b : PyDict string Z) : Forall fair cs ->
  existsb (fun kv => default 0 (b !! kv.1) <? kv.2) (items (totals cs ∅)) = negb (admit_all b cs).
Proof.
  intros Hcs. destruct (totals_spec cs ∅ Hcs dict_wf_empty) as (Hwf & Hcost & Hkeys).
  destruct (admit_all b cs) eqn:E; cbn.
  - rewrite admit_all_spec in E by done. apply not_true_iff_false. rewrite existsb_exists. intros ([k n] & Hin & Hlt). cbn in Hlt.
    apply list_elem_of_In, dict_elem_of_items in Hin; [|done]. bool_to_prop.
    assert (k ∈ keys (totals cs ∅)) as Hk by (apply dict_elem_of_keys; eauto). apply Hkeys in Hk as [Hk|(c & Hc & Hk)]; [by apply elem_of_nil in Hk|].
    specialize (E c k Hc Hk). specialize (Hcost k). rewrite (cost_at _ _ _ Hin) in Hcost. change (cost ∅ k) with 0 in Hcost. unfold cost in E. lia.
  - apply not_false_iff_true. intros Hnone. enough (admit_all b cs = true) by congruence. apply admit_all_spec; [done|].
    intros c k Hc Hk. assert (k ∈ keys (totals cs ∅)) as Hkt by (apply Hkeys; right; eauto).
    apply dict_elem_of_keys in Hkt as [n Hn]. specialize (Hcost k). rewrite (cost_at _ _ _ Hn) in Hcost.
    change (cost ∅ k) with 0 in Hcost. replace (total_of cs k) with n by lia.
    apply Z.nlt_ge. intros Hlt. pose proof (existsb_false _ _ Hnone (k, n) (dict_elem_of_items_1 _ _ _ Hn)) as Hfit. cbn in Hfit.
    bool_to_prop. unfold cost in Hlt. lia.
Qed.

(** ** The check *)

Section startup.
Context {M K Input G CS PS DType Device Content Event : Type}
  `{TorchTypes DType Device Content Event} `{MemoryOwners M K Input G CS PS DType Device Content Event}.
#[local] Abbreviation RtAct := (Act PyExn (RuntimeState M)).

(** What every prompt costs, and what they reserve together. *)
Fixpoint price_all (seqs : list Sequence) (logical : Z) : RtAct (list (PyDict string Z) * Z) :=
  match seqs with
  | [] => mret ([], logical)
  | q :: seqs' =>
      costs ← rt_prompt_admission_costs q;
      n ← rt_prompt_logical_reservation_cost q;
      rest ← price_all seqs' (logical + n);
      mret (costs :: rest.1, rest.2)
  end.
(** The startup check as one admission after another. *)
Definition startup_admission (first_id : Z) (prompt_lengths : list Z) (max_toks : Z) : RtAct bool :=
  guard_not (bool_decide (prompt_lengths = []) || existsb (fun n => n <=? 0) prompt_lengths)
    (ValueError "Startup prompt lengths must be positive") ;;
  params ← lift (post_init (default_sampling <| max_tokens := max_toks |> <| temperature := float_of 0 |> <| ignore_eos := true |>));
  let seqs := startup_seqs first_id params prompt_lengths in
  chunk ← read rt_engine_prefill_chunk_size;
  budgets ← rt_prompt_admission_budgets seqs chunk;
  priced ← price_all seqs 0;
  if admit_all budgets priced.1 then free ← rt_prompt_admission_free_slots; mret (priced.2 <=? free) else mret false.

(** The cache manager's costs are dictionaries of numbers that are not negative. *)
Definition fair_costs : Prop := forall q (m : M) d m', cm_prompt_admission_costs q m = (Ok d, m') -> fair d.

Lemma fair_insert d k n : fair d -> 0 <= n -> fair (<[k := n]> d).
Proof.
  intros [Hwf Hd] Hn. split; [by apply dict_wf_insert|]. intros k' n'. rewrite dict_lookup_insert.
  case_decide; [by intros [= <-]|apply Hd].
Qed.
Lemma add_to_slots_fair msg extra d d' : fair d -> add_to_slots msg extra d = Ok d' -> fair d'.
Proof.
  intros Hd. unfold add_to_slots. destruct (Z.leb_spec extra 0); [by intros [= <-]|].
  destruct (d !! "slots"%string) as [n|] eqn:E; [intros [= <-]; apply fair_insert; [done|]; apply Hd in E; lia|].
  destruct ((len d =? 2)%nat && _); [|done]. destruct (List.find _ (items d)) as [[key n]|] eqn:Ef; [|done]. intros [= <-].
  apply find_some in Ef as [Hin _]. apply list_elem_of_In, dict_elem_of_items in Hin; [|apply Hd].
  apply fair_insert; [done|]. apply Hd in Hin. lia.
Qed.
Context (Hfair : fair_costs).

Lemma costs_fair q t : wpo (rt_prompt_admission_costs q) (fun d _ => fair d) t.
Proof.
  unfold rt_prompt_admission_costs. apply wpo_bind, wpo_on_owners. intros d m' E. do 2 wpo_step.
  apply wpo_bind. eapply wpo_mono; [apply wpo_any|]. cbv beta. intros extra t' _. apply wpo_lift. intros d' E'.
  eapply add_to_slots_fair; [|exact E']. apply fair_insert; [by eapply Hfair|]. case_match; lia.
Qed.
Lemma price_all_fair seqs n t : wpo (price_all seqs n) (fun p _ => Forall fair p.1) t.
Proof.
  revert n t. induction seqs as [|q seqs IH]; intros n t; cbn [price_all]; [by wpo_step|].
  apply wpo_bind. eapply wpo_mono; [apply costs_fair|]. cbv beta. intros c t1 Hc.
  apply wpo_bind. eapply wpo_mono; [apply wpo_any|]. cbv beta. intros k t2 _.
  apply wpo_bind. eapply wpo_mono; [apply IH|]. cbv beta. intros rest t3 Hr. wpo_step. by constructor.
Qed.

(** Adding up is pricing and then adding. *)
Lemma aggregate_priced seqs d n t : aggregate_costs seqs d n t = (p ← price_all seqs n; mret (totals p.1 d, p.2)) t.
Proof.
  revert d n t. induction seqs as [|q seqs IH]; intros d n t; [done|]. cbn [aggregate_costs price_all].
  unfold mbind, Act_bind. destruct (rt_prompt_admission_costs q t) as [[c|e] t1]; [|done].
  destruct (rt_prompt_logical_reservation_cost q t1) as [[k|e] t2]; [|done]. rewrite IH. unfold mbind, Act_bind.
  by destruct (price_all seqs (n + k) t2) as [[[cs l]|e] t3].
Qed.

End startup.

(** ** A concrete owner

    A cache manager that counts free slots, each token of a prompt costing one;
    no coordinator and no recurrent rows. *)
#[local] Existing Instance one_device.
Definition yields {S A} (x : A) : Act PyExn S A := mret x.
#[local] Instance slot_owner : MemoryOwners Z unit unit unit unit unit unit unit Z unit := {|
  cm_num_free_slots := read (fun n => n);
  cm_prefill_batched_tokens_margin := yields 0;
  cm_remaining_prefill_tokens := fun q => yields (num_prompt_tokens q - num_prefilled_tokens q);
  cm_prefill_execution_mode := fun _ => yields "chunked"%string;
  cm_prefill_batch_compatibility_key := fun _ => yields tt;
  cm_reset_prefill_execution_state := fun _ => yields tt;
  cm_complete_prefill_execution := fun _ => yields tt;
  cm_reserved_prefill_slots := fun _ _ => yields 0;
  cm_should_schedule_full_prefill := fun _ => yields false;
  cm_requires_full_prefill_step := fun _ => yields false;
  cm_requires_long_prefill_offload := fun _ => yields false;
  cm_prefill_step_free_slots := read (fun n => n);
  cm_prefill_step_free_slots_for := fun _ => read (fun n => n);
  cm_min_final_prefill_chunk_size := fun _ => yields 0;
  cm_prefill_step_reservation_cost := fun _ n => yields n;
  cm_decode_step_free_slots := read (fun n => n);
  cm_decode_step_free_slots_for := fun _ => read (fun n => n);
  cm_decode_step_reservation_cost := fun _ => yields 1;
  cm_prompt_admission_free_slots := read (fun n => n);
  cm_prompt_admission_budgets := fun _ _ => read (fun n => mkDict [("slots"%string, n)]);
  cm_prompt_admission_costs := fun q => yields (mkDict [("slots"%string, Z.max 0 (num_prompt_tokens q))]);
  cm_prompt_admission_cost := fun q => yields (num_prompt_tokens q);
  cm_prompt_logical_reservation_cost := fun q => yields (num_prompt_tokens q);
  cm_prompt_admission_failure_action := yields "defer"%string;
  cm_on_prompt_admitted := fun q _ => modify (fun n => n - num_prompt_tokens q);
  cm_refresh_prefix_cache_hit := fun _ => yields no_prefix_hit;
  cm_clear_prefix_cache_hit := fun _ => yields no_prefix_hit;
  cm_prepare_step := fun _ _ => yields tt;
  cm_prepare_decode_static := fun _ _ => yields tt;
  cm_on_forward_end := fun _ _ => yields tt;
  cm_free_seq := fun _ => yields tt;
  cm_on_chain_turn_finished := fun _ _ => yields tt;
  cm_chain_hooks := fun _ => mkManager None None None;
  cm_reset_after_warmup := None;
  cm_reset_prefix_cache := None;
  cm_init_decode_graph_state := fun _ => yields tt;
  cm_prepare_decode_graph_step := fun _ _ => yields tt;
  cm_prepare_decode_graph_in := fun _ => yields tt;
  pc_step_reclaimable_slots := yields 0;
  pc_admission_reclaimable_slots := yields 0;
  pc_prefix_hit_evictable_slots := fun _ => yields 0;
  pc_evict_for_slots := fun _ => yields tt;
  pc_attach_prefix_cache_hits := fun _ => yields tt;
  pc_record_step_tokens := fun _ _ => yields tt;
  pc_commit_pending_blocks := fun _ => yields tt;
  pc_finish_step := yields tt;
  pc_release_seq := fun _ => yields tt;
  pc_refresh_prefix_cache_hit := fun _ => yields no_prefix_hit;
  pc_reset_after_warmup := yields tt;
  op_init := fun _ _ => yields tt;
  op_close := fun _ _ => yields tt;
  op_prepare_out := fun _ _ => yields tt;
  op_prepare_in := fun _ _ => yields tt;
  graph_capacity := fun _ => 1;
  graph_device := fun _ => tt;
  recurrent_of := fun _ => None;
  set_recurrent := fun _ n => n;
|}.
Lemma slot_owner_fair : fair_costs (M := Z) (K := unit) (Input := unit) (G := unit) (CS := unit) (PS := unit).
Proof.
  intros q m d m' [= <- _]. split; [apply (NoDup_singleton "slots"%string)|]. intros k n. unfold lookup, dict_lookup. cbn.
  case_decide; [|done]. intros [= <-]. lia.
Qed.
(** Two sequences may be resident, eight slots are free. *)
Definition small_runtime : RuntimeState Z := new_runtime 2 8 8 None None 0.

Section claims.
Context {M K Input G CS PS DType Device Content Event : Type}
  `{TorchTypes DType Device Content Event} `{MemoryOwners M K Input G CS PS DType Device Content Event}.

(** At startup the runtime accepts a batch of prompts exactly when the
    scheduler could admit them one after another, each paying its costs from
    the budgets its predecessors left and all of them reserving no more than
    the free slots; it returns, raises and leaves the same state. *)
Theorem startup_check_is_admission first_id lengths n (t : RuntimeState M) :
  fair_costs ->
  startup_batch_fits first_id lengths n t = startup_admission first_id lengths n t.
Proof.
  intros Hfair. unfold startup_batch_fits, startup_admission, mbind, Act_bind, guard_not, lift, read.
  destruct (_ || _); [done|]. destruct (post_init _) as [params|e]; [|done].
  destruct (rt_prompt_admission_budgets _ _ t) as [[b|e] t1]; [|done]. rewrite aggregate_priced. unfold mbind, Act_bind.
  pose proof (price_all_fair Hfair (startup_seqs first_id params lengths) 0 t1) as Hp. unfold wpo, wp in Hp.
  destruct (price_all _ 0 t1) as [[[cs l]|e] t2]; [|done]. cbn [fst snd] in *. cbn [mret Act_ret].
  rewrite totals_fit by exact Hp. by destruct (admit_all b cs).
Qed.
End claims.

Lemma startup_check_is_admission_witness :
  (startup_batch_fits 1 [4; 3] 16 small_runtime).1 = Ok true /\
  (startup_admission 1 [4; 3] 16 small_runtime).1 = Ok true /\
  (startup_admission 1 [4; 5] 16 small_runtime).1 = Ok false /\
  (startup_admission 1 [2; 2; 2] 16 small_runtime).1 = Ok false.
Proof.
  split; [|split_and!; vm_compute; reflexivity].
  rewrite (startup_check_is_admission 1 [4; 3] 16 small_runtime slot_owner_fair). vm_compute. reflexivity.
Defined.
