(* ===== verification/RuntimeGuarantees.v ===== *)
(** * The runtime state: guarantees

    The scheduler on top of the runtime: no run of the two, refused and raising
    operations included, ever holds more resident sequences than configured; and
    the startup check is the sequential admission of its prompts. *)

From stdpp Require Import base gmap list strings sorting.
From Stdlib Require Import ZArith Lia.
From S2P Require Import Prelude PyDict PyBytes Sha256 SamplingParams Sequence Scheduler SchedulerFacts ChainCache ChainCoordinator RecurrentRows RecurrentGuarantees RuntimeState RuntimeFacts RuntimeStartup.

Section system.
Context {M K Input G CS PS DType Device Content Event : Type} `{EqDecision K}
  `{TorchTypes DType Device Content Event} `{MemoryOwners M K Input G CS PS DType Device Content Event}
  (key_hashable : K -> bool) (limit : Z).
#[local] Instance the_oracle : MemoryOracle (RuntimeState M) K := runtime_oracle key_hashable.
#[local] Abbreviation System := (Scheduler (RuntimeState M)).
#[local] Abbreviation RtAct := (Act PyExn (RuntimeState M)).
#[local] Abbreviation SysAct := (Act PyExn (Scheduler (RuntimeState M))).
Implicit Types (s : System) (id : Z) (r : Round).

(** ** What a round leaves to the admissions *)

Definition room b s : Prop := has_room limit b (oracle s).

Lemma keep_on_oracle {A} b (a : Act PyExn (RuntimeState M) A) : keep (has_room limit b) a -> keep (room b) (on_oracle a).
Proof. intros Ha s Hs. specialize (Ha (oracle s) Hs). unfold wp, on_oracle in *. by destruct (a (oracle s)). Qed.
(** A write that does not reach the oracle. *)
Lemma keep_write b (f : System -> System) : (forall s, oracle (f s) = oracle s) -> keep (room b) (modify f : SysAct unit).
Proof. intros Hf. apply keep_modify. intros s. unfold room. by rewrite Hf. Qed.
Lemma keep_get_seq b id : keep (room b) (get_seq id : SysAct Sequence).
Proof. intros s Hs. unfold wp, get_seq. by destruct (objects s !! id). Qed.
Lemma keep_set_seq b id f : keep (room b) (set_seq id f : SysAct unit).
Proof. by apply keep_write. Qed.
Lemma keep_call_seq {A} b id (m : SeqAct A) : keep (room b) (call_seq id m : SysAct A).
Proof.
  unfold call_seq. apply keep_bind; [apply keep_get_seq|]. intros q. destruct (m q).
  apply keep_bind; [apply keep_set_seq|intros _; apply keep_lift].
Qed.
Hint Resolve keep_get_seq keep_set_seq keep_call_seq : keep.
Hint Resolve keep_owners keep_refresh keep_mode keep_plus keep_step_reclaimable keep_admission_reclaimable
  keep_free_slots_for keep_budgets keep_costs keep_logical keep_admission_free has_room_residency : keep.

(** The runtime's own definition of the oracle's method. *)
Ltac oracle_method :=
  cbv beta iota delta [the_oracle runtime_oracle num_free_slots prefill_batched_tokens_margin remaining_prefill_tokens
    prefill_execution_mode prefill_batch_compatibility_key reset_prefill_execution_state complete_prefill_execution
    reserved_prefill_slots should_schedule_full_prefill prefill_step_free_slots prefill_step_free_slots_for
    min_final_prefill_chunk_size prefill_step_reservation_cost decode_step_free_slots decode_step_free_slots_for
    decode_step_reservation_cost prompt_admission_free_slots prompt_admission_budgets prompt_admission_costs
    prompt_logical_reservation_cost prompt_admission_failure_action on_prompt_admitted refresh_prefix_cache_hit
    oracle_clear_prefix_cache_hit rt_clear_prefix_cache_hit rt_prefill_step_free_slots rt_decode_step_free_slots
    rt_decode_step_free_slots_for].
Ltac round_step :=
  lazymatch goal with
  | |- keep _ (on_oracle _) => apply keep_on_oracle; oracle_method
  | |- keep _ (modify _) => apply keep_write; by intros ?
  | |- _ => keep_step
  end.
Ltac round_auto := repeat (round_step; cbv beta iota zeta).

Lemma keep_batch_key b id : keep (room b) (prefill_batch_key id).
Proof. unfold prefill_batch_key, prefill_mode_of. round_auto. Qed.
Lemma keep_metadata b id : keep (room b) (refresh_prefill_metadata id).
Proof. unfold refresh_prefill_metadata. round_auto. Qed.
Hint Resolve keep_batch_key keep_metadata : keep.
Lemma keep_mode_order b pending ids modes : keep (room b) (mode_order_loop pending ids modes).
Proof. revert modes. induction ids as [|id ids IH]; intros; cbn [mode_order_loop]; round_auto. Qed.
Lemma keep_find_prefill b pending target i ids : keep (room b) (find_prefill pending target i ids).
Proof. revert i. induction ids as [|id ids IH]; intros; cbn [find_prefill]; round_auto. Qed.
Hint Resolve keep_mode_order keep_find_prefill : keep.
Lemma keep_pop_waiting b i : keep (room b) (pop_waiting_at i : SysAct Z).
Proof. intros s Hs. unfold wp, pop_waiting_at. by destruct (pop_at i (waiting s)) as [[? ?]|]. Qed.
Lemma keep_pop_decoding b i : keep (room b) (pop_decoding_at i : SysAct Z).
Proof. intros s Hs. unfold wp, pop_decoding_at. by destruct (pop_at i (decoding s)) as [[? ?]|]. Qed.
Hint Resolve keep_pop_waiting keep_pop_decoding : keep.
Lemma keep_pop_prefill b target : keep (room b) (pop_next_prefill_seq target).
Proof. unfold pop_next_prefill_seq. round_auto. Qed.
Lemma keep_find_decoding b l i ids : keep (room b) (find_decoding l i ids : SysAct (option nat)).
Proof. revert i. induction ids as [|id ids IH]; intros; cbn [find_decoding]; round_auto. Qed.
Hint Resolve keep_pop_prefill keep_find_decoding : keep.
Lemma keep_pop_next_decoding b l : keep (room b) (pop_next_decoding_seq l : SysAct (option Z)).
Proof. unfold pop_next_decoding_seq. round_auto. Qed.
Lemma keep_requeue b id : keep (room b) (requeue_waiting id : SysAct unit).
Proof. by apply keep_write. Qed.
Lemma keep_requeue_decoding b id : keep (room b) (requeue_decoding id : SysAct unit).
Proof. by apply keep_write. Qed.
Lemma keep_drop_decoding b id : keep (room b) (drop_decoding id : SysAct unit).
Proof. by apply keep_write. Qed.
Lemma keep_reset_checkpoint b id : keep (room b) (reset_checkpoint id : SysAct unit).
Proof. apply keep_set_seq. Qed.
Lemma keep_respect b id n p : keep (room b) (respect_min_final_prefill_chunk id n p).
Proof. unfold respect_min_final_prefill_chunk. round_auto. Qed.
Lemma keep_chunk b id n r : keep (room b) (schedule_chunk id n r).
Proof. unfold schedule_chunk. round_auto. Qed.
Hint Resolve keep_pop_next_decoding keep_requeue keep_requeue_decoding keep_drop_decoding keep_reset_checkpoint keep_respect keep_chunk : keep.
Lemma keep_preempt b v sch pre : keep (room b) (preempt_decode_victim v sch pre).
Proof. unfold preempt_decode_victim. round_auto. Qed.
Lemma keep_decode_loop b n l c free sch bl : keep (room b) (decode_loop n l c free sch bl).
Proof. revert c free sch bl. induction n as [|n IH]; intros; cbn [decode_loop]; round_auto. Qed.
Hint Resolve keep_preempt keep_decode_loop : keep.
Lemma keep_decode_phase b free r : keep (room b) (decode_phase free r).
Proof. unfold decode_phase, no_work. round_auto. Qed.

(** ** Spending seats *)

(** The seats a round may still give away. *)
Definition seats r : Z := default 0 (budgets r !! "resident_seqs"%string).
Definition seats_ok r s : Prop := 0 <= seats r /\ room (seats r) s.
(** [a] started with the round [r] gives away seats of [r] alone. *)
Definition spends {A} (a : SysAct A) (f : A -> Round) r : Prop := forall s, seats_ok r s ->
  wp a (fun x s' => match x with Ok y => seats_ok (f y) s' | Raise _ => room 0 s' end) s.

Lemma room_0 b s : 0 <= b -> room b s -> room 0 s.
Proof. unfold room, has_room. lia. Qed.
Lemma spends_keep {A B} (a : SysAct A) (g : A -> SysAct B) f r : keep (room (seats r)) a ->
  (forall x, spends (g x) f r) -> spends (a ≫= g) f r.
Proof.
  intros Ha Hg s [H1 H2]. apply wp_bind. eapply wp_mono; [by apply Ha|]. cbv beta.
  intros [x|e] s' Hs; [by apply Hg|by eapply room_0].
Qed.
Lemma spends_bind {A B} (a : SysAct A) (g : A -> SysAct B) f1 f r : spends a f1 r ->
  (forall x, spends (g x) f (f1 x)) -> spends (a ≫= g) f r.
Proof.
  intros Ha Hg s Hs. apply wp_bind. eapply wp_mono; [by apply Ha|]. cbv beta. intros [x|e] s' Hs'; [by apply Hg|done].
Qed.
Lemma spends_ret {A} (x : A) f r : seats (f x) = seats r -> spends (mret x) f r.
Proof. intros E s [H1 H2]. apply wp_ret. unfold seats_ok. by rewrite E. Qed.
Lemma spends_throw {A} e (f : A -> Round) r : spends (throw e) f r.
Proof. intros s [H1 H2]. apply wp_throw. by eapply room_0. Qed.

(** *** What the dictionaries say of seats *)

Lemma add_to_slots_seats msg extra d d' : dict_wf d -> add_to_slots msg extra d = Ok d' ->
  dict_wf d' /\ d' !! "resident_seqs"%string = d !! "resident_seqs"%string.
Proof.
  intros Hwf. unfold add_to_slots. destruct (extra <=? 0); [by intros [= <-]|].
  destruct (d !! "slots"%string); [intros [= <-]; split; [by apply dict_wf_insert|by rewrite dict_lookup_insert_ne]|].
  destruct ((len d =? 2)%nat && has_key "resident_seqs"%string d); [|done].
  destruct (List.find _ (items d)) as [[key n]|] eqn:E; [|done]. intros [= <-]. apply find_some in E as [_ E]. cbn in E.
  apply negb_true_iff, String.eqb_neq in E. split; [by apply dict_wf_insert|by rewrite dict_lookup_insert_ne].
Qed.

(** Python dictionaries hold a key once. *)
Definition costs_well_formed : Prop := forall q (m : M) d m', cm_prompt_admission_costs q m = (Ok d, m') -> dict_wf d.
Definition budgets_well_formed : Prop := forall w n (m : M) d m', cm_prompt_admission_budgets w n m = (Ok d, m') -> dict_wf d.
Context (Hcosts : costs_well_formed) (Hbudgets : budgets_well_formed).

Lemma costs_seats q t : wpo (rt_prompt_admission_costs q) (fun d _ => dict_wf d /\
  exists c, d !! "resident_seqs"%string = Some c /\ 0 <= c <= 1) t.
Proof.
  unfold rt_prompt_admission_costs. apply wpo_bind, wpo_on_owners. intros d m' E. do 2 wpo_step.
  apply wpo_bind. eapply wpo_mono; [apply wpo_any|]. cbv beta. intros extra t' _. apply wpo_lift. intros d' E'.
  apply add_to_slots_seats in E' as [Hwf ->]; [|by apply dict_wf_insert, (Hcosts q (owners t) d m')]. split; [done|].
  rewrite dict_lookup_insert_eq. eexists. split; [done|]. case_match; lia.
Qed.

Lemma admitted_room q costs c b t : costs !! "resident_seqs"%string = Some c -> 0 <= c <= 1 -> 0 <= b - c -> has_room limit b t ->
  wp (rt_on_prompt_admitted q costs) (fun x t' => has_room limit (match x with Ok _ => b - c | Raise _ => 0 end) t') t.
Proof.
  intros Hc Hrange Hb Ht. unfold rt_on_prompt_admitted. apply wp_bind. eapply wp_mono; [by apply (keep_owners (has_room limit b))|].
  cbv beta. intros [[]|e] t' Ht'; [|unfold has_room in *; lia]. rewrite Hc. cbn [default from_option id].
  apply wp_when; intros E; bool_to_prop.
  - apply wp_modify. unfold has_room, residents, resident_limit in *. cbn [resident_seq_ids rt_max_num_seqs_in_gpu update_with].
    rewrite size_union_alt, size_singleton.
    assert (size (resident_seq_ids t' ∖ {[seq_id q]}) <= size (resident_seq_ids t'))%nat by (apply subseteq_size; set_solver). lia.
  - unfold has_room in *. lia.
Qed.

Lemma priced q r s : seats_ok r s ->
  wp (on_oracle (prompt_admission_costs q)) (fun x s' => match x with
    | Ok costs => seats_ok r s' /\ dict_wf costs /\ exists c, costs !! "resident_seqs"%string = Some c /\ 0 <= c <= 1
    | Raise _ => room 0 s' end) s.
Proof.
  intros Hs. pose proof (costs_seats q (oracle s)) as Hcost.
  pose proof (keep_costs (has_room limit (seats r)) q (oracle s) (proj2 Hs)) as Hroom.
  unfold wp, on_oracle. change (prompt_admission_costs q) with (rt_prompt_admission_costs q). unfold wpo, wp in Hcost, Hroom.
  destruct (rt_prompt_admission_costs q (oracle s)) as [[costs|e] t1]; cbn [fst snd] in *; [|by eapply room_0, Hroom; apply Hs].
  split; [|exact Hcost]. split; [apply Hs|exact Hroom].
Qed.

Lemma admit_spends id r : spends (admit_prompt id r) snd r.
Proof.
  unfold admit_prompt. apply spends_keep; [apply keep_get_seq|]. intros q s Hs. apply wp_bind.
  eapply wp_mono; [by apply (priced q r)|]. cbv beta. intros [costs|e] s1; [|done]. intros (Hs1 & Hwf & c & Hc & Hrange).
  destruct (failing_budget (budgets r) (items costs)) as [[[name need] free]|] eqn:Hfail.
  { match goal with |- wp ?a _ _ => assert (spends a snd r) as Hrest; [|by apply Hrest] end.
    apply spends_keep; [round_auto|]. intros action.
    destruct (String.eqb action "defer"); [|apply spends_throw].
    apply spends_keep; [round_auto|]. intros _. apply spends_keep; [apply keep_requeue|]. intros _.
    apply spends_ret. cbn. by destruct (deferred_failure r). }
  assert (c <= seats r) as Hle.
  { apply (proj1 (failing_budget_spec _ _) Hfail). by apply dict_elem_of_items_1. }
  set (r' := r <| budgets ::= pay_budgets (items costs) |>).
  assert (seats r' = seats r - c) as Hseats.
  { pose proof (pay_budgets_cost costs (budgets r) "resident_seqs"%string Hwf) as Hpay. unfold cost in Hpay. rewrite Hc in Hpay. exact Hpay. }
  apply wp_bind, wp_modify. apply wp_bind.
  eapply (wp_mono _ (fun x s' => match x with Ok _ => seats_ok r' s' | Raise _ => room 0 s' end)).
  { pose proof (admitted_room q costs c (seats r) (oracle s1) Hc Hrange ltac:(lia) (proj2 Hs1)) as Ha.
    unfold wp, on_oracle in *. cbn [oracle update_with]. change (on_prompt_admitted q costs) with (rt_on_prompt_admitted q costs).
    destruct (rt_on_prompt_admitted q costs (oracle s1)) as [[x|e] t2]; cbn in *; [|done].
    split; [lia|]. unfold room. cbn. by rewrite Hseats. }
  cbv beta. intros [x|e] s2 Hs2; [|done].
  match goal with |- wp ?a _ _ => assert (spends a snd r') as Hrest; [|by apply Hrest] end.
  apply spends_keep; [round_auto|]. intros _. apply spends_keep; [round_auto|]. intros q2.
  apply spends_keep; [round_auto|]. intros n. apply spends_keep; [round_auto|]. intros _. by apply spends_ret.
Qed.

Lemma chunk_spends id n r : spends (schedule_chunk id n r) (fun r' => r') r.
Proof.
  unfold schedule_chunk. apply spends_keep; [round_auto|]. intros _. apply spends_keep; [round_auto|]. intros q.
  apply spends_keep; [round_auto|]. intros cost. apply spends_keep; [round_auto|]. intros _. by apply spends_ret.
Qed.

Lemma candidate_spends mode id r : spends (prefill_candidate mode id r) snd r.
Proof.
  unfold prefill_candidate. apply spends_keep; [round_auto|]. intros q. do 3 (apply spends_keep; [round_auto|]; intros ?).
  apply spends_keep; [round_auto|]. intros _. apply spends_keep; [round_auto|]. intros c.
  apply spends_keep; [round_auto|]. intros proposed. apply spends_keep; [round_auto|]. intros tokens.
  destruct (tokens <=? 0).
  { apply spends_keep; [round_auto|]. intros _. apply spends_ret. unfold note_blocked. cbn. by repeat case_match. }
  apply spends_keep; [round_auto|]. intros q2. apply (spends_bind _ _ snd).
  - destruct (num_prefilled_tokens q2 =? 0); [apply admit_spends|by apply spends_ret].
  - intros [ok r1]. cbn [snd]. destruct ok; cbn [negb]; [|by apply spends_ret].
    apply (spends_bind _ _ (fun r' => r')); [apply chunk_spends|]. intros r2. by apply spends_ret.
Qed.

Lemma bucket_spends n target margin r : spends (bucket_loop n target margin r) (fun r' => r') r.
Proof.
  revert r. induction n as [|n IH]; intros r; cbn [bucket_loop]; [by apply spends_ret|].
  apply spends_keep; [round_auto|]. intros s. destruct (negb _); [by apply spends_ret|].
  apply spends_keep; [round_auto|]. intros [id|]; [|by apply spends_ret].
  apply (spends_bind _ _ snd); [apply candidate_spends|]. intros [stop r']. cbn [snd].
  destruct stop; [by apply spends_ret|apply IH].
Qed.
Lemma buckets_spends order margin r : spends (prefill_buckets order margin r) (fun r' => r') r.
Proof.
  revert r. induction order as [|target order IH]; intros r; cbn [prefill_buckets]; [by apply spends_ret|].
  destruct (negb _); [by apply spends_ret|]. apply spends_keep; [round_auto|]. intros n.
  apply (spends_bind _ _ (fun r' => r')); [apply bucket_spends|]. intros r'. apply IH.
Qed.

(** ** A round *)

Lemma budgeted w n t : has_room limit 0 t -> wp (rt_prompt_admission_budgets w n) (fun x t' =>
  match x with
  | Ok d => 0 <= default 0 (d !! "resident_seqs"%string) /\ has_room limit (default 0 (d !! "resident_seqs"%string)) t'
  | Raise _ => has_room limit 0 t'
  end) t.
Proof.
  intros Ht. unfold rt_prompt_admission_budgets. apply wp_bind. unfold wp at 1, on_owners.
  destruct (cm_prompt_admission_budgets w n (owners t)) as [[d|e] m'] eqn:E; cbn [fst snd]; [|exact Ht].
  set (t1 := t <| owners := m' |>). assert (has_room limit 0 t1) as Ht1 by exact Ht. apply Hbudgets in E as Hwf.
  assert (resident_limit t1 = limit) as Hlim by apply Ht1. clearbody t1. do 2 wp_step.
  set (b := Z.max 0 (rt_max_num_seqs_in_gpu t1 - Z.of_nat (size (resident_seq_ids t1)))).
  assert (0 <= b) as Hb by (unfold b; lia).
  assert (has_room limit b t1) as Hroom.
  { unfold has_room, residents, resident_limit, b in *. destruct (Z.max_spec 0 (rt_max_num_seqs_in_gpu t1 - Z.of_nat (size (resident_seq_ids t1)))); lia. }
  apply wp_bind. eapply wp_mono; [by apply (keep_admission_reclaimable (has_room limit b))|]. cbv beta.
  intros [extra|e] t2 Ht2; [|unfold has_room in *; lia]. apply wp_lift.
  destruct (add_to_slots _ extra _) as [d'|e] eqn:Ed; [|unfold has_room in *; lia].
  apply add_to_slots_seats in Ed as [_ ->]; [|by apply dict_wf_insert]. by rewrite dict_lookup_insert_eq.
Qed.

Lemma start_seats s : room 0 s ->
  wp start_round (fun x s' => match x with Ok (r, _, _) => seats_ok r s' | Raise _ => room 0 s' end) s.
Proof.
  intros Hs. unfold start_round. apply wp_bind. eapply wp_mono; [by apply (keep_on_oracle 0); [oracle_method; round_auto|]|].
  cbv beta. intros [free|e] s1 Hs1; [|done]. do 2 wp_step. apply wp_bind.
  eapply (wp_mono _ (fun x s' => match x with
    | Ok (_, _, d, _) => 0 <= default 0 ((d : PyDict string Z) !! "resident_seqs"%string) /\ room (default 0 (d !! "resident_seqs"%string)) s'
    | Raise _ => room 0 s' end)).
  - destruct (bool_decide _); [by wp_step|]. cbv zeta.
    do 3 (apply wp_bind; eapply wp_mono; [apply (keep_on_oracle 0); [oracle_method; round_auto|eassumption]|];
          cbv beta; intros [?|?] ? ?; [|done]).
    apply wp_bind.
    match goal with Hr : room 0 ?x |- wp (on_oracle (prompt_admission_budgets ?w ?n)) _ ?x =>
      pose proof (budgeted w n (oracle x) Hr) as Hb; unfold wp, on_oracle in *;
      change (prompt_admission_budgets w n) with (rt_prompt_admission_budgets w n);
      destruct (rt_prompt_admission_budgets w n (oracle x)) as [[d|e] t'] end; cbn [fst snd] in *; [|exact Hb].
    destruct Hb as [Hb Hroom]. fold (@wp PyExn System).
    apply wp_bind. eapply wp_mono; [apply (keep_on_oracle (default 0 (d !! "resident_seqs"%string))); [oracle_method; round_auto|exact Hroom]|].
    cbv beta. intros [margin|e] s2 Hs2; [by wp_step|by eapply room_0].
  - cbv beta. intros [[[[logical step] d] margin]|e] s2 Hs2; [|done]. apply wp_bind.
    eapply wp_mono; [apply (keep_on_oracle (default 0 (d !! "resident_seqs"%string))); [oracle_method; round_auto|apply Hs2]|].
    cbv beta. intros [free'|e] s3 Hs3; [|eapply room_0; [|exact Hs3]; apply Hs2]. wp_step. split; [apply Hs2|exact Hs3].
Qed.

Lemma keep_remove_waiting b id : keep (room b) (remove_waiting id : SysAct unit).
Proof. intros s Hs. unfold wp, remove_waiting. by destruct (deque_remove id (waiting s)). Qed.
Lemma keep_remove_decoding b id : keep (room b) (remove_decoding id : SysAct unit).
Proof. intros s Hs. unfold wp, remove_decoding. by destruct (deque_remove id (decoding s)). Qed.

Hint Resolve keep_remove_waiting keep_remove_decoding keep_decode_phase : keep.

Lemma keep_schedule : keep (room 0) schedule.
Proof.
  intros s Hs. unfold schedule. apply wp_bind. eapply wp_mono; [by apply start_seats|]. cbv beta.
  intros [[[r margin] free]|e] s1 Hs1; [|done]. do 2 wp_step.
  assert (0 <= seats r) as Hseats by apply Hs1.
  assert (keep (room (seats r)) (if bool_decide (waiting s1 = []) || (any_replay s1 (waiting s1) && negb (bool_decide (decoding s1 = [])))
    then mret [] else prefill_mode_order)) as Horder by (unfold prefill_mode_order; round_auto).
  apply wp_bind. eapply wp_mono; [apply Horder, Hs1|]. cbv beta. intros [order|e] s2 Hs2; [|by eapply room_0].
  apply wp_bind. eapply wp_mono; [by apply (buckets_spends order margin r)|]. cbv beta. intros [r'|e] s3 Hs3; [|done].
  match goal with |- wp ?a _ _ => assert (keep (room (seats r')) a) as Hend by round_auto end.
  eapply wp_mono; [apply Hend, Hs3|]. cbv beta. intros x s4 Hs4. eapply room_0; [apply Hs3|exact Hs4].
Qed.

(** ** The rest of the system *)

Lemma keep_postprocess b ids tokens p lps tops : keep (room b) (postprocess ids tokens p lps tops).
Proof.
  unfold postprocess. apply keep_for_each. intros [[[id token] lp] top]. destruct p.
  - unfold postprocess_prefill. round_auto.
  - unfold postprocess_decode. round_auto.
Qed.
Lemma keep_abort b id : keep (room b) (abort id).
Proof. unfold abort. round_auto. Qed.
Lemma keep_add b q : keep (room b) (add_request q : SysAct unit).
Proof. by apply keep_write. Qed.

(** ** Runs *)

Context `{Digest} (fp : bytes).
#[local] Abbreviation Graph := (@DecodeGraph G CS PS).

(** What the engine asks of the scheduler and, between rounds, of the runtime. *)
Inductive SysOp :=
| SysAdd (q : Sequence)
| SysAbort (id : Z)
| SysSchedule
| SysPostprocess (ids tokens : list Z) (is_prefill : bool) (lps : list (option PyFloat)) (tops : list (option TopLogprobs))
| SysPrepare (seqs : list Sequence) (is_prefill : bool)
| SysPrepareStatic (seqs : list Sequence) (args : option (Z * Device))
| SysGraphStep (seqs : list Sequence) (g : Graph)
| SysForwardEnd (seqs : list Sequence) (is_prefill : bool)
| SysFree (q : Z)
| SysChainApply (p : ChainAdmissionPlan)
| SysChainFinish (chain : string) (q : Z) (d : bytes) (processed : Z)
| SysChainInvalidate (chain : string) (expected : option Z)
| SysReset
| SysStartup (first_id : Z) (lengths : list Z) (max_toks : Z).

(** The runtime after an operation, whether it returned or raised. *)
Definition after {X A} (a : Act X (RuntimeState M) A) (s : System) : System := s <| oracle := (a (oracle s)).2 |>.
Definition run_sys_op (s : System) (op : SysOp) : System :=
  match op with
  | SysAdd q => (add_request q s).2
  | SysAbort id => (abort id s).2
  | SysSchedule => (schedule s).2
  | SysPostprocess ids tokens p lps tops => (postprocess ids tokens p lps tops s).2
  | SysPrepare seqs p => after (rt_prepare_step seqs p) s
  | SysPrepareStatic seqs args => after (rt_prepare_decode_static seqs args) s
  | SysGraphStep seqs g => after (prepare_decode_graph_step seqs g) s
  | SysForwardEnd seqs p => after (rt_on_forward_end seqs p) s
  | SysFree q => after (free_seq_payload q) s
  | SysChainApply p => after (chain_apply_admission fp p) s
  | SysChainFinish chain q d n => after (chain_finish chain q d n) s
  | SysChainInvalidate chain e => after (chain_invalidate chain e) s
  | SysReset => after rt_reset_after_warmup s
  | SysStartup id lengths n => after (startup_batch_fits id lengths n) s
  end.
Definition run_sys_ops (ops : list SysOp) (s : System) : System := foldl run_sys_op s ops.

Lemma after_room {X A} (a : Act X (RuntimeState M) A) s : keep (has_room limit 0) a -> room 0 s -> room 0 (after a s).
Proof. intros Ha Hs. exact (Ha (oracle s) Hs). Qed.

Lemma run_sys_room ops s : room 0 s -> room 0 (run_sys_ops ops s).
Proof.
  revert s. induction ops as [|op ops IH]; intros s Hs; [done|]. apply IH.
  destruct op; cbn [run_sys_op].
  - by apply keep_add.
  - by apply keep_abort.
  - by apply keep_schedule.
  - by apply keep_postprocess.
  - apply after_room; [apply keep_prepare_step; apply _|exact Hs].
  - apply after_room; [apply keep_prepare_static; apply _|exact Hs].
  - apply after_room; [apply keep_graph_step; apply _|exact Hs].
  - apply after_room; [apply keep_forward_end; apply _|exact Hs].
  - apply after_room; [apply keep_free; apply _|exact Hs].
  - apply after_room; [apply keep_chain_apply; apply _|exact Hs].
  - apply after_room; [apply keep_chain_finish; apply _|exact Hs].
  - apply after_room; [apply keep_chain_invalidate; apply _|exact Hs].
  - apply after_room; [apply keep_reset; apply _|exact Hs].
  - apply after_room; [apply keep_startup; apply _|exact Hs].
Qed.
End system.

Section claims.
Context {M K Input G CS PS DType Device Content Event : Type} `{EqDecision K}
  `{TorchTypes DType Device Content Event} `{MemoryOwners M K Input G CS PS DType Device Content Event} `{Digest}.

(** C22: whatever is asked of a scheduler on top of the runtime, in any order,
    refused and raising operations included, never more sequences are resident
    than [max_num_seqs_in_gpu]: a round admits no more prompts than the resident
    budget it was given, and nothing else makes a sequence resident. *)
Theorem residents_within_limit (key_hashable : K -> bool) (fp : bytes) c eos eos_ids
    max_seqs chunk (m : M) bs chain participants (ops : list SysOp) :
  costs_well_formed -> budgets_well_formed ->
  let s := run_sys_ops key_hashable fp ops (new_scheduler c eos eos_ids (new_runtime max_seqs chunk m bs chain participants)) in
  Z.of_nat (size (resident_seq_ids (oracle s))) <= Z.max 0 max_seqs.
Proof.
  intros Hcosts Hbudgets s.
  assert (room (Z.max 0 max_seqs) 0 s) as [_ Hr]; [|unfold residents in Hr; lia].
  apply run_sys_room; [done..|]. split; [done|]. unfold residents. cbn. rewrite size_empty. lia.
Qed.
End claims.

#[local] Existing Instance one_device.
#[local] Existing Instance slot_owner.
Definition prompt_of (id : Z) : Sequence := new_sequence id [11; 12] default_sampling.
(** Three prompts fit the free slots; the third has no seat until the first is freed. *)
Definition small_run : list (@SysOp unit unit unit unit) :=
  [SysAdd (prompt_of 1); SysAdd (prompt_of 2); SysAdd (prompt_of 3); SysSchedule].
Definition small_system : Scheduler (RuntimeState Z) :=
  new_scheduler (mkSchedConfig "" 4 16 4 8 ∅ 0 0 0) None EosNone small_runtime.

Lemma residents_within_limit_witness :
  let s := run_sys_ops (K := unit) (fun _ => true) [] small_run small_system in
  Z.of_nat (size (resident_seq_ids (oracle s))) <= 2 /\
  elements (resident_seq_ids (oracle s)) = [2; 1] /\ waiting s = [3].
Proof.
  intros s. split; [|split; vm_compute; reflexivity].
  apply (residents_within_limit (K := unit) (fun _ => true) [] _ None EosNone 2 8 8 None None 0 small_run).
  - intros q m d m' E. by apply (slot_owner_fair q m d m').
  - intros w n m d m' [= <- _]. apply (NoDup_singleton "slots"%string).
Defined.
